(* ===== verification/_CoqProject ===== *)
-Q . S2P
Prelude.v
Chainbase.v
Name.v
Merkle.v
Authority.v
AuthorityChecker.v
ResourceLimits.v
BlockTimestamp.v
BlockHeader.v
BlockHeaderState.v
ForkDatabase.v
ProtocolFeatures.v
WhitelistedIntrinsics.v
FeatureActivation.v
AuthorizationManager.v
BlockRunner.v
ForkSwitch.v
IteratorCache.v
ContractTables.v
ContractInvariant.v
ContractOperations.v
ContractIterators.v
ContractTheorems.v
ContractWalks.v
ContractExamples.v
EosioContract.v
NativeActions.v
NativeExamples.v
ChainConfig.v
AccessLists.v
Transaction.v
TransactionContext.v
TransactionBilling.v
TransactionExamples.v
Deduplication.v
ActionExecution.v
ActionFrames.v
ActionTheorems.v
ActionExamples.v
Asset.v
PushTransaction.v
PushTheorems.v
PushExamples.v
ProposedSchedule.v
FinalizeBlock.v
FinalizeExamples.v
BlockLog.v
BlockLogTheorems.v
BlockLogRepair.v
BlockLogExamples.v
