(* ===== verification/Prelude.v ===== *)
(** * A verification library for the core of the chain library

    This library verifies the core of the blockchain node in this repository:
    the C++ code of libraries/chain (sources under src/libraries/chain, headers
    under src/libraries/chain/include/eosio/chain).

    ** The program

    A node keeps a tree of candidate blocks (fork_database).  For each block it
    keeps a header state (block_header_state) that says who may produce the
    next block and which blocks are irreversible.  The controller executes the
    blocks of the best branch on a chainbase database, undoes them when the
    best branch changes, and moves irreversible blocks to the block log.
    Executing a block activates protocol features, checks the authorizations of
    transactions (authorization_manager, authority_checker), runs the contracts,
    which keep rows in tables (apply_context, contract_table_objects), and bills
    accounts (resource_limits).

    ** Conventions

    - A C++ function that can throw is a function into [res]; one that also
      changes state is of type [exec S A].  The state reached when an exception
      leaves is kept, as in C++.  Exceptions are the constructors of [exn];
      [undefined_behavior] marks an evaluation C++ leaves undefined,
      [out_of_fuel] a loop that outlives its bound (theorems show it does not).
    - Machine integers are [Z] with the wrap-around written out ([u32], [u64],
      [i64], ...).
    - chainbase, fc, boost and softfloat are not in this repository.  chainbase
      tables are the class [Table] (Chainbase); hashing, signatures and packing
      are the class [Fc] (Merkle, BlockHeader); floats are the class
      [SoftFloat] (ContractTables).  Each class has an instance, so that the
      examples evaluate.

    ** The files

    - Prelude: results, the state-and-exception monad, [wp], machine integers,
      automation, lemmas on lists and finite maps.  Chainbase: tables.
    - Name: name.hpp, name.cpp.  Names round-trip through their strings;
      name::set accepts exactly the well-formed ones.
    - Merkle: merkle.cpp, incremental_merkle.hpp.  The incremental tree has the
      root of the full one.
    - Authority, AuthorityChecker: authority.hpp, authority_checker.hpp.
      [satisfied] is sound for the authority it evaluates, and terminates by
      its depth limit.
    - AuthorizationManager: authorization_manager.cpp.  Permissions stay a tree;
      check_authorization is sound; the special cases of native actions.
    - ResourceLimits: resource_limits.cpp and resource_limits_private.hpp.
      Accumulators, elastic limits, totals equal to the sums of the weights,
      usage within limits, RAM usage exact.
    - BlockTimestamp, BlockHeader, BlockHeaderState: block_timestamp.hpp,
      block_header.cpp, block_header_state.cpp.  DPoS: the irreversible block
      has the confirmations of more than two thirds; the bookkeeping invariant;
      a produced header is accepted by the others.
    - ForkDatabase: fork_database.cpp.  The tree stays linked and its head the
      best validated block under every sequence of operations, those that throw
      included, as long as blocks are added with the number after their
      predecessor's and the root only advances below the head; each operation
      does what it says.
    - ProtocolFeatures, WhitelistedIntrinsics, FeatureActivation:
      protocol_feature_manager.cpp, whitelisted_intrinsics.cpp and the parts of
      controller.cpp on features.  The manager implements a stack; start_block
      is atomic when it opens a database session, whatever follows the
      activations in it.
    - BlockRunner, ForkSwitch: the parts of controller.cpp that apply, commit,
      abort and pop blocks and switch forks.  [BlockRunner] states what fork
      switching needs of block execution, start_block discharges it, and
      ForkSwitch proves against it that push_block follows the fork database,
      on a node that is not replaying, not in irreversible mode and trusts no
      producer, and that pushes settle on the best branch while the irreversible
      number does not fall along a branch.
    - IteratorCache, ContractTables, ContractInvariant, ContractOperations,
      ContractIterators, ContractTheorems, ContractWalks, ContractExamples: the
      database of contracts (apply_context.hpp, apply_context.cpp,
      contract_table_objects.hpp).  IteratorCache is the representation of
      iterators; ContractTables the operations; the others prove that every
      sequence of operations keeps the tables, counts, iterators and RAM
      accounts consistent, that walks visit each row once in order, and that
      accounts are only charged if they agreed.
    - EosioContract, NativeActions, NativeExamples: eosio_contract.cpp.  The
      handlers keep accounts, permissions, links, code reference counts and RAM
      accounts consistent; setcode sets one account's code; links do not
      dangle.
    - ChainConfig, AccessLists: chain_config.cpp and the lists of controller.cpp.
      validate accepts exactly the sane configurations; the merge scans of the
      lists are membership.
    - Transaction: transaction.cpp.  Packed transactions survive the wire; the
      cache of recovered keys is transparent under the other threads, as long
      as the context-free data is the same.
    - TransactionContext, TransactionBilling, TransactionExamples:
      transaction_context.cpp.  init establishes, and finalize relies on, the
      invariant that makes the final billing succeed.
    - Deduplication: the list of recent transactions.  No transaction is
      applied twice along a chain.
    - ActionExecution, ActionFrames, ActionTheorems, ActionExamples: exec,
      exec_one, notifications, inline and deferred actions of
      apply_context.cpp and transaction_context.cpp.  Every action is executed
      once and gets its receipt; execution terminates whatever the contracts
      do (more fuel than max_inline_action_depth and more rounds than accounts
      are enough); what contracts send is authorized.
    - Asset: symbol.hpp, asset.hpp, asset.cpp.  What is written is read back;
      sums and differences are exact and stay in range.
    - PushTransaction, PushTheorems, PushExamples: the transactions of
      controller.cpp.  push_transaction is atomic; a deferred transaction is
      retired with one receipt or stays as it was; the receipts of the pending
      block are those of the traces, its actions are numbered without gaps, and
      a block that is applied leaves the receipts it carries.  The theorems
      assume that sessions are not skipped, as they are only while irreversible
      blocks are replayed.
    - ProposedSchedule: how the schedule of producers is proposed and promoted
      (controller.cpp, set_proposed_producers of wasm_interface.cpp).  The
      handover never makes a block fail, and no proposal is lost.
    - FinalizeBlock, FinalizeExamples: the onblock transaction and the
      permissions of the producers at the start of a block, and finalize_block.
      A block can always be finalized while the voted bandwidth of a block is
      at most 6*10^11 bytes, the largest round number for which the products
      with the averaging window and the rates fit in 64 bits.
    - BlockLog, BlockLogTheorems, BlockLogRepair, BlockLogExamples:
      block_log.cpp.  The log implements a list of blocks, across restarts and
      whatever part of the index is left; repair_log recovers the blocks that
      were written completely; backup_log completes a backup.  The loops over
      the file get more fuel than it has bytes.

    ** Bounds

    - Loops along predecessor links take the number of blocks as fuel: links
      lead to smaller block numbers, so a loop takes a block at most once.
    - AuthorityChecker recurses with the code's own depth limit.
    - process_account_limit_updates takes the number of pending rows as fuel;
      every round removes one.
    - Walks over a table take one step more than the table has rows.
    - [roomy] bounds the calls of one action: fewer than 2^30 entries fit in the
      int iterators, and the deltas of an action in int64_t.

    ** Not modelled

    - chain: transaction_metadata: Futures of the thread pool around
      get_signature_keys, which Transaction models.
    - chain: controller (start-up, replay): Opening the databases, the genesis
      accounts, replaying the block log, snapshots, the integrity hash and the
      accessors: files, threads and calls into chainbase.
    - chain: snapshot: Stream I/O of rows and JSON variants.
    - chain: abi_serializer: Conversion between fc::variant and packed bytes,
      dominated by calls into fc.
    - chain: wasm: Bindings of host functions and instrumentation of
      WebAssembly code for the wavm and wabt libraries.
    - chain: genesis: Constant tables and JSON reading.
    - chain: support: Traces, thread pools, snapshot conversions, exception
      declarations.
    - plugins: producer_plugin: The production loop: timers, threads and
      configuration around the controller.
    - plugins: net_plugin: The peer-to-peer protocol: asynchronous sockets.
    - plugins: chain_plugin and chain_api_plugin: Configuration and the read-
      only RPC queries.
    - plugins: history, state_history and mongo_db: Observers that copy traces
      to files and external databases.
    - plugins: http, wallet, login, faucet, test generators: HTTP servers and
      clients, key storage, test tools.
    - programs: Command-line front ends.
    - libraries: testing, builtins, wasm-jit: The test harness, compiler-rt
      routines and the vendored WAVM virtual machine.
*)

From Stdlib Require Import ZArith Lia.
From stdpp Require Import base gmap strings numbers sorting list.

(** ** Results: the C++ exceptions as values *)

(** The exception classes thrown by the modelled code (exceptions.hpp), plus
    [undefined_behavior] for an evaluation whose result the C++ standard does
    not define, [out_of_fuel] for a loop that outlives the bound a model gives
    it, and the exceptions chainbase itself throws. *)
Inductive exn : Set :=
| name_type_exception
| symbol_type_exception
| asset_type_exception
| overflow_exception
| rate_limiting_state_inconsistent
| resource_limit_exception
| tx_cpu_usage_exceeded
| tx_net_usage_exceeded
| block_resource_exhausted
| ram_usage_exceeded
| transaction_exception
| permission_query_exception
| unsatisfied_authorization
| fork_database_exception
| fork_db_block_not_found
| unlinkable_block_exception
| block_validate_exception
| producer_double_confirm
| producer_schedule_exception
| wrong_producer
| wrong_signing_key
| invalid_block_header_extension
| ill_formed_protocol_feature_activation
| parse_error_exception
| protocol_feature_exception
| protocol_feature_validation_exception
| protocol_feature_iterator_exception
| subjective_block_production_exception
| protocol_feature_bad_block_exception
| misc_exception
| database_exception
| action_validate_exception
| invalid_authority
| irrelevant_auth_exception
| unsatisfied_permission
| missing_auth_exception
| invalid_permission
| unlinkable_min_permission_action
| tx_irrelevant_sig
| tx_not_found
| tx_duplicate
| block_log_append_fail
| block_log_exception
| block_log_unsupported_version
| block_log_not_found
| block_log_backup_dir_exist
| reversible_blocks_exception
| invalid_table_payer
| table_access_violation
| invalid_table_iterator
| table_not_in_cache
| table_operation_not_permitted
| unauthorized_ram_usage_increase
| account_name_exists_exception
| account_query_exception
| invalid_contract_vm_type
| invalid_contract_vm_version
| set_exact_code
| key_blacklist_exception
| block_net_usage_exceeded
| block_cpu_usage_exceeded
| greylist_net_usage_exceeded
| greylist_cpu_usage_exceeded
| deadline_exception
| leeway_deadline_exception
| expired_tx_exception
| tx_exp_too_far_exception
| invalid_ref_block_exception
| tx_no_auths
| disallowed_transaction_extensions_bad_block_exception
| deferred_tx_duplicate
| cfa_inside_generated_tx
| invalid_transaction_extension
| ill_formed_deferred_transaction_generation_context
| unaccessible_api
| actor_whitelist_exception
| actor_blacklist_exception
| contract_whitelist_exception
| contract_blacklist_exception
| action_blacklist_exception
| tx_decompression_error
| tx_duplicate_sig
| tx_too_big
| unknown_transaction_compression
| unknown_transaction_exception
| std_exception_wrapper
| unhandled_exception
| assert_exception
| wasm_execution_error
| eosio_assert_message_exception
| inline_action_too_big
| database_missing_key
| database_duplicate_key
| ios_base_failure
| out_of_fuel
| undefined_behavior.

#[export] Instance exn_eq_dec : EqDecision exn.
Proof. solve_decision. Defined.

(** Whether [catch( const fc::exception& )] catches it: chainbase throws
    std::logic_error. *)
Definition is_fc (e : exn) : bool :=
  match e with
  | database_missing_key | database_duplicate_key | ios_base_failure | out_of_fuel | undefined_behavior => false
  | _ => true
  end.

(** FC_CAPTURE_AND_RETHROW and FC_RETHROW_EXCEPTIONS: an exception of the standard
    library goes on as an fc::exception. *)
Definition fc_rethrow (e : exn) : exn :=
  match e with database_missing_key | database_duplicate_key | ios_base_failure => std_exception_wrapper | _ => e end.

(** Whether [catch( chain_exception& )] catches it: the other fc::exceptions are
    those of fc itself. *)
Definition is_chain_exception (e : exn) : bool :=
  match e with
  | overflow_exception | parse_error_exception | std_exception_wrapper | unhandled_exception | assert_exception => false
  | _ => is_fc e
  end.

(** EOS_RETHROW_EXCEPTIONS( exception_type, ... ): a chain_exception goes on as it
    is, any other exception as an [exception_type]. *)
Definition eos_rethrow (exception_type e : exn) : exn :=
  match e with
  | undefined_behavior | out_of_fuel => e
  | _ => if is_chain_exception e then e else exception_type
  end.

(** [Ok a] is a normal return, [Throw e] an exception leaving the function. *)
Inductive res (A : Type) : Type :=
| Ok (a : A)
| Throw (e : exn).
Arguments Ok {A} a.
Arguments Throw {A} e.

#[export] Instance res_eq_dec {A} `{EqDecision A} : EqDecision (res A).
Proof. solve_decision. Defined.

Definition res_bind {A B : Type} (m : res A) (k : A -> res B) : res B :=
  match m with Ok a => k a | Throw e => Throw e end.

(** EOS_ASSERT( test, exc_type, ... ) *)
Definition eos_assert (test : bool) (e : exn) : res unit :=
  if test then Ok tt else Throw e.

Declare Scope chain_scope.
Delimit Scope chain_scope with chain.
Notation "'let!' x := m 'in' k" := (res_bind m (fun x => k))
  (at level 10, x pattern, m at level 100, k at level 200) : chain_scope.
Notation "'assert!' b 'else' e 'in' k" := (res_bind (eos_assert b e) (fun _ => k))
  (at level 10, b at level 100, e at level 100, k at level 200) : chain_scope.

(** Code that mutates state and may throw: the state reached at the throw is
    kept, because C++ does not undo a mutation when an exception leaves the
    function that made it. *)
Definition exec (S A : Type) : Type := S -> res A * S.

Definition ret {S A} (a : A) : exec S A := fun s => (Ok a, s).
Definition bind {S A B} (m : exec S A) (k : A -> exec S B) : exec S B :=
  fun s => match m s with
           | (Ok a, s') => k a s'
           | (Throw e, s') => (Throw e, s')
           end.
Definition get_state {S} : exec S S := fun s => (Ok s, s).
Definition put_state {S} (s : S) : exec S unit := fun _ => (Ok tt, s).
Definition modify {S} (f : S -> S) : exec S unit := fun s => (Ok tt, f s).
Definition lift {S A} (r : res A) : exec S A := fun s => (r, s).

(** Runs [m] on a part of the state. *)
Definition zoom {S T A} (view : S -> T) (update : T -> S -> S) (m : exec T A) : exec S A :=
  fun s => let '(r, t) := m (view s) in (r, update t s).

Notation "'do' x <- m ; k" := (bind m (fun x => k))
  (at level 10, x pattern, m at level 100, k at level 200) : chain_scope.
Notation "'check' b 'else' e ; k" := (bind (lift (eos_assert b e)) (fun _ => k))
  (at level 10, b at level 100, e at level 100, k at level 200) : chain_scope.

Open Scope chain_scope.

(** try { ... } FC_CAPTURE_AND_RETHROW() and FC_LOG_AND_RETHROW() *)
Definition capture_and_rethrow {S A} (m : exec S A) : exec S A := fun s =>
  match m s with (Throw e, s') => (Throw (fc_rethrow e), s') | x => x end.

Lemma fc_rethrow_fc (e : exn) : is_fc e = true -> fc_rethrow e = e.
Proof. by destruct e. Qed.

(** [for( const auto& x : l ) body(x);] *)
Fixpoint for_each {S A} (l : list A) (body : A -> exec S unit) : exec S unit :=
  match l with
  | [] => ret tt
  | x :: l' => do _ <- body x; for_each l' body
  end.

(** ** Machine integers: values as [Z], wrap-around written out *)

Definition wrap (w : Z) (z : Z) : Z := (z mod 2 ^ w)%Z.
Definition u8 (z : Z) : Z := wrap 8 z.
Definition u16 (z : Z) : Z := wrap 16 z.
Definition u32 (z : Z) : Z := wrap 32 z.
Definition u64 (z : Z) : Z := wrap 64 z.
Definition u128 (z : Z) : Z := wrap 128 z.

(** Conversion to int64_t (two's complement). *)
Definition i64 (z : Z) : Z := (wrap 64 (z + 2 ^ 63) - 2 ^ 63)%Z.

(** Conversion to int. *)
Definition i32 (z : Z) : Z := (wrap 32 (z + 2 ^ 31) - 2 ^ 31)%Z.

Definition is_uint (w z : Z) : Prop := (0 <= z < 2 ^ w)%Z.
Definition is_int64 (z : Z) : Prop := (- 2 ^ 63 <= z < 2 ^ 63)%Z.

Definition UINT64_MAX : Z := (2 ^ 64 - 1)%Z.
Definition UINT32_MAX : Z := (2 ^ 32 - 1)%Z.
Definition INT64_MAX : Z := (2 ^ 63 - 1)%Z.

(** ** Automation *)

Create HintDb chain discriminated.
Create Rewrite HintDb chain.

(** Inverts every hypothesis [m = Ok _] / [m = Throw _] built from the result
    combinators. *)
Ltac inv_res_step :=
  match goal with
  | H : Ok _ = Ok _ |- _ => injection H as H
  | H : Throw _ = Throw _ |- _ => injection H as H
  | H : Ok _ = Throw _ |- _ => discriminate H
  | H : Throw _ = Ok _ |- _ => discriminate H
  | H : (Ok _, _) = (_, _) |- _ => injection H as ? ?
  | H : (Throw _, _) = (_, _) |- _ => injection H as ? ?
  | H : res_bind (eos_assert ?b _) _ = _ |- _ =>
      let E := fresh "E" in destruct b eqn:E; cbn [res_bind eos_assert] in H
  | H : res_bind ?m _ = _ |- _ =>
      let E := fresh "E" in destruct m eqn:E; cbn [res_bind] in H
  | H : eos_assert ?b _ = _ |- _ =>
      let E := fresh "E" in unfold eos_assert in H; destruct b eqn:E
  end.
Ltac inv_res := repeat (inv_res_step; try subst).

(** Closes an equation of closed terms by evaluating both sides, without
    printing the results back. *)
Ltac vm_refl := match goal with |- ?a = _ => vm_cast_no_check (eq_refl a) end.

(** Turns boolean comparisons in the hypotheses into propositions. *)
Ltac bprop :=
  repeat match goal with
  | H : (_ && _)%bool = true |- _ => apply andb_true_iff in H; destruct H
  | H : (_ || _)%bool = false |- _ => apply orb_false_iff in H; destruct H
  | H : negb _ = true |- _ => apply negb_true_iff in H
  | H : negb _ = false |- _ => apply negb_false_iff in H
  | H : (_ <=? _)%Z = true |- _ => apply Z.leb_le in H
  | H : (_ <=? _)%Z = false |- _ => apply Z.leb_gt in H
  | H : (_ <? _)%Z = true |- _ => apply Z.ltb_lt in H
  | H : (_ <? _)%Z = false |- _ => apply Z.ltb_ge in H
  | H : (_ =? _)%Z = true |- _ => apply Z.eqb_eq in H
  | H : (_ =? _)%Z = false |- _ => apply Z.eqb_neq in H
  | H : bool_decide _ = true |- _ => apply bool_decide_eq_true in H
  | H : bool_decide _ = false |- _ => apply bool_decide_eq_false in H
  end.

(** ** Generic lemmas *)

Lemma res_bind_ok {A B} (m : res A) (k : A -> res B) (b : B) :
  res_bind m k = Ok b <-> exists a, m = Ok a /\ k a = Ok b.
Proof. destruct m; cbn; naive_solver. Qed.

Lemma eos_assert_ok (b : bool) (e : exn) (u : unit) :
  eos_assert b e = Ok u <-> b = true.
Proof. destruct b, u; cbn; naive_solver. Qed.

Lemma bind_ok {S A B} (m : exec S A) (k : A -> exec S B) s b s' :
  bind m k s = (Ok b, s') <-> exists a s1, m s = (Ok a, s1) /\ k a s1 = (Ok b, s').
Proof. unfold bind. destruct (m s) as [[a|e] s1]; naive_solver. Qed.

Lemma bind_check_ok {S A} b e (k : unit -> exec S A) s x s' :
  bind (lift (eos_assert b e)) k s = (Ok x, s') <-> b = true /\ k tt s = (Ok x, s').
Proof. destruct b; cbn; naive_solver. Qed.

Lemma bind_lift_ok {S A B} (r : res A) (k : A -> exec S B) s x s' :
  bind (lift r) k s = (Ok x, s') <-> exists a, r = Ok a /\ k a s = (Ok x, s').
Proof. destruct r; cbn; naive_solver. Qed.

Lemma zoom_ok {S T A} (view : S -> T) (update : T -> S -> S) (m : exec T A) s a s' :
  zoom view update m s = (Ok a, s') <-> exists t, m (view s) = (Ok a, t) /\ s' = update t s.
Proof. unfold zoom. destruct (m (view s)) as [r t]. naive_solver. Qed.

Lemma lift_ok {S A} (r : res A) (s : S) a s' : lift r s = (Ok a, s') <-> r = Ok a /\ s' = s.
Proof. unfold lift. naive_solver. Qed.

(** One step of a run [m s = (Ok _, _)] that returned: its first operation. *)
Ltac exec_step H :=
  lazymatch type of H with
  | bind (lift (eos_assert _ _)) _ _ = (Ok _, _) =>
      let E := fresh "C" in apply bind_check_ok in H as [E H]
  | bind (lift _) _ _ = (Ok _, _) =>
      let E := fresh "L" in let x := fresh "x" in apply bind_lift_ok in H as (x & E & H)
  | bind get_state _ _ = _ => unfold bind at 1, get_state in H
  | bind (modify _) _ _ = _ => unfold bind at 1, modify at 1 in H
  | bind (put_state _) _ _ = _ => unfold bind at 1, put_state at 1 in H
  | bind (ret _) _ _ = _ => unfold bind at 1, ret at 1 in H
  | bind _ _ _ = (Ok _, _) =>
      let E := fresh "R" in let x := fresh "x" in let s := fresh "s" in
      apply bind_ok in H as (x & s & E & H)
  end.

(** [wp m Q E s]: run on [s], [m] either returns with [Q] or throws with [E]. *)
Definition wp {S A} (m : exec S A) (Q : A -> S -> Prop) (E : exn -> Prop) (s : S) : Prop :=
  match m s with
  | (Ok a, s') => Q a s'
  | (Throw e, _) => E e
  end.

Lemma wp_bind {S A B} (m : exec S A) (k : A -> exec S B) Q E s :
  wp m (fun a s' => wp (k a) Q E s') E s -> wp (bind m k) Q E s.
Proof. unfold wp, bind. by destruct (m s) as [[a|e] s']. Qed.

Lemma wp_mono {S A} (m : exec S A) (Q Q' : A -> S -> Prop) (E : exn -> Prop) s :
  wp m Q E s -> (forall a s', m s = (Ok a, s') -> Q a s' -> Q' a s') -> wp m Q' E s.
Proof. unfold wp. destruct (m s) as [[a|e] s'] eqn:Em; [|done]. intros HQ Hm. by apply Hm. Qed.

Lemma wp_check {S A} (b : bool) (e : exn) (k : exec S A) Q (E : exn -> Prop) s :
  E e -> (b = true -> wp k Q E s) -> wp (bind (lift (eos_assert b e)) (fun _ => k)) Q E s.
Proof. intros He Hk. destruct b; [by apply Hk|exact He]. Qed.

Lemma wp_ok {S A} (m : exec S A) Q E s a s' : wp m Q E s -> m s = (Ok a, s') -> Q a s'.
Proof. unfold wp. intros H Hm. by rewrite Hm in H. Qed.

Lemma wp_throw {S A} (m : exec S A) Q E s e s' : wp m Q E s -> m s = (Throw e, s') -> E e.
Proof. unfold wp. intros H Hm. by rewrite Hm in H. Qed.

Lemma for_each_app {S A} (l1 l2 : list A) (body : A -> exec S unit) s :
  for_each (l1 ++ l2) body s = bind (for_each l1 body) (fun _ => for_each l2 body) s.
Proof.
  revert s. induction l1 as [|x l1 IH]; intros s; [done|]. cbn. unfold bind at 1 3.
  unfold bind at 1. destruct (body x s) as [[[]|e] s']; [apply IH | done].
Qed.

Lemma wrap_small w z : is_uint w z -> wrap w z = z.
Proof. intros H. apply Z.mod_small, H. Qed.

Lemma wrap_range w z : (0 <= w)%Z -> is_uint w (wrap w z).
Proof. intros Hw. apply Z.mod_pos_bound. lia. Qed.

Lemma wrap_idemp w z : (0 <= w)%Z -> wrap w (wrap w z) = wrap w z.
Proof. intros Hw. apply wrap_small, wrap_range, Hw. Qed.

Lemma i64_small z : is_int64 z -> i64 z = z.
Proof. unfold is_int64, i64, wrap. intros H. rewrite Z.mod_small; lia. Qed.

Lemma i32_small z : (- 2 ^ 31 <= z < 2 ^ 31)%Z -> i32 z = z.
Proof. unfold i32, wrap. intros H. rewrite Z.mod_small; lia. Qed.

#[export] Hint Resolve wrap_range : chain.
#[export] Hint Rewrite @wrap_small using lia : chain.

(** Or-ing a value below [2^k] into a multiple of [2^k] adds it. *)
Lemma lor_add a b k :
  (0 <= k)%Z -> (0 <= b < 2 ^ k)%Z -> Z.lor (a * 2 ^ k) b = (a * 2 ^ k + b)%Z.
Proof.
  intros Hk Hb. symmetry. apply Z.add_nocarry_lor.
  apply Z.bits_inj'; intros n Hn. rewrite Z.land_spec, Z.bits_0.
  destruct (Z.lt_ge_cases n k) as [Hlt|Hge].
  - by rewrite Z.mul_pow2_bits_low.
  - replace b with (b mod 2 ^ k)%Z by (apply Z.mod_small; lia).
    rewrite Z.mod_pow2_bits_high by lia. apply andb_false_r.
Qed.

Lemma land_ones_mod a w : (0 <= w)%Z -> Z.land a (2 ^ w - 1) = (a mod 2 ^ w)%Z.
Proof. intros Hw. rewrite <- Z.land_ones by lia. f_equal. rewrite Z.ones_equiv. lia. Qed.

Lemma filter_all {A} (P : A -> Prop) `{!forall x, Decision (P x)} (l : list A) :
  Forall P l -> filter P l = l.
Proof. induction 1; [done|]. rewrite filter_cons_True by done. by f_equal. Qed.

Lemma filter_length_all {A} (P : A -> Prop) `{!forall x, Decision (P x)} (l : list A) :
  (length l <= length (filter P l))%nat -> Forall P l.
Proof.
  induction l as [|x l IH]; intros Hlen; [constructor|].
  pose proof (sublist_length _ _ (sublist_filter P l)) as Hle.
  rewrite filter_cons in Hlen. destruct (decide (P x)); cbn in Hlen; [|lia].
  constructor; [done | apply IH; lia].
Qed.

(** ** Sums over finite maps *)

Section MapSum.
Context {K V : Type} `{Countable K}.

Definition map_sum (f : V -> Z) (m : gmap K V) : Z := map_fold (fun _ v acc => (f v + acc)%Z) 0%Z m.

Lemma map_sum_empty f : map_sum f ∅ = 0%Z.
Proof. apply map_fold_empty. Qed.

Lemma map_sum_insert f m k v : m !! k = None -> map_sum f (<[k := v]> m) = (f v + map_sum f m)%Z.
Proof. intros Hk. unfold map_sum. rewrite map_fold_insert_L; [done| |done]. intros; lia. Qed.

Lemma map_sum_delete f m k v : m !! k = Some v -> map_sum f (delete k m) = (map_sum f m - f v)%Z.
Proof.
  intros Hk. rewrite <- (insert_delete_id m k v Hk) at 2.
  rewrite map_sum_insert by apply lookup_delete_eq. lia.
Qed.

Lemma map_sum_replace f m k v v' :
  m !! k = Some v -> map_sum f (<[k := v']> m) = (map_sum f m - f v + f v')%Z.
Proof.
  intros Hk. rewrite <- insert_delete_eq, map_sum_insert by apply lookup_delete_eq.
  rewrite (map_sum_delete f m k v Hk). lia.
Qed.

Lemma map_sum_nonneg f m : (forall v, 0 <= f v)%Z -> (0 <= map_sum f m)%Z.
Proof.
  intros Hf. induction m as [|k v m Hk IH] using map_ind.
  - by rewrite map_sum_empty.
  - rewrite map_sum_insert by done. specialize (Hf v). lia.
Qed.

(** A sum of non-negative terms is at least each of them. *)
Lemma map_sum_ge f m k v : (forall v, 0 <= f v)%Z -> m !! k = Some v -> (f v <= map_sum f m)%Z.
Proof.
  intros Hf Hk. pose proof (map_sum_delete f m k v Hk). pose proof (map_sum_nonneg f (delete k m) Hf). lia.
Qed.

Lemma map_sum_zero f m : (forall k v, m !! k = Some v -> f v = 0%Z) -> map_sum f m = 0%Z.
Proof.
  induction m as [|k v m Hk IH] using map_ind; intros Hf; [apply map_sum_empty|].
  rewrite map_sum_insert by done. rewrite (Hf k v) by apply lookup_insert_eq.
  rewrite IH; [done|]. intros k' v' Hk'. apply (Hf k'). rewrite lookup_insert_ne; [done|]. congruence.
Qed.

(** Sums whose terms depend on the key too. *)
Definition map_ksum (f : K -> V -> Z) (m : gmap K V) : Z := map_fold (fun k v acc => (f k v + acc)%Z) 0%Z m.

Lemma map_ksum_insert f m k v : m !! k = None -> map_ksum f (<[k := v]> m) = (f k v + map_ksum f m)%Z.
Proof. intros Hk. unfold map_ksum. rewrite map_fold_insert_L; [done| |done]. intros; lia. Qed.

Lemma map_ksum_delete f m k v : m !! k = Some v -> map_ksum f (delete k m) = (map_ksum f m - f k v)%Z.
Proof.
  intros Hk. rewrite <- (insert_delete_id m k v Hk) at 2.
  rewrite map_ksum_insert by apply lookup_delete_eq. lia.
Qed.

Lemma map_ksum_replace f m k v v' :
  m !! k = Some v -> map_ksum f (<[k := v']> m) = (map_ksum f m - f k v + f k v')%Z.
Proof.
  intros Hk. rewrite <- insert_delete_eq, map_ksum_insert by apply lookup_delete_eq.
  rewrite (map_ksum_delete f m k v Hk). lia.
Qed.
End MapSum.
