(* ===== verification/Chainbase.v ===== *)
(** The database interface: what the chain code relies on in chainbase's
    multi-index tables.

    Chainbase is not part of this repository.  A component that keeps rows in a
    chainbase table is written and proved against the class [Table]: a table
    implements a finite map from the key of its unique index to the rows
    ([tbl_view]), and its rows can be walked in index order.  [gmap_table]
    implements the class, so the examples evaluate. *)

From Stdlib Require Import ZArith Lia.
From stdpp Require Import base gmap numbers sorting list.
From S2P Require Import Prelude.

(** The order of an ordered unique index. *)
Class KeyOrder (K : Type) := {
  key_le : relation K;
  key_le_dec :: RelDecision key_le;
  key_le_total :: Total key_le;
  key_le_trans :: Transitive key_le;
  key_le_antisymm :: AntiSymm (=) key_le
}.

Class Table (K V T : Type) `{Countable K} `{KeyOrder K} := {
  (** find<row,index>( key ) *)
  tbl_find : K -> T -> option V;
  (** the row stored under the key becomes the given one *)
  tbl_put : K -> V -> T -> T;
  (** remove( row ) *)
  tbl_remove : K -> T -> T;
  (** the rows from begin() to end() of the index *)
  tbl_rows : T -> list (K * V);
  (** the abstract contents *)
  tbl_view : T -> gmap K V;
  tbl_find_view : forall k t, tbl_find k t = tbl_view t !! k;
  tbl_put_view : forall k v t, tbl_view (tbl_put k v t) = <[k := v]> (tbl_view t);
  tbl_remove_view : forall k t, tbl_view (tbl_remove k t) = delete k (tbl_view t);
  tbl_rows_perm : forall t, tbl_rows t ≡ₚ map_to_list (tbl_view t);
  tbl_rows_sorted : forall t, StronglySorted key_le (fst <$> tbl_rows t)
}.

#[export] Hint Rewrite @tbl_find_view @tbl_put_view @tbl_remove_view : chain.

Section TableOps.
Context {K V T : Type} `{Table K V T}.

(** get<row,index>( key ): throws when there is no such row. *)
Definition tbl_get (k : K) (t : T) : res V :=
  match tbl_find k t with Some v => Ok v | None => Throw database_missing_key end.

(** create<row>( constructor ): throws when the key is taken. *)
Definition tbl_create (k : K) (v : V) (t : T) : res T :=
  match tbl_find k t with Some _ => Throw database_duplicate_key | None => Ok (tbl_put k v t) end.

(** lower_bound on a leading part of a composite key: the first row, in index
    order, whose key satisfies [p]; [p] is false then true along the order. *)
Definition tbl_lower_bound (p : K -> bool) (t : T) : option (K * V) :=
  snd <$> list_find (fun kv => p (fst kv) = true) (tbl_rows t).

Lemma tbl_rows_elem k v t : (k, v) ∈ tbl_rows t <-> tbl_view t !! k = Some v.
Proof. rewrite tbl_rows_perm. apply elem_of_map_to_list. Qed.

Lemma tbl_lower_bound_Some p t k v :
  tbl_lower_bound p t = Some (k, v) -> tbl_view t !! k = Some v /\ p k = true.
Proof.
  unfold tbl_lower_bound. intros Hf. apply fmap_Some in Hf as ([i kv] & Hf & E). cbn in E. subst kv.
  apply list_find_Some in Hf as (Hl & Hp & _). split; [|done].
  apply tbl_rows_elem. by eapply list_elem_of_lookup_2.
Qed.

Lemma tbl_lower_bound_None p t :
  tbl_lower_bound p t = None -> forall k v, tbl_view t !! k = Some v -> p k = false.
Proof.
  unfold tbl_lower_bound. rewrite fmap_None, list_find_None, Forall_forall.
  intros Hn k v Hv. apply tbl_rows_elem, Hn in Hv. cbn in Hv. by destruct (p k).
Qed.

End TableOps.

(** ** The class is inhabited: finite maps, rows sorted by key *)

Section GmapTable.
Context {K V : Type} `{Countable K} `{KeyOrder K}.

Definition row_le : relation (K * V) := fun a b => key_le (fst a) (fst b).

#[local] Instance row_le_dec : RelDecision row_le.
Proof. intros a b. unfold row_le. apply _. Defined.
#[local] Instance row_le_total : Total row_le.
Proof. intros a b. exact (key_le_total (fst a) (fst b)). Qed.
#[local] Instance row_le_trans : Transitive row_le.
Proof. intros a b c. exact (key_le_trans (fst a) (fst b) (fst c)). Qed.

Lemma sorted_keys (l : list (K * V)) : StronglySorted row_le l -> StronglySorted key_le (fst <$> l).
Proof.
  induction 1 as [|x l _ IH Hall]; cbn; constructor; [done|].
  rewrite Forall_fmap. done.
Qed.

#[export] Instance gmap_table : Table K V (gmap K V).
Proof.
  refine {|
    tbl_find := fun k m => m !! k;
    tbl_put := fun k v m => <[k := v]> m;
    tbl_remove := fun k m => delete k m;
    tbl_rows := fun m => merge_sort row_le (map_to_list m);
    tbl_view := fun m => m |}; try done.
  - intros t. apply merge_sort_Permutation.
  - intros t. apply sorted_keys, StronglySorted_merge_sort; apply _.
Defined.
End GmapTable.

(** Keys of the indices used below. *)
#[export] Instance Z_key_order : KeyOrder Z := {| key_le := Z.le |}.

Definition flag_name_le : relation (bool * Z) := fun a b =>
  Z.le (Z.b2z (fst a)) (Z.b2z (fst b)) /\ (fst a = fst b -> Z.le (snd a) (snd b)).

#[export] Instance flag_name_order : KeyOrder (bool * Z).
Proof.
  refine {| key_le := flag_name_le |}.
  - intros [a x] [b y]. unfold flag_name_le. apply _.
  - intros [[] x] [[] y]; unfold flag_name_le; cbn;
      destruct (Z.le_ge_cases x y); (left; split; [lia|]; intros; (done || lia))
      || (right; split; [lia|]; intros; (done || lia)).
  - intros [[] x] [[] y] [[] z]; unfold flag_name_le; cbn; intros [? Hxy] [? Hyz]; split; try lia;
      intros; try discriminate; specialize (Hxy eq_refl); specialize (Hyz eq_refl); lia.
  - intros [[] x] [[] y]; unfold flag_name_le; cbn; intros [? Hxy] [? Hyx]; try lia;
      specialize (Hxy eq_refl); specialize (Hyx eq_refl); f_equal; lia.
Defined.

(** Composite keys of three names, compared lexicographically. *)
Definition name3_le : relation (Z * Z * Z) := fun a b =>
  let '(a1, a2, a3) := a in let '(b1, b2, b3) := b in
  (a1 < b1 \/ (a1 = b1 /\ (a2 < b2 \/ (a2 = b2 /\ a3 <= b3))))%Z.

#[export] Instance name3_order : KeyOrder (Z * Z * Z).
Proof.
  refine {| key_le := name3_le |}.
  - intros [[a1 a2] a3] [[b1 b2] b3]. unfold name3_le. apply _.
  - intros [[a1 a2] a3] [[b1 b2] b3]. unfold name3_le. lia.
  - intros [[a1 a2] a3] [[b1 b2] b3] [[c1 c2] c3]. unfold name3_le. lia.
  - intros [[a1 a2] a3] [[b1 b2] b3]. unfold name3_le. intros ? ?.
    assert (a1 = b1 /\ a2 = b2 /\ a3 = b3) as (-> & -> & ->) by lia. done.
Defined.
