(* ===== verification/Name.v ===== *)
(** Account, action and permission names: libraries/chain/name.cpp and
    include/eosio/chain/name.hpp.

    A [const char*] is the list of its characters before the terminating NUL; a
    [name] is its 64-bit [value].  Boost's [trim_right_if] is a parameter (the
    class [BoostTrim]), used with its documented behaviour. *)

From Stdlib Require Import ZArith Lia Ascii.
From stdpp Require Import base strings numbers list.
From S2P Require Import Prelude.

Local Open Scope Z_scope.

Module Name.

(** boost::algorithm::trim_right_if: removes the longest suffix whose
    characters all satisfy the predicate. *)
Class BoostTrim := {
  trim_right_if : list ascii -> (ascii -> bool) -> list ascii;
  trim_right_if_spec : forall (s : list ascii) (p : ascii -> bool),
    exists t, s = trim_right_if s p ++ t
           /\ Forall (fun c => p c = true) t
           /\ (forall c, last (trim_right_if s p) = Some c -> p c = false)
}.

Definition code (c : ascii) : Z := Z.of_N (N_of_ascii c).

Definition char_to_symbol (c : ascii) : Z :=
  if (code "a" <=? code c) && (code c <=? code "z") then (code c - code "a") + 6
  else if (code "1" <=? code c) && (code c <=? code "5") then (code c - code "1") + 1
  else 0.

(** The for-loop of string_to_name: the value built so far and the final [i]. *)
Fixpoint string_to_name_loop (str : list ascii) (i name : Z) : Z * Z :=
  match str with
  | [] => (name, i)
  | c :: str' =>
      if i <? 12 then
        string_to_name_loop str' (i + 1)
          (Z.lor name (u64 (Z.shiftl (Z.land (char_to_symbol c) 0x1f) (64 - 5 * (i + 1)))))
      else (name, i)
  end.

Definition NUL : ascii := "000".

Definition string_to_name (str : list ascii) : Z :=
  let '(name, i) := string_to_name_loop str 0 0 in
  if i =? 12 then Z.lor name (Z.land (char_to_symbol (nth 12 str NUL)) 0x0F) else name.

Definition charmap : list ascii := String.list_ascii_of_string ".12345abcdefghijklmnopqrstuvwxyz".

(** The loop of name::operator string over i = 0 .. 12, writing str[12-i]. *)
Fixpoint to_string_loop (steps i : nat) (tmp : Z) (str : list ascii) : list ascii :=
  match steps with
  | O => str
  | S steps' =>
      let c := nth (Z.to_nat (Z.land tmp (if (i =? 0)%nat then 0x0f else 0x1f))) charmap NUL in
      to_string_loop steps' (S i) (Z.shiftr tmp (if (i =? 0)%nat then 4 else 5))
        (<[(12 - i)%nat := c]> str)
  end.

Section WithTrim.
Context `{BoostTrim}.

Definition is_dot (c : ascii) : bool := bool_decide (c = "."%char).

(** name::operator string / name::to_string *)
Definition to_string (value : Z) : list ascii :=
  trim_right_if (to_string_loop 13 0 value (replicate 13 "."%char)) is_dot.

(** name::set; strnlen(str, 14) is min (strlen str) 14. *)
Definition set (str : list ascii) : res Z :=
  let len := Z.min (Z.of_nat (length str)) 14 in
  assert! (len <=? 13) else name_type_exception in
  let value := string_to_name str in
  assert! (bool_decide (to_string value = str)) else name_type_exception in
  Ok value.

End WithTrim.

(** string::c_str(): the characters before the first NUL. *)
Fixpoint c_str (s : list ascii) : list ascii :=
  match s with
  | [] => []
  | c :: s' => if bool_decide (c = NUL) then [] else c :: c_str s'
  end.

(** name( const string& str ), also behind operator=( const string& ). *)
Definition name_of_string `{BoostTrim} (s : list ascii) : res Z := set (c_str s).

(** ** Base-32 digits *)

(** The number whose base-32 digits, most significant first, are [xs]. *)
Definition pack (xs : list Z) : Z := fold_left (fun acc x => acc * 32 + x) xs 0.

(** The [n] low base-32 digits of [v], most significant first. *)
Fixpoint unpack (n : nat) (v : Z) : list Z :=
  match n with
  | O => []
  | S n' => unpack n' (v / 32) ++ [v mod 32]
  end.

Definition digit (x : Z) : Prop := 0 <= x < 32.

(** A string is a well-formed name when it is at most 13 characters of the
    alphabet, the 13th fits in four bits and it does not end in a dot. *)
Definition in_alphabet (c : ascii) : bool :=
  bool_decide (c = "."%char) || negb (char_to_symbol c =? 0).

Definition well_formed (s : list ascii) : bool :=
  (Z.of_nat (length s) <=? 13)
  && forallb in_alphabet s
  && (char_to_symbol (nth 12 s NUL) <=? 15)
  && negb (bool_decide (last s = Some "."%char)).

Lemma pack_snoc xs x : pack (xs ++ [x]) = pack xs * 32 + x.
Proof. unfold pack. by rewrite fold_left_app. Qed.

Lemma pack_bound xs : Forall digit xs -> 0 <= pack xs < 32 ^ Z.of_nat (length xs).
Proof.
  induction xs as [|x xs IH] using rev_ind; [cbn; lia|].
  intros [Hxs Hx]%Forall_app. rewrite Forall_singleton in Hx. unfold digit in Hx.
  specialize (IH Hxs). rewrite pack_snoc, length_app, Nat2Z.inj_add. cbn [length].
  rewrite Z.pow_add_r by lia. change (32 ^ Z.of_nat 1) with 32.
  revert IH. generalize (32 ^ Z.of_nat (length xs)). lia.
Qed.

Lemma unpack_length n v : length (unpack n v) = n.
Proof. revert v; induction n as [|n IH]; intros v; cbn; [done|]. rewrite length_app, IH. cbn. lia. Qed.

Lemma unpack_digits n v : Forall digit (unpack n v).
Proof.
  revert v; induction n as [|n IH]; intros v; cbn; [constructor|].
  apply Forall_app; split; [apply IH|]. apply Forall_singleton.
  apply Z.mod_pos_bound. lia.
Qed.

Lemma pack_unpack n v : 0 <= v < 32 ^ Z.of_nat n -> pack (unpack n v) = v.
Proof.
  revert v; induction n as [|n IH]; intros v Hv.
  - cbn in *. lia.
  - cbn [unpack]. rewrite pack_snoc, IH.
    + pose proof (Z.div_mod v 32). lia.
    + rewrite Nat2Z.inj_succ, Z.pow_succ_r in Hv by lia.
      split; [apply Z.div_pos; lia|]. apply Z.div_lt_upper_bound; lia.
Qed.

Lemma unpack_pack xs : Forall digit xs -> unpack (length xs) (pack xs) = xs.
Proof.
  induction xs as [|x xs IH] using rev_ind; [done|].
  intros [Hxs Hx]%Forall_app. rewrite Forall_singleton in Hx. unfold digit in Hx.
  rewrite pack_snoc, length_app, Nat.add_comm. cbn [length Nat.add unpack].
  rewrite Z.div_add_l, Z.div_small, Z.add_0_r, IH by (done || lia).
  rewrite Z.add_comm, Z.mod_add, Z.mod_small by lia. done.
Qed.

Lemma code_range c : 0 <= code c < 256.
Proof. unfold code. pose proof (N_ascii_bounded c). lia. Qed.

Lemma symbol_digit c : digit (char_to_symbol c).
Proof.
  unfold char_to_symbol, digit.
  change (code "a") with 97; change (code "z") with 122;
    change (code "1") with 49; change (code "5") with 53.
  repeat case_match; bprop; lia.
Qed.

Lemma charmap_symbol c :
  in_alphabet c = true -> nth (Z.to_nat (char_to_symbol c)) charmap NUL = c.
Proof. destruct c as [[] [] [] [] [] [] [] []]; vm_compute; congruence. Qed.

Lemma symbol_charmap x :
  digit x ->
  char_to_symbol (nth (Z.to_nat x) charmap NUL) = x
  /\ in_alphabet (nth (Z.to_nat x) charmap NUL) = true.
Proof.
  unfold digit. intros Hx. rewrite <- (Z2Nat.id x) at 2 by lia.
  assert (Z.to_nat x < 32)%nat as Hn by lia. revert Hn.
  generalize (Z.to_nat x) as n. intros n Hn.
  do 32 (destruct n as [|n]; [done|]). lia.
Qed.

Lemma string_to_name_loop_spec str ds :
  Forall digit ds -> (length ds <= 12)%nat ->
  let ds' := ds ++ take (12 - length ds) (char_to_symbol <$> str) in
  string_to_name_loop str (Z.of_nat (length ds)) (pack ds * 2 ^ (64 - 5 * Z.of_nat (length ds)))
  = (pack ds' * 2 ^ (64 - 5 * Z.of_nat (length ds')), Z.of_nat (length ds')).
Proof.
  revert ds; induction str as [|c str IH]; intros ds Hds Hlen; cbn zeta.
  - cbn. by rewrite take_nil, app_nil_r.
  - cbn [string_to_name_loop]. destruct (Z.ltb_spec (Z.of_nat (length ds)) 12) as [Hlt|Hge].
    + assert (length (ds ++ [char_to_symbol c]) = S (length ds)) as HS
        by (rewrite length_app; cbn; lia).
      pose proof (symbol_digit c) as Hc. unfold digit in Hc.
      replace (12 - length ds)%nat with (S (12 - S (length ds))) by lia.
      rewrite fmap_cons. cbn [firstn].
      change 0x1f with (2 ^ 5 - 1). rewrite land_ones_mod, Z.mod_small by lia.
      rewrite Z.shiftl_mul_pow2 by lia.
      specialize (IH (ds ++ [char_to_symbol c])). cbn zeta in IH.
      rewrite HS, <- app_assoc in IH. cbn [app] in IH.
      rewrite <- IH; [|apply Forall_app; split; [done|]; by rewrite Forall_singleton|lia].
      f_equal; [lia|].
      set (e := 64 - 5 * (Z.of_nat (length ds) + 1)).
      replace (64 - 5 * Z.of_nat (S (length ds))) with e by lia.
      replace (64 - 5 * Z.of_nat (length ds)) with (5 + e) by lia.
      assert (0 <= e) by lia. rewrite Z.pow_add_r by lia.
      assert (0 <= char_to_symbol c * 2 ^ e < 2 ^ (5 + e)) as Hb
        by (rewrite Z.pow_add_r by lia; nia).
      unfold u64. rewrite wrap_small.
      2:{ split; [lia|]. eapply Z.lt_le_trans; [apply Hb|]. apply Z.pow_le_mono_r; lia. }
      rewrite <- Z.pow_add_r, lor_add by lia.
      rewrite Z.pow_add_r, pack_snoc by lia. ring.
    + replace (12 - length ds)%nat with 0%nat by lia. by rewrite take_0, app_nil_r.
Qed.
Lemma pack_app_zeros xs n : pack (xs ++ replicate n 0) = pack xs * 2 ^ (5 * Z.of_nat n).
Proof.
  induction n as [|n IH]; [cbn [replicate]; rewrite app_nil_r; change (2 ^ (5 * Z.of_nat 0)) with 1; ring|].
  rewrite replicate_S_end, app_assoc, pack_snoc, IH, Nat2Z.inj_succ.
  replace (5 * Z.succ (Z.of_nat n)) with (5 * Z.of_nat n + 5) by lia.
  rewrite Z.pow_add_r by lia. ring.
Qed.

(** The symbols of the first 12 characters, padded with zeros. *)
Definition symbols12 (str : list ascii) : list Z :=
  let ds := take 12 (char_to_symbol <$> str) in ds ++ replicate (12 - length ds) 0.

Lemma symbols12_length str : length (symbols12 str) = 12%nat.
Proof. unfold symbols12. rewrite length_app, length_replicate, length_take. lia. Qed.

Lemma symbols12_digits str : Forall digit (symbols12 str).
Proof.
  apply Forall_app; split.
  - apply Forall_take, Forall_fmap, Forall_true. intros c. apply symbol_digit.
  - apply Forall_replicate. unfold digit. lia.
Qed.

Lemma string_to_name_eq str :
  string_to_name str
  = pack (symbols12 str) * 16 + char_to_symbol (nth 12 str NUL) mod 16.
Proof.
  unfold string_to_name.
  pose proof (string_to_name_loop_spec str [] (Forall_nil_2 _) ltac:(cbn; lia)) as E.
  cbn zeta in E. rewrite app_nil_l, Nat.sub_0_r in E.
  change (string_to_name_loop str 0 0) with (string_to_name_loop str (Z.of_nat (length (@nil Z)))
    (pack [] * 2 ^ (64 - 5 * Z.of_nat (length (@nil Z))))).
  rewrite E. clear E.
  unfold symbols12. set (ds := take 12 (char_to_symbol <$> str)).
  assert (length ds = Nat.min 12 (length str)) as Hl
    by (unfold ds; by rewrite length_take, length_fmap).
  rewrite pack_app_zeros. change 0x0F with (2 ^ 4 - 1). rewrite land_ones_mod by lia.
  case_match; bprop.
  - assert (length ds = 12%nat) as -> by lia.
    change (2 ^ (64 - 5 * Z.of_nat 12)) with (2 ^ 4).
    rewrite lor_add by (try apply Z.mod_pos_bound; lia).
    change (2 ^ (5 * Z.of_nat (12 - 12))) with 1. change (2 ^ 4) with 16. ring.
  - rewrite nth_overflow by lia. change (char_to_symbol NUL mod 16) with 0.
    replace (64 - 5 * Z.of_nat (length ds)) with (5 * Z.of_nat (12 - length ds) + 4) by lia.
    rewrite Z.pow_add_r by lia. change (2 ^ 4) with 16. ring.
Qed.

Lemma to_string_loop_eq v :
  0 <= v ->
  to_string_loop 13 0 v (replicate 13 "."%char)
  = (fun x => nth (Z.to_nat x) charmap NUL) <$> (unpack 12 (v / 16) ++ [v mod 16]).
Proof.
  intros Hv. cbn [to_string_loop Nat.eqb]. cbn [replicate].
  cbn [insert list_insert Nat.sub].
  change 0x0f with (2 ^ 4 - 1). change 0x1f with (2 ^ 5 - 1).
  rewrite !land_ones_mod, !Z.shiftr_div_pow2 by lia.
  change (2 ^ 5) with 32. change (2 ^ 4) with 16.
  reflexivity.
Qed.
Lemma string_to_name_dot s : string_to_name (s ++ ["."%char]) = string_to_name s.
Proof.
  rewrite !string_to_name_eq. do 2 f_equal.
  - f_equal. unfold symbols12. rewrite fmap_app. cbn [fmap list_fmap].
    change (char_to_symbol ".") with 0.
    destruct (decide (length s < 12)%nat) as [Hlt|Hge].
    + rewrite !take_ge by (rewrite ?length_app, ?length_fmap; cbn; lia).
      rewrite <- app_assoc, length_app, !length_fmap. cbn [length app].
      f_equal. replace (12 - length s)%nat with (S (12 - (length s + 1))) by lia. done.
    + by rewrite take_app_le by (rewrite length_fmap; lia).
  - destruct (decide (12 < length s)%nat) as [Hlt|Hge].
    + by rewrite app_nth1 by lia.
    + rewrite (nth_overflow s) by lia. rewrite app_nth2 by lia.
      destruct (12 - length s)%nat as [|[|?]]; reflexivity.
Qed.

Lemma string_to_name_dots s t :
  Forall (fun c => is_dot c = true) t -> string_to_name (s ++ t) = string_to_name s.
Proof.
  revert s; induction t as [|c t IH]; intros s Ht; [by rewrite app_nil_r|].
  apply Forall_cons in Ht as [Hc Ht]. apply bool_decide_eq_true in Hc as ->.
  rewrite cons_middle, app_assoc, IH by done. apply string_to_name_dot.
Qed.

Lemma no_trailing_dots s t k :
  s = t ++ k -> Forall (fun c => is_dot c = true) k ->
  (forall c, last s = Some c -> is_dot c = false) -> k = [].
Proof.
  intros -> Hk Hs. destruct k as [|c k] using rev_ind; [done|].
  apply Forall_app in Hk as [_ Hc]. apply Forall_inv in Hc.
  specialize (Hs c). rewrite app_assoc, last_snoc in Hs.
  rewrite Hs in Hc by done. discriminate.
Qed.

(** What is left after removing the trailing dots is unique. *)
Lemma trim_unique s d r t :
  s ++ d = r ++ t ->
  Forall (fun c => is_dot c = true) d -> Forall (fun c => is_dot c = true) t ->
  (forall c, last s = Some c -> is_dot c = false) ->
  (forall c, last r = Some c -> is_dot c = false) -> r = s.
Proof.
  intros E Hd Ht Hs Hr. apply app_eq_inv in E as [(k & -> & ->)|(k & -> & ->)];
    apply Forall_app in Hd || apply Forall_app in Ht.
  - destruct Ht as [Hk _]. rewrite (no_trailing_dots _ _ k eq_refl Hk Hs) in *. by rewrite app_nil_r.
  - destruct Hd as [Hk _]. rewrite (no_trailing_dots _ _ k eq_refl Hk Hr) in *. by rewrite app_nil_r.
Qed.

Section NameTheorems.
Context `{BoostTrim}.

Lemma to_string_spec v :
  0 <= v ->
  exists t, (fun x => nth (Z.to_nat x) charmap NUL) <$> (unpack 12 (v / 16) ++ [v mod 16])
            = to_string v ++ t
         /\ Forall (fun c => is_dot c = true) t
         /\ (forall c, last (to_string v) = Some c -> is_dot c = false).
Proof.
  intros Hv. rewrite <- to_string_loop_eq by done. apply trim_right_if_spec.
Qed.
Lemma map_symbols ds :
  Forall digit ds ->
  char_to_symbol <$> ((fun x => nth (Z.to_nat x) charmap NUL) <$> ds) = ds.
Proof.
  induction 1 as [|x ds Hx _ IH]; [done|]. rewrite !fmap_cons, IH.
  by rewrite (proj1 (symbol_charmap x Hx)).
Qed.

Lemma string_to_name_buffer ds x :
  Forall digit ds -> length ds = 12%nat -> 0 <= x < 16 ->
  string_to_name ((fun x => nth (Z.to_nat x) charmap NUL) <$> (ds ++ [x])) = pack ds * 16 + x.
Proof.
  intros Hds Hlen Hx. rewrite string_to_name_eq.
  assert (digit x) as Hd by (unfold digit; lia).
  rewrite fmap_app. rewrite app_nth2 by (rewrite length_fmap; lia).
  rewrite length_fmap, Hlen. cbn [Nat.sub fmap list_fmap nth].
  rewrite (proj1 (symbol_charmap x Hd)), (Z.mod_small x) by lia.
  do 2 f_equal. unfold symbols12. rewrite fmap_app, map_symbols by done.
  rewrite take_app_le, take_ge by lia. rewrite Hlen. cbn. by rewrite app_nil_r.
Qed.

Lemma digits_of v : is_uint 64 v ->
  0 <= v / 16 < 32 ^ Z.of_nat 12 /\ 0 <= v mod 16 < 16.
Proof.
  unfold is_uint. intros Hv. split; [|by apply Z.mod_pos_bound].
  split; [apply Z.div_pos; lia|]. apply Z.div_lt_upper_bound; [lia|].
  eapply Z.lt_le_trans; [apply Hv|]. vm_compute. discriminate.
Qed.

Lemma to_string_well_formed v : is_uint 64 v -> well_formed (to_string v) = true.
Proof.
  intros Hv. destruct (digits_of v Hv) as [_ Hm].
  destruct (to_string_spec v) as (t & E & Ht & Hl); [apply Hv|].
  assert (length (to_string v) <= 13)%nat as Hlen.
  { apply (f_equal length) in E.
    rewrite length_fmap, !length_app, unpack_length in E. cbn in E. lia. }
  unfold well_formed. rewrite !andb_true_iff. repeat split.
  - apply Z.leb_le. lia.
  - apply forallb_forall. intros c Hc. apply list_elem_of_In in Hc.
    assert (c ∈ to_string v ++ t) as Hc' by (apply elem_of_app; by left).
    rewrite <- E in Hc'. apply list_elem_of_fmap in Hc' as (x & -> & Hx).
    apply symbol_charmap. apply elem_of_app in Hx as [Hx| ->%list_elem_of_singleton].
    + by apply (proj1 (Forall_forall _ _) (unpack_digits 12 (v / 16))).
    + unfold digit. lia.
  - apply Z.leb_le. destruct (decide (length (to_string v) = 13)%nat) as [H13|Hn].
    + assert (nth 12 (to_string v) NUL = nth 12 (to_string v ++ t) NUL) as ->
        by (rewrite app_nth1 by lia; done).
      rewrite <- E, fmap_app, app_nth2; rewrite length_fmap, unpack_length; [|lia].
      cbn [Nat.sub fmap list_fmap nth].
      rewrite (proj1 (symbol_charmap (v mod 16) ltac:(unfold digit; lia))). lia.
    + rewrite nth_overflow by lia. vm_compute. discriminate.
  - apply negb_true_iff, bool_decide_eq_false. intros Hlast.
    specialize (Hl _ Hlast). discriminate.
Qed.

Lemma padded_buffer s :
  well_formed s = true ->
  (fun x => nth (Z.to_nat x) charmap NUL)
    <$> (symbols12 s ++ [char_to_symbol (nth 12 s NUL) mod 16])
  = s ++ replicate (13 - length s) "."%char.
Proof.
  unfold well_formed. rewrite !andb_true_iff, negb_true_iff. intros [[[Hlen Hal] H12] Hlast].
  bprop. rewrite forallb_forall in Hal.
  assert (forall l, Forall (fun c => in_alphabet c = true) l ->
            (fun x => nth (Z.to_nat x) charmap NUL) <$> (char_to_symbol <$> l) = l) as Hmap.
  { induction 1 as [|c l Hc _ IH]; [done|]. by rewrite !fmap_cons, IH, charmap_symbol. }
  assert (Forall (fun c => in_alphabet c = true) s) as Hs.
  { apply Forall_forall. intros c Hc. by apply Hal, list_elem_of_In. }
  pose proof (symbol_digit (nth 12 s NUL)) as Hd. unfold digit in Hd.
  rewrite Z.mod_small by lia. unfold symbols12.
  destruct (decide (length s <= 12)%nat) as [Hle|Hgt].
  - rewrite take_ge, length_fmap by (rewrite length_fmap; lia).
    rewrite nth_overflow by lia. rewrite !fmap_app, fmap_replicate, Hmap by done.
    change (nth (Z.to_nat 0) charmap NUL) with "."%char. rewrite <- app_assoc. f_equal.
    change ((fun x => nth (Z.to_nat x) charmap NUL) <$> [char_to_symbol NUL])
      with (replicate 1 "."%char).
    rewrite <- replicate_add. f_equal. lia.
  - assert (length s = 13)%nat as H13 by lia.
    assert (nth 12 s NUL :: [] = drop 12 s) as Hdrop.
    { do 12 (destruct s as [|? s]; [discriminate H13|]).
      destruct s as [|? [|]]; [discriminate H13|done|discriminate H13]. }
    rewrite length_take, length_fmap, H13. cbn [Nat.min Nat.sub replicate].
    rewrite !app_nil_r, <- fmap_take, fmap_app, Hmap by (by apply Forall_take).
    change ([char_to_symbol (nth 12 s NUL)]) with (char_to_symbol <$> [nth 12 s NUL]).
    rewrite Hdrop, Hmap by (by apply Forall_drop). apply take_drop.
Qed.

Lemma well_formed_to_string s :
  well_formed s = true -> to_string (string_to_name s) = s.
Proof.
  intros Hwf. pose proof (padded_buffer s Hwf) as Hpad.
  pose proof (symbols12_digits s) as Hd. pose proof (pack_bound _ Hd) as Hb.
  set (x := char_to_symbol (nth 12 s NUL) mod 16) in *.
  assert (0 <= x < 16) as Hx by (by apply Z.mod_pos_bound).
  rewrite string_to_name_eq. fold x.
  destruct (to_string_spec (pack (symbols12 s) * 16 + x)) as (t & E & Ht & Hl); [lia|].
  rewrite Z.div_add_l, (Z.div_small x), Z.add_0_r in E by lia.
  replace ((pack (symbols12 s) * 16 + x) mod 16) with x in E
    by (rewrite Z.add_comm, Z.mod_add, Z.mod_small; lia).
  rewrite <- (symbols12_length s), unpack_pack, Hpad in E by done.
  eapply trim_unique; [exact E| |exact Ht| |exact Hl].
  - by apply Forall_replicate.
  - intros c Hc. unfold well_formed in Hwf. rewrite !andb_true_iff, negb_true_iff in Hwf.
    destruct Hwf as [_ Hlast]. bprop. apply bool_decide_eq_false. intros ->. by apply Hlast.
Qed.

(** every 64-bit value survives printing and parsing: encoding the
    characters of [to_string] gives the value back, so distinct account names
    have distinct texts. *)
Theorem name_roundtrip v :
  is_uint 64 v -> string_to_name (to_string v) = v.
Proof.
  intros Hv. destruct (digits_of v Hv) as [Hd Hm].
  destruct (to_string_spec v) as (t & E & Ht & _); [apply Hv|].
  rewrite <- (string_to_name_dots _ t Ht), <- E.
  rewrite string_to_name_buffer by auto using unpack_digits, unpack_length.
  rewrite pack_unpack by done. pose proof (Z.div_mod v 16). lia.
Qed.

(** [name::set] accepts exactly the well-formed names (at most 13
    characters of the alphabet, no trailing dot, a 13th character that fits in
    four bits), returns their encoding, and throws name_type_exception on every
    other string. *)
Theorem set_accepts_well_formed str :
  set str = if well_formed str then Ok (string_to_name str) else Throw name_type_exception.
Proof.
  unfold set. destruct (well_formed str) eqn:Hwf.
  - rewrite well_formed_to_string by done. rewrite bool_decide_eq_true_2 by done.
    unfold well_formed in Hwf. rewrite !andb_true_iff in Hwf.
    destruct Hwf as [[[Hlen _] _] _]. bprop.
    destruct (Z.leb_spec (Z.min (Z.of_nat (length str)) 14) 13); [done|lia].
  - destruct (Z.leb_spec (Z.min (Z.of_nat (length str)) 14) 13); [|done]. cbn.
    destruct (bool_decide _) eqn:E; [|done]. bprop.
    assert (is_uint 64 (string_to_name str)) as Hu.
    { rewrite string_to_name_eq. pose proof (pack_bound _ (symbols12_digits str)) as Hb.
      rewrite symbols12_length in Hb. change (32 ^ Z.of_nat 12) with (2 ^ 60) in Hb.
      pose proof (Z.mod_pos_bound (char_to_symbol (nth 12 str NUL)) 16).
      unfold is_uint. change (2 ^ 64) with (2 ^ 60 * 16). lia. }
    apply to_string_well_formed in Hu. rewrite E, Hwf in Hu. discriminate.
Qed.
End NameTheorems.

(** A concrete [trim_right_if], to evaluate the model on examples. *)
Definition trim_reference (s : list ascii) (p : ascii -> bool) : list ascii :=
  fold_right (fun c acc => match acc with
                           | [] => if p c then [] else [c]
                           | _ => c :: acc
                           end) [] s.

#[export] Instance boost_trim_reference : BoostTrim.
Proof.
  refine {| trim_right_if := trim_reference |}.
  intros s p. induction s as [|c s (t & E & Ht & Hl)]; [by exists []|].
  cbn [trim_reference fold_right]. fold (trim_reference s p).
  destruct (trim_reference s p) as [|c' r] eqn:Er.
  - destruct (p c) eqn:Ep.
    + exists (c :: t). split; [by rewrite E at 1|]. split; [by constructor|done].
    + exists t. split; [by rewrite E at 1|]. split; [done|]. cbn. naive_solver.
  - exists t. split; [by rewrite E at 1|]. split; [done|]. intros c0 Hc0. by apply Hl.
Defined.

Lemma name_roundtrip_witness :
  is_uint 64 6138663577826885632
  /\ string_to_name (to_string 6138663577826885632) = 6138663577826885632.
Proof.
  assert (is_uint 64 6138663577826885632) as Hu by (unfold is_uint; lia).
  split; [exact Hu|]. exact (name_roundtrip 6138663577826885632 Hu).
Defined.

Example eosio_text : to_string 6138663577826885632 = String.list_ascii_of_string "eosio".
Proof. reflexivity. Qed.

End Name.
