(* ===== verification/Merkle.v ===== *)
(** Merkle roots: libraries/chain/merkle.cpp, include/eosio/chain/merkle.hpp and
    include/eosio/chain/incremental_merkle.hpp.

    A [digest_type] (fc::sha256) is its four 64-bit words [_hash[0..3]].  The
    sha256 of a packed pair of digests is the parameter [hash_pair] of the
    section: nothing here relies on any property of it. *)

From Stdlib Require Import ZArith Lia.
From stdpp Require Import base gmap numbers list.
From S2P Require Import Prelude.

Local Open Scope Z_scope.

Record digest_type := mk_digest { _hash0 : Z; _hash1 : Z; _hash2 : Z; _hash3 : Z }.

#[export] Instance digest_eq_dec : EqDecision digest_type.
Proof. solve_decision. Defined.

Definition digest_words (d : digest_type) : Z * Z * Z * Z := (_hash0 d, _hash1 d, _hash2 d, _hash3 d).
Definition digest_of_words (w : Z * Z * Z * Z) : digest_type :=
  match w with (a, b, c, d) => mk_digest a b c d end.

Lemma digest_words_cancel d : digest_of_words (digest_words d) = d.
Proof. by destruct d. Qed.

#[export] Instance digest_countable : Countable digest_type :=
  inj_countable' digest_words digest_of_words digest_words_cancel.

(** digest_type(): all words zero. *)
Definition digest_zero : digest_type := mk_digest 0 0 0 0.

Definition set_hash0 (d : digest_type) (w : Z) : digest_type :=
  mk_digest w (_hash1 d) (_hash2 d) (_hash3 d).

Definition make_canonical_left (val : digest_type) : digest_type :=
  set_hash0 val (Z.land (_hash0 val) 0xFFFFFFFFFFFFFF7F).

Definition make_canonical_right (val : digest_type) : digest_type :=
  set_hash0 val (Z.lor (_hash0 val) 0x0000000000000080).

Definition is_canonical_left (val : digest_type) : bool :=
  Z.land (_hash0 val) 0x0000000000000080 =? 0.

Definition is_canonical_right (val : digest_type) : bool :=
  negb (Z.land (_hash0 val) 0x0000000000000080 =? 0).

Definition make_canonical_pair (l r : digest_type) : digest_type * digest_type :=
  (make_canonical_left l, make_canonical_right r).

(** ** Depth arithmetic (namespace detail) *)

Definition next_power_of_2 (value : Z) : Z :=
  let value := u64 (value - 1) in
  let value := Z.lor value (Z.shiftr value 1) in
  let value := Z.lor value (Z.shiftr value 2) in
  let value := Z.lor value (Z.shiftr value 4) in
  let value := Z.lor value (Z.shiftr value 8) in
  let value := Z.lor value (Z.shiftr value 16) in
  let value := Z.lor value (Z.shiftr value 32) in
  u64 (value + 1).

Definition clz_power_2 (value : Z) : Z :=
  let lz := 64 in
  let lz := if value =? 0 then lz else lz - 1 in
  let lz := if Z.land value 0x00000000FFFFFFFF =? 0 then lz else lz - 32 in
  let lz := if Z.land value 0x0000FFFF0000FFFF =? 0 then lz else lz - 16 in
  let lz := if Z.land value 0x00FF00FF00FF00FF =? 0 then lz else lz - 8 in
  let lz := if Z.land value 0x0F0F0F0F0F0F0F0F =? 0 then lz else lz - 4 in
  let lz := if Z.land value 0x3333333333333333 =? 0 then lz else lz - 2 in
  let lz := if Z.land value 0x5555555555555555 =? 0 then lz else lz - 1 in
  lz.

Definition calcluate_max_depth (node_count : Z) : Z :=
  if node_count =? 0 then 0
  else clz_power_2 (next_power_of_2 node_count) + 1.

Section Hashing.
(** digest_type::hash( pair<digest_type,digest_type> ) *)
Variable hash_pair : digest_type * digest_type -> digest_type.

Definition hash_children (l r : digest_type) : digest_type :=
  hash_pair (make_canonical_pair l r).

(** ** merkle(): the batch computation *)

(** The inner for-loop: ids[i] = hash(make_canonical_pair(ids[2i], ids[2i+1])),
    overwriting the vector in place for i = i0 .. i0+n-1. *)
Fixpoint merkle_pass (n i : nat) (ids : list digest_type) : list digest_type :=
  match n with
  | O => ids
  | S n' =>
      let d := hash_children (nth (2 * i) ids digest_zero) (nth (2 * i + 1) ids digest_zero) in
      merkle_pass n' (S i) (<[i := d]> ids)
  end.

(** One iteration of the while-loop: duplicate the last id of an odd vector,
    hash the pairs, shrink to half. *)
Definition merkle_round (ids : list digest_type) : list digest_type :=
  let ids := if (length ids mod 2 =? 0)%nat then ids
             else ids ++ [List.last ids digest_zero] in
  take (length ids / 2) (merkle_pass (length ids / 2) 0 ids).

(** [while( ids.size() > 1 )]; the vector at least halves in each iteration, so
    its initial size is fuel enough ([merkle_while_one]). *)
Fixpoint merkle_while (fuel : nat) (ids : list digest_type) : list digest_type :=
  match fuel with
  | O => ids
  | S fuel' => if (1 <? length ids)%nat then merkle_while fuel' (merkle_round ids) else ids
  end.

Definition merkle (ids : list digest_type) : digest_type :=
  match ids with
  | [] => digest_zero
  | _ => hd digest_zero (merkle_while (length ids) ids)
  end.

(** ** incremental_merkle_impl *)

Record incremental_merkle := mk_incremental_merkle {
  _node_count : Z;
  _active_nodes : list digest_type
}.

Definition empty_incremental_merkle : incremental_merkle := mk_incremental_merkle 0 [].

(** The locals of append's while-loop; [active_iter] is the part of
    _active_nodes the iterator has not passed yet. *)
Record append_locals := mk_locals {
  partial : bool;
  index : Z;
  top : digest_type;
  active_iter : list digest_type;
  updated_active_nodes : list digest_type
}.

(** The body of the loop; dereferencing [active_iter] at the end of the vector
    is undefined behaviour. *)
Definition append_step (s : append_locals) : res append_locals :=
  if Z.land (index s) 0x1 =? 0 then
    Ok (mk_locals true (Z.shiftr (index s) 1) (hash_children (top s) (top s)) (active_iter s)
          (if partial s then updated_active_nodes s
           else updated_active_nodes s ++ [top s]))
  else
    match active_iter s with
    | [] => Throw undefined_behavior
    | left_value :: rest =>
        Ok (mk_locals (partial s) (Z.shiftr (index s) 1) (hash_children left_value (top s)) rest
              (if partial s then updated_active_nodes s ++ [left_value]
               else updated_active_nodes s))
    end.

(** [while (current_depth > 0)] *)
Fixpoint append_loop (current_depth : nat) (s : append_locals) : res append_locals :=
  match current_depth with
  | O => Ok s
  | S depth' => let! s' := append_step s in append_loop depth' s'
  end.

(** append: the new state and the returned root. *)
Definition append (m : incremental_merkle) (digest : digest_type)
    : res (incremental_merkle * digest_type) :=
  let max_depth := calcluate_max_depth (u64 (_node_count m + 1)) in
  let current_depth := max_depth - 1 in
  let! s := append_loop (Z.to_nat current_depth)
              (mk_locals false (_node_count m) digest (_active_nodes m) []) in
  let nodes := updated_active_nodes s ++ [top s] in
  Ok (mk_incremental_merkle (u64 (_node_count m + 1)) nodes, List.last nodes digest_zero).

Definition get_root (m : incremental_merkle) : digest_type :=
  if 0 <? _node_count m then List.last (_active_nodes m) digest_zero else digest_zero.

Fixpoint append_all (m : incremental_merkle) (ids : list digest_type) : res incremental_merkle :=
  match ids with
  | [] => Ok m
  | d :: ids' => let! (m', _) := append m d in append_all m' ids'
  end.

(** ** The specification: the tree the root stands for *)

(** The value of a node of height [d] over the leaves [l] (1 <= length l <= 2^d):
    a subtree without leaves is implied to equal its left sibling. *)
Fixpoint node (d : nat) (l : list digest_type) : digest_type :=
  match d with
  | O => hd digest_zero l
  | S d' =>
      let lhs := node d' (take (2 ^ d') l) in
      if (2 ^ d' <? length l)%nat then hash_children lhs (node d' (drop (2 ^ d') l))
      else hash_children lhs lhs
  end.

(** The fully realised left subtrees of height below [d], lowest first. *)
Fixpoint peaks (d : nat) (l : list digest_type) : list digest_type :=
  match d with
  | O => []
  | S d' =>
      if (length l <? 2 ^ d')%nat then peaks d' l
      else if (length l <? 2 ^ d)%nat
           then peaks d' (drop (2 ^ d') l) ++ [node d' (take (2 ^ d') l)]
      else []
  end.

(** The height of the minimal tree with [n] leaves. *)
Definition height (n : nat) : nat := Z.to_nat (Z.log2_up (Z.of_nat n)).

End Hashing.

(** ** Depth arithmetic *)

(** [or_window m k] describes the words whose bit [i] says whether one of the
    bits [i .. i+k-1] of [m] is set. *)
Definition or_window (m k w : Z) : Prop :=
  forall i, 0 <= i -> (Z.testbit w i = true <-> exists j, 0 <= j < k /\ Z.testbit m (i + j) = true).

Lemma or_window_start m : or_window m 1 m.
Proof.
  intros i Hi. split.
  - intros H. exists 0. rewrite Z.add_0_r. split; [lia|done].
  - intros (j & Hj & H). replace j with 0 in H by lia. by rewrite Z.add_0_r in H.
Qed.

Lemma or_window_double m k w :
  0 < k -> or_window m k w -> or_window m (2 * k) (Z.lor w (Z.shiftr w k)).
Proof.
  intros Hk Hw i Hi. rewrite Z.lor_spec, Z.shiftr_spec, orb_true_iff by done.
  rewrite (Hw i), (Hw (i + k)) by lia. split.
  - intros [(j & Hj & H)|(j & Hj & H)]; [exists j | exists (k + j)]; (split; [lia|]); [done|].
    by rewrite Z.add_assoc.
  - intros (j & Hj & H). destruct (Z.lt_ge_cases j k) as [Hlt|Hge]; [left|right].
    + exists j. split; [lia|done].
    + exists (j - k). split; [lia|]. by replace (i + k + (j - k)) with (i + j) by lia.
Qed.

Lemma or_window_full m w : 0 < m < 2 ^ 64 -> 0 <= w -> or_window m 64 w -> w = 2 ^ (Z.log2 m + 1) - 1.
Proof.
  intros Hm Hw H. replace (2 ^ (Z.log2 m + 1) - 1) with (Z.ones (Z.log2 m + 1))
    by (rewrite Z.ones_equiv; lia).
  pose proof (Z.log2_nonneg m). assert (Z.log2 m < 64) as Hl by (apply Z.log2_lt_pow2; lia).
  apply Z.bits_inj'; intros i Hi.
  destruct (Z.lt_ge_cases i (Z.log2 m + 1)) as [Hlt|Hge].
  - rewrite Z.ones_spec_low by lia. apply H; [done|]. exists (Z.log2 m - i).
    split; [lia|]. replace (i + (Z.log2 m - i)) with (Z.log2 m) by lia.
    apply Z.bit_log2. lia.
  - rewrite Z.ones_spec_high by lia. apply not_true_is_false. intros Hb.
    apply H in Hb as (j & Hj & Hb); [|done]. rewrite Z.bits_above_log2 in Hb by lia. discriminate.
Qed.

Lemma next_power_of_2_spec v : 1 <= v <= 2 ^ 63 -> next_power_of_2 v = 2 ^ Z.log2_up v.
Proof.
  intros Hv. unfold next_power_of_2.
  assert (u64 (v - 1) = v - 1) as -> by (apply wrap_small; unfold is_uint; lia).
  destruct (decide (v = 1)) as [->|Hne]; [reflexivity|].
  cbv zeta. set (w1 := Z.lor (v - 1) _). set (w2 := Z.lor w1 _). set (w3 := Z.lor w2 _).
  set (w4 := Z.lor w3 _). set (w5 := Z.lor w4 _). set (w6 := Z.lor w5 _).
  assert (or_window (v - 1) 64 w6) as Hw.
  { pose proof (or_window_start (v - 1)) as Hw.
    do 6 (apply or_window_double in Hw; [|lia]). exact Hw. }
  assert (0 <= w6) as H0.
  { assert (forall w k, 0 <= w -> 0 <= Z.lor w (Z.shiftr w k)) as Hn
      by (intros w k ?; by rewrite Z.lor_nonneg, Z.shiftr_nonneg).
    do 6 apply Hn. lia. }
  apply or_window_full in Hw; [|lia|done]. rewrite Hw.
  unfold u64. rewrite wrap_small.
  - rewrite Z.log2_up_eqn by lia. rewrite <- Z.sub_1_r, <- Z.add_1_r. lia.
  - assert (Z.log2 (v - 1) < 63) by (apply Z.log2_lt_pow2; lia).
    pose proof (Z.log2_nonneg (v - 1)).
    assert (2 ^ (Z.log2 (v - 1) + 1) <= 2 ^ 63) by (apply Z.pow_le_mono_r; lia).
    pose proof (Z.pow_nonneg 2 (Z.log2 (v - 1) + 1)). unfold is_uint. lia.
Qed.

Lemma clz_power_2_spec k : 0 <= k < 64 -> clz_power_2 (2 ^ k) = k.
Proof.
  intros Hk. rewrite <- (Z2Nat.id k) by lia.
  assert (forallb (fun n => clz_power_2 (2 ^ Z.of_nat n) =? Z.of_nat n) (seq 0 64) = true) as H
    by (vm_compute; reflexivity).
  rewrite forallb_forall in H. apply Z.eqb_eq, H, in_seq. lia.
Qed.

Lemma max_depth_spec n : 1 <= n <= 2 ^ 63 -> calcluate_max_depth n = Z.log2_up n + 1.
Proof.
  intros Hn. unfold calcluate_max_depth. destruct (Z.eqb_spec n 0); [lia|].
  rewrite next_power_of_2_spec, clz_power_2_spec; [done| |done].
  pose proof (Z.log2_up_nonneg n).
  assert (Z.log2_up n <= Z.log2_up (2 ^ 63)) as H1 by (apply Z.log2_up_le_mono; lia).
  rewrite Z.log2_up_pow2 in H1 by lia. lia.
Qed.

(** ** The batch computation is the tree *)

Section Proofs.
Variable hash_pair : digest_type * digest_type -> digest_type.
Abbreviation hc := (hash_children hash_pair).
Abbreviation node := (node hash_pair).
Abbreviation peaks := (peaks hash_pair).

Fixpoint pair_up (l : list digest_type) : list digest_type :=
  match l with
  | [] => []
  | [a] => [hc a a]
  | a :: b :: l' => hc a b :: pair_up l'
  end.

Lemma list_pair_ind {A} (P : list A -> Prop) :
  P [] -> (forall a, P [a]) -> (forall a b l, P l -> P (a :: b :: l)) -> forall l, P l.
Proof.
  intros H0 H1 H2. enough (forall l, P l /\ forall a, P (a :: l)) by firstorder.
  induction l as [|b l [IH1 IH2]]; auto.
Qed.

Lemma pair_up_length l : length (pair_up l) = ((length l + 1) / 2)%nat.
Proof.
  induction l as [| |a b l IH] using list_pair_ind; [done..|].
  cbn [pair_up length]. rewrite IH.
  replace (S (S (length l)) + 1)%nat with (1 * 2 + (length l + 1))%nat by lia.
  rewrite Nat.div_add_l by lia. lia.
Qed.

Lemma pair_up_take k l : pair_up (take (2 * k) l) = take k (pair_up l).
Proof.
  revert l; induction k as [|k IH]; intros l; [done|].
  replace (2 * S k)%nat with (S (S (2 * k))) by lia.
  destruct l as [|a [|b l]]; cbn [take pair_up]; [done|by rewrite take_nil|].
  f_equal. apply IH.
Qed.

Lemma pair_up_drop k l : pair_up (drop (2 * k) l) = drop k (pair_up l).
Proof.
  revert l; induction k as [|k IH]; intros l; [done|].
  replace (2 * S k)%nat with (S (S (2 * k))) by lia.
  destruct l as [|a [|b l]]; cbn [drop pair_up]; [done|by rewrite drop_nil|].
  apply IH.
Qed.

Lemma nth_insert (l : list digest_type) i j x :
  nth j (<[i := x]> l) digest_zero
  = if decide (i = j /\ (i < length l)%nat) then x else nth j l digest_zero.
Proof.
  rewrite !nth_lookup, list_lookup_insert. by case_decide.
Qed.

Lemma merkle_pass_length n i ids : length (merkle_pass hash_pair n i ids) = length ids.
Proof. revert i ids; induction n as [|n IH]; intros; cbn; [done|]. by rewrite IH, length_insert. Qed.

(** The in-place loop reads every pair before it is overwritten. *)
Lemma merkle_pass_nth n i ids j :
  (2 * (i + n) <= length ids)%nat ->
  nth j (merkle_pass hash_pair n i ids) digest_zero
  = if decide (i <= j < i + n)%nat
    then hc (nth (2 * j) ids digest_zero) (nth (2 * j + 1) ids digest_zero)
    else nth j ids digest_zero.
Proof.
  revert i ids; induction n as [|n IH]; intros i ids Hlen; cbn [merkle_pass].
  - rewrite decide_False by lia. done.
  - rewrite IH by (rewrite length_insert; lia). rewrite !nth_insert.
    repeat case_decide; (done || lia || idtac).
    assert (i = j) as <- by lia. done.
Qed.

Lemma pair_up_nth l j :
  (2 * j < length l)%nat ->
  nth j (pair_up l) digest_zero
  = hc (nth (2 * j) l digest_zero)
      (nth (2 * j + 1) (if (length l mod 2 =? 0)%nat then l
                        else l ++ [List.last l digest_zero]) digest_zero).
Proof.
  revert j; induction l as [|a|a b l IH] using list_pair_ind; intros j Hj; [cbn in Hj; lia| |].
  - assert (j = 0%nat) as -> by (cbn in Hj; lia). done.
  - replace (length (a :: b :: l) mod 2)%nat with (length l mod 2)%nat.
    2:{ cbn [length]. replace (S (S (length l))) with (length l + 1 * 2)%nat by lia.
        by rewrite Nat.Div0.mod_add. }
    destruct j as [|j].
    + destruct (length l mod 2 =? 0)%nat; done.
    + cbn [pair_up nth]. rewrite IH by (cbn in Hj; lia).
      replace (2 * S j)%nat with (S (S (2 * j))) by lia.
      replace (S (S (2 * j)) + 1)%nat with (S (S (2 * j + 1))) by lia.
      destruct (length l mod 2 =? 0)%nat eqn:E; [done|].
      destruct l as [|c l]; [discriminate E|done].
Qed.

Lemma merkle_round_pair_up ids : merkle_round hash_pair ids = pair_up ids.
Proof.
  unfold merkle_round. set (ids' := if (length ids mod 2 =? 0)%nat then _ else _).
  assert (length ids' / 2 = (length ids + 1) / 2 /\ length ids <= length ids')%nat as [Hh Hle].
  { subst ids'. pose proof (Nat.div_mod_eq (length ids) 2).
    pose proof (Nat.mod_upper_bound (length ids) 2 ltac:(lia)).
    destruct (Nat.eqb_spec (length ids mod 2) 0) as [E|E]; rewrite ?length_app; cbn [length].
    - split; [|lia]. apply (Nat.div_unique _ 2 _ 1); lia.
    - split; [done|lia]. }
  apply (nth_ext _ _ digest_zero digest_zero).
  { rewrite length_take, merkle_pass_length, pair_up_length, Hh.
    pose proof (Nat.div_mod_eq (length ids') 2). lia. }
  intros j. rewrite length_take, merkle_pass_length, Hh. intros Hj.
  pose proof (Nat.div_mod_eq (length ids') 2). pose proof (Nat.div_mod_eq (length ids + 1) 2).
  pose proof (Nat.mod_upper_bound (length ids + 1) 2 ltac:(lia)).
  rewrite nth_lookup, lookup_take_lt, <- nth_lookup by lia.
  rewrite merkle_pass_nth, decide_True, pair_up_nth by lia. fold ids'. f_equal.
  subst ids'. destruct (_ =? 0)%nat; [done|]. by rewrite app_nth1 by lia.
Qed.

Lemma node_S d l :
  node (S d) l
  = if (2 ^ d <? length l)%nat
    then hc (node d (take (2 ^ d) l)) (node d (drop (2 ^ d) l))
    else hc (node d (take (2 ^ d) l)) (node d (take (2 ^ d) l)).
Proof. done. Qed.

Lemma node_pair_up d l :
  (1 <= length l <= 2 ^ S d)%nat -> node (S d) l = node d (pair_up l).
Proof.
  revert l; induction d as [|d IH]; intros l Hl.
  - destruct l as [|a [|b [|]]]; cbn in Hl; [lia|done|done|lia].
  - set (k := (2 ^ S d)%nat). assert (k = 2 * 2 ^ d)%nat as Hk by done.
    assert (0 < k)%nat by (subst k; pose proof (Nat.pow_nonzero 2 (S d)); lia).
    rewrite (node_S (S d) l), (node_S d (pair_up l)). fold k.
    rewrite IH by (rewrite length_take; cbn in Hl |- *; lia).
    rewrite Hk, pair_up_take, pair_up_length.
    assert ((2 * 2 ^ d <? length l)%nat = (2 ^ d <? (length l + 1) / 2)%nat) as ->.
    { pose proof (Nat.div_mod_eq (length l + 1) 2).
      pose proof (Nat.mod_upper_bound (length l + 1) 2 ltac:(lia)).
      destruct (Nat.ltb_spec (2 * 2 ^ d) (length l)), (Nat.ltb_spec (2 ^ d) ((length l + 1) / 2)); lia. }
    destruct (_ <? _)%nat eqn:E; [|done]. f_equal.
    apply Nat.ltb_lt in E. rewrite IH, pair_up_drop; [done|].
    rewrite length_drop. pose proof (Nat.div_mod_eq (length l + 1) 2).
    cbn in Hl |- *. lia.
Qed.

(** [d] is the height of the minimal tree with [n] leaves. *)
Definition fits (d n : nat) : Prop :=
  (1 <= n <= 2 ^ d)%nat /\ (forall d', d = S d' -> (2 ^ d' < n)%nat).

Lemma height_fits n : (1 <= n)%nat -> fits (height n) n.
Proof.
  intros Hn. unfold height. destruct (decide (n = 1%nat)) as [->|Hne]; [by split|].
  pose proof (Z.log2_up_spec (Z.of_nat n) ltac:(lia)) as [Hlo Hhi].
  pose proof (Z.log2_up_pos (Z.of_nat n) ltac:(lia)) as Hpos.
  set (z := Z.log2_up (Z.of_nat n)) in *.
  assert (forall k, Z.of_nat (2 ^ k) = 2 ^ Z.of_nat k) as Hpow
    by (intros k; rewrite Nat2Z.inj_pow; done).
  split.
  - split; [done|]. apply Nat2Z.inj_le. rewrite Hpow, Z2Nat.id by lia. done.
  - intros d' E. apply Nat2Z.inj_lt. rewrite Hpow.
    replace (Z.of_nat d') with (Z.pred z) by lia. done.
Qed.

Lemma fits_unique d d' n : fits d n -> fits d' n -> d = d'.
Proof.
  intros [[_ Hd] Hd1] [[_ Hd'] Hd1'].
  assert (forall a b, (2 ^ a < n)%nat -> (n <= 2 ^ b)%nat -> (a < b)%nat) as Hlt.
  { intros a b Ha Hb. apply (Nat.pow_lt_mono_r_iff 2); lia. }
  destruct d as [|d], d' as [|d']; [done|..].
  - specialize (Hlt _ _ (Hd1' _ eq_refl) Hd). lia.
  - specialize (Hlt _ _ (Hd1 _ eq_refl) Hd'). lia.
  - pose proof (Hlt _ _ (Hd1 _ eq_refl) Hd'). pose proof (Hlt _ _ (Hd1' _ eq_refl) Hd). lia.
Qed.

Lemma merkle_while_node d fuel l :
  fits d (length l) -> (d <= fuel)%nat -> merkle_while hash_pair fuel l = [node d l].
Proof.
  revert fuel l; induction d as [|d IH]; intros fuel l [Hl Hd] Hf.
  - destruct l as [|a [|]]; cbn in Hl; [lia| |lia]. by destruct fuel.
  - destruct fuel as [|fuel]; [lia|]. cbn [merkle_while].
    specialize (Hd d eq_refl). pose proof (Nat.pow_nonzero 2 d ltac:(lia)).
    destruct (Nat.ltb_spec 1 (length l)); [|lia].
    rewrite merkle_round_pair_up, node_pair_up by lia.
    apply IH; [|lia]. unfold fits. rewrite pair_up_length.
    pose proof (Nat.div_mod_eq (length l + 1) 2).
    pose proof (Nat.mod_upper_bound (length l + 1) 2 ltac:(lia)).
    rewrite Nat.pow_succ_r' in Hl. split; [lia|].
    intros d' ->. rewrite Nat.pow_succ_r' in Hd. lia.
Qed.

Lemma merkle_node l : l <> [] -> merkle hash_pair l = node (height (length l)) l.
Proof.
  intros Hl. assert (1 <= length l)%nat as H1 by (destruct l; cbn; [done|lia]).
  pose proof (height_fits _ H1) as Hfit.
  assert (height (length l) <= length l)%nat as Hle.
  { destruct Hfit as [_ Hd]. destruct (height (length l)) as [|d] eqn:E; [lia|].
    specialize (Hd d eq_refl). pose proof (Nat.pow_gt_lin_r 2 d ltac:(lia)). lia. }
  unfold merkle. destruct l as [|a l']; [done|].
  by rewrite (merkle_while_node _ _ _ Hfit Hle).
Qed.

(** ** The incremental computation is the tree *)

Lemma append_loop_S d s :
  append_loop hash_pair (S d) s
  = let! s' := append_loop hash_pair d s in append_step hash_pair s'.
Proof.
  revert s; induction d as [|d IH]; intros s.
  - cbn. by destruct (append_step hash_pair s).
  - change (append_loop hash_pair (S (S d)) s) with
      (let! s' := append_step hash_pair s in append_loop hash_pair (S d) s').
    change (append_loop hash_pair (S d) s) with
      (let! s' := append_step hash_pair s in append_loop hash_pair d s').
    destruct (append_step hash_pair s) as [s'|e]; cbn [res_bind]; [apply IH|done].
Qed.

Lemma node_full_drop d l x :
  (2 ^ d <= length l < 2 ^ S d)%nat ->
  node (S d) (l ++ [x]) = hc (node d (take (2 ^ d) l)) (node d (drop (2 ^ d) l ++ [x])).
Proof.
  intros Hl. rewrite node_S, length_app. cbn [length].
  destruct (Nat.ltb_spec (2 ^ d) (length l + 1)); [|lia].
  by rewrite take_app_le, drop_app_le by lia.
Qed.

Lemma node_half d l x :
  (length l < 2 ^ d)%nat -> node (S d) (l ++ [x]) = hc (node d (l ++ [x])) (node d (l ++ [x])).
Proof.
  intros Hl. rewrite node_S, length_app. cbn [length].
  destruct (Nat.ltb_spec (2 ^ d) (length l + 1)); [lia|].
  by rewrite take_ge by (rewrite length_app; cbn; lia).
Qed.

Lemma peaks_S d l :
  peaks (S d) l
  = if (length l <? 2 ^ d)%nat then peaks d l
    else if (length l <? 2 ^ S d)%nat
         then peaks d (drop (2 ^ d) l) ++ [node d (take (2 ^ d) l)]
    else [].
Proof. done. Qed.

Lemma peaks_nil d : peaks d [] = [].
Proof.
  induction d as [|d IH]; [done|]. rewrite peaks_S.
  pose proof (Nat.pow_nonzero 2 d ltac:(lia)).
  destruct (Nat.ltb_spec (length (@nil digest_type)) (2 ^ d)); [done|cbn in *; lia].
Qed.

Lemma peaks_full d l : length l = (2 ^ d)%nat -> peaks d l = [].
Proof.
  destruct d as [|d]; intros Hl; [done|]. rewrite peaks_S, Hl.
  pose proof (Nat.pow_lt_mono_r 2 d (S d) ltac:(lia) ltac:(lia)).
  destruct (Nat.ltb_spec (2 ^ S d) (2 ^ d)); [lia|]. by rewrite Nat.ltb_irrefl.
Qed.

(** Running [d] levels of the loop with the last [n mod 2^d] leaves [l] pending. *)
Lemma append_loop_spec d l x idx rest upd :
  (length l < 2 ^ d)%nat -> 0 <= idx -> idx mod 2 ^ Z.of_nat d = Z.of_nat (length l) ->
  append_loop hash_pair d (mk_locals false idx x (peaks d l ++ rest) upd)
  = Ok (mk_locals (length l + 1 <? 2 ^ d)%nat (Z.shiftr idx (Z.of_nat d))
          (node d (l ++ [x])) rest (upd ++ peaks d (l ++ [x]))).
Proof.
  revert l idx rest upd; induction d as [|d IH]; intros l idx rest upd Hl Hidx Hmod.
  - destruct l; [|cbn in Hl; lia]. cbn. by rewrite app_nil_r, Z.shiftr_0_r.
  - rewrite append_loop_S.
    assert (Z.of_nat (2 ^ d) = 2 ^ Z.of_nat d) as Hpow by (rewrite Nat2Z.inj_pow; done).
    set (q := idx / 2 ^ Z.of_nat d).
    assert (idx = 2 ^ Z.of_nat d * q + idx mod 2 ^ Z.of_nat d) as Hdm
      by (apply Z.div_mod; lia).
    pose proof (Z.mod_pos_bound idx (2 ^ Z.of_nat d) ltac:(lia)) as Hb.
    rewrite Nat2Z.inj_succ, Z.pow_succ_r, (Z.mul_comm 2), Z.rem_mul_r in Hmod by lia.
    fold q in Hmod. pose proof (Z.mod_pos_bound q 2 ltac:(lia)) as Hq.
    assert (Z.shiftr idx (Z.of_nat d) = q) as Hsh by (apply Z.shiftr_div_pow2; lia).
    assert (Z.shiftr idx (Z.of_nat (S d)) = Z.shiftr q 1) as ->.
    { rewrite <- Hsh, Z.shiftr_shiftr by lia. f_equal. lia. }
    assert (Z.land q 1 = q mod 2) as Hland by (apply (land_ones_mod q 1); lia).
    rewrite peaks_S. destruct (Nat.ltb_spec (length l) (2 ^ d)) as [Hlt|Hge].
    + assert (q mod 2 = 0) as Hq0 by nia.
      rewrite IH by (done || lia). cbn [res_bind]. unfold append_step. cbn [index partial top active_iter updated_active_nodes].
      rewrite Hsh, Hland, Hq0. cbn [Z.eqb]. rewrite node_half by done.
      rewrite peaks_S, length_app. cbn [length].
      rewrite Nat.pow_succ_r' in *.
      destruct (Nat.ltb_spec (length l + 1) (2 ^ d)).
      * by destruct (Nat.ltb_spec (length l + 1) (2 * 2 ^ d)); [|lia].
      * destruct (Nat.ltb_spec (length l + 1) (2 * 2 ^ d)); [|lia].
        assert (length (l ++ [x]) = 2 ^ d)%nat as Hf by (rewrite length_app; cbn; lia).
        rewrite peaks_full, app_nil_r, drop_ge, take_ge by lia.
        by rewrite peaks_nil.
    + assert (q mod 2 = 1) as Hq1 by nia.
      destruct (Nat.ltb_spec (length l) (2 ^ S d)); [|lia].
      rewrite <- app_assoc. cbn [app].
      rewrite IH by (rewrite ?length_drop, ?Nat.pow_succ_r' in *; lia).
      cbn [res_bind]. unfold append_step.
      cbn [index partial top active_iter updated_active_nodes].
      rewrite Hsh, Hland, Hq1. cbn [Z.eqb]. rewrite node_full_drop by lia.
      rewrite (peaks_S _ (l ++ [x])), length_app, length_drop. cbn [length].
      rewrite drop_app_le, take_app_le by lia. rewrite Nat.pow_succ_r' in *.
      destruct (Nat.ltb_spec (length l + 1) (2 ^ d)); [lia|].
      destruct (Nat.ltb_spec (length l - 2 ^ d + 1) (2 ^ d)),
        (Nat.ltb_spec (length l + 1) (2 * 2 ^ d)); try lia.
      * by rewrite app_assoc.
      * by rewrite peaks_full by (rewrite length_app, length_drop; cbn; lia).
Qed.
(** The state holds the tree over the leaves [l]. *)
Definition represents (m : incremental_merkle) (l : list digest_type) : Prop :=
  _node_count m = Z.of_nat (length l)
  /\ (l = [] -> _active_nodes m = [])
  /\ (l <> [] -> _active_nodes m
                 = peaks (height (length l)) l ++ [node (height (length l)) l]).

Lemma represents_empty : represents empty_incremental_merkle [].
Proof. split; [done|]. split; [done|]. by intros []. Qed.

Lemma length_lt_height l (x : digest_type) :
  (length l < 2 ^ height (length (l ++ [x])))%nat.
Proof.
  destruct (height_fits (length (l ++ [x]))) as [[_ Hf] _]; rewrite length_app in *; cbn in *; lia.
Qed.

(** The active nodes start with the subtrees the next append collapses. *)
Lemma represents_active m l x :
  represents m l ->
  exists rest, _active_nodes m = peaks (height (length (l ++ [x]))) l ++ rest.
Proof.
  intros (_ & Hnil & Hcons). destruct l as [|a l']; [exists []; by rewrite Hnil|].
  rewrite Hcons by done. set (l := a :: l') in *.
  assert (1 <= length l)%nat as H1 by (subst l; cbn; lia).
  pose proof (height_fits _ H1) as Hfit. set (d := height (length l)) in *.
  pose proof (height_fits (length (l ++ [x])) ltac:(rewrite length_app; lia)) as Hfit'.
  rewrite length_app in Hfit' |- *. cbn [length] in Hfit' |- *.
  destruct (decide (length l = 2 ^ d)%nat) as [Heq|Hne].
  - assert (fits (S d) (length l + 1)) as Hs.
    { split; [rewrite Nat.pow_succ_r'; lia|]. intros ? [= <-]. lia. }
    rewrite (fits_unique _ _ _ Hfit' Hs). exists [].
    rewrite app_nil_r, (peaks_full d l Heq), peaks_S, Heq, Nat.ltb_irrefl.
    destruct (Nat.ltb_spec (2 ^ d) (2 ^ S d)); [|rewrite Nat.pow_succ_r' in *; lia].
    by rewrite drop_ge, take_ge, peaks_nil by lia.
  - assert (fits d (length l + 1)) as Hs.
    { destruct Hfit as [? Hd]. split; [lia|]. intros d' ->. specialize (Hd d' eq_refl). lia. }
    rewrite (fits_unique _ _ _ Hfit' Hs). by eexists.
Qed.

Lemma append_represents m l x :
  represents m l -> Z.of_nat (length l) < 2 ^ 63 ->
  exists m', append hash_pair m x = Ok (m', node (height (length (l ++ [x]))) (l ++ [x]))
          /\ represents m' (l ++ [x]).
Proof.
  intros Hrep Hlen. destruct (represents_active m l x Hrep) as [rest Hact].
  destruct Hrep as (Hcount & _). pose proof (length_lt_height l x) as Hlt.
  set (d := height (length (l ++ [x]))) in *. unfold append. rewrite Hcount.
  assert (u64 (Z.of_nat (length l) + 1) = Z.of_nat (length (l ++ [x]))) as ->.
  { rewrite length_app, Nat2Z.inj_add. apply wrap_small. unfold is_uint. cbn. lia. }
  rewrite max_depth_spec by (rewrite length_app, Nat2Z.inj_add; cbn; lia).
  rewrite Z.add_simpl_r. change (Z.to_nat (Z.log2_up _)) with d.
  rewrite Hact, append_loop_spec; [|done|lia|].
  2:{ apply Z.mod_small. rewrite <- (Nat2Z.inj_pow 2). lia. }
  cbn [res_bind updated_active_nodes top app].
  eexists. split; [by rewrite List.last_last|]. split; [done|]. split; [by destruct l|done].
Qed.

Lemma append_all_represents ids m l :
  represents m l -> Z.of_nat (length l + length ids) <= 2 ^ 63 ->
  exists m', append_all hash_pair m ids = Ok m' /\ represents m' (l ++ ids).
Proof.
  revert m l; induction ids as [|x ids IH]; intros m l Hrep Hlen; cbn [append_all length] in *.
  - exists m. by rewrite app_nil_r.
  - destruct (append_represents m l x Hrep) as (m' & -> & Hrep'); [lia|]. cbn [res_bind].
    destruct (IH m' (l ++ [x]) Hrep') as (m'' & E & Hrep''); [rewrite length_app; cbn; lia|].
    exists m''. by rewrite <- app_assoc in Hrep''.
Qed.

Lemma represents_root m l : represents m l -> get_root m = merkle hash_pair l.
Proof.
  intros (Hcount & Hnil & Hcons). unfold get_root. rewrite Hcount.
  destruct l as [|a l']; [done|]. rewrite Hcons by done.
  rewrite List.last_last, merkle_node by done. by destruct (Z.ltb_spec 0 (Z.of_nat (length (a :: l')))); [|cbn in *; lia].
Qed.

(** C34: appending any sequence of up to 2^63 ids to an empty incremental merkle
    never reads past the active nodes, counts the ids, and its root is the root
    [merkle] computes from scratch over the same ids. *)
Theorem incremental_merkle_root ids :
  Z.of_nat (length ids) <= 2 ^ 63 ->
  exists m, append_all hash_pair empty_incremental_merkle ids = Ok m
         /\ _node_count m = Z.of_nat (length ids)
         /\ get_root m = merkle hash_pair ids.
Proof.
  intros Hlen. destruct (append_all_represents ids _ [] represents_empty) as (m & E & Hrep); [done|].
  exists m. split; [done|]. split; [apply Hrep|]. by apply represents_root.
Qed.

(** the value [append] returns is the root of the tree over the leaves
    appended so far plus the new one, and it is what [get_root] gives afterwards. *)
Theorem append_returns_root m l x :
  represents m l -> Z.of_nat (length l) < 2 ^ 63 ->
  exists m', append hash_pair m x = Ok (m', merkle hash_pair (l ++ [x]))
          /\ get_root m' = merkle hash_pair (l ++ [x]) /\ represents m' (l ++ [x]).
Proof.
  intros Hrep Hlen. destruct (append_represents m l x Hrep Hlen) as (m' & E & Hrep').
  exists m'. rewrite merkle_node, E by (by destruct l). split; [done|].
  split; [|done]. rewrite (represents_root _ _ Hrep'). apply merkle_node. by destruct l.
Qed.

End Proofs.

(** [next_power_of_2] is the least power of two not below its argument, up
    to 2^63 (above, the final increment wraps to 0). *)
Theorem next_power_of_2_least v :
  1 <= v <= 2 ^ 63 ->
  (exists k, 0 <= k /\ next_power_of_2 v = 2 ^ k)
  /\ v <= next_power_of_2 v
  /\ (forall k, 0 <= k -> v <= 2 ^ k -> next_power_of_2 v <= 2 ^ k).
Proof.
  intros Hv. rewrite next_power_of_2_spec by done. pose proof (Z.log2_up_nonneg v).
  split; [by exists (Z.log2_up v)|]. split.
  - destruct (decide (v = 1)) as [->|Hne]; [done|]. apply Z.log2_up_spec. lia.
  - intros k Hk Hvk. apply Z.pow_le_mono_r; [lia|]. by apply Z.log2_up_le_pow2; [lia|].
Qed.

(** on every 64-bit power of two [clz_power_2] is the position of its set
    bit: the number of trailing zeros, and not the leading zeros its comment
    announces. *)
Theorem clz_power_2_trailing k :
  0 <= k < 64 ->
  clz_power_2 (2 ^ k) = k /\ (clz_power_2 (2 ^ k) <> 63 - k).
Proof. intros Hk. rewrite clz_power_2_spec by done. lia. Qed.

Lemma canonical_left_hash0 d i :
  is_uint 64 (_hash0 d) -> 0 <= i ->
  Z.testbit (_hash0 (make_canonical_left d)) i
  = Z.testbit (_hash0 d) i && negb (i =? 7).
Proof.
  intros Hu Hi. cbn [make_canonical_left set_hash0 _hash0].
  change 0xFFFFFFFFFFFFFF7F with (Z.ldiff (Z.ones 64) (2 ^ 7)).
  rewrite Z.land_spec, Z.ldiff_spec, Z.pow2_bits_eqb by lia. rewrite (Z.eqb_sym 7).
  destruct (Z.lt_ge_cases i 64).
  - by rewrite Z.ones_spec_low by lia.
  - replace (_hash0 d) with (_hash0 d mod 2 ^ 64) by (apply Z.mod_small, Hu).
    by rewrite Z.mod_pow2_bits_high by lia.
Qed.

Lemma canonical_right_hash0 d i :
  0 <= i ->
  Z.testbit (_hash0 (make_canonical_right d)) i = Z.testbit (_hash0 d) i || (i =? 7).
Proof.
  intros Hi. cbn [make_canonical_right set_hash0 _hash0].
  change 0x0000000000000080 with (2 ^ 7).
  by rewrite Z.lor_spec, Z.pow2_bits_eqb, (Z.eqb_sym 7) by lia.
Qed.

Lemma side_bit d : is_canonical_left d = negb (Z.testbit (_hash0 d) 7).
Proof.
  unfold is_canonical_left. change 0x0000000000000080 with (2 ^ 7).
  destruct (Z.eqb_spec (Z.land (_hash0 d) (2 ^ 7)) 0) as [E|E].
  - apply (f_equal (fun w => Z.testbit w 7)) in E.
    rewrite Z.land_spec, Z.pow2_bits_true, Z.bits_0, andb_true_r in E by lia. by rewrite E.
  - destruct (Z.testbit (_hash0 d) 7) eqn:B; [done|]. destruct E.
    apply Z.bits_inj'; intros i Hi. rewrite Z.land_spec, Z.pow2_bits_eqb, Z.bits_0 by lia.
    destruct (Z.eqb_spec 7 i) as [<-|]; [by rewrite B|apply andb_false_r].
Qed.

(** a canonical left digest and a canonical right digest differ in exactly
    one bit, which [is_canonical_left] and [is_canonical_right] read, and
    canonicalising keeps every other bit: a digest is one of its two canonical
    forms. *)
Theorem canonical_sides d :
  is_uint 64 (_hash0 d) ->
  is_canonical_left (make_canonical_left d) = true
  /\ is_canonical_right (make_canonical_right d) = true
  /\ make_canonical_left d <> make_canonical_right d
  /\ d = if is_canonical_left d then make_canonical_left d else make_canonical_right d.
Proof.
  intros Hu.
  assert (is_canonical_left (make_canonical_left d) = true) as Hl
    by (rewrite side_bit, canonical_left_hash0 by (done || lia); by rewrite andb_false_r).
  assert (is_canonical_left (make_canonical_right d) = false) as Hr
    by (rewrite side_bit, canonical_right_hash0 by lia; by rewrite orb_true_r).
  split; [done|]. split; [unfold is_canonical_right; fold (is_canonical_left (make_canonical_right d)); by rewrite Hr|].
  split; [congruence|].
  rewrite side_bit. destruct d as [h0 h1 h2 h3]. cbn [_hash0] in *.
  destruct (Z.testbit h0 7) eqn:B; cbn [negb];
    (enough (h0 = _hash0 (if Z.testbit h0 7 then make_canonical_right (mk_digest h0 h1 h2 h3)
                         else make_canonical_left (mk_digest h0 h1 h2 h3))) as E
      by (rewrite B in E; unfold make_canonical_right, make_canonical_left, set_hash0 in *;
          cbn in *; congruence));
    rewrite B; apply Z.bits_inj'; intros i Hi;
    rewrite ?canonical_right_hash0, ?canonical_left_hash0 by done; cbn [_hash0];
    (destruct (Z.eqb_spec i 7) as [->|]; [by rewrite B|]);
    by rewrite ?orb_false_r, ?andb_true_r.
Qed.

(** ** Witnesses, with a concrete [hash_pair] *)

(** A pairing that is not symmetric; any function will do. *)
Definition toy_hash (p : digest_type * digest_type) : digest_type :=
  mk_digest (u64 (3 * _hash0 (fst p) + 5 * _hash0 (snd p) + 7)) (_hash0 (fst p)) (_hash1 (snd p)) 1.

Definition leaf (n : Z) : digest_type := mk_digest n n n n.

Lemma incremental_merkle_root_witness :
  exists m, append_all toy_hash empty_incremental_merkle (leaf <$> [1; 2; 3; 4; 5]) = Ok m
         /\ _node_count m = 5
         /\ get_root m = merkle toy_hash (leaf <$> [1; 2; 3; 4; 5]).
Proof.
  assert (Z.of_nat (length (leaf <$> [1; 2; 3; 4; 5])) <= 2 ^ 63) as Hlen
    by (rewrite length_fmap; cbn [length]; lia).
  exact (incremental_merkle_root toy_hash (leaf <$> [1; 2; 3; 4; 5]) Hlen).
Defined.

Lemma append_returns_root_witness :
  exists m', append toy_hash empty_incremental_merkle (leaf 1) = Ok (m', merkle toy_hash [leaf 1])
          /\ get_root m' = merkle toy_hash [leaf 1] /\ represents toy_hash m' [leaf 1].
Proof.
  assert (Z.of_nat (length (@nil digest_type)) < 2 ^ 63) as Hlen by (cbn [length]; lia).
  exact (append_returns_root toy_hash empty_incremental_merkle [] (leaf 1)
           (represents_empty toy_hash) Hlen).
Defined.

Lemma next_power_of_2_least_witness :
  1 <= 9 <= 2 ^ 63 /\ 9 <= next_power_of_2 9.
Proof.
  assert (1 <= 9 <= 2 ^ 63) as Hv by lia.
  split; [exact Hv|]. exact (proj1 (proj2 (next_power_of_2_least 9 Hv))).
Defined.

Lemma clz_power_2_trailing_witness : clz_power_2 (2 ^ 5) = 5 /\ clz_power_2 (2 ^ 5) <> 63 - 5.
Proof. apply (clz_power_2_trailing 5). lia. Defined.

Lemma canonical_sides_witness :
  is_uint 64 200 /\ make_canonical_left (leaf 200) <> make_canonical_right (leaf 200).
Proof.
  assert (is_uint 64 200) as Hu by (unfold is_uint; lia).
  split; [exact Hu|]. exact (proj1 (proj2 (proj2 (canonical_sides (leaf 200) Hu)))).
Defined.

Example five_leaves_root_differs :
  merkle toy_hash (leaf <$> [1; 2; 3; 4; 5]) <> merkle toy_hash (leaf <$> [1; 2; 3; 4]).
Proof. vm_compute. discriminate. Qed.
