(* ===== verification/Authority.v ===== *)
(** Permission levels and authorities: include/eosio/chain/action.hpp
    (permission_level) and include/eosio/chain/authority.hpp.

    fc's public keys are a parameter: a type with decidable equality, the
    operator < [validate] compares them with and the packed size
    [get_billable_size] bills. *)

From Stdlib Require Import ZArith Lia.
From stdpp Require Import base gmap numbers sorting list.
From S2P Require Import Prelude.

Local Open Scope Z_scope.

Record permission_level := mk_level { actor : Z; permission : Z }.

#[export] Instance permission_level_eq_dec : EqDecision permission_level.
Proof. solve_decision. Defined.

#[export] Instance permission_level_countable : Countable permission_level.
Proof.
  refine (inj_countable' (fun p => (actor p, permission p)) (fun '(a, p) => mk_level a p) _).
  by intros [].
Defined.

(** operator< and operator>= on permission_level: lexicographic (std::tie). *)
Definition level_ltb (a b : permission_level) : bool :=
  (actor a <? actor b) || ((actor a =? actor b) && (permission a <? permission b)).
Definition level_geb (a b : permission_level) : bool := negb (level_ltb a b).

Section Authority.
Context {public_key : Type} `{EqDecision public_key}.

Record permission_level_weight := mk_level_weight { plw_permission : permission_level; plw_weight : Z }.
Record key_weight := mk_key_weight { kw_key : public_key; kw_weight : Z }.
Record wait_weight := mk_wait_weight { ww_wait_sec : Z; ww_weight : Z }.

(** struct authority; shared_authority holds the same members in shared memory. *)
Record authority := mk_authority {
  threshold : Z;
  keys : list key_weight;
  accounts : list permission_level_weight;
  waits : list wait_weight
}.

(** The C++ types of the members: a 32-bit threshold, 16-bit weights, 32-bit
    waits. *)
Definition authority_typed (a : authority) : Prop :=
  is_uint 32 (threshold a)
  /\ Forall (fun k => is_uint 16 (kw_weight k)) (keys a)
  /\ Forall (fun p => is_uint 16 (plw_weight p)) (accounts a)
  /\ Forall (fun w => is_uint 16 (ww_weight w) /\ is_uint 32 (ww_wait_sec w)) (waits a).

(** authority( public_key_type k, uint32_t delay_sec = 0 ) *)
Definition authority_of_key (k : public_key) (delay_sec : Z) : authority :=
  if 0 <? delay_sec
  then mk_authority 2 [mk_key_weight k 1] [] [mk_wait_weight delay_sec 1]
  else mk_authority 1 [mk_key_weight k 1] [] [].

(** authority( permission_level p, uint32_t delay_sec = 0 ) *)
Definition authority_of_level (p : permission_level) (delay_sec : Z) : authority :=
  if 0 <? delay_sec
  then mk_authority 2 [] [mk_level_weight p 1] [mk_wait_weight delay_sec 1]
  else mk_authority 1 [] [mk_level_weight p 1] [].

(** ** validate *)

(** operator< of fc::crypto::public_key *)
Variable key_lt : public_key -> public_key -> bool.

(** One of validate's for-loops: [None] is [return false], otherwise the
    32-bit running total weight. *)
Fixpoint validate_scan {A} (out_of_order : A -> A -> bool) (weight : A -> Z)
    (prev : option A) (l : list A) (total_weight : Z) : option Z :=
  match l with
  | [] => Some total_weight
  | x :: l' =>
      if match prev with Some p => out_of_order p x | None => false end then None
      else validate_scan out_of_order weight (Some x) l' (u32 (total_weight + weight x))
  end.

Definition validate (auth : authority) : bool :=
  if 2 ^ 16 <? Z.of_nat (length (keys auth)) + Z.of_nat (length (accounts auth))
               + Z.of_nat (length (waits auth)) then false
  else if threshold auth =? 0 then false
  else
    match validate_scan (fun p k => negb (key_lt (kw_key p) (kw_key k))) kw_weight None (keys auth) 0 with
    | None => false
    | Some total_weight =>
    match validate_scan (fun p a => level_geb (plw_permission p) (plw_permission a))
            plw_weight None (accounts auth) total_weight with
    | None => false
    | Some total_weight =>
        if match waits auth with w :: _ => ww_wait_sec w =? 0 | [] => false end then false
        else
    match validate_scan (fun p w => ww_wait_sec w <=? ww_wait_sec p) ww_weight None (waits auth) total_weight with
    | None => false
    | Some total_weight => threshold auth <=? total_weight
    end end end.

(** ** get_billable_size *)

Variable key_pack_size : public_key -> Z.

(** config::billable_size_v: the declared size rounded up to billable_alignment. *)
Definition billable_size_v (value : Z) : Z := (value + 16 - 1) / 16 * 16.

Definition get_billable_size (a : authority) : Z :=
  let accounts_size := Z.of_nat (length (accounts a)) * billable_size_v 24 in
  let waits_size := Z.of_nat (length (waits a)) * billable_size_v 16 in
  let keys_size := fold_left (fun sz k => sz + billable_size_v 8 + key_pack_size (kw_key k)) (keys a) 0 in
  accounts_size + waits_size + keys_size.

(** ** What validate promises *)

Definition sum_weights {A} (weight : A -> Z) (l : list A) : Z :=
  fold_right (fun x acc => weight x + acc) 0 l.

(** The specification of a well-formed authority, with unbounded sums. *)
Definition well_formed_authority (a : authority) : Prop :=
  Z.of_nat (length (keys a) + length (accounts a) + length (waits a)) <= 2 ^ 16
  /\ 0 < threshold a
  /\ StronglySorted (fun p q => key_lt (kw_key p) (kw_key q) = true) (keys a)
  /\ StronglySorted (fun p q => level_ltb (plw_permission p) (plw_permission q) = true) (accounts a)
  /\ StronglySorted (fun p q => ww_wait_sec p < ww_wait_sec q) (waits a)
  /\ Forall (fun w => 0 < ww_wait_sec w) (waits a)
  /\ threshold a <= sum_weights kw_weight (keys a) + sum_weights plw_weight (accounts a)
                    + sum_weights ww_weight (waits a).

Lemma sum_weights_bound {A} (weight : A -> Z) l :
  Forall (fun x => is_uint 16 (weight x)) l ->
  0 <= sum_weights weight l <= Z.of_nat (length l) * 65535.
Proof.
  induction 1 as [|x l Hx _ IH]; cbn [sum_weights fold_right length]; [lia|].
  unfold is_uint in Hx. fold (sum_weights weight l). lia.
Qed.

(** The loop succeeds exactly on ordered lists and, without overflow, returns
    the true sum. *)
Lemma validate_scan_spec {A} (ooo : A -> A -> bool) (weight : A -> Z) prev l total :
  Forall (fun x => is_uint 16 (weight x)) l ->
  0 <= total -> total + Z.of_nat (length l) * 65535 < 2 ^ 32 ->
  validate_scan ooo weight prev l total
  = if decide (Sorted (fun p q => ooo p q = false) (match prev with Some p => p :: l | None => l end))
    then Some (total + sum_weights weight l) else None.
Proof.
  revert prev total; induction l as [|x l IH]; intros prev total Hl Ht Hb.
  - cbn. rewrite decide_True, Z.add_0_r; [done|]. destruct prev; repeat constructor.
  - apply Forall_cons in Hl as [Hx Hl]. pose proof (sum_weights_bound weight l Hl).
    cbn [length] in Hb. unfold is_uint in Hx. cbn [validate_scan sum_weights fold_right].
    fold (sum_weights weight l).
    destruct (match prev with Some p => ooo p x | None => false end) eqn:E.
    + destruct prev as [p|]; [|done]. rewrite decide_False; [done|].
      intros Hs. inversion Hs as [|? ? _ Hhd]; subst. inversion Hhd; subst. congruence.
    + rewrite IH by (done || (unfold u32; rewrite wrap_small by (unfold is_uint; lia); lia)).
      unfold u32. rewrite wrap_small by (unfold is_uint; lia). rewrite Z.add_assoc.
      destruct prev as [p|]; [|done].
      apply decide_ext. split; intros Hs; [|by inversion Hs].
      constructor; [done|]. by constructor.
Qed.

Hypothesis key_lt_trans : forall a b c, key_lt a b = true -> key_lt b c = true -> key_lt a c = true.

Lemma level_ltb_trans a b c : level_ltb a b = true -> level_ltb b c = true -> level_ltb a c = true.
Proof.
  unfold level_ltb. destruct a as [a1 a2], b as [b1 b2], c as [c1 c2]. cbn [actor permission].
  rewrite !orb_true_iff, !andb_true_iff, !Z.ltb_lt, !Z.eqb_eq. lia.
Qed.

Lemma Sorted_StronglySorted_iff {A} (R : A -> A -> Prop) l :
  (forall a b c, R a b -> R b c -> R a c) -> Sorted R l <-> StronglySorted R l.
Proof.
  intros HR. split; [apply Sorted_StronglySorted; exact HR|].
  induction 1 as [|x l _ IH Hall]; constructor; [done|].
  destruct l as [|y l]; constructor. by apply Forall_inv in Hall.
Qed.

Lemma Sorted_ext {A} (R R' : A -> A -> Prop) l :
  (forall a b, R a b <-> R' a b) -> Sorted R l -> Sorted R' l.
Proof.
  intros HR. induction 1 as [|x l _ IH Hhd]; constructor; [done|].
  destruct Hhd; constructor. by apply HR.
Qed.

(** The order test of each loop holds exactly of the strictly sorted lists. *)
Lemma scan_order {A} (ooo : A -> A -> bool) (R : A -> A -> Prop) l :
  (forall a b, ooo a b = false <-> R a b) -> (forall a b c, R a b -> R b c -> R a c) ->
  Sorted (fun p q => ooo p q = false) l <-> StronglySorted R l.
Proof.
  intros Hext Htr. rewrite <- Sorted_StronglySorted_iff by done.
  split; apply Sorted_ext; [done|]. intros a b. by rewrite Hext.
Qed.

Lemma waits_positive (w : wait_weight) ws :
  StronglySorted (fun p q => ww_wait_sec p < ww_wait_sec q) (w :: ws) ->
  is_uint 32 (ww_wait_sec w) -> ww_wait_sec w <> 0 ->
  Forall (fun w => 0 < ww_wait_sec w) (w :: ws).
Proof.
  unfold is_uint. intros Hs Hw Hne. inversion Hs as [|? ? _ Hall]; subst.
  constructor; [lia|]. eapply Forall_impl; [exact Hall|]. cbn. lia.
Qed.

Lemma key_order (l : list key_weight) :
  Sorted (fun p q => negb (key_lt (kw_key p) (kw_key q)) = false) l
  <-> StronglySorted (fun p q => key_lt (kw_key p) (kw_key q) = true) l.
Proof.
  apply (scan_order (fun p q : key_weight => negb (key_lt (kw_key p) (kw_key q)))).
  - intros a b. apply negb_false_iff.
  - intros a b c. apply key_lt_trans.
Qed.

Lemma account_order (l : list permission_level_weight) :
  Sorted (fun p q => level_geb (plw_permission p) (plw_permission q) = false) l
  <-> StronglySorted (fun p q => level_ltb (plw_permission p) (plw_permission q) = true) l.
Proof.
  apply (scan_order (fun p q => level_geb (plw_permission p) (plw_permission q))).
  - intros a b. apply negb_false_iff.
  - intros a b c. apply level_ltb_trans.
Qed.

Lemma wait_order (l : list wait_weight) :
  Sorted (fun p q => (ww_wait_sec q <=? ww_wait_sec p) = false) l
  <-> StronglySorted (fun p q => ww_wait_sec p < ww_wait_sec q) l.
Proof.
  apply (scan_order (fun p q => ww_wait_sec q <=? ww_wait_sec p)).
  - intros a b. apply Z.leb_gt.
  - lia.
Qed.

(** [validate] accepts exactly the well-formed authorities: at most 2^16
    factors, a positive threshold, keys, accounts and waits each strictly
    sorted (so without repetition), no zero wait, and weights whose true sum
    reaches the threshold.  The 32-bit running total never overflows. *)
Theorem validate_correct auth :
  authority_typed auth -> validate auth = true <-> well_formed_authority auth.
Proof.
  intros (Ht & Hk & Ha & Hw).
  assert (Forall (fun w => is_uint 16 (ww_weight w)) (waits auth)) as Hw16
    by (eapply Forall_impl; [exact Hw|]; naive_solver).
  pose proof (sum_weights_bound _ _ Hk). pose proof (sum_weights_bound _ _ Ha).
  unfold validate, well_formed_authority. unfold is_uint in Ht.
  destruct (Z.ltb_spec (2 ^ 16) (Z.of_nat (length (keys auth)) + Z.of_nat (length (accounts auth))
               + Z.of_nat (length (waits auth)))); [split; [done|lia]|].
  destruct (Z.eqb_spec (threshold auth) 0); [split; [done|lia]|].
  rewrite validate_scan_spec by (done || lia). case_decide as Hsk; [|rewrite <- key_order; split; [done|tauto]].
  rewrite validate_scan_spec by (done || lia). case_decide as Hsa; [|rewrite <- account_order; split; [done|tauto]].
  rewrite <- key_order, <- account_order, <- wait_order.
  destruct (match waits auth with w :: _ => _ | [] => false end) eqn:E0.
  { split; [done|]. intros (_ & _ & _ & _ & _ & Hpos & _).
    destruct (waits auth) as [|w ws]; [done|]. bprop. apply Forall_inv in Hpos. lia. }
  rewrite validate_scan_spec by (done || lia).
  case_decide as Hsw; [|split; [done|tauto]].
  assert (Forall (fun w => 0 < ww_wait_sec w) (waits auth)) as Hpos.
  { destruct (waits auth) as [|w ws]; [constructor|]. bprop.
    apply waits_positive; [by apply wait_order| |done]. apply Forall_inv in Hw. apply Hw. }
  rewrite Z.leb_le. split; [intros; repeat split; (done || lia)|lia].
Qed.
End Authority.

Arguments key_weight : clear implicits.
Arguments authority : clear implicits.

(** ** Witness: natural numbers as keys *)

Definition sample_authority : authority nat :=
  mk_authority 2 [mk_key_weight 3%nat 1; mk_key_weight 8%nat 1]
    [mk_level_weight (mk_level 5 1) 1] [mk_wait_weight 60 1].

Lemma validate_correct_witness :
  authority_typed sample_authority /\ well_formed_authority Nat.ltb sample_authority.
Proof.
  assert (authority_typed sample_authority) as Hty.
  { unfold authority_typed, is_uint. cbn. split; [lia|]. repeat constructor; cbn; lia. }
  split; [exact Hty|].
  apply (validate_correct Nat.ltb
           ltac:(intros a b c; rewrite !Nat.ltb_lt; lia) sample_authority Hty).
  reflexivity.
Defined.
