(* ===== verification/AuthorityChecker.v ===== *)
(** The authority checker: include/eosio/chain/authority_checker.hpp and
    include/eosio/chain/parallel_markers.hpp.

    [checker] is the mutable part of authority_checker (the used-key marks and
    the permission cache of the evaluation in progress); what the evaluation
    only reads (the provided keys and delay, permission_to_authority, the depth
    limit) are section variables.  Boost's flat_multiset is a parameter: the
    order it iterates equivalent elements in is not specified. *)

From Stdlib Require Import ZArith Lia.
From stdpp Require Import base gmap numbers sorting list.
From S2P Require Import Prelude Authority.

Local Open Scope Z_scope.

(** static_variant<permission_level_weight, key_weight, wait_weight>; [which]
    is the index of the alternative. *)
Inductive meta_permission {public_key : Type} : Type :=
| MLevel (p : permission_level_weight)
| MKey (k : key_weight public_key)
| MWait (w : wait_weight).
Arguments meta_permission : clear implicits.

Definition which {K} (m : meta_permission K) : Z :=
  match m with MLevel _ => 0 | MKey _ => 1 | MWait _ => 2 end.

(** get_weight_visitor *)
Definition get_weight {K} (m : meta_permission K) : Z :=
  match m with MLevel p => plw_weight p | MKey k => kw_weight k | MWait w => ww_weight w end.

(** meta_permission_comparator: descending by weight, then by alternative. *)
Definition meta_before {K} (lhs rhs : meta_permission K) : bool :=
  (get_weight rhs <? get_weight lhs)
  || ((get_weight lhs =? get_weight rhs) && (which rhs <? which lhs)).

(** boost::container::flat_multiset< meta_permission, meta_permission_comparator >:
    iterating it visits the inserted elements, all of them, in an order that
    agrees with the comparator. *)
Class FlatMultiset (K : Type) := {
  flat_multiset : list (meta_permission K) -> list (meta_permission K);
  flat_multiset_perm : forall l, flat_multiset l ≡ₚ l;
  flat_multiset_sorted : forall l,
    StronglySorted (fun a b => meta_before b a = false) (flat_multiset l)
}.

Inductive permission_cache_status := being_evaluated | permission_unsatisfied | permission_satisfied.

#[export] Instance status_eq_dec : EqDecision permission_cache_status.
Proof. solve_decision. Defined.

Abbreviation permission_cache_type := (gmap permission_level permission_cache_status).

(** permission_status_in_cache: the level itself, else the same actor with the
    empty permission name. *)
Definition permission_status_in_cache (permissions : permission_cache_type) (level : permission_level)
    : option permission_cache_status :=
  match permissions !! level with
  | Some status => Some status
  | None => permissions !! mk_level (actor level) 0
  end.

(** filter_data_by_marker: the data whose marker has the given value. *)
Fixpoint filter_data_by_marker {A} (data : list A) (markers : list bool) (marker_value : bool) : list A :=
  match data, markers with
  | d :: data', m :: markers' =>
      if Bool.eqb m marker_value then d :: filter_data_by_marker data' markers' marker_value
      else filter_data_by_marker data' markers' marker_value
  | _, _ => []
  end.

Record checker := mk_checker {
  _used_keys : list bool;
  cached_permissions : permission_cache_type
}.

Section Checker.
Context {K : Type} `{EqDecision K} `{FlatMultiset K}.

(** What the checker is constructed with. *)
Variable permission_to_authority : permission_level -> res (authority K).
Variable provided_keys : list K.
Variable provided_permissions : list permission_level.
(** microseconds *)
Variable provided_delay : Z.

Definition set_cache (p : permission_level) (st : permission_cache_status) : exec checker unit :=
  modify (fun c => mk_checker (_used_keys c) (<[p := st]> (cached_permissions c))).

(** map::emplace: does nothing when the key is present. *)
Definition emplace_cache (p : permission_level) (st : permission_cache_status) : exec checker unit :=
  modify (fun c => match cached_permissions c !! p with
                   | Some _ => c
                   | None => mk_checker (_used_keys c) (<[p := st]> (cached_permissions c))
                   end).

(** boost::find: the index of the first equal element. *)
Definition find_key (k : K) : option nat := fst <$> list_find (fun x => x = k) provided_keys.

(** The metas of an authority in the order `satisfied` inserts them. *)
Definition metas (auth : authority K) : list (meta_permission K) :=
  (MWait <$> waits auth) ++ (MKey <$> keys auth) ++ (MLevel <$> accounts auth).

(** weight_tally_visitor::operator()( const wait_weight& ) *)
Definition visit_wait (total_weight : Z) (w : wait_weight) : exec checker Z :=
  ret (if ww_wait_sec w * 1000000 <=? provided_delay
       then u32 (total_weight + ww_weight w) else total_weight).

(** weight_tally_visitor::operator()( const key_weight& ) *)
Definition visit_key (total_weight : Z) (k : key_weight K) : exec checker Z :=
  match find_key (kw_key k) with
  | Some i =>
      do _ <- modify (fun c => mk_checker (<[i := true]> (_used_keys c)) (cached_permissions c));
      ret (u32 (total_weight + kw_weight k))
  | None => ret total_weight
  end.

(** weight_tally_visitor::operator()( const permission_level_weight& ).
    [satisfied_deeper] is checker.satisfied at recursion_depth + 1; it is [None]
    when recursion_depth has reached recursion_depth_limit. *)
Definition visit_level (satisfied_deeper : option (authority K -> exec checker bool))
    (total_weight : Z) (p : permission_level_weight) : exec checker Z :=
  do c <- get_state;
  match permission_status_in_cache (cached_permissions c) (plw_permission p) with
  | None =>
      match satisfied_deeper with
      | None => ret total_weight
      | Some satisfied =>
          match permission_to_authority (plw_permission p) with
          | Throw permission_query_exception => ret total_weight
          | Throw e => lift (Throw e)
          | Ok auth =>
              do _ <- emplace_cache (plw_permission p) being_evaluated;
              do r <- satisfied auth;
              if (r : bool) then
                do _ <- set_cache (plw_permission p) permission_satisfied;
                ret (u32 (total_weight + plw_weight p))
              else
                do _ <- set_cache (plw_permission p) permission_unsatisfied;
                ret total_weight
          end
      end
  | Some permission_satisfied => ret (u32 (total_weight + plw_weight p))
  | Some _ => ret total_weight
  end.

Definition visit (deeper : option (authority K -> exec checker bool))
    (total_weight : Z) (m : meta_permission K) : exec checker Z :=
  match m with
  | MLevel p => visit_level deeper total_weight p
  | MKey k => visit_key total_weight k
  | MWait w => visit_wait total_weight w
  end.

(** The for-loop of satisfied: visit until the tally reaches the threshold. *)
Fixpoint tally (deeper : option (authority K -> exec checker bool)) (auth_threshold : Z)
    (permissions : list (meta_permission K)) (total_weight : Z) : exec checker bool :=
  match permissions with
  | [] => ret false
  | m :: rest =>
      do total_weight <- visit deeper total_weight m;
      if auth_threshold <=? total_weight then ret true
      else tally deeper auth_threshold rest total_weight
  end.

(** KeyReverter: unless cancelled, the used keys are restored when the scope is
    left, normally or by an exception. *)
Definition revert_keys_unless_true (body : exec checker bool) : exec checker bool :=
  fun c => match body c with
           | (Ok true, c') => (Ok true, c')
           | (r, c') => (r, mk_checker (_used_keys c) (cached_permissions c'))
           end.

(** satisfied( authority, cached_permissions, depth ); [remaining] is
    recursion_depth_limit - depth. *)
Fixpoint satisfied_at (remaining : nat) (auth : authority K) : exec checker bool :=
  revert_keys_unless_true
    (tally (match remaining with O => None | S r => Some (satisfied_at r) end)
       (threshold auth) (flat_multiset (metas auth)) 0).

(** initialize_permission_cache *)
Definition initialize_permission_cache : permission_cache_type :=
  fold_left (fun cache p => match cache !! p with Some _ => cache | None => <[p := permission_satisfied]> cache end)
    provided_permissions ∅.

(** The state a new authority_checker starts an uncached evaluation in. *)
Definition initial_checker : checker :=
  mk_checker (replicate (length provided_keys) false) initialize_permission_cache.

Variable recursion_depth_limit : nat.

(** satisfied( const AuthorityType& authority ): a fresh cache per call. *)
Definition satisfied_authority (auth : authority K) : exec (list bool) bool :=
  fun used =>
    let '(r, c) := satisfied_at recursion_depth_limit auth
                     (mk_checker used initialize_permission_cache) in (r, _used_keys c).

(** satisfied( const permission_level& permission ) *)
Definition satisfied_level (p : permission_level) : exec (list bool) bool :=
  fun used =>
    let deeper := match recursion_depth_limit with
                  | O => None | S r => Some (satisfied_at r) end in
    let '(r, c) := visit_level deeper 0 (mk_level_weight p 1)
                     (mk_checker used initialize_permission_cache) in
    (let! w := r in Ok (0 <? w), _used_keys c).

Definition all_keys_used (used : list bool) : bool := forallb id used.
Definition used_keys (used : list bool) : list K := filter_data_by_marker provided_keys used true.
Definition unused_keys (used : list bool) : list K := filter_data_by_marker provided_keys used false.

(** ** The specification: when a permission is granted, without caches, order
    of evaluation or depth limit *)

Inductive granted : permission_level -> Prop :=
| granted_provided p : p ∈ provided_permissions -> granted p
| granted_any p : granted (mk_level (actor p) 0) -> granted p
| granted_by_authority p auth sel :
    permission_to_authority p = Ok auth ->
    sel ⊆+ metas auth ->
    (forall m, m ∈ sel -> factor_granted m) ->
    threshold auth <= sum_weights get_weight sel ->
    granted p
with factor_granted : meta_permission K -> Prop :=
| factor_level p : granted (plw_permission p) -> factor_granted (MLevel p)
| factor_key k : kw_key k ∈ provided_keys -> factor_granted (MKey k)
| factor_wait w : ww_wait_sec w * 1000000 <= provided_delay -> factor_granted (MWait w).

(** An authority is satisfied when granted factors of it reach its threshold. *)
Definition authority_granted (auth : authority K) : Prop :=
  exists sel, sel ⊆+ metas auth /\ (forall m, m ∈ sel -> factor_granted m)
           /\ threshold auth <= sum_weights get_weight sel.

(** ** Soundness *)

(** permission_to_authority returns authorities with members of their C++ types. *)
Hypothesis authorities_typed :
  forall p auth, permission_to_authority p = Ok auth -> authority_typed auth.

Definition meta_typed (m : meta_permission K) : Prop := is_uint 16 (get_weight m).

Definition cache_sound (cache : permission_cache_type) : Prop :=
  forall p, cache !! p = Some permission_satisfied -> granted p.

(** What a deeper evaluation guarantees. *)
Definition sound_at (f : authority K -> exec checker bool) : Prop :=
  forall auth c r c', authority_typed auth -> cache_sound (cached_permissions c) ->
    f auth c = (Ok r, c') ->
    cache_sound (cached_permissions c') /\ (r = true -> authority_granted auth).

Definition deeper_sound (deeper : option (authority K -> exec checker bool)) : Prop :=
  forall f, deeper = Some f -> sound_at f.

Lemma metas_typed auth : authority_typed auth -> Forall meta_typed (metas auth).
Proof.
  intros (_ & Hk & Ha & Hw). unfold metas. rewrite !Forall_app, !Forall_fmap.
  repeat split; [|done|done]. eapply Forall_impl; [exact Hw|]. by intros w [? _].
Qed.

Lemma cache_sound_insert cache p st :
  cache_sound cache -> (st = permission_satisfied -> granted p) ->
  cache_sound (<[p := st]> cache).
Proof.
  intros Hc Hp q. destruct (decide (p = q)) as [->|Hne].
  - rewrite lookup_insert_eq. naive_solver.
  - rewrite lookup_insert_ne by done. apply Hc.
Qed.

Lemma status_granted cache p :
  cache_sound cache -> permission_status_in_cache cache p = Some permission_satisfied -> granted p.
Proof.
  unfold permission_status_in_cache. intros Hc. destruct (cache !! p) as [st|] eqn:E.
  - intros [= ->]. by apply Hc.
  - intros Ha. by apply granted_any, Hc.
Qed.

Lemma u32_le z : 0 <= z -> 0 <= u32 z <= z.
Proof.
  intros Hz. unfold u32, wrap. split; [by apply Z.mod_pos_bound|by apply Z.mod_le].
Qed.

(** A factor either leaves the tally alone or is granted and adds its weight. *)
Definition visit_outcome (total total' : Z) (m : meta_permission K) : Prop :=
  total' = total \/ (factor_granted m /\ total' = u32 (total + get_weight m)).

Lemma visit_level_sound deeper total p c total' c' :
  deeper_sound deeper -> cache_sound (cached_permissions c) ->
  visit_level deeper total p c = (Ok total', c') ->
  cache_sound (cached_permissions c') /\ visit_outcome total total' (MLevel p).
Proof.
  intros Hd Hc. unfold visit_level, bind, get_state, ret, lift.
  destruct (permission_status_in_cache _ _) as [st|] eqn:Est.
  { destruct st; intros [= <- <-]; (split; [done|]); [by left..|].
    right. split; [|done]. constructor. by eapply status_granted. }
  destruct deeper as [f|]; [|intros [= <- <-]; split; [done|by left]].
  destruct (permission_to_authority (plw_permission p)) as [auth|e] eqn:Ep.
  2:{ destruct e; intros [= <- <-]; (split; [done|by left]). }
  cbn [emplace_cache modify].
  set (c1 := match cached_permissions c !! _ with Some _ => c | None => _ end).
  assert (cache_sound (cached_permissions c1)) as Hc1.
  { subst c1. destruct (_ !! _); [done|]. cbn. by apply cache_sound_insert. }
  destruct (f auth c1) as [[r|e] c2] eqn:Ef; [|discriminate].
  destruct (Hd f eq_refl _ _ _ _ (authorities_typed _ _ Ep) Hc1 Ef) as [Hc2 Hr].
  destruct r; cbn; intros [= <- <-]; cbn.
  - destruct (Hr eq_refl) as (sel & Hsel & Hall & Hth).
    assert (granted (plw_permission p)) as Hg by (by eapply granted_by_authority).
    split; [by apply cache_sound_insert|]. right. split; [by constructor|done].
  - split; [by apply cache_sound_insert|by left].
Qed.

Lemma find_key_elem k i : find_key k = Some i -> k ∈ provided_keys.
Proof.
  unfold find_key. intros Hf. apply fmap_Some in Hf as ([j x] & Hf & _).
  apply list_find_Some in Hf as (Hx & -> & _). by eapply list_elem_of_lookup_2.
Qed.

Lemma visit_sound deeper total m c total' c' :
  deeper_sound deeper -> cache_sound (cached_permissions c) ->
  visit deeper total m c = (Ok total', c') ->
  cache_sound (cached_permissions c') /\ visit_outcome total total' m.
Proof.
  intros Hd Hc. destruct m as [p|k|w]; cbn [visit].
  - by apply visit_level_sound.
  - unfold visit_key. destruct (find_key (kw_key k)) as [i|] eqn:Ef; cbn; intros [= <- <-].
    + split; [done|]. right. split; [|done]. constructor. by eapply find_key_elem.
    + split; [done|by left].
  - unfold visit_wait. cbn. intros [= <- <-]. split; [done|].
    destruct (Z.leb_spec (ww_wait_sec w * 1000000) provided_delay); [right|by left].
    split; [by constructor|done].
Qed.

Lemma tally_sound deeper th perms total c r c' :
  deeper_sound deeper -> Forall meta_typed perms -> 0 <= total ->
  cache_sound (cached_permissions c) ->
  tally deeper th perms total c = (Ok r, c') ->
  cache_sound (cached_permissions c')
  /\ (r = true -> exists sel, sel `sublist_of` perms
                    /\ (forall m, m ∈ sel -> factor_granted m)
                    /\ th <= total + sum_weights get_weight sel).
Proof.
  intros Hd Hty. revert total c. induction Hty as [|m perms Hm _ IH]; intros total c Ht Hc; cbn [tally].
  { intros [= <- <-]. done. }
  unfold bind at 1. destruct (visit deeper total m c) as [[total1|e] c1] eqn:Ev; [|discriminate].
  destruct (visit_sound _ _ _ _ _ _ Hd Hc Ev) as [Hc1 Hout].
  unfold meta_typed, is_uint in Hm.
  assert (0 <= total1 /\ exists hd, hd `sublist_of` [m] /\ (forall x, x ∈ hd -> factor_granted x)
          /\ total1 <= total + sum_weights get_weight hd) as (Ht1 & hd & Hhd & Hg & Hle).
  { destruct Hout as [->|[Hg ->]].
    - split; [done|]. exists []. split; [apply sublist_nil_l|]. split; [|cbn; lia].
      intros x Hx. by apply elem_of_nil in Hx.
    - pose proof (u32_le (total + get_weight m) ltac:(lia)). split; [lia|].
      exists [m]. split; [done|]. split; [|cbn; lia]. by intros x ->%list_elem_of_singleton. }
  destruct (Z.leb_spec th total1) as [Hth|Hth].
  - intros [= <- <-]. split; [done|]. intros _. exists hd.
    split; [|split; [done|lia]]. etrans; [exact Hhd|]. by apply sublist_skip, sublist_nil_l.
  - intros Ht'. destruct (IH _ _ Ht1 Hc1 Ht') as [Hc' Hr]. split; [done|].
    intros Hrt. destruct (Hr Hrt) as (sel & Hsel & Hall & Hsum). exists (hd ++ sel).
    split; [by apply (sublist_app _ [m])|]. split.
    + intros x [Hx|Hx]%elem_of_app; auto.
    + unfold sum_weights in *. rewrite foldr_app.
      assert (forall l z, foldr (fun x acc => get_weight (K:=K) x + acc) z l
               = foldr (fun x acc => get_weight x + acc) 0 l + z) as Hfold.
      { induction l as [|x l IHl]; intros z; cbn; [done|]. rewrite IHl. lia. }
      rewrite Hfold. lia.
Qed.

Lemma satisfied_at_sound n : sound_at (satisfied_at n).
Proof.
  induction n as [|n IH]; intros auth c r c' Hty Hc; cbn [satisfied_at];
    unfold revert_keys_unless_true;
    (destruct (tally _ _ _ _ c) as [r0 c0] eqn:Et; intros Hres;
     assert (r0 = Ok r /\ cached_permissions c' = cached_permissions c0) as [-> ->]
       by (destruct r0 as [[]|]; by injection Hres as <- <-);
     apply tally_sound in Et as [Hc' Hr]; [| |rewrite flat_multiset_perm; by apply metas_typed|done|done]).
  1,3: split; [done|]; intros Hrt; destruct (Hr Hrt) as (sel & Hsel & Hall & Hsum);
    exists sel; split; [|done];
    etrans; [by apply sublist_submseteq|]; by rewrite flat_multiset_perm.
  - intros f [=].
  - intros f [= <-]. apply IH.
Qed.

Lemma initial_cache_lookup p st :
  initialize_permission_cache !! p = Some st <-> st = permission_satisfied /\ p ∈ provided_permissions.
Proof.
  unfold initialize_permission_cache.
  enough (forall l (m : permission_cache_type),
    fold_left (fun cache q => match cache !! q with Some _ => cache | None => <[q := permission_satisfied]> cache end) l m !! p
    = match m !! p with Some s => Some s | None => if decide (p ∈ l) then Some permission_satisfied else None end)
    as ->.
  { rewrite lookup_empty. case_decide; naive_solver. }
  induction l as [|q l IH]; intros m; cbn [fold_left].
  { destruct (m !! p); [done|]. by rewrite decide_False by (by apply not_elem_of_nil). }
  rewrite IH. destruct (m !! q) eqn:Eq.
  - destruct (m !! p) eqn:Ep; [done|]. apply decide_ext. rewrite elem_of_cons. naive_solver.
  - destruct (decide (q = p)) as [->|Hne].
    + rewrite lookup_insert_eq, Eq. by rewrite decide_True by (by left).
    + rewrite lookup_insert_ne by done. destruct (m !! p); [done|].
      apply decide_ext. rewrite elem_of_cons. naive_solver.
Qed.

Lemma initial_cache_sound : cache_sound initialize_permission_cache.
Proof. intros p [_ Hp]%initial_cache_lookup. by apply granted_provided. Qed.

(** C33: the checker is sound: when it reports an authority satisfied, factors of
    that authority that are really granted (provided keys, an elapsed wait,
    permissions provided or granted in turn by their own authorities) reach its
    threshold.  Neither the cache, nor the evaluation order, nor a permission
    cycle, nor a wrapped 32-bit tally can make it report more. *)
Theorem satisfied_authority_sound auth used used' :
  authority_typed auth ->
  satisfied_authority auth used = (Ok true, used') ->
  authority_granted auth.
Proof.
  intros Hty. unfold satisfied_authority.
  destruct (satisfied_at _ _ _) as [r c'] eqn:E. intros [= -> _].
  apply (satisfied_at_sound recursion_depth_limit auth (mk_checker used initialize_permission_cache) true c');
    (done || apply initial_cache_sound).
Qed.

Lemma satisfied_level_granted p used used' :
  satisfied_level p used = (Ok true, used') -> granted p.
Proof.
  unfold satisfied_level. destruct (visit_level _ _ _ _) as [r c'] eqn:E.
  intros Hres. injection Hres as Hres _. inv_res.
  apply visit_level_sound in E as [_ [->|[Hg _]]]; [discriminate|by inversion Hg| |apply initial_cache_sound].
  intros f Hf. destruct recursion_depth_limit; [discriminate|]. injection Hf as <-.
  apply satisfied_at_sound.
Qed.

(** the same for a permission level: reported satisfied, it is granted. *)
Theorem satisfied_level_sound p used used' :
  satisfied_level p used = (Ok true, used') -> granted p.
Proof. apply satisfied_level_granted. Qed.

(** ** The used-key marks *)

Definition marks_le (u u' : list bool) : Prop :=
  length u = length u' /\ (forall i, u !! i = Some true -> u' !! i = Some true).

#[local] Instance marks_le_preorder : PreOrder marks_le.
Proof. split; [by intros u|]. intros u v w [H1 H2] [H3 H4]. split; [congruence|auto]. Qed.

Lemma marks_le_insert u i : marks_le u (<[i := true]> u).
Proof.
  split; [by rewrite length_insert|]. intros j Hj. rewrite list_lookup_insert.
  by case_decide.
Qed.

Definition marks_grow {A} (f : exec checker A) : Prop :=
  forall c r c', f c = (r, c') -> marks_le (_used_keys c) (_used_keys c').

Lemma bind_marks {A B} (f : exec checker A) (k : A -> exec checker B) :
  marks_grow f -> (forall a, marks_grow (k a)) -> marks_grow (bind f k).
Proof.
  intros Hf Hk c r c'. unfold bind. destruct (f c) as [[a|e] c1] eqn:E; intros Heq.
  - etrans; [by eapply Hf|by eapply Hk].
  - injection Heq as <- <-. by eapply Hf.
Qed.

Lemma pure_marks {A} (f : exec checker A) :
  (forall c, _used_keys (snd (f c)) = _used_keys c) -> marks_grow f.
Proof. intros Hf c r c' E. specialize (Hf c). rewrite E in Hf. cbn in Hf. by rewrite Hf. Qed.

Lemma visit_marks deeper total m :
  (forall f auth, deeper = Some f -> marks_grow (f auth)) -> marks_grow (visit deeper total m).
Proof.
  intros Hd. destruct m as [p|k|w]; cbn [visit].
  - unfold visit_level. apply bind_marks; [by apply pure_marks|]. intros c.
    destruct (permission_status_in_cache _ _) as [[]|]; try (by apply pure_marks).
    destruct deeper as [f|]; [|by apply pure_marks].
    destruct (permission_to_authority _) as [auth|e]; [|destruct e; by apply pure_marks].
    apply bind_marks; [apply pure_marks; intros ?; cbn; by case_match|]. intros _.
    apply bind_marks; [by apply Hd|]. intros []; by apply bind_marks; [|intros _]; apply pure_marks.
  - unfold visit_key. destruct (find_key _) as [i|]; [|by apply pure_marks].
    apply bind_marks; [|intros _; by apply pure_marks].
    intros c r c' [= <- <-]. apply marks_le_insert.
  - by apply pure_marks.
Qed.

Lemma tally_marks deeper th perms total :
  (forall f auth, deeper = Some f -> marks_grow (f auth)) -> marks_grow (tally deeper th perms total).
Proof.
  intros Hd. revert total; induction perms as [|m perms IH]; intros total; cbn [tally].
  - by apply pure_marks.
  - apply bind_marks; [by apply visit_marks|]. intros total1.
    destruct (th <=? total1); [by apply pure_marks|apply IH].
Qed.

Lemma satisfied_at_marks n auth : marks_grow (satisfied_at n auth).
Proof.
  revert auth; induction n as [|n IH]; intros auth c r c'; cbn [satisfied_at];
    unfold revert_keys_unless_true;
    destruct (tally _ _ _ _ c) as [r0 c0] eqn:Et;
    (apply tally_marks in Et; [|intros f auth' Hf; (discriminate || (injection Hf as <-; apply IH))]);
    destruct r0 as [[]|]; intros [= <- <-]; (done || reflexivity).
Qed.

(** only a successful evaluation consumes keys: when [satisfied] returns
    false or throws, the used-key marks are what they were before the call; when
    it returns true they only grow. *)
Theorem used_keys_only_on_success auth used r used' :
  satisfied_authority auth used = (r, used') ->
  if decide (r = Ok true) then marks_le used used' else used' = used.
Proof.
  unfold satisfied_authority.
  destruct (satisfied_at _ _ _) as [r0 c'] eqn:E. intros [= <- <-]. case_decide as Hr.
  - by apply satisfied_at_marks in E.
  - destruct recursion_depth_limit; cbn [satisfied_at] in E; unfold revert_keys_unless_true in E;
      destruct (tally _ _ _ _ _) as [[[]|] c0]; injection E as <- <-; done.
Qed.

(** ** Completeness on authorities of keys and waits *)

Definition factor_weight (m : meta_permission K) : Z :=
  match m with
  | MLevel _ => 0
  | MKey k => if decide (kw_key k ∈ provided_keys) then kw_weight k else 0
  | MWait w => if ww_wait_sec w * 1000000 <=? provided_delay then ww_weight w else 0
  end.

Lemma find_key_None k : find_key k = None <-> k ∉ provided_keys.
Proof.
  unfold find_key. rewrite fmap_None, list_find_None, Forall_forall. naive_solver.
Qed.

Lemma visit_flat deeper total m c :
  (forall p, m <> MLevel p) -> meta_typed m -> 0 <= total -> total + 65535 < 2 ^ 32 ->
  fst (visit deeper total m c) = Ok (total + factor_weight m).
Proof.
  unfold meta_typed, is_uint. intros Hm Hty Ht Hb.
  assert (u32 (total + get_weight m) = total + get_weight m) as Hu
    by (apply wrap_small; unfold is_uint; lia).
  destruct m as [p|k|w]; [by destruct (Hm p)| |]; cbn [visit factor_weight get_weight] in *.
  - unfold visit_key. destruct (find_key (kw_key k)) as [i|] eqn:Ef; cbn.
    + rewrite decide_True by (by eapply find_key_elem). by rewrite Hu.
    + rewrite decide_False by (by apply find_key_None). by rewrite Z.add_0_r.
  - unfold visit_wait. cbn. destruct (_ <=? _); [by rewrite Hu|by rewrite Z.add_0_r].
Qed.

Lemma factor_weight_bound m : meta_typed m -> 0 <= factor_weight m <= 65535.
Proof.
  unfold meta_typed, is_uint. destruct m; cbn; try case_decide; try case_match; lia.
Qed.

Lemma tally_flat deeper th perms total c :
  Forall meta_typed perms -> Forall (fun m => forall p, m <> MLevel p) perms ->
  0 <= total < th -> total + Z.of_nat (length perms) * 65535 < 2 ^ 32 ->
  fst (tally deeper th perms total c) = Ok (th <=? total + sum_weights factor_weight perms).
Proof.
  intros Hty. revert total c. induction Hty as [|m perms Hm Hty IH]; intros total c Hflat Ht Hb.
  - cbn. rewrite Z.add_0_r. destruct (Z.leb_spec th total); [lia|done].
  - apply Forall_cons in Hflat as [Hml Hflat]. cbn [length] in Hb.
    pose proof (factor_weight_bound m Hm) as Hw.
    pose proof (visit_flat deeper total m c Hml Hm ltac:(lia) ltac:(lia)) as Hv.
    cbn [tally sum_weights fold_right]. fold (sum_weights factor_weight perms). unfold bind.
    destruct (visit deeper total m c) as [r c1]. cbn in Hv. subst r.
    assert (0 <= sum_weights factor_weight perms) as Hpos.
    { clear -Hty. induction Hty as [|x l Hx _ IH]; cbn; [lia|].
      pose proof (factor_weight_bound x Hx). unfold sum_weights in IH. lia. }
    destruct (Z.leb_spec th (total + factor_weight m)).
    + cbn. destruct (Z.leb_spec th (total + (factor_weight m + sum_weights factor_weight perms))); [done|lia].
    + rewrite IH by (done || lia). do 2 f_equal. lia.
Qed.

Lemma sum_weights_perm {A} (f : A -> Z) l l' : l ≡ₚ l' -> sum_weights f l = sum_weights f l'.
Proof. unfold sum_weights. induction 1; cbn; lia. Qed.

(** on an authority without account factors the checker is exact: whatever
    the cache and the depth, it reports satisfied if and only if the weights of
    the provided keys and of the waits covered by the delay reach the
    threshold. *)
Theorem satisfied_flat_exact n auth c :
  authority_typed auth -> accounts auth = [] -> 0 < threshold auth ->
  Z.of_nat (length (keys auth) + length (waits auth)) <= 2 ^ 16 ->
  fst (satisfied_at n auth c)
  = Ok (threshold auth <=? sum_weights factor_weight (metas auth)).
Proof.
  intros Hty Hacc Hth Hlen.
  set (deeper := match n with O => None | S r => Some (satisfied_at r) end).
  assert (fst (tally deeper (threshold auth) (flat_multiset (metas auth)) 0 c)
          = Ok (threshold auth <=? sum_weights factor_weight (metas auth))) as Ht.
  { rewrite tally_flat.
    - by rewrite (sum_weights_perm _ _ _ (flat_multiset_perm (metas auth))).
    - rewrite flat_multiset_perm. by apply metas_typed.
    - rewrite flat_multiset_perm. unfold metas. rewrite Hacc, !Forall_app, !Forall_fmap.
      repeat split; try done; by apply Forall_true.
    - lia.
    - rewrite flat_multiset_perm. unfold metas.
      rewrite Hacc, !length_app, !length_fmap. cbn [length]. lia. }
  destruct n as [|n]; cbn [satisfied_at]; fold deeper; unfold revert_keys_unless_true;
    fold deeper in Ht; destruct (tally _ _ _ _ _) as [[[]|] c0]; cbn in *; congruence.
Qed.

End Checker.

(** ** Witnesses: natural numbers as keys, a stable sort as the multiset *)

Definition meta_le {K} (a b : meta_permission K) : Prop := meta_before b a = false.

#[export] Instance meta_le_dec {K} : RelDecision (@meta_le K).
Proof. intros a b. unfold meta_le. apply _. Defined.

Lemma meta_le_spec {K} (a b : meta_permission K) :
  meta_le a b <-> get_weight b < get_weight a
                  \/ (get_weight b = get_weight a /\ which b <= which a).
Proof.
  unfold meta_le, meta_before. rewrite orb_false_iff, andb_false_iff, !Z.ltb_ge, Z.eqb_neq. lia.
Qed.

#[export] Instance meta_le_total {K} : Total (@meta_le K).
Proof. intros a b. rewrite !meta_le_spec. lia. Qed.

#[export] Instance meta_le_trans {K} : Transitive (@meta_le K).
Proof. intros a b c. rewrite !meta_le_spec. lia. Qed.

#[export] Instance merge_sort_multiset (K : Type) : FlatMultiset K := {|
  flat_multiset := merge_sort meta_le;
  flat_multiset_perm := merge_sort_Permutation meta_le;
  flat_multiset_sorted := StronglySorted_merge_sort meta_le
|}.

(** Account 100 needs key 1 and the active permission of account 200, which key
    2 holds; account 200 also accepts account 100 (a cycle). *)
Definition alice : authority nat :=
  mk_authority 2 [mk_key_weight 1%nat 1] [mk_level_weight (mk_level 200 1) 1] [].
Definition bob : authority nat :=
  mk_authority 1 [mk_key_weight 2%nat 1] [mk_level_weight (mk_level 100 1) 1] [].
Definition sample_permissions (p : permission_level) : res (authority nat) :=
  if decide (p = mk_level 100 1) then Ok alice
  else if decide (p = mk_level 200 1) then Ok bob
  else Throw permission_query_exception.

Lemma sample_typed p auth : sample_permissions p = Ok auth -> authority_typed auth.
Proof.
  unfold sample_permissions. repeat case_decide; intros [= <-];
    unfold authority_typed, is_uint; cbn; (split; [lia|]); repeat constructor; cbn; lia.
Qed.

Lemma satisfied_authority_sound_witness :
  satisfied_authority sample_permissions [1%nat; 2%nat] [] 0 6 alice [false; false]
    = (Ok true, [true; true])
  /\ authority_granted sample_permissions [1%nat; 2%nat] [] 0 alice.
Proof.
  assert (satisfied_authority sample_permissions [1%nat; 2%nat] [] 0 6 alice [false; false]
          = (Ok true, [true; true])) as E by (vm_compute; reflexivity).
  split; [exact E|].
  refine (satisfied_authority_sound sample_permissions _ _ _ 6 sample_typed alice _ _ _ E).
  exact (sample_typed (mk_level 100 1) alice eq_refl).
Defined.

Lemma satisfied_level_sound_witness :
  satisfied_level sample_permissions [2%nat] [] 0 6 (mk_level 200 1) [false] = (Ok true, [true])
  /\ granted sample_permissions [2%nat] [] 0 (mk_level 200 1).
Proof.
  assert (satisfied_level sample_permissions [2%nat] [] 0 6 (mk_level 200 1) [false]
          = (Ok true, [true])) as E by (vm_compute; reflexivity).
  split; [exact E|].
  exact (satisfied_level_sound sample_permissions _ _ _ 6 sample_typed _ _ _ E).
Defined.

(** Key 1 alone does not satisfy account 100, and stays unused. *)
Lemma used_keys_only_on_success_witness :
  satisfied_authority sample_permissions [1%nat] [] 0 6 alice [false] = (Ok false, [false])
  /\ [false] = [false].
Proof.
  assert (satisfied_authority sample_permissions [1%nat] [] 0 6 alice [false]
          = (Ok false, [false])) as E by (vm_compute; reflexivity).
  split; [exact E|].
  exact (used_keys_only_on_success sample_permissions [1%nat] [] 0 6 alice [false] _ _ E).
Defined.

Definition delayed : authority nat :=
  mk_authority 2 [mk_key_weight 1%nat 1] [] [mk_wait_weight 60 1].

Lemma satisfied_flat_exact_witness :
  authority_typed delayed
  /\ fst (satisfied_at sample_permissions [1%nat] 60000000 6 delayed (mk_checker [false] ∅)) = Ok true.
Proof.
  assert (authority_typed delayed) as Hty
    by (unfold authority_typed, is_uint; cbn; (split; [lia|]); repeat constructor; cbn; lia).
  split; [exact Hty|].
  exact (satisfied_flat_exact sample_permissions [1%nat] 60000000 6 delayed (mk_checker [false] ∅)
           Hty eq_refl ltac:(cbn; lia) ltac:(cbn; lia)).
Defined.
