(* ===== verification/ResourceLimits.v ===== *)
(** Resource limits: libraries/chain/resource_limits.cpp,
    include/eosio/chain/resource_limits.hpp and resource_limits_private.hpp.

    [Accumulator] models the exponential moving average and the integer helpers
    of namespace impl, [Elastic] the elastic block limits, [Manager] the
    resource_limits_manager over its chainbase tables.  The two singleton tables
    (configuration and state) are record fields. *)

From Stdlib Require Import ZArith Lia.
From stdpp Require Import base gmap numbers sorting list.
From S2P Require Import Prelude Chainbase.

Local Open Scope Z_scope.

Module Accumulator.

(** config::rate_limiting_precision *)
Definition Precision : Z := 1000 * 1000.

Record ratio := mk_ratio { numerator : Z; denominator : Z }.

#[export] Instance ratio_eq_dec : EqDecision ratio.
Proof. solve_decision. Defined.

(** T operator* (T value, const ratio<T>& r), T = uint64_t; dividing by zero is
    undefined. *)
Definition ratio_mul (value : Z) (r : ratio) : res Z :=
  assert! ((numerator r =? 0) || (value <=? UINT64_MAX / numerator r))
    else rate_limiting_state_inconsistent in
  if denominator r =? 0 then Throw undefined_behavior
  else Ok (u64 (value * numerator r) / denominator r).

(** integer_divide_ceil *)
Definition integer_divide_ceil (num den : Z) : res Z :=
  if den =? 0 then Throw undefined_behavior
  else Ok (num / den + (if 0 <? num mod den then 1 else 0)).

(** downgrade_cast<LesserIntType>( val ) for an unsigned wider type: [max] is
    the lesser type's largest value, and the least accepted value is 0. *)
Definition downgrade_cast (max val : Z) : res Z :=
  assert! ((0 <=? val) && (val <=? max)) else rate_limiting_state_inconsistent in Ok val.

Record usage_accumulator := mk_accumulator {
  last_ordinal : Z;
  value_ex : Z;
  consumed : Z
}.

Definition empty_accumulator : usage_accumulator := mk_accumulator 0 0 0.

Definition max_raw_value : Z := UINT64_MAX / Precision.

Definition average (a : usage_accumulator) : res Z := integer_divide_ceil (value_ex a) Precision.

(** add's block [if( last_ordinal != ordinal ) { ... }]: decay the value to the
    new period. *)
Definition advance (ordinal window_size : Z) (a : usage_accumulator) : res usage_accumulator :=
  if negb (last_ordinal a =? ordinal) then
    assert! (last_ordinal a <? ordinal) else resource_limit_exception in
    let! decayed :=
      (if ordinal <? u64 (last_ordinal a + window_size) then
         let delta := u32 (ordinal - last_ordinal a) in
         ratio_mul (value_ex a) (mk_ratio (u64 (window_size - delta)) window_size)
       else Ok 0) in
    let! avg := average (mk_accumulator ordinal decayed (consumed a)) in
    Ok (mk_accumulator ordinal decayed avg)
  else Ok a.

(** add( units, ordinal, window_size ): every check precedes the first
    assignment, so a throw leaves the accumulator as it was. *)
Definition add (units ordinal window_size : Z) (a : usage_accumulator) : res usage_accumulator :=
  assert! (units <=? max_raw_value) else rate_limiting_state_inconsistent in
  assert! (units <=? UINT64_MAX - consumed a) else rate_limiting_state_inconsistent in
  let! q := integer_divide_ceil (u128 (units * Precision)) window_size in
  let! value_ex_contrib := downgrade_cast UINT64_MAX q in
  assert! (value_ex_contrib <=? UINT64_MAX - value_ex a) else rate_limiting_state_inconsistent in
  let! a' := advance ordinal window_size a in
  Ok (mk_accumulator (last_ordinal a') (u64 (value_ex a' + value_ex_contrib))
        (u64 (consumed a' + units))).

Definition accumulator_typed (a : usage_accumulator) : Prop :=
  is_uint 32 (last_ordinal a) /\ is_uint 64 (value_ex a) /\ is_uint 64 (consumed a).

Definition div_ceil (num den : Z) : Z := num / den + (if 0 <? num mod den then 1 else 0).

Lemma div_ceil_spec num den :
  0 < den -> den * (div_ceil num den - 1) < num <= den * div_ceil num den.
Proof.
  intros Hd. unfold div_ceil. pose proof (Z.div_mod num den). pose proof (Z.mod_pos_bound num den Hd).
  destruct (Z.ltb_spec 0 (num mod den)); nia.
Qed.

Lemma div_ceil_unique num den q :
  0 < den -> den * (q - 1) < num <= den * q -> q = div_ceil num den.
Proof. intros Hd Hq. pose proof (div_ceil_spec num den Hd). nia. Qed.

Lemma div_ceil_nonneg num den : 0 <= num -> 0 < den -> 0 <= div_ceil num den.
Proof. intros Hn Hd. pose proof (div_ceil_spec num den Hd). nia. Qed.

Lemma div_ceil_div_ceil a b c : 0 < b -> 0 < c -> div_ceil (div_ceil a b) c = div_ceil a (b * c).
Proof.
  intros Hb Hc. apply div_ceil_unique; [nia|].
  pose proof (div_ceil_spec a b Hb). pose proof (div_ceil_spec (div_ceil a b) c Hc). nia.
Qed.

Lemma integer_divide_ceil_ok num den :
  0 < den -> integer_divide_ceil num den = Ok (div_ceil num den).
Proof. intros Hd. unfold integer_divide_ceil. by destruct (Z.eqb_spec den 0); [lia|]. Qed.

(** What one period's units contribute to value_ex. *)
Definition contribution (units window_size : Z) : Z := div_ceil (units * Precision) window_size.

(** The share of the old value left at [ordinal]. *)
Definition decayed (a : usage_accumulator) (ordinal window_size : Z) : Z :=
  if last_ordinal a =? ordinal then value_ex a
  else if ordinal <? last_ordinal a + window_size
       then value_ex a * (window_size - (ordinal - last_ordinal a)) / window_size
  else 0.

Lemma decayed_bound a ordinal window_size :
  0 <= value_ex a -> 0 < window_size -> last_ordinal a <= ordinal ->
  0 <= decayed a ordinal window_size <= value_ex a.
Proof.
  intros Hv Hw Hle. unfold decayed.
  destruct (Z.eqb_spec (last_ordinal a) ordinal); [lia|].
  destruct (Z.ltb_spec ordinal (last_ordinal a + window_size)); [|lia].
  split; [apply Z.div_pos; nia|]. apply Z.div_le_upper_bound; nia.
Qed.

Lemma ratio_mul_ok value num den v :
  0 <= value -> 0 <= num -> ratio_mul value (mk_ratio num den) = Ok v ->
  v = value * num / den /\ den <> 0.
Proof.
  intros Hv Hn. unfold ratio_mul. cbn [numerator denominator]. intros Hr. inv_res.
  destruct (Z.eqb_spec den 0); [discriminate|]. injection Hr as <-. split; [|done].
  unfold u64. rewrite wrap_small; [done|]. unfold is_uint. split; [nia|].
  apply orb_true_iff in E as [E|E]; bprop; [subst num; lia|].
  assert (num = 0 \/ 0 < num) as [->|Hpos] by lia; [lia|].
  pose proof (Z.mul_div_le UINT64_MAX num Hpos). unfold UINT64_MAX in *. nia.
Qed.

Lemma advance_ok ordinal window_size a a' :
  accumulator_typed a -> is_uint 32 ordinal -> is_uint 32 window_size -> 0 < window_size ->
  advance ordinal window_size a = Ok a' ->
  last_ordinal a <= ordinal /\ last_ordinal a' = ordinal
  /\ value_ex a' = decayed a ordinal window_size
  /\ consumed a' = if last_ordinal a =? ordinal then consumed a
                   else div_ceil (decayed a ordinal window_size) Precision.
Proof.
  unfold accumulator_typed, is_uint. intros (Ho & Hv & Hc) Hord Hw Hpos.
  unfold advance, decayed. destruct (Z.eqb_spec (last_ordinal a) ordinal) as [E|E]; cbn [negb].
  { intros [= <-]. lia. }
  intros Hr. inv_res. bprop. unfold u64, u32 in *.
  rewrite (wrap_small 64 (last_ordinal a + window_size)) in * by (unfold is_uint; lia).
  unfold average in *. cbn [value_ex] in *. rewrite integer_divide_ceil_ok in * by done.
  inv_res. cbn [last_ordinal value_ex consumed].
  enough (a0 = if ordinal <? last_ordinal a + window_size
          then value_ex a * (window_size - (ordinal - last_ordinal a)) / window_size else 0)
    as -> by (repeat split; lia).
  destruct (Z.ltb_spec ordinal (last_ordinal a + window_size)); inv_res; [|done].
  rewrite (wrap_small 32) in * by (unfold is_uint; lia).
  rewrite (wrap_small 64) in * by (unfold is_uint; lia).
  match goal with H : ratio_mul _ _ = Ok _ |- _ => apply ratio_mul_ok in H; lia end.
Qed.

(** A successful [add] computes exactly, without any wrap-around. *)
Lemma accumulator_add_ok units ordinal window_size a a' :
  accumulator_typed a -> is_uint 64 units -> is_uint 32 ordinal -> is_uint 32 window_size ->
  add units ordinal window_size a = Ok a' ->
  0 < window_size /\ last_ordinal a <= ordinal
  /\ last_ordinal a' = ordinal
  /\ value_ex a' = decayed a ordinal window_size + contribution units window_size
  /\ consumed a' = (if last_ordinal a =? ordinal then consumed a
                    else div_ceil (decayed a ordinal window_size) Precision) + units
  /\ accumulator_typed a'.
Proof.
  intros Hty Hu Hord Hw Hadd. pose proof Hty as (Ho & Hv & Hc). unfold is_uint in Ho, Hv, Hc, Hu.
  unfold add in Hadd. inv_res. bprop.
  assert (0 < window_size) as Hpos.
  { unfold is_uint in Hw. unfold integer_divide_ceil in E1.
    destruct (Z.eqb_spec window_size 0); [discriminate|lia]. }
  rewrite integer_divide_ceil_ok in E1 by done. injection E1 as <-.
  unfold max_raw_value in E. unfold u128 in *.
  rewrite wrap_small in * by (unfold is_uint, Precision; lia). fold (contribution units window_size) in *.
  unfold downgrade_cast in E2. inv_res. bprop.
  destruct (advance_ok _ _ _ _ Hty Hord Hw Hpos E4) as (Hle & Hlo & Hve & Hco).
  pose proof (decayed_bound a ordinal window_size ltac:(lia) Hpos Hle) as Hdec.
  pose proof (div_ceil_spec (decayed a ordinal window_size) Precision ltac:(done)) as Hdc.
  pose proof (div_ceil_nonneg (decayed a ordinal window_size) Precision ltac:(lia) ltac:(done)).
  cbn [last_ordinal value_ex consumed]. rewrite Hve, Hco. unfold u64.
  assert (is_uint 64 (decayed a ordinal window_size + contribution units window_size)) as Hu1
    by (unfold is_uint; unfold UINT64_MAX in *; lia).
  assert (is_uint 64 ((if last_ordinal a =? ordinal then consumed a
                       else div_ceil (decayed a ordinal window_size) Precision) + units)) as Hu2.
  { change (UINT64_MAX / Precision) with 18446744073709 in E.
    unfold is_uint, UINT64_MAX, Precision in *. destruct (_ =? _); lia. }
  rewrite !wrap_small by done. unfold accumulator_typed. cbn [last_ordinal value_ex consumed].
  rewrite Hlo. tauto.
Qed.

Lemma ratio_mul_total value num den :
  0 <= value -> 0 <= num -> 0 < den -> value * num <= UINT64_MAX ->
  ratio_mul value (mk_ratio num den) = Ok (value * num / den).
Proof.
  intros Hv Hn Hd Hb. unfold ratio_mul. cbn [numerator denominator].
  assert ((num =? 0) || (value <=? UINT64_MAX / num) = true) as ->.
  { destruct (Z.eqb_spec num 0) as [->|Hne]; [done|]. apply Z.leb_le.
    apply Z.div_le_lower_bound; lia. }
  cbn. destruct (Z.eqb_spec den 0); [lia|]. unfold u64. rewrite wrap_small; [done|].
  unfold is_uint, UINT64_MAX in *. nia.
Qed.

Lemma contribution_bound units window_size M :
  0 <= units <= M -> 0 < window_size ->
  0 <= contribution units window_size
  /\ window_size * (contribution units window_size - 1) < M * Precision.
Proof.
  intros Hu Hw. unfold contribution.
  pose proof (div_ceil_spec (units * Precision) window_size Hw).
  pose proof (div_ceil_nonneg (units * Precision) window_size ltac:(unfold Precision; lia) Hw).
  assert (units * Precision <= M * Precision) by (unfold Precision; lia). lia.
Qed.

(** A moving average fed at most [M] units per period stays bounded: once
    value_ex is at most [M * Precision + window_size], adding up to [M] units in
    a later period keeps it so, whatever the gap.  Rounding up therefore never
    accumulates. *)
Lemma add_average_bounded units ordinal window_size M a a' :
  accumulator_typed a -> is_uint 64 units -> is_uint 32 ordinal -> is_uint 32 window_size ->
  last_ordinal a < ordinal -> units <= M ->
  value_ex a <= M * Precision + window_size ->
  add units ordinal window_size a = Ok a' ->
  value_ex a' <= M * Precision + window_size.
Proof.
  intros Hty Hu Hord Hw Hlt HM Hb Hadd.
  destruct (accumulator_add_ok _ _ _ _ _ Hty Hu Hord Hw Hadd) as (Hpos & _ & _ & -> & _).
  unfold is_uint in Hu. destruct (contribution_bound units window_size M) as [_ Hc]; [lia|done|].
  destruct Hty as (_ & [Hv _] & _). unfold decayed.
  destruct (Z.eqb_spec (last_ordinal a) ordinal); [lia|].
  destruct (Z.ltb_spec ordinal (last_ordinal a + window_size)) as [Hin|Hout].
  - set (k := ordinal - last_ordinal a) in *.
    pose proof (Z.mul_div_le (value_ex a * (window_size - k)) window_size Hpos).
    assert (value_ex a * (window_size - k) <= value_ex a * (window_size - 1)) by nia.
    assert (value_ex a * (window_size - 1) <= (M * Precision + window_size) * (window_size - 1)) by nia.
    nia.
  - nia.
Qed.

(** [add] never throws on inputs within its documented range: units within
    max_raw_value, a period not before the last one, a positive window, and a
    value small enough not to overflow.  It then decays the old value linearly
    in the elapsed periods, adds the units' share rounded up, and no 64-bit
    operation wraps. *)
Lemma add_succeeds units ordinal window_size a :
  accumulator_typed a -> is_uint 32 ordinal -> is_uint 32 window_size ->
  0 < window_size -> 0 <= units <= max_raw_value -> last_ordinal a <= ordinal ->
  consumed a + units <= UINT64_MAX ->
  value_ex a * window_size <= UINT64_MAX ->
  value_ex a + units * Precision <= UINT64_MAX ->
  exists a', add units ordinal window_size a = Ok a'
    /\ last_ordinal a' = ordinal
    /\ value_ex a' = decayed a ordinal window_size + contribution units window_size
    /\ consumed a' = (if last_ordinal a =? ordinal then consumed a
                      else div_ceil (decayed a ordinal window_size) Precision) + units.
Proof.
  intros Hty Hord Hw Hpos Hu Hle Hc Hv Hx. pose proof Hty as (Ho & Hv0 & Hc0).
  unfold is_uint in Ho, Hv0, Hc0.
  assert (is_uint 64 units) as Hu64.
  { unfold is_uint. change max_raw_value with 18446744073709 in Hu. lia. }
  destruct (add units ordinal window_size a) as [a'|e] eqn:E.
  { exists a'. destruct (accumulator_add_ok _ _ _ _ _ Hty Hu64 Hord Hw E) as (_ & _ & ? & ? & ? & _). done. }
  exfalso. revert E. unfold add.
  destruct (Z.leb_spec units max_raw_value); [|lia]. cbn [eos_assert res_bind].
  destruct (Z.leb_spec units (UINT64_MAX - consumed a)); [|lia]. cbn [eos_assert res_bind].
  unfold u128. change max_raw_value with 18446744073709 in Hu.
  rewrite wrap_small by (unfold is_uint, Precision; lia).
  rewrite integer_divide_ceil_ok by done. cbn [res_bind].
  fold (contribution units window_size).
  destruct (contribution_bound units window_size units) as [Hn Hcb]; [lia|done|].
  assert (contribution units window_size <= units * Precision) as Hcu.
  { unfold Precision in *. nia. }
  unfold downgrade_cast.
  destruct (Z.leb_spec 0 (contribution units window_size)); [|lia].
  destruct (Z.leb_spec (contribution units window_size) UINT64_MAX); [|unfold UINT64_MAX in *; lia].
  cbn [andb eos_assert res_bind].
  destruct (Z.leb_spec (contribution units window_size) (UINT64_MAX - value_ex a)); [|lia].
  cbn [eos_assert res_bind]. unfold advance.
  destruct (Z.eqb_spec (last_ordinal a) ordinal); cbn [negb]; [discriminate|].
  destruct (Z.ltb_spec (last_ordinal a) ordinal); [|lia]. cbn [eos_assert res_bind].
  unfold is_uint in Hord, Hw. unfold u64 at 1.
  rewrite (wrap_small 64 (last_ordinal a + window_size)) by (unfold is_uint; lia).
  unfold average. rewrite ?integer_divide_ceil_ok by done.
  destruct (Z.ltb_spec ordinal (last_ordinal a + window_size)).
  - unfold u32. rewrite (wrap_small 32) by (unfold is_uint; lia). unfold u64 at 1.
    rewrite (wrap_small 64) by (unfold is_uint; lia).
    rewrite ratio_mul_total by (try lia; nia). cbn [res_bind value_ex].
    rewrite integer_divide_ceil_ok by done. discriminate.
  - cbn [res_bind value_ex]. rewrite integer_divide_ceil_ok by done. discriminate.
Qed.

(** usage older than the window is forgotten: after a gap of at least
    window_size periods the average is the new units spread over the window,
    rounded up once, whatever was recorded before. *)
Theorem add_forgets_after_window units ordinal window_size a a' :
  accumulator_typed a -> is_uint 64 units -> is_uint 32 ordinal -> is_uint 32 window_size ->
  last_ordinal a + window_size <= ordinal ->
  add units ordinal window_size a = Ok a' ->
  average a' = Ok (div_ceil units window_size).
Proof.
  intros Hty Hu Hord Hw Hgap Hadd.
  destruct (accumulator_add_ok _ _ _ _ _ Hty Hu Hord Hw Hadd) as (Hpos & _ & _ & Hv & _).
  unfold average. rewrite integer_divide_ceil_ok, Hv by done. f_equal.
  unfold decayed. destruct (Z.eqb_spec (last_ordinal a) ordinal); [lia|].
  destruct (Z.ltb_spec ordinal (last_ordinal a + window_size)); [lia|]. rewrite Z.add_0_l.
  unfold contribution. rewrite div_ceil_div_ceil by done.
  symmetry. apply div_ceil_unique; [unfold Precision; lia|].
  pose proof (div_ceil_spec units window_size Hpos). unfold Precision. nia.
Qed.
Lemma add_forgets_after_window_witness :
  exists a', add 5000 400 120 (mk_accumulator 200 987654321 77) = Ok a' /\ average a' = Ok 42.
Proof.
  eexists. split; [vm_compute; reflexivity|].
  apply (add_forgets_after_window 5000 400 120 (mk_accumulator 200 987654321 77)).
  - unfold accumulator_typed, is_uint. cbn. lia.
  - unfold is_uint. lia.
  - unfold is_uint. lia.
  - unfold is_uint. lia.
  - cbn. lia.
  - vm_compute. reflexivity.
Defined.

End Accumulator.

Module Elastic.
Import Accumulator.

Record elastic_limit_parameters := mk_elastic {
  target : Z;
  max : Z;
  periods : Z;
  max_multiplier : Z;
  contract_rate : ratio;
  expand_rate : ratio
}.

#[export] Instance elastic_eq_dec : EqDecision elastic_limit_parameters.
Proof. solve_decision. Defined.

Definition update_elastic_limit (current_limit average_usage : Z) (params : elastic_limit_parameters) : res Z :=
  let! result :=
    (if target params <? average_usage then ratio_mul current_limit (contract_rate params)
     else ratio_mul current_limit (expand_rate params)) in
  Ok (Z.min (Z.max result (max params)) (u64 (max params * max_multiplier params))).

(** elastic_limit_parameters::validate *)
Definition validate (p : elastic_limit_parameters) : res unit :=
  assert! (0 <? periods p) else resource_limit_exception in
  assert! (0 <? denominator (contract_rate p)) else resource_limit_exception in
  assert! (0 <? denominator (expand_rate p)) else resource_limit_exception in
  Ok tt.

(** EOS_PERCENT *)
Definition EOS_PERCENT (value percentage : Z) : Z := u64 (value * percentage) / 10000.

(** The default of config::default_max_block_cpu_usage and its net counterpart
    with 10% targets, 60 s windows and 2 s blocks. *)
Definition default_cpu_limit_parameters : elastic_limit_parameters :=
  mk_elastic (EOS_PERCENT (6 * 200000) (10 * 100)) (6 * 200000) (60 * 1000 / 2000) 1000
    (mk_ratio 99 100) (mk_ratio 1000 999).
Definition default_net_limit_parameters : elastic_limit_parameters :=
  mk_elastic (EOS_PERCENT (6 * 1024 * 1024) (10 * 100)) (6 * 1024 * 1024) (60 * 1000 / 2000) 1000
    (mk_ratio 99 100) (mk_ratio 1000 999).

(** Parameters whose numbers have their C++ types, whose upper bound fits in 64
    bits, that passed [validate], and whose rates contract and expand. *)
Definition params_sane (p : elastic_limit_parameters) : Prop :=
  0 <= target p /\ 0 <= max p /\ 1 <= max_multiplier p /\ max p * max_multiplier p < 2 ^ 64
  /\ 0 <= numerator (contract_rate p) <= denominator (contract_rate p)
  /\ 0 < denominator (expand_rate p) <= numerator (expand_rate p)
  /\ validate p = Ok tt.

Lemma validate_denominators p :
  validate p = Ok tt ->
  0 < periods p /\ 0 < denominator (contract_rate p) /\ 0 < denominator (expand_rate p).
Proof. unfold validate. intros Hv. inv_res. bprop. done. Qed.

Lemma elastic_limit_total current_limit average_usage p :
  params_sane p -> 0 <= current_limit ->
  current_limit * numerator (contract_rate p) <= UINT64_MAX ->
  current_limit * numerator (expand_rate p) <= UINT64_MAX ->
  exists r, update_elastic_limit current_limit average_usage p = Ok r
         /\ max p <= r <= max p * max_multiplier p.
Proof.
  intros (_ & Hm & Hk & Hmk & Hc & He & Hval) Hcur Hfc Hfe. unfold update_elastic_limit.
  apply validate_denominators in Hval as (_ & Hdc & Hde).
  unfold u64. rewrite wrap_small by (unfold is_uint; nia).
  assert (max p <= max p * max_multiplier p) by nia.
  destruct (contract_rate p) as [nc dc], (expand_rate p) as [ne de]. cbn in *.
  destruct (Z.ltb_spec (target p) average_usage) as [Hhot|Hcold].
  all: rewrite ratio_mul_total by lia.
  all: eexists; split; [reflexivity|lia].
Qed.

(** the elastic limit always lands between [max] and [max *
    max_multiplier]; a congested period (average above target) never raises it
    above the larger of its old value and [max], and an uncongested one never
    lowers a limit that was in range. *)
Theorem elastic_limit_in_range current_limit average_usage p r :
  params_sane p -> 0 <= current_limit ->
  update_elastic_limit current_limit average_usage p = Ok r ->
  max p <= r <= max p * max_multiplier p
  /\ (target p < average_usage -> r <= Z.max current_limit (max p))
  /\ (average_usage <= target p -> Z.min current_limit (max p * max_multiplier p) <= r).
Proof.
  intros (_ & Hm & Hk & Hmk & Hc & He & Hval) Hcur. unfold update_elastic_limit. intros Hr.
  apply validate_denominators in Hval as (_ & Hdc & Hde).
  unfold u64 in Hr. rewrite wrap_small in Hr by (unfold is_uint; nia).
  assert (max p <= max p * max_multiplier p) by nia.
  destruct (Z.ltb_spec (target p) average_usage) as [Hhot|Hcold]; inv_res.
  - destruct (contract_rate p) as [n d]. cbn in *.
    apply ratio_mul_ok in E as [-> _]; [|lia..].
    assert (current_limit * n / d <= current_limit) by (apply Z.div_le_upper_bound; nia). lia.
  - destruct (expand_rate p) as [n d]. cbn in *.
    apply ratio_mul_ok in E as [-> _]; [|lia..].
    assert (current_limit <= current_limit * n / d) by (apply Z.div_le_lower_bound; nia). lia.
Qed.

Lemma elastic_limit_in_range_witness :
  exists r, update_elastic_limit 50000000 1000000 default_cpu_limit_parameters = Ok r
         /\ r <= 50000000.
Proof.
  eexists. split; [vm_compute; reflexivity|].
  eapply (elastic_limit_in_range 50000000 1000000 default_cpu_limit_parameters).
  - unfold params_sane. repeat split; vm_compute; congruence.
  - lia.
  - vm_compute. reflexivity.
  - vm_compute. reflexivity.
Defined.
End Elastic.

Module Manager.
Import Accumulator Elastic.

(** resource_limits_object; the key of its by_owner index is (pending, owner). *)
Record resource_limits_object := mk_limits { net_weight : Z; cpu_weight : Z; ram_bytes : Z }.
(** The defaults of the class: -1 is unlimited. *)
Definition default_limits : resource_limits_object := mk_limits (-1) (-1) (-1).

(** resource_usage_object; the key of its by_owner index is the owner. *)
Record resource_usage_object := mk_usage {
  net_usage : usage_accumulator; cpu_usage : usage_accumulator; ram_usage : Z }.
Definition default_usage : resource_usage_object := mk_usage empty_accumulator empty_accumulator 0.

Record resource_limits_config_object := mk_config {
  cpu_limit_parameters : elastic_limit_parameters;
  net_limit_parameters : elastic_limit_parameters;
  account_cpu_usage_average_window : Z;
  account_net_usage_average_window : Z }.

(** 24-hour windows of 2-second blocks. *)
Definition default_config : resource_limits_config_object :=
  mk_config default_cpu_limit_parameters default_net_limit_parameters
    (24 * 60 * 60 * 1000 / 2000) (24 * 60 * 60 * 1000 / 2000).

Record resource_limits_state_object := mk_state {
  average_block_net_usage : usage_accumulator;
  average_block_cpu_usage : usage_accumulator;
  pending_net_usage : Z;
  pending_cpu_usage : Z;
  total_net_weight : Z;
  total_cpu_weight : Z;
  total_ram_bytes : Z;
  virtual_net_limit : Z;
  virtual_cpu_limit : Z }.

Section Manager.
Context {TL TU : Type} `{!Table (bool * Z) resource_limits_object TL}
        `{!Table Z resource_usage_object TU}.

Record database := mk_db {
  limits : TL;
  usage : TU;
  config : resource_limits_config_object;
  state : resource_limits_state_object }.

Definition set_limits (t : TL) (d : database) : database := mk_db t (usage d) (config d) (state d).
Definition set_usage (t : TU) (d : database) : database := mk_db (limits d) t (config d) (state d).
Definition set_config (c : resource_limits_config_object) (d : database) : database :=
  mk_db (limits d) (usage d) c (state d).
Definition set_state (s : resource_limits_state_object) (d : database) : database :=
  mk_db (limits d) (usage d) (config d) s.

(** initialize_database, over empty tables. *)
Definition initialize_database (no_limits : TL) (no_usage : TU) : database :=
  mk_db no_limits no_usage default_config
    (mk_state empty_accumulator empty_accumulator 0 0 0 0 0
       (max (net_limit_parameters default_config)) (max (cpu_limit_parameters default_config))).

Definition create_limits (k : bool * Z) (row : resource_limits_object) : exec database unit :=
  do d <- get_state; do t <- lift (tbl_create k row (limits d)); put_state (set_limits t d).
Definition create_usage (k : Z) (row : resource_usage_object) : exec database unit :=
  do d <- get_state; do t <- lift (tbl_create k row (usage d)); put_state (set_usage t d).
Definition put_limits (k : bool * Z) (row : resource_limits_object) : exec database unit :=
  modify (fun d => set_limits (tbl_put k row (limits d)) d).
Definition put_usage (k : Z) (row : resource_usage_object) : exec database unit :=
  modify (fun d => set_usage (tbl_put k row (usage d)) d).
Definition get_usage (k : Z) : exec database resource_usage_object :=
  do d <- get_state; lift (tbl_get k (usage d)).

Definition initialize_account (account : Z) : exec database unit :=
  do _ <- create_limits (false, account) default_limits;
  create_usage account default_usage.

Definition set_block_parameters (cpu net : elastic_limit_parameters) : exec database unit :=
  do _ <- lift (Elastic.validate cpu);
  do _ <- lift (Elastic.validate net);
  do d <- get_state;
  let c := config d in
  if bool_decide (cpu_limit_parameters c = cpu) && bool_decide (net_limit_parameters c = net) then ret tt
  else put_state (set_config (mk_config cpu net (account_cpu_usage_average_window c)
                                (account_net_usage_average_window c)) d).

(** get_account_limits: (ram_bytes, net_weight, cpu_weight) as one row; a
    pending row takes precedence. *)
Definition get_account_limits (account : Z) : exec database resource_limits_object :=
  do d <- get_state;
  match tbl_find (true, account) (limits d) with
  | Some pending_buo => ret pending_buo
  | None => lift (tbl_get (false, account) (limits d))
  end.

(** bu.net_usage.add( ... ); bu.cpu_usage.add( ... ) inside one _db.modify: a
    throw of the second leaves the first done in place. *)
Definition charge (a net cpu time_slot : Z) : exec database resource_usage_object :=
  do u <- get_usage a;
  do d <- get_state;
  do n <- lift (add net time_slot (account_net_usage_average_window (config d)) (net_usage u));
  do _ <- put_usage a (mk_usage n (cpu_usage u) (ram_usage u));
  do c <- lift (add cpu time_slot (account_cpu_usage_average_window (config d)) (cpu_usage u));
  let u' := mk_usage n c (ram_usage u) in
  do _ <- put_usage a u';
  ret u'.

Definition update_account_usage (accounts : list Z) (time_slot : Z) : exec database unit :=
  for_each accounts (fun a => do _ <- charge a 0 0 time_slot; ret tt).

(** The largest use in the window the weight entitles to, in 128-bit arithmetic. *)
Definition max_user_use_in_window (virtual_limit window_size weight total_weight : Z) : Z :=
  u128 (u128 (virtual_limit * window_size) * weight) / total_weight.

Definition used_in_window (value_ex window_size : Z) : Z := u128 (value_ex * window_size) / Precision.

(** The body of add_transaction_usage's for-loop. *)
Definition add_account_usage (cpu net time_slot a : Z) : exec database unit :=
  do _ <- get_usage a;
  do l <- get_account_limits a;
  do u <- charge a net cpu time_slot;
  do d <- get_state;
  let st := state d in
  do _ <- (if (0 <=? cpu_weight l) && (0 <? total_cpu_weight st) then
             let window_size := account_cpu_usage_average_window (config d) in
             check (used_in_window (value_ex (cpu_usage u)) window_size
                    <=? max_user_use_in_window (virtual_cpu_limit st) window_size
                          (cpu_weight l) (total_cpu_weight st))
               else tx_cpu_usage_exceeded;
             ret tt
           else ret tt);
  if (0 <=? net_weight l) && (0 <? total_net_weight st) then
    let window_size := account_net_usage_average_window (config d) in
    check (used_in_window (value_ex (net_usage u)) window_size
           <=? max_user_use_in_window (virtual_net_limit st) window_size
                 (net_weight l) (total_net_weight st))
      else tx_net_usage_exceeded;
    ret tt
  else ret tt.

Definition add_transaction_usage (accounts : list Z) (cpu net time_slot : Z) : exec database unit :=
  do _ <- for_each accounts (add_account_usage cpu net time_slot);
  do _ <- modify (fun d =>
            let s := state d in
            set_state (mk_state (average_block_net_usage s) (average_block_cpu_usage s)
              (u64 (pending_net_usage s + net)) (u64 (pending_cpu_usage s + cpu))
              (total_net_weight s) (total_cpu_weight s) (total_ram_bytes s)
              (virtual_net_limit s) (virtual_cpu_limit s)) d);
  do d <- get_state;
  check (pending_cpu_usage (state d) <=? max (cpu_limit_parameters (config d))) else block_resource_exhausted;
  check (pending_net_usage (state d) <=? max (net_limit_parameters (config d))) else block_resource_exhausted;
  ret tt.

Definition add_pending_ram_usage (account ram_delta : Z) : exec database unit :=
  if ram_delta =? 0 then ret tt
  else
    do u <- get_usage account;
    check ((ram_delta <=? 0) || (u64 ram_delta <=? UINT64_MAX - ram_usage u)) else transaction_exception;
    check (negb (ram_delta =? - 2 ^ 63)) else undefined_behavior; (* -ram_delta overflows *)
    check ((0 <=? ram_delta) || (u64 (- ram_delta) <=? ram_usage u)) else transaction_exception;
    put_usage account (mk_usage (net_usage u) (cpu_usage u) (u64 (ram_usage u + u64 ram_delta))).

Definition verify_account_ram_usage (account : Z) : exec database unit :=
  do l <- get_account_limits account;
  do u <- get_usage account;
  if 0 <=? ram_bytes l then
    check (ram_usage u <=? u64 (ram_bytes l)) else ram_usage_exceeded;
    ret tt
  else ret tt.

Definition get_account_ram_usage (name : Z) : exec database Z :=
  do u <- get_usage name; ret (i64 (ram_usage u)).

(** set_account_limits; find_or_create_pending_limits is its local lambda. *)
Definition find_or_create_pending_limits (account : Z) : exec database resource_limits_object :=
  do d <- get_state;
  match tbl_find (true, account) (limits d) with
  | Some pending_limits => ret pending_limits
  | None =>
      do l <- lift (tbl_get (false, account) (limits d));
      do _ <- create_limits (true, account) l;
      ret l
  end.

Definition set_account_limits (account ram net cpu : Z) : exec database bool :=
  do l <- find_or_create_pending_limits account;
  let decreased_limit := (0 <=? ram) && ((ram_bytes l <? 0) || (ram <? ram_bytes l)) in
  do _ <- put_limits (true, account) (mk_limits net cpu ram);
  ret decreased_limit.

(** update_state_and_value( total, value, pending_value ): the state is the two
    variables captured by reference. *)
Definition update_state_and_value (pending_value : Z) : exec (Z * Z) unit :=
  do (total, value) <- get_state;
  do _ <- (if 0 <? value then
             check (value <=? total) else rate_limiting_state_inconsistent;
             put_state (u64 (total - value), value)
           else ret tt);
  do (total, value) <- get_state;
  do _ <- (if 0 <? pending_value then
             check (pending_value <=? UINT64_MAX - total) else rate_limiting_state_inconsistent;
             put_state (u64 (total + pending_value), value)
           else ret tt);
  modify (fun tv => (fst tv, pending_value)).

Definition set_totals (net cpu ram : Z) (s : resource_limits_state_object) : resource_limits_state_object :=
  mk_state (average_block_net_usage s) (average_block_cpu_usage s) (pending_net_usage s)
    (pending_cpu_usage s) net cpu ram (virtual_net_limit s) (virtual_cpu_limit s).

(** The body of the inner _db.modify, over [rso] and [rlo]. *)
Definition update_totals (p : resource_limits_object)
    : exec (resource_limits_state_object * resource_limits_object) unit :=
  do _ <- zoom (fun sr => (total_ram_bytes (fst sr), ram_bytes (snd sr)))
            (fun tv sr => (set_totals (total_net_weight (fst sr)) (total_cpu_weight (fst sr)) (fst tv) (fst sr),
                           mk_limits (net_weight (snd sr)) (cpu_weight (snd sr)) (snd tv)))
            (update_state_and_value (ram_bytes p));
  do _ <- zoom (fun sr => (total_cpu_weight (fst sr), cpu_weight (snd sr)))
            (fun tv sr => (set_totals (total_net_weight (fst sr)) (fst tv) (total_ram_bytes (fst sr)) (fst sr),
                           mk_limits (net_weight (snd sr)) (snd tv) (ram_bytes (snd sr))))
            (update_state_and_value (cpu_weight p));
  zoom (fun sr => (total_net_weight (fst sr), net_weight (snd sr)))
    (fun tv sr => (set_totals (fst tv) (total_cpu_weight (fst sr)) (total_ram_bytes (fst sr)) (fst sr),
                   mk_limits (snd tv) (cpu_weight (snd sr)) (ram_bytes (snd sr))))
    (update_state_and_value (net_weight p)).

(** One iteration for the pending row of [owner]: the totals and the actual row
    are updated in place, then the pending row is removed. *)
Definition apply_pending (owner : Z) (p : resource_limits_object) : exec database unit :=
  do d <- get_state;
  do actual <- lift (tbl_get (false, owner) (limits d));
  do _ <- zoom (fun d => (state d, actual))
            (fun sr d => set_state (fst sr) (set_limits (tbl_put (false, owner) (snd sr) (limits d)) d))
            (update_totals p);
  modify (fun d => set_limits (tbl_remove (true, owner) (limits d)) d).

(** The while-loop: take the first row with pending = true until there is
    none.  Each iteration removes one row, so the number of rows is fuel
    enough ([process_account_limit_updates_ok]). *)
Fixpoint process_pending (fuel : nat) : exec database unit :=
  match fuel with
  | O => ret tt
  | S fuel' =>
      do d <- get_state;
      match tbl_lower_bound (fun k : bool * Z => fst k) (limits d) with
      | None => ret tt
      | Some ((_, owner), p) => do _ <- apply_pending owner p; process_pending fuel'
      end
  end.

Definition process_account_limit_updates : exec database unit :=
  do d <- get_state; process_pending (length (tbl_rows (limits d))).

Definition update_virtual_cpu_limit (cfg : resource_limits_config_object)
    (s : resource_limits_state_object) : res resource_limits_state_object :=
  let! avg := average (average_block_cpu_usage s) in
  let! v := update_elastic_limit (virtual_cpu_limit s) avg (cpu_limit_parameters cfg) in
  Ok (mk_state (average_block_net_usage s) (average_block_cpu_usage s) (pending_net_usage s)
        (pending_cpu_usage s) (total_net_weight s) (total_cpu_weight s) (total_ram_bytes s)
        (virtual_net_limit s) v).

Definition update_virtual_net_limit (cfg : resource_limits_config_object)
    (s : resource_limits_state_object) : res resource_limits_state_object :=
  let! avg := average (average_block_net_usage s) in
  let! v := update_elastic_limit (virtual_net_limit s) avg (net_limit_parameters cfg) in
  Ok (mk_state (average_block_net_usage s) (average_block_cpu_usage s) (pending_net_usage s)
        (pending_cpu_usage s) (total_net_weight s) (total_cpu_weight s) (total_ram_bytes s)
        v (virtual_cpu_limit s)).

Definition set_cpu_average (a : usage_accumulator) (s : resource_limits_state_object) :=
  mk_state (average_block_net_usage s) a (pending_net_usage s) (pending_cpu_usage s)
    (total_net_weight s) (total_cpu_weight s) (total_ram_bytes s) (virtual_net_limit s) (virtual_cpu_limit s).
Definition set_net_average (a : usage_accumulator) (s : resource_limits_state_object) :=
  mk_state a (average_block_cpu_usage s) (pending_net_usage s) (pending_cpu_usage s)
    (total_net_weight s) (total_cpu_weight s) (total_ram_bytes s) (virtual_net_limit s) (virtual_cpu_limit s).
Definition clear_pending_cpu (s : resource_limits_state_object) :=
  mk_state (average_block_net_usage s) (average_block_cpu_usage s) (pending_net_usage s) 0
    (total_net_weight s) (total_cpu_weight s) (total_ram_bytes s) (virtual_net_limit s) (virtual_cpu_limit s).
Definition clear_pending_net (s : resource_limits_state_object) :=
  mk_state (average_block_net_usage s) (average_block_cpu_usage s) 0 (pending_cpu_usage s)
    (total_net_weight s) (total_cpu_weight s) (total_ram_bytes s) (virtual_net_limit s) (virtual_cpu_limit s).

Definition in_state (f : resource_limits_state_object -> res resource_limits_state_object) : exec database unit :=
  do d <- get_state; do s <- lift (f (state d)); put_state (set_state s d).

Definition process_block_usage (block_num : Z) : exec database unit :=
  do d <- get_state;
  let cfg := config d in
  do _ <- in_state (fun s =>
            let! a := add (pending_cpu_usage s) block_num (periods (cpu_limit_parameters cfg)) (average_block_cpu_usage s) in
            Ok (set_cpu_average a s));
  do _ <- in_state (update_virtual_cpu_limit cfg);
  do _ <- in_state (fun s => Ok (clear_pending_cpu s));
  do _ <- in_state (fun s =>
            let! a := add (pending_net_usage s) block_num (periods (net_limit_parameters cfg)) (average_block_net_usage s) in
            Ok (set_net_average a s));
  do _ <- in_state (update_virtual_net_limit cfg);
  in_state (fun s => Ok (clear_pending_net s)).

Definition get_block_cpu_limit (d : database) : Z :=
  u64 (max (cpu_limit_parameters (config d)) - pending_cpu_usage (state d)).
Definition get_block_net_limit (d : database) : Z :=
  u64 (max (net_limit_parameters (config d)) - pending_net_usage (state d)).

Record account_resource_limit := mk_arl { used : Z; available : Z; arl_max : Z }.

(** The common body of get_account_cpu_limit_ex and get_account_net_limit_ex. *)
Definition account_limit_ex (capacity window_size weight total_weight value : Z) : res account_resource_limit :=
  if (weight <? 0) || (total_weight =? 0) then Ok (mk_arl (-1) (-1) (-1))
  else
    let max_use := max_user_use_in_window capacity window_size weight total_weight in
    let! used_w := integer_divide_ceil (u128 (value * window_size)) Precision in
    let! av := (if max_use <=? used_w then Ok 0 else downgrade_cast INT64_MAX (max_use - used_w)) in
    let! us := downgrade_cast INT64_MAX used_w in
    let! mx := downgrade_cast INT64_MAX max_use in
    Ok (mk_arl us av mx).

Definition get_account_cpu_limit_ex (name : Z) (elastic : bool) : exec database account_resource_limit :=
  do d <- get_state;
  do u <- get_usage name;
  do l <- get_account_limits name;
  lift (account_limit_ex
          (if elastic then virtual_cpu_limit (state d) else max (cpu_limit_parameters (config d)))
          (account_cpu_usage_average_window (config d)) (cpu_weight l)
          (total_cpu_weight (state d)) (value_ex (cpu_usage u))).

Definition get_account_net_limit_ex (name : Z) (elastic : bool) : exec database account_resource_limit :=
  do d <- get_state;
  do u <- get_usage name;
  do l <- get_account_limits name;
  lift (account_limit_ex
          (if elastic then virtual_net_limit (state d) else max (net_limit_parameters (config d)))
          (account_net_usage_average_window (config d)) (net_weight l)
          (total_net_weight (state d)) (value_ex (net_usage u))).

Definition get_account_cpu_limit (name : Z) (elastic : bool) : exec database Z :=
  do arl <- get_account_cpu_limit_ex name elastic; ret (available arl).
Definition get_account_net_limit (name : Z) (elastic : bool) : exec database Z :=
  do arl <- get_account_net_limit_ex name elastic; ret (available arl).

(** ** Account limits *)

(** The limits in force for an account once pending changes are applied. *)
Definition effective (d : database) (a : Z) : option resource_limits_object :=
  match tbl_view (limits d) !! (true, a) with
  | Some p => Some p
  | None => tbl_view (limits d) !! (false, a)
  end.

Definition pending_have_actual (d : database) : Prop :=
  forall a, is_Some (tbl_view (limits d) !! (true, a)) -> is_Some (tbl_view (limits d) !! (false, a)).

(** The sum of the positive weights of the rows selected by [sel]. *)
Definition sum_positive (sel : bool * Z -> bool) (f : resource_limits_object -> Z)
    (m : gmap (bool * Z) resource_limits_object) : Z :=
  map_fold (fun k v acc => (if sel k then Z.max 0 (f v) else 0) + acc) 0 m.

Definition actual_rows (k : bool * Z) : bool := negb (fst k).
Definition all_rows (k : bool * Z) : bool := true.

(** The totals are the sums over the accounts' rows in force. *)
Definition totals_consistent (d : database) : Prop :=
  total_net_weight (state d) = sum_positive actual_rows net_weight (tbl_view (limits d))
  /\ total_cpu_weight (state d) = sum_positive actual_rows cpu_weight (tbl_view (limits d))
  /\ total_ram_bytes (state d) = sum_positive actual_rows ram_bytes (tbl_view (limits d)).

(** Old and new weights together fit in 64 bits. *)
Definition totals_fit (d : database) : Prop :=
  sum_positive all_rows net_weight (tbl_view (limits d)) <= UINT64_MAX
  /\ sum_positive all_rows cpu_weight (tbl_view (limits d)) <= UINT64_MAX
  /\ sum_positive all_rows ram_bytes (tbl_view (limits d)) <= UINT64_MAX.

Lemma get_account_limits_effective a d :
  get_account_limits a d
  = (match effective d a with Some l => Ok l | None => Throw database_missing_key end, d).
Proof.
  unfold get_account_limits, effective, bind, get_state, ret, lift, tbl_get.
  rewrite !tbl_find_view. destruct (_ !! (true, a)); [done|]. by destruct (_ !! (false, a)).
Qed.

Lemma sum_positive_insert sel f m k v :
  m !! k = None ->
  sum_positive sel f (<[k := v]> m) = (if sel k then Z.max 0 (f v) else 0) + sum_positive sel f m.
Proof. intros Hk. unfold sum_positive. rewrite map_fold_insert_L; [done| |done]. lia. Qed.

Lemma sum_positive_delete sel f m k v :
  m !! k = Some v ->
  sum_positive sel f m = (if sel k then Z.max 0 (f v) else 0) + sum_positive sel f (delete k m).
Proof. intros Hk. unfold sum_positive. rewrite (map_fold_delete_L _ _ k v m); [done| |done]. lia. Qed.

Lemma sum_positive_nonneg sel f m : 0 <= sum_positive sel f m.
Proof.
  induction m as [|k v m Hk IH] using map_ind; [done|].
  rewrite sum_positive_insert by done. destruct (sel k); lia.
Qed.

Lemma sum_positive_replace sel f m k v v' :
  m !! k = Some v ->
  sum_positive sel f (<[k := v']> m)
  = sum_positive sel f m + if sel k then Z.max 0 (f v') - Z.max 0 (f v) else 0.
Proof.
  intros Hk. rewrite <- insert_delete_eq, sum_positive_insert by (apply lookup_delete_eq).
  rewrite (sum_positive_delete sel f m k v Hk). destruct (sel k); lia.
Qed.

Lemma sum_positive_le f m : sum_positive actual_rows f m <= sum_positive all_rows f m.
Proof.
  induction m as [|k v m Hk IH] using map_ind; [done|].
  rewrite !sum_positive_insert by done. unfold all_rows at 1. destruct (actual_rows k); lia.
Qed.

(** Applying the pending row [p] of [owner] to the contents of the table. *)
Definition applied (owner : Z) (p : resource_limits_object) (m : gmap (bool * Z) resource_limits_object) :=
  delete (true, owner) (<[(false, owner) := p]> m).

Section Applied.
Context (m : gmap (bool * Z) resource_limits_object) (owner : Z) (p actual : resource_limits_object).
Context (Hp : m !! (true, owner) = Some p) (Ha : m !! (false, owner) = Some actual).

Lemma applied_pending : <[(false, owner) := p]> m !! (true, owner) = Some p.
Proof. by rewrite lookup_insert_ne. Qed.

Lemma applied_actual_sum f :
  sum_positive actual_rows f (applied owner p m)
  = sum_positive actual_rows f m - Z.max 0 (f actual) + Z.max 0 (f p).
Proof.
  pose proof (sum_positive_delete actual_rows f _ _ _ applied_pending) as Hd. cbn in Hd.
  unfold applied. rewrite <- (Z.add_0_l (sum_positive _ _ (delete _ _))), <- Hd.
  rewrite (sum_positive_replace actual_rows f m _ _ p Ha). cbn. lia.
Qed.

Lemma applied_all_sum f :
  sum_positive all_rows f (applied owner p m) = sum_positive all_rows f m - Z.max 0 (f actual).
Proof.
  pose proof (sum_positive_delete all_rows f _ _ _ applied_pending) as Hd. cbn in Hd.
  pose proof (sum_positive_replace all_rows f m _ _ p Ha) as Hr. cbn in Hr.
  unfold applied. lia.
Qed.

(** The actual and the pending row both contribute to the sum of all rows. *)
Lemma applied_fits f :
  Z.max 0 (f actual) <= sum_positive actual_rows f m
  /\ sum_positive actual_rows f m - Z.max 0 (f actual) + Z.max 0 (f p) <= sum_positive all_rows f m.
Proof.
  split.
  - rewrite (sum_positive_delete actual_rows f m _ _ Ha). cbn.
    pose proof (sum_positive_nonneg actual_rows f (delete (false, owner) m)). lia.
  - rewrite <- applied_actual_sum. pose proof (sum_positive_le f (applied owner p m)) as Hle.
    rewrite applied_all_sum in Hle. lia.
Qed.

Lemma applied_size : S (size (applied owner p m)) = size m.
Proof.
  unfold applied. rewrite map_size_delete_Some by (eexists; apply applied_pending).
  rewrite map_size_insert_Some by (by eexists).
  assert (size m <> 0%nat); [|lia]. intros E. apply map_size_empty_iff in E. by rewrite E, lookup_empty in Hp.
Qed.

Lemma applied_lookup a :
  applied owner p m !! (true, a) = (if decide (a = owner) then None else m !! (true, a))
  /\ applied owner p m !! (false, a) = (if decide (a = owner) then Some p else m !! (false, a)).
Proof.
  unfold applied. destruct (decide (a = owner)) as [->|Hne].
  - split; [apply lookup_delete_eq|]. by rewrite lookup_delete_ne, lookup_insert_eq.
  - by rewrite !lookup_delete_ne, !lookup_insert_ne by congruence.
Qed.
End Applied.

Lemma update_state_and_value_ok total value pending_value :
  is_uint 64 total -> Z.max 0 value <= total ->
  total - Z.max 0 value + Z.max 0 pending_value <= UINT64_MAX ->
  update_state_and_value pending_value (total, value)
  = (Ok tt, (total - Z.max 0 value + Z.max 0 pending_value, pending_value)).
Proof.
  unfold is_uint, UINT64_MAX. intros Ht Hv Hp.
  unfold update_state_and_value, bind, get_state, put_state, lift, eos_assert, ret, modify.
  destruct (Z.ltb_spec 0 value); [destruct (Z.leb_spec value total); [|lia]|].
  all: unfold u64; rewrite ?(wrap_small 64 (total - value)) by (unfold is_uint; lia).
  all: destruct (Z.ltb_spec 0 pending_value); cbn [fst]; [|do 2 f_equal; lia].
  all: unfold UINT64_MAX; match goal with |- context [?a <=? ?b] => destruct (Z.leb_spec a b); [|lia] end.
  all: cbn [fst]; rewrite wrap_small by (unfold is_uint; lia); do 2 f_equal; lia.
Qed.

Lemma sum_positive_is_total f m :
  sum_positive all_rows f m <= UINT64_MAX -> is_uint 64 (sum_positive actual_rows f m).
Proof.
  pose proof (sum_positive_le f m). pose proof (sum_positive_nonneg actual_rows f m).
  unfold is_uint, UINT64_MAX. lia.
Qed.

(** A total can be moved from the actual to the pending value. *)
Definition can_move (total value pending_value : Z) : Prop :=
  is_uint 64 total /\ Z.max 0 value <= total
  /\ total - Z.max 0 value + Z.max 0 pending_value <= UINT64_MAX.

Definition moved (total value pending_value : Z) : Z := total - Z.max 0 value + Z.max 0 pending_value.

Lemma update_totals_ok p s actual :
  can_move (total_ram_bytes s) (ram_bytes actual) (ram_bytes p) ->
  can_move (total_cpu_weight s) (cpu_weight actual) (cpu_weight p) ->
  can_move (total_net_weight s) (net_weight actual) (net_weight p) ->
  update_totals p (s, actual)
  = (Ok tt, (set_totals (moved (total_net_weight s) (net_weight actual) (net_weight p))
               (moved (total_cpu_weight s) (cpu_weight actual) (cpu_weight p))
               (moved (total_ram_bytes s) (ram_bytes actual) (ram_bytes p)) s, p)).
Proof.
  intros (R1 & R2 & R3) (C1 & C2 & C3) (N1 & N2 & N3). unfold update_totals, zoom, bind.
  do 3 (cbn [fst snd set_totals total_ram_bytes total_cpu_weight total_net_weight
             ram_bytes cpu_weight net_weight];
        rewrite update_state_and_value_ok by done).
  by destruct p.
Qed.

(** What one step of the update loop leaves alone. *)
Definition same_otherwise (d d' : database) : Prop :=
  usage d' = usage d /\ config d' = config d
  /\ exists net cpu ram, state d' = set_totals net cpu ram (state d).

Lemma apply_pending_ok owner p d :
  pending_have_actual d -> totals_consistent d -> totals_fit d ->
  tbl_view (limits d) !! (true, owner) = Some p ->
  exists d', apply_pending owner p d = (Ok tt, d')
          /\ tbl_view (limits d') = applied owner p (tbl_view (limits d))
          /\ totals_consistent d' /\ same_otherwise d d'.
Proof.
  intros Hact (Hnet & Hcpu & Hram) (Fnet & Fcpu & Fram) Hp.
  destruct (Hact owner (mk_is_Some _ _ Hp)) as [actual Ha].
  destruct (applied_fits _ _ _ _ Hp Ha ram_bytes), (applied_fits _ _ _ _ Hp Ha cpu_weight),
    (applied_fits _ _ _ _ Hp Ha net_weight).
  unfold apply_pending, bind, zoom, get_state, lift, modify, tbl_get.
  rewrite tbl_find_view, Ha, update_totals_ok.
  2-4: unfold can_move; rewrite ?Hnet, ?Hcpu, ?Hram; split; [by apply sum_positive_is_total|lia].
  eexists. split; [reflexivity|]. unfold totals_consistent, same_otherwise.
  cbn [fst snd limits set_limits set_state usage config state set_totals
       total_net_weight total_cpu_weight total_ram_bytes].
  rewrite tbl_remove_view, tbl_put_view. fold (applied owner p (tbl_view (limits d))).
  rewrite !(applied_actual_sum _ _ _ _ Hp Ha), <- Hnet, <- Hcpu, <- Hram.
  split; [done|]. split; [done|]. split; [done|]. split; [done|]. by do 3 eexists.
Qed.

Lemma same_otherwise_trans d1 d2 d3 :
  same_otherwise d1 d2 -> same_otherwise d2 d3 -> same_otherwise d1 d3.
Proof.
  intros (U1 & C1 & n1 & c1 & r1 & S1) (U2 & C2 & n2 & c2 & r2 & S2).
  split; [congruence|]. split; [congruence|]. exists n2, c2, r2. by rewrite S2, S1.
Qed.

Lemma process_pending_ok fuel d :
  (size (tbl_view (limits d)) <= fuel)%nat ->
  pending_have_actual d -> totals_consistent d -> totals_fit d ->
  exists d', process_pending fuel d = (Ok tt, d')
    /\ (forall a, tbl_view (limits d') !! (true, a) = None)
    /\ (forall a, effective d' a = effective d a)
    /\ totals_consistent d' /\ same_otherwise d d'.
Proof.
  revert d; induction fuel as [|fuel IH]; intros d Hsize Hact Hcons Hfit.
  { assert (tbl_view (limits d) = ∅) as E by (apply map_size_empty_iff; lia).
    exists d. split; [done|]. split; [intros a; by rewrite E|]. split; [done|]. split; [done|].
    split; [done|]. split; [done|]. exists (total_net_weight (state d)), (total_cpu_weight (state d)), (total_ram_bytes (state d)).
    by destruct (state d). }
  cbn [process_pending]. unfold bind at 1, get_state.
  destruct (tbl_lower_bound _ (limits d)) as [[[b owner] p]|] eqn:El.
  - apply tbl_lower_bound_Some in El as [Hp Hb]. cbn in Hb. subst b.
    destruct (apply_pending_ok owner p d Hact Hcons Hfit Hp) as (d1 & E1 & V1 & C1 & S1).
    destruct (Hact owner (mk_is_Some _ _ Hp)) as [actual Ha].
    unfold bind. rewrite E1. pose proof (applied_lookup (tbl_view (limits d)) owner p) as HL.
    destruct (IH d1) as (d' & E' & Hnone & Heff & C' & S').
    + rewrite V1. pose proof (applied_size _ _ _ _ Hp Ha). lia.
    + intros a. rewrite V1. destruct (HL a) as [-> ->]. case_decide; [done|]. apply Hact.
    + done.
    + unfold totals_fit. rewrite V1, !(applied_all_sum _ _ _ _ Hp Ha).
      destruct Hfit as (? & ? & ?). lia.
    + exists d'. split; [done|]. split; [done|]. split.
      * intros a. rewrite Heff. unfold effective. rewrite V1. destruct (HL a) as [-> ->].
        case_decide as Hd; [|done]. subst a. by rewrite Hp.
      * split; [done|]. by eapply same_otherwise_trans.
  - exists d. split; [done|]. split.
    { intros a. destruct (_ !! (true, a)) as [p|] eqn:Ep; [|done].
      pose proof (tbl_lower_bound_None _ _ El _ _ Ep). discriminate. }
    split; [done|]. split; [done|].
    split; [done|]. split; [done|]. exists (total_net_weight (state d)), (total_cpu_weight (state d)), (total_ram_bytes (state d)).
    by destruct (state d).
Qed.

(** process_account_limit_updates terminates without throwing, applies and
    removes every pending change, keeps the limits in force of every account,
    and leaves the three totals equal to the sums of the accounts' positive
    weights; nothing else in the database changes. *)
Theorem process_account_limit_updates_ok d :
  pending_have_actual d -> totals_consistent d -> totals_fit d ->
  exists d', process_account_limit_updates d = (Ok tt, d')
    /\ (forall a, tbl_view (limits d') !! (true, a) = None)
    /\ (forall a, get_account_limits a d' = (fst (get_account_limits a d), d'))
    /\ totals_consistent d' /\ same_otherwise d d'.
Proof.
  intros Hact Hcons Hfit.
  destruct (process_pending_ok (length (tbl_rows (limits d))) d) as (d' & E & Hn & He & Hc & Hs); try done.
  { rewrite tbl_rows_perm. by rewrite length_map_to_list. }
  exists d'. split; [done|]. split; [done|]. split; [|done].
  intros a. by rewrite !get_account_limits_effective, He.
Qed.

(** set_account_limits on an existing account makes the given limits the
    ones in force, leaves every other account's limits, the totals and the usage
    alone, and reports a decrease exactly when the new RAM limit is finite and
    the old one was infinite or larger. *)
Theorem set_account_limits_ok account ram net cpu d old :
  effective d account = Some old ->
  exists d' dec, set_account_limits account ram net cpu d = (Ok dec, d')
    /\ effective d' account = Some (mk_limits net cpu ram)
    /\ (forall a, a <> account -> effective d' a = effective d a)
    /\ state d' = state d /\ usage d' = usage d /\ config d' = config d
    /\ (dec = true <-> 0 <= ram /\ (ram_bytes old < 0 \/ ram < ram_bytes old)).
Proof.
  intros Hold. unfold set_account_limits, find_or_create_pending_limits, put_limits, create_limits,
    bind, get_state, ret, lift, modify, put_state, tbl_get, tbl_create.
  rewrite !tbl_find_view. unfold effective in *.
  destruct (tbl_view (limits d) !! (true, account)) as [p|] eqn:Ep.
  all: [> injection Hold as -> | rewrite Hold, tbl_find_view, Ep].
  all: eexists _, _; split; [reflexivity|]; cbn [limits set_limits state usage config];
    rewrite !tbl_put_view, ?insert_insert_eq, lookup_insert_eq.
  all: split; [done|]; split.
  1,3: intros a Hne; by rewrite !lookup_insert_ne by congruence.
  all: do 3 (split; [done|]); rewrite andb_true_iff, orb_true_iff, Z.leb_le, !Z.ltb_lt; tauto.
Qed.

(** add_pending_ram_usage moves the account's RAM usage by exactly
    [ram_delta] when the result fits in 64 bits, and otherwise throws
    transaction_exception with the database untouched; it never wraps around. *)
Theorem add_pending_ram_usage_exact account ram_delta d u :
  tbl_view (usage d) !! account = Some u -> is_uint 64 (ram_usage u) ->
  - 2 ^ 63 < ram_delta < 2 ^ 63 ->
  let '(r, d') := add_pending_ram_usage account ram_delta d in
  if (0 <=? ram_usage u + ram_delta) && (ram_usage u + ram_delta <=? UINT64_MAX) then
    r = Ok tt
    /\ tbl_view (usage d')
       = <[account := mk_usage (net_usage u) (cpu_usage u) (ram_usage u + ram_delta)]> (tbl_view (usage d))
    /\ limits d' = limits d /\ state d' = state d /\ config d' = config d
  else r = Throw transaction_exception /\ d' = d.
Proof.
  intros Hu Hty Hd. unfold is_uint in Hty. unfold add_pending_ram_usage.
  destruct (Z.eqb_spec ram_delta 0) as [->|Hne].
  { cbn. rewrite Z.add_0_r. destruct (Z.leb_spec 0 (ram_usage u)); [|lia].
    destruct (Z.leb_spec (ram_usage u) UINT64_MAX); [|unfold UINT64_MAX in *; lia]. cbn.
    split; [done|]. split; [|done]. symmetry. apply insert_id. by destruct u. }
  unfold get_usage, put_usage, bind, get_state, lift, modify, tbl_get.
  rewrite tbl_find_view, Hu. unfold eos_assert.
  destruct (Z.eqb_spec ram_delta (- 2 ^ 63)); [lia|]. cbn [negb].
  assert (0 < ram_delta -> u64 ram_delta = ram_delta) as U1
    by (intros; apply wrap_small; unfold is_uint; lia).
  assert (ram_delta < 0 -> u64 (- ram_delta) = - ram_delta) as U2
    by (intros; apply wrap_small; unfold is_uint; lia).
  assert ((ram_delta <=? 0) || (u64 ram_delta <=? UINT64_MAX - ram_usage u)
          = (ram_usage u + ram_delta <=? UINT64_MAX)) as ->.
  { unfold UINT64_MAX in *. destruct (Z.leb_spec ram_delta 0); cbn [orb].
    - destruct (Z.leb_spec (ram_usage u + ram_delta) (2 ^ 64 - 1)); [done|lia].
    - rewrite U1 by lia. destruct (Z.leb_spec ram_delta (2 ^ 64 - 1 - ram_usage u)),
        (Z.leb_spec (ram_usage u + ram_delta) (2 ^ 64 - 1)); (done || lia). }
  assert ((0 <=? ram_delta) || (u64 (- ram_delta) <=? ram_usage u)
          = (0 <=? ram_usage u + ram_delta)) as ->.
  { destruct (Z.leb_spec 0 ram_delta); cbn [orb].
    - destruct (Z.leb_spec 0 (ram_usage u + ram_delta)); [done|lia].
    - rewrite U2 by lia. destruct (Z.leb_spec (- ram_delta) (ram_usage u)),
        (Z.leb_spec 0 (ram_usage u + ram_delta)); (done || lia). }
  destruct (Z.leb_spec (ram_usage u + ram_delta) UINT64_MAX); [|by rewrite andb_false_r].
  destruct (Z.leb_spec 0 (ram_usage u + ram_delta)); [|done]. cbn.
  split; [done|]. rewrite tbl_put_view. split; [|done]. do 2 f_equal.
  unfold u64, wrap. rewrite Zplus_mod_idemp_r. apply Z.mod_small. unfold UINT64_MAX in *. lia.
Qed.

(** ** Block usage *)

(** Parameters whose arithmetic stays within 64 bits, and a limit and a moving
    average that they bound. *)
Definition params_fit (p : elastic_limit_parameters) : Prop :=
  params_sane p /\ is_uint 32 (periods p)
  /\ (max p * Precision + periods p) * periods p <= UINT64_MAX
  /\ 2 * (max p * Precision) + periods p <= UINT64_MAX
  /\ max p * max_multiplier p * numerator (contract_rate p) <= UINT64_MAX
  /\ max p * max_multiplier p * numerator (expand_rate p) <= UINT64_MAX.

Definition limit_in_range (p : elastic_limit_parameters) (virtual_limit : Z) : Prop :=
  max p <= virtual_limit <= max p * max_multiplier p.

Definition steady (p : elastic_limit_parameters) (a : usage_accumulator) : Prop :=
  accumulator_typed a /\ value_ex a <= max p * Precision + periods p
  /\ consumed a <= 2 * max p + periods p.

(** The invariant of the block accounting after block [n] was processed. *)
Definition block_accounting (n : Z) (d : database) : Prop :=
  let cp := cpu_limit_parameters (config d) in
  let np := net_limit_parameters (config d) in
  let s := state d in
  params_fit cp /\ params_fit np
  /\ steady cp (average_block_cpu_usage s) /\ steady np (average_block_net_usage s)
  /\ last_ordinal (average_block_cpu_usage s) <= n /\ last_ordinal (average_block_net_usage s) <= n
  /\ 0 <= pending_cpu_usage s <= max cp /\ 0 <= pending_net_usage s <= max np
  /\ limit_in_range cp (virtual_cpu_limit s) /\ limit_in_range np (virtual_net_limit s).

Lemma steady_add p units ordinal a :
  params_fit p -> steady p a -> 0 <= units <= max p -> is_uint 32 ordinal -> last_ordinal a < ordinal ->
  exists a', add units ordinal (periods p) a = Ok a' /\ steady p a' /\ last_ordinal a' = ordinal.
Proof.
  intros (Hsane & Hper & F1 & F2 & _) (Hty & Hv & Hc) Hu Hord Hlt.
  pose proof Hsane as (_ & Hm & _ & _ & _ & _ & Hval).
  apply validate_denominators in Hval as (Hpos & _). pose proof Hper as [_ Hper32].
  destruct (add_succeeds units ordinal (periods p) a) as (a' & E & Hlo & _ & Hco); try done.
  all: unfold max_raw_value.
  - change (UINT64_MAX / Precision) with 18446744073709. unfold UINT64_MAX, Precision in *. lia.
  - lia.
  - unfold UINT64_MAX, Precision in *. lia.
  - destruct Hty as (_ & [? _] & _). nia.
  - unfold Precision in *. lia.
  - assert (is_uint 64 units) as Hu64 by (unfold is_uint, UINT64_MAX, Precision in *; lia).
    exists a'. split; [done|]. split; [|done].
    destruct (accumulator_add_ok _ _ _ _ _ Hty Hu64 Hord Hper E) as (_ & _ & _ & _ & _ & Hty').
    split; [done|]. split.
    { eapply (add_average_bounded units ordinal (periods p) (max p) a); done || lia. }
    rewrite Hco. destruct (Z.eqb_spec (last_ordinal a) ordinal); [lia|].
    pose proof (decayed_bound a ordinal (periods p) ltac:(destruct Hty as (_ & [? _] & _); lia) Hpos ltac:(lia)).
    pose proof (div_ceil_spec (decayed a ordinal (periods p)) Precision ltac:(done)).
    unfold Precision in *. nia.
Qed.

Lemma virtual_limit_total p v avg :
  params_fit p -> limit_in_range p v ->
  exists r, update_elastic_limit v avg p = Ok r /\ limit_in_range p r.
Proof.
  intros (Hsane & _ & _ & _ & Fc & Fe) [Hlo Hhi]. pose proof Hsane as (_ & Hm & _ & _ & Hc & He & _).
  apply elastic_limit_total; [done|lia| |].
  - transitivity (max p * max_multiplier p * numerator (contract_rate p)); [|done]. nia.
  - transitivity (max p * max_multiplier p * numerator (expand_rate p)); [|done]. nia.
Qed.

Ltac step_state :=
  cbn [res_bind set_state state config set_cpu_average set_net_average clear_pending_cpu clear_pending_net
       average_block_cpu_usage average_block_net_usage pending_net_usage virtual_cpu_limit virtual_net_limit].

(** The state process_block_usage leaves when none of its four computations
    throws. *)
Lemma process_block_usage_run block_num d ac an vc vn :
  let cp := cpu_limit_parameters (config d) in
  let np := net_limit_parameters (config d) in
  let s := state d in
  add (pending_cpu_usage s) block_num (periods cp) (average_block_cpu_usage s) = Ok ac ->
  add (pending_net_usage s) block_num (periods np) (average_block_net_usage s) = Ok an ->
  update_elastic_limit (virtual_cpu_limit s) (div_ceil (value_ex ac) Precision) cp = Ok vc ->
  update_elastic_limit (virtual_net_limit s) (div_ceil (value_ex an) Precision) np = Ok vn ->
  process_block_usage block_num d
  = (Ok tt, set_state (mk_state an ac 0 0 (total_net_weight s) (total_cpu_weight s) (total_ram_bytes s) vn vc) d).
Proof.
  cbn zeta. intros Eac Ean Evc Evn.
  unfold process_block_usage, in_state, bind, get_state, put_state, lift,
    update_virtual_cpu_limit, update_virtual_net_limit, average.
  rewrite Eac. step_state. rewrite (integer_divide_ceil_ok (value_ex ac)) by done.
  step_state. rewrite Evc. step_state. rewrite Ean. step_state.
  rewrite (integer_divide_ceil_ok (value_ex an)) by done. step_state. rewrite Evn. reflexivity.
Qed.

(** process_block_usage never throws from a state whose block accounting is
    consistent, and re-establishes it for the new block: the pending usage is
    back to zero, both virtual limits lie between [max] and [max *
    max_multiplier], the averages stay bounded, and neither the accounts'
    tables nor the totals change. *)
Theorem process_block_usage_ok n block_num d :
  block_accounting n d -> n < block_num -> is_uint 32 block_num ->
  exists d', process_block_usage block_num d = (Ok tt, d')
    /\ block_accounting block_num d'
    /\ pending_cpu_usage (state d') = 0 /\ pending_net_usage (state d') = 0
    /\ limits d' = limits d /\ usage d' = usage d /\ config d' = config d
    /\ total_cpu_weight (state d') = total_cpu_weight (state d)
    /\ total_net_weight (state d') = total_net_weight (state d)
    /\ total_ram_bytes (state d') = total_ram_bytes (state d).
Proof.
  intros (Fc & Fn & Sc & Sn & Lc & Ln & Pc & Pn & Vc & Vn) Hn Hb.
  destruct (steady_add _ (pending_cpu_usage (state d)) block_num _ Fc Sc) as (ac & Eac & Sac & Lac); [done|done|lia|].
  destruct (steady_add _ (pending_net_usage (state d)) block_num _ Fn Sn) as (an & Ean & San & Lan); [done|done|lia|].
  destruct (virtual_limit_total _ _ (div_ceil (value_ex ac) Precision) Fc Vc) as (vc & Evc & Rvc).
  destruct (virtual_limit_total _ _ (div_ceil (value_ex an) Precision) Fn Vn) as (vn & Evn & Rvn).
  eexists. split.
  - by apply (process_block_usage_run block_num d ac an vc vn).
  - cbn. split; [|done]. unfold block_accounting. cbn.
    repeat (split; [first [done | lia | destruct Fc as ((_ & ? & _) & _); destruct Fn as ((_ & ? & _) & _); lia]|]). done.
Qed.

(** ** Transaction usage *)

(** The accumulator's average fits the share of the capacity the weight buys. *)
Definition within_share (virtual_limit window_size weight total_weight value : Z) : Prop :=
  0 <= weight -> 0 < total_weight ->
  used_in_window value window_size <= max_user_use_in_window virtual_limit window_size weight total_weight.

(** Account [a] with usage row [u] respects both of its limits. *)
Definition respects_limits (d : database) (a : Z) (u : resource_usage_object) : Prop :=
  exists l, effective d a = Some l
  /\ within_share (virtual_cpu_limit (state d)) (account_cpu_usage_average_window (config d))
       (cpu_weight l) (total_cpu_weight (state d)) (value_ex (cpu_usage u))
  /\ within_share (virtual_net_limit (state d)) (account_net_usage_average_window (config d))
       (net_weight l) (total_net_weight (state d)) (value_ex (net_usage u)).

(** The usage row of [a] after [charge]. *)
Definition charged (d : database) (net cpu time_slot : Z) (u u' : resource_usage_object) : Prop :=
  add net time_slot (account_net_usage_average_window (config d)) (net_usage u) = Ok (net_usage u')
  /\ add cpu time_slot (account_cpu_usage_average_window (config d)) (cpu_usage u) = Ok (cpu_usage u')
  /\ ram_usage u' = ram_usage u.

Lemma charge_ok a net cpu time_slot d u' d' :
  charge a net cpu time_slot d = (Ok u', d') ->
  exists u, tbl_view (usage d) !! a = Some u /\ charged d net cpu time_slot u u'
    /\ tbl_view (usage d') = <[a := u']> (tbl_view (usage d))
    /\ limits d' = limits d /\ config d' = config d /\ state d' = state d.
Proof.
  unfold charge, get_usage, put_usage, bind, get_state, lift, modify, ret, tbl_get.
  rewrite tbl_find_view. destruct (tbl_view (usage d) !! a) as [u|]; [|done].
  destruct (add net _ _ _) as [n|] eqn:En; [|done].
  destruct (add cpu _ _ _) as [c|] eqn:Ec; [|done].
  intros [= <- <-]. exists u. split; [done|]. split; [done|].
  cbn. by rewrite !tbl_put_view, insert_insert_eq.
Qed.

Lemma add_account_usage_ok a net cpu time_slot d d' :
  add_account_usage cpu net time_slot a d = (Ok tt, d') ->
  exists u u', tbl_view (usage d) !! a = Some u /\ charged d net cpu time_slot u u'
    /\ respects_limits d a u'
    /\ tbl_view (usage d') = <[a := u']> (tbl_view (usage d))
    /\ limits d' = limits d /\ config d' = config d /\ state d' = state d.
Proof.
  unfold add_account_usage. intros H.
  apply bind_ok in H as (u0 & d0 & E0 & H).
  assert (d0 = d) as -> by (by injection E0 as _ <-).
  apply bind_ok in H as (l & d1 & E1 & H). rewrite get_account_limits_effective in E1.
  destruct (effective d a) as [l'|] eqn:El; [|done]. injection E1 as -> <-.
  apply bind_ok in H as (u' & d2 & E2 & H).
  apply charge_ok in E2 as (u & Hu & Hch & Hv & HL & HC & HS).
  exists u, u'. split; [done|]. split; [done|]. unfold bind at 1, get_state in H.
  apply bind_ok in H as ([] & d3 & E3 & H).
  rewrite HS, HC in E3, H. unfold respects_limits, within_share.
  assert (d3 = d2 /\ (0 <= cpu_weight l -> 0 < total_cpu_weight (state d) ->
     used_in_window (value_ex (cpu_usage u')) (account_cpu_usage_average_window (config d))
     <= max_user_use_in_window (virtual_cpu_limit (state d)) (account_cpu_usage_average_window (config d))
          (cpu_weight l) (total_cpu_weight (state d)))) as [-> Hcpu].
  { destruct (Z.leb_spec 0 (cpu_weight l)), (Z.ltb_spec 0 (total_cpu_weight (state d))); cbn in E3.
    2-4: injection E3 as <-; split; [done|lia].
    unfold bind, lift, eos_assert in E3. destruct (_ <=? _) eqn:Ele; [|done].
    injection E3 as <-. bprop. done. }
  assert (d' = d2 /\ (0 <= net_weight l -> 0 < total_net_weight (state d) ->
     used_in_window (value_ex (net_usage u')) (account_net_usage_average_window (config d))
     <= max_user_use_in_window (virtual_net_limit (state d)) (account_net_usage_average_window (config d))
          (net_weight l) (total_net_weight (state d)))) as [-> Hnet].
  { destruct (Z.leb_spec 0 (net_weight l)), (Z.ltb_spec 0 (total_net_weight (state d))); cbn in H.
    2-4: injection H as <-; split; [done|lia].
    unfold bind, lift, eos_assert in H. destruct (_ <=? _) eqn:Ele; [|done].
    injection H as <-. bprop. done. }
  split; [|done]. by exists l.
Qed.

Lemma for_each_ok {S A} (body : A -> exec S unit) (P : S -> A -> S -> Prop) l s s' :
  (forall x s s', body x s = (Ok tt, s') -> P s x s') ->
  for_each l body s = (Ok tt, s') ->
  match l with [] => s' = s | x :: l' => exists s1, P s x s1 /\ for_each l' body s1 = (Ok tt, s') end.
Proof.
  intros HP. destruct l as [|x l]; cbn [for_each].
  - by intros [= <-].
  - intros H. apply bind_ok in H as ([] & s1 & E & H). eauto.
Qed.

Lemma add_accounts_usage_ok accounts net cpu time_slot d d' :
  NoDup accounts ->
  for_each accounts (add_account_usage cpu net time_slot) d = (Ok tt, d') ->
  limits d' = limits d /\ config d' = config d /\ state d' = state d
  /\ (forall a, a ∈ accounts -> exists u u', tbl_view (usage d) !! a = Some u
        /\ tbl_view (usage d') !! a = Some u' /\ charged d net cpu time_slot u u' /\ respects_limits d a u')
  /\ (forall a, a ∉ accounts -> tbl_view (usage d') !! a = tbl_view (usage d) !! a).
Proof.
  intros Hnd. revert d. induction Hnd as [|x l Hx Hnd IH]; intros d H.
  { injection H as <-. do 3 (split; [done|]). split; [|done]. intros a Ha. by apply elem_of_nil in Ha. }
  apply (for_each_ok _ _ _ _ _ (fun _ _ _ => add_account_usage_ok _ _ _ _ _ _)) in H as (d1 & E1 & H).
  destruct E1 as (u & u' & Hu & Hch & Hres & Hv & HL & HC & HS).
  apply IH in H as (HL' & HC' & HS' & Hin & Hout).
  split; [congruence|]. split; [congruence|]. split; [congruence|]. split.
  - intros a [->|Ha]%elem_of_cons.
    + exists u, u'. rewrite Hout, Hv by done. by rewrite lookup_insert_eq.
    + destruct (Hin a Ha) as (w & w' & Hw & Hw' & Hchw & Hresw). exists w, w'.
      rewrite Hv, lookup_insert_ne in Hw by (intros ->; done).
      unfold charged, respects_limits, effective in *. rewrite HL, HC, HS in *. done.
  - intros a Ha. apply not_elem_of_cons in Ha as [Hne Ha].
    by rewrite Hout, Hv, lookup_insert_ne by done.
Qed.


End Manager.

(** ** Concrete databases *)

Abbreviation limits_table := (gmap (bool * Z) resource_limits_object).
Abbreviation usage_table := (gmap Z resource_usage_object).

(** The chain after genesis with three accounts: account 1 has staked, account 2
    has a change pending, account 3 is unlimited. *)
Definition sample_db : @database limits_table usage_table :=
  snd ((do _ <- initialize_account 1;
        do _ <- initialize_account 2;
        do _ <- initialize_account 3;
        do _ <- set_account_limits 1 8000 30 10;
        do _ <- set_account_limits 2 4000 10 10;
        do _ <- process_account_limit_updates;
        do _ <- set_account_limits 2 2000 70 40;
        add_pending_ram_usage 1 3000) (initialize_database ∅ ∅)).

Lemma params_fit_default :
  params_fit default_cpu_limit_parameters /\ params_fit default_net_limit_parameters.
Proof.
  unfold params_fit, params_sane, is_uint. split.
  all: repeat split; vm_compute; congruence.
Qed.

Lemma sample_block_accounting n : 0 <= n -> block_accounting n sample_db.
Proof.
  intros Hn. split; [apply params_fit_default|]. split; [apply params_fit_default|].
  unfold steady, limit_in_range, accumulator_typed, is_uint.
  repeat split; try (vm_compute; congruence); exact Hn.
Qed.

Lemma pending_have_actual_check (d : @database limits_table usage_table) :
  forallb (fun k => implb (fst k) (bool_decide (is_Some (limits d !! (false, snd k)))))
    (fst <$> map_to_list (limits d)) = true -> pending_have_actual d.
Proof.
  intros Hf a [p Hp]. cbn in *. rewrite forallb_forall in Hf.
  specialize (Hf (true, a)). cbn in Hf. rewrite <- bool_decide_eq_true. apply Hf.
  apply list_elem_of_In, list_elem_of_fmap. exists ((true, a), p). split; [done|].
  by apply elem_of_map_to_list.
Qed.

Lemma process_account_limit_updates_ok_witness :
  exists d', process_account_limit_updates sample_db = (Ok tt, d')
    /\ get_account_limits 2 d' = (fst (get_account_limits 2 sample_db), d')
    /\ total_net_weight (state d') = 100.
Proof.
  destruct (process_account_limit_updates_ok sample_db) as (d' & E & _ & Hl & _).
  - apply pending_have_actual_check. vm_compute. reflexivity.
  - repeat split; vm_compute; reflexivity.
  - repeat split; vm_compute; congruence.
  - exists d'. split; [exact E|]. split; [apply Hl|].
    transitivity (total_net_weight (state (snd (process_account_limit_updates sample_db)))).
    + by rewrite E.
    + vm_compute. reflexivity.
Defined.

Lemma set_account_limits_ok_witness :
  exists d' dec, set_account_limits 1 500 60 70 sample_db = (Ok dec, d')
    /\ effective d' 1 = Some (mk_limits 60 70 500) /\ effective d' 2 = effective sample_db 2 /\ dec = true.
Proof.
  destruct (set_account_limits_ok 1 500 60 70 sample_db (mk_limits 30 10 8000))
    as (d' & dec & E & H1 & H2 & _ & _ & _ & Hd).
  - vm_compute. reflexivity.
  - exists d', dec. split; [exact E|]. split; [exact H1|]. split; [apply H2; lia|].
    apply Hd. cbn. lia.
Defined.

Lemma add_pending_ram_usage_exact_witness :
  fst (add_pending_ram_usage 1 (-3000) sample_db) = Ok tt
  /\ fst (add_pending_ram_usage 1 (-3001) sample_db) = Throw transaction_exception.
Proof.
  set (u := mk_usage empty_accumulator empty_accumulator 3000).
  assert (tbl_view (usage sample_db) !! 1 = Some u) as Hu by (vm_compute; reflexivity).
  assert (is_uint 64 (ram_usage u)) as Hr by (unfold is_uint; cbn; lia).
  pose proof (add_pending_ram_usage_exact 1 (-3000) sample_db u Hu Hr ltac:(lia)) as H1.
  pose proof (add_pending_ram_usage_exact 1 (-3001) sample_db u Hu Hr ltac:(lia)) as H2.
  destruct (add_pending_ram_usage 1 (-3000) sample_db), (add_pending_ram_usage 1 (-3001) sample_db).
  split; [exact (proj1 H1)|exact (proj1 H2)].
Defined.

Lemma process_block_usage_ok_witness :
  exists d', process_block_usage 8 sample_db = (Ok tt, d')
    /\ block_accounting 8 d' /\ pending_cpu_usage (state d') = 0.
Proof.
  destruct (process_block_usage_ok 7 8 sample_db) as (d' & E & Hb & Hp & _).
  - apply sample_block_accounting. lia.
  - lia.
  - unfold is_uint. lia.
  - exists d'. split; [exact E|]. split; [exact Hb|exact Hp].
Defined.


End Manager.
