(* ===== verification/BlockTimestamp.v ===== *)
(** Block times: libraries/chain/include/eosio/chain/block_timestamp.hpp.

    A [block_timestamp_type] is its slot, a uint32_t counting intervals of
    [IntervalMs] milliseconds since the year 2000.  An fc::time_point is its
    number of microseconds since the Unix epoch; fc::milliseconds, which is not
    part of this repository, is a parameter. *)

From Stdlib Require Import ZArith Lia.
From stdpp Require Import base numbers.
From S2P Require Import Prelude.

Local Open Scope Z_scope.

Module BlockTimestamp.

(** config::block_interval_ms and config::block_timestamp_epoch *)
Definition IntervalMs : Z := 2000.
Definition EpochMs : Z := 946684800000.

Definition maximum : Z := 0xffff.
Definition min : Z := 0.

Definition next (slot : Z) : res Z :=
  assert! (1 <=? UINT32_MAX - slot) else overflow_exception in Ok (u32 (slot + 1)).

(** set_time_point( time_point ): the int64_t quotient is converted to uint64_t
    by the subtraction. *)
Definition set_time_point (time_since_epoch : Z) : Z :=
  let msec_since_epoch := Z.quot time_since_epoch 1000 in
  u32 (u64 (msec_since_epoch - EpochMs) / IntervalMs).

(** set_time_point( time_point_sec ) *)
Definition set_time_point_sec (sec_since_epoch : Z) : Z :=
  u32 (u64 (u64 (sec_since_epoch * 1000) - EpochMs) / IntervalMs).

Section Time.
(** fc::milliseconds( m ).count(): the duration in microseconds. *)
Context (milliseconds : Z -> Z).
Context (milliseconds_count : forall m, is_int64 m -> is_int64 (m * 1000) -> milliseconds m = m * 1000).

(** operator time_point *)
Definition to_time_point (slot : Z) : Z :=
  let msec := slot * IntervalMs in
  milliseconds (i64 (msec + EpochMs)).

Lemma to_time_point_count slot :
  is_uint 32 slot -> to_time_point slot = (slot * 2000 + 946684800000) * 1000.
Proof.
  unfold is_uint. intros Hs. unfold to_time_point, IntervalMs, EpochMs.
  rewrite i64_small by (unfold is_int64; lia).
  rewrite milliseconds_count by (unfold is_int64; lia). done.
Qed.

(** every slot survives the conversion to a time point and back, with no
    overflow in between; a time point at or after the chain epoch and
    representable as a slot is mapped to the slot that starts at most one
    interval before it. *)
Theorem slot_time_roundtrip slot t :
  is_uint 32 slot -> 0 <= t - to_time_point slot < IntervalMs * 1000 ->
  set_time_point (to_time_point slot) = slot /\ set_time_point t = slot.
Proof.
  intros Hs. rewrite to_time_point_count by done. unfold is_uint, IntervalMs in *. intros Ht.
  assert (forall r, 0 <= r < 2000000 ->
            set_time_point ((slot * 2000 + 946684800000) * 1000 + r) = slot) as Hall.
  { intros r Hr. unfold set_time_point, EpochMs, IntervalMs.
    rewrite Z.quot_div_nonneg by lia. rewrite Z.div_add_l by lia.
    assert (0 <= r / 1000 < 2000) by (split; [apply Z.div_pos; lia|apply Z.div_lt_upper_bound; lia]).
    unfold u64. rewrite wrap_small by (unfold is_uint; lia).
    replace (slot * 2000 + 946684800000 + r / 1000 - 946684800000) with (slot * 2000 + r / 1000) by lia.
    rewrite Z.div_add_l, (Z.div_small (r / 1000)) by lia.
    unfold u32. rewrite wrap_small; [lia|unfold is_uint; lia]. }
  split.
  - rewrite <- (Z.add_0_r ((_ + _) * 1000)). apply Hall. lia.
  - replace t with ((slot * 2000 + 946684800000) * 1000 + (t - (slot * 2000 + 946684800000) * 1000)) by lia.
    apply Hall. lia.
Qed.

Lemma next_time_point slot s' :
  is_uint 32 slot -> next slot = Ok s' -> to_time_point s' = to_time_point slot + IntervalMs * 1000.
Proof.
  unfold next. intros Hs Hn. inv_res. bprop. unfold is_uint, UINT32_MAX in *.
  unfold u32. rewrite wrap_small by (unfold is_uint; lia).
  rewrite !to_time_point_count by (unfold is_uint; lia). unfold IntervalMs. lia.
Qed.

(** The seconds constructor agrees with the microseconds one. *)
Lemma set_time_point_sec_agrees sec :
  is_uint 32 sec -> 946684800 <= sec -> set_time_point_sec sec = set_time_point (sec * 1000000).
Proof.
  unfold is_uint. intros Hs He. unfold set_time_point, set_time_point_sec, EpochMs, IntervalMs.
  rewrite Z.quot_div_nonneg by lia. replace (sec * 1000000) with (sec * 1000 * 1000) by lia.
  rewrite Z.div_mul by lia. unfold u64. rewrite (wrap_small 64 (sec * 1000)) by (unfold is_uint; lia). done.
Qed.
End Time.

Lemma slot_time_roundtrip_witness :
  set_time_point (to_time_point (fun m => m * 1000) 40000000) = 40000000
  /\ set_time_point (to_time_point (fun m => m * 1000) 40000000 + 1999999) = 40000000.
Proof.
  apply (slot_time_roundtrip (fun m => m * 1000)).
  - reflexivity.
  - unfold is_uint. lia.
  - unfold IntervalMs. lia.
Defined.

End BlockTimestamp.
