(* ===== verification/BlockHeader.v ===== *)
(** Block headers: libraries/chain/block_header.cpp, block_header.hpp,
    producer_schedule.hpp, protocol_feature_activation.cpp and the extension
    decomposition of types.hpp.

    Cryptography and packing are fc's: the class [Fc] lists what the headers use
    of it (keys, signatures, the digests of packed values, the 32-bit byte
    swap), with the only laws the theorems rely on. *)

From Stdlib Require Import ZArith Lia.
From stdpp Require Import base gmap numbers list.
From S2P Require Import Prelude Merkle.

Local Open Scope Z_scope.

(** Bytes of an extension. *)
Definition bytes : Type := list Z.

Section Schedule.
Context {public_key : Type} `{!EqDecision public_key} (null_key : public_key).

Record producer_key := mk_producer_key { producer_name : Z; pk_block_signing_key : public_key }.

#[export] Instance producer_key_eq_dec : EqDecision producer_key.
Proof. solve_decision. Defined.

Record producer_schedule_type := mk_schedule { version : Z; producers : list producer_key }.

#[export] Instance schedule_eq_dec : EqDecision producer_schedule_type.
Proof. solve_decision. Defined.

(** get_producer_key *)
Definition get_producer_key (s : producer_schedule_type) (p : Z) : public_key :=
  match list_find (fun i => producer_name i = p) (producers s) with
  | Some (_, i) => pk_block_signing_key i
  | None => null_key
  end.
End Schedule.
Arguments producer_key : clear implicits.
Arguments producer_schedule_type : clear implicits.

(** block_header and signed_block_header; the timestamp is its slot. *)
Record block_header {public_key : Type} := mk_header {
  timestamp : Z;
  producer : Z;
  confirmed : Z;
  previous : digest_type;
  transaction_mroot : digest_type;
  action_mroot : digest_type;
  schedule_version : Z;
  new_producers : option (producer_schedule_type public_key);
  header_extensions : list (Z * bytes)
}.
Arguments block_header : clear implicits.
Arguments mk_header {public_key}.

Record signed_block_header {public_key signature : Type} := mk_signed_header {
  bare_header : block_header public_key;
  producer_signature : signature
}.
Arguments signed_block_header : clear implicits.
Arguments mk_signed_header {public_key signature}.

(** What the chain uses of fc. *)
Class Fc := {
  public_key : Type;
  signature : Type;
  public_key_eq_dec :: EqDecision public_key;
  (** public_key_type(), signature_type() *)
  null_key : public_key;
  null_signature : signature;
  (** digest_type::hash of a packed header, schedule and pair of digests *)
  header_digest : block_header public_key -> digest_type;
  schedule_digest : producer_schedule_type public_key -> digest_type;
  hash_pair : digest_type * digest_type -> digest_type;
  (** fc::crypto::public_key( sig, digest ) and ( sig, digest, true ): they throw
      when no key can be recovered *)
  recover_key : signature -> digest_type -> res public_key;
  recover_key_canonical : signature -> digest_type -> res public_key;
  (** fc::raw::pack and unpack of the digests of a protocol_feature_activation,
      unpack before its reflector_init hook *)
  pack_digests : list digest_type -> bytes;
  unpack_digests : bytes -> res (list digest_type);
  unpack_pack_digests : forall l, unpack_digests (pack_digests l) = Ok l;
  (** fc::endian_reverse_u32 *)
  endian_reverse_u32 : Z -> Z;
  endian_reverse_range : forall x, is_uint 32 x -> is_uint 32 (endian_reverse_u32 x);
  endian_reverse_involutive : forall x, is_uint 32 x -> endian_reverse_u32 (endian_reverse_u32 x) = x
}.

Section Header.
Context {fc : Fc}.

(** ** Block ids *)

Definition num_from_id (id : digest_type) : Z := endian_reverse_u32 (u32 (_hash0 id)).

Definition header_block_num (h : block_header public_key) : Z := u32 (num_from_id (previous h) + 1).

(** block_header::id *)
Definition header_id (h : block_header public_key) : digest_type :=
  let result := header_digest h in
  let result := set_hash0 result (Z.land (_hash0 result) 0xffffffff00000000) in
  set_hash0 result (u64 (_hash0 result + endian_reverse_u32 (header_block_num h))).

Lemma u32_u64 z : u32 (u64 z) = u32 z.
Proof.
  unfold u32, u64, wrap. change (2 ^ 64) with (2 ^ 32 * 2 ^ 32). rewrite Z.rem_mul_r by lia.
  rewrite Z.mul_comm, Z.mod_add by lia. apply Z.mod_mod. lia.
Qed.

Lemma land_high_low z : Z.land z 0xffffffff00000000 mod 2 ^ 32 = 0.
Proof.
  rewrite <- Z.land_ones, <- Z.land_assoc by lia. change (Z.land _ (Z.ones 32)) with 0.
  apply Z.land_0_r.
Qed.

Lemma num_from_header_id h : num_from_id (header_id h) = header_block_num h.
Proof.
  assert (is_uint 32 (header_block_num h)) as Hr by (apply wrap_range; lia).
  unfold num_from_id, header_id. cbn [_hash0 set_hash0]. rewrite u32_u64.
  pose proof (endian_reverse_range _ Hr) as Hr'. unfold u32, wrap.
  rewrite Z.add_mod, land_high_low, Z.add_0_l, Z.mod_mod by lia.
  rewrite (Z.mod_small (endian_reverse_u32 _)) by done. by apply endian_reverse_involutive.
Qed.

(** the number written into a block's id is one more than the number in its
    predecessor's id, whatever the header's digest, and the other 224 bits of
    the id are the digest's. *)
Theorem id_carries_block_num h :
  num_from_id (previous h) < UINT32_MAX ->
  num_from_id (header_id h) = num_from_id (previous h) + 1
  /\ _hash1 (header_id h) = _hash1 (header_digest h)
  /\ _hash2 (header_id h) = _hash2 (header_digest h)
  /\ _hash3 (header_id h) = _hash3 (header_digest h)
  /\ (is_uint 64 (_hash0 (header_digest h)) ->
      _hash0 (header_id h) / 2 ^ 32 = _hash0 (header_digest h) / 2 ^ 32).
Proof.
  intros Hlt. assert (is_uint 32 (num_from_id (previous h))) as Hp
    by (apply endian_reverse_range, wrap_range; lia).
  rewrite num_from_header_id. unfold header_block_num, u32, UINT32_MAX in *.
  unfold is_uint in Hp. rewrite wrap_small by (unfold is_uint; lia).
  do 4 (split; [done|]). intros Hw. unfold header_id. cbn [_hash0 set_hash0].
  assert (is_uint 32 (endian_reverse_u32 (header_block_num h))) as Hr
    by (apply endian_reverse_range, wrap_range; lia).
  set (d0 := _hash0 (header_digest h)) in *. unfold is_uint in *.
  assert (Z.land d0 0xffffffff00000000 = d0 / 2 ^ 32 * 2 ^ 32) as ->.
  { rewrite <- Z.shiftr_div_pow2, <- Z.shiftl_mul_pow2 by lia. apply Z.bits_inj'. intros k Hk.
    rewrite Z.land_spec. change 0xffffffff00000000 with (Z.shiftl (Z.ones 32) 32).
    destruct (Z.lt_ge_cases k 32) as [Hk32|Hk32].
    - rewrite !Z.shiftl_spec_low by lia. apply andb_false_r.
    - rewrite !Z.shiftl_spec, Z.shiftr_spec by lia. replace (k - 32 + 32) with k by lia.
      destruct (Z.lt_ge_cases k 64) as [Hk64|Hk64].
      + rewrite Z.ones_spec_low by lia. apply andb_true_r.
      + rewrite Z.ones_spec_high, andb_false_r by lia. symmetry.
        apply Z.bits_above_log2; [lia|]. destruct (Z.eq_dec d0 0) as [->|]; [cbn; lia|].
        apply Z.log2_lt_pow2; [lia|]. eapply Z.lt_le_trans; [apply Hw|]. apply Z.pow_le_mono_r; lia. }
  assert (0 <= d0 / 2 ^ 32 < 2 ^ 32) by (split; [apply Z.div_pos; lia|apply Z.div_lt_upper_bound; lia]).
  unfold u64. rewrite wrap_small by (unfold is_uint; lia).
  rewrite Z.div_add_l, (Z.div_small (endian_reverse_u32 _)) by lia. lia.
Qed.

(** ** Header extensions *)

(** protocol_feature_activation::extension_id and enforce_unique *)
Definition extension_id : Z := 0.
Definition enforce_unique : bool := true.

(** reflector_init: [s] is the set of digests seen so far. *)
Fixpoint check_distinct (s : list digest_type) (protocol_features : list digest_type) : res unit :=
  match protocol_features with
  | [] => Ok tt
  | d :: rest =>
      assert! (negb (bool_decide (d ∈ s))) else ill_formed_protocol_feature_activation in
      check_distinct (d :: s) rest
  end.

Definition reflector_init (protocol_features : list digest_type) : res unit :=
  assert! (negb (bool_decide (protocol_features = []))) else ill_formed_protocol_feature_activation in
  check_distinct [] protocol_features.

(** decompose<protocol_feature_activation>::extract: the unpacked extension and
    its enforce_unique flag, or nothing when the id is not known. *)
Definition extract (id : Z) (data : bytes) : res (option (list digest_type * bool)) :=
  if id =? extension_id then
    let! result := unpack_digests data in
    let! _ := reflector_init result in
    Ok (Some (result, enforce_unique))
  else Ok None.

(** The for-loop of validate_and_extract_header_extensions. *)
Fixpoint extract_loop (i : nat) (id_type_lower_bound : Z) (exts : list (Z * bytes))
    : res (list (list digest_type)) :=
  match exts with
  | [] => Ok []
  | (id, data) :: rest =>
      assert! (id_type_lower_bound <=? id) else invalid_block_header_extension in
      let! m := extract id data in
      match m with
      | None => Throw invalid_block_header_extension
      | Some (ext, unique) =>
          assert! (negb unique || (bool_decide (i = 0%nat) || (id_type_lower_bound <? id)))
            else invalid_block_header_extension in
          let! results := extract_loop (S i) id rest in
          Ok (ext :: results)
      end
  end.

Definition validate_and_extract_header_extensions (h : block_header public_key)
    : res (list (list digest_type)) :=
  extract_loop 0 0 (header_extensions h).

Lemma check_distinct_ok s l u :
  check_distinct s l = Ok u <-> NoDup l /\ (forall d, d ∈ l -> d ∉ s).
Proof.
  revert s; induction l as [|x l IH]; intros s; cbn [check_distinct].
  { destruct u. split; [|done]. intros _. split; [constructor|]. intros d Hd. by apply elem_of_nil in Hd. }
  case_bool_decide as Hx; cbn [negb eos_assert res_bind].
  { split; [done|]. intros [_ Hno]. by apply (Hno x) in Hx; [|left]. }
  rewrite IH, NoDup_cons. setoid_rewrite not_elem_of_cons. setoid_rewrite elem_of_cons. naive_solver.
Qed.

Lemma reflector_init_ok l u : reflector_init l = Ok u <-> l <> [] /\ NoDup l.
Proof.
  unfold reflector_init. rewrite res_bind_ok. setoid_rewrite eos_assert_ok.
  setoid_rewrite negb_true_iff. setoid_rewrite bool_decide_eq_false. setoid_rewrite check_distinct_ok.
  split.
  - intros (_ & Hne & Hnd & _). done.
  - intros [Hne Hnd]. exists tt. split; [done|]. split; [done|]. intros d _. apply not_elem_of_nil.
Qed.

(** header extensions are accepted exactly when there is none, or exactly
    one of id 0 that unpacks to a non-empty list of distinct feature digests,
    which is then what is extracted. *)
Theorem header_extensions_accepted h exts :
  validate_and_extract_header_extensions h = Ok exts
  <-> (header_extensions h = [] /\ exts = [])
      \/ exists data features, header_extensions h = [(extension_id, data)]
           /\ unpack_digests data = Ok features /\ features <> [] /\ NoDup features
           /\ exts = [features].
Proof.
  unfold validate_and_extract_header_extensions.
  destruct (header_extensions h) as [|[id data] rest]; cbn [extract_loop]; [naive_solver|].
  split.
  - intros Hx. inv_res. unfold extract, extension_id in *.
    destruct (Z.eqb_spec id 0) as [->|]; [|inv_res; done]. inv_res.
    assert (rest = []) as ->.
    { destruct rest as [|[id' data'] rest]; [done|]. cbn [extract_loop] in E3. inv_res.
      unfold extract, extension_id in *. destruct (Z.eqb_spec id' 0) as [->|]; inv_res; done. }
    cbn in E3. inv_res. right. exists data, a0. apply reflector_init_ok in E2. tauto.
  - intros [[? _]|(data' & features & [= -> -> ->] & Hu & Hne & Hnd & ->)]; [done|].
    cbn [eos_assert res_bind Z.leb extension_id Z.compare]. unfold extract. cbn [Z.eqb extension_id].
    rewrite Hu. cbn [res_bind].
    assert (reflector_init features = Ok tt) as -> by (by apply reflector_init_ok).
    done.
Qed.

(** ** protocol_feature_activation_set *)

(** The constructor with enforce_disjoint: flat_set's contents as a [gset]. *)
Definition activation_set_union (orig : gset digest_type) (additional_features : list digest_type)
    (enforce_disjoint : bool) : res (gset digest_type) :=
  let expected_size := (size orig + length additional_features)%nat in
  let protocol_features := orig ∪ list_to_set additional_features in
  assert! (negb enforce_disjoint || bool_decide (size protocol_features = expected_size))
    else invalid_block_header_extension in
  Ok protocol_features.

Lemma list_to_set_size_le (l : list digest_type) : (size (list_to_set l : gset digest_type) <= length l)%nat.
Proof.
  induction l as [|y k IHk]; [done|]. cbn. rewrite size_union_alt, size_singleton.
  pose proof (subseteq_size (list_to_set k ∖ {[y]}) (list_to_set k : gset digest_type) ltac:(set_solver)). lia.
Qed.

Lemma size_list_to_set_NoDup (l : list digest_type) :
  size (list_to_set l : gset digest_type) = length l -> NoDup l.
Proof.
  induction l as [|x l IH]; intros Hs; [constructor|]. cbn in Hs.
  pose proof (size_union_alt {[x]} (list_to_set l : gset digest_type)) as Hu.
  rewrite size_singleton in Hu.
  pose proof (list_to_set_size_le l) as Hle.
  destruct (decide (x ∈ l)) as [Hin|Hout].
  - assert ({[x]} ∪ list_to_set l = (list_to_set l : gset digest_type)) as E by set_solver.
    rewrite E in Hs. lia.
  - constructor; [done|]. apply IH. rewrite size_union, size_singleton in Hs by set_solver. lia.
Qed.

(** activating features adds exactly them, and is refused exactly when one
    of them is repeated or already active. *)
Theorem activation_set_union_ok orig fs s :
  activation_set_union orig fs true = Ok s
  <-> NoDup fs /\ (forall d, d ∈ fs -> d ∉ orig) /\ s = orig ∪ list_to_set fs.
Proof.
  unfold activation_set_union. rewrite res_bind_ok. setoid_rewrite eos_assert_ok. cbn [negb orb].
  setoid_rewrite bool_decide_eq_true.
  pose proof (size_union_alt orig (list_to_set fs)) as Hu.
  pose proof (subseteq_size (list_to_set fs ∖ orig) (list_to_set fs) ltac:(set_solver)) as Hs.
  pose proof (list_to_set_size_le fs) as Hl. split.
  - intros (_ & Hsize & [= <-]). assert (size (list_to_set fs : gset digest_type) = length fs) as Hf by lia.
    split; [by apply size_list_to_set_NoDup|]. split; [|done]. intros d Hd Ho.
    assert (list_to_set fs ∖ orig ⊂ list_to_set fs) as Hsub by set_solver.
    apply subset_size in Hsub. lia.
  - intros (Hnd & Hdis & ->). exists tt. split; [|done].
    rewrite size_union, size_list_to_set by (done || set_solver). done.
Qed.
End Header.

(** ** A concrete [Fc]

    Keys and signatures are numbers; a signature is the signing key paired with
    the digest it signs. *)

Definition byte_swap_u32 (x : Z) : Z :=
  (x mod 256) * 2 ^ 24 + (x / 2 ^ 8 mod 256) * 2 ^ 16 + (x / 2 ^ 16 mod 256) * 2 ^ 8 + x / 2 ^ 24.

Lemma byte_swap_digits a b c d :
  0 <= a < 256 -> 0 <= b < 256 -> 0 <= c < 256 -> 0 <= d < 256 ->
  byte_swap_u32 (a * 2 ^ 24 + b * 2 ^ 16 + c * 2 ^ 8 + d) = d * 2 ^ 24 + c * 2 ^ 16 + b * 2 ^ 8 + a.
Proof.
  intros Ha Hb Hc Hd. unfold byte_swap_u32.
  set (x := a * 2 ^ 24 + b * 2 ^ 16 + c * 2 ^ 8 + d).
  assert (x / 2 ^ 8 = a * 2 ^ 16 + b * 2 ^ 8 + c) as -> by (symmetry; apply (Z.div_unique _ _ _ d); subst x; lia).
  assert (x / 2 ^ 16 = a * 2 ^ 8 + b) as ->
    by (symmetry; apply (Z.div_unique _ _ _ (c * 2 ^ 8 + d)); subst x; lia).
  assert (x / 2 ^ 24 = a) as ->
    by (symmetry; apply (Z.div_unique _ _ _ (b * 2 ^ 16 + c * 2 ^ 8 + d)); subst x; lia).
  assert (x mod 256 = d) as ->
    by (symmetry; apply (Z.mod_unique _ _ (a * 2 ^ 16 + b * 2 ^ 8 + c)); subst x; lia).
  assert ((a * 2 ^ 16 + b * 2 ^ 8 + c) mod 256 = c) as ->
    by (symmetry; apply (Z.mod_unique _ _ (a * 2 ^ 8 + b)); lia).
  assert ((a * 2 ^ 8 + b) mod 256 = b) as -> by (symmetry; apply (Z.mod_unique _ _ a); lia).
  done.
Qed.

Lemma byte_digits x :
  is_uint 32 x -> exists a b c d, 0 <= a < 256 /\ 0 <= b < 256 /\ 0 <= c < 256 /\ 0 <= d < 256
    /\ x = a * 2 ^ 24 + b * 2 ^ 16 + c * 2 ^ 8 + d.
Proof.
  unfold is_uint. intros Hx.
  exists (x / 2 ^ 24), (x / 2 ^ 16 mod 256), (x / 2 ^ 8 mod 256), (x mod 256).
  pose proof (Z.div_mod x 256 ltac:(lia)). pose proof (Z.mod_pos_bound x 256 ltac:(lia)).
  pose proof (Z.div_mod (x / 2 ^ 8) 256 ltac:(lia)). pose proof (Z.mod_pos_bound (x / 2 ^ 8) 256 ltac:(lia)).
  pose proof (Z.div_mod (x / 2 ^ 16) 256 ltac:(lia)). pose proof (Z.mod_pos_bound (x / 2 ^ 16) 256 ltac:(lia)).
  assert (x / 2 ^ 8 / 256 = x / 2 ^ 16) by (rewrite Z.div_div by lia; done).
  assert (x / 2 ^ 16 / 256 = x / 2 ^ 24) by (rewrite Z.div_div by lia; done).
  change (x / 256) with (x / 2 ^ 8) in *.
  assert (0 <= x / 2 ^ 24 < 256) by (split; [apply Z.div_pos; lia|apply Z.div_lt_upper_bound; lia]).
  lia.
Qed.

Definition flatten_digests (l : list digest_type) : bytes :=
  mjoin ((fun d => [_hash0 d; _hash1 d; _hash2 d; _hash3 d]) <$> l).

Fixpoint unflatten_digests (b : bytes) : res (list digest_type) :=
  match b with
  | [] => Ok []
  | w :: x :: y :: z :: rest => let! l := unflatten_digests rest in Ok (mk_digest w x y z :: l)
  | _ => Throw parse_error_exception
  end.

Lemma unflatten_flatten l : unflatten_digests (flatten_digests l) = Ok l.
Proof.
  induction l as [|[w x y z] l IH]; [done|].
  change (flatten_digests (_ :: l)) with ([w; x; y; z] ++ flatten_digests l).
  cbn [app unflatten_digests]. by rewrite IH.
Qed.

Definition mix (a b : Z) : Z := u64 (a * 6364136223846793005 + b + 1442695040888963407).

Definition toy_pair (p : digest_type * digest_type) : digest_type :=
  mk_digest (mix (_hash0 (fst p)) (_hash0 (snd p))) (mix (_hash1 (fst p)) (_hash1 (snd p)))
    (mix (_hash2 (fst p)) (_hash2 (snd p))) (mix (_hash3 (fst p)) (_hash3 (snd p))).

Definition toy_header_digest (h : block_header Z) : digest_type :=
  toy_pair (mk_digest (timestamp h) (producer h) (confirmed h) (schedule_version h),
            toy_pair (previous h, toy_pair (transaction_mroot h, action_mroot h))).

Lemma byte_swap_range x : is_uint 32 x -> is_uint 32 (byte_swap_u32 x).
Proof.
  intros Hx. destruct (byte_digits x Hx) as (a & b & c & d & Ha & Hb & Hc & Hd & ->).
  rewrite byte_swap_digits by done. unfold is_uint. lia.
Qed.

Lemma byte_swap_involutive x : is_uint 32 x -> byte_swap_u32 (byte_swap_u32 x) = x.
Proof.
  intros Hx. destruct (byte_digits x Hx) as (a & b & c & d & Ha & Hb & Hc & Hd & ->).
  by rewrite !byte_swap_digits.
Qed.

Definition toy_recover (s : Z * digest_type) (d : digest_type) : res Z :=
  if bool_decide (snd s = d) then Ok (fst s) else Throw parse_error_exception.

#[export] Instance toy_fc : Fc := {|
  public_key := Z; signature := Z * digest_type; null_key := 0;
  null_signature := (0, digest_zero);
  header_digest := toy_header_digest;
  schedule_digest := fun s => mk_digest (version s) (Z.of_nat (length (producers s))) 0 0;
  hash_pair := toy_pair;
  recover_key := toy_recover;
  recover_key_canonical := toy_recover;
  pack_digests := flatten_digests; unpack_digests := unflatten_digests;
  unpack_pack_digests := unflatten_flatten;
  endian_reverse_u32 := byte_swap_u32;
  endian_reverse_range := byte_swap_range;
  endian_reverse_involutive := byte_swap_involutive |}.

Definition toy_header : block_header (@public_key toy_fc) :=
  @mk_header Z 100 7 0 (mk_digest (byte_swap_u32 41) 1 2 3) digest_zero digest_zero 1 None
    [(0, [1; 2; 3; 4; 5; 6; 7; 8])].

Lemma id_carries_block_num_witness :
  num_from_id (header_id toy_header) = 42.
Proof.
  destruct (id_carries_block_num toy_header) as [H _]; [vm_compute; reflexivity|].
  rewrite H. vm_compute. reflexivity.
Defined.
