(* ===== verification/BlockHeaderState.v ===== *)
(** Header states and DPoS finality: libraries/chain/block_header_state.cpp and
    include/eosio/chain/block_header_state.hpp.

    [block_header_state] is what a node keeps per block to validate the next
    header; [next_pending] is block_header_state::next( when, confirmed ),
    [make_block_header], [finish_next] and [finish_next_signed] the operations
    of the pending state it returns, and [next_header] the transition on a
    received header.  The maps from producers to block numbers (flat_map) are
    [gmap]s; protocol_feature_activation_set_ptr is the set it points to. *)

From Stdlib Require Import ZArith Lia.
From stdpp Require Import base gmap numbers sorting list.
From S2P Require Import Prelude Merkle BlockHeader.

Local Open Scope Z_scope.

(** config::producer_repetitions, config::maximum_tracked_dpos_confirmations,
    config::max_producers *)
Definition producer_repetitions : Z := 12.
Definition maximum_tracked_dpos_confirmations : Z := 1024.
Definition max_producers : Z := 125.

(** The element std::nth_element puts at position [index]. *)
Definition nth_element (l : list Z) (index : nat) : option Z := merge_sort Z.le l !! index.

(** ** Order statistics *)

(** How many elements are at least, respectively at most, [v]. *)
Definition count_ge (v : Z) (l : list Z) : nat := length (filter (fun x => v <= x) l).
Definition count_le (v : Z) (l : list Z) : nat := length (filter (fun x => x <= v) l).

Lemma nth_element_Some l k : (k < length l)%nat -> exists v, nth_element l k = Some v.
Proof.
  intros Hk. unfold nth_element. apply lookup_lt_is_Some. by rewrite merge_sort_Permutation.
Qed.

Lemma nth_element_elem l k v : nth_element l k = Some v -> v ∈ l.
Proof.
  unfold nth_element. intros Hv. apply list_elem_of_lookup_2 in Hv. by rewrite merge_sort_Permutation in Hv.
Qed.

(** At most [k] elements are below the [k]-th, and [k + 1] at or below it. *)
Lemma nth_element_count l k v :
  nth_element l k = Some v -> (length l <= count_ge v l + k)%nat /\ (k + 1 <= count_le v l)%nat.
Proof.
  unfold nth_element, count_ge, count_le. intros Hv.
  pose proof (StronglySorted_merge_sort Z.le l) as Hs.
  pose proof (merge_sort_Permutation Z.le l) as Hp.
  rewrite <- !Hp. set (sl := merge_sort Z.le l) in *.
  pose proof (lookup_lt_Some _ _ _ Hv) as Hk.
  rewrite <- (take_drop_middle sl k v Hv) in Hs |- *.
  apply StronglySorted_app in Hs as (Hcross & _ & Htail).
  apply StronglySorted_inv in Htail as [_ Htail].
  rewrite !filter_app, !length_app, length_take. rewrite !filter_cons_True by lia.
  rewrite (filter_all (fun x => v <= x) (drop (S k) sl)) by done.
  rewrite (filter_all (fun x => x <= v) (take k sl)).
  2:{ apply Forall_forall. intros x Hx. apply Hcross; [done|left]. }
  cbn [length]. rewrite length_drop, length_take. lia.
Qed.

Lemma count_split v l : (count_ge v l + count_le (v - 1) l = length l)%nat.
Proof.
  unfold count_ge, count_le. induction l as [|x l IH]; [done|]. cbn [length]. rewrite !filter_cons.
  do 2 case_decide; cbn [length]; lia.
Qed.

Lemma count_le_mono v w l : v <= w -> (count_le v l <= count_le w l)%nat.
Proof.
  intros Hvw. unfold count_le. induction l as [|x l IH]; [done|]. rewrite !filter_cons.
  do 2 case_decide; cbn [length]; lia.
Qed.

Lemma count_ge_Forall2 v l1 l2 : Forall2 Z.le l1 l2 -> (count_ge v l1 <= count_ge v l2)%nat.
Proof.
  unfold count_ge. induction 1; [done|]. rewrite !filter_cons. do 2 case_decide; cbn [length]; lia.
Qed.

(** Raising elements does not lower the [k]-th one. *)
Lemma nth_element_mono l1 l2 k v1 v2 :
  Forall2 Z.le l1 l2 -> nth_element l1 k = Some v1 -> nth_element l2 k = Some v2 -> v1 <= v2.
Proof.
  intros Hall H1 H2. apply nth_element_count in H1 as [Hge _]. apply nth_element_count in H2 as [_ Hle].
  pose proof (count_ge_Forall2 v1 _ _ Hall) as Hc. pose proof (Forall2_length _ _ _ Hall) as Hlen.
  pose proof (count_split v1 l2) as Hs.
  destruct (Z.le_gt_cases v1 v2) as [|Hlt]; [done|].
  pose proof (count_le_mono v2 (v1 - 1) l2 ltac:(lia)). lia.
Qed.

Section HeaderState.
Context {fc : Fc}.

Abbreviation schedule := (producer_schedule_type public_key).
Abbreviation signed_header := (signed_block_header public_key signature).

Record block_header_state_common := mk_common {
  block_num : Z;
  dpos_proposed_irreversible_blocknum : Z;
  dpos_irreversible_blocknum : Z;
  active_schedule : schedule;
  blockroot_merkle : incremental_merkle;
  producer_to_last_produced : gmap Z Z;
  producer_to_last_implied_irb : gmap Z Z;
  block_signing_key : public_key;
  confirm_count : list Z
}.

Record schedule_info := mk_schedule_info {
  schedule_lib_num : Z;
  schedule_hash : digest_type;
  si_schedule : schedule
}.

Record pending_block_header_state := mk_pending {
  p_common : block_header_state_common;
  prev_activated_protocol_features : gset digest_type;
  prev_pending_schedule : schedule_info;
  was_pending_promoted : bool;
  p_previous : digest_type;
  p_producer : Z;
  p_timestamp : Z;
  active_schedule_version : Z;
  p_confirmed : Z
}.

Record block_header_state := mk_bhs {
  common : block_header_state_common;
  bhs_id : digest_type;
  header : signed_header;
  pending_schedule : schedule_info;
  activated_protocol_features : gset digest_type;
  header_exts : list (list digest_type)
}.

Definition has_pending_producers (s : block_header_state) : bool :=
  negb (bool_decide (producers (si_schedule (pending_schedule s)) = [])).

Definition is_active_producer (s : block_header_state) (n : Z) : bool :=
  bool_decide (is_Some (producer_to_last_produced (common s) !! n)).

(** get_scheduled_producer: size_t arithmetic; an empty schedule divides by
    zero. *)
Definition get_scheduled_producer (s : block_header_state) (slot : Z) : res (producer_key public_key) :=
  let ps := producers (active_schedule (common s)) in
  let period := u64 (Z.of_nat (length ps) * producer_repetitions) in
  if period =? 0 then Throw undefined_behavior
  else
    let index := slot mod period / producer_repetitions in
    match ps !! Z.to_nat index with
    | Some p => Ok p
    | None => Throw undefined_behavior
    end.

(** The vector of implied irreversible numbers of calc_dpos_last_irreversible. *)
Definition irb_blocknums (producer_of_next_block proposed : Z) (implied : gmap Z Z) : list Z :=
  (fun i : Z * Z => if fst i =? producer_of_next_block then proposed else snd i) <$> map_to_list implied.

Definition calc_dpos_last_irreversible (s : block_header_state) (producer_of_next_block : Z) : Z :=
  let blocknums := irb_blocknums producer_of_next_block
                     (dpos_proposed_irreversible_blocknum (common s))
                     (producer_to_last_implied_irb (common s)) in
  match blocknums with
  | [] => 0
  | _ => default 0 (nth_element blocknums ((length blocknums - 1) / 3))
  end.

(** "grow the confirmed count" *)
Definition grow_confirm_count (confirm_count : list Z) (required_confs : Z) : list Z :=
  if Z.of_nat (length confirm_count) <? maximum_tracked_dpos_confirmations
  then confirm_count ++ [u8 required_confs]
  else drop 1 confirm_count ++ [u8 required_confs].

(** The confirmation loop: [n] is i + 1; the result is the confirm_count and the
    proposed irreversible block number. *)
Fixpoint confirm_loop (n : nat) (blocks_to_confirm : Z) (new_block_num : Z)
    (cc : list Z) (proposed : Z) : list Z * Z :=
  match n with
  | O => (cc, proposed)
  | S i =>
      if blocks_to_confirm =? 0 then (cc, proposed)
      else
        let cc := alter (fun c => u8 (c - 1)) i cc in
        if bool_decide (cc !! i = Some 0) then
          let block_num_for_i := u32 (new_block_num - u32 (Z.of_nat (length cc - 1 - i))) in
          if bool_decide (i = length cc - 1)%nat then ([], block_num_for_i)
          else (drop (i + 1) cc, block_num_for_i)
        else confirm_loop i (blocks_to_confirm - 1) new_block_num cc proposed
  end.

(** The loops that rebuild the two maps when the pending schedule is promoted:
    the number of the block for its own producer, the known number for a
    producer already tracked, the irreversible number for a new one. *)
Definition rebuild (ps : list (producer_key public_key)) (own : Z) (own_value : Z)
    (existing : gmap Z Z) (otherwise : Z) : gmap Z Z :=
  foldl (fun m pro =>
           if producer_name pro =? own then <[producer_name pro := own_value]> m
           else match existing !! producer_name pro with
                | Some v => <[producer_name pro := v]> m
                | None => <[producer_name pro := otherwise]> m
                end) ∅ ps.

(** The result of block_header_state::next, once its checks passed: [prokey] is
    the scheduled producer and [merkle] the block root with this block's id. *)
Definition pending_of (s : block_header_state) (when num_prev_blocks_to_confirm : Z)
    (prokey : producer_key public_key) (merkle : incremental_merkle) : pending_block_header_state :=
  let c := common s in
  let result_block_num := u32 (block_num c + 1) in
  let num_active_producers := Z.of_nat (length (producers (active_schedule c))) in
  let required_confs := u32 (u32 (num_active_producers * 2 / 3) + 1) in
  let cc := grow_confirm_count (confirm_count c) required_confs in
  let (cc, new_dpos_proposed) :=
    confirm_loop (length cc) (u32 (num_prev_blocks_to_confirm + 1)) result_block_num cc
      (dpos_proposed_irreversible_blocknum c) in
  let result_dpos_irreversible := calc_dpos_last_irreversible s (producer_name prokey) in
  let promote :=
    has_pending_producers s && (schedule_lib_num (pending_schedule s) <=? result_dpos_irreversible) in
  let result_active := if promote then si_schedule (pending_schedule s) else active_schedule c in
  let last_produced :=
    if promote then
      <[producer_name prokey := result_block_num]>
        (rebuild (producers result_active) (producer_name prokey) result_block_num
           (producer_to_last_produced c) result_dpos_irreversible)
    else <[producer_name prokey := result_block_num]> (producer_to_last_produced c) in
  let last_implied_irb :=
    if promote then
      rebuild (producers result_active) (producer_name prokey) (dpos_proposed_irreversible_blocknum c)
        (producer_to_last_implied_irb c) result_dpos_irreversible
    else <[producer_name prokey := dpos_proposed_irreversible_blocknum c]> (producer_to_last_implied_irb c) in
  mk_pending
    (mk_common result_block_num new_dpos_proposed result_dpos_irreversible result_active
       merkle last_produced last_implied_irb (pk_block_signing_key prokey) cc)
    (activated_protocol_features s) (pending_schedule s) promote (bhs_id s)
    (producer_name prokey) when (version (active_schedule c)) num_prev_blocks_to_confirm.

(** The time of the next block: [when], or the slot after the head's when it is
    the default timestamp. *)
Definition next_timestamp (s : block_header_state) (when : Z) : res Z :=
  if negb (when =? 0) then
    assert! (timestamp (bare_header (header s)) <? when) else block_validate_exception in Ok when
  else Ok (u32 (timestamp (bare_header (header s)) + 1)).

(** A producer may not confirm a range that reaches the last block it produced. *)
Definition check_double_confirm (s : block_header_state) (producer num_prev_blocks_to_confirm : Z) : res unit :=
  match producer_to_last_produced (common s) !! producer with
  | Some last => eos_assert (last <? u32 (u32 (block_num (common s) + 1) - num_prev_blocks_to_confirm))
                   producer_double_confirm
  | None => Ok tt
  end.

(** block_header_state::next( when, num_prev_blocks_to_confirm ) *)
Definition next_pending (s : block_header_state) (when num_prev_blocks_to_confirm : Z)
    : res pending_block_header_state :=
  let! when := next_timestamp s when in
  let! prokey := get_scheduled_producer s when in
  let! _ := check_double_confirm s (producer_name prokey) num_prev_blocks_to_confirm in
  let! (merkle, _) := append hash_pair (blockroot_merkle (common s)) (bhs_id s) in
  Ok (pending_of s when num_prev_blocks_to_confirm prokey merkle).

(** make_block_header: unsigned, so with the default signature. *)
Definition make_block_header (p : pending_block_header_state) (transaction_mroot action_mroot : digest_type)
    (new_producers : option schedule) (new_protocol_feature_activations : list digest_type) : signed_header :=
  mk_signed_header
    (mk_header (p_timestamp p) (p_producer p) (p_confirmed p) (p_previous p) transaction_mroot action_mroot
       (active_schedule_version p) new_producers
       (if bool_decide (new_protocol_feature_activations = []) then []
        else [(extension_id, pack_digests new_protocol_feature_activations)]))
    null_signature.

(** The validator callback of the protocol features: it may throw. *)
Definition validator_type : Type := Z -> gset digest_type -> list digest_type -> res unit.

(** _finish_next's checks of the header against the pending state. *)
Definition check_header (p : pending_block_header_state) (h : block_header public_key) : res unit :=
  assert! (timestamp h =? p_timestamp p) else block_validate_exception in
  assert! (bool_decide (previous h = p_previous p)) else unlinkable_block_exception in
  assert! (confirmed h =? p_confirmed p) else block_validate_exception in
  assert! (producer h =? p_producer p) else wrong_producer in
  assert! (schedule_version h =? active_schedule_version p) else producer_schedule_exception in
  match new_producers h with
  | Some np =>
      assert! (negb (was_pending_promoted p)) else producer_schedule_exception in
      assert! (version np =? u32 (version (active_schedule (p_common p)) + 1)) else producer_schedule_exception in
      assert! (bool_decide (producers (si_schedule (prev_pending_schedule p)) = []))
        else producer_schedule_exception in
      Ok tt
  | None => Ok tt
  end.

(** The pending schedule of the finished state. *)
Definition finish_pending_schedule (p : pending_block_header_state) (h : block_header public_key) : schedule_info :=
  match new_producers h with
  | Some np => mk_schedule_info (block_num (p_common p)) (schedule_digest np) np
  | None =>
      let prev := prev_pending_schedule p in
      mk_schedule_info (schedule_lib_num prev) (schedule_hash prev)
        (if was_pending_promoted p then mk_schedule (version (si_schedule prev)) [] else si_schedule prev)
  end.

Definition _finish_next (p : pending_block_header_state) (sh : signed_header) (validator : validator_type)
    : res block_header_state :=
  let h := bare_header sh in
  let! _ := check_header p h in
  let! exts := validate_and_extract_header_extensions h in
  let! new_activated :=
    match exts with
    | new_protocol_features :: _ =>
        let! _ := validator (p_timestamp p) (prev_activated_protocol_features p) new_protocol_features in
        activation_set_union (prev_activated_protocol_features p) new_protocol_features true
    | [] => Ok (prev_activated_protocol_features p)
    end in
  Ok (mk_bhs (p_common p) (header_id h) sh (finish_pending_schedule p h) new_activated exts).

Definition sig_digest (s : block_header_state) : digest_type :=
  let header_bmroot := hash_pair (header_digest (bare_header (header s)), get_root (blockroot_merkle (common s))) in
  hash_pair (header_bmroot, schedule_hash (pending_schedule s)).

Definition set_signature (s : block_header_state) (sig : signature) : block_header_state :=
  mk_bhs (common s) (bhs_id s) (mk_signed_header (bare_header (header s)) sig) (pending_schedule s)
    (activated_protocol_features s) (header_exts s).

Definition sign (s : block_header_state) (signer : digest_type -> res signature) : res block_header_state :=
  let d := sig_digest s in
  let! sig := signer d in
  let! k := recover_key sig d in
  assert! (bool_decide (block_signing_key (common s) = k)) else wrong_signing_key in
  Ok (set_signature s sig).

Definition signee (s : block_header_state) : res public_key :=
  recover_key_canonical (producer_signature (header s)) (sig_digest s).

Definition verify_signee (s : block_header_state) (k : public_key) : res unit :=
  eos_assert (bool_decide (block_signing_key (common s) = k)) wrong_signing_key.

(** finish_next( h, validator, skip_validate_signee ) *)
Definition finish_next (p : pending_block_header_state) (h : signed_header) (validator : validator_type)
    (skip_validate_signee : bool) : res block_header_state :=
  let! result := _finish_next p h validator in
  if negb skip_validate_signee then
    let! k := signee result in
    let! _ := verify_signee result k in
    Ok result
  else Ok result.

(** finish_next( h, validator, signer ): also the header with its signature. *)
Definition finish_next_signed (p : pending_block_header_state) (h : signed_header) (validator : validator_type)
    (signer : digest_type -> res signature) : res (block_header_state * signed_header) :=
  let! result := _finish_next p h validator in
  let! result := sign result signer in
  Ok (result, mk_signed_header (bare_header h) (producer_signature (header result))).

(** block_header_state::next( h, validator, skip_validate_signee ) *)
Definition next_header (s : block_header_state) (h : signed_header) (validator : validator_type)
    (skip_validate_signee : bool) : res block_header_state :=
  let! p := next_pending s (timestamp (bare_header h)) (confirmed (bare_header h)) in
  finish_next p h validator skip_validate_signee.

Definition get_new_protocol_feature_activations (s : block_header_state) : list digest_type :=
  match header_exts s with
  | [] => []
  | protocol_features :: _ => protocol_features
  end.

(** ** Scheduling *)

(** the schedule is a round robin of twelve consecutive slots per producer:
    the producer of a slot is the one at position (slot / 12) mod n of the
    active schedule, for every non-empty schedule of n producers. *)
Theorem get_scheduled_producer_round_robin s slot :
  let ps := producers (active_schedule (common s)) in
  0 < Z.of_nat (length ps) < 2 ^ 60 -> is_uint 32 slot ->
  exists p, get_scheduled_producer s slot = Ok p
         /\ ps !! Z.to_nat (slot / producer_repetitions mod Z.of_nat (length ps)) = Some p.
Proof.
  intros ps Hn Hs. unfold get_scheduled_producer, producer_repetitions. fold ps.
  set (n := Z.of_nat (length ps)) in *. unfold u64. rewrite wrap_small by (unfold is_uint; lia).
  destruct (Z.eqb_spec (n * 12) 0); [lia|].
  assert (slot mod (n * 12) / 12 = slot / 12 mod n) as ->.
  { rewrite (Z.mul_comm n 12), Z.rem_mul_r by lia.
    rewrite Z.mul_comm, Z.div_add by lia. rewrite Z.div_small by (apply Z.mod_pos_bound; lia). lia. }
  pose proof (Z.mod_pos_bound (slot / 12) n ltac:(lia)) as Hb.
  destruct (lookup_lt_is_Some_2 ps (Z.to_nat (slot / 12 mod n))) as [p Hp]; [lia|].
  rewrite Hp. by exists p.
Qed.

(** ** Irreversibility *)

Lemma irb_blocknums_length q v m : length (irb_blocknums q v m) = size m.
Proof. unfold irb_blocknums. by rewrite length_fmap, length_map_to_list. Qed.

(** C4: the irreversible block number is backed by strictly more than two
    thirds of the tracked producers, and no larger number is: of the implied
    irreversible numbers (the next producer's being the proposed one) more than
    2n/3 are at or above it, and for any larger number at most 2n/3 are. *)
Theorem dpos_irreversible_two_thirds s q :
  let nums := irb_blocknums q (dpos_proposed_irreversible_blocknum (common s))
                (producer_to_last_implied_irb (common s)) in
  let lib := calc_dpos_last_irreversible s q in
  producer_to_last_implied_irb (common s) <> ∅ ->
  lib ∈ nums
  /\ (2 * length nums < 3 * count_ge lib nums)%nat
  /\ forall v, lib < v -> (3 * count_ge v nums <= 2 * length nums)%nat.
Proof.
  intros nums lib Hne.
  assert (0 < length nums)%nat as Hlen.
  { unfold nums. rewrite irb_blocknums_length. destruct (size _) eqn:E; [by apply map_size_empty_inv in E|lia]. }
  set (k := ((length nums - 1) / 3)%nat).
  assert (k < length nums)%nat as Hk by (unfold k; apply Nat.Div0.div_lt_upper_bound; lia).
  destruct (nth_element_Some nums k Hk) as [v Hv].
  assert (lib = v) as ->.
  { unfold lib, calc_dpos_last_irreversible. fold nums. fold k. rewrite Hv. by destruct nums. }
  split; [by eapply nth_element_elem|].
  pose proof (Nat.div_mod_eq (length nums - 1) 3) as Hd. fold k in Hd.
  pose proof (Nat.mod_upper_bound (length nums - 1) 3 ltac:(lia)).
  apply nth_element_count in Hv as [Hge Hle]. split; [lia|].
  intros w Hw. pose proof (count_split w nums). pose proof (count_le_mono v (w - 1) nums ltac:(lia)). lia.
Qed.

(** Between two blocks of one producer the numbers tracked per producer only
    grow, and everything stays below the block number. *)
Definition dpos_invariant (c : block_header_state_common) : Prop :=
  is_uint 32 (block_num c)
  /\ 0 <= dpos_irreversible_blocknum c <= dpos_proposed_irreversible_blocknum c
  /\ dpos_proposed_irreversible_blocknum c + Z.of_nat (length (confirm_count c)) <= block_num c
  /\ (length (confirm_count c) <= Z.to_nat maximum_tracked_dpos_confirmations)%nat
  /\ Forall (fun x => 1 <= x <= 255) (confirm_count c)
  /\ map_Forall (fun _ v => 0 <= v <= dpos_proposed_irreversible_blocknum c) (producer_to_last_implied_irb c)
  /\ map_Forall (fun _ v => 0 <= v <= block_num c) (producer_to_last_produced c).

Lemma confirm_loop_spec n b bn cc proposed cc' proposed' :
  (n <= length cc)%nat -> Forall (fun x => 1 <= x <= 255) cc ->
  Z.of_nat (length cc) <= bn -> is_uint 32 bn ->
  confirm_loop n b bn cc proposed = (cc', proposed') ->
  Forall (fun x => 1 <= x <= 255) cc'
  /\ ((length cc' = length cc /\ proposed' = proposed)
      \/ (length cc' < length cc)%nat /\ proposed' = bn - Z.of_nat (length cc')).
Proof.
  unfold is_uint. intros Hn Hall Hlen Hbn. revert b cc Hn Hall Hlen.
  induction n as [|i IH]; intros b cc Hn Hall Hlen; cbn [confirm_loop].
  { intros [= <- <-]. auto. }
  destruct (Z.eqb_spec b 0); [intros [= <- <-]; auto|].
  destruct (lookup_lt_is_Some_2 cc i ltac:(lia)) as [x Hx].
  pose proof (Forall_lookup_1 _ _ _ _ Hall Hx) as Hxr. cbn in Hxr.
  assert (alter (fun c => u8 (c - 1)) i cc !! i = Some (x - 1)) as Hxi.
  { rewrite list_lookup_alter_eq, Hx. cbn. f_equal. unfold u8. apply wrap_small. unfold is_uint. lia. }
  set (cc1 := alter (fun c => u8 (c - 1)) i cc) in *.
  assert (length cc1 = length cc) as Hl1 by apply length_alter. rewrite Hxi.
  case_bool_decide as Hz.
  - assert (u32 (bn - u32 (Z.of_nat (length cc1 - 1 - i))) = bn - Z.of_nat (length cc1 - 1 - i)) as ->.
    { unfold u32. rewrite (wrap_small 32 (Z.of_nat _)) by (unfold is_uint; lia).
      apply wrap_small. unfold is_uint. lia. }
    assert (Forall (fun x => 1 <= x <= 255) (drop (i + 1) cc1)) as Hd.
    { assert (drop (i + 1) cc1 = drop (i + 1) cc) as ->
        by (apply drop_alter_lt; lia).
      by apply Forall_drop. }
    case_bool_decide as Hi; intros [= <- <-].
    + split; [constructor|]. right. cbn. lia.
    + split; [done|]. right. rewrite length_drop. lia.
  - intros Hloop. apply IH in Hloop; [by rewrite <- Hl1|lia| |lia].
    unfold cc1. apply Forall_alter; [done|]. intros y Hy Hyr. rewrite Hx in Hy. injection Hy as <-.
    unfold u8. rewrite wrap_small by (unfold is_uint; lia). split; [|lia].
    assert (x - 1 <> 0) by (intros E; by rewrite E in Hz). lia.
Qed.

Lemma grow_confirm_count_spec cc r :
  1 <= r <= 255 -> Forall (fun x => 1 <= x <= 255) cc ->
  (length cc <= Z.to_nat maximum_tracked_dpos_confirmations)%nat ->
  let cc' := grow_confirm_count cc r in
  Forall (fun x => 1 <= x <= 255) cc'
  /\ (length cc' <= Z.to_nat maximum_tracked_dpos_confirmations)%nat
  /\ (length cc' <= length cc + 1)%nat.
Proof.
  intros Hr Hall Hlen. unfold grow_confirm_count.
  assert (u8 r = r) as -> by (apply wrap_small; unfold is_uint; lia).
  assert (Forall (fun x => 1 <= x <= 255) [r]) as Hrr by (constructor; [lia|constructor]).
  unfold maximum_tracked_dpos_confirmations in *.
  destruct (Z.ltb_spec (Z.of_nat (length cc)) 1024); cbn zeta;
    rewrite !length_app, ?length_drop; cbn [length].
  - split; [by apply Forall_app|]. lia.
  - split; [apply Forall_app; split; [by apply Forall_drop|done]|]. lia.
Qed.

Lemma calc_dpos_range s q M :
  0 <= dpos_proposed_irreversible_blocknum (common s) <= M ->
  map_Forall (fun _ v => 0 <= v <= M) (producer_to_last_implied_irb (common s)) ->
  0 <= calc_dpos_last_irreversible s q <= M.
Proof.
  intros Hp Hall. unfold calc_dpos_last_irreversible.
  set (nums := irb_blocknums _ _ _).
  assert (Forall (fun v => 0 <= v <= M) nums) as Hn.
  { unfold nums, irb_blocknums. apply Forall_fmap, Forall_forall. intros [k v] Hkv. cbn.
    destruct (k =? q); [done|]. by apply elem_of_map_to_list in Hkv; apply Hall in Hkv. }
  destruct nums as [|x l] eqn:E; [lia|]. rewrite <- E in *.
  destruct (nth_element nums _) as [v|] eqn:Ev; [|cbn; lia].
  apply nth_element_elem in Ev. rewrite Forall_forall in Hn. by apply Hn.
Qed.

Lemma rebuild_Forall (P : Z -> Prop) ps own own_value existing otherwise :
  P own_value -> map_Forall (fun _ v => P v) existing -> P otherwise ->
  map_Forall (fun _ v => P v) (rebuild ps own own_value existing otherwise).
Proof.
  intros Ho He Hw. unfold rebuild.
  assert (map_Forall (fun _ v => P v) (∅ : gmap Z Z)) as H0 by apply map_Forall_empty.
  revert H0. generalize (∅ : gmap Z Z). induction ps as [|p ps IH]; intros m Hm; [done|]. cbn [foldl].
  apply IH. destruct (_ =? _); [by apply map_Forall_insert_2|].
  destruct (existing !! _) eqn:E; apply map_Forall_insert_2; try done. by apply He in E.
Qed.

Lemma next_pending_inv s when n p :
  next_pending s when n = Ok p ->
  exists slot prokey merkle root,
    next_timestamp s when = Ok slot /\ get_scheduled_producer s slot = Ok prokey
    /\ check_double_confirm s (producer_name prokey) n = Ok tt
    /\ append hash_pair (blockroot_merkle (common s)) (bhs_id s) = Ok (merkle, root)
    /\ p = pending_of s slot n prokey merkle.
Proof.
  unfold next_pending. intros Hn. inv_res. destruct a2 as [m r], a1. inv_res. naive_solver.
Qed.

Lemma next_header_inv s h v skip s' :
  next_header s h v skip = Ok s' ->
  exists p, next_pending s (timestamp (bare_header h)) (confirmed (bare_header h)) = Ok p
    /\ _finish_next p h v = Ok s'
    /\ common s' = p_common p /\ bhs_id s' = header_id (bare_header h).
Proof.
  unfold next_header, finish_next. intros Hn. inv_res.
  assert (_finish_next a h v = Ok s') as Hf.
  { destruct skip; cbn [negb] in *; inv_res; congruence. }
  exists a. split; [done|]. split; [done|]. unfold _finish_next in Hf. inv_res. done.
Qed.

Section Invariant.
Context (s : block_header_state) (when n : Z) (p : pending_block_header_state).
Context (Hnext : next_pending s when n = Ok p).
Context (Hinv : dpos_invariant (common s)) (Hbn : block_num (common s) < UINT32_MAX).
Context (Hprod : Z.of_nat (length (producers (active_schedule (common s)))) <= max_producers).

Lemma next_pending_dpos :
  dpos_invariant (p_common p) /\ block_num (p_common p) = block_num (common s) + 1
  /\ dpos_proposed_irreversible_blocknum (common s) <= dpos_proposed_irreversible_blocknum (p_common p).
Proof.
  destruct (next_pending_inv _ _ _ _ Hnext) as (slot & prokey & merkle & root & _ & _ & _ & _ & ->).
  destruct Hinv as (Hb & Hirr & Hcc & Hlen & Hall & Himp & Hlast). unfold is_uint in Hb.
  unfold UINT32_MAX, max_producers in *. unfold pending_of.
  assert (u32 (block_num (common s) + 1) = block_num (common s) + 1) as ->
    by (apply wrap_small; unfold is_uint; lia).
  set (np := Z.of_nat (length (producers (active_schedule (common s))))) in *.
  assert (0 <= np * 2 / 3 < 84) by (split; [apply Z.div_pos; lia|apply Z.div_lt_upper_bound; lia]).
  assert (u32 (u32 (np * 2 / 3) + 1) = np * 2 / 3 + 1) as ->
    by (unfold u32; rewrite (wrap_small 32 (np * 2 / 3)) by (unfold is_uint; lia); apply wrap_small; unfold is_uint; lia).
  destruct (grow_confirm_count_spec (confirm_count (common s)) (np * 2 / 3 + 1)) as (Ga & Gl & Gn); [lia|done|done|].
  set (cc := grow_confirm_count _ _) in *.
  destruct (confirm_loop _ _ _ _ _) as [cc' prop'] eqn:Hloop.
  apply confirm_loop_spec in Hloop as (La & Lp); [|done|done|lia|unfold is_uint; lia].
  assert (dpos_proposed_irreversible_blocknum (common s) <= prop'
          /\ prop' + Z.of_nat (length cc') <= block_num (common s) + 1
          /\ (length cc' <= length cc)%nat) as (Hm & Hs & Hle) by lia.
  set (irr := calc_dpos_last_irreversible s (producer_name prokey)).
  assert (0 <= irr <= dpos_proposed_irreversible_blocknum (common s)) as Hi
    by (apply calc_dpos_range; [lia|done]).
  assert (map_Forall (fun _ v => 0 <= v <= prop') (producer_to_last_implied_irb (common s))) as Himp'
    by (intros k v Hk; apply Himp in Hk; lia).
  assert (map_Forall (fun _ v => 0 <= v <= block_num (common s) + 1) (producer_to_last_produced (common s))) as Hlast'
    by (intros k v Hk; apply Hlast in Hk; lia).
  split; [|done]. unfold dpos_invariant, is_uint.
  cbn [p_common block_num dpos_irreversible_blocknum dpos_proposed_irreversible_blocknum confirm_count
       producer_to_last_implied_irb producer_to_last_produced].
  do 5 (split; [done || lia|]).
  destruct (_ && _); split; repeat apply map_Forall_insert_2; try apply (rebuild_Forall (fun v => 0 <= v <= _)); done || lia.
Qed.
End Invariant.

(** C5: accepting a header keeps the DPoS bookkeeping consistent: the block
    number grows by one, the proposed irreversible number never decreases, the
    irreversible number stays at or below the proposed one, both stay below the
    blocks still awaiting confirmations, and every awaited confirmation count is
    positive, within 8 bits and at most 1024 of them are tracked. *)
Theorem next_header_dpos_invariant s h v skip s' :
  next_header s h v skip = Ok s' -> dpos_invariant (common s) -> block_num (common s) < UINT32_MAX ->
  Z.of_nat (length (producers (active_schedule (common s)))) <= max_producers ->
  dpos_invariant (common s') /\ block_num (common s') = block_num (common s) + 1
  /\ dpos_proposed_irreversible_blocknum (common s) <= dpos_proposed_irreversible_blocknum (common s').
Proof.
  intros Hn Hinv Hb Hp. destruct (next_header_inv _ _ _ _ _ Hn) as (p & Hpn & _ & -> & _).
  by apply (next_pending_dpos _ _ _ _ Hpn).
Qed.

(** The number two thirds of the producers back, by the implied irreversible
    numbers already recorded. *)
Definition backed (implied : gmap Z Z) : Z :=
  default 0 (nth_element (snd <$> map_to_list implied) ((size implied - 1) / 3)).

Lemma nth_element_perm l1 l2 k : l1 ≡ₚ l2 -> nth_element l1 k = nth_element l2 k.
Proof.
  intros Hp. unfold nth_element. f_equal. apply (StronglySorted_unique Z.le).
  - apply StronglySorted_merge_sort; apply _.
  - apply StronglySorted_merge_sort; apply _.
  - by rewrite !merge_sort_Permutation.
Qed.

Lemma calc_dpos_nth s q :
  calc_dpos_last_irreversible s q
  = default 0 (nth_element (irb_blocknums q (dpos_proposed_irreversible_blocknum (common s))
                              (producer_to_last_implied_irb (common s)))
                 ((size (producer_to_last_implied_irb (common s)) - 1) / 3)).
Proof.
  unfold calc_dpos_last_irreversible. rewrite irb_blocknums_length.
  destruct (irb_blocknums _ _ _) eqn:E; [|done]. done.
Qed.

Lemma irb_blocknums_insert q v (m : gmap Z Z) :
  is_Some (m !! q) -> snd <$> map_to_list (<[q := v]> m) ≡ₚ irb_blocknums q v m.
Proof.
  intros [x Hx]. unfold irb_blocknums.
  rewrite <- insert_delete_eq, map_to_list_insert by apply lookup_delete_eq.
  rewrite <- (insert_delete_id m q x Hx) at 2. rewrite map_to_list_insert by apply lookup_delete_eq.
  cbn [fmap list_fmap fst snd]. rewrite Z.eqb_refl. apply perm_skip.
  erewrite list_fmap_ext; [reflexivity|]. intros i [k y] Hk. cbn.
  apply list_elem_of_lookup_2, elem_of_map_to_list in Hk.
  destruct (Z.eqb_spec k q) as [->|]; [|done]. by rewrite lookup_delete_eq in Hk.
Qed.

Lemma irb_blocknums_ge q v (m : gmap Z Z) :
  map_Forall (fun _ x => x <= v) m -> Forall2 Z.le (snd <$> map_to_list m) (irb_blocknums q v m).
Proof.
  intros Hall. unfold irb_blocknums. rewrite Forall2_fmap. apply Forall_Forall2_diag, Forall_forall.
  intros [k x] Hk. cbn. apply elem_of_map_to_list, Hall in Hk. destruct (k =? q); lia.
Qed.

(** while no new schedule is promoted the irreversible block number never
    decreases: if it was backed by the recorded numbers, the next one is at
    least as large, and is again backed when the producer was tracked. *)
Theorem irreversible_monotone s when n p :
  next_pending s when n = Ok p -> dpos_invariant (common s) ->
  dpos_irreversible_blocknum (common s) <= backed (producer_to_last_implied_irb (common s)) ->
  dpos_irreversible_blocknum (common s) <= dpos_irreversible_blocknum (p_common p)
  /\ (was_pending_promoted p = false ->
      is_Some (producer_to_last_implied_irb (common s) !! p_producer p) ->
      dpos_irreversible_blocknum (p_common p) <= backed (producer_to_last_implied_irb (p_common p))).
Proof.
  intros Hn (_ & Hirr & _ & _ & _ & Himp & _) Hback.
  destruct (next_pending_inv _ _ _ _ Hn) as (slot & prokey & merkle & root & _ & _ & _ & _ & ->).
  unfold pending_of. destruct (confirm_loop _ _ _ _ _) as [cc prop].
  cbn [p_common dpos_irreversible_blocknum was_pending_promoted p_producer producer_to_last_implied_irb].
  rewrite calc_dpos_nth. set (m := producer_to_last_implied_irb (common s)) in *.
  set (prp := dpos_proposed_irreversible_blocknum (common s)) in *. split.
  - destruct (decide (size m = 0%nat)) as [E|Hne].
    { apply map_size_empty_iff in E. rewrite E in Hback |- *. exact Hback. }
    unfold backed in Hback.
    assert ((size m - 1) / 3 < size m)%nat as Hk by (apply Nat.Div0.div_lt_upper_bound; lia).
    destruct (nth_element_Some (snd <$> map_to_list m) ((size m - 1) / 3)) as [v1 E1].
    { by rewrite length_fmap, length_map_to_list. }
    destruct (nth_element_Some (irb_blocknums (producer_name prokey) prp m) ((size m - 1) / 3)) as [v2 E2].
    { by rewrite irb_blocknums_length. }
    rewrite E1 in Hback. rewrite E2. cbn in *. etransitivity; [done|].
    eapply nth_element_mono; [|done|done]. apply irb_blocknums_ge. intros k x Hx. apply Himp in Hx. lia.
  - intros -> Hsome. unfold backed.
    rewrite map_size_insert_Some by done. by rewrite (nth_element_perm _ _ _ (irb_blocknums_insert _ _ _ Hsome)).
Qed.

(** the confirmation ranges of one producer never overlap: a block that
    confirms [n] predecessors is only accepted when the producer's previous
    block lies below that range, and the new block becomes the producer's last.
    Stated for [n] at most the new block's number. *)
Theorem confirm_ranges_disjoint s when n p :
  next_pending s when n = Ok p -> dpos_invariant (common s) -> block_num (common s) < UINT32_MAX ->
  0 <= n <= block_num (common s) + 1 ->
  (forall last, producer_to_last_produced (common s) !! p_producer p = Some last ->
     last < block_num (p_common p) - n)
  /\ producer_to_last_produced (p_common p) !! p_producer p = Some (block_num (p_common p)).
Proof.
  intros Hn (Hb & _) Hlt Hrange. unfold is_uint, UINT32_MAX in *.
  destruct (next_pending_inv _ _ _ _ Hn) as (slot & prokey & merkle & root & _ & _ & Hdc & _ & ->).
  unfold pending_of. destruct (confirm_loop _ _ _ _ _) as [cc prop].
  cbn [p_common block_num p_producer producer_to_last_produced].
  assert (u32 (block_num (common s) + 1) = block_num (common s) + 1) as Hu
    by (apply wrap_small; unfold is_uint; lia).
  rewrite Hu. split.
  - intros last Hl. unfold check_double_confirm in Hdc. rewrite Hl, Hu in Hdc. inv_res. bprop.
    unfold u32 in *. rewrite wrap_small in * by (unfold is_uint; lia). done.
  - destruct (_ && _); apply lookup_insert_eq.
Qed.

(** beyond that range the check does not hold the producer back: when a
    header confirms more blocks than there are, the 32-bit subtraction wraps
    and every producer passes. *)
Theorem double_confirm_check_wraps s producer n :
  dpos_invariant (common s) -> block_num (common s) + 1 < n -> is_uint 16 n ->
  check_double_confirm s producer n = Ok tt.
Proof.
  intros (Hb & _ & _ & _ & _ & _ & Hlast) Hn Hty. unfold is_uint in *. unfold check_double_confirm.
  destruct (_ !! producer) as [last|] eqn:E; [|done]. apply Hlast in E.
  unfold u32. rewrite (wrap_small 32 (_ + 1)) by (unfold is_uint; lia).
  assert (wrap 32 (block_num (common s) + 1 - n) = block_num (common s) + 1 - n + 2 ^ 32) as ->.
  { symmetry. apply (Z.mod_unique _ _ (-1)); lia. }
  by destruct (Z.ltb_spec last (block_num (common s) + 1 - n + 2 ^ 32)); [|lia].
Qed.

(** ** Chains of headers *)

(** [chain_from s0 ids s]: [s] is reached from [s0] by accepted headers, over
    the blocks [ids] ([s] excluded). *)
Inductive chain_from (s0 : block_header_state) : list digest_type -> block_header_state -> Prop :=
| chain_start : chain_from s0 [] s0
| chain_step ids s h v skip s' :
    chain_from s0 ids s -> next_header s h v skip = Ok s' ->
    chain_from s0 (ids ++ [bhs_id s]) s'.

Definition num_consistent (s : block_header_state) : Prop := num_from_id (bhs_id s) = block_num (common s).

(** along any chain of accepted headers the block root of a state is the
    merkle root of the ids of all blocks before it, its block number counts
    them, and it is the number its id carries. *)
Theorem chain_blockroot s0 l ids s :
  chain_from s0 ids s -> represents hash_pair (blockroot_merkle (common s0)) l -> num_consistent s0 ->
  Z.of_nat (length l + length ids) < 2 ^ 63 ->
  get_root (blockroot_merkle (common s)) = merkle hash_pair (l ++ ids)
  /\ num_consistent s
  /\ block_num (common s) mod 2 ^ 32 = (block_num (common s0) + Z.of_nat (length ids)) mod 2 ^ 32.
Proof.
  intros Hchain Hrep Hnum Hlen.
  enough (represents hash_pair (blockroot_merkle (common s)) (l ++ ids) /\ num_consistent s
    /\ block_num (common s) mod 2 ^ 32 = (block_num (common s0) + Z.of_nat (length ids)) mod 2 ^ 32)
    as (Hr & Hrest) by (by split; [apply represents_root|]).
  induction Hchain as [|ids s h v skip s' _ IH Hn].
  { rewrite app_nil_r, Z.add_0_r. done. }
  rewrite length_app in Hlen. cbn in Hlen. destruct IH as (IHr & IHn & IHb); [lia|].
  destruct (next_header_inv _ _ _ _ _ Hn) as (p & Hp & Hf & Hc & Hid).
  destruct (next_pending_inv _ _ _ _ Hp) as (slot & prokey & merkle & root & _ & _ & _ & Happ & Epo).
  assert (blockroot_merkle (p_common p) = merkle /\ block_num (p_common p) = u32 (block_num (common s) + 1)
          /\ p_previous p = bhs_id s) as (Em & Eb & Ep).
  { subst p. unfold pending_of. by destruct (confirm_loop _ _ _ _ _). }
  destruct (append_represents hash_pair _ _ (bhs_id s) IHr) as (m' & Ha & Hrep'); [rewrite length_app; lia|].
  rewrite Hc, Em. rewrite Ha in Happ. injection Happ as <- _. rewrite app_assoc. split; [done|].
  assert (previous (bare_header h) = bhs_id s) as Hprev.
  { unfold _finish_next, check_header in Hf. inv_res. bprop. congruence. }
  split.
  - unfold num_consistent. rewrite Hid, Hc, Eb. rewrite num_from_header_id.
    unfold header_block_num. by rewrite Hprev, IHn.
  - rewrite Eb, length_app, Nat2Z.inj_add. cbn [length]. unfold u32, wrap.
    rewrite Z.mod_mod, <- Zplus_mod_idemp_l, IHb, Zplus_mod_idemp_l by lia. f_equal. lia.
Qed.

(** ** Schedules *)

(** A pending schedule is the successor version of the active one. *)
Definition schedule_inv (s : block_header_state) : Prop :=
  has_pending_producers s = true ->
  version (si_schedule (pending_schedule s)) = u32 (version (active_schedule (common s)) + 1).

Lemma pending_of_schedule s slot n prokey merkle :
  let p := pending_of s slot n prokey merkle in
  prev_pending_schedule p = pending_schedule s
  /\ active_schedule (p_common p)
     = (if was_pending_promoted p then si_schedule (pending_schedule s) else active_schedule (common s))
  /\ (was_pending_promoted p = true ->
      has_pending_producers s = true
      /\ schedule_lib_num (pending_schedule s) <= dpos_irreversible_blocknum (p_common p)).
Proof.
  cbn zeta. unfold pending_of. destruct (confirm_loop _ _ _ _ _) as [cc prop]. cbn.
  split; [done|]. split; [done|]. intros Hp. bprop. done.
Qed.

Lemma finish_next_schedule p h v s' :
  _finish_next p h v = Ok s' ->
  pending_schedule s' = finish_pending_schedule p (bare_header h)
  /\ (forall np, new_producers (bare_header h) = Some np ->
        was_pending_promoted p = false /\ version np = u32 (version (active_schedule (p_common p)) + 1)
        /\ producers (si_schedule (prev_pending_schedule p)) = []).
Proof.
  unfold _finish_next, check_header. intros Hf. inv_res. split; [done|]. intros np Hnp.
  rewrite Hnp in *. inv_res. bprop. done.
Qed.

(** schedules are handed over one version at a time: the active schedule
    only changes to the pending one, when the block that proposed it has become
    irreversible, and then no schedule is pending any more; a block may only
    propose a schedule when none is pending, and the proposed schedule carries
    the next version number and this block's number. *)
Theorem next_header_schedule s h v skip s' :
  next_header s h v skip = Ok s' -> schedule_inv s ->
  schedule_inv s'
  /\ (active_schedule (common s') = active_schedule (common s)
      \/ has_pending_producers s = true
         /\ active_schedule (common s') = si_schedule (pending_schedule s)
         /\ version (active_schedule (common s')) = u32 (version (active_schedule (common s)) + 1)
         /\ schedule_lib_num (pending_schedule s) <= dpos_irreversible_blocknum (common s')
         /\ has_pending_producers s' = false)
  /\ (forall np, new_producers (bare_header h) = Some np ->
        has_pending_producers s = false
        /\ active_schedule (common s') = active_schedule (common s)
        /\ pending_schedule s' = mk_schedule_info (block_num (common s')) (schedule_digest np) np).
Proof.
  intros Hn Hinv. destruct (next_header_inv _ _ _ _ _ Hn) as (p & Hp & Hf & Hc & _).
  destruct (next_pending_inv _ _ _ _ Hp) as (slot & prokey & merkle & root & _ & _ & _ & _ & Epo).
  pose proof (pending_of_schedule s slot (confirmed (bare_header h)) prokey merkle) as Hps.
  cbn zeta in Hps. rewrite <- Epo in Hps. destruct Hps as (Eprev & Eact & Hprom).
  apply finish_next_schedule in Hf as [Epend Hnew]. rewrite Hc.
  unfold schedule_inv, has_pending_producers in *. rewrite Epend, Hc, Eact. unfold finish_pending_schedule.
  destruct (new_producers (bare_header h)) as [np|].
  - destruct (Hnew np eq_refl) as (Hnp & Hver & Hnone). rewrite Eprev in Hnone. rewrite Hnp in *.
    rewrite Eact in Hver. cbn. split; [done|]. split; [by left|].
    intros np' [= <-]. rewrite Hnone. done.
  - rewrite Eprev. destruct (was_pending_promoted p); cbn.
    + destruct (Hprom eq_refl) as [Hpend Hlib]. split; [done|]. split; [|done].
      right. split; [done|]. split; [done|]. split; [by apply Hinv|]. done.
    + split; [done|]. split; [by left|done].
Qed.

(** ** Producing and validating agree *)

Lemma finish_next_signature p h sig v s' :
  _finish_next p h v = Ok s' ->
  _finish_next p (mk_signed_header (bare_header h) sig) v = Ok (set_signature s' sig).
Proof.
  unfold _finish_next. cbn [bare_header]. intros Hf. inv_res.
  cbn [res_bind]. by rewrite E1.
Qed.

(** fc's documented default of check_canonical is true, so the key recovered
    while signing is the one recovered while verifying. *)
Definition recovery_agrees : Prop :=
  forall sig d k, recover_key sig d = Ok k -> recover_key_canonical sig d = Ok k.

(** C32: what a producer builds every other node accepts: the signed header a
    producer finishes from its pending state passes full validation (signature
    included) on any node with the same head, and leads it to exactly the state
    the producer reached. *)
Theorem produced_block_accepted s when n p tmroot amroot np features v signer s' h' :
  recovery_agrees ->
  is_uint 32 (timestamp (bare_header (header s))) ->
  timestamp (bare_header (header s)) < UINT32_MAX ->
  next_pending s when n = Ok p ->
  finish_next_signed p (make_block_header p tmroot amroot np features) v signer = Ok (s', h') ->
  next_header s h' v false = Ok s'.
Proof.
  intros Hagree Hts Hmax Hp Hf. unfold is_uint, UINT32_MAX in *.
  unfold finish_next_signed, sign in Hf. inv_res. bprop. cbn [header set_signature producer_signature].
  destruct (next_pending_inv _ _ _ _ Hp) as (slot & prokey & merkle & root & Hslot & Hsched & Hdc & Happ & Epo).
  assert (p_timestamp p = slot /\ p_confirmed p = n) as [Ets Ecf].
  { subst p. unfold pending_of. by destruct (confirm_loop _ _ _ _ _). }
  assert (next_timestamp s slot = Ok slot) as Hslot'.
  { unfold next_timestamp in *. destruct (Z.eqb_spec when 0) as [->|Hne]; cbn [negb] in Hslot.
    - injection Hslot as <-. unfold u32. rewrite wrap_small by (unfold is_uint; lia).
      destruct (Z.eqb_spec (timestamp (bare_header (header s)) + 1) 0); [lia|]. cbn [negb].
      by destruct (Z.ltb_spec (timestamp (bare_header (header s))) (timestamp (bare_header (header s)) + 1)); [|lia].
    - unfold eos_assert in *. destruct (_ <? when) eqn:Hl; [|done]. injection Hslot as <-.
      destruct (Z.eqb_spec when 0); [done|]. cbn [negb]. by rewrite Hl. }
  assert (next_pending s slot n = Ok p) as Hp'.
  { unfold next_pending. rewrite Hslot'. cbn [res_bind]. rewrite Hsched. cbn [res_bind].
    rewrite Hdc. cbn [res_bind]. rewrite Happ. cbn [res_bind]. by rewrite <- Epo. }
  unfold next_header. cbn [make_block_header bare_header timestamp confirmed]. rewrite Ets, Ecf, Hp'.
  cbn [res_bind]. unfold finish_next. pose proof (finish_next_signature _ _ a0 _ _ E) as Hfin.
  cbn [make_block_header bare_header] in Hfin. rewrite Ets, Ecf in Hfin. rewrite Hfin. cbn [res_bind negb].
  unfold signee. change (sig_digest (set_signature a a0)) with (sig_digest a).
  cbn [set_signature header producer_signature]. rewrite (Hagree _ _ _ E2). cbn [res_bind].
  unfold verify_signee. cbn [common set_signature]. by rewrite bool_decide_true.
Qed.

End HeaderState.

(** ** A concrete chain *)

Definition toy_schedule : producer_schedule_type (@public_key toy_fc) :=
  @mk_schedule Z 0 [mk_producer_key 10 110; mk_producer_key 20 120; mk_producer_key 30 130].

(** A state at block 5 with a schedule pending since block 2. *)
Definition toy_state : block_header_state :=
  mk_bhs (fc := toy_fc)
    (mk_common 5 3 2 toy_schedule empty_incremental_merkle
       {[10 := 5; 20 := 3; 30 := 4]} {[10 := 3; 20 := 2; 30 := 3]} (110 : @public_key toy_fc) [2; 1])
    (mk_digest (byte_swap_u32 5) 1 2 3)
    (mk_signed_header (@mk_header Z 11 10 0 (mk_digest (byte_swap_u32 4) 1 2 3) digest_zero digest_zero 0 None [])
       null_signature)
    (mk_schedule_info 2 digest_zero (@mk_schedule Z 1 [mk_producer_key 20 120; mk_producer_key 40 140]))
    ∅ [].

(** Signs with the key of producer 20. *)
Definition toy_signer (d : digest_type) : res (@signature toy_fc) := Ok ((120, d) : @signature toy_fc).
Definition accept_features : validator_type := fun _ _ _ => Ok tt.

Definition toy_pending : res pending_block_header_state := next_pending toy_state 0 0.

Definition toy_produced : res (block_header_state * signed_block_header (@public_key toy_fc) (@signature toy_fc)) :=
  let! p := toy_pending in
  finish_next_signed p (make_block_header p digest_zero digest_zero None [mk_digest 1 2 3 4]) accept_features toy_signer.

Definition unwrap {A} (default : A) (r : res A) : A := match r with Ok a => a | Throw _ => default end.
Definition is_ok {A} (r : res A) : bool := match r with Ok _ => true | Throw _ => false end.

Lemma ok_unwrap {A} (default : A) (r : res A) : is_ok r = true -> r = Ok (unwrap default r).
Proof. by destruct r. Qed.

Definition toy_dummy : pending_block_header_state :=
  mk_pending (common toy_state) ∅ (pending_schedule toy_state) false digest_zero 0 0 0 0.
Definition toy_p : pending_block_header_state := unwrap toy_dummy toy_pending.
Definition toy_signed : signed_block_header (@public_key toy_fc) (@signature toy_fc) :=
  snd (unwrap (toy_state, header toy_state) toy_produced).
Definition toy_next : block_header_state :=
  unwrap toy_state (next_header toy_state toy_signed accept_features false).

Lemma toy_next_ok : next_header toy_state toy_signed accept_features false = Ok toy_next.
Proof. apply ok_unwrap. vm_compute. reflexivity. Qed.

Lemma toy_p_ok : next_pending toy_state 0 0 = Ok toy_p.
Proof. apply ok_unwrap. vm_compute. reflexivity. Qed.

Lemma toy_invariant : dpos_invariant (common toy_state).
Proof.
  unfold dpos_invariant, is_uint. cbn [common toy_state block_num dpos_irreversible_blocknum
    dpos_proposed_irreversible_blocknum confirm_count length producer_to_last_implied_irb producer_to_last_produced].
  change (Z.to_nat maximum_tracked_dpos_confirmations) with 1024%nat.
  do 4 (split; [lia|]). split; [repeat (constructor; [lia|]); constructor|].
  split; repeat apply map_Forall_insert_2; try lia; apply map_Forall_empty.
Qed.

Lemma get_scheduled_producer_round_robin_witness :
  exists p, get_scheduled_producer toy_state 13 = Ok p
         /\ producers toy_schedule !! Z.to_nat (13 / producer_repetitions mod 3) = Some p.
Proof.
  apply (get_scheduled_producer_round_robin toy_state 13).
  - vm_compute. split; reflexivity.
  - unfold is_uint. lia.
Defined.

Lemma dpos_irreversible_two_thirds_witness :
  let nums := irb_blocknums 20 3 (producer_to_last_implied_irb (common toy_state)) in
  (2 * length nums < 3 * count_ge (calc_dpos_last_irreversible toy_state 20) nums)%nat.
Proof. apply (dpos_irreversible_two_thirds toy_state 20). discriminate. Defined.

Lemma next_header_dpos_invariant_witness :
  next_header toy_state toy_signed accept_features false = Ok toy_next
  /\ dpos_invariant (common toy_next) /\ block_num (common toy_next) = 6.
Proof.
  pose proof toy_next_ok as E.
  destruct (next_header_dpos_invariant _ _ _ _ _ E toy_invariant) as (Hi & Hb & _).
  - vm_compute. reflexivity.
  - vm_compute. discriminate.
  - split; [exact E|]. split; [exact Hi|]. rewrite Hb. vm_compute. reflexivity.
Defined.

Lemma irreversible_monotone_witness :
  next_pending toy_state 0 0 = Ok toy_p
  /\ dpos_irreversible_blocknum (common toy_state) <= dpos_irreversible_blocknum (p_common toy_p).
Proof.
  pose proof toy_p_ok as E.
  split; [exact E|]. apply (irreversible_monotone _ _ _ _ E toy_invariant). vm_compute. discriminate.
Defined.

Lemma confirm_ranges_disjoint_witness :
  producer_to_last_produced (p_common toy_p) !! p_producer toy_p = Some (block_num (p_common toy_p)).
Proof.
  pose proof toy_p_ok as E.
  apply (confirm_ranges_disjoint _ _ _ _ E toy_invariant).
  - vm_compute. reflexivity.
  - vm_compute. split; discriminate.
Defined.

Lemma double_confirm_check_wraps_witness : check_double_confirm toy_state 10 7 = Ok tt.
Proof.
  apply (double_confirm_check_wraps toy_state 10 7 toy_invariant).
  - vm_compute. reflexivity.
  - unfold is_uint. lia.
Defined.

Lemma chain_blockroot_witness :
  get_root (blockroot_merkle (common toy_next)) = merkle hash_pair [bhs_id toy_state]
  /\ num_consistent toy_next.
Proof.
  destruct (chain_blockroot toy_state [] [bhs_id toy_state] toy_next) as (Hr & Hn & _).
  - apply (chain_step toy_state [] toy_state toy_signed accept_features false).
    + constructor.
    + exact toy_next_ok.
  - apply represents_empty.
  - vm_compute. reflexivity.
  - vm_compute. reflexivity.
  - split; [exact Hr|exact Hn].
Defined.

Lemma next_header_schedule_witness :
  schedule_inv toy_next /\ version (active_schedule (common toy_next)) = 1.
Proof.
  pose proof toy_next_ok as E.
  destruct (next_header_schedule _ _ _ _ _ E) as (Hi & _).
  - intros _. vm_compute. reflexivity.
  - split; [exact Hi|]. vm_compute. reflexivity.
Defined.

Lemma produced_block_accepted_witness :
  next_header toy_state toy_signed accept_features false
  = Ok (fst (unwrap (toy_state, header toy_state) toy_produced)).
Proof.
  apply (produced_block_accepted toy_state 0 0 toy_p digest_zero digest_zero None [mk_digest 1 2 3 4]
           accept_features toy_signer).
  - intros sig d k Hk. exact Hk.
  - unfold is_uint. cbn. lia.
  - vm_compute. reflexivity.
  - exact toy_p_ok.
  - unfold toy_signed, toy_produced, toy_pending. rewrite toy_p_ok. cbn [res_bind].
    rewrite (ok_unwrap (toy_state, header toy_state) (finish_next_signed _ _ _ _)) at 1
      by (vm_compute; reflexivity).
    apply f_equal, surjective_pairing.
Defined.
