(* ===== verification/ForkDatabase.v ===== *)
(** The fork database: libraries/chain/fork_database.cpp and
    include/eosio/chain/fork_database.hpp.

    The boost multi_index of block states is a [gmap] from block ids (its unique
    index by_block_id); by_lib_block_num is the order [lib_before] on its
    elements, by_prev the blocks with a given predecessor.  A block_state is its
    header state and its [validated] flag; the block and its transactions are
    carried along unread.  [root] and [head] are pointers that may be null; the
    code never reads [validated] through them.  Loops over predecessor links
    take the number of blocks as fuel, which the theorems show to be enough. *)

From Stdlib Require Import ZArith Lia.
From stdpp Require Import base gmap numbers sorting list.
From S2P Require Import Prelude Merkle BlockHeader BlockHeaderState.

Local Open Scope Z_scope.

(** Lexicographic comparison of keys of the same length. *)
Fixpoint lex (xs ys : list Z) : bool :=
  match xs, ys with
  | x :: xs, y :: ys => (x <? y) || (x =? y) && lex xs ys
  | _, _ => false
  end.

Lemma lex_asym xs : forall ys, lex xs ys = true -> lex ys xs = false.
Proof.
  induction xs as [|x xs IH]; intros [|y ys]; cbn [lex]; try done.
  destruct (Z.ltb_spec x y), (Z.eqb_spec x y), (Z.ltb_spec y x), (Z.eqb_spec y x); cbn [orb andb]; try lia; auto.
Qed.

(** "Not before" is transitive. *)
Lemma lex_neg_trans xs : forall ys zs, length xs = length ys -> length ys = length zs ->
  lex xs ys = false -> lex ys zs = false -> lex xs zs = false.
Proof.
  induction xs as [|x xs IH]; intros [|y ys] [|z zs] [=] [=]; cbn [lex]; try done.
  destruct (Z.ltb_spec x y), (Z.eqb_spec x y), (Z.ltb_spec y z), (Z.eqb_spec y z), (Z.ltb_spec x z),
    (Z.eqb_spec x z); cbn [orb andb]; try lia; eauto.
Qed.

Section ForkDatabase.
Context {fc : Fc}.

Record block_state := mk_block_state { bsh : block_header_state; validated : bool }.

Definition b_id (b : block_state) : digest_type := bhs_id (bsh b).
Definition b_prev (b : block_state) : digest_type := previous (bare_header (header (bsh b))).
Definition b_num (b : block_state) : Z := block_num (common (bsh b)).
Definition b_lib (b : block_state) : Z := dpos_irreversible_blocknum (common (bsh b)).

Definition set_validated (v : bool) (b : block_state) : block_state := mk_block_state (bsh b) v.

Record fork_database := mk_fork_db {
  index : gmap digest_type block_state;
  root : option block_state;
  head : option block_state
}.

(** sha256_less *)
Definition sha256_less (l r : digest_type) : bool :=
  (_hash0 l <? _hash0 r)
  || (_hash0 l =? _hash0 r)
     && ((_hash1 l <? _hash1 r)
         || (_hash1 l =? _hash1 r)
            && ((_hash2 l <? _hash2 r)
                || (_hash2 l =? _hash2 r) && (_hash3 l <? _hash3 r))).

Definition first_preferred (lhs rhs : block_state) : bool :=
  (b_lib rhs <? b_lib lhs) || (b_lib lhs =? b_lib rhs) && (b_num rhs <? b_num lhs).

(** The comparison of the index by_lib_block_num: validated, then greater
    irreversible number, then greater number, then smaller id. *)
Definition lib_before (l r : block_state) : bool :=
  (validated l && negb (validated r))
  || eqb (validated l) (validated r)
     && (first_preferred l r
         || (b_lib l =? b_lib r) && (b_num l =? b_num r) && sha256_less (b_id l) (b_id r)).

(** The first element, in that order, of a range of elements. *)
Definition lib_first (l : list block_state) : option block_state :=
  foldr (fun b acc => match acc with
                      | Some c => Some (if lib_before c b then c else b)
                      | None => Some b
                      end) None l.

Definition blocks (i : gmap digest_type block_state) : list block_state := snd <$> map_to_list i.

(** index.get<by_lib_block_num>().begin() *)
Definition lib_begin (i : gmap digest_type block_state) : option block_state := lib_first (blocks i).

(** ...lower_bound( false ): the first element that is not validated. *)
Definition lib_lower_bound_false (i : gmap digest_type block_state) : option block_state :=
  lib_first (filter (fun b => validated b = false) (blocks i)).

(** The ids of the blocks by_prev lists under [id]. *)
Definition children (i : gmap digest_type block_state) (id : digest_type) : list digest_type :=
  b_id <$> filter (fun b => b_prev b = id) (blocks i).

Definition get_block (db : fork_database) (id : digest_type) : option block_state := index db !! id.

Definition get_block_header (db : fork_database) (id : digest_type) : res (option block_state) :=
  match root db with
  | None => Throw undefined_behavior
  | Some r => Ok (if bool_decide (b_id r = id) then Some r else index db !! id)
  end.

Definition reset (root_bhs : block_header_state) : exec fork_database unit :=
  let r := mk_block_state root_bhs true in put_state (mk_fork_db ∅ (Some r) (Some r)).

Definition rollback_head_to_root : exec fork_database unit :=
  modify (fun db => mk_fork_db (set_validated false <$> index db) (root db) (root db)).

(** fork_database_impl::add; the validator is called on the features the block
    activates. *)
Definition add_impl (n : option block_state) (ignore_duplicate validate : bool) (validator : validator_type)
    : exec fork_database unit :=
  do db <- get_state;
  check (bool_decide (is_Some (root db))) else fork_database_exception;
  match n with
  | None => lift (Throw fork_database_exception)
  | Some n =>
      do prev_bh <- lift (get_block_header db (b_prev n));
      match prev_bh with
      | None => lift (Throw unlinkable_block_exception)
      | Some prev_bh =>
          do _ <- lift (if validate then
                          match header_exts (bsh n) with
                          | new_protocol_features :: _ =>
                              match validator (timestamp (bare_header (header (bsh n))))
                                      (activated_protocol_features (bsh prev_bh)) new_protocol_features with
                              | Ok _ => Ok tt
                              | Throw e => Throw (eos_rethrow fork_database_exception e)
                              end
                          | [] => Ok tt
                          end
                        else Ok tt);
          if bool_decide (is_Some (index db !! b_id n)) then
            if ignore_duplicate then ret tt else lift (Throw fork_database_exception)
          else
            let i := <[b_id n := n]> (index db) in
            put_state (mk_fork_db i (root db)
                         (match lib_begin i with
                          | Some candidate => if validated candidate then Some candidate else head db
                          | None => head db
                          end))
      end
  end.

Definition add (n : option block_state) (ignore_duplicate : bool) : exec fork_database unit :=
  add_impl n ignore_duplicate false (fun _ _ _ => Ok tt).

Definition pending_head (db : fork_database) : res (option block_state) :=
  match lib_lower_bound_false (index db) with
  | Some b =>
      match head db with
      | Some h => Ok (if first_preferred b h then Some b else head db)
      | None => Throw undefined_behavior
      end
  | None => Ok (head db)
  end.

(** The loops [for( auto s = get_block(h); s; s = get_block( s->header.previous ) )] *)
Fixpoint branch_loop (fuel : nat) (i : gmap digest_type block_state) (s : option block_state)
    : res (list block_state) :=
  match s with
  | None => Ok []
  | Some b =>
      match fuel with
      | O => Throw out_of_fuel
      | S fuel' => let! rest := branch_loop fuel' i (i !! b_prev b) in Ok (b :: rest)
      end
  end.

Definition fetch_branch (db : fork_database) (h : digest_type) (trim_after_block_num : Z)
    : res (list block_state) :=
  let! walked := branch_loop (size (index db)) (index db) (get_block db h) in
  Ok (filter (fun s => b_num s <= trim_after_block_num) walked).

Fixpoint search_loop (fuel : nat) (i : gmap digest_type block_state) (s : option block_state) (num : Z)
    : res (option block_state) :=
  match s with
  | None => Ok None
  | Some b =>
      if b_num b =? num then Ok (Some b)
      else match fuel with
           | O => Throw out_of_fuel
           | S fuel' => search_loop fuel' i (i !! b_prev b) num
           end
  end.

Definition search_on_branch (db : fork_database) (h : digest_type) (num : Z) : res (option block_state) :=
  search_loop (size (index db)) (index db) (get_block db h) num.

(** [(id == my->root->id) ? my->root : get_block( id )], then the assertion. *)
Definition root_or_block (i : gmap digest_type block_state) (r : block_state) (id : digest_type) : res block_state :=
  if bool_decide (id = b_id r) then Ok r
  else match i !! id with Some b => Ok b | None => Throw fork_db_block_not_found end.

(** The two loops that bring the higher branch down to [num]: the blocks passed
    and the block reached. *)
Fixpoint level_loop (fuel : nat) (i : gmap digest_type block_state) (r b : block_state) (num : Z)
    : res (list block_state * block_state) :=
  if num <? b_num b then
    match fuel with
    | O => Throw out_of_fuel
    | S fuel' =>
        let! p := root_or_block i r (b_prev b) in
        let! (passed, reached) := level_loop fuel' i r p num in
        Ok (b :: passed, reached)
    end
  else Ok ([], b).

(** The last loop, up to a common predecessor; both last blocks are included. *)
Fixpoint join_loop (fuel : nat) (i : gmap digest_type block_state) (b1 b2 : block_state)
    : res (list block_state * list block_state) :=
  if bool_decide (b_prev b1 = b_prev b2) then Ok ([b1], [b2])
  else
    match fuel with
    | O => Throw out_of_fuel
    | S fuel' =>
        match i !! b_prev b1, i !! b_prev b2 with
        | Some p1, Some p2 => let! (l1, l2) := join_loop fuel' i p1 p2 in Ok (b1 :: l1, b2 :: l2)
        | _, _ => Throw fork_db_block_not_found
        end
    end.

Definition fetch_branch_from (db : fork_database) (first second : digest_type)
    : res (list block_state * list block_state) :=
  match root db with
  | None => Throw undefined_behavior
  | Some r =>
      let i := index db in
      let! first_branch := root_or_block i r first in
      let! second_branch := root_or_block i r second in
      let! (l1, first_branch) := level_loop (size i) i r first_branch (b_num second_branch) in
      let! (l2, second_branch) := level_loop (size i) i r second_branch (b_num first_branch) in
      if bool_decide (b_id first_branch = b_id second_branch) then Ok (l1, l2)
      else
        let! (m1, m2) := join_loop (size i) i first_branch second_branch in
        Ok (l1 ++ m1, l2 ++ m2)
  end.

(** remove's first loop: [remove_queue] grows while [k] walks it. *)
Fixpoint remove_scan (fuel : nat) (i : gmap digest_type block_state) (head_id : digest_type)
    (k : nat) (remove_queue : list digest_type) : res (list digest_type) :=
  match remove_queue !! k with
  | None => Ok remove_queue
  | Some q =>
      match fuel with
      | O => Throw out_of_fuel
      | S fuel' =>
          assert! (negb (bool_decide (q = head_id))) else fork_database_exception in
          remove_scan fuel' i head_id (S k) (remove_queue ++ children i q)
      end
  end.

Definition erase_all (ids : list digest_type) (i : gmap digest_type block_state) : gmap digest_type block_state :=
  foldl (fun i id => delete id i) i ids.

Definition set_index (i : gmap digest_type block_state) (db : fork_database) : fork_database :=
  mk_fork_db i (root db) (head db).

Definition remove (id : digest_type) : exec fork_database unit :=
  do db <- get_state;
  match head db with
  | None => lift (Throw undefined_behavior)
  | Some h =>
      do queue <- lift (remove_scan (S (size (index db))) (index db) (b_id h) 0 [id]);
      put_state (set_index (erase_all queue (index db)) db)
  end.

(** advance_root's first loop: the predecessors from [b] to the root. *)
Fixpoint ancestors_loop (fuel : nat) (i : gmap digest_type block_state) (root_id : digest_type) (b : block_state)
    : res (list digest_type) :=
  match fuel with
  | O => Throw out_of_fuel
  | S fuel' =>
      match i !! b_prev b with
      | Some p => let! rest := ancestors_loop fuel' i root_id p in Ok (b_prev b :: rest)
      | None => assert! (bool_decide (b_prev b = root_id)) else fork_database_exception in Ok [b_prev b]
      end
  end.

Definition advance_root (id : digest_type) : exec fork_database unit :=
  do db <- get_state;
  match root db with
  | None => lift (Throw fork_database_exception)
  | Some r =>
      match get_block db id with
      | None => lift (Throw fork_database_exception)
      | Some new_root =>
          check (validated new_root) else fork_database_exception;
          do blocks_to_remove <- lift (ancestors_loop (size (index db)) (index db) (b_id r) new_root);
          do _ <- put_state (set_index (delete id (index db)) db);
          do _ <- for_each blocks_to_remove remove;
          modify (fun db => mk_fork_db (index db) (Some new_root) (head db))
      end
  end.

(** mark_valid( h ): [h] is the block state the caller points to. *)
Definition mark_valid (h : block_state) : exec fork_database unit :=
  if validated h then ret tt
  else
    do db <- get_state;
    match index db !! b_id h with
    | None => lift (Throw fork_database_exception)
    | Some b =>
        let i := <[b_id h := set_validated true b]> (index db) in
        do _ <- put_state (set_index i db);
        match lib_begin i, head db with
        | Some candidate, Some hd =>
            if first_preferred candidate hd then put_state (mk_fork_db i (root db) (Some candidate)) else ret tt
        | _, _ => lift (Throw undefined_behavior)
        end
    end.

(** ** The order of the index *)

Definition lib_key (b : block_state) : list Z :=
  [- Z.b2z (validated b); - b_lib b; - b_num b;
   _hash0 (b_id b); _hash1 (b_id b); _hash2 (b_id b); _hash3 (b_id b)].

Lemma opp_ltb x y : (- x <? - y) = (y <? x).
Proof. destruct (Z.ltb_spec (- x) (- y)), (Z.ltb_spec y x); (done || lia). Qed.

Lemma opp_eqb x y : (- x =? - y) = (x =? y).
Proof. destruct (Z.eqb_spec (- x) (- y)), (Z.eqb_spec x y); (done || lia). Qed.

Lemma lib_before_lex l r : lib_before l r = lex (lib_key l) (lib_key r).
Proof.
  unfold lib_before, first_preferred, sha256_less, lib_key. cbn [lex]. rewrite !opp_ltb, !opp_eqb.
  rewrite !andb_false_r, !orb_false_r.
  destruct (validated l), (validated r); cbn [Z.b2z Z.ltb Z.eqb Z.compare eqb negb andb orb]; try done.
  all: destruct (b_lib r <? b_lib l), (b_lib l =? b_lib r), (b_num r <? b_num l), (b_num l =? b_num r);
    cbn [andb orb]; done.
Qed.

Lemma lib_before_asym a b : lib_before a b = true -> lib_before b a = false.
Proof. rewrite !lib_before_lex. apply lex_asym. Qed.

Lemma lib_before_neg_trans a b c :
  lib_before a b = false -> lib_before b c = false -> lib_before a c = false.
Proof. rewrite !lib_before_lex. by apply lex_neg_trans. Qed.

Lemma lib_before_irrefl a : lib_before a a = false.
Proof. destruct (lib_before a a) eqn:E; [|done]. by rewrite (lib_before_asym _ _ E) in E. Qed.

Lemma lib_first_spec l c :
  lib_first l = Some c -> c ∈ l /\ forall b, b ∈ l -> lib_before b c = false.
Proof.
  revert c; induction l as [|x l IH]; intros c; cbn [lib_first foldr]; [done|].
  fold (lib_first l). destruct (lib_first l) as [c'|] eqn:E; intros [= <-].
  - destruct (IH c' eq_refl) as [Hin Hmin]. destruct (lib_before c' x) eqn:Eb.
    + split; [by right|]. intros b [->|Hb]%elem_of_cons; [by apply lib_before_asym|auto].
    + split; [left|]. intros b [->|Hb]%elem_of_cons; [apply lib_before_irrefl|].
      eapply lib_before_neg_trans; [by apply Hmin|done].
  - assert (l = []) as -> by (destruct l; [done|cbn in E; by destruct (foldr _ _ _)]).
    split; [left|]. intros b [->|Hb]%elem_of_cons; [apply lib_before_irrefl|by apply elem_of_nil in Hb].
Qed.

Lemma lib_first_None l : lib_first l = None -> l = [].
Proof. destruct l; [done|]. cbn. by destruct (foldr _ _ _). Qed.

Lemma elem_of_blocks i b : b ∈ blocks i <-> exists k, i !! k = Some b.
Proof.
  unfold blocks. rewrite list_elem_of_fmap. split.
  - intros ([k b'] & -> & Hk). exists k. by apply elem_of_map_to_list in Hk.
  - intros [k Hk]. exists (k, b). split; [done|]. by apply elem_of_map_to_list.
Qed.

(** The first element is validated when any is, and is then at least as good as
    every validated one. *)
Lemma lib_begin_valid i c :
  lib_begin i = Some c ->
  (exists k, i !! k = Some c)
  /\ forall k b, i !! k = Some b -> validated b = true -> validated c = true /\ first_preferred b c = false.
Proof.
  unfold lib_begin. intros Hc. apply lib_first_spec in Hc as [Hin Hmin].
  split; [by apply elem_of_blocks|]. intros k b Hk Hv.
  specialize (Hmin b ltac:(apply elem_of_blocks; eauto)).
  unfold lib_before in Hmin. rewrite Hv in Hmin.
  destruct (validated c); cbn in Hmin; [|done]. split; [done|]. bprop. done.
Qed.

(** ** Well-formed trees *)

Definition keyed (i : gmap digest_type block_state) : Prop := forall k b, i !! k = Some b -> b_id b = k.
(** Numbers grow by one along the links. *)
Definition ranked (i : gmap digest_type block_state) : Prop :=
  forall k b p, i !! k = Some b -> i !! b_prev b = Some p -> b_num b = b_num p + 1.
(** Every block links to the root or to a block of the tree. *)
Definition linked (i : gmap digest_type block_state) (r : block_state) : Prop :=
  forall k b, i !! k = Some b ->
    (b_prev b = b_id r /\ b_num b = b_num r + 1) \/ is_Some (i !! b_prev b).

(** [desc i a k]: [k] is [a], or a block of the tree whose links lead to [a]. *)
Inductive desc (i : gmap digest_type block_state) (a : digest_type) : digest_type -> Prop :=
| desc_refl : desc i a a
| desc_step k b : i !! k = Some b -> desc i a (b_prev b) -> desc i a k.

Lemma desc_trans i a b c : desc i a b -> desc i b c -> desc i a c.
Proof. intros Hab. induction 1; [done|]. by eapply desc_step. Qed.

Lemma desc_outside i a k : desc i a k -> i !! k = None -> k = a.
Proof. intros Hd. destruct Hd as [|k b Hk _]; [done|]. by rewrite Hk. Qed.

Lemma desc_rank i a k ba bk :
  ranked i -> desc i a k -> i !! a = Some ba -> i !! k = Some bk ->
  k = a \/ b_num ba < b_num bk.
Proof.
  intros Hr Hd Ha. revert bk. induction Hd as [|k b Hk Hd IH]; intros bk Hbk; [by left|].
  rewrite Hk in Hbk. injection Hbk as <-. right.
  destruct (i !! b_prev b) as [p|] eqn:Ep.
  - rewrite (Hr _ _ _ Hk Ep). destruct (IH p eq_refl) as [E|Hlt]; [|lia].
    rewrite E, Ha in Ep. injection Ep as <-. lia.
  - rewrite (desc_outside _ _ _ Hd Ep), Ha in Ep. done.
Qed.

(** Links do not form cycles. *)
Lemma desc_acyclic i a k b :
  ranked i -> i !! a = Some b -> b_prev b = k -> desc i a k -> False.
Proof.
  intros Hr Ha Hp Hd. destruct (i !! k) as [bk|] eqn:Ek.
  - subst k. pose proof (Hr _ _ _ Ha Ek). destruct (desc_rank _ _ _ _ _ Hr Hd Ha Ek) as [E|]; [|lia].
    rewrite E, Ha in Ek. injection Ek as <-. lia.
  - pose proof (desc_outside _ _ _ Hd Ek). congruence.
Qed.

Lemma elem_of_children i q c :
  keyed i -> c ∈ children i q <-> exists b, i !! c = Some b /\ b_prev b = q.
Proof.
  intros Hk. unfold children. rewrite list_elem_of_fmap. split.
  - intros (b & -> & Hb). apply list_elem_of_filter in Hb as [Hp Hb].
    apply elem_of_blocks in Hb as [k Hb]. rewrite (Hk _ _ Hb). eauto.
  - intros (b & Hc & Hp). exists b. split; [by rewrite (Hk _ _ Hc)|].
    apply list_elem_of_filter. split; [done|]. apply elem_of_blocks. eauto.
Qed.

Lemma NoDup_children i q : keyed i -> NoDup (children i q).
Proof.
  intros Hk. unfold children. apply (sublist_NoDup _ (b_id <$> blocks i)).
  2: apply fmap_sublist, sublist_filter.
  - unfold blocks. rewrite <- list_fmap_compose.
    erewrite list_fmap_ext; [apply NoDup_fst_map_to_list|]. intros j [k b] Hj. cbn.
    apply list_elem_of_lookup_2, elem_of_map_to_list in Hj. by apply Hk.
Qed.

(** ** remove *)

Section Remove.
Context (i : gmap digest_type block_state) (Hkey : keyed i) (Hrank : ranked i).
Context (id head_id : digest_type).

(** What holds of the queue when the loop is at position [k]. *)
Record scanned (k : nat) (queue : list digest_type) : Prop := mk_scanned {
  sc_nodup : NoDup queue;
  sc_start : id ∈ queue;
  sc_desc : forall x, x ∈ queue -> desc i id x;
  sc_done : forall j q, queue !! j = Some q -> (j < k)%nat ->
              q <> head_id /\ forall c, c ∈ children i q -> c ∈ queue;
  sc_parent : forall x, x ∈ queue -> x = id \/
                exists b j, i !! x = Some b /\ (j < k)%nat /\ queue !! j = Some (b_prev b)
}.

Lemma scanned_length k queue : scanned k queue -> (length queue <= S (size i))%nat.
Proof.
  intros [Hnd _ _ _ Hpar].
  assert (queue ⊆ id :: (fst <$> map_to_list i)) as Hsub.
  { intros x Hx. destruct (Hpar x Hx) as [->|(b & _ & Hb & _)]; [left|right].
    apply list_elem_of_fmap. exists (x, b). split; [done|]. by apply elem_of_map_to_list. }
  pose proof (submseteq_length _ _ (NoDup_submseteq _ _ Hnd (fun x Hx => Hsub x Hx))) as Hl.
  cbn in Hl. by rewrite length_fmap, length_map_to_list in Hl.
Qed.

Lemma scanned_step k queue q :
  scanned k queue -> queue !! k = Some q -> q <> head_id -> scanned (S k) (queue ++ children i q).
Proof.
  intros [Hnd Hst Hde Hdo Hpa] Hq Hne.
  assert (q ∈ queue) as Hqin by (by eapply list_elem_of_lookup_2).
  assert (forall c, c ∈ children i q -> c ∉ queue) as Hfresh.
  { intros c Hc Hin. apply elem_of_children in Hc as (b & Hb & Hp); [|done].
    destruct (Hpa c Hin) as [->|(b' & j & Hb' & Hj & Hjq)].
    - by eapply (desc_acyclic i id q b); eauto.
    - rewrite Hb in Hb'. injection Hb' as <-. rewrite Hp in Hjq.
      pose proof (NoDup_lookup _ _ _ _ Hnd Hq Hjq). lia. }
  split.
  - apply NoDup_app. split; [done|]. split; [|by apply NoDup_children].
    intros x Hx Hc. by apply (Hfresh x).
  - apply elem_of_app. by left.
  - intros x [Hx|Hx]%elem_of_app; [auto|]. apply elem_of_children in Hx as (b & Hb & Hp); [|done].
    eapply desc_step; [done|]. rewrite Hp. auto.
  - intros j x Hj Hlt. destruct (decide (j = k)) as [->|Hjk].
    + rewrite lookup_app_l in Hj by (by eapply lookup_lt_Some). rewrite Hq in Hj. injection Hj as <-.
      split; [done|]. intros c Hc. apply elem_of_app. by right.
    + rewrite lookup_app_l in Hj by (apply lookup_lt_Some in Hq; lia).
      destruct (Hdo j x Hj ltac:(lia)) as [? Hch]. split; [done|].
      intros c Hc. apply elem_of_app. left. auto.
  - intros x [Hx|Hx]%elem_of_app.
    + destruct (Hpa x Hx) as [?|(b & j & Hb & Hj & Hjq)]; [by left|]. right. exists b, j.
      split; [done|]. split; [lia|]. by apply lookup_app_l_Some.
    + right. apply elem_of_children in Hx as (b & Hb & Hp); [|done]. exists b, k.
      split; [done|]. split; [lia|]. rewrite Hp. by apply lookup_app_l_Some.
Qed.

Lemma scanned_closed k queue :
  scanned k queue -> queue !! k = None ->
  (forall x, x ∈ queue <-> desc i id x) /\ ~ desc i id head_id.
Proof.
  intros [Hnd Hst Hde Hdo Hpa] Hk. apply lookup_ge_None in Hk.
  assert (forall x, x ∈ queue -> exists j, queue !! j = Some x /\ (j < k)%nat) as Hpos.
  { intros x Hx. apply list_elem_of_lookup_1 in Hx as [j Hj]. exists j. split; [done|].
    apply lookup_lt_Some in Hj. lia. }
  assert (forall x, desc i id x -> x ∈ queue) as Hcl.
  { intros x. induction 1 as [|x b Hx _ IH]; [done|]. destruct (Hpos _ IH) as (j & Hj & Hlt).
    destruct (Hdo _ _ Hj Hlt) as [_ Hch]. apply Hch, elem_of_children; eauto. }
  split; [by intros x; split; auto|]. intros Hd. destruct (Hpos _ (Hcl _ Hd)) as (j & Hj & Hlt).
  by destruct (Hdo _ _ Hj Hlt).
Qed.

Lemma remove_scan_spec fuel k queue :
  scanned k queue -> (S (size i) <= fuel + k)%nat ->
  match remove_scan fuel i head_id k queue with
  | Ok queue' => (forall x, x ∈ queue' <-> desc i id x) /\ ~ desc i id head_id
  | Throw e => e = fork_database_exception /\ desc i id head_id
  end.
Proof.
  revert k queue; induction fuel as [|fuel IH]; intros k queue Hs Hf; cbn [remove_scan].
  all: destruct (queue !! k) as [q|] eqn:Hq; [|by apply (scanned_closed k)].
  - pose proof (scanned_length _ _ Hs). apply lookup_lt_Some in Hq. lia.
  - case_bool_decide as Hh; cbn [negb eos_assert res_bind].
    + split; [done|]. subst q. apply (sc_desc _ _ Hs). by eapply list_elem_of_lookup_2.
    + apply IH; [by apply scanned_step|lia].
Qed.

Lemma scanned_start : scanned 0 [id].
Proof.
  split; [apply NoDup_singleton|left| | |].
  - intros x ->%list_elem_of_singleton. constructor.
  - intros j q _ ?. lia.
  - intros x ->%list_elem_of_singleton. by left.
Qed.
End Remove.

Lemma erase_all_lookup ids i k :
  erase_all ids i !! k = if decide (k ∈ ids) then None else i !! k.
Proof.
  unfold erase_all. revert i; induction ids as [|x ids IH]; intros i; cbn [foldl].
  { rewrite decide_False; [done|]. apply not_elem_of_nil. }
  rewrite IH. destruct (decide (k = x)) as [->|Hne].
  - rewrite lookup_delete_eq, (decide_True _ _ (list_elem_of_here x ids)). by case_decide.
  - rewrite lookup_delete_ne by done. do 2 case_decide; set_solver.
Qed.

Lemma remove_spec id db h :
  keyed (index db) -> ranked (index db) -> head db = Some h ->
  (desc (index db) id (b_id h) /\ remove id db = (Throw fork_database_exception, db))
  \/ (~ desc (index db) id (b_id h)
      /\ exists i', remove id db = (Ok tt, set_index i' db)
         /\ forall k b, i' !! k = Some b <-> index db !! k = Some b /\ ~ desc (index db) id k).
Proof.
  intros Hk Hr Hh. unfold remove, bind, get_state, lift, put_state. rewrite Hh.
  pose proof (remove_scan_spec (index db) Hk Hr id (b_id h) (S (size (index db))) 0 [id]
                (scanned_start _ _ _) ltac:(lia)) as Hs.
  destruct (remove_scan _ _ _ _ _) as [queue|e].
  - right. destruct Hs as [Hq Hn]. split; [done|]. eexists. split; [done|]. intros k b.
    rewrite erase_all_lookup. case_decide as Hd; rewrite Hq in Hd; naive_solver.
  - left. by destruct Hs as [-> Hd].
Qed.

(** remove takes out exactly the given block and every block built on it,
    and nothing else; when the head is among them it throws and leaves the
    database untouched. *)
Theorem remove_exact id db h :
  keyed (index db) -> ranked (index db) -> head db = Some h ->
  (desc (index db) id (b_id h) /\ remove id db = (Throw fork_database_exception, db))
  \/ (~ desc (index db) id (b_id h)
      /\ exists i', remove id db = (Ok tt, set_index i' db)
         /\ keyed i' /\ ranked i'
         /\ forall k b, i' !! k = Some b <-> index db !! k = Some b /\ ~ desc (index db) id k).
Proof.
  intros Hk Hr Hh. destruct (remove_spec id db h Hk Hr Hh) as [?|(Hn & i' & E & Hi)]; [by left|].
  right. split; [done|]. exists i'. split; [done|]. split; [|split; [|done]].
  - intros k b [Hb _]%Hi. auto.
  - intros k b p [Hb _]%Hi [Hp _]%Hi. eauto.
Qed.

(** ** Branches *)

(** The tree hangs below the root. *)
Record tree (i : gmap digest_type block_state) (r : block_state) : Prop := mk_tree {
  tr_keyed : keyed i;
  tr_ranked : ranked i;
  tr_linked : linked i r;
  tr_root : i !! b_id r = None;
  tr_above : forall k b, i !! k = Some b -> b_num r < b_num b
}.

(** [branch i r k l]: the blocks from [k] down to the root, the root excluded. *)
Inductive branch (i : gmap digest_type block_state) (r : block_state)
    : digest_type -> list block_state -> Prop :=
| branch_root : branch i r (b_id r) []
| branch_cons k b l : i !! k = Some b -> branch i r (b_prev b) l -> branch i r k (b :: l).

Section Tree.
Context (i : gmap digest_type block_state) (r : block_state) (Ht : tree i r).

Lemma branch_exists k b : i !! k = Some b -> exists l, branch i r k (b :: l).
Proof.
  remember (Z.to_nat (b_num b - b_num r)) as n eqn:En. revert k b En.
  induction n as [n IH] using lt_wf_ind. intros k b En Hk.
  pose proof (tr_above _ _ Ht _ _ Hk) as Hb.
  destruct (tr_linked _ _ Ht _ _ Hk) as [[Hp _]|[p Hp]].
  - exists []. econstructor; [done|]. rewrite Hp. constructor.
  - pose proof (tr_ranked _ _ Ht _ _ _ Hk Hp). pose proof (tr_above _ _ Ht _ _ Hp).
    destruct (IH (Z.to_nat (b_num p - b_num r)) ltac:(lia) _ p eq_refl Hp) as [l Hl].
    exists (p :: l). by econstructor.
Qed.

Lemma branch_inv k l :
  branch i r k l -> (k = b_id r /\ l = []) \/ exists b l', l = b :: l' /\ i !! k = Some b /\ branch i r (b_prev b) l'.
Proof. destruct 1; [by left|right; eauto]. Qed.

Lemma branch_unique k l1 l2 : branch i r k l1 -> branch i r k l2 -> l1 = l2.
Proof.
  intros H1. revert l2. induction H1 as [|k b l Hk _ IH]; intros l2 H2; apply branch_inv in H2.
  - destruct H2 as [[_ ->]|(b & l' & _ & Hb & _)]; [done|]. by rewrite (tr_root _ _ Ht) in Hb.
  - destruct H2 as [[-> _]|(b' & l' & -> & Hb & H2)]; [by rewrite (tr_root _ _ Ht) in Hk|].
    rewrite Hk in Hb. injection Hb as <-. f_equal. auto.
Qed.

(** The number of a block is its distance from the root. *)
Lemma branch_num k b l : branch i r k (b :: l) -> b_num b = b_num r + Z.of_nat (length (b :: l)).
Proof.
  revert k b; induction l as [|p l IH]; intros k b Hb; apply branch_inv in Hb as [[_ ?]|(b' & l' & [= <- <-] & Hk & Hp)];
    try done.
  - apply branch_inv in Hp as [[Hp _]|(? & ? & ? & _)]; [|done].
    destruct (tr_linked _ _ Ht _ _ Hk) as [[_ ->]|[p Hp']]; [cbn; lia|].
    rewrite Hp, (tr_root _ _ Ht) in Hp'. done.
  - pose proof (IH _ _ Hp) as IHp. apply branch_inv in Hp as [[_ ?]|(p' & l' & [= <- <-] & Hp & _)]; [done|].
    rewrite (tr_ranked _ _ Ht _ _ _ Hk Hp), IHp. cbn [length]. lia.
Qed.

Lemma branch_suffix k l1 b l2 : branch i r k (l1 ++ b :: l2) -> branch i r (b_id b) (b :: l2).
Proof.
  revert k; induction l1 as [|x l1 IH]; intros k Hb; cbn [app] in Hb.
  - pose proof Hb as Hb'. apply branch_inv in Hb' as [[_ ?]|(b' & l' & [= <- <-] & Hk & _)]; [done|].
    by rewrite (tr_keyed _ _ Ht _ _ Hk).
  - apply branch_inv in Hb as [[_ ?]|(b' & l' & [= <- <-] & _ & Hp)]; [done|]. eauto.
Qed.

Lemma branch_elem k l x : branch i r k l -> x ∈ l -> i !! b_id x = Some x.
Proof.
  intros Hb Hx. apply list_elem_of_split in Hx as (l1 & l2 & ->).
  apply branch_suffix, branch_inv in Hb as [[_ ?]|(b & l & [= <- <-] & Hk & _)]; done.
Qed.

Lemma branch_descending k l : branch i r k l -> StronglySorted (fun x y => b_num y < b_num x) l.
Proof.
  induction 1 as [|k b l Hk Hb IH]; constructor; [done|].
  apply Forall_forall. intros x Hx. apply list_elem_of_split in Hx as (l1 & l2 & ->).
  pose proof (branch_num _ _ _ (branch_cons _ _ _ _ _ Hk Hb)) as E1.
  pose proof (branch_num _ _ _ (branch_suffix _ _ _ _ Hb)) as E2.
  cbn [length] in *. rewrite length_app in E1. cbn [length] in E1. lia.
Qed.

Lemma branch_length k l : branch i r k l -> (length l <= size i)%nat.
Proof.
  intros Hb. rewrite <- length_map_to_list, <- (length_fmap snd). fold (blocks i).
  apply submseteq_length, NoDup_submseteq.
  - pose proof (branch_descending _ _ Hb) as Hs. clear Hb.
    induction Hs as [|x l' Hs IH Hall]; constructor; [|done].
    intros Hx. rewrite Forall_forall in Hall. specialize (Hall x Hx). lia.
  - intros x Hx. apply elem_of_blocks. exists (b_id x). by eapply branch_elem.
Qed.

Lemma branch_loop_spec k l fuel :
  branch i r k l -> (length l <= fuel)%nat -> branch_loop fuel i (i !! k) = Ok l.
Proof.
  intros Hb. revert fuel. induction Hb as [|k b l Hk _ IH]; intros fuel Hf.
  - rewrite (tr_root _ _ Ht). by destruct fuel.
  - rewrite Hk. destruct fuel as [|fuel]; cbn [length branch_loop] in *; [lia|].
    by rewrite IH by lia.
Qed.

Lemma search_loop_spec k l fuel num :
  branch i r k l -> (length l <= fuel)%nat ->
  search_loop fuel i (i !! k) num = Ok (snd <$> list_find (fun b => b_num b = num) l).
Proof.
  intros Hb. revert fuel. induction Hb as [|k b l Hk _ IH]; intros fuel Hf.
  - rewrite (tr_root _ _ Ht). by destruct fuel.
  - rewrite Hk. cbn [list_find]. destruct fuel as [|fuel]; cbn [length search_loop] in *; [lia|].
    destruct (Z.eqb_spec (b_num b) num) as [E|E].
    + by rewrite decide_True.
    + rewrite decide_False by done. rewrite IH by lia. by destruct (list_find _ l) as [[]|].
Qed.

(** [b] is the root or the block stored under [k]. *)
Definition node_at (k : digest_type) (b : block_state) : Prop := (k = b_id r /\ b = r) \/ i !! k = Some b.

Lemma node_at_prev k b : i !! k = Some b ->
  exists p, root_or_block i r (b_prev b) = Ok p /\ node_at (b_prev b) p /\ b_num b = b_num p + 1.
Proof.
  intros Hk. unfold root_or_block, node_at. case_bool_decide as Hp.
  - exists r. split; [done|]. split; [by left|].
    destruct (tr_linked _ _ Ht _ _ Hk) as [[_ ?]|[p Hp']]; [done|].
    rewrite Hp, (tr_root _ _ Ht) in Hp'. done.
  - destruct (tr_linked _ _ Ht _ _ Hk) as [[? _]|[p Hp']]; [done|]. rewrite Hp'. exists p.
    split; [done|]. split; [by right|]. by eapply tr_ranked.
Qed.

Lemma level_loop_spec k l b num fuel :
  branch i r k l -> node_at k b -> b_num r <= num -> (length l <= fuel)%nat ->
  exists passed rest k' b', level_loop fuel i r b num = Ok (passed, b')
    /\ l = passed ++ rest /\ branch i r k' rest /\ node_at k' b'
    /\ b_num b' = Z.min (b_num b) num /\ (b_num b <= num -> passed = [])
    /\ Forall (fun x => num < b_num x) passed.
Proof.
  intros Hb. revert b fuel. induction Hb as [|k x l Hk Hb IH]; intros b fuel Hat Hnum Hf.
  - destruct Hat as [[_ ->]|Hat]; [|by rewrite (tr_root _ _ Ht) in Hat].
    exists [], [], (b_id r), r. destruct fuel; cbn [level_loop];
      (destruct (Z.ltb_spec num (b_num r)); [lia|]); (split; [done|]); (split; [done|]);
      (split; [constructor|]); (split; [by left|]); (split; [lia|]); done.
  - destruct Hat as [[-> _]|Hat]; [by rewrite (tr_root _ _ Ht) in Hk|].
    rewrite Hk in Hat. injection Hat as ->.
    destruct fuel as [|fuel]; cbn [length] in Hf; [lia|]. cbn [level_loop].
    destruct (Z.ltb_spec num (b_num b)) as [Hlt|Hge].
    + destruct (node_at_prev k b Hk) as (p & -> & Hp & Hn). cbn [res_bind].
      destruct (IH p fuel Hp Hnum ltac:(lia)) as (passed & rest & k' & b' & -> & -> & Hr & Hat & Hm & _ & Hall).
      cbn [res_bind]. exists (b :: passed), rest, k', b'. split; [done|]. split; [done|].
      split; [done|]. split; [done|]. split; [lia|]. split; [lia|]. by constructor.
    + exists [], (b :: l), k, b. split; [done|]. split; [done|]. split; [by econstructor|].
      split; [by right|]. split; [lia|]. done.
Qed.

Lemma node_at_num k b l : branch i r k l -> node_at k b -> b_num b = b_num r + Z.of_nat (length l).
Proof.
  intros Hb Hat. pose proof Hb as Hb'. apply branch_inv in Hb' as [[-> ->]|(b' & l' & -> & Hk & _)].
  - destruct Hat as [[_ ->]|Hat]; [cbn; lia|]. by rewrite (tr_root _ _ Ht) in Hat.
  - destruct Hat as [[-> _]|Hat]; [by rewrite (tr_root _ _ Ht) in Hk|]. rewrite Hk in Hat.
    injection Hat as ->. by apply branch_num in Hb.
Qed.

Lemma join_loop_spec k1 k2 b1 b2 l1 l2 fuel :
  branch i r k1 (b1 :: l1) -> branch i r k2 (b2 :: l2) -> length l1 = length l2 -> b1 <> b2 ->
  (length l1 <= fuel)%nat ->
  exists m1 m2 rest, join_loop fuel i b1 b2 = Ok (m1, m2)
    /\ b1 :: l1 = m1 ++ rest /\ b2 :: l2 = m2 ++ rest /\ (forall x, x ∈ m1 -> x ∉ m2).
Proof.
  revert k1 k2 b1 b2 l2 fuel. induction l1 as [|p1 l1 IH]; intros k1 k2 b1 b2 l2 fuel H1 H2 Hlen Hne Hf.
  all: pose proof H1 as B1; pose proof H2 as B2.
  all: apply branch_inv in B1 as [[_ ?]|(? & ? & [= <- <-] & Hk1 & B1)]; [done|].
  all: apply branch_inv in B2 as [[_ ?]|(? & ? & [= <- <-] & Hk2 & B2)]; [done|].
  - destruct l2; [|done]. apply branch_inv in B1 as [[E1 _]|(? & ? & ? & _)]; [|done].
    apply branch_inv in B2 as [[E2 _]|(? & ? & ? & _)]; [|done].
    exists [b1], [b2], []. destruct fuel; cbn [join_loop]; rewrite bool_decide_true by congruence;
      (split; [done|]); (split; [done|]); (split; [done|]); set_solver.
  - destruct l2 as [|p2 l2]; [done|]. injection Hlen as Hlen.
    pose proof B1 as C1. pose proof B2 as C2.
    apply branch_inv in C1 as [[_ ?]|(? & ? & [= <- <-] & Hp1 & _)]; [done|].
    apply branch_inv in C2 as [[_ ?]|(? & ? & [= <- <-] & Hp2 & _)]; [done|].
    destruct fuel as [|fuel]; cbn [length] in Hf; [lia|]. cbn [join_loop]. case_bool_decide as Hp.
    + exists [b1], [b2], (p1 :: l1). split; [done|]. split; [done|]. rewrite <- Hp in B2.
      rewrite (branch_unique _ _ _ B1 B2). split; [done|]. set_solver.
    + rewrite Hp1, Hp2.
      assert (p1 <> p2) as Hpp.
      { intros ->. by rewrite <- (tr_keyed _ _ Ht _ _ Hp1), <- (tr_keyed _ _ Ht _ _ Hp2) in Hp. }
      destruct (IH _ _ p1 p2 l2 fuel B1 B2 Hlen Hpp ltac:(lia)) as (m1 & m2 & rest & -> & E1 & E2 & Hd).
      cbn [res_bind]. exists (b1 :: m1), (b2 :: m2), rest. split; [done|].
      split; [cbn; by rewrite E1|]. split; [cbn; by rewrite E2|].
      pose proof (branch_descending _ _ H1) as D1. pose proof (branch_descending _ _ H2) as D2.
      apply StronglySorted_inv in D1 as [_ D1]. apply StronglySorted_inv in D2 as [_ D2].
      rewrite E1 in D1. rewrite E2 in D2. apply Forall_app in D1 as [D1 _]. apply Forall_app in D2 as [D2 _].
      rewrite Forall_forall in D1, D2.
      pose proof (branch_num _ _ _ H1) as N1. pose proof (branch_num _ _ _ H2) as N2.
      cbn [length] in N1, N2. rewrite Hlen in N1.
      intros x Hx1 Hx2. apply elem_of_cons in Hx1, Hx2.
      destruct Hx1 as [->|Hx1], Hx2 as [->|Hx2]; try done.
      * specialize (D2 _ Hx2). cbn in D2. lia.
      * specialize (D1 _ Hx1). cbn in D1. lia.
      * by apply (Hd x).
Qed.
Lemma node_at_id k m : node_at k m -> k = b_id m.
Proof. intros [[-> ->]|Hk]; [done|]. by rewrite (tr_keyed _ _ Ht _ _ Hk). Qed.

Lemma node_at_branch k n : node_at k n -> root_or_block i r k = Ok n /\ exists l, branch i r k l.
Proof.
  intros [[-> ->]|Hk]; unfold root_or_block.
  - rewrite bool_decide_true by done. split; [done|]. exists []. constructor.
  - rewrite bool_decide_false by (intros ->; by rewrite (tr_root _ _ Ht) in Hk). rewrite Hk.
    split; [done|]. destruct (branch_exists _ _ Hk) as [l Hl]. eauto.
Qed.

Lemma node_at_cons k m a l : branch i r k (a :: l) -> node_at k m -> a = m.
Proof.
  intros Hb Hm. apply branch_inv in Hb as [[_ ?]|(? & ? & [= <- <-] & Hk & _)]; [done|].
  destruct Hm as [[-> _]|Hm]; [by rewrite (tr_root _ _ Ht) in Hk|congruence].
Qed.

Lemma branch_below k b l : branch i r k (b :: l) -> Forall (fun x => b_num x <= b_num b) (b :: l).
Proof.
  intros Hb. apply branch_descending, StronglySorted_inv in Hb as [_ Hb].
  constructor; [lia|]. eapply Forall_impl; [exact Hb|]. cbn. lia.
Qed.

(** The last loop on two different nodes of the same height. *)
Lemma join_levelled k1 k2 m1 m2 A B :
  branch i r k1 A -> branch i r k2 B -> node_at k1 m1 -> node_at k2 m2 ->
  length A = length B -> b_id m1 <> b_id m2 ->
  exists q1 q2 rest, join_loop (size i) i m1 m2 = Ok (q1, q2)
    /\ A = q1 ++ rest /\ B = q2 ++ rest /\ (forall x, x ∈ q1 -> x ∉ q2)
    /\ Forall (fun x => b_num x <= b_num m1) (q1 ++ q2).
Proof.
  intros HA HB Hm1 Hm2 Hlen Hne.
  destruct A as [|a A]; destruct B as [|b B]; try done.
  { apply branch_inv in HA as [[-> _]|(? & ? & ? & _)]; [|done].
    apply branch_inv in HB as [[-> _]|(? & ? & ? & _)]; [|done].
    by rewrite <- (node_at_id _ _ Hm1), <- (node_at_id _ _ Hm2) in Hne. }
  pose proof (node_at_cons _ _ _ _ HA Hm1). pose proof (node_at_cons _ _ _ _ HB Hm2). subst a b.
  injection Hlen as Hlen.
  pose proof (branch_num _ _ _ HA) as N1. pose proof (branch_num _ _ _ HB) as N2. cbn [length] in N1, N2.
  destruct (join_loop_spec k1 k2 m1 m2 A B (size i)) as (q1 & q2 & rest & E & EA & EB & Hd);
    [done|done|done|by intros ->| |].
  { apply branch_length in HA. cbn [length] in HA. lia. }
  pose proof (branch_below _ _ _ HA) as L1. pose proof (branch_below _ _ _ HB) as L2.
  rewrite EA in L1. rewrite EB in L2. apply Forall_app in L1 as [L1 _]. apply Forall_app in L2 as [L2 _].
  exists q1, q2, rest. do 4 (split; [done|]). apply Forall_app. split; [done|].
  eapply Forall_impl; [exact L2|]. cbn. lia.
Qed.
End Tree.

Lemma fetch_branch_spec db r h l trim :
  tree (index db) r -> branch (index db) r h l ->
  fetch_branch db h trim = Ok (filter (fun b => b_num b <= trim) l).
Proof.
  intros Ht Hl. unfold fetch_branch, get_block.
  rewrite (branch_loop_spec _ _ Ht _ _ _ Hl); [done|]. by eapply branch_length.
Qed.

(** fetch_branch terminates and returns the chain of blocks linking [h] to
    the root (the root excluded), highest first, without the blocks above
    [trim_after_block_num]; for an id that is not in the database the branch is
    empty and nothing is thrown. *)
Theorem fetch_branch_ok db r h trim :
  tree (index db) r ->
  (exists l, branch (index db) r h l /\ StronglySorted (fun x y => b_num y < b_num x) l
     /\ fetch_branch db h trim = Ok (filter (fun b => b_num b <= trim) l))
  \/ (index db !! h = None /\ fetch_branch db h trim = Ok []).
Proof.
  intros Ht. destruct (index db !! h) as [b|] eqn:Eh.
  - left. destruct (branch_exists _ _ Ht _ _ Eh) as [l Hl]. exists (b :: l).
    split; [done|]. split; [by eapply branch_descending | by eapply fetch_branch_spec].
  - right. split; [done|]. unfold fetch_branch, get_block. rewrite Eh. by destruct (size (index db)).
Qed.

(** search_on_branch terminates and finds the block of a given number on the
    branch of [h] exactly when the number lies between the root's (excluded) and
    that of [h]: it is then the block that many links below [h]. *)
Theorem search_on_branch_ok db r h b num :
  tree (index db) r -> index db !! h = Some b ->
  exists l, branch (index db) r h l
    /\ search_on_branch db h num
       = Ok (if (b_num r <? num) && (num <=? b_num b) then l !! Z.to_nat (b_num b - num) else None)
    /\ (b_num r < num <= b_num b -> is_Some (l !! Z.to_nat (b_num b - num))).
Proof.
  intros Ht Hh. destruct (branch_exists _ _ Ht _ _ Hh) as [l Hl]. exists (b :: l). split; [done|].
  pose proof (branch_num _ _ Ht _ _ _ Hl) as Hnum.
  assert (forall j x, (b :: l) !! j = Some x -> b_num x = b_num b - Z.of_nat j) as Hpos.
  { intros j x Hj. pose proof (take_drop_middle _ _ _ Hj) as Esplit.
    pose proof Hl as Hl'. rewrite <- Esplit in Hl'. apply branch_suffix in Hl'; [|done].
    pose proof (branch_num _ _ Ht _ _ _ Hl') as Hx. cbn [length] in Hx.
    rewrite length_drop in Hx. apply lookup_lt_Some in Hj. cbn [length] in *. lia. }
  unfold search_on_branch, get_block.
  rewrite (search_loop_spec _ _ Ht _ _ _ _ Hl) by (by eapply branch_length). split.
  - destruct (list_find _ (b :: l)) as [[j x]|] eqn:Ef; cbn [fmap option_fmap option_map snd].
    + apply list_find_Some in Ef as (Hj & Hx & _). pose proof (Hpos _ _ Hj). pose proof (lookup_lt_Some _ _ _ Hj).
      cbn [length] in *. destruct (Z.ltb_spec (b_num r) num), (Z.leb_spec num (b_num b)); try lia.
      cbn [andb]. replace (Z.to_nat (b_num b - num)) with j by lia. by rewrite Hj.
    + apply list_find_None in Ef. destruct (_ && _) eqn:Er; [|done]. bprop.
      destruct ((b :: l) !! Z.to_nat (b_num b - num)) as [x|] eqn:Ex; [|done].
      apply (Forall_lookup_1 _ _ _ _ Ef) in Ex as Hne. apply Hpos in Ex. lia.
  - intros Hr. apply lookup_lt_is_Some. cbn [length] in *. lia.
Qed.

Lemma fetch_branch_from_spec db r first second n1 n2 :
  root db = Some r -> tree (index db) r ->
  node_at (index db) r first n1 -> node_at (index db) r second n2 ->
  exists l1 l2 common, fetch_branch_from db first second = Ok (l1, l2)
    /\ branch (index db) r first (l1 ++ common)
    /\ branch (index db) r second (l2 ++ common)
    /\ (forall b, b ∈ l1 -> b ∉ l2).
Proof.
  intros Hroot Ht H1 H2. set (i := index db) in *.
  destruct (node_at_branch _ _ Ht _ _ H1) as [E1 [A Ha]]. destruct (node_at_branch _ _ Ht _ _ H2) as [E2 [B Hb]].
  unfold fetch_branch_from. rewrite Hroot. fold i. rewrite E1, E2. cbn [res_bind].
  pose proof (node_at_num _ _ Ht _ _ _ Ha H1) as N1. pose proof (node_at_num _ _ Ht _ _ _ Hb H2) as N2.
  destruct (level_loop_spec _ _ Ht _ _ _ (b_num n2) (size i) Ha H1) as
    (p1 & A' & k1 & m1 & -> & -> & HA & Hm1 & Q1 & P1 & F1); [lia|by eapply branch_length|].
  cbn [res_bind].
  destruct (level_loop_spec _ _ Ht _ _ _ (b_num m1) (size i) Hb H2) as
    (p2 & B' & k2 & m2 & -> & -> & HB & Hm2 & Q2 & P2 & F2); [lia|by eapply branch_length|].
  cbn [res_bind].
  assert (forall x, x ∈ p1 -> x ∉ p2) as Hp.
  { intros x Hx1 Hx2. destruct (Z.le_gt_cases (b_num n1) (b_num n2)) as [Hle|Hgt].
    - rewrite (P1 Hle) in Hx1. by apply elem_of_nil in Hx1.
    - rewrite P2 in Hx2 by lia. by apply elem_of_nil in Hx2. }
  pose proof (node_at_num _ _ Ht _ _ _ HA Hm1) as M1. pose proof (node_at_num _ _ Ht _ _ _ HB Hm2) as M2.
  case_bool_decide as Hsame.
  - exists p1, p2, A'. split; [done|]. split; [done|]. split; [|done].
    assert (B' = A') as ->; [|done]. apply (branch_unique _ _ Ht k1); [|done].
    by rewrite (node_at_id _ _ Ht _ _ Hm1), Hsame, <- (node_at_id _ _ Ht _ _ Hm2).
  - destruct (join_levelled _ _ Ht k1 k2 m1 m2 A' B') as (q1 & q2 & rest & -> & -> & -> & Hd & Hq); try done; [lia|].
    cbn [res_bind]. exists (p1 ++ q1), (p2 ++ q2), rest. rewrite app_assoc in Ha, Hb.
    do 3 (split; [done|]). apply Forall_app in Hq as [Hq1 Hq2]. rewrite Forall_forall in F1, F2, Hq1, Hq2.
    intros x [Hx1|Hx1]%elem_of_app [Hx2|Hx2]%elem_of_app; [by apply (Hp x)| | |by apply (Hd x)].
    + specialize (F1 _ Hx1). specialize (Hq2 _ Hx2). cbn in *. lia.
    + specialize (F2 _ Hx2). specialize (Hq1 _ Hx1). cbn in *. lia.
Qed.

(** fetch_branch_from terminates and splits the branches of two known blocks
    at their last common ancestor: the first branch is [l1] followed by a common
    part, the second is [l2] followed by the same part, and [l1] and [l2] have
    no block in common, also when one block is an ancestor of the other or is
    the root. *)
Theorem fetch_branch_from_ok db r first second n1 n2 :
  root db = Some r -> tree (index db) r ->
  node_at (index db) r first n1 -> node_at (index db) r second n2 ->
  exists l1 l2 common, fetch_branch_from db first second = Ok (l1, l2)
    /\ branch (index db) r first (l1 ++ common)
    /\ branch (index db) r second (l2 ++ common)
    /\ (forall b, b ∈ l1 -> b ∉ l2).
Proof. apply fetch_branch_from_spec. Qed.

(** ** The invariant of the database *)

(** The head is the root, or a validated block of the tree; no validated block
    is preferred to it. *)
Definition head_ok (i : gmap digest_type block_state) (r h : block_state) : Prop :=
  (bsh h = bsh r \/ exists h', i !! b_id h = Some h' /\ bsh h' = bsh h /\ validated h' = true)
  /\ forall k b, i !! k = Some b -> validated b = true -> first_preferred b h = false.

Definition fork_ok (db : fork_database) : Prop :=
  exists r h, root db = Some r /\ head db = Some h /\ tree (index db) r /\ head_ok (index db) r h.

(** [n] extends the database: it is not the root, and its number follows its
    predecessor's, as block_header_state::next guarantees. *)
Definition extends (db : fork_database) (n : block_state) : Prop :=
  forall r, root db = Some r -> b_id n <> b_id r
    /\ (b_prev n = b_id r -> b_num n = b_num r + 1)
    /\ (forall p, index db !! b_prev n = Some p -> b_num n = b_num p + 1).

Lemma first_preferred_neg_trans a b c :
  first_preferred a b = false -> first_preferred b c = false -> first_preferred a c = false.
Proof.
  unfold first_preferred.
  destruct (Z.ltb_spec (b_lib b) (b_lib a)), (Z.eqb_spec (b_lib a) (b_lib b)), (Z.ltb_spec (b_num b) (b_num a)),
    (Z.ltb_spec (b_lib c) (b_lib b)), (Z.eqb_spec (b_lib b) (b_lib c)), (Z.ltb_spec (b_num c) (b_num b)),
    (Z.ltb_spec (b_lib c) (b_lib a)), (Z.eqb_spec (b_lib a) (b_lib c)), (Z.ltb_spec (b_num c) (b_num a));
    cbn [andb orb]; done || lia.
Qed.

Lemma first_preferred_trans a b c :
  first_preferred a b = true -> first_preferred b c = true -> first_preferred a c = true.
Proof.
  unfold first_preferred.
  destruct (Z.ltb_spec (b_lib b) (b_lib a)), (Z.eqb_spec (b_lib a) (b_lib b)), (Z.ltb_spec (b_num b) (b_num a)),
    (Z.ltb_spec (b_lib c) (b_lib b)), (Z.eqb_spec (b_lib b) (b_lib c)), (Z.ltb_spec (b_num c) (b_num b)),
    (Z.ltb_spec (b_lib c) (b_lib a)), (Z.eqb_spec (b_lib a) (b_lib c)), (Z.ltb_spec (b_num c) (b_num a));
    cbn [andb orb]; done || lia.
Qed.

Lemma lib_begin_Some i k b : i !! k = Some b -> exists c, lib_begin i = Some c.
Proof.
  intros Hk. destruct (lib_begin i) eqn:E; [eauto|]. apply lib_first_None in E.
  assert (b ∈ blocks i) as Hb by (apply elem_of_blocks; eauto). rewrite E in Hb. by apply elem_of_nil in Hb.
Qed.

(** The pending head is the head, or a block that is not validated and is
    preferred to it; in both cases no block left to validate is preferred to it. *)
Lemma pending_head_spec db h : keyed (index db) -> head db = Some h ->
  exists n, pending_head db = Ok (Some n)
    /\ (n = h \/ (index db !! b_id n = Some n /\ validated n = false /\ first_preferred n h = true))
    /\ forall k b, index db !! k = Some b -> validated b = false -> first_preferred b n = false.
Proof.
  intros Hk Hh. unfold pending_head. destruct (lib_lower_bound_false (index db)) as [n|] eqn:E; rewrite Hh.
  - apply lib_first_spec in E as [[Hv [k Hn]%elem_of_blocks]%list_elem_of_filter Hmin].
    assert (forall k b, index db !! k = Some b -> validated b = false -> first_preferred b n = false) as Hbest.
    { intros k' b Hb Hvb. assert (lib_before b n = false) as Hlb.
      { apply Hmin, list_elem_of_filter. split; [done|]. apply elem_of_blocks. eauto. }
      unfold lib_before in Hlb. rewrite Hv, Hvb in Hlb. cbn [andb negb orb eqb] in Hlb. bprop. done. }
    destruct (first_preferred n h) eqn:Hp.
    + exists n. split; [done|]. split; [|done]. right. by rewrite (Hk _ _ Hn).
    + exists h. split; [done|]. split; [by left|]. intros k' b Hb Hvb.
      eapply first_preferred_neg_trans; [by eapply Hbest|done].
  - apply lib_first_None in E. exists h. split; [done|]. split; [by left|]. intros k b Hb Hv. exfalso.
    assert (b ∈ filter (fun b => validated b = false) (blocks (index db))) as Hin
      by (apply list_elem_of_filter; split; [done|]; apply elem_of_blocks; eauto).
    rewrite E in Hin. by apply elem_of_nil in Hin.
Qed.

(** A validated first element is a good head. *)
Lemma head_ok_begin i r c :
  keyed i -> lib_begin i = Some c -> validated c = true -> head_ok i r c.
Proof.
  intros Hk Hc Hv. apply lib_begin_valid in Hc as [[k Hkc] Hbest]. split.
  - right. exists c. by rewrite (Hk _ _ Hkc).
  - intros k' b Hb Hvb. by apply (Hbest k' b).
Qed.

Lemma tree_insert db r n :
  root db = Some r -> tree (index db) r -> extends db n -> index db !! b_id n = None ->
  b_prev n = b_id r \/ is_Some (index db !! b_prev n) ->
  tree (<[b_id n := n]> (index db)) r.
Proof.
  intros Hroot [Hk Hr Hl Ho Ha] Hext Hnew Hprev. destruct (Hext r Hroot) as (Hne & Hnr & Hnp).
  assert (forall k c, index db !! k = Some c -> b_prev c <> b_id n) as Hch.
  { intros k c Hc E. destruct (Hl _ _ Hc) as [[E' _]|[p Hp]]; [congruence|]. by rewrite E, Hnew in Hp. }
  assert (b_prev n <> b_id n) as Hself.
  { intros E. destruct Hprev as [Hp|[p Hp]]; [congruence|]. by rewrite E, Hnew in Hp. }
  split.
  - intros k b [[<- <-]|[_ Hb]]%lookup_insert_Some; [done|auto].
  - intros k b p [[<- <-]|[_ Hb]]%lookup_insert_Some.
    + rewrite lookup_insert_ne by done. auto.
    + rewrite lookup_insert_ne by (intros E; by apply (Hch _ _ Hb)). eauto.
  - intros k b [[<- <-]|[_ Hb]]%lookup_insert_Some.
    + destruct Hprev as [Hp|Hp]; [left; auto|right]. by rewrite lookup_insert_ne.
    + destruct (Hl _ _ Hb) as [?|Hp]; [by left|right].
      rewrite lookup_insert_ne; [done|]. intros E. by apply (Hch _ _ Hb).
  - by rewrite lookup_insert_ne.
  - intros k b [[<- <-]|[_ Hb]]%lookup_insert_Some; [|eauto].
    destruct Hprev as [Hp|[p Hp]]; [rewrite Hnr by done; lia|]. rewrite (Hnp p Hp). specialize (Ha _ _ Hp). lia.
Qed.

(** [add] on every path. *)
Lemma add_spec n ignore_duplicate db r h :
  root db = Some r -> head db = Some h -> tree (index db) r -> head_ok (index db) r h -> extends db n ->
  (add (Some n) ignore_duplicate db = (Throw unlinkable_block_exception, db)
     /\ b_prev n <> b_id r /\ index db !! b_prev n = None)
  \/ (is_Some (index db !! b_id n)
      /\ add (Some n) ignore_duplicate db
         = (if ignore_duplicate then Ok tt else Throw fork_database_exception, db))
  \/ (index db !! b_id n = None
      /\ exists h', add (Some n) ignore_duplicate db
           = (Ok tt, mk_fork_db (<[b_id n := n]> (index db)) (Some r) (Some h'))
         /\ tree (<[b_id n := n]> (index db)) r /\ head_ok (<[b_id n := n]> (index db)) r h'
         /\ (h' = h \/ validated h' = true)).
Proof.
  intros Hroot Hhead Ht Hh Hext.
  unfold add, add_impl, bind, get_state, lift, get_block_header, put_state, ret. rewrite Hroot.
  rewrite bool_decide_true by done. cbn [eos_assert].
  destruct (decide (b_prev n = b_id r \/ is_Some (index db !! b_prev n))) as [Hprev|Hno].
  2:{ left. rewrite bool_decide_false by (intros E; apply Hno; by left).
      destruct (index db !! b_prev n) eqn:E; [destruct Hno; right; eauto|]. split; [done|].
      split; [|done]. intros Ep. apply Hno. by left. }
  right. assert (exists p, (if bool_decide (b_id r = b_prev n) then Some r else index db !! b_prev n) = Some p) as [p ->].
  { case_bool_decide; [eauto|]. destruct Hprev as [?|[p ?]]; [congruence|eauto]. }
  case_bool_decide as Hdup; [left; split; [done|]; by destruct ignore_duplicate|].
  apply eq_None_not_Some in Hdup. right. split; [done|]. set (i' := <[b_id n := n]> (index db)).
  assert (tree i' r) as Ht' by (by apply tree_insert).
  destruct (lib_begin_Some i' (b_id n) n (lookup_insert_eq _ _ _)) as [c Hc]. rewrite Hc.
  destruct (validated c) eqn:Hv.
  - exists c. split; [done|]. split; [done|]. split; [apply head_ok_begin; [apply Ht'|done|done]|by right].
  - exists h. split; [by rewrite Hhead|]. split; [done|]. split; [|by left].
    apply lib_begin_valid in Hc as [_ Hbest].
    assert (forall k b, i' !! k = Some b -> validated b = true -> False) as Hnone.
    { intros k b Hb Hvb. destruct (Hbest k b Hb Hvb). congruence. }
    split; [|intros k b Hb Hvb; by destruct (Hnone k b)].
    destruct Hh as [[?|(h' & Hi & _ & Hvh)] _]; [by left|]. exfalso. apply (Hnone (b_id h) h'); [|done].
    unfold i'. rewrite lookup_insert_ne; [done|]. congruence.
Qed.

Lemma bsh_eq x y : bsh x = bsh y -> b_id x = b_id y /\ b_prev x = b_prev y /\ b_num x = b_num y.
Proof. unfold b_id, b_prev, b_num. by intros ->. Qed.

Lemma tree_validated i r k b v :
  tree i r -> i !! k = Some b -> tree (<[k := set_validated v b]> i) r.
Proof.
  intros [Hk Hr Hl Ho Ha] Hb.
  assert (forall k' x, <[k := set_validated v b]> i !! k' = Some x ->
            exists y, i !! k' = Some y /\ bsh x = bsh y) as Hback.
  { intros k' x [[<- <-]|[_ Hx]]%lookup_insert_Some; eauto. }
  assert (forall k', is_Some (i !! k') -> is_Some (<[k := set_validated v b]> i !! k')) as Hfwd.
  { intros k' Hs. apply lookup_insert_is_Some'. by right. }
  split.
  - intros k' x Hx. destruct (Hback _ _ Hx) as (y & Hy & E). rewrite <- (Hk _ _ Hy). unfold b_id. by rewrite E.
  - intros k' x p Hx Hp. destruct (Hback _ _ Hx) as (y & Hy & E). destruct (Hback _ _ Hp) as (q & Hq & E').
    apply bsh_eq in E as (_ & Ep & En). apply bsh_eq in E' as (_ & _ & En'). rewrite En, En'. eapply Hr; [done|].
    by rewrite <- Ep.
  - intros k' x Hx. destruct (Hback _ _ Hx) as (y & Hy & E). apply bsh_eq in E as (_ & Ep & En). rewrite Ep, En.
    destruct (Hl _ _ Hy) as [?|?]; [by left|right; auto].
  - rewrite lookup_insert_ne; [done|]. intros ->. by rewrite Ho in Hb.
  - intros k' x Hx. destruct (Hback _ _ Hx) as (y & Hy & E). apply bsh_eq in E as (_ & _ & En). rewrite En. eauto.
Qed.

Lemma mark_valid_spec x db r h b :
  root db = Some r -> head db = Some h -> tree (index db) r -> head_ok (index db) r h ->
  validated x = false -> index db !! b_id x = Some b ->
  let i' := <[b_id x := set_validated true b]> (index db) in
  exists h', mark_valid x db = (Ok tt, mk_fork_db i' (Some r) (Some h')) /\ tree i' r /\ head_ok i' r h'
    /\ (h' = h \/ (i' !! b_id h' = Some h' /\ validated h' = true /\ first_preferred h' h = true)).
Proof.
  intros Hroot Hhead Ht [Hwhere Hbest] Hx Hb i'.
  unfold mark_valid, bind, get_state, put_state, lift, ret, set_index. rewrite Hx, Hb, Hroot, Hhead. fold i'.
  assert (tree i' r) as Ht' by (by apply tree_validated).
  destruct (lib_begin_Some i' (b_id x) _ (lookup_insert_eq _ _ _)) as [c Hc]. rewrite Hc.
  assert (validated c = true) as Hvc.
  { pose proof Hc as Hc'. apply lib_begin_valid in Hc' as [_ Hbc].
    by destruct (Hbc (b_id x) _ (lookup_insert_eq _ _ _) eq_refl). }
  destruct (first_preferred c h) eqn:Hp.
  - exists c. split; [done|]. split; [done|]. split; [apply head_ok_begin; [apply Ht'|done|done]|right].
    apply lib_begin_valid in Hc as [[k Hkc] _]. by rewrite (tr_keyed _ _ Ht' _ _ Hkc).
  - exists h. split; [done|]. split; [done|]. split; [|by left]. split.
    + destruct Hwhere as [?|(h' & Hi & Hs & Hv)]; [by left|right].
      destruct (decide (b_id x = b_id h)) as [E|Hne].
      * exists (set_validated true b). unfold i'. rewrite E, lookup_insert_eq. split; [done|].
        rewrite E, Hi in Hb. injection Hb as <-. done.
      * exists h'. unfold i'. by rewrite lookup_insert_ne.
    + intros k y Hy Hv. apply lib_begin_valid in Hc as [_ Hbc].
      destruct (Hbc k y Hy Hv) as [_ Hyc]. by eapply first_preferred_neg_trans.
Qed.

(** ** advance_root *)

Lemma desc_mono i i' a k : (forall k b, i' !! k = Some b -> i !! k = Some b) -> desc i' a k -> desc i a k.
Proof. intros Hsub. induction 1; [constructor|]. eapply desc_step; eauto. Qed.

(** Removing the blocks built on [id] does not cut any other branch. *)
Lemma desc_survives i i' id a k :
  (forall k b, i' !! k = Some b <-> i !! k = Some b /\ ~ desc i id k) -> ~ desc i id k ->
  desc i a k -> desc i' a k.
Proof.
  intros Hi Hn Hd. induction Hd as [|k b Hk Hd IH]; [constructor|].
  apply (desc_step i' a k b); [by apply Hi|]. apply IH. intros Hp. apply Hn. by eapply desc_step.
Qed.

Lemma set_index_set_index i1 i2 db : set_index i1 (set_index i2 db) = set_index i1 db.
Proof. done. Qed.

Lemma remove_all_spec ids db h :
  keyed (index db) -> ranked (index db) -> head db = Some h ->
  ((forall a, a ∈ ids -> ~ desc (index db) a (b_id h))
   /\ exists i', for_each ids remove db = (Ok tt, set_index i' db)
      /\ forall k b, i' !! k = Some b <-> index db !! k = Some b /\ forall a, a ∈ ids -> ~ desc (index db) a k)
  \/ ((exists a, a ∈ ids /\ desc (index db) a (b_id h))
      /\ exists db', for_each ids remove db = (Throw fork_database_exception, db')).
Proof.
  revert db; induction ids as [|id ids IH]; intros db Hk Hr Hh.
  { left. split; [intros a Ha; by apply elem_of_nil in Ha|]. exists (index db). split; [by destruct db|].
    intros k b. split; [|by intros []]. intros ?. split; [done|]. intros a Ha. by apply elem_of_nil in Ha. }
  cbn [for_each]. unfold bind.
  destruct (remove_spec id db h Hk Hr Hh) as [[Hd ->]|(Hn & i1 & -> & Hi1)].
  { right. split; [|eauto]. exists id. split; [left|done]. }
  assert (forall k b, i1 !! k = Some b -> index db !! k = Some b) as Hsub by (intros k b Hb; by apply Hi1 in Hb as []).
  destruct (IH (set_index i1 db)) as [[Hno (i' & E & Hi')]|[(a & Ha & Hd) (db' & E)]].
  - intros k b Hb. eauto.
  - intros k b p Hb Hp. eauto.
  - done.
  - left. cbn [index set_index] in *. split.
    + intros a [->|Ha]%elem_of_cons; [done|]. intros Hd. apply (Hno a Ha). by eapply desc_survives.
    + exists i'. split; [done|]. intros k b. rewrite Hi', Hi1. split.
      * intros [[Hb Hid] Hrest]. split; [done|]. intros a [->|Ha]%elem_of_cons; [done|].
        intros Hd. apply (Hrest a Ha). by eapply desc_survives.
      * intros [Hb Hall]. split; [split; [done|]; apply Hall; left|].
        intros a Ha Hd. apply (Hall a); [by right|]. by eapply desc_mono.
  - right. split; [|eauto]. exists a. split; [by right|]. by eapply desc_mono.
Qed.

Lemma ancestors_loop_spec i r k b l fuel :
  tree i r -> branch i r k (b :: l) -> (length (b :: l) <= fuel)%nat ->
  ancestors_loop fuel i (b_id r) b = Ok (b_prev <$> b :: l) /\ b_id r ∈ b_prev <$> b :: l.
Proof.
  intros Ht. revert k b fuel. induction l as [|p l IH]; intros k b fuel Hb Hf.
  all: apply branch_inv in Hb as [[_ ?]|(? & ? & [= <- <-] & Hk & Hp)]; [done|].
  all: destruct fuel as [|fuel]; cbn [length] in Hf; [lia|]; cbn [ancestors_loop].
  - apply branch_inv in Hp as [[E _]|(? & ? & ? & _)]; [|done].
    rewrite fmap_cons, E, (tr_root _ _ Ht), bool_decide_true by done. split; [done|left].
  - destruct (IH _ p fuel Hp ltac:(cbn; lia)) as [E Hin].
    apply branch_inv in Hp as [[_ ?]|(? & ? & [= <- <-] & Hp & _)]; [done|].
    rewrite Hp, E. split; [done|]. rewrite fmap_cons. by right.
Qed.

Section Advance.
Context (i : gmap digest_type block_state) (r nr : block_state) (id : digest_type).
Context (Ht : tree i r) (Hid : i !! id = Some nr).

(** Without [id], a block leads to the root, or it was built on [id]. *)
Lemma cut_at k : desc i (b_id r) k -> desc (delete id i) (b_id r) k \/ desc i id k.
Proof.
  induction 1 as [|k b Hk _ IH]; [left; constructor|].
  destruct (decide (k = id)) as [->|Hne]; [right; constructor|].
  destruct IH as [Hd|Hd]; [left|right]; eapply desc_step; try done. by rewrite lookup_delete_ne.
Qed.

(** Blocks built on [id] no longer lead to a proper ancestor of it. *)
Lemma above_cut l a k :
  branch i r id (nr :: l) -> a ∈ b_prev <$> nr :: l -> desc (delete id i) a k -> desc i id k -> False.
Proof.
  intros Hb Ha Hd. induction Hd as [|k b Hk Hd IH]; intros Hik.
  - apply list_elem_of_fmap in Ha as (x & -> & Hx).
    pose proof (branch_below _ _ Ht _ _ _ Hb) as Hle. rewrite Forall_forall in Hle. specialize (Hle x Hx).
    pose proof (branch_elem _ _ Ht _ _ _ Hb Hx) as Hxi. cbn in Hle.
    destruct (i !! b_prev x) as [p|] eqn:Ep.
    + pose proof (tr_ranked _ _ Ht _ _ _ Hxi Ep).
      destruct (desc_rank _ _ _ _ _ (tr_ranked _ _ Ht) Hik Hid Ep) as [E|Hlt]; [|lia].
      rewrite E, Hid in Ep. injection Ep as <-. lia.
    + apply desc_outside in Hik; [|done]. congruence.
  - apply lookup_delete_Some in Hk as [Hne Hk]. destruct Hik as [|k b' Hk' Hd']; [done|].
    rewrite Hk in Hk'. injection Hk' as <-. auto.
Qed.

Lemma tree_desc_root k b : i !! k = Some b -> desc i (b_id r) k.
Proof.
  intros Hk. destruct (branch_exists _ _ Ht _ _ Hk) as [l Hl]. revert Hl. generalize (b :: l). clear.
  induction 1 as [|k b l Hk _ IH]; [constructor|by eapply desc_step].
Qed.

Lemma tree_below i' :
  (forall k b, i' !! k = Some b <-> i !! k = Some b /\ k <> id /\ desc i id k) -> tree i' nr.
Proof.
  intros Hi. assert (b_id nr = id) as Hnr by (by apply (tr_keyed _ _ Ht)). split.
  - intros k b (Hb & _)%Hi. by apply (tr_keyed _ _ Ht).
  - intros k b p (Hb & _)%Hi (Hp & _)%Hi. by apply (tr_ranked _ _ Ht) with k.
  - intros k b (Hb & Hne & Hd)%Hi. destruct Hd as [|k b' Hb' Hd]; [done|].
    rewrite Hb in Hb'. injection Hb' as <-. destruct (decide (b_prev b = id)) as [E|Hp].
    + left. rewrite Hnr. split; [done|]. apply (tr_ranked _ _ Ht k); [done|]. by rewrite E.
    + right. destruct (i !! b_prev b) as [p|] eqn:Ep.
      * exists p. apply Hi. done.
      * by apply desc_outside in Hd.
  - rewrite Hnr. destruct (i' !! id) as [b|] eqn:E; [|done]. by apply Hi in E as (_ & ? & _).
  - intros k b (Hb & Hne & Hd)%Hi.
    destruct (desc_rank _ _ _ _ _ (tr_ranked _ _ Ht) Hd Hid Hb); [done|lia].
Qed.
End Advance.

(** [advance_root] to a validated block: it succeeds exactly when the head is
    that block or built on it. *)
Lemma advance_root_spec id db r h nr :
  root db = Some r -> head db = Some h -> tree (index db) r -> head_ok (index db) r h ->
  index db !! id = Some nr -> validated nr = true ->
  (desc (index db) id (b_id h)
   /\ exists i', advance_root id db = (Ok tt, mk_fork_db i' (Some nr) (Some h))
      /\ (forall k b, i' !! k = Some b <-> index db !! k = Some b /\ k <> id /\ desc (index db) id k)
      /\ tree i' nr /\ head_ok i' nr h)
  \/ (~ desc (index db) id (b_id h)
      /\ exists db', advance_root id db = (Throw fork_database_exception, db')).
Proof.
  intros Hroot Hhead Ht [Hwhere Hbest] Hid Hv. set (i := index db) in *.
  destruct (branch_exists _ _ Ht _ _ Hid) as [l Hl].
  destruct (ancestors_loop_spec i r id nr l (size i) Ht Hl) as [Eanc Hrin]; [by eapply branch_length|].
  assert (keyed (delete id i)) as Hk1.
  { intros k b [_ Hb]%lookup_delete_Some. by apply (tr_keyed _ _ Ht). }
  assert (ranked (delete id i)) as Hr1.
  { intros k b p [_ Hb]%lookup_delete_Some [_ Hp]%lookup_delete_Some. by apply (tr_ranked _ _ Ht) with k. }
  pose proof (remove_all_spec (b_prev <$> nr :: l) (set_index (delete id i) db) h Hk1 Hr1 Hhead) as Hrem.
  cbn [index set_index] in Hrem.
  unfold advance_root, bind, get_state, get_block, lift, put_state, modify. rewrite Hroot. fold i.
  rewrite Hid, Hv. cbn [eos_assert]. rewrite Eanc.
  destruct Hrem as [[Hno (i' & -> & Hi')]|[(a & Ha & Hd) (db' & ->)]].
  - left. assert (desc i id (b_id h)) as Hdh.
    { destruct Hwhere as [E|(h' & Hh & _)].
      - apply bsh_eq in E as (E & _). rewrite E in Hno. destruct (Hno _ Hrin). constructor.
      - destruct (cut_at i r id (b_id h) (tree_desc_root _ _ Ht _ _ Hh)) as [Hc|Hc]; [|done].
        by destruct (Hno _ Hrin). }
    assert (forall k b, i' !! k = Some b <-> i !! k = Some b /\ k <> id /\ desc i id k) as Hchar.
    { intros k b. rewrite Hi', lookup_delete_Some. split.
      - intros [[Hne Hb] Hall]. split; [done|]. split; [done|].
        destruct (cut_at i r id k (tree_desc_root _ _ Ht _ _ Hb)) as [Hc|Hc]; [|done]. by destruct (Hall _ Hrin).
      - intros (Hb & Hne & Hd). split; [done|]. intros a Ha Hc. by eapply (above_cut i r nr id Ht Hid l a k). }
    split; [done|]. exists i'. split; [cbn; by rewrite Hhead|]. split; [done|].
    split; [by eapply tree_below|]. split.
    + destruct Hwhere as [E|(h' & Hh & Hs & Hvh)].
      * apply bsh_eq in E as (E & _). rewrite E in Hdh. apply desc_outside in Hdh; [|apply Ht].
        rewrite <- Hdh, (tr_root _ _ Ht) in Hid. done.
      * destruct (decide (b_id h = id)) as [E|Hne]; [left; congruence|]. right. exists h'.
        split; [by apply Hchar|done].
    + intros k b (Hb & _)%Hchar. eauto.
  - right. split; [|eauto]. intros Hdh. by eapply (above_cut i r nr id Ht Hid l a (b_id h)).
Qed.

(** advancing the root to a validated block succeeds exactly when the head
    is that block or built on it; afterwards the root is that block, the head is
    unchanged and the database holds exactly the blocks built on the new root. *)
Theorem advance_root_exact id db nr :
  fork_ok db -> index db !! id = Some nr -> validated nr = true ->
  exists r h, root db = Some r /\ head db = Some h
  /\ ((desc (index db) id (b_id h)
       /\ exists i', advance_root id db = (Ok tt, mk_fork_db i' (Some nr) (Some h))
          /\ forall k b, i' !! k = Some b <-> index db !! k = Some b /\ k <> id /\ desc (index db) id k)
      \/ (~ desc (index db) id (b_id h) /\ fst (advance_root id db) = Throw fork_database_exception)).
Proof.
  intros (r & h & Hr & Hh & Ht & Hok) Hid Hv. exists r, h. split; [done|]. split; [done|].
  destruct (advance_root_spec id db r h nr Hr Hh Ht Hok Hid Hv) as [(Hd & i' & E & Hi & _)|(Hn & db' & E)].
  - left. eauto.
  - right. by rewrite E.
Qed.

(** ** Reachable databases *)

(** The head is the validated block [id] or built on it. *)
Definition below_head (db : fork_database) (id : digest_type) : Prop :=
  forall b h, index db !! id = Some b -> validated b = true -> head db = Some h -> desc (index db) id (b_id h).

(** One operation of the database's interface, whether it returns or throws: the
    blocks that are added follow their predecessors, and the root is only
    advanced along the branch of the head. *)
Inductive fork_step (db : fork_database) : fork_database -> Prop :=
| step_reset bhs o db' : reset bhs db = (o, db') -> fork_step db db'
| step_rollback o db' : rollback_head_to_root db = (o, db') -> fork_step db db'
| step_add n ignore_duplicate o db' :
    (forall b, n = Some b -> extends db b) -> add n ignore_duplicate db = (o, db') -> fork_step db db'
| step_remove id o db' : remove id db = (o, db') -> fork_step db db'
| step_mark_valid x o db' : mark_valid x db = (o, db') -> fork_step db db'
| step_advance_root id o db' : below_head db id -> advance_root id db = (o, db') -> fork_step db db'.

Inductive fork_reachable (bhs : block_header_state) : fork_database -> Prop :=
| reach_start db0 db : reset bhs db0 = (Ok tt, db) -> fork_reachable bhs db
| reach_step db db' : fork_reachable bhs db -> fork_step db db' -> fork_reachable bhs db'.

Lemma fork_ok_reset bhs : fork_ok (mk_fork_db ∅ (Some (mk_block_state bhs true)) (Some (mk_block_state bhs true))).
Proof.
  eexists _, _. split; [done|]. split; [done|]. split.
  - split; repeat intros ?; try done.
  - split; [by left|]. intros k b Hb. done.
Qed.

Lemma fork_ok_rollback db r : root db = Some r -> tree (index db) r ->
  fork_ok (mk_fork_db (set_validated false <$> index db) (root db) (root db)).
Proof.
  intros Hroot [Hk Hr Hl Ho Ha]. exists r, r. split; [done|]. split; [done|].
  assert (forall k x, (set_validated false <$> index db) !! k = Some x ->
            exists y, index db !! k = Some y /\ bsh x = bsh y /\ validated x = false) as Hback.
  { intros k x Hx. rewrite lookup_fmap in Hx. apply fmap_Some in Hx as (y & Hy & ->). eauto. }
  cbn [index]. split.
  - split.
    + intros k x Hx. destruct (Hback _ _ Hx) as (y & Hy & E & _). apply bsh_eq in E as (-> & _). auto.
    + intros k x p Hx Hp. destruct (Hback _ _ Hx) as (y & Hy & E & _). destruct (Hback _ _ Hp) as (q & Hq & E' & _).
      apply bsh_eq in E as (_ & Ep & ->). apply bsh_eq in E' as (_ & _ & ->). eapply Hr; [done|]. by rewrite <- Ep.
    + intros k x Hx. destruct (Hback _ _ Hx) as (y & Hy & E & _). apply bsh_eq in E as (_ & -> & ->).
      rewrite lookup_fmap, fmap_is_Some. by eapply Hl.
    + by rewrite lookup_fmap, Ho.
    + intros k x Hx. destruct (Hback _ _ Hx) as (y & Hy & E & _). apply bsh_eq in E as (_ & _ & ->). eauto.
  - split; [by left|]. intros k x Hx Hv. destruct (Hback _ _ Hx) as (_ & _ & _ & ?). congruence.
Qed.

Lemma fork_ok_remove id db o db' : fork_ok db -> remove id db = (o, db') -> fork_ok db'.
Proof.
  intros Hok Hrem. pose proof Hok as (r & h & Hroot & Hhead & [Hk Hr Hl Ho Ha] & [Hw Hbest]).
  destruct (remove_spec id db h Hk Hr Hhead) as [[_ E]|(Hn & i' & E & Hi)]; rewrite E in Hrem; [by injection Hrem as _ <-|].
  injection Hrem as _ <-. exists r, h. split; [done|]. split; [done|]. cbn [index set_index].
  assert (forall k b, i' !! k = Some b -> index db !! k = Some b) as Hsub by (intros k b Hb; by apply Hi in Hb as []).
  split.
  - split.
    + intros k b Hb. auto.
    + intros k b p Hb Hp. eauto.
    + intros k b Hb. pose proof Hb as Hb'. apply Hi in Hb' as [Hb' Hnd].
      destruct (Hl _ _ Hb') as [?|[p Hp]]; [by left|right]. exists p. apply Hi. split; [done|].
      intros Hd. apply Hnd. by eapply desc_step.
    + destruct (i' !! b_id r) eqn:E'; [|done]. apply Hsub in E'. congruence.
    + eauto.
  - split; [|eauto]. destruct Hw as [?|(h' & Hh & ?)]; [by left|right]. exists h'. split; [by apply Hi|done].
Qed.

Lemma fork_ok_add n ign db o db' :
  fork_ok db -> (forall b, n = Some b -> extends db b) -> add n ign db = (o, db') -> fork_ok db'.
Proof.
  intros Hok Hext E. pose proof Hok as (r & h & Hr & Hh & Ht & Hk). destruct n as [n|].
  - destruct (add_spec n ign db r h Hr Hh Ht Hk (Hext n eq_refl)) as [(E' & _)|[(_ & E')|(_ & h' & E' & Ht' & Hk' & _)]];
      rewrite E' in E; injection E as _ <-; [done|done|by exists r, h'].
  - unfold add, add_impl, bind, get_state, lift in E. rewrite Hr in E. by injection E as _ <-.
Qed.

Lemma fork_ok_mark_valid x db o db' : fork_ok db -> mark_valid x db = (o, db') -> fork_ok db'.
Proof.
  intros Hok E. unfold mark_valid in E. destruct (validated x) eqn:Hx; [by injection E as _ <-|]. fold (mark_valid x) in E.
  pose proof Hok as (r & h & Hr & Hh & Ht & Hk). destruct (index db !! b_id x) as [b|] eqn:Hb.
  - destruct (mark_valid_spec x db r h b Hr Hh Ht Hk Hx Hb) as (h' & E' & Ht' & Hk' & _).
    unfold mark_valid in E'. rewrite Hx in E'. rewrite E' in E. injection E as _ <-. by exists r, h'.
  - unfold bind, get_state, lift in E. rewrite Hb in E. by injection E as _ <-.
Qed.

Lemma fork_ok_advance_root id db o db' :
  fork_ok db -> below_head db id -> advance_root id db = (o, db') -> fork_ok db'.
Proof.
  intros Hok Hbelow E. pose proof Hok as (r & h & Hr & Hh & Ht & Hk).
  destruct (index db !! id) as [nr|] eqn:Hid; [destruct (validated nr) eqn:Hv|].
  - destruct (advance_root_spec id db r h nr Hr Hh Ht Hk Hid Hv) as [(_ & i' & E' & _ & Ht' & Hk')|(Hn & _)];
      [|by destruct Hn; apply (Hbelow nr h)].
    rewrite E' in E. injection E as _ <-. by exists nr, h.
  - unfold advance_root, bind, get_state, get_block, lift in E. rewrite Hr, Hid, Hv in E. by injection E as _ <-.
  - unfold advance_root, bind, get_state, get_block, lift in E. rewrite Hr, Hid in E. by injection E as _ <-.
Qed.

Lemma fork_ok_step db db' : fork_ok db -> fork_step db db' -> fork_ok db'.
Proof.
  intros Hok Hs. destruct Hs as [bhs o db' E|o db' E|n ign o db' Hext E|id o db' E|x o db' E|id o db' Hb E].
  - injection E as _ <-. apply fork_ok_reset.
  - injection E as _ <-. destruct Hok as (r & h & Hr & _ & Ht & _). by eapply fork_ok_rollback.
  - by eapply fork_ok_add.
  - by eapply fork_ok_remove.
  - by eapply fork_ok_mark_valid.
  - by eapply fork_ok_advance_root.
Qed.

Lemma fork_ok_reachable bhs db : fork_reachable bhs db -> fork_ok db.
Proof.
  induction 1 as [db0 db E|db db' _ IH Hs].
  - injection E as <-. apply fork_ok_reset.
  - by eapply fork_ok_step.
Qed.

(** C3: the fork database stays well formed under every sequence of operations
    from a reset, those that throw included, as long as each block added has the
    number after its predecessor's and another id than the root, and the root is
    only advanced to a block from which the head is reached: the root and the
    head are set, every stored block is linked to the root by a branch whose
    length is the difference of their numbers, the head is the root or a
    validated block of the tree, and no validated block has a higher irreversible
    number, or the same one and a higher number, than the head.  The condition on
    advance_root is needed: see [advance_root_leaves_orphans]. *)
Theorem fork_reachable_ok bhs db :
  fork_reachable bhs db ->
  exists r h, root db = Some r /\ head db = Some h
    /\ (forall k b, index db !! k = Some b -> b_id b = k
          /\ exists l, branch (index db) r k (b :: l) /\ b_num b = b_num r + Z.of_nat (length (b :: l)))
    /\ (b_id h = b_id r \/ exists h', index db !! b_id h = Some h' /\ validated h' = true)
    /\ (forall k b, index db !! k = Some b -> validated b = true -> first_preferred b h = false).
Proof.
  intros Hreach. destruct (fork_ok_reachable _ _ Hreach) as (r & h & Hr & Hh & Ht & [Hw Hbest]).
  exists r, h. split; [done|]. split; [done|]. split.
  - intros k b Hb. split; [by apply (tr_keyed _ _ Ht)|].
    destruct (branch_exists _ _ Ht _ _ Hb) as [l Hl]. exists l. split; [done|]. by eapply branch_num.
  - split; [|done]. destruct Hw as [E|(h' & Hi & _ & Hv)]; [left|right; eauto]. by apply bsh_eq in E as (-> & _).
Qed.

(** adding a block either fails without any effect, on an unlinkable block
    or a duplicate, or stores it and moves the head to the best validated block;
    it never touches the root or the other blocks. *)
Theorem add_ok n ignore_duplicate db :
  fork_ok db -> extends db n ->
  (fst (add (Some n) ignore_duplicate db) <> Ok tt /\ snd (add (Some n) ignore_duplicate db) = db)
  \/ (ignore_duplicate = true /\ is_Some (index db !! b_id n)
      /\ add (Some n) ignore_duplicate db = (Ok tt, db))
  \/ exists h', add (Some n) ignore_duplicate db
         = (Ok tt, mk_fork_db (<[b_id n := n]> (index db)) (root db) (Some h'))
      /\ index db !! b_id n = None
      /\ (validated n = true -> first_preferred n h' = false)
      /\ (forall k b, index db !! k = Some b -> validated b = true -> first_preferred b h' = false).
Proof.
  intros (r & h & Hr & Hh & Ht & Hk) Hext.
  destruct (add_spec n ignore_duplicate db r h Hr Hh Ht Hk Hext)
    as [(E & _)|[(Hdup & E)|(Hnew & h' & E & _ & [_ Hbest] & _)]]; rewrite E.
  - left. done.
  - destruct ignore_duplicate; [right; left|left]; done.
  - right; right. exists h'. rewrite Hr. split; [done|]. split; [done|]. split.
    + apply (Hbest (b_id n)), lookup_insert_eq.
    + intros k b Hb. apply (Hbest k). rewrite lookup_insert_ne; [done|]. congruence.
Qed.

End ForkDatabase.

(** ** A concrete tree

    The root is block 5 with id (50); blocks (60) and (61) follow it, (70)
    follows (60), (71) follows (61). *)

Definition toy_id (n : Z) : digest_type := mk_digest n 0 0 0.

Definition toy_block (n prev num lib : Z) (v : bool) : block_state (fc := toy_fc) :=
  mk_block_state (fc := toy_fc)
    (mk_bhs (fc := toy_fc)
       (mk_common num lib lib toy_schedule empty_incremental_merkle ∅ ∅ (110 : @public_key toy_fc) [])
       (toy_id n)
       (mk_signed_header (@mk_header Z num 10 0 (toy_id prev) digest_zero digest_zero 0 None []) null_signature)
       (mk_schedule_info 0 digest_zero toy_schedule) ∅ [])
    v.

Definition toy_root : block_state (fc := toy_fc) := toy_block 50 40 5 3 true.

(** Whether a block extends a database, decidably. *)
Definition extends_check (db : fork_database (fc := toy_fc)) (n : block_state (fc := toy_fc)) : bool :=
  match root db with
  | None => true
  | Some r =>
      negb (bool_decide (b_id n = b_id r))
      && (negb (bool_decide (b_prev n = b_id r)) || (b_num n =? b_num r + 1))
      && match index db !! b_prev n with Some p => b_num n =? b_num p + 1 | None => true end
  end.

Lemma extends_check_ok db n : extends_check db n = true -> extends db n.
Proof.
  unfold extends_check. intros Hc r Hr. rewrite Hr in Hc. bprop. split; [done|]. split.
  - intros E. apply orb_true_iff in H1 as [H1|H1]; bprop; done.
  - intros p Hp. rewrite Hp in H0. bprop. done.
Qed.

(** Runs an operation that returns normally. *)
Definition run {A} (m : exec (fork_database (fc := toy_fc)) A) (db : fork_database) : fork_database := snd (m db).

Lemma run_ok m db :
  is_ok (fst (m db)) = true -> m db = (Ok tt, run m db).
Proof. unfold run. destruct (m db) as [[[]|e] d]; done. Qed.

Ltac fork_steps :=
  repeat match goal with
  | |- fork_reachable _ (run (add (Some ?n) ?d) ?db) =>
      apply (reach_step _ db); [|apply (step_add _ (Some n) d (Ok tt)); [intros ? [= <-]; apply extends_check_ok; vm_compute; reflexivity
                                                         |apply run_ok; vm_compute; reflexivity]]
  | |- fork_reachable _ (run (mark_valid ?x) ?db) =>
      apply (reach_step _ db); [|apply (step_mark_valid _ x (Ok tt)), run_ok; vm_compute; reflexivity]
  | |- fork_reachable _ (run (reset _) ?db) =>
      apply (reach_start _ db), run_ok; vm_compute; reflexivity
  end.

Definition toy_db0 : fork_database (fc := toy_fc) := run (reset (bsh toy_root)) (mk_fork_db ∅ None None).
Definition toy_db1 : fork_database (fc := toy_fc) := run (add (Some (toy_block 60 50 6 4 false)) false) toy_db0.
Definition toy_db2 : fork_database (fc := toy_fc) := run (add (Some (toy_block 61 50 6 4 false)) false) toy_db1.
Definition toy_db3 : fork_database (fc := toy_fc) := run (mark_valid (toy_block 61 50 6 4 false)) toy_db2.
Definition toy_db4 : fork_database (fc := toy_fc) := run (add (Some (toy_block 70 60 7 4 false)) false) toy_db3.
Definition toy_db5 : fork_database (fc := toy_fc) := run (add (Some (toy_block 71 61 7 4 false)) false) toy_db4.
(** The sibling of the head is validated too: a tie. *)
Definition toy_tie : fork_database (fc := toy_fc) := run (mark_valid (toy_block 60 50 6 4 false)) toy_db5.

Lemma toy_reachable : fork_reachable (bsh toy_root) toy_db5 /\ fork_reachable (bsh toy_root) toy_tie.
Proof.
  split; unfold toy_tie, toy_db5, toy_db4, toy_db3, toy_db2, toy_db1, toy_db0; fork_steps.
Qed.

Lemma toy_fork_ok : fork_ok toy_db5.
Proof. eapply fork_ok_reachable, toy_reachable. Qed.

Lemma toy_tree : tree (index toy_db5) toy_root.
Proof.
  destruct toy_fork_ok as (r & h & Hr & _ & Ht & _).
  assert (root toy_db5 = Some toy_root) as E by (vm_refl).
  rewrite E in Hr. injection Hr as <-. exact Ht.
Qed.

Lemma fork_reachable_ok_witness : exists r h, root toy_db5 = Some r /\ head toy_db5 = Some h.
Proof.
  destruct (fork_reachable_ok (bsh toy_root) toy_db5 (proj1 toy_reachable)) as (r & h & Hr & Hh & _).
  exists r, h. split; [exact Hr|exact Hh].
Defined.

(** Advancing the root to a validated block beside the head throws, but only after
    the block was erased: the block built on it, still stored, has lost its
    predecessor. *)
Example advance_root_leaves_orphans :
  fst (advance_root (toy_id 60) toy_tie) = Throw fork_database_exception
  /\ index (snd (advance_root (toy_id 60) toy_tie)) !! toy_id 60 = None
  /\ index (snd (advance_root (toy_id 60) toy_tie)) !! toy_id 70 = Some (toy_block 70 60 7 4 false).
Proof. split_and!; vm_refl. Qed.

Lemma fetch_branch_ok_witness :
  (exists l, branch (index toy_db5) toy_root (toy_id 71) l
     /\ StronglySorted (fun x y => b_num y < b_num x) l
     /\ fetch_branch toy_db5 (toy_id 71) 6 = Ok (filter (fun b => b_num b <= 6) l))
  \/ (index toy_db5 !! toy_id 71 = None /\ fetch_branch toy_db5 (toy_id 71) 6 = Ok []).
Proof. exact (fetch_branch_ok toy_db5 toy_root (toy_id 71) 6 toy_tree). Defined.

Lemma search_on_branch_ok_witness :
  exists l, branch (index toy_db5) toy_root (toy_id 71) l
    /\ search_on_branch toy_db5 (toy_id 71) 6 = Ok (l !! 1%nat).
Proof.
  destruct (search_on_branch_ok toy_db5 toy_root (toy_id 71) (toy_block 71 61 7 4 false) 6 toy_tree)
    as (l & Hl & Hs & _).
  - vm_refl.
  - exists l. split; [exact Hl|exact Hs].
Defined.

Lemma fetch_branch_from_ok_witness :
  exists l1 l2 common, fetch_branch_from toy_db5 (toy_id 71) (toy_id 70) = Ok (l1, l2)
    /\ branch (index toy_db5) toy_root (toy_id 71) (l1 ++ common)
    /\ branch (index toy_db5) toy_root (toy_id 70) (l2 ++ common)
    /\ (forall b, b ∈ l1 -> b ∉ l2).
Proof.
  apply (fetch_branch_from_ok toy_db5 toy_root (toy_id 71) (toy_id 70)
           (toy_block 71 61 7 4 false) (toy_block 70 60 7 4 false)).
  - vm_refl.
  - exact toy_tree.
  - right. vm_refl.
  - right. vm_refl.
Defined.

Lemma remove_exact_witness :
  (desc (index toy_db5) (toy_id 60) (toy_id 61)
     /\ remove (toy_id 60) toy_db5 = (Throw fork_database_exception, toy_db5))
  \/ (~ desc (index toy_db5) (toy_id 60) (toy_id 61)
      /\ exists i', remove (toy_id 60) toy_db5 = (Ok tt, set_index i' toy_db5)
         /\ keyed i' /\ ranked i'
         /\ forall k b, i' !! k = Some b <-> index toy_db5 !! k = Some b /\ ~ desc (index toy_db5) (toy_id 60) k).
Proof.
  apply (remove_exact (toy_id 60) toy_db5 (toy_block 61 50 6 4 true)).
  - apply toy_tree.
  - apply toy_tree.
  - vm_refl.
Defined.

Lemma advance_root_exact_witness :
  exists r h, root toy_db5 = Some r /\ head toy_db5 = Some h
  /\ ((desc (index toy_db5) (toy_id 61) (b_id h)
       /\ exists i', advance_root (toy_id 61) toy_db5 = (Ok tt, mk_fork_db i' (Some (toy_block 61 50 6 4 true)) (Some h))
          /\ forall k b, i' !! k = Some b
               <-> index toy_db5 !! k = Some b /\ k <> toy_id 61 /\ desc (index toy_db5) (toy_id 61) k)
      \/ (~ desc (index toy_db5) (toy_id 61) (b_id h)
          /\ fst (advance_root (toy_id 61) toy_db5) = Throw fork_database_exception)).
Proof.
  apply (advance_root_exact (toy_id 61) toy_db5 (toy_block 61 50 6 4 true)).
  - exact toy_fork_ok.
  - vm_refl.
  - reflexivity.
Defined.

Lemma add_ok_witness :
  exists h', add (Some (toy_block 80 70 8 5 true)) false toy_db5
    = (Ok tt, mk_fork_db (<[toy_id 80 := toy_block 80 70 8 5 true]> (index toy_db5)) (root toy_db5) (Some h')).
Proof.
  destruct (add_ok (toy_block 80 70 8 5 true) false toy_db5) as [[Hf _]|[[Hd _]|(h' & E & _)]].
  - exact toy_fork_ok.
  - apply extends_check_ok. vm_refl.
  - exfalso. apply Hf. vm_refl.
  - discriminate Hd.
  - exists h'. exact E.
Defined.

(** on a tie, [add] can move the head between two equally good validated
    blocks even though the block added is neither validated nor related to
    them: after both children of the root have been validated the head is the
    one validated first, and adding an unvalidated block makes it the one with
    the smaller id. *)
Theorem add_switches_head_on_tie :
  exists db n db' h h', fork_reachable (bsh toy_root) db
    /\ extends db n /\ validated n = false /\ add (Some n) false db = (Ok tt, db')
    /\ head db = Some h /\ head db' = Some h' /\ b_id h <> b_id h'
    /\ first_preferred h h' = false /\ first_preferred h' h = false
    /\ b_id n <> b_id h'.
Proof.
  exists toy_tie, (toy_block 72 61 7 4 false), (run (add (Some (toy_block 72 61 7 4 false)) false) toy_tie),
    (toy_block 61 50 6 4 true), (toy_block 60 50 6 4 true).
  split; [apply toy_reachable|]. split; [apply extends_check_ok; vm_refl|].
  split; [done|]. split; [apply run_ok; vm_refl|].
  split; [vm_refl|]. split; [vm_refl|]. done.
Qed.
