(* ===== verification/ProtocolFeatures.v ===== *)
(** Protocol features: libraries/chain/protocol_feature_manager.cpp and
    include/eosio/chain/protocol_feature_manager.hpp, with the parts of
    controller.cpp that check, pre-activate and activate features.

    [FeatureSet] is the set of recognized features: iterators into the std::set
    are the digests of the elements, [end()] is [None].  [Manager] is
    protocol_feature_manager: a vector of activations and, threaded through a
    vector indexed by codename, a linked list of them.  Time points are their
    microseconds.  fc's parsing of hexadecimal digests and the digest of a
    packed feature are parameters. *)

From Stdlib Require Import ZArith Lia.
From stdpp Require Import base gmap strings numbers sorting list.
From S2P Require Import Prelude Merkle.

Local Open Scope Z_scope.

Inductive builtin_protocol_feature_t : Set :=
| preactivate_feature
| only_link_to_existing_permission
| replace_deferred
| no_duplicate_deferred_id
| fix_linkauth_restriction
| disallow_empty_producer_schedule
| restrict_action_to_self
| only_bill_first_authorizer
| forward_setcode
| get_sender
| ram_restrictions.

#[export] Instance builtin_eq_dec : EqDecision builtin_protocol_feature_t.
Proof. solve_decision. Defined.

(** static_cast<uint32_t>( codename ) *)
Definition indx (c : builtin_protocol_feature_t) : nat :=
  match c with
  | preactivate_feature => 0
  | only_link_to_existing_permission => 1
  | replace_deferred => 2
  | no_duplicate_deferred_id => 3
  | fix_linkauth_restriction => 4
  | disallow_empty_producer_schedule => 5
  | restrict_action_to_self => 6
  | only_bill_first_authorizer => 7
  | forward_setcode => 8
  | get_sender => 9
  | ram_restrictions => 10
  end%nat.

#[export] Instance indx_inj : Inj (=) (=) indx.
Proof. by intros [] []. Qed.

Record protocol_feature_subjective_restrictions := mk_restrictions {
  sr_earliest_allowed_activation_time : Z;
  sr_preactivation_required : bool;
  sr_enabled : bool
}.

Record builtin_protocol_feature_spec := mk_spec {
  codename : string;
  spec_description_digest : string;
  builtin_dependencies : list builtin_protocol_feature_t;
  spec_restrictions : protocol_feature_subjective_restrictions
}.

(** The default of builtin_protocol_feature_spec::subjective_restrictions. *)
Definition default_restrictions : protocol_feature_subjective_restrictions := mk_restrictions 0 true true.

(** builtin_protocol_feature_codenames; it has an entry for every codename. *)
Definition builtin_protocol_feature_codenames (c : builtin_protocol_feature_t) : builtin_protocol_feature_spec :=
  match c with
  | preactivate_feature =>
      mk_spec "PREACTIVATE_FEATURE"
        "64fe7df32e9b86be2b296b3f81dfd527f84e82b98e363bc97e40bc7a83733310" [] (mk_restrictions 0 false true)
  | only_link_to_existing_permission =>
      mk_spec "ONLY_LINK_TO_EXISTING_PERMISSION"
        "f3c3d91c4603cde2397268bfed4e662465293aab10cd9416db0d442b8cec2949" [] default_restrictions
  | replace_deferred =>
      mk_spec "REPLACE_DEFERRED"
        "9908b3f8413c8474ab2a6be149d3f4f6d0421d37886033f27d4759c47a26d944" [] default_restrictions
  | no_duplicate_deferred_id =>
      mk_spec "NO_DUPLICATE_DEFERRED_ID"
        "45967387ee92da70171efd9fefd1ca8061b5efe6f124d269cd2468b47f1575a0" [replace_deferred] default_restrictions
  | fix_linkauth_restriction =>
      mk_spec "FIX_LINKAUTH_RESTRICTION"
        "a98241c83511dc86c857221b9372b4aa7cea3aaebc567a48604e1d3db3557050" [] default_restrictions
  | disallow_empty_producer_schedule =>
      mk_spec "DISALLOW_EMPTY_PRODUCER_SCHEDULE"
        "2853617cec3eabd41881eb48882e6fc5e81a0db917d375057864b3befbe29acd" [] default_restrictions
  | restrict_action_to_self =>
      mk_spec "RESTRICT_ACTION_TO_SELF"
        "e71b6712188391994c78d8c722c1d42c477cf091e5601b5cf1befd05721a57f3" [] default_restrictions
  | only_bill_first_authorizer =>
      mk_spec "ONLY_BILL_FIRST_AUTHORIZER"
        "2f1f13e291c79da5a2bbad259ed7c1f2d34f697ea460b14b565ac33b063b73e2" [] default_restrictions
  | forward_setcode =>
      mk_spec "FORWARD_SETCODE"
        "898082c59f921d0042e581f00a59d5ceb8be6f1d9c7a45b6f07c0e26eaee0222" [] default_restrictions
  | get_sender =>
      mk_spec "GET_SENDER"
        "1eab748b95a2e6f4d7cb42065bdee5566af8efddf01a55a0a8d831b823f8828a" [] default_restrictions
  | ram_restrictions =>
      mk_spec "RAM_RESTRICTIONS"
        "1812fdb5096fd854a4958eb9d53b43219d114de0e858ce00255bd46569ad2c68" [] default_restrictions
  end.

Definition builtin_protocol_feature_codename (c : builtin_protocol_feature_t) : string :=
  codename (builtin_protocol_feature_codenames c).

Definition all_builtins : list builtin_protocol_feature_t :=
  [preactivate_feature; only_link_to_existing_permission; replace_deferred; no_duplicate_deferred_id;
   fix_linkauth_restriction; disallow_empty_producer_schedule; restrict_action_to_self;
   only_bill_first_authorizer; forward_setcode; get_sender; ram_restrictions].

(** builtin_protocol_feature; its codename is set by reflector_init from the
    name when it is unpacked. *)
Record builtin_protocol_feature := mk_builtin {
  bf_codename : builtin_protocol_feature_t;
  bf_description_digest : digest_type;
  bf_dependencies : gset digest_type;
  bf_restrictions : protocol_feature_subjective_restrictions
}.

(** builtin_protocol_feature::reflector_init (with protocol_feature_base's) on
    the unpacked type and codename. *)
Definition builtin_reflector_init (protocol_feature_type builtin_feature_codename : string)
    : res builtin_protocol_feature_t :=
  assert! (String.eqb protocol_feature_type "builtin") else protocol_feature_validation_exception in
  match list_find (fun c => codename (builtin_protocol_feature_codenames c) = builtin_feature_codename)
          all_builtins with
  | Some (_, c) => Ok c
  | None => Throw protocol_feature_validation_exception
  end.

Record protocol_feature := mk_feature {
  feature_digest : digest_type;
  description_digest : digest_type;
  dependencies : gset digest_type;
  earliest_allowed_activation_time : Z;
  preactivation_required : bool;
  enabled : bool;
  builtin_feature : option builtin_protocol_feature_t
}.

Inductive recognized_t : Set := unrecognized | disabled | too_early | ready.

Module FeatureSet.

Record protocol_feature_set := mk_set {
  _recognized_protocol_features : gmap digest_type protocol_feature;
  _recognized_builtin_protocol_features : list (option digest_type)
}.

Definition empty_set : protocol_feature_set := mk_set ∅ [].

Definition is_recognized (s : protocol_feature_set) (d : digest_type) (now : Z) : recognized_t :=
  match _recognized_protocol_features s !! d with
  | None => unrecognized
  | Some f =>
      if negb (enabled f) then disabled
      else if now <? earliest_allowed_activation_time f then too_early
      else ready
  end.

Definition get_builtin_digest (s : protocol_feature_set) (c : builtin_protocol_feature_t) : option digest_type :=
  match _recognized_builtin_protocol_features s !! indx c with
  | Some (Some d) => Some d
  | _ => None
  end.

Definition get_protocol_feature (s : protocol_feature_set) (d : digest_type) : res protocol_feature :=
  match _recognized_protocol_features s !! d with
  | Some f => Ok f
  | None => Throw protocol_feature_exception
  end.

Definition validate_dependencies (s : protocol_feature_set) (d : digest_type)
    (validator : digest_type -> bool) : bool :=
  match _recognized_protocol_features s !! d with
  | None => false
  | Some f => forallb validator (elements (dependencies f))
  end.

Section Digests.
(** fc::variant( hex ).as<digest_type>() and the hash of a packed feature. *)
Context (hex_digest : string -> digest_type).
Context (feature_hash : digest_type -> gset digest_type -> builtin_protocol_feature_t -> digest_type).

(** builtin_protocol_feature::digest *)
Definition digest (f : builtin_protocol_feature) : digest_type :=
  feature_hash (bf_description_digest f) (bf_dependencies f) (bf_codename f).

Definition make_default_builtin_protocol_feature (c : builtin_protocol_feature_t)
    (handle_dependency : builtin_protocol_feature_t -> digest_type) : builtin_protocol_feature :=
  let spec := builtin_protocol_feature_codenames c in
  mk_builtin c (hex_digest (spec_description_digest spec))
    (list_to_set (handle_dependency <$> builtin_dependencies spec)) (spec_restrictions spec).

(** The dependencies among the expected builtins that a feature's dependencies
    cover. *)
Definition satisfied_builtin_dependencies (s : protocol_feature_set) (expected : list builtin_protocol_feature_t)
    (deps : gset digest_type) : list builtin_protocol_feature_t :=
  filter (fun c => existsb (fun d => match _recognized_protocol_features s !! d with
                                     | Some f => bool_decide (builtin_feature f = Some c)
                                     | None => false
                                     end) (elements deps) = true) expected.

Definition of_builtin (f : builtin_protocol_feature) : protocol_feature :=
  mk_feature (digest f) (bf_description_digest f) (bf_dependencies f)
    (sr_earliest_allowed_activation_time (bf_restrictions f))
    (sr_preactivation_required (bf_restrictions f)) (sr_enabled (bf_restrictions f)) (Some (bf_codename f)).

(** add_feature: the set with the feature; nothing is changed when it throws. *)
Definition add_feature (s : protocol_feature_set) (f : builtin_protocol_feature) : res protocol_feature_set :=
  let i := indx (bf_codename f) in
  let builtins := _recognized_builtin_protocol_features s in
  assert! (bool_decide (default None (builtins !! i) = None)) else protocol_feature_exception in
  let expected := builtin_dependencies (builtin_protocol_feature_codenames (bf_codename f)) in
  assert! (forallb (fun d => bool_decide (is_Some (_recognized_protocol_features s !! d)))
             (elements (bf_dependencies f))) else protocol_feature_exception in
  assert! (bool_decide (length expected <= length (satisfied_builtin_dependencies s expected (bf_dependencies f)))%nat)
    else protocol_feature_validation_exception in
  assert! (bool_decide (_recognized_protocol_features s !! digest f = None)) else protocol_feature_exception in
  let builtins := builtins ++ replicate (S i - length builtins) None in
  Ok (mk_set (<[digest f := of_builtin f]> (_recognized_protocol_features s))
        (<[i := Some (digest f)]> builtins)).

End Digests.

(** ** The invariant of the set *)

(** [d'] is a dependency of the recognized feature [d]. *)
Definition depends_on (s : protocol_feature_set) (d d' : digest_type) : Prop :=
  exists f, _recognized_protocol_features s !! d = Some f /\ d' ∈ dependencies f.

Record set_ok (s : protocol_feature_set) : Prop := {
  set_builtin : forall d f, _recognized_protocol_features s !! d = Some f ->
      feature_digest f = d /\ exists c, builtin_feature f = Some c /\ get_builtin_digest s c = Some d;
  set_vector : forall c d, get_builtin_digest s c = Some d ->
      exists f, _recognized_protocol_features s !! d = Some f /\ builtin_feature f = Some c;
  set_closed : forall d d', depends_on s d d' -> is_Some (_recognized_protocol_features s !! d');
  set_expected : forall d f c c', _recognized_protocol_features s !! d = Some f ->
      builtin_feature f = Some c -> c' ∈ builtin_dependencies (builtin_protocol_feature_codenames c) ->
      exists d', get_builtin_digest s c' = Some d' /\ d' ∈ dependencies f;
  set_acyclic : forall d, Acc (fun x y => depends_on s y x) d
}.

Lemma empty_set_ok : set_ok empty_set.
Proof.
  assert (forall d f, _recognized_protocol_features empty_set !! d = Some f -> False) as Hn
    by (intros d f; cbn; by rewrite lookup_empty).
  constructor.
  - intros d f E. by destruct (Hn d f).
  - intros c d E. done.
  - intros d d' (f & E & _). by destruct (Hn d f).
  - intros d f c c' E. by destruct (Hn d f).
  - intros d. constructor. intros d' (f & E & _). by destruct (Hn d f).
Qed.

(** When as many expected dependencies are satisfied as there are, all are. *)
Lemma satisfied_all s expected deps :
  (length expected <= length (satisfied_builtin_dependencies s expected deps))%nat ->
  forall c, c ∈ expected ->
    exists d f, d ∈ deps /\ _recognized_protocol_features s !! d = Some f /\ builtin_feature f = Some c.
Proof.
  unfold satisfied_builtin_dependencies. set (p := fun c => _ = true). intros Hlen c Hc.
  apply filter_length_all in Hlen. rewrite Forall_forall in Hlen.
  pose proof (Hlen c Hc) as Hp. unfold p in Hp.
  apply existsb_exists in Hp as (d & Hd & Hm). exists d.
  rewrite <- list_elem_of_In in Hd.
  destruct (_recognized_protocol_features s !! d) as [f|]; [|done]. bprop.
  exists f. split_and!; [set_solver | done | done].
Qed.

Section AddFeature.
Context (feature_hash : digest_type -> gset digest_type -> builtin_protocol_feature_t -> digest_type).
Abbreviation digest := (digest feature_hash).
Abbreviation add_feature := (add_feature feature_hash).

Definition added (s : protocol_feature_set) (f : builtin_protocol_feature) : protocol_feature_set :=
  let i := indx (bf_codename f) in
  let builtins := _recognized_builtin_protocol_features s in
  mk_set (<[digest f := of_builtin feature_hash f]> (_recognized_protocol_features s))
    (<[i := Some (digest f)]> (builtins ++ replicate (S i - length builtins) None)).

Lemma added_builtin s f c :
  get_builtin_digest (added s f) c
  = if decide (c = bf_codename f) then Some (digest f) else get_builtin_digest s c.
Proof.
  unfold get_builtin_digest. cbn [added _recognized_builtin_protocol_features].
  set (i := indx (bf_codename f)). set (v := _recognized_builtin_protocol_features s).
  destruct (decide _) as [->|Hne].
  - rewrite list_lookup_insert_eq; [done|]. rewrite length_app, length_replicate. lia.
  - rewrite list_lookup_insert_ne by (unfold i; intros E%(inj indx); congruence).
    destruct (v !! indx c) as [o|] eqn:E.
    + by rewrite lookup_app_l_Some with (x := o).
    + rewrite lookup_app_r by (by apply lookup_ge_None). by destruct (replicate _ _ !! _) as [[|]|] eqn:E';
        [apply lookup_replicate in E' as [? _]| |].
Qed.

(** What add_feature has checked when it returns. *)
Lemma add_feature_inv s f s' :
  add_feature s f = Ok s' ->
  s' = added s f /\ get_builtin_digest s (bf_codename f) = None /\
  _recognized_protocol_features s !! digest f = None /\
  (forall d, d ∈ bf_dependencies f -> is_Some (_recognized_protocol_features s !! d)) /\
  (forall c, c ∈ builtin_dependencies (builtin_protocol_feature_codenames (bf_codename f)) ->
     exists d f', d ∈ bf_dependencies f /\ _recognized_protocol_features s !! d = Some f' /\
       builtin_feature f' = Some c).
Proof.
  unfold FeatureSet.add_feature. intros H. inv_res. bprop. split_and!.
  - done.
  - unfold get_builtin_digest. by destruct (_ !! indx _) as [[|]|].
  - done.
  - rewrite forallb_forall in E0. intros d Hd. specialize (E0 d).
    rewrite <- list_elem_of_In in E0. specialize (E0 ltac:(set_solver)). by bprop.
  - by apply satisfied_all.
Qed.

Lemma added_depends s f d d' :
  _recognized_protocol_features s !! digest f = None ->
  depends_on (added s f) d d' <-> (d = digest f /\ d' ∈ bf_dependencies f) \/ depends_on s d d'.
Proof.
  intros Hn. unfold depends_on. cbn [added _recognized_protocol_features]. split.
  - intros (g & [[<- <-]|[Hne Hg]]%lookup_insert_Some & Hd); [by left | right; eauto].
  - intros [[-> Hd]|(g & Hg & Hd)].
    + exists (of_builtin feature_hash f). by rewrite lookup_insert_eq.
    + exists g. split; [|done]. rewrite lookup_insert_ne; [done|]. congruence.
Qed.

Lemma added_acyclic s f :
  set_ok s -> _recognized_protocol_features s !! digest f = None ->
  (forall d, d ∈ bf_dependencies f -> is_Some (_recognized_protocol_features s !! d)) ->
  forall d, Acc (fun x y => depends_on (added s f) y x) d.
Proof.
  intros Hok Hn Hdeps.
  assert (forall d, d <> digest f -> Acc (fun x y => depends_on (added s f) y x) d) as Hold.
  { intros d. induction (set_acyclic _ Hok d) as [d _ IH]. intros Hd. constructor. intros d' Hd'.
    apply added_depends in Hd' as [[-> _]|Hd']; [done| |done]. apply IH; [done|]. intros ->.
    destruct (set_closed _ Hok _ _ Hd'). congruence. }
  intros d. destruct (decide (d = digest f)) as [->|]; [|by apply Hold].
  constructor. intros d' Hd'. apply Hold. intros ->.
  apply added_depends in Hd' as [[_ Hd']|(g & Hg & _)]; [|congruence|done].
  destruct (Hdeps _ Hd'). congruence.
Qed.

(** add_feature keeps the set of recognized features well formed: every
    feature is stored under its own digest and is the one its codename's entry
    in the vector of builtins points at, every dependency is itself recognized,
    the builtin dependencies of the specification table are all covered, and the
    dependency relation has no cycle.  The new feature is found by its digest
    and by its codename, and no other codename's digest changes. *)
Theorem add_feature_ok s f s' :
  set_ok s -> add_feature s f = Ok s' ->
  set_ok s' /\
  get_protocol_feature s' (digest f) = Ok (of_builtin feature_hash f) /\
  (forall c, get_builtin_digest s' c
     = if decide (c = bf_codename f) then Some (digest f) else get_builtin_digest s c).
Proof.
  intros Hok Hadd. apply add_feature_inv in Hadd as (-> & Hvec & Hn & Hdeps & Hexp).
  split; [|split; [unfold get_protocol_feature; cbn; by rewrite lookup_insert_eq | intros c; apply added_builtin]].
  assert (forall c, get_builtin_digest s c <> None -> c <> bf_codename f) as Hfr by (by intros c Hc ->).
  constructor.
  - intros d g. cbn. intros [[<- <-]|[Hne Hg]]%lookup_insert_Some; cbn.
    + split; [done|]. exists (bf_codename f). by rewrite added_builtin, decide_True.
    + destruct (set_builtin _ Hok _ _ Hg) as (Hd & c & Hc & Hv). split; [done|]. exists c.
      rewrite added_builtin, decide_False by (apply Hfr; congruence). done.
  - intros c d. rewrite added_builtin. cbn. destruct (decide _) as [->|Hne].
    + intros [= <-]. rewrite lookup_insert_eq. eauto.
    + intros Hv. destruct (set_vector _ Hok _ _ Hv) as (g & Hg & Hc). exists g.
      rewrite lookup_insert_ne by congruence. done.
  - intros d d' Hd. cbn. apply lookup_insert_is_Some'. right.
    apply added_depends in Hd as [[_ Hd]|Hd]; [by apply Hdeps | by eapply set_closed | done].
  - intros d g c c'. cbn. intros [[<- <-]|[Hne Hg]]%lookup_insert_Some Hc Hc'.
    + cbn in Hc. simplify_eq. destruct (Hexp _ Hc') as (d' & g & Hd' & Hg & Hgc).
      exists d'. split; [|done]. destruct (set_builtin _ Hok _ _ Hg) as (_ & c2 & Hc2 & Hv).
      simplify_eq. rewrite added_builtin, decide_False by (apply Hfr; congruence). done.
    + destruct (set_expected _ Hok _ _ _ _ Hg Hc Hc') as (d' & Hv & Hd'). exists d'.
      rewrite added_builtin, decide_False by (apply Hfr; congruence). done.
  - by apply added_acyclic.
Qed.

End AddFeature.
End FeatureSet.

Module Manager.
Import FeatureSet.

(** builtin_protocol_feature_entry: [None] is no_previous. *)
Record builtin_protocol_feature_entry := mk_entry {
  entry_previous : option nat;
  entry_activation_block_num : Z
}.
Definition not_active : Z := UINT32_MAX.
Definition inactive_entry : builtin_protocol_feature_entry := mk_entry None not_active.

(** protocol_feature_entry: the digest stands for the iterator. *)
Record protocol_feature_entry := mk_pf_entry { pf_digest : digest_type; pf_activation_block_num : Z }.

Record protocol_feature_manager := mk_manager {
  _protocol_feature_set : protocol_feature_set;
  _activated_protocol_features : list protocol_feature_entry;
  _builtin_protocol_features : list builtin_protocol_feature_entry;
  _head_of_builtin_activation_list : option nat;
  _initialized : bool
}.

Definition make_manager (pfs : protocol_feature_set) : protocol_feature_manager :=
  mk_manager pfs [] (replicate (length (_recognized_builtin_protocol_features pfs)) inactive_entry) None false.

Definition is_builtin_activated (m : protocol_feature_manager) (c : builtin_protocol_feature_t)
    (current_block_num : Z) : bool :=
  match _builtin_protocol_features m !! indx c with
  | None => false
  | Some e => entry_activation_block_num e <=? current_block_num
  end.

Definition activate_feature (d : digest_type) (current_block_num : Z) : exec protocol_feature_manager unit :=
  do m <- get_state;
  check (_initialized m) else protocol_feature_exception;
  match _recognized_protocol_features (_protocol_feature_set m) !! d with
  | None => lift (Throw protocol_feature_exception)
  | Some f =>
      check (match last (_activated_protocol_features m) with
             | Some l => pf_activation_block_num l <=? current_block_num
             | None => true
             end) else protocol_feature_exception;
      match builtin_feature f with
      | None => lift (Throw protocol_feature_exception)
      | Some c =>
          match _builtin_protocol_features m !! indx c with
          | None => lift (Throw protocol_feature_exception)
          | Some e =>
              check (entry_activation_block_num e =? not_active) else protocol_feature_exception;
              put_state (mk_manager (_protocol_feature_set m)
                (_activated_protocol_features m ++ [mk_pf_entry d current_block_num])
                (<[indx c := mk_entry (_head_of_builtin_activation_list m) current_block_num]>
                   (_builtin_protocol_features m))
                (Some (indx c)) (_initialized m))
          end
      end
  end.

(** popped_blocks_to's first loop: the vector and the head of the list. *)
Fixpoint pop_builtins (fuel : nat) (block_num : Z) (bs : list builtin_protocol_feature_entry) (hd : option nat)
    : res (list builtin_protocol_feature_entry * option nat) :=
  match hd with
  | None => Ok (bs, None)
  | Some h =>
      match bs !! h with
      | None => Throw undefined_behavior
      | Some e =>
          if entry_activation_block_num e <=? block_num then Ok (bs, hd)
          else match fuel with
               | O => Throw out_of_fuel
               | S fuel' => pop_builtins fuel' block_num (<[h := inactive_entry]> bs) (entry_previous e)
               end
      end
  end.

(** The second loop, on the reversed vector. *)
Fixpoint pop_activated (block_num : Z) (rl : list protocol_feature_entry) : list protocol_feature_entry :=
  match rl with
  | e :: rl' => if block_num <? pf_activation_block_num e then pop_activated block_num rl' else rl
  | [] => []
  end.

Definition popped_blocks_to (block_num : Z) : exec protocol_feature_manager unit :=
  do m <- get_state;
  check (_initialized m) else protocol_feature_exception;
  do (bs, hd) <- lift (pop_builtins (length (_builtin_protocol_features m)) block_num
                         (_builtin_protocol_features m) (_head_of_builtin_activation_list m));
  put_state (mk_manager (_protocol_feature_set m)
    (reverse (pop_activated block_num (reverse (_activated_protocol_features m)))) bs hd (_initialized m)).

(** init: [stored] is the activated_protocol_features of the protocol state; a
    throw resets [_initialized]. *)
Definition init (stored : list protocol_feature_entry) : exec protocol_feature_manager unit :=
  do m <- get_state;
  check (negb (_initialized m)) else protocol_feature_exception;
  let set_initialized b m := mk_manager (_protocol_feature_set m) (_activated_protocol_features m)
        (_builtin_protocol_features m) (_head_of_builtin_activation_list m) b in
  fun m =>
    match for_each stored (fun f => activate_feature (pf_digest f) (pf_activation_block_num f))
            (set_initialized true m) with
    | (Ok _, m') => (Ok tt, m')
    | (Throw e, m') => (Throw e, set_initialized false m')
    end.

(** ** const_iterator: an index into the activations, [None] at the end *)

Definition cbegin (m : protocol_feature_manager) : option nat :=
  match _activated_protocol_features m with [] => None | _ => Some 0%nat end.

Definition at_activation_ordinal (m : protocol_feature_manager) (activation_ordinal : nat) : option nat :=
  if bool_decide (length (_activated_protocol_features m) <= activation_ordinal)%nat then None
  else Some activation_ordinal.

Definition lower_bound (m : protocol_feature_manager) (block_num : Z) : option nat :=
  fst <$> list_find (fun e => ~ pf_activation_block_num e < block_num) (_activated_protocol_features m).

Definition upper_bound (m : protocol_feature_manager) (block_num : Z) : option nat :=
  fst <$> list_find (fun e => block_num < pf_activation_block_num e) (_activated_protocol_features m).

Definition activation_ordinal (it : option nat) : res Z :=
  match it with
  | None => Throw protocol_feature_iterator_exception
  | Some i => Ok (u32 (Z.of_nat i))
  end.

Definition activation_block_num (m : protocol_feature_manager) (it : option nat) : res Z :=
  match it with
  | None => Throw protocol_feature_iterator_exception
  | Some i => match _activated_protocol_features m !! i with
              | Some e => Ok (pf_activation_block_num e)
              | None => Throw undefined_behavior
              end
  end.

Definition next (m : protocol_feature_manager) (it : option nat) : res (option nat) :=
  match it with
  | None => Throw protocol_feature_iterator_exception
  | Some i => Ok (at_activation_ordinal m (S i))
  end.

Definition prev (m : protocol_feature_manager) (it : option nat) : res (option nat) :=
  match it with
  | None =>
      assert! (negb (bool_decide (_activated_protocol_features m = []))) else protocol_feature_iterator_exception in
      Ok (Some (length (_activated_protocol_features m) - 1)%nat)
  | Some O => Throw protocol_feature_iterator_exception
  | Some (S i) => Ok (Some i)
  end.

(** ** The manager refines a stack of activations *)

(** One activation: the entry of the vector and the codename it activates. *)
Abbreviation activation := (protocol_feature_entry * builtin_protocol_feature_t)%type.
Definition act_block (a : activation) : Z := pf_activation_block_num (fst a).

(** The list threaded through the vector of builtins from [hd] is [l], newest
    activation first. *)
Fixpoint linked (bs : list builtin_protocol_feature_entry) (hd : option nat) (l : list activation) : Prop :=
  match l with
  | [] => hd = None
  | a :: l' => hd = Some (indx (snd a)) /\
      exists p, bs !! indx (snd a) = Some (mk_entry p (act_block a)) /\ linked bs p l'
  end.

Definition newer : relation activation := fun a b => act_block b <= act_block a.

(** The manager holds the stack [l]: the vector of activations, the linked list
    and the set of builtins agree. *)
Record manager_ok (m : protocol_feature_manager) (l : list activation) : Prop := {
  ok_initialized : _initialized m = true;
  ok_activated : reverse (_activated_protocol_features m) = fst <$> l;
  ok_recognized : Forall (fun a => exists f, builtin_feature f = Some (snd a) /\
      _recognized_protocol_features (_protocol_feature_set m) !! pf_digest (fst a) = Some f) l;
  ok_linked : linked (_builtin_protocol_features m) (_head_of_builtin_activation_list m) l;
  ok_nodup : NoDup (snd <$> l);
  ok_sorted : StronglySorted newer l;
  ok_blocks : Forall (fun a => 0 <= act_block a < not_active) l;
  ok_inactive : forall i e, _builtin_protocol_features m !! i = Some e ->
      (forall a, a ∈ l -> indx (snd a) <> i) -> e = inactive_entry
}.

Lemma linked_insert bs hd (l : list activation) i e :
  (forall a, a ∈ l -> indx (snd a) <> i) -> linked bs hd l -> linked (<[i := e]> bs) hd l.
Proof.
  revert hd. induction l as [|a l IH]; intros hd Hni; cbn; [done|].
  intros (-> & p & Hp & Hl). split; [done|]. exists p. split.
  - rewrite list_lookup_insert_ne; [done|]. intros ->. by apply (Hni a); [left|].
  - apply IH; [|done]. intros b Hb. apply Hni. by right.
Qed.

Lemma not_in_rest (a : activation) l b : NoDup (snd <$> a :: l) -> b ∈ l -> indx (snd b) <> indx (snd a).
Proof.
  intros Hnd Hb E%(inj indx). cbn in Hnd. apply NoDup_cons in Hnd as [Hni _].
  apply Hni. rewrite <- E. by apply list_elem_of_fmap_2.
Qed.

Lemma linked_lookup bs hd (l : list activation) a :
  linked bs hd l -> a ∈ l -> exists p, bs !! indx (snd a) = Some (mk_entry p (act_block a)).
Proof.
  revert hd. induction l as [|b l IH]; intros hd; [by intros _ []%elem_of_nil|].
  intros (_ & p & Hp & Hl) [->|Hin]%elem_of_cons; eauto.
Qed.

(** What makes a call to activate_feature succeed on a manager that holds [l]. *)
Record activatable (m : protocol_feature_manager) (l : list activation) (d : digest_type) (n : Z)
    (c : builtin_protocol_feature_t) : Prop := {
  act_recognized : exists f, builtin_feature f = Some c /\
      _recognized_protocol_features (_protocol_feature_set m) !! d = Some f;
  act_known : (indx c < length (_builtin_protocol_features m))%nat;
  act_fresh : c ∉ snd <$> l;
  act_not_before : Forall (fun a => act_block a <= n) l
}.

Lemma activated_last m l :
  manager_ok m l -> last (_activated_protocol_features m) = fst <$> head l.
Proof.
  intros Hok. pose proof (ok_activated _ _ Hok) as E.
  rewrite <- (reverse_involutive (_activated_protocol_features m)), E, <- fmap_reverse.
  destruct l as [|a l]; [done|]. cbn [reverse]. rewrite reverse_cons, fmap_app, last_app. done.
Qed.

Lemma head_not_before l n :
  StronglySorted newer l ->
  match fst <$> head l with Some e => pf_activation_block_num e <= n | None => True end <->
  Forall (fun a => act_block a <= n) l.
Proof.
  intros Hs. destruct l as [|a l]; cbn; [by rewrite Forall_nil|].
  apply StronglySorted_cons in Hs as [Hall _]. rewrite Forall_cons. split; [|by intros []].
  intros Ha. split; [done|]. eapply Forall_impl; [done|]. unfold newer, act_block in *. cbn. lia.
Qed.

Lemma inactive_iff_fresh m l c e :
  manager_ok m l -> _builtin_protocol_features m !! indx c = Some e ->
  entry_activation_block_num e = not_active <-> c ∉ snd <$> l.
Proof.
  intros Hok He. split.
  - intros En (a & -> & Ha)%list_elem_of_fmap.
    destruct (linked_lookup _ _ _ _ (ok_linked _ _ Hok) Ha) as [p Hp]. simplify_eq. cbn in En.
    pose proof (proj1 (Forall_forall _ _) (ok_blocks _ _ Hok) a Ha). cbn in *. lia.
  - intros Hni. rewrite (ok_inactive _ _ Hok _ _ He); [done|].
    intros a Ha E%(inj indx). apply Hni. rewrite <- E. by apply list_elem_of_fmap_2.
Qed.

Definition activated (m : protocol_feature_manager) (d : digest_type) (n : Z) (c : builtin_protocol_feature_t)
    : protocol_feature_manager :=
  mk_manager (_protocol_feature_set m) (_activated_protocol_features m ++ [mk_pf_entry d n])
    (<[indx c := mk_entry (_head_of_builtin_activation_list m) n]> (_builtin_protocol_features m))
    (Some (indx c)) (_initialized m).

(** activate_feature succeeds exactly on an activatable feature; otherwise it
    leaves the manager unchanged. *)
Lemma activate_feature_spec m l d n :
  manager_ok m l ->
  (exists c, activatable m l d n c /\ activate_feature d n m = (Ok tt, activated m d n c)) \/
  ((forall c, ~ activatable m l d n c) /\
   activate_feature d n m = (Throw protocol_feature_exception, m)).
Proof.
  intros Hok. unfold activate_feature, bind, get_state, lift, put_state. cbn.
  rewrite (ok_initialized _ _ Hok), (activated_last _ _ Hok). cbn.
  destruct (_recognized_protocol_features _ !! d) as [f|] eqn:Ef;
    [|right; split; [intros c [(f & _ & E) _ _ _]; congruence | done]].
  pose proof (head_not_before l n (ok_sorted _ _ Hok)) as Hlast.
  destruct (match fst <$> head l with Some e => _ | None => _ end) eqn:Eb; cbn;
    [|right; split; [intros c [_ _ _ Hall]; apply Hlast in Hall; destruct (fst <$> head l); bprop; by try lia | done]].
  assert (Forall (fun a => act_block a <= n) l) as Hnb
    by (apply Hlast; destruct (fst <$> head l); bprop; done).
  destruct (builtin_feature f) as [c|] eqn:Ec;
    [|right; split; [intros c [(f' & E' & E) _ _ _]; congruence | done]].
  assert (forall c', activatable m l d n c' -> c' = c) as Hc by (intros c' [(f' & E' & E) _ _ _]; congruence).
  destruct (_builtin_protocol_features m !! indx c) as [e|] eqn:Ee.
  2: { right. split; [|done]. intros c' Ha. pose proof (act_known _ _ _ _ _ Ha) as Hlt.
       rewrite (Hc _ Ha) in Hlt. apply lookup_ge_None in Ee. lia. }
  pose proof (inactive_iff_fresh _ _ _ _ Hok Ee) as Hfresh.
  destruct (entry_activation_block_num e =? not_active) eqn:En; cbn; bprop.
  - left. exists c. split; [|unfold activated; by rewrite (ok_initialized _ _ Hok)].
    constructor; [eauto| |tauto|done]. by eapply lookup_lt_Some.
  - right. split; [|done]. intros c' Ha. pose proof (act_fresh _ _ _ _ _ Ha). rewrite (Hc _ Ha) in *. tauto.
Qed.

Lemma activate_feature_set d n m m' :
  activate_feature d n m = (Ok tt, m') ->
  _protocol_feature_set m' = _protocol_feature_set m /\
  _activated_protocol_features m' = _activated_protocol_features m ++ [mk_pf_entry d n].
Proof.
  unfold activate_feature, bind, get_state, lift, put_state. cbn. destruct (_initialized m); cbn; [|done].
  destruct (_ !! d) as [f|]; [|done]. destruct (match last _ with Some _ => _ | None => _ end); cbn; [|done].
  destruct (builtin_feature f) as [c|]; [|done]. destruct (_ !! indx c) as [e|]; [|done].
  destruct (_ =? _); cbn; [|done]. by intros [= <-].
Qed.

Lemma activated_ok m l d n c :
  manager_ok m l -> activatable m l d n c -> 0 <= n < not_active ->
  manager_ok (activated m d n c) ((mk_pf_entry d n, c) :: l).
Proof.
  intros Hok Ha Hn. pose proof (act_fresh _ _ _ _ _ Ha) as Hf.
  assert (forall a, a ∈ l -> indx (snd a) <> indx c) as Hni.
  { intros a Hin E%(inj indx). apply Hf. rewrite <- E. by apply list_elem_of_fmap_2. }
  constructor; cbn -[reverse].
  - apply (ok_initialized _ _ Hok).
  - by rewrite reverse_snoc, (ok_activated _ _ Hok).
  - constructor; [apply (act_recognized _ _ _ _ _ Ha) | apply (ok_recognized _ _ Hok)].
  - split; [done|]. exists (_head_of_builtin_activation_list m). split.
    + apply list_lookup_insert_eq, (act_known _ _ _ _ _ Ha).
    + apply linked_insert; [done | apply (ok_linked _ _ Hok)].
  - constructor; [done | apply (ok_nodup _ _ Hok)].
  - constructor; [apply (ok_sorted _ _ Hok) | exact (act_not_before _ _ _ _ _ Ha)].
  - constructor; [done | apply (ok_blocks _ _ Hok)].
  - intros i e He Hin. assert (i <> indx c) as Hne
      by (intros ->; apply (Hin (mk_pf_entry d n, c)); [left | done]).
    rewrite list_lookup_insert_ne in He by done.
    apply (ok_inactive _ _ Hok i); [done|]. intros a Hal. apply Hin. by right.
Qed.

(** ** Popping blocks *)

(** The activations that survive popping to block [n]. *)
Definition kept (n : Z) (l : list activation) : list activation := filter (fun a => act_block a <= n) l.

Lemma kept_all n l : Forall (fun a => act_block a <= n) l -> kept n l = l.
Proof. apply filter_all. Qed.

Lemma kept_newest n a l : n < act_block a -> kept n (a :: l) = kept n l.
Proof. intros. unfold kept. rewrite filter_cons_False; [done|]. lia. Qed.

Lemma kept_stop n a l : StronglySorted newer (a :: l) -> act_block a <= n -> kept n (a :: l) = a :: l.
Proof.
  intros [Hall _]%StronglySorted_cons Ha. apply kept_all. constructor; [done|].
  eapply Forall_impl; [done|]. unfold newer. lia.
Qed.

Lemma kept_sorted n l : StronglySorted newer l -> StronglySorted newer (kept n l).
Proof.
  induction l as [|a l IH]; intros Hs; [done|].
  destruct (Z.le_gt_cases (act_block a) n); [by rewrite kept_stop|].
  rewrite kept_newest by lia. apply IH. by apply StronglySorted_cons in Hs as [_ ?].
Qed.

Lemma pop_builtins_spec n : forall l fuel bs0 hd,
  linked bs0 hd l -> NoDup (snd <$> l) -> StronglySorted newer l -> (length l <= fuel)%nat ->
  exists bs' hd', pop_builtins fuel n bs0 hd = Ok (bs', hd') /\ linked bs' hd' (kept n l) /\
    length bs' = length bs0 /\
    (forall a, a ∈ l -> n < act_block a -> bs' !! indx (snd a) = Some inactive_entry) /\
    (forall i, (forall a, a ∈ l -> n < act_block a -> indx (snd a) <> i) -> bs' !! i = bs0 !! i).
Proof.
  induction l as [|a l IH]; intros fuel bs0 hd Hl Hnd Hs Hfuel.
  - cbn in Hl. subst hd. exists bs0, None. destruct fuel; cbn; split_and!; try done;
      intros a ?%elem_of_nil; done.
  - pose proof Hl as (-> & p & Hp & Hl'). destruct (Z.le_gt_cases (act_block a) n) as [Hle|Hgt].
    + exists bs0, (Some (indx (snd a))). rewrite kept_stop by done.
      destruct fuel; [cbn in Hfuel; lia|]. cbn [pop_builtins]. rewrite Hp. cbn.
      rewrite (proj2 (Z.leb_le _ _) Hle). split_and!; try done; [by exists p|].
      intros b Hb Hgt. apply elem_of_cons in Hb as [->|Hb]; [lia|].
      apply StronglySorted_cons in Hs as [Hall _]. rewrite Forall_forall in Hall.
      specialize (Hall _ Hb). unfold newer in Hall. lia.
    + destruct fuel as [|fuel]; [cbn in Hfuel; lia|]. cbn [pop_builtins]. rewrite Hp. cbn -[kept].
      rewrite (proj2 (Z.leb_gt _ _) Hgt), kept_newest by done. cbn in Hfuel.
      assert (forall b, b ∈ l -> indx (snd b) <> indx (snd a)) as Hni
        by (intros b; by apply not_in_rest).
      destruct (IH fuel (<[indx (snd a) := inactive_entry]> bs0) p) as (bs' & hd' & E & Hk & Hlen & Hpop & Hrest);
        [by apply linked_insert | by apply NoDup_cons in Hnd as [_ ?]
        | by apply StronglySorted_cons in Hs as [_ ?] | lia |].
      exists bs', hd'. rewrite length_insert in Hlen. split_and!; [done..| |].
      * intros b [->|Hb]%elem_of_cons Hb'; [|by apply Hpop].
        rewrite Hrest by (intros; by apply Hni).
        apply list_lookup_insert_eq. by eapply lookup_lt_Some.
      * intros i Hi. rewrite Hrest by (intros b Hb Hb'; apply Hi; [by right | done]).
        apply list_lookup_insert_ne. apply Hi; [by left | lia].
Qed.

Lemma pop_activated_kept n l :
  StronglySorted newer l -> pop_activated n (fst <$> l) = fst <$> kept n l.
Proof.
  induction l as [|a l IH]; intros Hs; [done|]. cbn [pop_activated fmap list_fmap].
  fold (act_block a). destruct (n <? act_block a) eqn:E; bprop.
  - rewrite kept_newest by done. apply IH. by apply StronglySorted_cons in Hs as [_ ?].
  - by rewrite kept_stop.
Qed.

(** The fuel of [pop_builtins] is enough: the list is no longer than the vector. *)
Lemma linked_length bs hd (l : list activation) :
  linked bs hd l -> NoDup (snd <$> l) -> (length l <= length bs)%nat.
Proof.
  intros Hl Hnd. rewrite <- (length_fmap (indx ∘ snd) l). rewrite <- (length_seq (length bs) 0).
  apply submseteq_length, NoDup_submseteq.
  - rewrite list_fmap_compose. by apply NoDup_fmap_2; [apply _|].
  - intros i (a & -> & Ha)%list_elem_of_fmap. apply elem_of_seq.
    destruct (linked_lookup _ _ _ _ Hl Ha) as [p Hp%lookup_lt_Some]. cbn. lia.
Qed.

Lemma popped_blocks_to_spec m l n :
  manager_ok m l ->
  exists m', popped_blocks_to n m = (Ok tt, m') /\ manager_ok m' (kept n l) /\
    _protocol_feature_set m' = _protocol_feature_set m /\
    length (_builtin_protocol_features m') = length (_builtin_protocol_features m).
Proof.
  intros Hok. pose proof (ok_linked _ _ Hok) as Hl. pose proof (ok_nodup _ _ Hok) as Hnd.
  destruct (pop_builtins_spec n l (length (_builtin_protocol_features m)) _ _ Hl Hnd (ok_sorted _ _ Hok))
    as (bs' & hd' & E & Hl' & Hlen & Hpop & Hrest); [by eapply linked_length|].
  unfold popped_blocks_to, bind, get_state, lift, put_state. cbn -[reverse].
  rewrite (ok_initialized _ _ Hok). cbn -[reverse]. rewrite E. eexists. split_and!; [done| |done..].
  assert (kept n l `sublist_of` l) as Hsub by apply sublist_filter.
  assert (forall P, Forall P l -> Forall P (kept n l)) as Hall.
  { intros P. rewrite !Forall_forall. intros HP a [_ Ha]%list_elem_of_filter. by apply HP. }
  constructor; cbn -[reverse].
  - done.
  - by rewrite reverse_involutive, (ok_activated _ _ Hok), pop_activated_kept by apply (ok_sorted _ _ Hok).
  - apply Hall, (ok_recognized _ _ Hok).
  - done.
  - apply (sublist_NoDup _ (snd <$> l)); [done|]. by apply fmap_sublist.
  - apply kept_sorted, (ok_sorted _ _ Hok).
  - apply Hall, (ok_blocks _ _ Hok).
  - intros i e He Hin. destruct (decide (Exists (fun a => indx (snd a) = i) l)) as [Hex|Hnex].
    + apply Exists_exists in Hex as (a & Ha & <-). destruct (Z.le_gt_cases (act_block a) n) as [Hle|Hgt].
      * exfalso. apply (Hin a); [|done]. by apply list_elem_of_filter.
      * rewrite Hpop in He by (done || lia). by simplify_eq.
    + assert (forall a, a ∈ l -> indx (snd a) <> i) as Hni
        by (intros a Ha E'; apply Hnex, Exists_exists; eauto).
      rewrite Hrest in He by auto. by apply (ok_inactive _ _ Hok i).
Qed.

(** ** The stack determines the manager *)

Lemma linked_det bs hd bs' hd' (l : list activation) :
  linked bs hd l -> linked bs' hd' l ->
  hd = hd' /\ forall a, a ∈ l -> bs !! indx (snd a) = bs' !! indx (snd a).
Proof.
  revert hd hd'. induction l as [|a l IH]; intros hd hd'; cbn.
  - intros -> ->. split; [done|]. by intros a ?%elem_of_nil.
  - intros (-> & p & Hp & Hl) (-> & p' & Hp' & Hl'). destruct (IH _ _ Hl Hl') as [-> Hin].
    split; [done|]. intros b [->|Hb]%elem_of_cons; [congruence | by apply Hin].
Qed.

Lemma manager_ok_unique m m' l :
  manager_ok m l -> manager_ok m' l -> _protocol_feature_set m = _protocol_feature_set m' ->
  length (_builtin_protocol_features m) = length (_builtin_protocol_features m') -> m = m'.
Proof.
  intros Hok Hok' Hset Hlen.
  destruct (linked_det _ _ _ _ _ (ok_linked _ _ Hok) (ok_linked _ _ Hok')) as [Hhd Hin].
  assert (_activated_protocol_features m = _activated_protocol_features m') as Hact.
  { apply (inj reverse). by rewrite (ok_activated _ _ Hok), (ok_activated _ _ Hok'). }
  pose proof (ok_initialized _ _ Hok) as Hi. pose proof (ok_initialized _ _ Hok') as Hi'.
  assert (_builtin_protocol_features m = _builtin_protocol_features m') as Hbs.
  { apply list_eq. intros i. destruct (decide (Exists (fun a => indx (snd a) = i) l)) as [Hex|Hnex].
    - apply Exists_exists in Hex as (a & Ha & <-). by apply Hin.
    - assert (forall a, a ∈ l -> indx (snd a) <> i) as Hni
        by (intros a Ha E'; apply Hnex, Exists_exists; eauto).
      destruct (_builtin_protocol_features m !! i) as [e|] eqn:E,
               (_builtin_protocol_features m' !! i) as [e'|] eqn:E'.
      + by rewrite (ok_inactive _ _ Hok i e E Hni), (ok_inactive _ _ Hok' i e' E' Hni).
      + apply lookup_lt_Some in E. apply lookup_ge_None in E'. lia.
      + apply lookup_lt_Some in E'. apply lookup_ge_None in E. lia.
      + done. }
  destruct m, m'; cbn in *. congruence.
Qed.

(** Activations one after the other, the way start_block and init make them. *)
Definition activate_all (fs : list protocol_feature_entry) : exec protocol_feature_manager unit :=
  for_each fs (fun f => activate_feature (pf_digest f) (pf_activation_block_num f)).

Lemma activate_all_run m l fs h :
  manager_ok m l -> Forall (fun f => h < pf_activation_block_num f < not_active) fs -> 0 <= h ->
  exists r m' new, activate_all fs m = (r, m') /\ manager_ok m' (new ++ l) /\
    Forall (fun a => h < act_block a) new /\
    Forall (fun a => exists f, f ∈ fs /\ act_block a = pf_activation_block_num f) new /\
    _protocol_feature_set m' = _protocol_feature_set m /\
    length (_builtin_protocol_features m') = length (_builtin_protocol_features m).
Proof.
  intros Hok Hfs Hh. revert m l Hok. induction Hfs as [|f fs Hf _ IH]; intros m l Hok.
  - exists (Ok tt), m, []. by split_and!.
  - unfold activate_all. cbn [for_each].
    destruct (activate_feature_spec m l (pf_digest f) (pf_activation_block_num f) Hok)
      as [(c & Ha & E) | (_ & E)].
    + unfold bind. rewrite E. cbn -[activate_feature].
      destruct (IH _ _ (activated_ok _ _ _ _ _ Hok Ha ltac:(lia))) as (r & m' & new & E' & Hok' & Hnew & Hin & Hs & Hlen).
      exists r, m', (new ++ [(mk_pf_entry (pf_digest f) (pf_activation_block_num f), c)]).
      split_and!; [done| by rewrite <- app_assoc | apply Forall_app; split; [done|] | apply Forall_app; split | done |].
      * constructor; [apply Hf | constructor].
      * eapply Forall_impl; [exact Hin|]. intros a (g & Hg & Ha'). exists g. split; [by right|done].
      * constructor; [|constructor]. exists f. split; [left|done].
      * rewrite Hlen. cbn. apply length_insert.
    + exists (Throw protocol_feature_exception), m, []. split_and!; [|done..].
      unfold bind. by rewrite E.
Qed.

Lemma kept_prefix h new l :
  Forall (fun a => h < act_block a) new -> Forall (fun a => act_block a <= h) l -> kept h (new ++ l) = l.
Proof.
  induction 1 as [|a new Ha _ IH]; intros Hl; cbn [app]; [by apply kept_all|].
  rewrite kept_newest by lia. by apply IH.
Qed.

Lemma pop_after_activations m l h fs :
  manager_ok m l -> Forall (fun a => act_block a <= h) l -> 0 <= h ->
  Forall (fun f => h < pf_activation_block_num f < not_active) fs ->
  popped_blocks_to h (snd (activate_all fs m)) = (Ok tt, m).
Proof.
  intros Hok Hl Hh Hfs.
  destruct (activate_all_run m l fs h Hok Hfs Hh) as (r & m1 & new & E & Hok1 & Hnew & _ & Hs1 & Hlen1).
  rewrite E. cbn [snd].
  destruct (popped_blocks_to_spec m1 (new ++ l) h Hok1) as (m2 & E2 & Hok2 & Hs2 & Hlen2).
  rewrite kept_prefix in Hok2 by done. rewrite E2. f_equal. eapply manager_ok_unique; [done..| |]; congruence.
Qed.

(** the scoped exit of start_block, and pop_block, restore the protocol
    features exactly: whatever sequence of activations is attempted at blocks
    after [h] on a manager whose activations are all at or before [h], and
    whether the sequence finishes or an activation throws midway,
    popped_blocks_to( h ) then terminates and gives back the manager as it was -
    the vector, every entry of the vector of builtins, and the head of the
    linked list. *)
Theorem popped_blocks_to_restores m l h fs :
  manager_ok m l -> Forall (fun a => act_block a <= h) l -> 0 <= h ->
  Forall (fun f => h < pf_activation_block_num f < not_active) fs ->
  popped_blocks_to h (snd (activate_all fs m)) = (Ok tt, m).
Proof. apply pop_after_activations. Qed.

(** A freshly constructed manager, marked initialized, holds the empty stack. *)
Definition initialized_manager (pfs : protocol_feature_set) : protocol_feature_manager :=
  mk_manager pfs [] (replicate (length (_recognized_builtin_protocol_features pfs)) inactive_entry) None true.

Lemma initialized_manager_ok pfs : manager_ok (initialized_manager pfs) [].
Proof.
  constructor; cbn; try done; try constructor.
  intros i e [-> _]%lookup_replicate _. done.
Qed.

Lemma activate_all_replay m l m0 :
  manager_ok m l -> manager_ok m0 [] -> _protocol_feature_set m0 = _protocol_feature_set m ->
  length (_builtin_protocol_features m0) = length (_builtin_protocol_features m) ->
  activate_all (_activated_protocol_features m) m0 = (Ok tt, m).
Proof.
  intros Hok Hok0 Hset Hlen.
  cut (exists m1, activate_all (reverse (fst <$> l)) m0 = (Ok tt, m1) /\ manager_ok m1 l /\
         _protocol_feature_set m1 = _protocol_feature_set m /\
         length (_builtin_protocol_features m1) = length (_builtin_protocol_features m)).
  { intros (m1 & E & Hok1 & Hs & Hl). rewrite <- (ok_activated _ _ Hok), reverse_involutive in E.
    rewrite E. f_equal. by eapply manager_ok_unique. }
  pose proof (ok_recognized _ _ Hok) as Hrec. pose proof (ok_nodup _ _ Hok) as Hnd.
  pose proof (ok_sorted _ _ Hok) as Hs. pose proof (ok_blocks _ _ Hok) as Hb.
  assert (Forall (fun a => indx (snd a) < length (_builtin_protocol_features m))%nat l) as Hlt.
  { apply Forall_forall. intros a Ha.
    destruct (linked_lookup _ _ _ _ (ok_linked _ _ Hok) Ha) as [p Hp]. by eapply lookup_lt_Some. }
  clear Hok. induction l as [|[e c] l IH]; [by exists m0|].
  apply NoDup_cons in Hnd as [Hni Hnd]. apply StronglySorted_cons in Hs as [Hnew Hs].
  apply Forall_cons in Hrec as [Hre Hrec]. apply Forall_cons in Hb as [Hbe Hb].
  apply Forall_cons in Hlt as [Hlte Hlt].
  destruct (IH Hrec Hnd Hs Hb Hlt) as (m1 & E & Hok1 & Hs1 & Hl1).
  assert (activatable m1 l (pf_digest e) (pf_activation_block_num e) c) as Ha.
  { constructor; [by rewrite Hs1 | cbn in Hlte; lia | done | done]. }
  destruct (activate_feature_spec m1 l (pf_digest e) (pf_activation_block_num e) Hok1)
    as [(c' & Ha' & E') | (Hna & _)]; [|by destruct (Hna c)].
  assert (c' = c) as -> by (destruct Ha as [(f & ? & ?) _ _ _], Ha' as [(f' & ? & ?) _ _ _]; congruence).
  exists (activated m1 (pf_digest e) (pf_activation_block_num e) c). split_and!.
  - cbn [fmap list_fmap fst]. rewrite reverse_cons. unfold activate_all. rewrite for_each_app.
    unfold bind at 1. unfold activate_all in E. rewrite E. cbn [for_each]. unfold bind. by rewrite E'.
  - destruct e. by apply (activated_ok m1 l).
  - done.
  - cbn. by rewrite length_insert.
Qed.

(** restarting the node rebuilds the protocol features: protocol_feature_manager::init
    on the activations recorded in the protocol state succeeds on a manager
    constructed over the same feature set, and gives exactly the manager that
    recorded them. *)
Theorem init_restores m l :
  manager_ok m l ->
  length (_builtin_protocol_features m)
    = length (_recognized_builtin_protocol_features (_protocol_feature_set m)) ->
  init (_activated_protocol_features m) (make_manager (_protocol_feature_set m)) = (Ok tt, m).
Proof.
  intros Hok Hlen. unfold init, bind, get_state, lift, make_manager. cbn -[activate_feature for_each].
  change (for_each (_activated_protocol_features m) _) with (activate_all (_activated_protocol_features m)).
  rewrite (activate_all_replay m l); [done|done|apply initialized_manager_ok|done|].
  cbn. by rewrite length_replicate.
Qed.

(** ** The abstract specification: a stack *)

(** What the chain asks of the manager, block by block. *)
Inductive op : Type :=
| Activate (d : digest_type) (n : Z)
| PopTo (n : Z).

Definition op_in_range (o : op) : Prop :=
  match o with Activate _ n => 0 <= n < not_active | PopTo _ => True end.

Fixpoint run_ops (ops : list op) (m : protocol_feature_manager) : list (res unit) * protocol_feature_manager :=
  match ops with
  | [] => ([], m)
  | o :: ops' =>
      let '(r, m1) := match o with Activate d n => activate_feature d n m | PopTo n => popped_blocks_to n m end in
      let '(rs, m2) := run_ops ops' m1 in (r :: rs, m2)
  end.

(** The stack of activations does the same with no vector and no links: push
    when the feature is known, has not been activated and the block does not go
    back, drop what is after the block popped to. *)
Definition stack_op (pfs : protocol_feature_set) (o : op) (l : list activation) : res unit * list activation :=
  match o with
  | Activate d n =>
      match _recognized_protocol_features pfs !! d ≫= builtin_feature with
      | Some c =>
          if decide ((indx c < length (_recognized_builtin_protocol_features pfs))%nat /\ (c ∉ (snd <$> l)) /\
                     Forall (fun a => act_block a <= n) l)
          then (Ok tt, (mk_pf_entry d n, c) :: l)
          else (Throw protocol_feature_exception, l)
      | None => (Throw protocol_feature_exception, l)
      end
  | PopTo n => (Ok tt, kept n l)
  end.

Fixpoint run_stack (pfs : protocol_feature_set) (ops : list op) (l : list activation)
    : list (res unit) * list activation :=
  match ops with
  | [] => ([], l)
  | o :: ops' =>
      let '(r, l1) := stack_op pfs o l in
      let '(rs, l2) := run_stack pfs ops' l1 in (r :: rs, l2)
  end.

Definition matches (pfs : protocol_feature_set) (m : protocol_feature_manager) (l : list activation) : Prop :=
  manager_ok m l /\ _protocol_feature_set m = pfs /\
  length (_builtin_protocol_features m) = length (_recognized_builtin_protocol_features pfs).

Lemma activate_matches pfs d n m l :
  matches pfs m l -> 0 <= n < not_active ->
  let '(r, m') := activate_feature d n m in
  let '(r', l') := stack_op pfs (Activate d n) l in r = r' /\ matches pfs m' l'.
Proof.
  intros (Hok & Hset & Hlen) Hn. cbn [stack_op].
  assert (forall c, activatable m l d n c <->
    _recognized_protocol_features pfs !! d ≫= builtin_feature = Some c /\
    (indx c < length (_recognized_builtin_protocol_features pfs))%nat /\ (c ∉ (snd <$> l)) /\
    Forall (fun a => act_block a <= n) l) as Hact.
  { intros c. rewrite bind_Some, <- Hset. split.
    - intros [(f & Hc & Hf) Hk Hfr Hb]. split_and!; [by exists f | congruence | done..].
    - intros ((f & Hf & Hc) & Hk & Hfr & Hb). constructor; [by exists f | congruence | done..]. }
  destruct (activate_feature_spec m l d n Hok) as [(c & Ha & ->) | (Hna & ->)].
  - pose proof Ha as [Hc Hd]%Hact. rewrite Hc, decide_True by done. split; [done|].
    split_and!; [by apply activated_ok | done |]. cbn. by rewrite length_insert.
  - destruct (_ ≫= _) as [c|] eqn:Ec; [|by split].
    rewrite decide_False; [by split|]. intros Hd. by apply (Hna c), Hact.
Qed.

Lemma pop_matches pfs n m l :
  matches pfs m l ->
  exists m', popped_blocks_to n m = (Ok tt, m') /\ matches pfs m' (kept n l).
Proof.
  intros (Hok & Hset & Hlen). destruct (popped_blocks_to_spec m l n Hok) as (m' & E & Hok' & Hs & Hl).
  exists m'. split; [done|]. by split_and!; [|rewrite Hs|rewrite Hl].
Qed.

Lemma is_builtin_activated_stack m l c n :
  manager_ok m l -> n < not_active ->
  is_builtin_activated m c n = true <-> exists a, a ∈ l /\ snd a = c /\ act_block a <= n.
Proof.
  intros Hok Hn. unfold is_builtin_activated. split.
  - destruct (_ !! indx c) as [e|] eqn:E; [|done]. intros Hle. bprop.
    destruct (decide (c ∈ snd <$> l)) as [Hin|Hni].
    + apply list_elem_of_fmap in Hin as (a & -> & Ha).
      destruct (linked_lookup _ _ _ _ (ok_linked _ _ Hok) Ha) as [p Hp]. simplify_eq. eauto.
    + rewrite <- (inactive_iff_fresh _ _ _ _ Hok E) in Hni. lia.
  - intros (a & Ha & <- & Hle). destruct (linked_lookup _ _ _ _ (ok_linked _ _ Hok) Ha) as [p Hp].
    rewrite Hp. cbn. by apply Z.leb_le.
Qed.

Lemma initialized_matches pfs : matches pfs (initialized_manager pfs) [].
Proof. split_and!; [apply initialized_manager_ok | done | cbn; by rewrite length_replicate]. Qed.

Lemma run_matches pfs ops :
  Forall op_in_range ops -> forall m l, matches pfs m l ->
    fst (run_ops ops m) = fst (run_stack pfs ops l) /\
    matches pfs (snd (run_ops ops m)) (snd (run_stack pfs ops l)).
Proof.
  induction 1 as [|o ops Ho _ IH]; intros m l Hm; [done|]. cbn [run_ops run_stack].
  destruct o as [d n|n].
  - pose proof (activate_matches pfs d n m l Hm Ho) as Hstep.
    destruct (activate_feature d n m) as [r m1], (stack_op pfs (Activate d n) l) as [r' l1].
    destruct Hstep as [-> Hm1]. destruct (IH _ _ Hm1).
    destruct (run_ops ops m1), (run_stack pfs ops l1). cbn in *. by subst.
  - destruct (pop_matches pfs n m l Hm) as (m1 & -> & Hm1). cbn [stack_op]. destruct (IH _ _ Hm1).
    destruct (run_ops ops m1), (run_stack pfs ops (kept n l)). cbn in *. by subst.
Qed.

(** C35: protocol_feature_manager implements a stack of activations: from its
    construction, over any sequence of activations (at block numbers below
    UINT32_MAX, the value that marks an inactive entry) and of pops to any
    block, every call has the outcome the stack has, popped_blocks_to always
    terminates without an exception, and afterwards is_builtin_activated answers
    for every codename and block number what the stack says. *)
Theorem manager_refines_stack pfs ops :
  Forall op_in_range ops ->
  let '(rs, m) := run_ops ops (initialized_manager pfs) in
  let '(rs', l) := run_stack pfs ops [] in
  rs = rs' /\ manager_ok m l /\
  (forall c n, n < not_active ->
     is_builtin_activated m c n = true <-> exists a, a ∈ l /\ snd a = c /\ act_block a <= n).
Proof.
  intros Hr. destruct (run_matches pfs ops Hr _ _ (initialized_matches pfs)) as [Hrs (Hok & _)].
  destruct (run_ops _ _) as [rs m], (run_stack _ _ _) as [rs' l]. cbn in *.
  split_and!; [done..|]. intros c n. by apply is_builtin_activated_stack.
Qed.

End Manager.

(** ** Concrete features *)

Module Examples.
Import FeatureSet Manager.

Definition toy_digest (z : Z) : digest_type := mk_digest z 0 0 0.

(** A stand-in for the hash of a packed feature that separates the codenames. *)
Definition toy_hash (_ : digest_type) (_ : gset digest_type) (c : builtin_protocol_feature_t) : digest_type :=
  toy_digest (Z.of_nat (indx c) + 1).

Definition toy_dependency (c : builtin_protocol_feature_t) : digest_type := toy_hash (toy_digest 0) ∅ c.
Definition toy_feature (c : builtin_protocol_feature_t) : builtin_protocol_feature :=
  make_default_builtin_protocol_feature (fun _ => toy_digest 0) c toy_dependency.

Definition add_all (cs : list builtin_protocol_feature_t) : res protocol_feature_set :=
  foldl (fun r c => let! s := r in add_feature toy_hash s (toy_feature c)) (Ok empty_set) cs.

Definition toy_set : protocol_feature_set :=
  match add_all [preactivate_feature; replace_deferred; no_duplicate_deferred_id] with
  | Ok s => s | Throw _ => empty_set
  end.

Definition toy_manager (ops : list op) : protocol_feature_manager := snd (run_ops ops (initialized_manager toy_set)).
Definition toy_stack (ops : list op) : list activation := snd (run_stack toy_set ops []).
Definition toy_ops : list op := [Activate (toy_digest 1) 10; Activate (toy_digest 3) 20; Activate (toy_digest 4) 20; Activate (toy_digest 3) 20;
   PopTo 15; Activate (toy_digest 3) 30].

Lemma toy_manager_ok : manager_ok (toy_manager toy_ops) (toy_stack toy_ops).
Proof.
  apply (run_matches toy_set toy_ops); [repeat constructor; done | apply initialized_matches].
Qed.

Lemma add_feature_ok_witness :
  exists s', add_feature toy_hash empty_set (toy_feature replace_deferred) = Ok s' /\ set_ok s'.
Proof.
  exists (added toy_hash empty_set (toy_feature replace_deferred)). split; [vm_refl|].
  apply (add_feature_ok toy_hash empty_set (toy_feature replace_deferred)); [apply empty_set_ok | vm_refl].
Defined.

Lemma manager_refines_stack_witness :
  fst (run_ops toy_ops (initialized_manager toy_set))
  = [Ok tt; Ok tt; Ok tt; Throw protocol_feature_exception; Ok tt; Ok tt].
Proof.
  pose proof (manager_refines_stack toy_set toy_ops ltac:(repeat constructor; done)) as H.
  revert H. destruct (run_ops _ _) as [rs m]. destruct (run_stack toy_set toy_ops []) as [rs' l] eqn:E.
  intros [-> _]. cbn [fst]. assert (rs' = fst (run_stack toy_set toy_ops [])) as -> by (by rewrite E). vm_refl.
Defined.

Lemma popped_blocks_to_restores_witness :
  popped_blocks_to 40
    (snd (activate_all [mk_pf_entry (toy_digest 4) 41; mk_pf_entry (toy_digest 4) 41] (toy_manager toy_ops)))
  = (Ok tt, toy_manager toy_ops).
Proof.
  apply (popped_blocks_to_restores _ (toy_stack toy_ops) 40 [mk_pf_entry (toy_digest 4) 41; mk_pf_entry (toy_digest 4) 41]).
  - apply toy_manager_ok.
  - vm_compute. repeat constructor; discriminate.
  - lia.
  - repeat constructor; done.
Defined.

Lemma init_restores_witness :
  init (_activated_protocol_features (toy_manager toy_ops)) (make_manager toy_set) = (Ok tt, toy_manager toy_ops).
Proof.
  apply (init_restores (toy_manager toy_ops) (toy_stack toy_ops)); [apply toy_manager_ok | vm_refl].
Defined.

End Examples.
