(* ===== verification/WhitelistedIntrinsics.v ===== *)
(** The whitelist of intrinsics: libraries/chain/whitelisted_intrinsics.cpp.

    whitelisted_intrinsics_type is a flat multimap from the 64-bit hash of a name
    to the name: a list of pairs kept in the order of the hashes, an insertion
    going after the entries with an equal hash.  std::hash is a parameter and
    different names may have the same hash. *)

From Stdlib Require Import ZArith Lia.
From stdpp Require Import base gmap strings numbers sorting list.
From S2P Require Import Prelude.

Local Open Scope Z_scope.

Module Whitelist.

Abbreviation whitelisted_intrinsics_type := (list (Z * string)).

(** lower_bound( h ): how many entries come before it. *)
Fixpoint lower_bound (w : whitelisted_intrinsics_type) (h : Z) : nat :=
  match w with
  | (k, _) :: w' => if k <? h then S (lower_bound w' h) else O
  | [] => O
  end.

(** emplace: at the upper bound of the hash. *)
Fixpoint emplace (h : Z) (name : string) (w : whitelisted_intrinsics_type) : whitelisted_intrinsics_type :=
  match w with
  | (k, n) :: w' => if k <=? h then (k, n) :: emplace h name w' else (h, name) :: (k, n) :: w'
  | [] => [(h, name)]
  end.

(** find_intrinsic_helper on the entries from the iterator to the end: how far
    the iterator moves to the name. *)
Fixpoint find_intrinsic_helper (h : Z) (name : string) (itr : whitelisted_intrinsics_type) : option nat :=
  match itr with
  | (k, n) :: itr' =>
      if k =? h then if String.eqb n name then Some O else S <$> find_intrinsic_helper h name itr'
      else None
  | [] => None
  end.

Definition find_intrinsic (w : whitelisted_intrinsics_type) (h : Z) (name : string) : option nat :=
  let itr := lower_bound w h in
  Nat.add itr <$> find_intrinsic_helper h name (drop itr w).

Section Hash.
Context (string_hash : string -> Z).

Definition is_intrinsic_whitelisted (w : whitelisted_intrinsics_type) (name : string) : bool :=
  let h := u64 (string_hash name) in
  bool_decide (is_Some (find_intrinsic_helper h name (drop (lower_bound w h) w))).

Definition add_intrinsic_to_whitelist (name : string) : exec whitelisted_intrinsics_type unit :=
  do w <- get_state;
  let h := u64 (string_hash name) in
  check (bool_decide (find_intrinsic w h name = None)) else database_exception;
  put_state (emplace h name w).

Definition remove_intrinsic_from_whitelist (name : string) : exec whitelisted_intrinsics_type unit :=
  do w <- get_state;
  match find_intrinsic w (u64 (string_hash name)) name with
  | None => lift (Throw database_exception)
  | Some i => put_state (delete i w)
  end.

(** [s] lists the elements of the std::set in its order. *)
Definition reset_intrinsic_whitelist (s : list string) : exec whitelisted_intrinsics_type unit :=
  do _ <- put_state [];
  for_each s (fun name => modify (emplace (u64 (string_hash name)) name)).

Definition convert_intrinsic_whitelist_to_set (w : whitelisted_intrinsics_type) : gset string :=
  list_to_set (snd <$> w).

(** ** The whitelist refines a set of names *)

Definition entry_le : relation (Z * string) := fun a b => fst a <= fst b.

(** The entries are in hash order, hold the hash of their name, and represent
    the set [s] with no name twice. *)
Record whitelist_ok (w : whitelisted_intrinsics_type) (s : gset string) : Prop := {
  wl_sorted : StronglySorted entry_le w;
  wl_hash : Forall (fun e => fst e = u64 (string_hash (snd e))) w;
  wl_nodup : NoDup (snd <$> w);
  wl_names : forall n, n ∈ s <-> n ∈ snd <$> w
}.

Lemma find_helper_spec h name w :
  StronglySorted entry_le w -> Forall (fun e => h <= fst e) w ->
  match find_intrinsic_helper h name w with
  | Some i => w !! i = Some (h, name)
  | None => (h, name) ∉ w
  end.
Proof.
  induction w as [|[k n] w IH]; intros Hs Hge; [apply not_elem_of_nil|].
  apply StronglySorted_cons in Hs as [Hall Hs]. apply Forall_cons in Hge as [Hk Hge].
  cbn in *. destruct (k =? h) eqn:E; bprop.
  - subst k. destruct (String.eqb_spec n name) as [->|Hne]; [done|].
    specialize (IH Hs Hge). destruct (find_intrinsic_helper h name w); cbn; [done|].
    rewrite not_elem_of_cons. split; [congruence | done].
  - rewrite not_elem_of_cons. split; [congruence|]. intros Hin.
    rewrite Forall_forall in Hall. specialize (Hall _ Hin). unfold entry_le in Hall. cbn in Hall. lia.
Qed.

Lemma lower_bound_spec w h :
  StronglySorted entry_le w ->
  Forall (fun e => fst e < h) (take (lower_bound w h) w) /\ Forall (fun e => h <= fst e) (drop (lower_bound w h) w).
Proof.
  induction w as [|[k n] w IH]; intros Hs; [done|]. apply StronglySorted_cons in Hs as [Hall Hs].
  cbn. destruct (k <? h) eqn:E; bprop; cbn.
  - destruct (IH Hs). split; [by constructor|done].
  - split; [constructor|]. constructor; [done|]. eapply Forall_impl; [done|]. unfold entry_le. cbn. lia.
Qed.

Lemma sorted_drop i w : StronglySorted entry_le w -> StronglySorted entry_le (drop i w).
Proof.
  revert i. induction w as [|e w IH]; intros [|i] Hs; try done. cbn. apply IH.
  by apply StronglySorted_cons in Hs as [_ ?].
Qed.

Lemma find_intrinsic_spec w s name :
  whitelist_ok w s ->
  let h := u64 (string_hash name) in
  match find_intrinsic w h name with
  | Some i => w !! i = Some (h, name) /\ name ∈ s
  | None => name ∉ s
  end.
Proof.
  intros Hok h. destruct (lower_bound_spec w h (wl_sorted _ _ Hok)) as [Hlt Hge].
  pose proof (find_helper_spec h name _ (sorted_drop (lower_bound w h) w (wl_sorted _ _ Hok)) Hge) as Hf.
  unfold find_intrinsic. destruct (find_intrinsic_helper _ _ _) as [i|]; cbn.
  - rewrite lookup_drop in Hf. split; [done|]. apply (wl_names _ _ Hok).
    apply list_elem_of_fmap. exists (h, name). split; [done|]. by eapply list_elem_of_lookup_2.
  - intros Hin. apply (wl_names _ _ Hok), list_elem_of_fmap in Hin as ([k n] & -> & Hin). cbn in *.
    pose proof (proj1 (Forall_forall _ _) (wl_hash _ _ Hok) _ Hin) as Hk. cbn in Hk. fold h in Hk. subst k.
    rewrite <- (take_drop (lower_bound w h) w), elem_of_app in Hin. destruct Hin as [Hin|Hin]; [|done].
    rewrite Forall_forall in Hlt. specialize (Hlt _ Hin). cbn in Hlt. lia.
Qed.

Lemma emplace_perm h name w : emplace h name w ≡ₚ (h, name) :: w.
Proof.
  induction w as [|[k n] w IH]; [done|]. cbn. destruct (k <=? h); [|done]. rewrite IH. apply perm_swap.
Qed.

Lemma emplace_sorted h name w : StronglySorted entry_le w -> StronglySorted entry_le (emplace h name w).
Proof.
  induction w as [|[k n] w IH]; intros Hs; [repeat constructor|].
  pose proof Hs as [Hall Hs']%StronglySorted_cons. cbn. destruct (k <=? h) eqn:E; bprop.
  - constructor; [by apply IH|]. rewrite emplace_perm. by constructor.
  - constructor; [done|]. constructor; [unfold entry_le; cbn; lia|].
    eapply Forall_impl; [done|]. unfold entry_le. cbn. lia.
Qed.

Lemma emplace_ok w s name :
  whitelist_ok w s -> name ∉ s -> whitelist_ok (emplace (u64 (string_hash name)) name w) ({[name]} ∪ s).
Proof.
  intros Hok Hn. constructor.
  - apply emplace_sorted, (wl_sorted _ _ Hok).
  - rewrite emplace_perm. by constructor; [|apply (wl_hash _ _ Hok)].
  - rewrite emplace_perm. cbn. constructor; [|apply (wl_nodup _ _ Hok)]. by rewrite <- (wl_names _ _ Hok).
  - intros n. rewrite emplace_perm. cbn. rewrite elem_of_cons, <- (wl_names _ _ Hok). set_solver.
Qed.

Lemma delete_ok w s name i :
  whitelist_ok w s -> w !! i = Some (u64 (string_hash name), name) -> whitelist_ok (delete i w) (s ∖ {[name]}).
Proof.
  intros Hok Hi. pose proof (delete_Permutation w i _ Hi) as Hp.
  pose proof (wl_nodup _ _ Hok) as Hnd. rewrite Hp in Hnd. cbn in Hnd. apply NoDup_cons in Hnd as [Hni Hnd].
  constructor.
  - rewrite delete_take_drop. pose proof (wl_sorted _ _ Hok) as Hs.
    rewrite <- (take_drop_middle w i _ Hi) in Hs.
    apply StronglySorted_app in Hs as (Hx & H1 & H2). apply StronglySorted_cons in H2 as [Ha H2].
    apply StronglySorted_app. split_and!; [|done..]. intros a b Ha' Hb. apply Hx; [done|by right].
  - pose proof (wl_hash _ _ Hok) as Hh. rewrite Hp in Hh. by apply Forall_cons in Hh as [_ ?].
  - done.
  - intros n. pose proof (wl_names _ _ Hok n) as Hn. rewrite Hp in Hn. cbn in Hn.
    rewrite elem_of_cons in Hn. rewrite elem_of_difference, elem_of_singleton. split; [naive_solver|].
    intros Hin. split; [naive_solver|]. by intros ->.
Qed.

Lemma empty_ok : whitelist_ok [] ∅.
Proof. constructor; [constructor..|]. intros n. set_solver. Qed.

Lemma reset_run l : forall w s,
  whitelist_ok w s -> NoDup l -> (forall n, n ∈ l -> n ∉ s) ->
  exists w', for_each l (fun name => modify (emplace (u64 (string_hash name)) name)) w = (Ok tt, w') /\
    whitelist_ok w' (list_to_set l ∪ s).
Proof.
  induction l as [|x l IH]; intros w s Hok Hnd Hdis; cbn.
  - exists w. split; [done|]. by rewrite union_empty_l_L.
  - apply NoDup_cons in Hnd as [Hx Hnd].
    destruct (IH _ _ (emplace_ok w s x Hok (Hdis x ltac:(by left))) Hnd) as (w' & E & Hok').
    { intros n Hn. specialize (Hdis n ltac:(by right)). set_solver. }
    exists w'. split; [done|]. by replace ({[x]} ∪ list_to_set l ∪ s) with (list_to_set l ∪ ({[x]} ∪ s)) by set_solver.
Qed.

(** the whitelist is a set of names, whatever the hash function and however
    its values collide: on a whitelist that represents [s],
    is_intrinsic_whitelisted decides membership, add_intrinsic_to_whitelist adds
    an absent name and throws database_exception on a present one,
    remove_intrinsic_from_whitelist removes a present name and throws on an
    absent one, a throw changes nothing, and the conversion to a std::set gives
    [s]. *)
Theorem whitelist_refines_set w s name :
  whitelist_ok w s ->
  is_intrinsic_whitelisted w name = bool_decide (name ∈ s) /\
  convert_intrinsic_whitelist_to_set w = s /\
  (let '(r, w') := add_intrinsic_to_whitelist name w in
   if decide (name ∈ s) then r = Throw database_exception /\ w' = w
   else r = Ok tt /\ whitelist_ok w' ({[name]} ∪ s)) /\
  (let '(r, w') := remove_intrinsic_from_whitelist name w in
   if decide (name ∈ s) then r = Ok tt /\ whitelist_ok w' (s ∖ {[name]})
   else r = Throw database_exception /\ w' = w).
Proof.
  intros Hok. pose proof (find_intrinsic_spec w s name Hok) as Hf. cbn in Hf. split_and!.
  - unfold is_intrinsic_whitelisted, find_intrinsic in *.
    destruct (find_intrinsic_helper _ _ _) as [i|]; cbn in Hf; symmetry; by apply bool_decide_ext; naive_solver.
  - unfold convert_intrinsic_whitelist_to_set. apply set_eq. intros n.
    by rewrite elem_of_list_to_set, (wl_names _ _ Hok).
  - unfold add_intrinsic_to_whitelist, bind, get_state, lift, put_state.
    destruct (find_intrinsic _ _ _) as [i|]; cbn.
    + destruct Hf as [_ Hin]. by rewrite decide_True.
    + rewrite decide_False by done. split; [done|]. by apply emplace_ok.
  - unfold remove_intrinsic_from_whitelist, bind, get_state, lift, put_state.
    destruct (find_intrinsic _ _ _) as [i|]; cbn.
    + destruct Hf as [Hi Hin]. rewrite decide_True by done. split; [done|]. by apply delete_ok.
    + by rewrite decide_False.
Qed.

(** resetting the whitelist to a std::set and converting it back gives the
    set, whatever the whitelist was before. *)
Theorem reset_convert_roundtrip (s : list string) w :
  NoDup s ->
  exists w', reset_intrinsic_whitelist s w = (Ok tt, w') /\
    convert_intrinsic_whitelist_to_set w' = list_to_set s /\ whitelist_ok w' (list_to_set s).
Proof.
  intros Hnd. destruct (reset_run s [] ∅ empty_ok Hnd) as (w' & E & Hok); [set_solver|].
  rewrite union_empty_r_L in Hok. exists w'. split_and!; [done| |done].
  unfold convert_intrinsic_whitelist_to_set. apply set_eq. intros n.
  by rewrite elem_of_list_to_set, <- (wl_names _ _ Hok).
Qed.

End Hash.

(** ** Names that collide *)

Definition length_hash (n : string) : Z := Z.of_nat (String.length n).

Definition example_whitelist : whitelisted_intrinsics_type :=
  snd (reset_intrinsic_whitelist length_hash ["abort"; "db_get"; "assert"; "memset"; "prints"; "eosio"] []).

Lemma example_whitelist_ok :
  whitelist_ok length_hash example_whitelist
    (list_to_set ["abort"; "db_get"; "assert"; "memset"; "prints"; "eosio"]).
Proof.
  destruct (reset_run length_hash ["abort"; "db_get"; "assert"; "memset"; "prints"; "eosio"] [] ∅
              (empty_ok _)) as (w' & E & Hok); [by apply (bool_decide_unpack _); vm_compute | set_solver |].
  rewrite union_empty_r_L in Hok. replace example_whitelist with w'; [done|].
  unfold example_whitelist, reset_intrinsic_whitelist, bind, put_state. by rewrite E.
Qed.

Lemma whitelist_refines_set_witness :
  is_intrinsic_whitelisted length_hash example_whitelist "memset" = true /\
  is_intrinsic_whitelisted length_hash example_whitelist "memcpy" = false.
Proof.
  split.
  - rewrite (proj1 (whitelist_refines_set length_hash _ _ "memset" example_whitelist_ok)). vm_refl.
  - rewrite (proj1 (whitelist_refines_set length_hash _ _ "memcpy" example_whitelist_ok)). vm_refl.
Defined.

Lemma reset_convert_roundtrip_witness :
  exists w', reset_intrinsic_whitelist length_hash ["abort"; "eosio"] [(7, "x")] = (Ok tt, w') /\
    convert_intrinsic_whitelist_to_set w' = list_to_set ["abort"; "eosio"].
Proof.
  destruct (reset_convert_roundtrip length_hash ["abort"; "eosio"] [(7, "x")]) as (w' & E & Hc & _).
  - by apply (bool_decide_unpack _); vm_compute.
  - by exists w'.
Defined.

End Whitelist.
