(* ===== verification/FeatureActivation.v ===== *)
(** How the controller uses protocol features: the parts of
    libraries/chain/controller.cpp that check, pre-activate and activate them,
    with the activation handlers.

    [database] holds the chainbase objects this code touches, [chain_state] the
    controller's members.  What start_block does after the activations is an
    argument here; its parts are in ProposedSchedule.v (the producer schedule) and
    FinalizeBlock.v (the implicit onblock transaction, the producers' permissions).
    Undoing a chainbase session gives back the objects as they were when it was
    opened. *)

From Stdlib Require Import ZArith Lia.
From stdpp Require Import base gmap strings numbers sorting list.
From S2P Require Import Prelude Chainbase Merkle ResourceLimits BlockTimestamp ProtocolFeatures WhitelistedIntrinsics.

Local Open Scope Z_scope.

Module Features.
Import FeatureSet Manager.

(** ** check_protocol_features *)

(** The loop, [before] being the features from the beginning to the iterator. *)
Fixpoint check_features (pfs : protocol_feature_set) (time : Z) (current : gset digest_type)
    (before new : list digest_type) : res unit :=
  match new with
  | [] => Ok tt
  | f :: new' =>
      assert! (match is_recognized pfs f time with ready => true | _ => false end)
        else protocol_feature_exception in
      assert! (bool_decide (f ∉ current)) else protocol_feature_exception in
      assert! (validate_dependencies pfs f (fun d => bool_decide (d ∈ current) || bool_decide (d ∈ before)))
        else protocol_feature_exception in
      check_features pfs time current (before ++ [f]) new'
  end.

(** ** The pending block *)

Inductive block_status : Set := irreversible | validated | complete | incomplete.

#[export] Instance block_status_eq_dec : EqDecision block_status.
Proof. solve_decision. Defined.

(** building_block with the parts of its pending_block_header_state the feature
    code reads. *)
Record building_block := mk_building {
  bb_block_num : Z;
  bb_timestamp : Z;
  bb_prev_activated_protocol_features : gset digest_type;
  _new_protocol_feature_activations : list digest_type;
  _num_new_protocol_features_that_have_activated : nat
}.

Inductive block_stage_type : Type :=
| building (bb : building_block)
| assembled (timestamp : Z)
| completed (timestamp : Z) (activated_protocol_features : gset digest_type).

Record pending_state := mk_pending { _block_stage : block_stage_type; _block_status : block_status }.

Definition pending_is_protocol_feature_activated (p : pending_state) (d : digest_type) : res bool :=
  match _block_stage p with
  | building bb =>
      Ok (bool_decide (d ∈ bb_prev_activated_protocol_features bb) ||
          bool_decide (d ∈ take (_num_new_protocol_features_that_have_activated bb)
                             (_new_protocol_feature_activations bb)))
  | assembled _ => Throw misc_exception
  | completed _ activated => Ok (bool_decide (d ∈ activated))
  end.

(** ** The state *)

Record protocol_state_object := mk_pso {
  activated_protocol_features : list protocol_feature_entry;
  preactivated_protocol_features : list digest_type;
  whitelisted_intrinsics : list (Z * string)
}.

Record account_ram_correction_object := mk_correction { correction_name : Z; ram_correction : Z }.

Section Controller.
Context {TL TU TC : Type} `{!Table (bool * Z) ResourceLimits.Manager.resource_limits_object TL}
  `{!Table Z ResourceLimits.Manager.resource_usage_object TU} `{!Table Z account_ram_correction_object TC}.
(** std::hash and fc::milliseconds *)
Context (string_hash : string -> Z) (milliseconds : Z -> Z).

Abbreviation to_time_point := (BlockTimestamp.to_time_point milliseconds).

Definition check_protocol_features (pfs : protocol_feature_set) (timestamp : Z)
    (currently_activated_protocol_features : gset digest_type) (new_protocol_features : list digest_type) : res unit :=
  check_features pfs (to_time_point timestamp) currently_activated_protocol_features [] new_protocol_features.

Record database := mk_database {
  pso : protocol_state_object;
  resource_limits : ResourceLimits.Manager.database (TL := TL) (TU := TU);
  ram_corrections : TC
}.

Record chain_state := mk_chain {
  db : database;
  protocol_features : protocol_feature_manager;
  pending : option pending_state;
  head_block_num : Z;
  head_activated_protocol_features : gset digest_type;
  db_revision : Z;
  read_mode_speculative : bool
}.

Definition set_db (d : database) (s : chain_state) : chain_state :=
  mk_chain d (protocol_features s) (pending s) (head_block_num s) (head_activated_protocol_features s)
    (db_revision s) (read_mode_speculative s).
Definition set_features (m : protocol_feature_manager) (s : chain_state) : chain_state :=
  mk_chain (db s) m (pending s) (head_block_num s) (head_activated_protocol_features s)
    (db_revision s) (read_mode_speculative s).
Definition set_pending (p : option pending_state) (s : chain_state) : chain_state :=
  mk_chain (db s) (protocol_features s) p (head_block_num s) (head_activated_protocol_features s)
    (db_revision s) (read_mode_speculative s).
Definition set_pso (p : protocol_state_object) (d : database) : database :=
  mk_database p (resource_limits d) (ram_corrections d).
Definition set_whitelist (w : list (Z * string)) (p : protocol_state_object) : protocol_state_object :=
  mk_pso (activated_protocol_features p) (preactivated_protocol_features p) w.

(** controller::is_protocol_feature_activated *)
Definition is_protocol_feature_activated (s : chain_state) (d : digest_type) : res bool :=
  match pending s with
  | Some p => pending_is_protocol_feature_activated p d
  | None => Ok (bool_decide (d ∈ head_activated_protocol_features s))
  end.

(** controller::is_builtin_activated *)
Definition controller_is_builtin_activated (s : chain_state) (c : builtin_protocol_feature_t) : bool :=
  is_builtin_activated (protocol_features s) c
    (match pending s with Some _ => u32 (head_block_num s + 1) | None => head_block_num s end).

Definition is_producing_block (s : chain_state) : bool :=
  match pending s with Some p => bool_decide (_block_status p = incomplete) | None => false end.

(** ** Activation handlers *)

Definition whitelist (name : string) : exec database unit :=
  zoom (fun d => whitelisted_intrinsics (pso d)) (fun w d => set_pso (set_whitelist w (pso d)) d)
    (Whitelist.add_intrinsic_to_whitelist string_hash name).

Definition on_activation_preactivate_feature : exec database unit :=
  do _ <- whitelist "preactivate_feature"; whitelist "is_feature_activated".

Definition on_activation_get_sender : exec database unit := whitelist "get_sender".

Definition in_limits {A} (m : exec (ResourceLimits.Manager.database (TL := TL) (TU := TU)) A) : exec database A :=
  zoom resource_limits (fun r d => mk_database (pso d) r (ram_corrections d)) m.

(** One turn of on_activation<replace_deferred>'s loop, on the row [c] at
    begin(). *)
Definition apply_correction (id : Z) (c : account_ram_correction_object) : exec database unit :=
  do current_ram_usage <- in_limits (ResourceLimits.Manager.get_account_ram_usage (correction_name c));
  let ram_delta := if u64 current_ram_usage <? ram_correction c then - current_ram_usage
                   else - i64 (ram_correction c) in
  do _ <- in_limits (ResourceLimits.Manager.add_pending_ram_usage (correction_name c) ram_delta);
  modify (fun d => mk_database (pso d) (resource_limits d) (tbl_remove id (ram_corrections d))).

(** The loop takes the first row until there is none. *)
Fixpoint apply_corrections (fuel : nat) : exec database unit :=
  do d <- get_state;
  match tbl_rows (ram_corrections d) with
  | [] => ret tt
  | (id, c) :: _ =>
      match fuel with
      | O => lift (Throw out_of_fuel)
      | S fuel' => do _ <- apply_correction id c; apply_corrections fuel'
      end
  end.

Definition on_activation_replace_deferred : exec database unit :=
  do d <- get_state; apply_corrections (length (tbl_rows (ram_corrections d))).

(** trigger_activation_handler over the handlers the constructor sets. *)
Definition trigger_activation_handler (f : builtin_protocol_feature_t) : exec database unit :=
  match f with
  | preactivate_feature => on_activation_preactivate_feature
  | replace_deferred => on_activation_replace_deferred
  | get_sender => on_activation_get_sender
  | _ => ret tt
  end.

(** ** preactivate_feature *)

Definition preactivate (d : digest_type) (p : protocol_state_object) : protocol_state_object :=
  mk_pso (activated_protocol_features p) (preactivated_protocol_features p ++ [d]) (whitelisted_intrinsics p).

(** pending_block_time throws when no block is pending. *)
Definition pending_block_time (s : chain_state) : res Z :=
  match pending s with
  | None => Throw block_validate_exception
  | Some p =>
      Ok (to_time_point (match _block_stage p with
                         | building bb => bb_timestamp bb
                         | assembled t | completed t _ => t
                         end))
  end.

(** The dependency checker: activated or pre-activated. *)
Definition activated_or_preactivated (s : chain_state) (d : digest_type) : bool :=
  match is_protocol_feature_activated s d with
  | Ok true => true
  | _ => bool_decide (d ∈ preactivated_protocol_features (pso (db s)))
  end.

Definition controller_preactivate_feature (feature_digest : digest_type) : exec chain_state unit :=
  do s <- get_state;
  let pfs := _protocol_feature_set (protocol_features s) in
  do cur_time <- lift (pending_block_time s);
  let subjective := if is_producing_block s then subjective_block_production_exception
                    else protocol_feature_bad_block_exception in
  check (match is_recognized pfs feature_digest cur_time with ready => true | _ => false end) else subjective;
  do activated <- lift (is_protocol_feature_activated s feature_digest);
  check (negb activated) else protocol_feature_exception;
  check (bool_decide (feature_digest ∉ preactivated_protocol_features (pso (db s)))) else protocol_feature_exception;
  check (validate_dependencies pfs feature_digest (activated_or_preactivated s)) else protocol_feature_exception;
  modify (fun s => set_db (set_pso (preactivate feature_digest (pso (db s))) (db s)) s).

Definition get_preactivated_protocol_features (s : chain_state) : list digest_type :=
  preactivated_protocol_features (pso (db s)).

(** controller::validate_protocol_features, [timestamp] being the head's. *)
Definition validate_protocol_features (s : chain_state) (timestamp : Z) (features_to_activate : list digest_type)
    : res unit :=
  check_protocol_features (_protocol_feature_set (protocol_features s)) timestamp
    (head_activated_protocol_features s) features_to_activate.

(** ** Activation at the start of a block *)

Definition bump_activated (p : pending_state) : pending_state :=
  match _block_stage p with
  | building bb =>
      mk_pending (building (mk_building (bb_block_num bb) (bb_timestamp bb) (bb_prev_activated_protocol_features bb)
        (_new_protocol_feature_activations bb) (S (_num_new_protocol_features_that_have_activated bb))))
        (_block_status p)
  | _ => p
  end.

(** One turn of start_block's loop over the new activations; [activated] is
    the flat_map from digest to whether it has been activated, [n] counts the
    pre-activated ones that have. *)
Definition activate_one (block_num : Z) (d : digest_type) (activated : gmap digest_type bool) (n : nat)
    : exec chain_state nat :=
  do s <- get_state;
  do f <- lift (get_protocol_feature (_protocol_feature_set (protocol_features s)) d);
  do n' <- lift (match activated !! d with
                 | None => assert! (negb (preactivation_required f)) else protocol_feature_exception in Ok n
                 | Some was => assert! (negb was) else block_validate_exception in Ok (S n)
                 end);
  do _ <- zoom db set_db (match builtin_feature f with
                          | Some c => trigger_activation_handler c
                          | None => ret tt
                          end);
  do _ <- zoom protocol_features set_features (activate_feature d block_num);
  do _ <- modify (fun s => set_pending (bump_activated <$> pending s) s);
  ret n'.

Fixpoint activate_new (block_num : Z) (new : list digest_type) (activated : gmap digest_type bool) (n : nat)
    : exec chain_state nat :=
  match new with
  | [] => ret n
  | d :: new' =>
      do n' <- activate_one block_num d activated n;
      activate_new block_num new' (<[d := true]> activated) n'
  end.

Definition record_activations (block_num : Z) (new : list digest_type) (p : protocol_state_object) :=
  mk_pso (activated_protocol_features p ++ ((fun d => mk_pf_entry d block_num) <$> new)) []
    (whitelisted_intrinsics p).

(** The part of start_block about protocol features, once the block is pending. *)
Definition start_block_activations (block_num : Z) (new : list digest_type) : exec chain_state unit :=
  do s <- get_state;
  let pre := preactivated_protocol_features (pso (db s)) in
  do handled <- match new with
    | [] => ret (bool_decide (pre = []))
    | _ =>
        do n <- activate_new block_num new (list_to_map ((fun d => (d, false)) <$> pre)) 0;
        ret (bool_decide (pre = []) || bool_decide (n = length pre))
    end;
  check handled else block_validate_exception;
  match new with
  | [] => ret tt
  | _ => modify (fun s => set_db (set_pso (record_activations block_num new (pso (db s))) (db s)) s)
  end.

(** start_block, [bb] being the building block made from the head block: the
    pending block is set up, over a database session unless [skip_db_sessions];
    on an exception the scoped exit pops the features and resets the pending
    block, which undoes its session.  [rest] is what follows the activations
    under the same guard, on the database: the promotion of the proposed schedule,
    the onblock transaction, clear_expired_input_transactions and
    update_producers_authority. *)
Definition start_block (rest : exec database unit) (skip_db_sessions : bool) (bb : building_block) (s : block_status)
    : exec chain_state unit :=
  do st <- get_state;
  check (bool_decide (pending st = None)) else block_validate_exception;
  let unwind (e : exn) (st2 : chain_state) :=
    match popped_blocks_to (head_block_num st) (protocol_features st2) with
    | (Ok _, m) =>
        (Throw e, set_db (if skip_db_sessions then db st2 else db st) (set_pending None (set_features m st2)))
    | (Throw _, _) => (Throw undefined_behavior, st2) (* thrown from a destructor *)
    end in
  if negb skip_db_sessions && negb (db_revision st =? head_block_num st) then unwind database_exception
  else
    do _ <- modify (set_pending (Some (mk_pending (building bb) s)));
    if read_mode_speculative st || negb (bool_decide (s = incomplete)) then
      fun st1 =>
        match (do _ <- start_block_activations (bb_block_num bb) (_new_protocol_feature_activations bb);
               zoom db set_db rest) st1 with
        | (Ok _, st2) => (Ok tt, st2)
        | (Throw e, st2) => unwind e st2
        end
    else ret tt.

(** ** Checking *)

(** What check_protocol_features asks of the [i]th new feature [d]. *)
Definition admissible (pfs : protocol_feature_set) (time : Z) (current : gset digest_type)
    (before : list digest_type) (d : digest_type) : Prop :=
  is_recognized pfs d time = ready /\ (d ∉ current) /\
  exists f, _recognized_protocol_features pfs !! d = Some f /\
    forall x, x ∈ dependencies f -> x ∈ current \/ x ∈ before.

Definition dependency_closed (pfs : protocol_feature_set) (a : gset digest_type) : Prop :=
  forall d x, d ∈ a -> depends_on pfs d x -> x ∈ a.

Lemma validate_dependencies_iff pfs d v :
  validate_dependencies pfs d v = true <->
  exists f, _recognized_protocol_features pfs !! d = Some f /\ forall x, x ∈ dependencies f -> v x = true.
Proof.
  unfold validate_dependencies. destruct (_ !! d) as [f|]; [|naive_solver].
  rewrite forallb_forall. split.
  - intros H. exists f. split; [done|]. intros x Hx. apply H, list_elem_of_In. set_solver.
  - intros (f' & [= <-] & H) x Hx%list_elem_of_In. apply H. set_solver.
Qed.

Lemma is_ready_iff pfs d time :
  match is_recognized pfs d time with ready => true | _ => false end = true <-> is_recognized pfs d time = ready.
Proof. by destruct (is_recognized pfs d time). Qed.

Lemma check_features_cons pfs time current before d new :
  (admissible pfs time current before d /\
   check_features pfs time current before (d :: new) = check_features pfs time current (before ++ [d]) new) \/
  (~ admissible pfs time current before d /\
   check_features pfs time current before (d :: new) = Throw protocol_feature_exception).
Proof.
  cbn [check_features]. unfold admissible. rewrite <- is_ready_iff.
  destruct (match is_recognized pfs d time with ready => true | _ => false end); cbn; [|right; naive_solver].
  destruct (bool_decide (d ∉ current)) eqn:Ec; cbn; bprop; [|right; naive_solver].
  destruct (validate_dependencies _ _ _) eqn:Ev; cbn.
  - left. split; [|done]. split_and!; [done..|]. apply validate_dependencies_iff in Ev as (f & Hf & Hv).
    exists f. split; [done|]. intros x Hx. specialize (Hv x Hx). apply orb_true_iff in Hv as [Hv|Hv]; bprop; auto.
  - right. split; [|done]. intros (_ & _ & f & Hf & Hv). apply not_true_iff_false in Ev. apply Ev.
    apply validate_dependencies_iff. exists f. split; [done|]. intros x Hx.
    apply orb_true_iff. rewrite !bool_decide_eq_true. auto.
Qed.

Lemma check_features_spec pfs time current new : forall before,
  (check_features pfs time current before new = Ok tt /\
   forall i d, new !! i = Some d -> admissible pfs time current (before ++ take i new) d) \/
  (check_features pfs time current before new = Throw protocol_feature_exception /\
   exists i d, new !! i = Some d /\ ~ admissible pfs time current (before ++ take i new) d).
Proof.
  induction new as [|d new IH]; intros before; [by left|].
  destruct (check_features_cons pfs time current before d new) as [[Ha ->]|[Hna ->]].
  - destruct (IH (before ++ [d])) as [[-> Hall]|[-> (i & d' & Hi & Hn)]].
    + left. split; [done|]. intros [|i] d' Hi; cbn in *; [by simplify_eq; rewrite app_nil_r|].
      specialize (Hall i d' Hi). by rewrite <- app_assoc in Hall.
    + right. split; [done|]. exists (S i), d'. split; [done|]. cbn. by rewrite <- app_assoc in Hn.
  - right. split; [done|]. exists O, d. split; [done|]. cbn. by rewrite app_nil_r.
Qed.

(** check_protocol_features accepts a list of new features exactly when
    each of them is recognized, enabled and not too early, is not already
    activated, and has every dependency either activated or earlier in the list;
    otherwise it throws protocol_feature_exception.  When the activated features
    are closed under dependencies and the list is accepted, they still are with
    the new ones. *)
Theorem check_protocol_features_ok pfs timestamp current new :
  let ok := forall i d, new !! i = Some d -> admissible pfs (to_time_point timestamp) current (take i new) d in
  (check_protocol_features pfs timestamp current new = Ok tt <-> ok) /\
  (~ ok -> check_protocol_features pfs timestamp current new = Throw protocol_feature_exception) /\
  (ok -> dependency_closed pfs current -> dependency_closed pfs (current ∪ list_to_set new)).
Proof.
  intros ok. unfold check_protocol_features.
  destruct (check_features_spec pfs (to_time_point timestamp) current new []) as [[-> Hall]|[-> (i & d & Hi & Hn)]].
  - split_and!; [done | intros Hno; by destruct Hno |]. intros _ Hc d x Hd (f & Hf & Hx).
    apply elem_of_union in Hd as [Hd|Hd%elem_of_list_to_set].
    + apply elem_of_union_l. apply (Hc d); [done|]. by exists f.
    + apply list_elem_of_lookup in Hd as [i Hi]. destruct (Hall i d Hi) as (_ & _ & f' & Hf' & Hdeps).
      simplify_eq. destruct (Hdeps x Hx) as [Hx'|Hx']; [set_solver|]. apply elem_of_union_r, elem_of_list_to_set.
      eapply subseteq_take; apply Hx'.
  - split_and!; [split; [done|] | done |]; intros Hok; by destruct Hn; apply Hok.
Qed.

(** ** Pre-activation *)

(** The features activated by the time the pending block has got to. *)
Definition activated_in (bb : building_block) : gset digest_type :=
  bb_prev_activated_protocol_features bb ∪
  list_to_set (take (_num_new_protocol_features_that_have_activated bb) (_new_protocol_feature_activations bb)).

(** The pre-activated features can be activated in their order. *)
Definition preactivated_ok (pfs : protocol_feature_set) (time : Z) (current : gset digest_type)
    (pre : list digest_type) : Prop :=
  NoDup pre /\ forall i d, pre !! i = Some d -> admissible pfs time current (take i pre) d.

Lemma is_recognized_later pfs d t t' : t <= t' -> is_recognized pfs d t = ready -> is_recognized pfs d t' = ready.
Proof.
  unfold is_recognized. intros Ht. destruct (_ !! d) as [f|]; [|done]. destruct (negb _); [done|].
  destruct (t <? _) eqn:E; [done|]. bprop. by rewrite (proj2 (Z.ltb_ge t' _)) by lia.
Qed.

Lemma preactivated_ok_snoc pfs time current pre d :
  preactivated_ok pfs time current pre -> d ∉ pre -> admissible pfs time current pre d ->
  preactivated_ok pfs time current (pre ++ [d]).
Proof.
  intros [Hnd Hall] Hd Ha. split.
  - apply NoDup_app. split_and!; [done | set_solver | apply NoDup_singleton].
  - intros i d' [[Hlt Hi]|[-> <-]]%lookup_snoc_Some.
    + rewrite take_app_le by lia. by apply Hall.
    + by rewrite take_app_length.
Qed.

Lemma preactivated_ok_checks pfs time timestamp current pre :
  preactivated_ok pfs time current pre -> time <= to_time_point timestamp ->
  check_protocol_features pfs timestamp current pre = Ok tt.
Proof.
  intros [_ Hall] Ht. unfold check_protocol_features.
  destruct (check_features_spec pfs (to_time_point timestamp) current pre []) as [[-> _]|[-> (i & d & Hi & Hn)]];
    [done|].
  destruct Hn. destruct (Hall i d Hi) as (Hr & Hc & Hd). split_and!; [by eapply is_recognized_later | done..].
Qed.

(** a feature that controller::preactivate_feature accepts during the
    building of a block can be activated at the start of the next one: it was
    not pre-activated before and is appended, the list stays one whose features
    are distinct, not activated, and preceded by their dependencies, and
    check_protocol_features accepts the whole list at every later block time.
    When it throws nothing changes. *)
Theorem preactivate_feature_ok s bb status d :
  let pfs := _protocol_feature_set (protocol_features s) in
  let now := to_time_point (bb_timestamp bb) in
  pending s = Some (mk_pending (building bb) status) ->
  preactivated_ok pfs now (activated_in bb) (get_preactivated_protocol_features s) ->
  match controller_preactivate_feature d s with
  | (Ok _, s') =>
      get_preactivated_protocol_features s' = get_preactivated_protocol_features s ++ [d] /\
      preactivated_ok pfs now (activated_in bb) (get_preactivated_protocol_features s') /\
      (forall timestamp, now <= to_time_point timestamp ->
         check_protocol_features pfs timestamp (activated_in bb) (get_preactivated_protocol_features s') = Ok tt) /\
      protocol_features s' = protocol_features s /\ pending s' = pending s
  | (Throw _, s') => s' = s
  end.
Proof.
  intros pfs now Hp Hpre. unfold controller_preactivate_feature, bind, get_state, lift, modify.
  unfold pending_block_time, is_protocol_feature_activated. rewrite Hp.
  cbn [pending_is_protocol_feature_activated _block_stage].
  destruct (match is_recognized _ d _ with ready => true | _ => false end) eqn:Er; cbn [eos_assert]; [|done].
  apply is_ready_iff in Er. set (act := (_ || _)%bool).
  destruct act eqn:Ea; cbn [negb eos_assert]; [done|].
  destruct (bool_decide (d ∉ _)) eqn:Ed; cbn [eos_assert]; [|done]. bprop.
  destruct (validate_dependencies _ _ _) eqn:Ev; cbn [eos_assert]; [|done].
  assert (forall x, x ∈ activated_in bb <->
    (bool_decide (x ∈ bb_prev_activated_protocol_features bb) ||
     bool_decide (x ∈ take (_num_new_protocol_features_that_have_activated bb)
                        (_new_protocol_feature_activations bb)))%bool = true) as Hact.
  { intros x. unfold activated_in. rewrite orb_true_iff, !bool_decide_eq_true. set_solver. }
  assert (admissible pfs now (activated_in bb) (get_preactivated_protocol_features s) d) as Hadm.
  { split_and!; [done | rewrite Hact; unfold act in Ea; congruence |].
    clear act Ea. apply validate_dependencies_iff in Ev as (f & Hf & Hv). exists f. split; [done|]. intros x Hx.
    specialize (Hv x Hx). unfold activated_or_preactivated, is_protocol_feature_activated in Hv.
    rewrite Hp in Hv. cbn in Hv. rewrite Hact. destruct (_ || _)%bool; [by left|]. right. by bprop. }
  cbn. pose proof (preactivated_ok_snoc _ _ _ _ _ Hpre Ed Hadm) as Hok.
  split_and!; [done | done | | done | done]. intros timestamp Ht. by eapply preactivated_ok_checks.
Qed.

(** ** Activation *)

(** The handlers leave the lists of features of the protocol state alone. *)
Definition feature_lists (d : database) : list protocol_feature_entry * list digest_type :=
  (activated_protocol_features (pso d), preactivated_protocol_features (pso d)).

Definition keeps_lists {A} (m : exec database A) : Prop := forall d, feature_lists (snd (m d)) = feature_lists d.

Lemma keeps_lists_bind {A B} (m : exec database A) (k : A -> exec database B) :
  keeps_lists m -> (forall a, keeps_lists (k a)) -> keeps_lists (bind m k).
Proof.
  intros Hm Hk d. unfold bind. specialize (Hm d). destruct (m d) as [[a|e] d1]; cbn in *; [|done].
  by rewrite Hk.
Qed.

Lemma keeps_lists_zoom {A} (m : exec (list (Z * string)) A) :
  keeps_lists (zoom (fun d => whitelisted_intrinsics (pso d)) (fun w d => set_pso (set_whitelist w (pso d)) d) m).
Proof. intros d. unfold zoom. by destruct (m _). Qed.

Lemma keeps_lists_in_limits {A} (m : exec ResourceLimits.Manager.database A) : keeps_lists (in_limits m).
Proof. intros d. unfold in_limits, zoom. by destruct (m _). Qed.

Lemma keeps_lists_corrections fuel : keeps_lists (apply_corrections fuel).
Proof.
  induction fuel as [|fuel IH]; cbn; (apply keeps_lists_bind; [done|]);
    intros d; destruct (tbl_rows _) as [|[id c] rows]; try done.
  apply keeps_lists_bind; [|intros; apply IH].
  apply keeps_lists_bind; [apply keeps_lists_in_limits | intros a].
  by apply keeps_lists_bind; [apply keeps_lists_in_limits | intros b].
Qed.

Lemma keeps_lists_handler f : keeps_lists (trigger_activation_handler f).
Proof.
  destruct f; cbn; try done.
  - apply keeps_lists_bind; [|intros a]; apply keeps_lists_zoom.
  - apply keeps_lists_bind; [done|]. intros d. apply keeps_lists_corrections.
  - apply keeps_lists_zoom.
Qed.

(** Everything but the features, the pending block and the database. *)
Definition frame (s s' : chain_state) : Prop :=
  head_block_num s' = head_block_num s /\
  head_activated_protocol_features s' = head_activated_protocol_features s /\
  db_revision s' = db_revision s /\ read_mode_speculative s' = read_mode_speculative s.

#[local] Instance frame_preorder : PreOrder frame.
Proof.
  split; [by intros s|]. intros s1 s2 s3 (H1 & H2 & H3 & H4) (G1 & G2 & G3 & G4).
  unfold frame. split_and!; congruence.
Qed.

Lemma activate_one_inv n d act k s r s1 :
  activate_one n d act k s = (r, s1) ->
  frame s s1 /\ feature_lists (db s1) = feature_lists (db s) /\
  (protocol_features s1 = protocol_features s \/
   protocol_features s1 = snd (activate_feature d n (protocol_features s))) /\
  (forall k', r = Ok k' -> exists f,
     _recognized_protocol_features (_protocol_feature_set (protocol_features s)) !! d = Some f /\
     activate_feature d n (protocol_features s) = (Ok tt, protocol_features s1) /\
     pending s1 = bump_activated <$> pending s /\
     match act !! d with
     | None => preactivation_required f = false /\ k' = k
     | Some was => was = false /\ k' = S k
     end).
Proof.
  unfold activate_one, bind, get_state, lift, modify, ret, get_protocol_feature.
  destruct (_recognized_protocol_features _ !! d) as [f|] eqn:Ef;
    [|intros [= <- <-]; split_and!; [done | done | by left | done]].
  destruct (match act !! d with Some _ => _ | None => _ end) as [k1|e] eqn:Ek;
    [|intros [= <- <-]; split_and!; [done | done | by left | done]].
  unfold zoom. set (h := match builtin_feature f with Some c => _ | None => _ end).
  assert (keeps_lists h) as Hh by (unfold h; destruct (builtin_feature f); [apply keeps_lists_handler | done]).
  specialize (Hh (db s)). destruct (h (db s)) as [[u|e] d1]; cbn -[activate_feature] in Hh |- *;
    [|intros [= <- <-]; split_and!; [done | done | by left | done]].
  destruct (activate_feature d n (protocol_features s)) as [[[]|e] m1] eqn:Em;
    intros [= <- <-]; split_and!; try done; try (by right).
  intros k' [= <-]. exists f. split_and!; [done..|].
  destruct (act !! d) as [was|]; [destruct was | destruct (preactivation_required f)]; by inv_res.
Qed.

Abbreviation entries n new := ((fun d => mk_pf_entry d n) <$> new).

Lemma activate_all_cons (e : protocol_feature_entry) fs m :
  activate_all (e :: fs) m
  = bind (activate_feature (pf_digest e) (pf_activation_block_num e)) (fun _ => activate_all fs) m.
Proof. done. Qed.

(** However far the loop gets, the manager has gone through a prefix of the
    activations. *)
Lemma activate_new_prefix n new : forall act k s r s',
  activate_new n new act k s = (r, s') ->
  frame s s' /\ feature_lists (db s') = feature_lists (db s) /\
  exists j, protocol_features s' = snd (activate_all (entries n (take j new)) (protocol_features s)).
Proof.
  induction new as [|d new IH]; intros act k s r s'; cbn [activate_new].
  { intros [= _ <-]. split_and!; [done | done | by exists O]. }
  unfold bind. destruct (activate_one n d act k s) as [[k1|e] s1] eqn:E1;
    apply activate_one_inv in E1 as (Hf & Hl & Hm & Hok).
  - intros H. apply IH in H as (Hf' & Hl' & j & Hj).
    destruct (Hok k1 eq_refl) as (f & _ & Ha & _). split_and!; [by transitivity s1 | congruence |].
    exists (S j). cbn [take fmap list_fmap]. rewrite activate_all_cons. unfold bind. cbn [pf_digest pf_activation_block_num].
    by rewrite Ha.
  - intros [= <- <-]. split_and!; [done..|]. destruct Hm as [Hm|Hm]; [by exists O|]. exists 1%nat.
    cbn [take fmap list_fmap]. rewrite activate_all_cons. unfold bind. cbn [pf_digest pf_activation_block_num].
    rewrite Hm. by destruct (activate_feature d n _) as [[[]|] ?].
Qed.

Definition preactivated_count (act : gmap digest_type bool) (new : list digest_type) : nat :=
  length (filter (fun d => act !! d = Some false) new).

Lemma preactivated_count_insert d act new :
  d ∉ new -> preactivated_count (<[d := true]> act) new = preactivated_count act new.
Proof.
  unfold preactivated_count. induction new as [|x new IH]; intros Hd; [done|].
  apply not_elem_of_cons in Hd as [Hne Hd]. specialize (IH Hd).
  rewrite !filter_cons, lookup_insert_ne by done. case_decide; cbn; lia.
Qed.

Lemma activate_new_ok n new : forall act k s k' s',
  activate_new n new act k s = (Ok k', s') ->
  activate_all (entries n new) (protocol_features s) = (Ok tt, protocol_features s') /\
  pending s' = Nat.iter (length new) (fmap bump_activated) (pending s) /\
  NoDup new /\ (forall d, d ∈ new -> act !! d <> Some true) /\
  (forall d, d ∈ new -> act !! d = None -> exists f,
     _recognized_protocol_features (_protocol_feature_set (protocol_features s)) !! d = Some f /\
     preactivation_required f = false) /\
  k' = (k + preactivated_count act new)%nat.
Proof.
  induction new as [|d new IH]; intros act k s k' s'; cbn [activate_new].
  { intros [= <- <-]. split_and!; [done | done | constructor | set_solver | set_solver | cbn; lia]. }
  unfold bind. destruct (activate_one n d act k s) as [[k1|e] s1] eqn:E1; [|done].
  apply activate_one_inv in E1 as (_ & _ & _ & Hok). destruct (Hok k1 eq_refl) as (f & Hf & Ha & Hp & Hk).
  intros H. apply IH in H as (Hall & Hp' & Hnd & Htrue & Hnone & ->).
  assert (_protocol_feature_set (protocol_features s1) = _protocol_feature_set (protocol_features s)) as Hset
    by (by eapply activate_feature_set in Ha as [? _]).
  assert (d ∉ new) as Hd by (intros Hd; apply (Htrue d Hd); by rewrite lookup_insert_eq).
  split_and!.
  - cbn [fmap list_fmap]. rewrite activate_all_cons. unfold bind. cbn [pf_digest pf_activation_block_num].
    by rewrite Ha.
  - cbn [length]. rewrite Nat.iter_succ_r. by rewrite Hp', Hp.
  - by constructor.
  - intros x [->|Hx]%elem_of_cons; [by destruct (act !! d) as [[]|] eqn:E; destruct Hk|].
    intros E. apply (Htrue x Hx). rewrite lookup_insert_ne; [done|]. by intros ->.
  - intros x [->|Hx]%elem_of_cons Hx'; [rewrite Hx' in Hk; destruct Hk; eauto|].
    rewrite <- Hset. apply (Hnone x Hx). rewrite lookup_insert_ne; [done|]. by intros ->.
  - rewrite preactivated_count_insert by done. unfold preactivated_count. rewrite filter_cons.
    destruct (act !! d) as [[]|]; destruct Hk as [? ->]; try done; case_decide; try done; cbn; lia.
Qed.

Lemma activate_all_vector fs : forall m m',
  activate_all fs m = (Ok tt, m') -> _activated_protocol_features m' = _activated_protocol_features m ++ fs.
Proof.
  induction fs as [|[d n] fs IH]; intros m m'; [intros [= <-]; by rewrite app_nil_r|].
  rewrite activate_all_cons. unfold bind. cbn [pf_digest pf_activation_block_num].
  destruct (activate_feature d n m) as [[[]|] m1] eqn:E; [|done]. intros H.
  apply IH in H as ->. apply activate_feature_set in E as [_ ->]. by rewrite <- app_assoc.
Qed.

Lemma count_all_preactivated (pre new : list digest_type) :
  NoDup pre -> NoDup new ->
  preactivated_count (list_to_map ((fun d => (d, false)) <$> pre)) new = length pre ->
  forall d, d ∈ pre -> d ∈ new.
Proof.
  intros Hpre Hnew Hlen d Hd. unfold preactivated_count in Hlen. set (sel := filter _ new) in Hlen.
  assert (sel ⊆+ pre) as Hsub.
  { apply NoDup_submseteq; [by apply NoDup_filter|]. intros x [Hx _]%list_elem_of_filter.
    apply elem_of_list_to_map_2 in Hx. by apply list_elem_of_fmap in Hx as (y & [= ->] & Hy). }
  assert (sel ≡ₚ pre) as Hp by (apply submseteq_length_Permutation; [done | lia]).
  rewrite <- Hp in Hd. by apply list_elem_of_filter in Hd as [_ ?].
Qed.

Lemma not_preactivated (pre : list digest_type) d : d ∉ pre -> list_to_map (M := gmap _ _) ((fun d => (d, false)) <$> pre) !! d = None.
Proof.
  intros Hd. apply not_elem_of_list_to_map_1. intros Hin. apply Hd.
  apply list_elem_of_fmap in Hin as ([x b] & -> & Hin). by apply list_elem_of_fmap in Hin as (y & [= -> ->] & Hy).
Qed.

(** What holds of the features at the start of a block. *)
Record features_ok (s : chain_state) (l : list activation) (block_num : Z) : Prop := {
  feat_manager : manager_ok (protocol_features s) l;
  feat_head : 0 <= head_block_num s;
  feat_blocks : Forall (fun a => act_block a <= head_block_num s) l;
  feat_next : head_block_num s < block_num < not_active;
  feat_nodup : NoDup (preactivated_protocol_features (pso (db s)));
  feat_synced : activated_protocol_features (pso (db s)) = _activated_protocol_features (protocol_features s)
}.

Lemma unwind_features s l n j :
  features_ok s l n ->
  popped_blocks_to (head_block_num s) (snd (activate_all (entries n j) (protocol_features s)))
  = (Ok tt, protocol_features s).
Proof.
  intros [Hm Hh Hb Hn _ _]. apply (pop_after_activations _ l); [done..|].
  apply Forall_forall. intros f (d & -> & _)%list_elem_of_fmap. done.
Qed.

Lemma start_block_activations_prefix n new s r s' :
  start_block_activations n new s = (r, s') ->
  frame s s' /\ exists j, protocol_features s' = snd (activate_all (entries n j) (protocol_features s)).
Proof.
  unfold start_block_activations, bind at 1, get_state. cbn -[activate_new]. unfold bind at 1.
  destruct new as [|d new].
  - cbn. unfold bind, lift, eos_assert. case_bool_decide; intros [= _ <-]; (split; [done|by exists []]).
  - unfold bind at 1. destruct (activate_new n (d :: new) _ 0 s) as [[k|e] s1] eqn:E;
      apply activate_new_prefix in E as (Hf & _ & j & Hj).
    + unfold bind, lift, eos_assert, modify, ret. destruct (_ || _)%bool; intros [= _ <-]; (split; [done|eauto]).
    + intros [= _ <-]. split; [done|eauto].
Qed.

Lemma start_block_unwinds rest s l bb status e s' :
  features_ok s l (bb_block_num bb) ->
  start_block rest false bb status s = (Throw e, s') -> s' = s.
Proof.
  intros Hok. unfold start_block, bind at 1 2, get_state, lift, eos_assert.
  destruct (bool_decide (pending s = None)) eqn:Ep; [|by intros [= _ <-]]. bprop. cbn [negb andb].
  assert (forall s2, frame s s2 ->
    (exists j, protocol_features s2 = snd (activate_all (entries (bb_block_num bb) j) (protocol_features s))) ->
    popped_blocks_to (head_block_num s) (protocol_features s2) = (Ok tt, protocol_features s) /\
    set_db (db s) (set_pending None (set_features (protocol_features s) s2)) = s) as Hunwind.
  { intros s2 (F1 & F2 & F3 & F4) (j & Hj). split; [rewrite Hj; by apply unwind_features with l|].
    unfold set_db, set_pending, set_features. destruct s, s2; cbn in *. congruence. }
  destruct (db_revision s =? head_block_num s); cbn [negb].
  - unfold bind, modify. destruct (read_mode_speculative s || _)%bool; [|done].
    destruct (start_block_activations _ _ _) as [[[]|e'] s2] eqn:E; apply start_block_activations_prefix in E as [Hf Hj].
    + unfold zoom. destruct (rest (db s2)) as [[[]|e'] d]; [done|]. destruct (Hunwind (set_db d s2)) as [-> Hs]; [done..|].
      intros [= _ <-]. apply Hs.
    + destruct (Hunwind s2) as [-> Hs]; [done | done |]. intros [= _ <-]. apply Hs.
  - destruct (Hunwind s) as [-> Hs]; [done | by exists [] |]. intros [= _ <-]. apply Hs.
Qed.

(** C37: start_block is atomic when it opens a database session (skip_db_sessions is
    false): when it throws - at the check of the database revision, at an
    unrecognized or already activated feature, at one that needed pre-activation,
    in an activation handler, because a pre-activated feature was left out, or in
    whatever follows the activations - the controller is back in the state it was
    called in: the feature manager, the protocol state, the RAM corrections and the
    resource limits, and no pending block.  It is stated for any code, changing the
    database only, in the place of what follows the activations. *)
Theorem start_block_atomic rest s l bb status e s' :
  features_ok s l (bb_block_num bb) ->
  start_block rest false bb status s = (Throw e, s') -> s' = s.
Proof. apply start_block_unwinds. Qed.

Definition bumped (k : nat) (bb : building_block) : building_block :=
  mk_building (bb_block_num bb) (bb_timestamp bb) (bb_prev_activated_protocol_features bb)
    (_new_protocol_feature_activations bb) (k + _num_new_protocol_features_that_have_activated bb).

Lemma iter_bump k bb status :
  Nat.iter k (fmap bump_activated) (Some (mk_pending (building bb) status))
  = Some (mk_pending (building (bumped k bb)) status).
Proof. induction k as [|k IH]; [by destruct bb|]. rewrite Nat.iter_succ, IH. done. Qed.

Lemma start_block_activations_ok n new s l s' :
  features_ok s l n -> start_block_activations n new s = (Ok tt, s') ->
  let pre := preactivated_protocol_features (pso (db s)) in
  activate_all (entries n new) (protocol_features s) = (Ok tt, protocol_features s') /\
  pending s' = Nat.iter (length new) (fmap bump_activated) (pending s) /\
  NoDup new /\ (forall d, d ∈ pre -> d ∈ new) /\
  (forall d, d ∈ new -> d ∉ pre -> exists f,
     _recognized_protocol_features (_protocol_feature_set (protocol_features s)) !! d = Some f /\
     preactivation_required f = false) /\
  feature_lists (db s') = (activated_protocol_features (pso (db s)) ++ entries n new, []).
Proof.
  intros Hok. unfold start_block_activations, bind at 1, get_state. cbn -[activate_new]. unfold bind at 1.
  destruct new as [|d new].
  - cbn. unfold bind, lift, eos_assert, ret. case_bool_decide as Hp; [|done]. intros [= <-].
    split_and!; [done | done | constructor | by rewrite Hp | set_solver |].
    unfold feature_lists. by rewrite Hp, app_nil_r.
  - unfold bind at 1. destruct (activate_new n (d :: new) _ 0 s) as [[k|e] s1] eqn:E; [|done].
    pose proof (activate_new_prefix _ _ _ _ _ _ _ E) as (_ & Hl & _).
    apply activate_new_ok in E as (Hall & Hp & Hnd & Htrue & Hnone & Hk).
    rewrite Nat.add_0_l in Hk.
    unfold bind, lift, eos_assert, modify, ret. destruct (_ || _)%bool eqn:Eh; [|done]. intros [= <-].
    unfold feature_lists in Hl. injection Hl as Hl1 Hl2.
    split_and!; [done | done | done | | intros x Hx Hx'; apply (Hnone x Hx); by apply not_preactivated |].
    + apply orb_true_iff in Eh as [Eh|Eh]; bprop; [rewrite Eh; set_solver|].
      apply count_all_preactivated; [apply Hok | done | congruence].
    + unfold feature_lists. cbn. by rewrite Hl1.
Qed.

(** once the activations are done (in a node that applies blocks speculatively,
    or for a block that is not being produced), every pre-activated feature has
    been activated, no feature twice, and one that was not pre-activated only if
    it does not require it; the protocol state records the new activations at
    the block's number after the old ones, in agreement with the feature
    manager, with no pre-activated feature left; and the pending block counts
    them all as activated. *)
Theorem start_block_activates s l bb status skip s' :
  features_ok s l (bb_block_num bb) -> _num_new_protocol_features_that_have_activated bb = O ->
  read_mode_speculative s || negb (bool_decide (status = incomplete)) = true ->
  start_block (ret tt) skip bb status s = (Ok tt, s') ->
  let new := _new_protocol_feature_activations bb in
  let pre := preactivated_protocol_features (pso (db s)) in
  NoDup new /\ (forall d, d ∈ pre -> d ∈ new) /\
  (forall d, d ∈ new -> d ∉ pre -> exists f,
     _recognized_protocol_features (_protocol_feature_set (protocol_features s)) !! d = Some f /\
     preactivation_required f = false) /\
  preactivated_protocol_features (pso (db s')) = [] /\
  activated_protocol_features (pso (db s')) =
    activated_protocol_features (pso (db s)) ++ entries (bb_block_num bb) new /\
  _activated_protocol_features (protocol_features s') = activated_protocol_features (pso (db s')) /\
  (forall d, is_protocol_feature_activated s' d
     = Ok (bool_decide (d ∈ bb_prev_activated_protocol_features bb) || bool_decide (d ∈ new))).
Proof.
  intros Hok Hnum Hmode. unfold start_block, bind at 1 2, get_state, lift, eos_assert.
  destruct (bool_decide (pending s = None)) eqn:Ep; [|done]. bprop.
  destruct (_ && _)%bool; [by destruct (popped_blocks_to _ _) as [[]]|].
  unfold bind, modify. rewrite Hmode. set (s1 := set_pending _ s).
  destruct (start_block_activations _ _ s1) as [[[]|e'] s2] eqn:E;
    [|by destruct (popped_blocks_to _ _) as [[]]]. unfold zoom, ret.
  replace (set_db (db s2) s2) with s2 by (by destruct s2). intros [= <-].
  assert (features_ok s1 l (bb_block_num bb)) as Hok1 by (by destruct Hok).
  apply (start_block_activations_ok _ _ _ l) in E as (Hall & Hp & Hnd & Hpre & Hreq & Hl); [|done].
  unfold feature_lists in Hl. injection Hl as Hl1 Hl2. apply activate_all_vector in Hall.
  pose proof (feat_synced _ _ _ Hok) as Hsync.
  split_and!; [done..| rewrite Hall, Hl1; cbn; by rewrite Hsync |].
  intros d. unfold is_protocol_feature_activated. rewrite Hp. cbn [s1 set_pending pending].
  rewrite iter_bump. cbn. rewrite Hnum, Nat.add_0_r. by rewrite firstn_all.
Qed.

(** Activations do not look at the pending block. *)
Lemma activate_new_pending n new : forall act k s p,
  exists p', activate_new n new act k (set_pending p s) =
    (fst (activate_new n new act k s), set_pending p' (snd (activate_new n new act k s))).
Proof.
  induction new as [|d new IH]; intros act k s p; cbn [activate_new]; [by exists p|].
  assert (exists p', activate_one n d act k (set_pending p s) =
    (fst (activate_one n d act k s), set_pending p' (snd (activate_one n d act k s)))) as [p1 E].
  { unfold activate_one, bind, get_state, lift, modify, ret, zoom. cbn [protocol_features set_pending db].
    destruct (get_protocol_feature _ d) as [f|e]; [|by exists p].
    destruct (match act !! d with Some _ => _ | None => _ end) as [k1|e]; [|by exists p].
    set (m := match builtin_feature f with Some c => trigger_activation_handler c | None => fun d => (Ok tt, d) end).
    destruct (m (db s)) as [[u|e] d1]; [|by exists p]. cbn [protocol_features set_pending set_db]. destruct (activate_feature d n (protocol_features s)) as [[[]|e] m1];
      [|by exists p]. by exists (bump_activated <$> p). }
  unfold bind. rewrite E. destruct (activate_one n d act k s) as [[k1|e] s1]; cbn [fst snd]; [|by exists p1].
  apply IH.
Qed.

Lemma start_block_activations_pending n new s p :
  exists p', start_block_activations n new (set_pending p s) =
    (fst (start_block_activations n new s), set_pending p' (snd (start_block_activations n new s))).
Proof.
  unfold start_block_activations, bind, get_state, lift, eos_assert, modify, ret. cbn [db set_pending].
  destruct new as [|d new]; [case_bool_decide; by exists p|].
  destruct (activate_new_pending n (d :: new)
    (list_to_map ((fun d => (d, false)) <$> preactivated_protocol_features (pso (db s)))) 0 s p) as [p1 E].
  rewrite E. destruct (activate_new n (d :: new) _ 0 s) as [[k|e] s1]; cbn [fst snd]; [|by exists p1].
  destruct (_ || _)%bool; by exists p1.
Qed.

(** ** The RAM corrections *)

Abbreviation usage_rows d := (tbl_view (ResourceLimits.Manager.usage (resource_limits d))).

(** The usage row after a correction: never below zero. *)
Definition lowered (correction : Z) (u : ResourceLimits.Manager.resource_usage_object) :=
  ResourceLimits.Manager.mk_usage (ResourceLimits.Manager.net_usage u) (ResourceLimits.Manager.cpu_usage u)
    (ResourceLimits.Manager.ram_usage u - Z.min (ResourceLimits.Manager.ram_usage u) correction).

(** Every correction is for an account that has a usage row, with a RAM usage an
    int64_t can hold, and no account has two. *)
Record corrections_ok (rows : gmap Z account_ram_correction_object)
    (usage : gmap Z ResourceLimits.Manager.resource_usage_object) : Prop := {
  corr_range : forall id c, rows !! id = Some c -> is_uint 64 (ram_correction c);
  corr_row : forall id c, rows !! id = Some c -> exists u, usage !! correction_name c = Some u /\
      0 <= ResourceLimits.Manager.ram_usage u < 2 ^ 63;
  corr_unique : forall id id' c c', rows !! id = Some c -> rows !! id' = Some c' ->
      correction_name c = correction_name c' -> id = id'
}.

Lemma apply_correction_ok id c d u :
  usage_rows d !! correction_name c = Some u -> 0 <= ResourceLimits.Manager.ram_usage u < 2 ^ 63 ->
  is_uint 64 (ram_correction c) ->
  exists d', apply_correction id c d = (Ok tt, d') /\ pso d' = pso d /\
    usage_rows d' = <[correction_name c := lowered (ram_correction c) u]> (usage_rows d) /\
    tbl_view (ram_corrections d') = delete id (tbl_view (ram_corrections d)).
Proof.
  intros Hu Hr Hc. unfold is_uint in Hc.
  unfold apply_correction, in_limits, zoom, ResourceLimits.Manager.get_account_ram_usage,
    ResourceLimits.Manager.add_pending_ram_usage, ResourceLimits.Manager.get_usage,
    ResourceLimits.Manager.put_usage, bind, get_state, lift, tbl_get, modify, ret.
  rewrite tbl_find_view, Hu. cbn.
  set (ram := ResourceLimits.Manager.ram_usage u) in *. rewrite (i64_small ram) by (unfold is_int64; lia).
  set (delta := if u64 ram <? ram_correction c then - ram else - i64 (ram_correction c)).
  assert (delta = - Z.min ram (ram_correction c)) as Hd.
  { unfold delta, u64. rewrite wrap_small by (unfold is_uint; lia).
    destruct (ram <? ram_correction c) eqn:E; bprop; [lia|]. rewrite i64_small by (unfold is_int64; lia). lia. }
  clearbody delta. subst delta. set (low := Z.min ram (ram_correction c)).
  assert (0 <= low <= ram) as Hlow by (unfold low; lia).
  destruct (- low =? 0) eqn:Ez; bprop.
  - cbn. eexists. split; [done|]. cbn. split_and!; [done | | apply tbl_remove_view].
    rewrite insert_id; [done|]. rewrite Hu. f_equal. unfold lowered. fold ram low. destruct u; cbn in *. f_equal. lia.
  - rewrite tbl_find_view, Hu. cbn.
    rewrite (proj2 (Z.leb_le (- low) 0)) by lia. cbn.
    rewrite (proj2 (Z.eqb_neq (- low) (- 2 ^ 63))) by lia. cbn [negb eos_assert].
    unfold u64. rewrite (wrap_small 64 (- - low)) by (unfold is_uint; lia).
    rewrite (proj2 (Z.leb_gt 0 (- low))) by lia. cbn [orb].
    fold ram. rewrite (proj2 (Z.leb_le (- - low) ram)) by lia. cbn.
    eexists. split; [done|]. cbn. split_and!; [done | | apply tbl_remove_view].
    rewrite tbl_put_view. unfold lowered. fold ram low. do 3 f_equal. unfold wrap.
    rewrite Zplus_mod_idemp_r, Z.mod_small; lia.
Qed.

Lemma corrections_ok_step rows usage id c u :
  corrections_ok rows usage -> rows !! id = Some c -> usage !! correction_name c = Some u ->
  corrections_ok (delete id rows) (<[correction_name c := lowered (ram_correction c) u]> usage).
Proof.
  intros Hok Hc Hu. constructor.
  - intros id' c' [_ H]%lookup_delete_Some. by eapply corr_range.
  - intros id' c' [Hne H]%lookup_delete_Some.
    destruct (corr_row _ _ Hok id' c' H) as (u' & Hu' & Hr). exists u'. split; [|done].
    rewrite lookup_insert_ne; [done|]. intros E. apply Hne. by eapply corr_unique.
  - intros i j a b [_ Ha]%lookup_delete_Some [_ Hb]%lookup_delete_Some. by eapply corr_unique.
Qed.

Lemma apply_corrections_ok fuel : forall d,
  let rows := tbl_view (ram_corrections d) in
  corrections_ok rows (usage_rows d) -> (size rows <= fuel)%nat ->
  exists d', apply_corrections fuel d = (Ok tt, d') /\ pso d' = pso d /\
    tbl_view (ram_corrections d') = ∅ /\
    (forall id c u, rows !! id = Some c -> usage_rows d !! correction_name c = Some u ->
       usage_rows d' !! correction_name c = Some (lowered (ram_correction c) u)) /\
    (forall a, (forall id c, rows !! id = Some c -> correction_name c <> a) -> usage_rows d' !! a = usage_rows d !! a).
Proof.
  induction fuel as [|fuel IH]; intros d rows Hok Hsize; cbn [apply_corrections]; unfold bind at 1, get_state;
    destruct (tbl_rows (ram_corrections d)) as [|[id c] rest] eqn:Er.
  1, 3: assert (rows = ∅) as Hempty by (apply map_empty; intros i; destruct (rows !! i) as [c|] eqn:E; [|done];
      apply tbl_rows_elem in E; rewrite Er in E; by apply elem_of_nil in E);
    exists d; split_and!; [done | done | done | rewrite Hempty; intros i c u H; by rewrite lookup_empty in H | done].
  all: assert (rows !! id = Some c) as Hc by (apply tbl_rows_elem; rewrite Er; left).
  { exfalso. apply Nat.le_0_r, map_size_empty_inv in Hsize. by rewrite Hsize, lookup_empty in Hc. }
  destruct (corr_row _ _ Hok _ _ Hc) as (u & Hu & Hr).
  destruct (apply_correction_ok id c d u Hu Hr (corr_range _ _ Hok _ _ Hc)) as (d1 & E & Hp & Hu1 & Hc1).
  unfold bind. rewrite E. specialize (IH d1). cbn in IH. rewrite Hc1, Hu1 in IH. fold rows in IH.
  destruct IH as (d' & E' & Hp' & Hnone & Hlow & Hother); [by apply corrections_ok_step |
    rewrite map_size_delete_Some by eauto; lia |].
  exists d'. split_and!; [done | congruence | done | |].
  - intros id' c' u' Hc' Hu'. destruct (decide (id = id')) as [<-|Hne].
    + simplify_eq. rewrite Hother, lookup_insert_eq; [done|].
      intros j b [Hne Hb]%lookup_delete_Some Hn. apply Hne. by eapply corr_unique.
    + apply (Hlow id'); [by rewrite lookup_delete_ne|].
      rewrite lookup_insert_ne; [done|]. intros Hn. apply Hne. by eapply corr_unique.
  - intros a Ha. rewrite Hother by (intros j b [_ Hb]%lookup_delete_Some; by eapply Ha).
    apply lookup_insert_ne. by eapply Ha.
Qed.

(** ** The exceptions of start_block *)

(** What the activation handlers rely on. *)
Definition corrections_fine (d : database) : Prop := corrections_ok (tbl_view (ram_corrections d)) (usage_rows d).

(** From a database with [corrections_fine], only fc::exceptions, and the
    corrections stay fine. *)
Definition throws_fc {A} (m : exec database A) : Prop := forall d r d',
  corrections_fine d -> m d = (r, d') -> corrections_fine d' /\ match r with Ok _ => True | Throw e => is_fc e = true end.

Lemma throws_fc_bind {A B} (m : exec database A) (k : A -> exec database B) :
  throws_fc m -> (forall a, throws_fc (k a)) -> throws_fc (bind m k).
Proof.
  intros Hm Hk d r d' Hd. unfold bind. destruct (m d) as [[a|e] d1] eqn:E; destruct (Hm _ _ _ Hd E) as [Hd1 Hr].
  - by apply Hk.
  - by intros [= <- <-].
Qed.

Lemma throws_fc_whitelist name : throws_fc (whitelist name).
Proof.
  intros d r d' Hd. unfold whitelist, zoom, Whitelist.add_intrinsic_to_whitelist, bind, get_state, lift, eos_assert, put_state.
  destruct (bool_decide _); by intros [= <- <-].
Qed.

Lemma throws_fc_handler f : throws_fc (trigger_activation_handler f).
Proof.
  destruct f; cbn [trigger_activation_handler]; try (by intros d r d' Hd [= <- <-]).
  - apply throws_fc_bind; [|intros _]; apply throws_fc_whitelist.
  - intros d r d' Hd. unfold on_activation_replace_deferred, bind, get_state.
    destruct (apply_corrections_ok (length (tbl_rows (ram_corrections d))) d Hd) as (d1 & -> & _ & Hnone & _);
      [by rewrite tbl_rows_perm, length_map_to_list|].
    intros [= <- <-]. split; [|done]. unfold corrections_fine. rewrite Hnone.
    constructor; intros ? ? *; rewrite lookup_empty; done.
  - apply throws_fc_whitelist.
Qed.

Lemma activate_feature_fc d n m e m' : activate_feature d n m = (Throw e, m') -> is_fc e = true.
Proof.
  unfold activate_feature, bind, get_state, lift, eos_assert, put_state. destruct (_initialized m); [|by intros [= <- _]].
  destruct (_recognized_protocol_features _ !! d) as [f|]; [|by intros [= <- _]].
  destruct (match last _ with Some _ => _ | None => _ end); [|by intros [= <- _]].
  destruct (builtin_feature f) as [c|]; [|by intros [= <- _]].
  destruct (_builtin_protocol_features m !! indx c) as [x|]; [|by intros [= <- _]].
  destruct (_ =? _); by intros [= <- _].
Qed.

Lemma activate_new_fc n new : forall act k s r s',
  corrections_fine (db s) -> activate_new n new act k s = (r, s') ->
  corrections_fine (db s') /\ match r with Ok _ => True | Throw e => is_fc e = true end.
Proof.
  induction new as [|d new IH]; intros act k s r s' Hs; cbn [activate_new]; [by intros [= <- <-]|].
  unfold bind. destruct (activate_one n d act k s) as [r1 s1] eqn:E1.
  assert (corrections_fine (db s1) /\ match r1 with Ok _ => True | Throw e => is_fc e = true end) as [Hs1 Hr1].
  { revert E1. unfold activate_one, bind, get_state, lift, get_protocol_feature, zoom, modify, ret.
    destruct (_recognized_protocol_features _ !! d) as [f|]; [|by intros [= <- <-]].
    destruct (match act !! d with Some _ => _ | None => _ end) as [k1|e] eqn:Ek.
    2:{ intros [= <- <-]. destruct (act !! d) as [[]|]; [..|destruct (preactivation_required f)]; inv_res; done. }
    set (h := match builtin_feature f with Some c => trigger_activation_handler c | None => fun d => (Ok tt, d) end).
    assert (throws_fc h) as Hh by (unfold h; destruct (builtin_feature f); [apply throws_fc_handler|by intros ? ? ? ? [= <- <-]]).
    destruct (h (db s)) as [[u|e] d1] eqn:Eh; destruct (Hh _ _ _ Hs Eh) as [Hd1 Hr]; [|by intros [= <- <-]].
    cbn [protocol_features set_db]. destruct (activate_feature d n _) as [[[]|e] m1] eqn:Ea; intros [= <- <-]; [done|].
    split; [done|]. by eapply activate_feature_fc. }
  destruct r1 as [k1|e]; [by apply IH|]. by intros [= <- <-].
Qed.

Lemma start_block_activations_fc n new s r s' :
  corrections_fine (db s) -> start_block_activations n new s = (r, s') ->
  corrections_fine (db s') /\ match r with Ok _ => True | Throw e => is_fc e = true end.
Proof.
  intros Hs. unfold start_block_activations, bind, get_state, lift, eos_assert, modify, ret.
  destruct new as [|d new]; [case_bool_decide; by intros [= <- <-]|].
  destruct (activate_new n (d :: new) _ 0 s) as [[k|e] s1] eqn:E; apply activate_new_fc in E as [Hs1 Hr]; try done.
  - destruct (_ || _)%bool; by intros [= <- <-].
  - by intros [= <- <-].
Qed.

Lemma start_block_fine rest bb status s s' : throws_fc rest ->
  corrections_fine (db s) -> start_block rest false bb status s = (Ok tt, s') -> corrections_fine (db s').
Proof.
  intros Hrest Hs. unfold start_block, bind at 1 2, get_state, lift, eos_assert.
  destruct (bool_decide (pending s = None)); [|done].
  destruct (_ && _)%bool; [by destruct (popped_blocks_to _ _) as [[]]|].
  unfold bind, modify, ret. destruct (_ || _)%bool; [|by intros [= <-]].
  destruct (start_block_activations _ _ _) as [[[]|e'] s2] eqn:E; [|by destruct (popped_blocks_to _ _) as [[]]].
  apply start_block_activations_fc in E as [Hs2 _]; [|done].
  unfold zoom. destruct (rest (db s2)) as [[[]|e'] d] eqn:Er; [|by destruct (popped_blocks_to _ _) as [[]]].
  intros [= <-]. by apply (Hrest _ _ _ Hs2) in Er as [? _].
Qed.

Lemma start_block_fc rest s l bb status e s' : throws_fc rest ->
  features_ok s l (bb_block_num bb) -> corrections_fine (db s) ->
  start_block rest false bb status s = (Throw e, s') -> is_fc e = true.
Proof.
  intros Hrest Hok Hs. unfold start_block, bind at 1 2, get_state, lift, eos_assert.
  destruct (bool_decide (pending s = None)); [|by intros [= <- _]]. cbn [negb andb].
  destruct (db_revision s =? head_block_num s); cbn [negb].
  2:{ rewrite (unwind_features s l _ []) by done. by intros [= <- _]. }
  unfold bind, modify. destruct (read_mode_speculative s || _)%bool; [|done].
  destruct (start_block_activations _ _ _) as [r1 s2] eqn:E.
  pose proof (start_block_activations_prefix _ _ _ _ _ E) as [_ [j Hj]]. cbn [protocol_features set_pending] in Hj.
  apply start_block_activations_fc in E as [Hs2 Hr1]; [|done]. destruct r1 as [[]|e1].
  - unfold zoom. destruct (rest (db s2)) as [[[]|e2] d] eqn:Er; [done|]. apply (Hrest _ _ _ Hs2) in Er as [_ He].
    cbn [protocol_features set_db]. rewrite Hj, (unwind_features _ l) by done. by intros [= <- _].
  - rewrite Hj, (unwind_features _ l) by done. by intros [= <- _].
Qed.

(** the activation handler of REPLACE_DEFERRED terminates without an
    exception when the corrections are for accounts with a usage row (one each):
    it takes each correction off the RAM usage of its account, down to zero at
    the least, leaves every other account as it was, and removes all the
    corrections. *)
Theorem replace_deferred_corrects d :
  corrections_ok (tbl_view (ram_corrections d)) (usage_rows d) ->
  exists d', on_activation_replace_deferred d = (Ok tt, d') /\ pso d' = pso d /\
    tbl_view (ram_corrections d') = ∅ /\
    (forall id c u, tbl_view (ram_corrections d) !! id = Some c -> usage_rows d !! correction_name c = Some u ->
       usage_rows d' !! correction_name c = Some (lowered (ram_correction c) u)) /\
    (forall a, (forall id c, tbl_view (ram_corrections d) !! id = Some c -> correction_name c <> a) ->
       usage_rows d' !! a = usage_rows d !! a).
Proof.
  intros Hok. apply apply_corrections_ok; [done|].
  by rewrite tbl_rows_perm, length_map_to_list.
Qed.

End Controller.

(** ** A concrete chain *)

Module Examples.
Import ProtocolFeatures.Examples.

Definition toy_milliseconds (m : Z) : Z := m * 1000.
Abbreviation toy_chain := (chain_state (TL := gmap (bool * Z) ResourceLimits.Manager.resource_limits_object)
  (TU := gmap Z ResourceLimits.Manager.resource_usage_object) (TC := gmap Z account_ram_correction_object)).

Definition toy_usage (ram : Z) : ResourceLimits.Manager.resource_usage_object :=
  ResourceLimits.Manager.mk_usage ResourceLimits.Accumulator.empty_accumulator
    ResourceLimits.Accumulator.empty_accumulator ram.

(** PREACTIVATE_FEATURE is active; two accounts have RAM corrections. *)
Definition toy_state (pre : list digest_type) (p : option pending_state) : toy_chain :=
  mk_chain
    (mk_database (mk_pso [mk_pf_entry (toy_digest 1) 10] pre [])
       (ResourceLimits.Manager.set_usage (<[5 := toy_usage 100]> (<[6 := toy_usage 30]> ∅))
          (ResourceLimits.Manager.initialize_database ∅ ∅))
       (<[1 := mk_correction 5 40]> (<[2 := mk_correction 6 50]> ∅)))
    (toy_manager [Activate (toy_digest 1) 10]) p 100 {[toy_digest 1]} 100 true.

Definition toy_building (new : list digest_type) : building_block :=
  mk_building 101 1000 {[toy_digest 1]} new 0.

Lemma toy_features_ok pre p :
  NoDup pre -> features_ok (toy_state pre p) (toy_stack [Activate (toy_digest 1) 10]) 101.
Proof.
  intros Hnd. constructor; [| done | | done | done | vm_refl].
  - apply (run_matches toy_set [Activate (toy_digest 1) 10]); [by repeat constructor | apply initialized_matches].
  - vm_compute. repeat constructor; discriminate.
Qed.

Lemma toy_corrections id c :
  tbl_view (ram_corrections (db (toy_state [] None))) !! id = Some c ->
  id = 1 /\ c = mk_correction 5 40 \/ id = 2 /\ c = mk_correction 6 50.
Proof.
  intros H. change (<[1 := mk_correction 5 40]> (<[2 := mk_correction 6 50]> (∅ : gmap Z account_ram_correction_object))
    !! id = Some c) in H. revert H.
  intros [[<- <-]|[_ [[<- <-]|[_ H]]%lookup_insert_Some]]%lookup_insert_Some; [by left | by right |].
  by rewrite lookup_empty in H.
Qed.

Lemma toy_closed : dependency_closed toy_set {[toy_digest 1]}.
Proof.
  intros d x ->%elem_of_singleton (f & Hf & Hx).
  assert (dependencies <$> _recognized_protocol_features toy_set !! toy_digest 1 = Some ∅) as E by vm_refl.
  rewrite Hf in E. injection E as E. rewrite E in Hx. by apply not_elem_of_empty in Hx.
Qed.

Lemma check_protocol_features_ok_witness :
  dependency_closed toy_set ({[toy_digest 1]} ∪ list_to_set [toy_digest 3; toy_digest 4]).
Proof.
  apply (check_protocol_features_ok toy_milliseconds toy_set 1000 {[toy_digest 1]} [toy_digest 3; toy_digest 4]).
  - apply (check_protocol_features_ok toy_milliseconds toy_set 1000 {[toy_digest 1]} [toy_digest 3; toy_digest 4]).
    vm_refl.
  - apply toy_closed.
Defined.

Lemma preactivate_feature_ok_witness :
  get_preactivated_protocol_features
    (snd (controller_preactivate_feature toy_milliseconds (toy_digest 3)
            (toy_state [] (Some (mk_pending (building (toy_building [])) incomplete))))) = [toy_digest 3].
Proof.
  pose proof (preactivate_feature_ok toy_milliseconds
    (toy_state [] (Some (mk_pending (building (toy_building [])) incomplete))) (toy_building []) incomplete
    (toy_digest 3) eq_refl) as H.
  specialize (H ltac:(split; [constructor | intros i d Hi; done])).
  assert (fst (controller_preactivate_feature toy_milliseconds (toy_digest 3)
    (toy_state [] (Some (mk_pending (building (toy_building [])) incomplete)))) = Ok tt) as E by vm_refl.
  destruct (controller_preactivate_feature _ _ _) as [[u|e] s']; [|discriminate E]. apply H.
Defined.

Lemma start_block_activates_witness :
  activated_protocol_features (pso (db (snd (start_block Whitelist.length_hash (ret tt) false
    (toy_building [toy_digest 3; toy_digest 4]) complete (toy_state [toy_digest 3; toy_digest 4] None)))))
  = [mk_pf_entry (toy_digest 1) 10; mk_pf_entry (toy_digest 3) 101; mk_pf_entry (toy_digest 4) 101].
Proof.
  destruct (start_block Whitelist.length_hash (ret tt) false (toy_building [toy_digest 3; toy_digest 4]) complete
    (toy_state [toy_digest 3; toy_digest 4] None)) as [r s'] eqn:E.
  assert (r = Ok tt) as -> by (change (fst (r, s') = Ok tt); rewrite <- E; vm_refl).
  destruct (start_block_activates Whitelist.length_hash (toy_state [toy_digest 3; toy_digest 4] None) (toy_stack [Activate (toy_digest 1) 10])
    (toy_building [toy_digest 3; toy_digest 4]) complete false s') as (_ & _ & _ & _ & Ha & _).
  - apply toy_features_ok. by apply (bool_decide_unpack _).
  - done.
  - done.
  - exact E.
  - exact Ha.
Defined.

(** The activations succeed; then something wipes the RAM corrections and throws. *)
Abbreviation toy_database := (database (TL := gmap (bool * Z) ResourceLimits.Manager.resource_limits_object)
  (TU := gmap Z ResourceLimits.Manager.resource_usage_object) (TC := gmap Z account_ram_correction_object)).
Definition failing_rest : exec toy_database unit :=
  do _ <- modify (fun d : toy_database => mk_database (pso d) (resource_limits d) (∅ : gmap Z account_ram_correction_object));
  lift (Throw producer_schedule_exception).

Lemma start_block_atomic_witness :
  snd (start_block Whitelist.length_hash failing_rest false (toy_building [toy_digest 3; toy_digest 4]) complete
         (toy_state [toy_digest 3; toy_digest 4] None)) = toy_state [toy_digest 3; toy_digest 4] None.
Proof.
  destruct (start_block Whitelist.length_hash failing_rest false (toy_building [toy_digest 3; toy_digest 4]) complete
    (toy_state [toy_digest 3; toy_digest 4] None)) as [r s'] eqn:E.
  assert (r = Throw producer_schedule_exception) as -> by (change (fst (r, s') = Throw producer_schedule_exception); rewrite <- E; vm_refl).
  apply (start_block_atomic Whitelist.length_hash failing_rest (toy_state [toy_digest 3; toy_digest 4] None)
    (toy_stack [Activate (toy_digest 1) 10]) (toy_building [toy_digest 3; toy_digest 4]) complete producer_schedule_exception s').
  - apply toy_features_ok. by apply (bool_decide_unpack _).
  - exact E.
Defined.

Lemma replace_deferred_corrects_witness :
  exists d', on_activation_replace_deferred (db (toy_state [] None)) = (Ok tt, d') /\
    ResourceLimits.Manager.usage (resource_limits d') !! 5 = Some (toy_usage 60) /\
    ResourceLimits.Manager.usage (resource_limits d') !! 6 = Some (toy_usage 0).
Proof.
  destruct (replace_deferred_corrects (db (toy_state [] None))) as (d' & E & _ & _ & Hlow & _).
  - constructor.
    + intros id c [[-> ->]|[-> ->]]%toy_corrections; done.
    + intros id c [[-> ->]|[-> ->]]%toy_corrections; [exists (toy_usage 100) | exists (toy_usage 30)];
        (split; [vm_refl | done]).
    + intros i j a b [[-> ->]|[-> ->]]%toy_corrections [[-> ->]|[-> ->]]%toy_corrections; done.
  - exists d'. split; [exact E|]. split.
    + apply (Hlow 1 (mk_correction 5 40) (toy_usage 100)); vm_refl.
    + apply (Hlow 2 (mk_correction 6 50) (toy_usage 30)); vm_refl.
Defined.

End Examples.
End Features.
