(* ===== verification/AuthorizationManager.v ===== *)
(** The authorization manager: libraries/chain/authorization_manager.cpp, with
    the objects of include/eosio/chain/permission_object.hpp and
    permission_link_object.hpp.

    [auth_db] holds the chainbase tables the manager keeps.  A table allocates
    the ids of its rows in increasing order ([next_permission_id]).  What the
    manager asks of the controller is passed in: the time of the pending block,
    whether a builtin feature is activated, the configuration.  The decoding of
    action data and of packed transactions (fc::raw::unpack) is the class
    [ActionData]; the checktime callback of check_authorization is
    an oracle, by the number of the call. *)

From Stdlib Require Import ZArith Lia Ascii.
From stdpp Require Import base gmap strings numbers sorting list.
From S2P Require Import Prelude Chainbase Name Authority AuthorityChecker.

Local Open Scope Z_scope.

(** The macro N(...) *)
Definition N_ (s : string) : Z := Name.string_to_name (String.list_ascii_of_string s).

Definition system_account_name : Z := Eval vm_compute in N_ "eosio".
Definition active_name : Z := Eval vm_compute in N_ "active".
Definition eosio_any_name : Z := Eval vm_compute in N_ "eosio.any".
Definition updateauth_name : Z := Eval vm_compute in N_ "updateauth".
Definition deleteauth_name : Z := Eval vm_compute in N_ "deleteauth".
Definition linkauth_name : Z := Eval vm_compute in N_ "linkauth".
Definition unlinkauth_name : Z := Eval vm_compute in N_ "unlinkauth".
Definition canceldelay_name : Z := Eval vm_compute in N_ "canceldelay".

(** The actions that cannot be linked to a minimum permission. *)
Definition unlinkable (act_name : Z) : bool :=
  bool_decide (act_name ∈ [updateauth_name; deleteauth_name; linkauth_name; unlinkauth_name; canceldelay_name]).

Module Authorization.

Record permission_object {K : Type} := mk_permission {
  perm_id : Z;
  perm_usage_id : Z;
  perm_parent : Z;
  perm_owner : Z;
  perm_name : Z;
  perm_last_updated : Z;
  perm_auth : authority K
}.
Arguments permission_object : clear implicits.
Arguments mk_permission {K}.

(** ** Actions *)

Record updateauth {K : Type} := mk_updateauth {
  ua_account : Z; ua_permission : Z; ua_parent : Z; ua_auth : authority K }.
Arguments updateauth : clear implicits.
Arguments mk_updateauth {K}.
Record deleteauth := mk_deleteauth { da_account : Z; da_permission : Z }.
Record linkauth := mk_linkauth { la_account : Z; la_code : Z; la_type : Z; la_requirement : Z }.
Record unlinkauth := mk_unlinkauth { ul_account : Z; ul_code : Z; ul_type : Z }.
Record canceldelay := mk_canceldelay { cd_canceling_auth : permission_level; cd_trx_id : Z }.

Record action := mk_action {
  act_account : Z;
  act_name : Z;
  act_authorization : list permission_level;
  act_data : list Z
}.

Record generated_transaction_object := mk_generated {
  gto_sender : Z;
  gto_sender_id : Z;
  gto_payer : Z;
  gto_delay_until : Z;
  gto_expiration : Z;
  gto_published : Z;
  gto_packed_trx : list Z
}.

(** action::data_as and fc::raw::unpack< transaction > (its actions). *)
Class ActionData (K : Type) := {
  data_as_updateauth : list Z -> res (updateauth K);
  data_as_deleteauth : list Z -> res deleteauth;
  data_as_linkauth : list Z -> res linkauth;
  data_as_unlinkauth : list Z -> res unlinkauth;
  data_as_canceldelay : list Z -> res canceldelay;
  unpack_transaction : list Z -> res (list action)
}.

Section Manager.
Context {K : Type} `{EqDecision K} {multiset : FlatMultiset K} {decoding : ActionData K}.
Context {TP TU TL TG : Type} {permission_index : Table Z (permission_object K) TP}
  {permission_usage_index : Table Z Z TU} {permission_link_index : Table (Z * Z * Z) Z TL}
  {generated_transaction_index : Table Z generated_transaction_object TG}.

Record auth_db := mk_auth_db {
  permissions : TP;
  next_permission_id : Z;
  usages : TU;
  next_usage_id : Z;
  links : TL;
  generated : TG
}.

Definition set_permissions (t : TP) (next : Z) (d : auth_db) : auth_db :=
  mk_auth_db t next (usages d) (next_usage_id d) (links d) (generated d).
Definition set_usages (t : TU) (next : Z) (d : auth_db) : auth_db :=
  mk_auth_db (permissions d) (next_permission_id d) t next (links d) (generated d).

(** find< permission_object, by_owner > *)
Definition find_by_owner (d : auth_db) (owner name : Z) : option (permission_object K) :=
  (fun r => snd (snd r)) <$>
    list_find (fun kv => perm_owner (snd kv) = owner /\ perm_name (snd kv) = name) (tbl_rows (permissions d)).

(** create< permission_object >: the (owner, name) index is unique. *)
Definition create_permission_row (row : Z -> permission_object K) : exec auth_db (permission_object K) :=
  do d <- get_state;
  let p := row (next_permission_id d) in
  check (bool_decide (find_by_owner d (perm_owner p) (perm_name p) = None)) else database_duplicate_key;
  do t <- lift (tbl_create (perm_id p) p (permissions d));
  do _ <- put_state (set_permissions t (next_permission_id d + 1) d);
  ret p.

Definition create_usage_row (last_used : Z) : exec auth_db Z :=
  do d <- get_state;
  let id := next_usage_id d in
  do t <- lift (tbl_create id last_used (usages d));
  do _ <- put_state (set_usages t (id + 1) d);
  ret id.

(** ** satisfies *)

(** Walks up from the permission with id [parent]. *)
Fixpoint walk_parents (fuel : nat) (d : auth_db) (id parent : Z) : res bool :=
  match tbl_find parent (permissions d) with
  | None => Throw undefined_behavior (* end() dereferenced *)
  | Some p =>
      if id =? perm_parent p then Ok true
      else if perm_parent p =? 0 then Ok false
      else match fuel with
           | O => Throw out_of_fuel
           | S fuel' => walk_parents fuel' d id (perm_parent p)
           end
  end.

Definition satisfies (d : auth_db) (this other : permission_object K) : res bool :=
  if negb (perm_owner this =? perm_owner other) then Ok false
  else if (perm_id this =? perm_id other) || (perm_id this =? perm_parent other) then Ok true
  else walk_parents (Z.to_nat (perm_parent other)) d (perm_id this) (perm_parent other).

(** ** The manager *)

Definition empty_authority : authority K := mk_authority 0 [] [] [].

(** initialize_database: reserves permission 0. *)
Definition initialize_database : exec auth_db unit :=
  do _ <- create_permission_row (fun id => mk_permission id 0 0 0 0 0 empty_authority); ret tt.

(** create_permission; [pending_block_time] is used when no time is given. *)
Definition create_permission (pending_block_time account name parent : Z) (auth : authority K)
    (initial_creation_time : Z) : exec auth_db (permission_object K) :=
  let creation_time := if initial_creation_time =? 0 then pending_block_time else initial_creation_time in
  do usage_id <- create_usage_row creation_time;
  create_permission_row (fun id => mk_permission id usage_id parent account name creation_time auth).

Definition modify_permission (pending_block_time : Z) (p : permission_object K) (auth : authority K)
    : exec auth_db unit :=
  modify (fun d => set_permissions
    (tbl_put (perm_id p) (mk_permission (perm_id p) (perm_usage_id p) (perm_parent p) (perm_owner p)
                            (perm_name p) pending_block_time auth) (permissions d))
    (next_permission_id d) d).

Definition has_children (d : auth_db) (id : Z) : bool :=
  existsb (fun kv => perm_parent (snd kv) =? id) (tbl_rows (permissions d)).

Definition remove_permission (p : permission_object K) : exec auth_db unit :=
  do d <- get_state;
  check (negb (has_children d (perm_id p))) else action_validate_exception;
  do _ <- lift (tbl_get (perm_usage_id p) (usages d));
  do _ <- modify (fun d => set_usages (tbl_remove (perm_usage_id p) (usages d)) (next_usage_id d) d);
  modify (fun d => set_permissions (tbl_remove (perm_id p) (permissions d)) (next_permission_id d) d).

Definition update_permission_usage (pending_block_time : Z) (p : permission_object K) : exec auth_db unit :=
  do d <- get_state;
  do _ <- lift (tbl_get (perm_usage_id p) (usages d));
  modify (fun d => set_usages (tbl_put (perm_usage_id p) pending_block_time (usages d)) (next_usage_id d) d).

Definition get_permission_last_used (d : auth_db) (p : permission_object K) : res Z :=
  tbl_get (perm_usage_id p) (usages d).

(** find_permission and get_permission; what chainbase throws leaves them as a
    permission_query_exception. *)
Definition find_permission (d : auth_db) (level : permission_level) : res (option (permission_object K)) :=
  assert! (negb (actor level =? 0) && negb (permission level =? 0)) else invalid_permission in
  Ok (find_by_owner d (actor level) (permission level)).

Definition get_permission (d : auth_db) (level : permission_level) : res (permission_object K) :=
  assert! (negb (actor level =? 0) && negb (permission level =? 0)) else invalid_permission in
  match find_by_owner d (actor level) (permission level) with
  | Some p => Ok p
  | None => Throw permission_query_exception
  end.

Definition lookup_linked_permission (d : auth_db) (authorizer_account scope act_name : Z) : option Z :=
  match tbl_find (authorizer_account, scope, act_name) (links d) with
  | Some required => Some required
  | None => tbl_find (authorizer_account, scope, 0) (links d)
  end.

Definition lookup_minimum_permission (d : auth_db) (authorizer_account scope act_name : Z) : res (option Z) :=
  assert! (negb (scope =? system_account_name) || negb (unlinkable act_name))
    else unlinkable_min_permission_action in
  match lookup_linked_permission d authorizer_account scope act_name with
  | None => Ok (Some active_name)
  | Some linked => Ok (if linked =? eosio_any_name then None else Some linked)
  end.

(** The assertion every check ends in: [auth] satisfies [min_permission]. *)
Definition check_satisfies (d : auth_db) (auth : permission_level) (min_permission : permission_object K) : res unit :=
  let! p := get_permission d auth in
  let! b := satisfies d p min_permission in
  assert! b else irrelevant_auth_exception in Ok tt.

(** auths.size() == 1, and its actor is [account]. *)
Definition single_auth (auths : list permission_level) (account : Z) : res permission_level :=
  match auths with
  | [auth] => assert! (actor auth =? account) else irrelevant_auth_exception in Ok auth
  | _ => Throw irrelevant_auth_exception
  end.

Definition check_updateauth_authorization (d : auth_db) (update : updateauth K) (auths : list permission_level)
    : res unit :=
  let! auth := single_auth auths (ua_account update) in
  let! existing := find_permission d (mk_level (ua_account update) (ua_permission update)) in
  let! min_permission := match existing with
                         | Some p => Ok p
                         | None => get_permission d (mk_level (ua_account update) (ua_parent update))
                         end in
  check_satisfies d auth min_permission.

Definition check_deleteauth_authorization (d : auth_db) (del : deleteauth) (auths : list permission_level)
    : res unit :=
  let! auth := single_auth auths (da_account del) in
  let! min_permission := get_permission d (mk_level (da_account del) (da_permission del)) in
  check_satisfies d auth min_permission.

Definition check_linkauth_authorization (d : auth_db) (fix_linkauth_restriction : bool) (link : linkauth)
    (auths : list permission_level) : res unit :=
  let! auth := single_auth auths (la_account link) in
  assert! (negb ((la_code link =? system_account_name) || negb fix_linkauth_restriction)
           || negb (unlinkable (la_type link))) else action_validate_exception in
  let! linked_permission_name := lookup_minimum_permission d (la_account link) (la_code link) (la_type link) in
  match linked_permission_name with
  | None => Ok tt
  | Some n =>
      let! p := get_permission d auth in
      let! min_permission := get_permission d (mk_level (la_account link) n) in
      check_satisfies d auth min_permission
  end.

Definition check_unlinkauth_authorization (d : auth_db) (unlink : unlinkauth) (auths : list permission_level)
    : res unit :=
  let! auth := single_auth auths (ul_account unlink) in
  match lookup_linked_permission d (ul_account unlink) (ul_code unlink) (ul_type unlink) with
  | None => Throw transaction_exception
  | Some n =>
      if n =? eosio_any_name then Ok tt
      else
        let! p := get_permission d auth in
        let! min_permission := get_permission d (mk_level (ul_account unlink) n) in
        check_satisfies d auth min_permission
  end.

(** check_canceldelay_authorization: the delay of the transaction to cancel. *)
Definition check_canceldelay_authorization (d : auth_db) (cancel : canceldelay) (auths : list permission_level)
    : res Z :=
  match auths with
  | [auth] =>
      let! p := get_permission d auth in
      let! min_permission := get_permission d (cd_canceling_auth cancel) in
      let! _ := check_satisfies d auth min_permission in
      match tbl_lower_bound (fun id => cd_trx_id cancel <=? id) (generated d) with
      | Some (trx_id, g) =>
          assert! ((gto_sender g =? 0) && (trx_id =? cd_trx_id cancel)) else tx_not_found in
          let! actions := unpack_transaction (gto_packed_trx g) in
          assert! (existsb (fun act => bool_decide (cd_canceling_auth cancel ∈ act_authorization act)) actions)
            else action_validate_exception in
          Ok (i64 (gto_delay_until g - gto_published g))
      | None => Throw tx_not_found
      end
  | _ => Throw irrelevant_auth_exception
  end.

(** ** check_authorization *)

(** What the controller is asked for. *)
Record configuration := mk_configuration {
  max_transaction_delay : Z;
  max_authority_depth : nat;
  fix_linkauth_restriction : bool
}.

Definition microseconds_maximum : Z := INT64_MAX.

Definition effective_provided_delay (cfg : configuration) (provided_delay : Z) : Z :=
  if max_transaction_delay cfg * 1000000 <=? provided_delay then microseconds_maximum else provided_delay.

(** The native actions with a check of their own: whether [act] is one, and the
    delay its authorizations are checked under. *)
Definition check_native_action (d : auth_db) (cfg : configuration) (delay : Z) (act : action) : res (bool * Z) :=
  if negb (act_account act =? system_account_name) then Ok (false, delay)
  else if act_name act =? updateauth_name then
    let! data := data_as_updateauth (act_data act) in
    let! _ := check_updateauth_authorization d data (act_authorization act) in Ok (true, delay)
  else if act_name act =? deleteauth_name then
    let! data := data_as_deleteauth (act_data act) in
    let! _ := check_deleteauth_authorization d data (act_authorization act) in Ok (true, delay)
  else if act_name act =? linkauth_name then
    let! data := data_as_linkauth (act_data act) in
    let! _ := check_linkauth_authorization d (fix_linkauth_restriction cfg) data (act_authorization act) in
    Ok (true, delay)
  else if act_name act =? unlinkauth_name then
    let! data := data_as_unlinkauth (act_data act) in
    let! _ := check_unlinkauth_authorization d data (act_authorization act) in Ok (true, delay)
  else if act_name act =? canceldelay_name then
    let! data := data_as_canceldelay (act_data act) in
    let! trx_delay := check_canceldelay_authorization d data (act_authorization act) in
    Ok (true, Z.max delay trx_delay)
  else Ok (false, delay).

(** The minimum permission of an ordinary action. *)
Definition check_minimum (d : auth_db) (act : action) (declared_auth : permission_level) : res unit :=
  let! min_permission_name := lookup_minimum_permission d (actor declared_auth) (act_account act) (act_name act) in
  match min_permission_name with
  | None => Ok tt
  | Some n =>
      let! min_permission := get_permission d (mk_level (actor declared_auth) n) in
      check_satisfies d declared_auth min_permission
  end.

(** permissions_to_satisfy with the lower of the delays. *)
Definition to_satisfy (p : permission_level) (delay : Z) (m : gmap permission_level Z) : gmap permission_level Z :=
  match m !! p with
  | Some delay' => if delay <? delay' then <[p := delay]> m else m
  | None => <[p := delay]> m
  end.

(** The loops over the declared authorizations; [k] counts the calls of checktime. *)
Fixpoint collect_auths (d : auth_db) (checktime : nat -> res unit) (k : nat) (satisfied_authorizations : gset permission_level) (act : action)
    (special_case : bool) (delay : Z) (auths : list permission_level) (m : gmap permission_level Z)
    : res (gmap permission_level Z) :=
  match auths with
  | [] => Ok m
  | declared_auth :: auths' =>
      let! _ := checktime k in
      let! _ := if special_case then Ok tt else check_minimum d act declared_auth in
      collect_auths d checktime (S k) satisfied_authorizations act special_case delay auths'
        (if decide (declared_auth ∈ satisfied_authorizations) then m else to_satisfy declared_auth delay m)
  end.

Fixpoint collect_actions (d : auth_db) (cfg : configuration) (checktime : nat -> res unit) (k : nat) (satisfied_authorizations : gset permission_level)
    (delay : Z) (actions : list action) (m : gmap permission_level Z) : res (gmap permission_level Z) :=
  match actions with
  | [] => Ok m
  | act :: actions' =>
      let! r := check_native_action d cfg delay act in
      let! m' := collect_auths d checktime k satisfied_authorizations act (fst r) (snd r) (act_authorization act) m in
      collect_actions d cfg checktime (k + length (act_authorization act)) satisfied_authorizations delay actions' m'
  end.

(** std::map order: ascending by actor, then by permission. *)
Definition level_le (a b : permission_level * Z) : Prop := level_ltb (fst b) (fst a) = false.

#[local] Instance level_le_dec : RelDecision level_le.
Proof. intros a b. unfold level_le. apply _. Defined.

Definition ascending (m : gmap permission_level Z) : list (permission_level * Z) :=
  merge_sort level_le (map_to_list m).

(** The authority_checker's permission_to_authority. *)
Definition authority_of (d : auth_db) (level : permission_level) : res (authority K) :=
  let! p := get_permission d level in Ok (perm_auth p).

Section Check.
Context (d : auth_db) (cfg : configuration) (provided_keys : list K) (provided_permissions : list permission_level).

(** checker.satisfied( p, delay ) on each permission in turn. *)
Fixpoint check_all (checktime : nat -> res unit) (k : nat) (l : list (permission_level * Z)) : exec (list bool) unit :=
  match l with
  | [] => ret tt
  | (p, delay) :: l' =>
      do _ <- lift (checktime k);
      do ok <- satisfied_level (authority_of d) provided_keys provided_permissions delay (max_authority_depth cfg) p;
      check ok else unsatisfied_authorization;
      check_all checktime (S k) l'
  end.

Definition noop_checktime (_ : nat) : res unit := Ok tt.

Definition no_key_used : list bool := replicate (length provided_keys) false.

Definition check_unused_keys (allow_unused_keys : bool) (used : list bool) : res unit :=
  assert! (allow_unused_keys || all_keys_used used) else tx_irrelevant_sig in Ok tt.

Definition declared_count (actions : list action) : nat := length (concat (act_authorization <$> actions)).

Definition check_authorization (checktime : nat -> res unit) (actions : list action) (provided_delay : Z)
    (allow_unused_keys : bool) (satisfied_authorizations : gset permission_level) : res unit :=
  let! m := collect_actions d cfg checktime 0 satisfied_authorizations (effective_provided_delay cfg provided_delay) actions ∅ in
  let '(r, used) := check_all checktime (declared_count actions) (ascending m) no_key_used in
  let! _ := r in
  check_unused_keys allow_unused_keys used.

(** check_authorization( account, permission, ... ), which only hands its callback
    on to the checker, which does not call it. *)
Definition check_authorization_of (account permission : Z) (provided_delay : Z) (allow_unused_keys : bool) : res unit :=
  let '(r, used) := check_all noop_checktime 0 [(mk_level account permission, effective_provided_delay cfg provided_delay)]
                      no_key_used in
  let! _ := r in
  check_unused_keys allow_unused_keys used.
End Check.

(** get_required_keys *)
Definition get_required_keys (d : auth_db) (cfg : configuration) (actions : list action) (candidate_keys : list K)
    (provided_delay : Z) : res (list K) :=
  let '(r, used) := check_all d cfg candidate_keys [] noop_checktime 0
                      ((fun p => (p, provided_delay)) <$> concat (act_authorization <$> actions))
                      (no_key_used candidate_keys) in
  let! _ := r in Ok (used_keys candidate_keys used).

(** ** The tree of permissions *)

Abbreviation rows d := (tbl_view (permissions d)).

(** Every permission but the reserved one has a parent, older than itself and of
    the same owner unless it is the reserved one; owner and name identify it. *)
Record tree_ok (d : auth_db) : Prop := {
  tree_id : forall id p, rows d !! id = Some p -> perm_id p = id /\ 0 <= id < next_permission_id d;
  tree_reserved : exists p, rows d !! 0 = Some p /\ perm_parent p = 0 /\ perm_owner p = 0;
  tree_parent : forall id p, rows d !! id = Some p -> id <> 0 ->
      perm_parent p < id /\ exists q, rows d !! perm_parent p = Some q /\
        (perm_parent p <> 0 -> perm_owner q = perm_owner p);
  tree_unique : forall i j p q, rows d !! i = Some p -> rows d !! j = Some q ->
      perm_owner p = perm_owner q -> perm_name p = perm_name q -> i = j
}.

(** [a] is reached from [x] by following one parent or more. *)
Inductive above (d : auth_db) (a : Z) : Z -> Prop :=
| above_parent x p : rows d !! x = Some p -> perm_parent p = a -> above d a x
| above_step x p : rows d !! x = Some p -> perm_parent p <> 0 -> above d a (perm_parent p) -> above d a x.

Definition ancestor_or_self (d : auth_db) (a x : Z) : Prop := a = x \/ above d a x.

Lemma above_inv d a x p :
  rows d !! x = Some p -> above d a x <-> perm_parent p = a \/ (perm_parent p <> 0 /\ above d a (perm_parent p)).
Proof.
  intros Hx. split.
  - intros Ha. inversion Ha; simplify_eq; auto.
  - intros [Hp|[Hn Ha]]; [by eapply above_parent | by eapply above_step].
Qed.

Lemma walk_parents_spec d id : tree_ok d -> id <> 0 -> forall fuel x p,
  rows d !! x = Some p -> (Z.to_nat x <= fuel)%nat ->
  exists b, walk_parents fuel d id x = Ok b /\ (b = true <-> above d id x).
Proof.
  intros Hok Hid. induction fuel as [|fuel IH]; intros x p Hx Hfuel;
    destruct (tree_id _ Hok _ _ Hx) as [_ Hrange]; cbn [walk_parents]; rewrite tbl_find_view, Hx;
    setoid_rewrite (above_inv d id x p Hx);
    (destruct (id =? perm_parent p) eqn:E1; bprop; [exists true; naive_solver|]);
    (destruct (perm_parent p =? 0) eqn:E2; bprop; [exists false; split; [done|]; naive_solver|]).
  - assert (x = 0) as -> by lia. destruct (tree_reserved _ Hok) as (r & Hr & Hr0 & _). congruence.
  - destruct (tree_reserved _ Hok) as (r & Hr & Hr0 & _).
    assert (x <> 0) as Hx0 by (intros ->; congruence).
    destruct (tree_parent _ Hok _ _ Hx Hx0) as (Hlt & q & Hq & _).
    destruct (tree_id _ Hok _ _ Hq) as [_ Hq0].
    destruct (IH _ _ Hq) as (b & -> & Hb); [lia|]. exists b. split; [done|]. naive_solver.
Qed.

Lemma satisfies_spec d this other :
  tree_ok d -> rows d !! perm_id this = Some this -> rows d !! perm_id other = Some other -> perm_id this <> 0 ->
  exists b, satisfies d this other = Ok b /\
    (b = true <-> perm_owner this = perm_owner other /\ ancestor_or_self d (perm_id this) (perm_id other)).
Proof.
  intros Hok Ht Ho Hid. unfold satisfies, ancestor_or_self. setoid_rewrite (above_inv _ _ _ _ Ho).
  destruct (perm_owner this =? perm_owner other) eqn:E1; bprop; cbn; [|exists false; split; [done|]; naive_solver].
  destruct (_ || _)%bool eqn:E2.
  { exists true. split; [done|]. apply orb_true_iff in E2 as [E2|E2]; bprop; naive_solver. }
  bprop. assert (exists q, rows d !! perm_parent other = Some q) as [q Hq].
  { destruct (decide (perm_id other = 0)) as [E0|Hn0].
    - destruct (tree_reserved _ Hok) as (r & Hr & Hr0 & _). rewrite E0 in Ho. simplify_eq. rewrite Hr0. eauto.
    - destruct (tree_parent _ Hok _ _ Ho Hn0) as (_ & q & Hq & _). eauto. }
  destruct (walk_parents_spec d (perm_id this) Hok Hid _ _ _ Hq (Nat.le_refl _)) as (b & -> & Hb).
  exists b. split; [done|]. rewrite Hb.
  destruct (decide (perm_parent other = 0)) as [E0|Hn0]; [|naive_solver].
  destruct (tree_reserved _ Hok) as (r & Hr & Hr0 & _).
  split; [|naive_solver]. rewrite E0, (above_inv _ _ _ _ Hr). naive_solver congruence.
Qed.

(** a permission satisfies another exactly when they have the same owner and
    it is that permission or one of its ancestors; on a well-formed tree of
    permissions the walk up the parents terminates and never dereferences the
    end of the index. *)
Theorem satisfies_iff_ancestor d this other :
  tree_ok d -> rows d !! perm_id this = Some this -> rows d !! perm_id other = Some other -> perm_id this <> 0 ->
  exists b, satisfies d this other = Ok b /\
    (b = true <-> perm_owner this = perm_owner other /\ ancestor_or_self d (perm_id this) (perm_id other)).
Proof. apply satisfies_spec. Qed.

(** ** Lookups *)

Lemma find_by_owner_Some d o n p :
  find_by_owner d o n = Some p -> exists id, rows d !! id = Some p /\ perm_owner p = o /\ perm_name p = n.
Proof.
  unfold find_by_owner. intros Hf. apply fmap_Some in Hf as ([i [id q]] & Hf & ->).
  apply list_find_Some in Hf as (Hl & [Ho Hn] & _). exists id. split; [|done].
  apply tbl_rows_elem. by eapply list_elem_of_lookup_2.
Qed.

Lemma find_by_owner_None d o n :
  find_by_owner d o n = None -> forall id p, rows d !! id = Some p -> perm_owner p = o -> perm_name p = n -> False.
Proof.
  unfold find_by_owner. rewrite fmap_None, list_find_None, Forall_forall.
  intros Hall id p Hp Ho Hn. apply tbl_rows_elem in Hp. by apply (Hall _ Hp).
Qed.

Lemma get_permission_Ok d level p :
  tree_ok d -> get_permission d level = Ok p ->
  rows d !! perm_id p = Some p /\ perm_id p <> 0 /\ perm_owner p = actor level /\ perm_name p = permission level.
Proof.
  intros Hok. unfold get_permission. intros Hg. inv_res. bprop.
  destruct (find_by_owner _ _ _) as [q|] eqn:Ef; [|done]. simplify_eq.
  apply find_by_owner_Some in Ef as (id & Hid & Ho & Hn).
  destruct (tree_id _ Hok _ _ Hid) as [Hpid _]. subst id. split_and!; [done| |done|done].
  intros E0. destruct (tree_reserved _ Hok) as (r & Hr & _ & Hr0). rewrite E0 in Hid. simplify_eq. congruence.
Qed.

(** ** The operations keep the tree *)

(** Every stored authority has members of its C++ types. *)
Definition authorities_ok (d : auth_db) : Prop :=
  forall id p, rows d !! id = Some p -> authority_typed (perm_auth p).

(** Nothing but the permissions, and with them their usage rows, has changed. *)
Definition permissions_only (d d' : auth_db) : Prop := links d' = links d /\ generated d' = generated d.

(** The row [create_permission] adds. *)
Definition new_permission (d : auth_db) (account name parent : Z) (auth : authority K) (time : Z) : permission_object K :=
  mk_permission (next_permission_id d) (next_usage_id d) parent account name time auth.

Lemma create_permission_Ok now account name parent auth time d p d' :
  create_permission now account name parent auth time d = (Ok p, d') ->
  p = new_permission d account name parent auth (if time =? 0 then now else time) /\
  rows d' = <[next_permission_id d := p]> (rows d) /\ rows d !! next_permission_id d = None /\
  next_permission_id d' = next_permission_id d + 1 /\ find_by_owner d account name = None /\
  permissions_only d d'.
Proof.
  unfold create_permission, create_usage_row, create_permission_row, bind, get_state, put_state, lift, ret, tbl_create.
  destruct (tbl_find (next_usage_id d) (usages d)); [done|]. cbn.
  unfold find_by_owner at 1. cbn. fold (find_by_owner d account name).
  case_bool_decide as Hf; cbn; [|done]. rewrite tbl_find_view.
  destruct (rows d !! next_permission_id d) eqn:E; [done|]. intros [= <- <-]. cbn.
  rewrite tbl_put_view. by split_and!.
Qed.

Lemma create_permission_tree now account name parent auth time d p d' q :
  tree_ok d -> create_permission now account name parent auth time d = (Ok p, d') ->
  rows d !! parent = Some q -> (parent <> 0 -> perm_owner q = account) -> tree_ok d'.
Proof.
  intros Hok Hc Hq Howner. apply create_permission_Ok in Hc as (Hp & Hrows & Hfresh & Hnext & Huniq & _).
  assert (0 < next_permission_id d) as Hpos.
  { destruct (tree_reserved _ Hok) as (r & Hr & _). apply (tree_id _ Hok) in Hr. lia. }
  pose proof (proj2 (tree_id _ Hok _ _ Hq)) as Hparent.
  assert (forall i x, rows d !! i = Some x -> i <> next_permission_id d) as Hne by (intros; congruence).
  constructor; rewrite ?Hrows, ?Hnext.
  - intros id x [[<- <-]|[_ Hx]]%lookup_insert_Some; [subst p; cbn; lia|].
    apply (tree_id _ Hok) in Hx as [? ?]. split; [done | lia].
  - destruct (tree_reserved _ Hok) as (r & Hr & Hr0). exists r.
    rewrite lookup_insert_ne by (symmetry; by eapply Hne). done.
  - intros id x [[<- <-]|[_ Hx]]%lookup_insert_Some Hid.
    + subst p. cbn. split; [lia|]. exists q. by rewrite lookup_insert_ne by (symmetry; by eapply Hne).
    + destruct (tree_parent _ Hok _ _ Hx Hid) as (Hlt & y & Hy & Hown). split; [done|]. exists y.
      by rewrite lookup_insert_ne by (symmetry; by eapply Hne).
  - intros i j x y [[<- <-]|[_ Hx]]%lookup_insert_Some [[<- <-]|[_ Hy]]%lookup_insert_Some Ho Hn;
      [done | | | by eapply tree_unique]; subst p; cbn in *;
      exfalso; eapply find_by_owner_None; eauto.
Qed.

Lemma modify_permission_tree now auth d p :
  tree_ok d -> rows d !! perm_id p = Some p -> tree_ok (snd (modify_permission now p auth d)).
Proof.
  intros Hok Hp. unfold modify_permission, modify. cbn [snd].
  set (p' := mk_permission _ _ _ _ _ _ _). set (d' := set_permissions _ _ _).
  assert (rows d' = <[perm_id p := p']> (rows d)) as Hrows by apply tbl_put_view.
  assert (forall i x, rows d' !! i = Some x -> exists y, rows d !! i = Some y /\ perm_id x = perm_id y /\
    perm_parent x = perm_parent y /\ perm_owner x = perm_owner y /\ perm_name x = perm_name y) as Hback.
  { intros i x. rewrite Hrows. intros [[<- <-]|[_ Hx]]%lookup_insert_Some; [by exists p | by exists x]. }
  assert (forall i y, rows d !! i = Some y -> exists x, rows d' !! i = Some x /\
    perm_parent x = perm_parent y /\ perm_owner x = perm_owner y) as Hforth.
  { intros i y Hy. rewrite Hrows. destruct (decide (i = perm_id p)) as [->|Hne].
    - simplify_eq. rewrite lookup_insert_eq. eauto.
    - rewrite lookup_insert_ne by done. eauto. }
  constructor.
  - intros id x Hx. apply Hback in Hx as (y & Hy & -> & _). by apply (tree_id _ Hok).
  - destruct (tree_reserved _ Hok) as (r & Hr & Hr0 & Hr1). apply Hforth in Hr as (x & Hx & E1 & E2).
    exists x. split_and!; [done|congruence|congruence].
  - intros id x Hx Hid. apply Hback in Hx as (y & Hy & _ & E1 & E2 & _).
    destruct (tree_parent _ Hok _ _ Hy Hid) as (Hlt & z & Hz & Hown).
    apply Hforth in Hz as (w & Hw & _ & Ew). rewrite E1. split; [done|]. exists w. split; [done|].
    intros Hn. rewrite Ew, E2. by apply Hown.
  - intros i j x y Hx Hy Ho Hn. apply Hback in Hx as (x' & Hx & _ & _ & Eo & En).
    apply Hback in Hy as (y' & Hy & _ & _ & Eo' & En'). eapply (tree_unique _ Hok); [done|done|congruence|congruence].
Qed.

Lemma has_children_false d id : has_children d id = false -> forall i p, rows d !! i = Some p -> perm_parent p <> id.
Proof.
  unfold has_children. intros Hc i p Hp E. apply tbl_rows_elem, list_elem_of_In in Hp.
  assert (existsb (fun kv => perm_parent (snd kv) =? id) (tbl_rows (permissions d)) = true) as Ht; [|congruence].
  apply existsb_exists. exists (i, p). split; [done|]. cbn. by apply Z.eqb_eq.
Qed.

Lemma remove_permission_tree d p r d' :
  tree_ok d -> rows d !! perm_id p = Some p -> perm_id p <> 0 ->
  remove_permission p d = (r, d') -> tree_ok d' /\ (r = Ok tt -> rows d' = delete (perm_id p) (rows d)).
Proof.
  intros Hok Hp Hid. unfold remove_permission, bind, get_state, lift, modify, eos_assert.
  destruct (has_children d (perm_id p)) eqn:Hc; cbn; [by intros [= <- <-]|].
  destruct (tbl_get _ _) as [u|e]; cbn; [|intros [= <- <-]; by split]. intros [= <- <-].
  set (d' := set_permissions _ _ _).
  assert (rows d' = delete (perm_id p) (rows d)) as Hrows by apply tbl_remove_view.
  split; [|done]. pose proof (has_children_false _ _ Hc) as Hnc.
  constructor; rewrite ?Hrows.
  - intros id x [_ Hx]%lookup_delete_Some. by apply (tree_id _ Hok).
  - destruct (tree_reserved _ Hok) as (q & Hq & Hq'). exists q. by rewrite lookup_delete_ne.
  - intros id x [Hne Hx]%lookup_delete_Some Hid'.
    destruct (tree_parent _ Hok _ _ Hx Hid') as (Hlt & q & Hq & Ho). split; [done|]. exists q.
    rewrite lookup_delete_ne; [done|]. intros E. by apply (Hnc _ _ Hx).
  - intros i j x y [_ Hx]%lookup_delete_Some [_ Hy]%lookup_delete_Some. by eapply tree_unique.
Qed.

(** The databases the manager's operations lead to, called as the chain calls
    them: a permission is created under an existing one of the same account, or
    under the reserved one; stored permissions are modified and removed, the
    reserved one excepted.  A throw counts as a step too. *)
Inductive reachable : auth_db -> Prop :=
| reach_init d0 d :
    rows d0 = ∅ -> next_permission_id d0 = 0 -> initialize_database d0 = (Ok tt, d) -> reachable d
| reach_create now account name parent auth time d q r d' :
    reachable d -> rows d !! parent = Some q -> (parent <> 0 -> perm_owner q = account) -> authority_typed auth ->
    create_permission now account name parent auth time d = (r, d') -> reachable d'
| reach_modify now p auth d r d' :
    reachable d -> rows d !! perm_id p = Some p -> authority_typed auth ->
    modify_permission now p auth d = (r, d') -> reachable d'
| reach_remove p d r d' :
    reachable d -> rows d !! perm_id p = Some p -> perm_id p <> 0 ->
    remove_permission p d = (r, d') -> reachable d'
| reach_usage now p d r d' :
    reachable d -> update_permission_usage now p d = (r, d') -> reachable d'.

(** Only the permissions matter. *)
Lemma tree_ok_ext d d' :
  rows d' = rows d -> next_permission_id d' = next_permission_id d -> tree_ok d -> tree_ok d'.
Proof. intros Hr Hn [H1 H2 H3 H4]. constructor; rewrite ?Hr, ?Hn; done. Qed.

Lemma create_permission_Throw now account name parent auth time d e d' :
  create_permission now account name parent auth time d = (Throw e, d') ->
  rows d' = rows d /\ next_permission_id d' = next_permission_id d.
Proof.
  unfold create_permission, create_usage_row, create_permission_row, bind, get_state, put_state, lift, ret, tbl_create.
  destruct (tbl_find (next_usage_id d) (usages d)); cbn; [by intros [= _ <-]|].
  case_bool_decide; cbn; [|by intros [= _ <-]]. destruct (tbl_find _ _); [by intros [= _ <-] | done].
Qed.

Lemma initialize_database_tree d0 d :
  rows d0 = ∅ -> next_permission_id d0 = 0 -> initialize_database d0 = (Ok tt, d) -> tree_ok d /\ authorities_ok d.
Proof.
  intros Hr Hn. unfold initialize_database, create_permission_row, bind, get_state, put_state, lift, ret, tbl_create.
  cbn. rewrite Hn. case_bool_decide; cbn; [|done]. rewrite tbl_find_view, Hr, lookup_empty.
  intros [= <-]. set (d := set_permissions _ _ _).
  assert (rows d = {[0 := mk_permission 0 0 0 0 0 0 empty_authority]}) as Hrows
    by (unfold d; cbn; rewrite tbl_put_view, Hr; done).
  split; [|intros id p; rewrite Hrows; intros [<- <-]%lookup_singleton_Some;
           repeat split; unfold is_uint; cbn; (lia || constructor)].
  constructor; rewrite Hrows.
  - intros id p [<- <-]%lookup_singleton_Some. cbn. lia.
  - eexists. by rewrite lookup_singleton_eq.
  - intros id p [<- <-]%lookup_singleton_Some. done.
  - intros i j p q [<- <-]%lookup_singleton_Some [<- <-]%lookup_singleton_Some. done.
Qed.

Lemma update_permission_usage_rows now p d r d' :
  update_permission_usage now p d = (r, d') ->
  rows d' = rows d /\ next_permission_id d' = next_permission_id d.
Proof.
  unfold update_permission_usage, bind, get_state, lift, modify.
  destruct (tbl_get _ _); cbn; by intros [= _ <-].
Qed.

Lemma reachable_ok d : reachable d -> tree_ok d /\ authorities_ok d.
Proof.
  induction 1 as [d0 d Hr Hn E | now account name parent auth time d q r d' _ [Htree Hauth] Hq Ho Hty E
    | now p auth d r d' _ [Htree Hauth] Hp Hty E | p d r d' _ [Htree Hauth] Hp Hid E
    | now p d r d' _ [Htree Hauth] E].
  - by eapply initialize_database_tree.
  - destruct r as [p|e].
    + split; [by eapply create_permission_tree|]. apply create_permission_Ok in E as (-> & Hrows & _).
      intros id x. rewrite Hrows. intros [[<- <-]|[_ Hx]]%lookup_insert_Some; [done | by eapply Hauth].
    + apply create_permission_Throw in E as [Hr Hn]. split; [by eapply tree_ok_ext|].
      intros id x. rewrite Hr. apply Hauth.
  - pose proof (modify_permission_tree now auth d p Htree Hp) as Ht. rewrite E in Ht. split; [done|].
    injection E as _ <-. intros id x. cbn. rewrite tbl_put_view.
    intros [[<- <-]|[_ Hx]]%lookup_insert_Some; [done | by eapply Hauth].
  - destruct (remove_permission_tree d p r d' Htree Hp Hid E) as [Ht Hr]. split; [done|].
    assert (forall i x, rows d' !! i = Some x -> rows d !! i = Some x) as Hsub; [|by intros i x Hx%Hsub%Hauth].
    revert E. unfold remove_permission, bind, get_state, lift, modify, eos_assert.
    destruct (has_children _ _); cbn; [by intros [= _ <-]|]. destruct (tbl_get _ _); cbn; [|by intros [= _ <-]].
    intros [= _ <-]. intros i x. cbn. rewrite tbl_remove_view. by intros [_ ?]%lookup_delete_Some.
  - apply update_permission_usage_rows in E as [Hr Hn]. split; [by eapply tree_ok_ext|].
    intros id x. rewrite Hr. apply Hauth.
Qed.

(** C38: whatever sequence of create_permission, modify_permission,
    remove_permission and update_permission_usage leads there, and whichever of
    the calls threw, the permissions form a tree: ids are unique and handed out
    in increasing order, every permission's parent exists and is older, a child
    belongs to its parent's account, the removal of a permission with children
    is refused, and (owner, name) identifies a permission; every stored
    authority is well typed. *)
Theorem permissions_stay_a_tree d : reachable d -> tree_ok d /\ authorities_ok d.
Proof. apply reachable_ok. Qed.

(** ** What check_authorization guarantees *)

(** [auth] names a stored permission that is [min] or an ancestor of it. *)
Definition authorizes (d : auth_db) (auth : permission_level) (min : permission_object K) : Prop :=
  exists p, get_permission d auth = Ok p /\ perm_owner p = perm_owner min /\
    ancestor_or_self d (perm_id p) (perm_id min).

Lemma check_satisfies_sound d auth level min u :
  tree_ok d -> get_permission d level = Ok min -> check_satisfies d auth min = Ok u -> authorizes d auth min.
Proof.
  intros Hok Hmin. unfold check_satisfies. intros Hc. inv_res.
  destruct (get_permission_Ok _ _ _ Hok E) as (Hp & Hid & _).
  destruct (get_permission_Ok _ _ _ Hok Hmin) as (Hm & _).
  destruct (satisfies_spec d a min Hok Hp Hm Hid) as (b & Hb & Hiff).
  exists a. split; [done|]. apply Hiff. congruence.
Qed.

(** An ordinary action: the declared authorization covers the minimum
    permission the account has linked to it. *)
Definition minimum_ok (d : auth_db) (act : action) (auth : permission_level) : Prop :=
  exists m, lookup_minimum_permission d (actor auth) (act_account act) (act_name act) = Ok m /\
    forall n, m = Some n -> exists min, get_permission d (mk_level (actor auth) n) = Ok min /\ authorizes d auth min.

Lemma check_minimum_sound d act auth u :
  tree_ok d -> check_minimum d act auth = Ok u -> minimum_ok d act auth.
Proof.
  intros Hok. unfold check_minimum. intros Hc. inv_res. exists a. split; [done|]. intros n ->. inv_res.
  exists a. split; [done|]. by eapply check_satisfies_sound.
Qed.

(** [m'] asks for at least what [m] asks for, under delays that are no longer. *)
Definition covers (m m' : gmap permission_level Z) : Prop :=
  forall p delay, m !! p = Some delay -> exists delay', m' !! p = Some delay' /\ delay' <= delay.

#[local] Instance covers_preorder : PreOrder covers.
Proof.
  split; [intros m p delay Hp; exists delay; split; [done | lia]|].
  intros m1 m2 m3 H12 H23 p delay Hp. destruct (H12 _ _ Hp) as (d2 & Hd2 & ?).
  destruct (H23 _ _ Hd2) as (d3 & Hd3 & ?). exists d3. split; [done | lia].
Qed.

Lemma to_satisfy_covers p delay m :
  covers m (to_satisfy p delay m) /\ exists delay', to_satisfy p delay m !! p = Some delay' /\ delay' <= delay.
Proof.
  unfold to_satisfy. destruct (m !! p) as [delay0|] eqn:E.
  - destruct (delay <? delay0) eqn:El; bprop.
    + split; [|exists delay; by rewrite lookup_insert_eq]. intros q dq Hq.
      destruct (decide (p = q)) as [<-|Hne]; [simplify_eq; exists delay; rewrite lookup_insert_eq; split; [done|lia]|].
      exists dq. by rewrite lookup_insert_ne.
    + split; [done|]. exists delay0. by split.
  - split; [|exists delay; by rewrite lookup_insert_eq]. intros q dq Hq. exists dq.
    rewrite lookup_insert_ne; [done|]. congruence.
Qed.

Lemma collect_auths_sound d ct sat act special delay auths : forall k m m',
  tree_ok d -> collect_auths d ct k sat act special delay auths m = Ok m' ->
  covers m m' /\ forall auth, auth ∈ auths ->
    (special = false -> minimum_ok d act auth) /\
    (auth ∈ sat \/ exists delay', m' !! auth = Some delay' /\ delay' <= delay).
Proof.
  induction auths as [|a auths IH]; intros k m m' Hok; cbn [collect_auths].
  { intros [= <-]. split; [done|]. by intros auth ?%elem_of_nil. }
  intros Hc. inv_res. destruct (IH _ _ _ Hok Hc) as [Hcov Hall].
  set (m1 := if decide (a ∈ sat) then m else to_satisfy a delay m) in *.
  assert (covers m m1) as Hm1 by (unfold m1; case_decide; [done | apply to_satisfy_covers]).
  split; [by transitivity m1|]. intros auth [->|Hin]%elem_of_cons; [|by apply Hall]. split.
  - intros ->. by eapply check_minimum_sound.
  - unfold m1 in Hcov. case_decide as Hs; [by left|]. right.
    destruct (to_satisfy_covers a delay m) as (_ & d1 & Hd1 & Hle).
    destruct (Hcov _ _ Hd1) as (d2 & Hd2 & ?). exists d2. split; [done | lia].
Qed.

Lemma collect_actions_sound d cfg ct sat delay actions : forall k m m',
  tree_ok d -> collect_actions d cfg ct k sat delay actions m = Ok m' ->
  covers m m' /\ forall act auth, act ∈ actions -> auth ∈ act_authorization act ->
    exists special act_delay, check_native_action d cfg delay act = Ok (special, act_delay) /\
      (special = false -> minimum_ok d act auth) /\
      (auth ∈ sat \/ exists delay', m' !! auth = Some delay' /\ delay' <= act_delay).
Proof.
  induction actions as [|a actions IH]; intros k m m' Hok; cbn [collect_actions].
  { intros [= <-]. split; [done|]. by intros act auth ?%elem_of_nil. }
  intros Hc. inv_res. destruct (collect_auths_sound _ _ _ _ _ _ _ _ _ _ Hok E0) as [Hcov0 Hall0].
  destruct (IH _ _ _ Hok Hc) as [Hcov Hall]. split; [by transitivity a1|].
  intros act auth [->|Hin]%elem_of_cons Hauth; [|by apply Hall]. destruct a0 as [special act_delay].
  exists special, act_delay. split; [done|]. destruct (Hall0 _ Hauth) as [Hmin Hsat]. split; [done|].
  destruct Hsat as [?|(d1 & Hd1 & Hle)]; [by left|]. right. destruct (Hcov _ _ Hd1) as (d2 & Hd2 & ?).
  exists d2. cbn in Hle. split; [done | lia].
Qed.

Lemma authority_of_typed d level auth :
  tree_ok d -> authorities_ok d -> authority_of d level = Ok auth -> authority_typed auth.
Proof.
  intros Hok Hty. unfold authority_of. intros Ha. inv_res.
  destruct (get_permission_Ok _ _ _ Hok E) as (Hp & _). by eapply Hty.
Qed.

Lemma check_all_sound d cfg keys perms ct l : forall k used used',
  tree_ok d -> authorities_ok d -> check_all d cfg keys perms ct k l used = (Ok tt, used') ->
  forall p delay, (p, delay) ∈ l -> granted (authority_of d) keys perms delay p.
Proof.
  induction l as [|[q dq] l IH]; intros k used used' Hok Hty; [by intros _ p delay ?%elem_of_nil|].
  cbn [check_all]. intros Hc. apply bind_ok in Hc as (u & s0 & [_ ->]%lift_ok & Hc).
  apply bind_ok in Hc as (b & s1 & Hs & H1). apply bind_ok in H1 as (v & s2 & [Hb ->]%lift_ok & H2).
  intros p delay [[= -> ->]|Hin]%elem_of_cons.
  - destruct b; [|discriminate Hb]. eapply satisfied_level_granted; [|exact Hs].
    intros level auth. by apply authority_of_typed.
  - eapply (IH (S k) s1 used'); done.
Qed.

Lemma ascending_elem m p delay : (p, delay) ∈ ascending m <-> m !! p = Some delay.
Proof. unfold ascending. rewrite merge_sort_Permutation. apply elem_of_map_to_list. Qed.

(** The theorem below, without the history of the database. *)
Lemma check_authorization_granted d cfg keys perms checktime actions provided_delay allow_unused_keys sat :
  tree_ok d -> authorities_ok d ->
  check_authorization d cfg keys perms checktime actions provided_delay allow_unused_keys sat = Ok tt ->
  forall act auth, act ∈ actions -> auth ∈ act_authorization act ->
  exists special act_delay,
    check_native_action d cfg (effective_provided_delay cfg provided_delay) act = Ok (special, act_delay) /\
    (special = false -> minimum_ok d act auth) /\
    (auth ∈ sat \/
     exists delay, delay <= act_delay /\ granted (authority_of d) keys perms delay auth).
Proof.
  intros Hok Hty Hc act auth Hact Hauth. unfold check_authorization in Hc.
  apply res_bind_ok in Hc as (m & Hm & Hc).
  destruct (check_all _ _ _ _ _ _ (ascending m) _) as [[[]|e] used] eqn:Ea; [|done].
  destruct (collect_actions_sound _ _ _ _ _ _ _ _ _ Hok Hm) as [_ Hall].
  destruct (Hall act auth Hact Hauth) as (special & act_delay & Hn & Hmin & Hsat).
  exists special, act_delay. split_and!; [done..|]. destruct Hsat as [?|(delay & Hd & Hle)]; [by left|]. right.
  exists delay. split; [done|]. eapply check_all_sound; [done..|]. by apply ascending_elem.
Qed.

(** C6: a transaction that passes check_authorization is authorized: for every
    action and every authorization it declares, the declared permission is the
    one the account's links require for that action or an ancestor of it
    (unless the links say eosio.any, or the action is one of the native ones
    that have their own check), and the declared permission is one of the
    already satisfied ones or is granted - by the provided keys and permissions,
    through the authorities the database stores, under a delay no longer than
    the one the action is checked under. *)
Theorem check_authorization_sound d cfg keys perms checktime actions provided_delay allow_unused_keys sat :
  reachable d ->
  check_authorization d cfg keys perms checktime actions provided_delay allow_unused_keys sat = Ok tt ->
  forall act auth, act ∈ actions -> auth ∈ act_authorization act ->
  exists special act_delay,
    check_native_action d cfg (effective_provided_delay cfg provided_delay) act = Ok (special, act_delay) /\
    (special = false -> minimum_ok d act auth) /\
    (auth ∈ sat \/
     exists delay, delay <= act_delay /\ granted (authority_of d) keys perms delay auth).
Proof.
  intros Hr. apply reachable_ok in Hr as [Hok Hty]. by apply check_authorization_granted.
Qed.

(** ** The native actions *)

(** What authorizes each native action: exactly one declared authorization, of
    the account acted on, that covers the permission acted on. *)
Inductive native_authorized (d : auth_db) (cfg : configuration) (act : action) : Prop :=
| authorized_updateauth data auth min :
    act_name act = updateauth_name -> data_as_updateauth (act_data act) = Ok data ->
    act_authorization act = [auth] -> actor auth = ua_account data -> perm_owner min = ua_account data ->
    perm_name min = ua_permission data \/
      (find_by_owner d (ua_account data) (ua_permission data) = None /\ perm_name min = ua_parent data) ->
    authorizes d auth min -> native_authorized d cfg act
| authorized_deleteauth data auth min :
    act_name act = deleteauth_name -> data_as_deleteauth (act_data act) = Ok data ->
    act_authorization act = [auth] -> actor auth = da_account data ->
    perm_owner min = da_account data -> perm_name min = da_permission data ->
    authorizes d auth min -> native_authorized d cfg act
| authorized_linkauth data auth linked :
    act_name act = linkauth_name -> data_as_linkauth (act_data act) = Ok data ->
    act_authorization act = [auth] -> actor auth = la_account data ->
    (la_code data = system_account_name \/ fix_linkauth_restriction cfg = false -> unlinkable (la_type data) = false) ->
    lookup_minimum_permission d (la_account data) (la_code data) (la_type data) = Ok linked ->
    (forall n, linked = Some n -> exists min,
       get_permission d (mk_level (la_account data) n) = Ok min /\ authorizes d auth min) ->
    native_authorized d cfg act
| authorized_unlinkauth data auth n :
    act_name act = unlinkauth_name -> data_as_unlinkauth (act_data act) = Ok data ->
    act_authorization act = [auth] -> actor auth = ul_account data ->
    lookup_linked_permission d (ul_account data) (ul_code data) (ul_type data) = Some n ->
    (n <> eosio_any_name -> exists min,
       get_permission d (mk_level (ul_account data) n) = Ok min /\ authorizes d auth min) ->
    native_authorized d cfg act
| authorized_canceldelay data auth min g actions a :
    act_name act = canceldelay_name -> data_as_canceldelay (act_data act) = Ok data ->
    act_authorization act = [auth] -> get_permission d (cd_canceling_auth data) = Ok min -> authorizes d auth min ->
    tbl_view (generated d) !! cd_trx_id data = Some g -> gto_sender g = 0 ->
    unpack_transaction (gto_packed_trx g) = Ok actions -> a ∈ actions ->
    cd_canceling_auth data ∈ act_authorization a ->
    native_authorized d cfg act.

Lemma single_auth_Ok auths account auth :
  single_auth auths account = Ok auth -> auths = [auth] /\ actor auth = account.
Proof. unfold single_auth. destruct auths as [|a []]; intros Hs; try discriminate. inv_res. by bprop. Qed.

Lemma updateauth_authorized d cfg act data u :
  tree_ok d -> act_name act = updateauth_name -> data_as_updateauth (act_data act) = Ok data ->
  check_updateauth_authorization d data (act_authorization act) = Ok u -> native_authorized d cfg act.
Proof.
  intros Hok Hn Hd Hc. unfold check_updateauth_authorization in Hc. inv_res.
  apply single_auth_Ok in E as [Ha Hact]. unfold find_permission in E0. inv_res.
  destruct (find_by_owner _ _ _) as [p|] eqn:Ef; inv_res.
  - pose proof Ef as (id & Hid & Ho & Hna)%find_by_owner_Some. cbn in Ho, Hna.
    eapply authorized_updateauth; [done..|by left|].
    eapply (check_satisfies_sound _ _ (mk_level (ua_account data) (ua_permission data))); [done| |done].
    unfold get_permission. rewrite E. cbn in Ef |- *. by rewrite Ef.
  - destruct (get_permission_Ok _ _ _ Hok E1) as (_ & _ & Ho & Hna). cbn in Ho, Hna.
    eapply authorized_updateauth; [done..|by right|]. by eapply check_satisfies_sound.
Qed.

Lemma canceldelay_authorized d cfg act data delay :
  tree_ok d -> act_name act = canceldelay_name -> data_as_canceldelay (act_data act) = Ok data ->
  check_canceldelay_authorization d data (act_authorization act) = Ok delay -> native_authorized d cfg act.
Proof.
  intros Hok Hn Hd Hc. unfold check_canceldelay_authorization in Hc.
  destruct (act_authorization act) as [|auth []] eqn:Ha; [done| |done].
  apply res_bind_ok in Hc as (p & Hp & Hc). apply res_bind_ok in Hc as (min & Hmin & Hc).
  apply res_bind_ok in Hc as (u & Hs & Hc). destruct (tbl_lower_bound _ _) as [[id g]|] eqn:El; [|done].
  apply tbl_lower_bound_Some in El as [Hg _]. inv_res. bprop. subst id.
  match goal with H : existsb _ _ = true |- _ => apply existsb_exists in H as (act' & Hin & Hb) end.
  apply list_elem_of_In in Hin. bprop.
  eapply authorized_canceldelay; [done..| |done|done|done|done|done]. by eapply check_satisfies_sound.
Qed.

Lemma linked_authorized d auth account n u :
  tree_ok d ->
  (let! p := get_permission d auth in
   let! min := get_permission d (mk_level account n) in check_satisfies d auth min) = Ok u ->
  exists min, get_permission d (mk_level account n) = Ok min /\ authorizes d auth min.
Proof.
  intros Hok Hc. inv_res. eexists. split; [done|]. by eapply check_satisfies_sound.
Qed.

(** the native actions that change permissions and links are only accepted
    with the right authorization: exactly one is declared, its actor is the
    account acted on (canceldelay aside), and it covers the permission being
    updated or deleted, the parent of a permission being created, the
    permission an action is linked to, or the authorization being cancelled,
    which must be one of the delayed transaction's own; the five native actions
    themselves can never be linked when the contract is the system account. *)
Theorem native_actions_authorized d cfg delay act delay' :
  reachable d -> check_native_action d cfg delay act = Ok (true, delay') ->
  act_account act = system_account_name /\ native_authorized d cfg act.
Proof.
  intros [Hok _]%reachable_ok. unfold check_native_action.
  destruct (act_account act =? system_account_name) eqn:Es; cbn; [|done]. bprop. intros Hc. split; [done|].
  repeat match type of Hc with
  | (if ?b then _ else _) = _ => destruct b eqn:?; bprop
  end; try discriminate; apply res_bind_ok in Hc as (data & Hd & Hc); apply res_bind_ok in Hc as (u & Hu & _).
  - by eapply updateauth_authorized.
  - unfold check_deleteauth_authorization in Hu. inv_res. apply single_auth_Ok in E as [Ha Hact].
    destruct (get_permission_Ok _ _ _ Hok E0) as (_ & _ & Ho & Hn).
    eapply authorized_deleteauth; [done..|]. by eapply check_satisfies_sound.
  - unfold check_linkauth_authorization in Hu.
    apply res_bind_ok in Hu as (auth & Hs & Hu). apply single_auth_Ok in Hs as [Ha Hact].
    apply res_bind_ok in Hu as (u' & Hl & Hu). apply eos_assert_ok in Hl.
    apply res_bind_ok in Hu as (linked & Hlk & Hu).
    eapply authorized_linkauth; [done..| |done|].
    + intros Hor. apply negb_true_iff. apply orb_true_iff in Hl as [Hl|Hl]; [|done].
      apply negb_true_iff, orb_false_iff in Hl as [H1 H2]. bprop. naive_solver congruence.
    + intros n ->. by eapply linked_authorized.
  - unfold check_unlinkauth_authorization in Hu.
    apply res_bind_ok in Hu as (auth & Hs & Hu). apply single_auth_Ok in Hs as [Ha Hact].
    destruct (lookup_linked_permission _ _ _ _) as [n|] eqn:El; [|done].
    eapply authorized_unlinkauth; [done..|]. intros Hn. apply Z.eqb_neq in Hn. rewrite Hn in Hu.
    by eapply linked_authorized.
  - by eapply canceldelay_authorized.
Qed.

End Manager.

(** ** A concrete database *)

Module Examples.

(** Deleteauth is the only action with data here: account and permission. *)
#[export] Instance toy_decoding : ActionData nat := {|
  data_as_updateauth := fun _ => Throw action_validate_exception;
  data_as_deleteauth := fun l => match l with [a; p] => Ok (mk_deleteauth a p) | _ => Throw action_validate_exception end;
  data_as_linkauth := fun _ => Throw action_validate_exception;
  data_as_unlinkauth := fun _ => Throw action_validate_exception;
  data_as_canceldelay := fun _ => Throw action_validate_exception;
  unpack_transaction := fun _ => Throw transaction_exception
|}.

Abbreviation toy_db := (auth_db (TP := gmap Z (permission_object nat)) (TU := gmap Z Z)
  (TL := gmap (Z * Z * Z) Z) (TG := gmap Z generated_transaction_object)).

Definition empty_db : toy_db := mk_auth_db ∅ 0 ∅ 0 ∅ ∅.

Definition by_key (k : nat) : authority nat := mk_authority 1 [mk_key_weight k 1] [] [].
Definition by_level (threshold : Z) (l : list (Z * Z)) : authority nat :=
  mk_authority threshold [] ((fun pw => mk_level_weight (mk_level 100 (fst pw)) (snd pw)) <$> l) [].

(** Account 100: owner (1) has active below it, and active has four permissions:
    4 is held by key 1, 5 does not exist, 2 needs 4 and 5, 3 needs 4; active
    needs 2 or 3. *)
Definition toy_permissions : list (Z * Z * authority nat) :=
  [(1, 0, by_key 9); (active_name, 1, by_level 1 [(2, 2); (3, 1)]);
   (2, 2, by_level 2 [(4, 1); (5, 1)]); (3, 2, by_level 1 [(4, 1)]); (4, 2, by_key 1)].

Definition create_toy (p : Z * Z * authority nat) : exec toy_db unit :=
  do _ <- create_permission 1000 100 (fst (fst p)) (snd (fst p)) (snd p) 0; ret tt.

Definition sample_db_at (n : nat) : toy_db :=
  snd (for_each (take n toy_permissions) create_toy (snd (initialize_database empty_db))).
Definition sample_db : toy_db := sample_db_at 5.

Definition toy_configuration : configuration := mk_configuration 3888000 6 true.

Definition transfer : action := mk_action 7 9 [mk_level 100 active_name] [].
Definition delete : action :=
  mk_action system_account_name deleteauth_name [mk_level 100 active_name] [100; 3].

Abbreviation rows d := (tbl_view (K := Z) (V := permission_object nat) (permissions d)).

(** One creation under a parent that is there. *)
Lemma create_toy_reachable (p : Z * Z * authority nat) (q : permission_object nat) (d : toy_db) :
  reachable d -> rows d !! snd (fst p) = Some q -> perm_owner q = 100 \/ snd (fst p) = 0 ->
  authority_typed (snd p) -> reachable (snd (create_toy p d)).
Proof.
  intros Hr Hq Ho Hty.
  destruct (create_permission 1000 100 (fst (fst p)) (snd (fst p)) (snd p) 0 d) as [r d'] eqn:E.
  assert (snd (create_toy p d) = d') as -> by (unfold create_toy, bind; rewrite E; by destruct r).
  eapply (reach_create 1000 100 _ _ _ 0); [done | done | | done | done]. intros Hn. by destruct Ho.
Qed.

Ltac typed_authority := unfold authority_typed, is_uint; cbn; (split; [lia|]); repeat constructor; cbn; lia.

Lemma sample_step n p q :
  reachable (sample_db_at n) -> toy_permissions !! n = Some p ->
  rows (sample_db_at n) !! snd (fst p) = Some q -> perm_owner q = 100 \/ snd (fst p) = 0 ->
  authority_typed (snd p) -> fst (create_toy p (sample_db_at n)) = Ok tt ->
  fst (for_each (take n toy_permissions) create_toy (snd (initialize_database empty_db))) = Ok tt ->
  reachable (sample_db_at (S n)).
Proof.
  intros Hr Hn Hq Ho Hty Hok Hpre. unfold sample_db_at at 1. rewrite (take_S_r _ _ _ Hn), for_each_app. unfold bind.
  pose proof (create_toy_reachable p q _ Hr Hq Ho Hty) as Hs. unfold sample_db_at in Hs, Hok.
  destruct (for_each (take n toy_permissions) _ _) as [[[]|] d1]; [|done]. cbn [snd for_each] in *.
  unfold bind. by destruct (create_toy p d1) as [[[]|] d2].
Qed.

Lemma sample_db_reachable : reachable sample_db.
Proof.
  assert (reachable (sample_db_at 0)) as H0 by (apply (reach_init empty_db); [done | done | vm_refl]).
  assert (reachable (sample_db_at 1)) as H1 by
    (eapply (sample_step 0 _ (mk_permission 0 0 0 0 0 0 empty_authority)); [done|done|vm_refl|by right|typed_authority|vm_refl|vm_refl]).
  set (owner := mk_permission 1 0 0 100 1 1000 (by_key 9)).
  assert (reachable (sample_db_at 2)) as H2 by
    (eapply (sample_step 1 _ owner); [done|done|vm_refl|by left|typed_authority|vm_refl|vm_refl]).
  set (active := mk_permission 2 1 1 100 active_name 1000 (by_level 1 [(2, 2); (3, 1)])).
  assert (reachable (sample_db_at 3)) as H3 by
    (eapply (sample_step 2 _ active); [done|done|vm_refl|by left|typed_authority|vm_refl|vm_refl]).
  assert (reachable (sample_db_at 4)) as H4 by
    (eapply (sample_step 3 _ active); [done|done|vm_refl|by left|typed_authority|vm_refl|vm_refl]).
  eapply (sample_step 4 _ active); [done|done|vm_refl|by left|typed_authority|vm_refl|vm_refl].
Qed.

Lemma permissions_stay_a_tree_witness : tree_ok sample_db.
Proof. apply (permissions_stay_a_tree sample_db sample_db_reachable). Defined.

(** Active is an ancestor of permission 3, so it satisfies it. *)
Lemma satisfies_iff_ancestor_witness :
  let active := mk_permission 2 1 1 100 active_name 1000 (by_level 1 [(2, 2); (3, 1)]) in
  let perm3 := mk_permission 4 3 2 100 3 1000 (by_level 1 [(4, 1)]) in
  exists b, satisfies sample_db active perm3 = Ok b /\ b = true.
Proof.
  intros active perm3.
  destruct (satisfies_iff_ancestor sample_db active perm3) as (b & Hb & Hiff).
  - apply reachable_ok, sample_db_reachable.
  - vm_refl.
  - vm_refl.
  - done.
  - exists b. split; [exact Hb|]. apply Hiff. split; [done|]. right. apply (above_parent _ _ _ perm3); vm_refl.
Defined.

Lemma check_authorization_sound_witness :
  check_authorization sample_db toy_configuration [1%nat] [] noop_checktime [transfer] 0 true ∅ = Ok tt /\
  exists delay, granted (authority_of sample_db) [1%nat] [] delay (mk_level 100 active_name).
Proof.
  assert (check_authorization sample_db toy_configuration [1%nat] [] noop_checktime [transfer] 0 true ∅ = Ok tt) as E by vm_refl.
  split; [exact E|].
  destruct (check_authorization_sound sample_db toy_configuration [1%nat] [] noop_checktime [transfer] 0 true ∅
    sample_db_reachable E transfer (mk_level 100 active_name)) as (special & act_delay & _ & _ & [Hs|(delay & _ & Hg)]).
  - left.
  - left.
  - exfalso. exact (not_elem_of_empty _ Hs).
  - by exists delay.
Defined.

Lemma native_actions_authorized_witness : native_authorized sample_db toy_configuration delete.
Proof.
  apply (native_actions_authorized sample_db toy_configuration 0 delete 0 sample_db_reachable). vm_refl.
Defined.

(** a key that is needed can be reported unused.  Key 1 alone satisfies
    active: permission 2 fails after permission 4 was granted by key 1, which
    takes the mark off the key but leaves permission 4 in the cache, and
    permission 3 then takes permission 4 from the cache.  Nothing is satisfied
    without the key, yet the transaction signed with it is refused as bearing
    an irrelevant signature, and get_required_keys returns no key. *)
Theorem needed_key_reported_unused :
  check_authorization sample_db toy_configuration [1%nat] [] noop_checktime [transfer] 0 true ∅ = Ok tt /\
  check_authorization sample_db toy_configuration [] [] noop_checktime [transfer] 0 true ∅ = Throw unsatisfied_authorization /\
  check_authorization sample_db toy_configuration [1%nat] [] noop_checktime [transfer] 0 false ∅ = Throw tx_irrelevant_sig /\
  get_required_keys sample_db toy_configuration [transfer] [1%nat] 0 = Ok [].
Proof. split_and!; vm_refl. Qed.

End Examples.
End Authorization.
