(* ===== verification/BlockRunner.v ===== *)
(** What fork switching needs of block execution, as an interface, and its
    implementation from the parts of libraries/chain/controller.cpp that
    FeatureActivation.v models.

    [run_block] is what apply_block does up to the completed block, with or
    without the light validation of a trusted producer's blocks.  [BlockRunnerLaws] are what the controller relies on: popping the
    protocol features undoes what a block did to them, what a block throws is an
    fc::exception, and a block that was executed with every check can be executed
    again as a validated block (which only skips checks).  [feature_runner] implements it with start_block, for
    any execution of the block's transactions. *)

From Stdlib Require Import ZArith Lia.
From stdpp Require Import base gmap strings numbers sorting list.
From S2P Require Import Prelude Chainbase Merkle BlockHeader BlockHeaderState ProtocolFeatures ResourceLimits FeatureActivation.

Local Open Scope Z_scope.

(** ** The interface *)

(** A run of a block up to its completion, [fm] being the feature manager it
    leaves: the pending block's transactions are those applied so far; after a
    failure inside start_block no block is pending.  [erased] are the
    transactions that leave the unapplied ones. *)
Inductive run_result (D F : Type) : Type :=
| Completed (d : D) (fm : F) (erased : gset digest_type) (trxs : list digest_type)
| Failed (e : exn) (fm : F) (erased : gset digest_type) (trxs : option (list digest_type)).
Arguments Completed {D F}.
Arguments Failed {D F}.

Class BlockRunner (fc : Fc) := {
  chainbase : Type;
  features : Type;
  (** From trusted_producer_light_validation, the database revision, the head
      block and the block to run. *)
  run_block : bool -> Z -> block_header_state -> block_header_state -> Features.block_status -> chainbase -> features ->
    run_result chainbase features;
  popped_blocks_to : Z -> exec features unit;
  (** The transactions a block carries. *)
  block_trxs : block_header_state -> list digest_type
}.

Definition num {fc : Fc} (b : block_header_state) : Z := block_num (common b).

Definition max_block_num : Z := UINT32_MAX - 1.

Class BlockRunnerLaws (fc : Fc) (runner : BlockRunner fc) := {
  (** What holds between blocks, at a given head block number. *)
  state_ok : Z -> chainbase -> features -> Prop;
  (** What the validation of a header against its predecessor's establishes. *)
  links : block_header_state -> block_header_state -> Prop;
  completed_ok light h b s d fm rev d' fm' erased trxs :
    state_ok (num h) d fm -> num b = num h + 1 -> num b <= max_block_num ->
    run_block light rev h b s d fm = Completed d' fm' erased trxs ->
    state_ok (num b) d' fm' /\ popped_blocks_to (num h) fm' = (Ok tt, fm);
  failed_ok light h b s d fm rev e fm' erased trxs :
    state_ok (num h) d fm -> num b = num h + 1 -> num b <= max_block_num ->
    run_block light rev h b s d fm = Failed e fm' erased trxs ->
    match trxs with Some _ => popped_blocks_to (num h) fm' = (Ok tt, fm) | None => fm' = fm end;
  failed_fc light h b s d fm rev e fm' erased trxs :
    state_ok (num h) d fm -> num b = num h + 1 -> num b <= max_block_num -> links h b ->
    run_block light rev h b s d fm = Failed e fm' erased trxs -> is_fc e = true;
  validated_ok light h b d fm rev d' fm' erased trxs :
    state_ok (num h) d fm -> num b = num h + 1 -> num b <= max_block_num ->
    run_block light rev h b Features.complete d fm = Completed d' fm' erased trxs ->
    exists erased' trxs', run_block light rev h b Features.validated d fm = Completed d' fm' erased' trxs'
}.


(** ** The implementation *)

Section FeatureRunner.
Context {fc : Fc} {TL TU TC : Type} `{!Table (bool * Z) ResourceLimits.Manager.resource_limits_object TL}
  `{!Table Z ResourceLimits.Manager.resource_usage_object TU} `{!Table Z Features.account_ram_correction_object TC}.
Context (string_hash : string -> Z) (speculative : bool).

Abbreviation database := (Features.database (TL := TL) (TU := TU) (TC := TC)).

(** The transactions of a block and finalize_block, in the pending block's
    session and with or without light validation: the database reached or an exception, the transactions that leave
    the unapplied ones and those the pending block holds. *)
Context (execute : bool -> block_header_state -> block_header_state -> Features.block_status -> database ->
  res database * gset digest_type * list digest_type).
Context (trxs_of : block_header_state -> list digest_type).
(** What start_block does after the activations; its onblock transaction requires
    the checks, so it does not depend on light validation. *)
Context (rest : block_header_state -> block_header_state -> Features.block_status -> exec database unit).
(** The extensions of a block, outside its header. *)
Context (block_extensions : block_header_state -> list (Z * bytes)).

(** The building block start_block makes: block_header_state::next on the head. *)
Definition building_block_of (h b : block_header_state) : res Features.building_block :=
  let hdr := bare_header (header b) in
  let! p := next_pending h (timestamp hdr) (confirmed hdr) in
  Ok (Features.mk_building (block_num (p_common p)) (p_timestamp p) (prev_activated_protocol_features p)
        (get_new_protocol_feature_activations b) 0).

(** apply_block up to the completed block.  With an extension in the block or
    next throwing, the block is not pending yet and no feature is popped. *)
Definition feature_run_block (light : bool) (rev : Z) (h b : block_header_state) (s : Features.block_status) (d : database)
    (fm : Manager.protocol_feature_manager) : run_result database Manager.protocol_feature_manager :=
  match (assert! (Z.of_nat (length (block_extensions b)) =? 0) else block_validate_exception in building_block_of h b) with
  | Throw e => Failed e fm ∅ None
  | Ok bb =>
      let st := Features.mk_chain d fm None (num h) (BlockHeaderState.activated_protocol_features h) rev speculative in
      match Features.start_block string_hash (rest h b s) false bb s st with
      | (Throw e, st') => Failed e (Features.protocol_features st') ∅ None
      | (Ok _, st') =>
          match execute light h b s (Features.db st') with
          | (Ok d', erased, trxs) => Completed d' (Features.protocol_features st') erased trxs
          | (Throw e, erased, trxs) => Failed e (Features.protocol_features st') erased (Some trxs)
          end
      end
  end.

#[export] Instance feature_runner : BlockRunner fc := {
  chainbase := database;
  features := Manager.protocol_feature_manager;
  run_block := feature_run_block;
  popped_blocks_to := Manager.popped_blocks_to;
  block_trxs := trxs_of
}.

(** *** The laws *)

(** The database and the feature manager agree, with nothing activated after
    block [n]. *)
Definition agreed (n : Z) (d : database) (fm : Manager.protocol_feature_manager) : Prop :=
  0 <= n /\ Features.corrections_fine d /\ NoDup (Features.preactivated_protocol_features (Features.pso d))
  /\ Features.activated_protocol_features (Features.pso d) = Manager._activated_protocol_features fm
  /\ exists l, Manager.manager_ok fm l /\ Forall (fun a => Manager.act_block a <= n) l.

(** Transactions may pre-activate features, without duplicates, and activate
    none; the RAM corrections stay those of existing accounts. *)
Definition execute_keeps : Prop := forall light h b s d d' er tx,
  execute light h b s d = (Ok d', er, tx) -> NoDup (Features.preactivated_protocol_features (Features.pso d)) ->
  Features.corrections_fine d ->
  Features.corrections_fine d' /\ NoDup (Features.preactivated_protocol_features (Features.pso d'))
  /\ Features.activated_protocol_features (Features.pso d') = Features.activated_protocol_features (Features.pso d).

(** The same of the rest of start_block. *)
Definition rest_keeps : Prop := forall h b s d d',
  rest h b s d = (Ok tt, d') -> NoDup (Features.preactivated_protocol_features (Features.pso d)) ->
  NoDup (Features.preactivated_protocol_features (Features.pso d'))
  /\ Features.activated_protocol_features (Features.pso d') = Features.activated_protocol_features (Features.pso d).
Definition rest_fc : Prop := forall h b s, Features.throws_fc (rest h b s).
Definition rest_again : Prop := forall h b d d',
  rest h b Features.complete d = (Ok tt, d') -> rest h b Features.validated d = (Ok tt, d').

(** Executing a block as a validated one skips checks, so it succeeds when the
    checked execution does, with the same result. *)
Definition execute_again : Prop := forall light h b d d' er tx,
  execute light h b Features.complete d = (Ok d', er, tx) ->
  exists er' tx', execute light h b Features.validated d = (Ok d', er', tx').

(** The exceptions of transactions are fc::exceptions. *)
Definition execute_fc : Prop := forall light h b s d e er tx, execute light h b s d = (Throw e, er, tx) -> is_fc e = true.

Context (Hkeeps : execute_keeps) (Hfc : execute_fc) (Hagain : execute_again).
Context (Hrkeeps : rest_keeps) (Hrfc : rest_fc) (Hragain : rest_again).

(** The header of [b] was made from the state of [h] by block_header_state::next. *)
Definition made_from (h b : block_header_state) : Prop :=
  exists p, next_pending h (timestamp (bare_header (header b))) (confirmed (bare_header (header b))) = Ok p.

Section Run.
Context (h b : block_header_state) (s : Features.block_status) (d : database) (fm : Manager.protocol_feature_manager) (rev : Z).
Context (bb : Features.building_block).
Context (Hagree : agreed (num h) d fm) (Hnum : num b = num h + 1) (Hmax : num b <= max_block_num).
Context (Hbb : building_block_of h b = Ok bb).

Definition start_state : Features.chain_state (TL := TL) (TU := TU) (TC := TC) :=
  Features.mk_chain d fm None (num h) (BlockHeaderState.activated_protocol_features h) rev speculative.

Lemma building_num : Features.bb_block_num bb = num b /\ Features._new_protocol_feature_activations bb
  = get_new_protocol_feature_activations b.
Proof.
  revert Hbb. unfold building_block_of. destruct (next_pending h _ _) as [p|e] eqn:E; [|done]. cbn. intros [= <-].
  cbn. split; [|done]. apply next_pending_inv in E as (w & k & m & t & _ & _ & _ & _ & ->). unfold pending_of.
  destruct (confirm_loop _ _ _ _ _) as [cc np]. cbn. rewrite Hnum. unfold num, max_block_num, UINT32_MAX in *.
  destruct Hagree as [H0 _]. unfold u32. apply wrap_small. unfold is_uint, num in *. lia.
Qed.

Lemma start_features_ok l : Manager.manager_ok fm l -> Forall (fun a => Manager.act_block a <= num h) l ->
  Features.features_ok start_state l (Features.bb_block_num bb).
Proof.
  intros Hm Hl. destruct Hagree as (H0 & _ & H1 & H2 & _). destruct building_num as [-> _].
  constructor; cbn; try done. unfold Manager.not_active, max_block_num in *. lia.
Qed.

Lemma start_block_result st :
  Features.start_block string_hash (rest h b s) false bb s start_state = (Ok tt, st) ->
  agreed (num b) (Features.db st) (Features.protocol_features st)
  /\ Manager.popped_blocks_to (num h) (Features.protocol_features st) = (Ok tt, fm).
Proof.
  intros Hst. pose proof (Features.start_block_fine string_hash _ bb s start_state st (Hrfc h b s) (proj1 (proj2 Hagree)) Hst) as Hfine. revert Hst.
  destruct Hagree as (H0 & Hcf & H1 & H2 & l & Hm & Hl). pose proof (start_features_ok l Hm Hl) as Hok.
  pose proof building_num as [En Ea].
  unfold Features.start_block, bind at 1 2, get_state, lift. cbn [Features.pending start_state].
  rewrite bool_decide_true by done. cbn [eos_assert]. destruct (_ && _)%bool.
  { by destruct (Manager.popped_blocks_to _ _) as [[]]. }
  unfold bind, modify, ret. set (s1 := Features.set_pending _ start_state).
  assert (Features.features_ok s1 l (Features.bb_block_num bb)) as Hok1 by (by destruct Hok).
  destruct (_ || _)%bool.
  - destruct (Features.start_block_activations _ _ _ s1) as [[[]|e] s2] eqn:E;
      [|by destruct (Manager.popped_blocks_to _ _) as [[]]].
    unfold zoom. destruct (rest h b s (Features.db s2)) as [[[]|e] d2] eqn:Er;
      [|by destruct (Manager.popped_blocks_to _ _) as [[]]]. intros [= <-].
    pose proof (Features.start_block_activations_ok _ _ _ _ _ _ Hok1 E) as (Hall & _ & _ & _ & _ & Hlists).
    injection Hlists as Hl1 Hl2. destruct (Hrkeeps _ _ _ _ _ Er) as [Hr1 Hr2]; [rewrite Hl2; constructor|]. set (fs := _ <$> _) in Hall, Hl1.
    change (Features.protocol_features s1) with fm in Hall.
    assert (Forall (fun f => num h < Manager.pf_activation_block_num f < Manager.not_active) fs) as Hfs.
    { apply Forall_forall. intros f (x & -> & _)%list_elem_of_fmap. cbn. apply (Features.feat_next _ _ _ Hok). }
    pose proof (Manager.pop_after_activations fm l (num h) fs Hm Hl H0 Hfs) as Hpop. rewrite Hall in Hpop.
    split; [|done]. destruct (Manager.activate_all_run fm l fs (num h) Hm Hfs H0) as
      (o & m' & new & E' & Hm' & _ & Hin & _). rewrite Hall in E'. injection E' as <- <-.
    split_and!; [lia|done| | |].
    + exact Hr1.
    + cbn [Features.db Features.set_db Features.protocol_features]. rewrite Hr2, Hl1. rewrite (Features.activate_all_vector _ _ _ Hall). cbn. by rewrite H2.
    + exists (new ++ l). split; [done|]. apply Forall_app. split.
      * eapply Forall_impl; [exact Hin|]. intros a (f & (x & -> & _)%list_elem_of_fmap & ->). cbn. lia.
      * eapply Forall_impl; [exact Hl|]. cbn. lia.
  - intros [= <-]. cbn. split.
    + split_and!; [lia|done..|]. exists l. split; [done|]. eapply Forall_impl; [exact Hl|]. cbn. lia.
    + apply (Manager.pop_after_activations fm l (num h) []); [done..|constructor].
Qed.
End Run.

(** start_block treats a validated block as a checked one. *)
Lemma start_block_validated h b bb (st st1 : Features.chain_state (TL := TL) (TU := TU) (TC := TC)) :
  Features.start_block string_hash (rest h b Features.complete) false bb Features.complete st = (Ok tt, st1) ->
  exists st2, Features.start_block string_hash (rest h b Features.validated) false bb Features.validated st = (Ok tt, st2)
    /\ Features.db st2 = Features.db st1 /\ Features.protocol_features st2 = Features.protocol_features st1.
Proof.
  unfold Features.start_block, bind at 1 2 4 5, get_state, lift. destruct (eos_assert _ _) as [[]|e]; [|done].
  destruct (_ && _)%bool; [by destruct (Manager.popped_blocks_to _ _) as [[]]|].
  unfold bind, modify, ret. rewrite !orb_true_r.
  set (sc := Features.set_pending (Some (Features.mk_pending _ Features.complete)) st).
  set (sv := Features.set_pending _ st). change sv with (Features.set_pending (Features.pending sv) sc).
  destruct (Features.start_block_activations_pending string_hash (Features.bb_block_num bb)
    (Features._new_protocol_feature_activations bb) sc (Features.pending sv)) as [p' ->].
  destruct (Features.start_block_activations _ _ _ sc) as [[[]|e] s2]; cbn [fst snd];
    [|by destruct (Manager.popped_blocks_to _ _) as [[]]].
  unfold zoom. cbn [Features.db Features.set_pending].
  destruct (rest h b Features.complete (Features.db s2)) as [[[]|e] d2] eqn:Er;
    [|by destruct (Manager.popped_blocks_to _ _) as [[]]].
  intros [= <-]. rewrite (Hragain _ _ _ _ Er). eexists. split; [done|]. done.
Qed.

Lemma feature_completed light h b s d fm rev d' fm' er tx :
  agreed (num h) d fm -> num b = num h + 1 -> num b <= max_block_num ->
  feature_run_block light rev h b s d fm = Completed d' fm' er tx ->
  agreed (num b) d' fm' /\ Manager.popped_blocks_to (num h) fm' = (Ok tt, fm).
Proof.
  intros Ha Hn Hm. unfold feature_run_block, eos_assert. destruct (_ =? 0); cbn [res_bind];
    [|done].
  destruct (building_block_of h b) as [bb|e] eqn:Hbb; [|done].
  destruct (Features.start_block _ _ _ _ _ _) as [[[]|e] st] eqn:E; [|done].
  apply (start_block_result h b s d fm rev bb Ha Hn Hm Hbb) in E as [(H0 & Hcf & H1 & H2 & H3) Hpop].
  destruct (execute light h b s (Features.db st)) as [[[d1|e] er1] tx1] eqn:Ex; [|done]. intros [= <- <- <- <-].
  destruct (Hkeeps _ _ _ _ _ _ _ _ Ex H1 Hcf) as (Hcf' & Hnd & Hact). split; [|done]. split_and!; try done. by rewrite Hact.
Qed.

Lemma feature_failed light h b s d fm rev e fm' er tx :
  agreed (num h) d fm -> num b = num h + 1 -> num b <= max_block_num ->
  feature_run_block light rev h b s d fm = Failed e fm' er tx ->
  match tx with Some _ => Manager.popped_blocks_to (num h) fm' = (Ok tt, fm) | None => fm' = fm end.
Proof.
  intros Ha Hn Hm. unfold feature_run_block, eos_assert. destruct (_ =? 0); cbn [res_bind];
    [|by intros [= _ <- _ <-]].
  destruct (building_block_of h b) as [bb|e1] eqn:Hbb; [|by intros [= _ <- _ <-]].
  pose proof Ha as (_ & _ & _ & _ & l & Hman & Hl).
  destruct (Features.start_block _ _ _ _ _ _) as [[[]|e1] st] eqn:E.
  - apply (start_block_result h b s d fm rev bb Ha Hn Hm Hbb) in E as [_ Hpop].
    destruct (execute light h b s (Features.db st)) as [[[d1|e1] er1] tx1]; [done|]. by intros [= _ <- _ <-].
  - intros [= _ <- _ <-]. eapply Features.start_block_unwinds in E; [by rewrite E|].
    by apply (start_features_ok h b d fm rev bb Ha Hn Hm Hbb l).
Qed.

Lemma feature_fc light h b s d fm rev e fm' er tx :
  agreed (num h) d fm -> num b = num h + 1 -> num b <= max_block_num -> made_from h b ->
  feature_run_block light rev h b s d fm = Failed e fm' er tx -> is_fc e = true.
Proof.
  intros Ha Hn Hm [p Hp]. unfold feature_run_block, eos_assert. destruct (_ =? 0); cbn [res_bind];
    [|by intros [= <- _ _ _]].
  destruct (building_block_of h b) as [bb|e1] eqn:Hbb.
  2:{ unfold building_block_of in Hbb. by rewrite Hp in Hbb. }
  pose proof Ha as (_ & Hcf & _ & _ & l & Hman & Hl).
  destruct (Features.start_block _ _ _ _ _ _) as [[[]|e1] st] eqn:E.
  - destruct (execute light h b s (Features.db st)) as [[[d1|e1] er1] tx1] eqn:Ex; [done|]. intros [= <- _ _ _]. eauto.
  - intros [= <- _ _ _]. eapply (Features.start_block_fc string_hash _ _ l) in E; [done|apply Hrfc|..|done].
    by apply (start_features_ok h b d fm rev bb Ha Hn Hm Hbb l).
Qed.

Lemma feature_validated light h b d fm rev d' fm' er tx :
  feature_run_block light rev h b Features.complete d fm = Completed d' fm' er tx ->
  exists er' tx', feature_run_block light rev h b Features.validated d fm = Completed d' fm' er' tx'.
Proof.
  unfold feature_run_block, eos_assert. destruct (_ =? 0); cbn [res_bind];
    [|done].
  destruct (building_block_of h b) as [bb|e]; [|done].
  destruct (Features.start_block _ _ _ _ Features.complete _) as [[[]|e] st] eqn:E; [|done].
  destruct (start_block_validated _ _ _ _ _ E) as (st2 & -> & -> & ->).
  destruct (execute light h b Features.complete (Features.db st)) as [[[d1|e] er1] tx1] eqn:Ex; [|done].
  intros [= <- <- <- <-]. destruct (Hagain _ _ _ _ _ _ _ Ex) as (er2 & tx2 & ->). eauto.
Qed.

#[export] Instance feature_runner_laws : BlockRunnerLaws fc feature_runner := {
  state_ok := agreed;
  links := made_from;
  completed_ok := feature_completed;
  failed_ok := feature_failed;
  failed_fc := feature_fc;
  validated_ok light h b d fm rev d' fm' er tx _ _ _ := feature_validated light h b d fm rev d' fm' er tx
}.
End FeatureRunner.
