(* ===== verification/ForkSwitch.v ===== *)
(** How the controller follows the fork database: pop_block, apply_block,
    commit_block, abort_block, maybe_switch_forks, log_irreversible and
    push_block of libraries/chain/controller.cpp.

    Executing a block is left to the interface of BlockRunner.v, and the theorems
    here are proved against its laws.  The chainbase database is its contents
    and its undo stack, newest state first; a pending block is an open undo
    session.  A block is known by its header state.  Signals to plugins are not
    modelled. *)

From Stdlib Require Import ZArith Lia.
From stdpp Require Import base gmap strings numbers sorting list.
From S2P Require Import Prelude Chainbase Merkle BlockHeader BlockHeaderState ForkDatabase ProtocolFeatures FeatureActivation BlockRunner.

Local Open Scope Z_scope.

(** ** The controller *)

Inductive db_read_mode : Set := SPECULATIVE | HEAD | READ_ONLY | IRREVERSIBLE.

#[export] Instance db_read_mode_eq_dec : EqDecision db_read_mode.
Proof. solve_decision. Defined.

Section Controller.
Context {fc : Fc} {runner : BlockRunner fc}.

(** block_log: its blocks, newest first. *)
Record block_log := mk_log { first_block_num : Z; log_blocks : list block_header_state }.

Record controller := mk_controller {
  db : chainbase;
  undo_stack : list chainbase;
  revision : Z;
  reversible_blocks : gmap Z digest_type;
  blog : block_log;
  pending : option (list digest_type);
  c_head : block_header_state;
  fork_db : fork_database;
  protocol_features : features;
  unapplied_transactions : gset digest_type;
  read_mode : db_read_mode;
  replaying : bool;  (* replay_head_time is set *)
  trusted_producers : gset Z;  (* of the configuration *)
  trusted_producer_light_validation : bool
}.

(** *** Setters *)

(** The database, its undo stack and revision. *)
Definition set_chainbase (d : chainbase) (u : list chainbase) (rev : Z) (c : controller) : controller :=
  mk_controller d u rev (reversible_blocks c) (blog c) (pending c) (c_head c) (fork_db c) (protocol_features c)
    (unapplied_transactions c) (read_mode c) (replaying c) (trusted_producers c) (trusted_producer_light_validation c).
Definition set_reversible (r : gmap Z digest_type) (c : controller) : controller :=
  mk_controller (db c) (undo_stack c) (revision c) r (blog c) (pending c) (c_head c) (fork_db c) (protocol_features c)
    (unapplied_transactions c) (read_mode c) (replaying c) (trusted_producers c) (trusted_producer_light_validation c).
Definition set_blog (l : block_log) (c : controller) : controller :=
  mk_controller (db c) (undo_stack c) (revision c) (reversible_blocks c) l (pending c) (c_head c) (fork_db c)
    (protocol_features c) (unapplied_transactions c) (read_mode c) (replaying c) (trusted_producers c) (trusted_producer_light_validation c).
Definition set_pending (p : option (list digest_type)) (c : controller) : controller :=
  mk_controller (db c) (undo_stack c) (revision c) (reversible_blocks c) (blog c) p (c_head c) (fork_db c)
    (protocol_features c) (unapplied_transactions c) (read_mode c) (replaying c) (trusted_producers c) (trusted_producer_light_validation c).
Definition set_head (h : block_header_state) (c : controller) : controller :=
  mk_controller (db c) (undo_stack c) (revision c) (reversible_blocks c) (blog c) (pending c) h (fork_db c)
    (protocol_features c) (unapplied_transactions c) (read_mode c) (replaying c) (trusted_producers c) (trusted_producer_light_validation c).
Definition set_fork_db (f : fork_database) (c : controller) : controller :=
  mk_controller (db c) (undo_stack c) (revision c) (reversible_blocks c) (blog c) (pending c) (c_head c) f
    (protocol_features c) (unapplied_transactions c) (read_mode c) (replaying c) (trusted_producers c) (trusted_producer_light_validation c).
Definition set_features (m : features) (c : controller) : controller :=
  mk_controller (db c) (undo_stack c) (revision c) (reversible_blocks c) (blog c) (pending c) (c_head c) (fork_db c)
    m (unapplied_transactions c) (read_mode c) (replaying c) (trusted_producers c) (trusted_producer_light_validation c).
Definition set_unapplied (u : gset digest_type) (c : controller) : controller :=
  mk_controller (db c) (undo_stack c) (revision c) (reversible_blocks c) (blog c) (pending c) (c_head c) (fork_db c)
    (protocol_features c) u (read_mode c) (replaying c) (trusted_producers c) (trusted_producer_light_validation c).
Definition set_light_validation (v : bool) (c : controller) : controller :=
  mk_controller (db c) (undo_stack c) (revision c) (reversible_blocks c) (blog c) (pending c) (c_head c) (fork_db c)
    (protocol_features c) (unapplied_transactions c) (read_mode c) (replaying c) (trusted_producers c) v.

(** *** chainbase *)

(** start_undo_session *)
Definition start_undo_session (c : controller) : controller :=
  set_chainbase (db c) (db c :: undo_stack c) (revision c + 1) c.

(** undo, also of an open session: nothing when the stack is empty. *)
Definition undo (c : controller) : controller :=
  match undo_stack c with
  | [] => c
  | d :: u => set_chainbase d u (revision c - 1) c
  end.

(** commit( rev ): the states at and below [rev] can no longer be undone. *)
Definition commit (rev : Z) (c : controller) : controller :=
  set_chainbase (db c) (take (Z.to_nat (revision c - rev)) (undo_stack c)) (revision c) c.

(** ** Operations *)

Definition unapply (trxs : list digest_type) (c : controller) : controller :=
  match read_mode c with
  | SPECULATIVE => set_unapplied (unapplied_transactions c ∪ list_to_set trxs) c
  | _ => c
  end.

Definition pop_features (n : Z) : exec controller unit :=
  zoom protocol_features set_features (popped_blocks_to n).

(** The block of the head is null only for the root of a snapshot, which is
    never popped. *)
Definition pop_block : exec controller unit :=
  do c <- get_state;
  let prev_id := previous (bare_header (header (c_head c))) in
  do prev <- lift (match get_block (fork_db c) prev_id with
                   | Some p => Ok p
                   | None =>
                       match root (fork_db c) with
                       | None => Throw undefined_behavior
                       | Some r => assert! (bool_decide (b_id r = prev_id)) else block_validate_exception in Ok r
                       end
                   end);
  do _ <- modify (fun c => set_reversible (delete (num (c_head c)) (reversible_blocks c)) c);
  do _ <- modify (fun c => unapply (block_trxs (c_head c)) c);
  do _ <- modify (set_head (bsh prev));
  do _ <- modify undo;
  pop_features (b_num prev).

Definition abort_block : exec controller unit :=
  do c <- get_state;
  match pending c with
  | None => ret tt
  | Some trxs =>
      do _ <- modify (unapply trxs);
      do _ <- modify (fun c => set_pending None (undo c));
      pop_features (num (c_head c))
  end.

(** The handler [catch( E ) { abort_block(); throw; }] *)
Definition abort_on (catches : exn -> bool) {A} (m : exec controller A) : exec controller A :=
  fun c => match m c with
           | (Ok a, c') => (Ok a, c')
           | (Throw e, c') => if catches e then bind abort_block (fun _ => lift (Throw e)) c' else (Throw e, c')
           end.

(** block_log::append: its position is the block's number. *)
Definition append (b : block_header_state) : exec controller unit :=
  do c <- get_state;
  check (Z.of_nat (length (log_blocks (blog c))) =? num b - first_block_num (blog c)) else block_log_append_fail;
  modify (set_blog (mk_log (first_block_num (blog c)) (b :: log_blocks (blog c)))).

(** reversible_blocks.create *)
Definition create_reversible (b : block_header_state) : exec controller unit :=
  do c <- get_state;
  check (bool_decide (reversible_blocks c !! num b = None)) else database_duplicate_key;
  modify (set_reversible (<[num b := bhs_id b]> (reversible_blocks c))).

Definition in_fork_db {A} (m : exec fork_database A) : exec controller A := zoom fork_db set_fork_db m.

(** apply_block up to the completed block: start_block opens the session, and
    gives it up when it throws. *)
Definition run_pending (b : block_header_state) (s : Features.block_status) : exec controller unit :=
  do c <- get_state;
  check (bool_decide (pending c = None)) else block_validate_exception;
  match run_block (trusted_producer_light_validation c) (revision c) (c_head c) b s (db c) (protocol_features c) with
  | Completed d fm erased trxs =>
      put_state (set_chainbase d (db c :: undo_stack c) (revision c + 1)
        (set_pending (Some trxs) (set_features fm (set_unapplied (unapplied_transactions c ∖ erased) c))))
  | Failed e fm erased trxs =>
      let c' := set_pending trxs (set_features fm (set_unapplied (unapplied_transactions c ∖ erased) c)) in
      do _ <- put_state (match trxs with Some _ => start_undo_session c' | None => c' end);
      lift (Throw e)
  end.

(** commit_block on the completed block [bsp], with log_irreversible as a
    parameter because in irreversible mode that applies blocks itself. *)
Definition commit_block_with (log_irreversible : exec controller unit) (add_to_fork_db : bool) (bsp : block_state)
    : exec controller unit :=
  do _ <- abort_on (fun _ => true)
    (do c <- get_state;
     do _ <- (if add_to_fork_db then
                do _ <- in_fork_db (add (Some bsp) false);
                do _ <- in_fork_db (mark_valid bsp);
                do c <- get_state;
                match head (fork_db c) with
                | None => lift (Throw undefined_behavior)
                | Some h =>
                    do _ <- modify (set_head (bsh h));
                    check (bool_decide (b_id h = b_id bsp)) else fork_database_exception;
                    ret tt
                end
              else ret tt);
     do _ <- (if negb (replaying c) && negb (bool_decide (read_mode c = IRREVERSIBLE)) then create_reversible (bsh bsp)
              else ret tt);
     if add_to_fork_db then log_irreversible else ret tt);
  modify (set_pending None).

(** apply_block: the block becomes the newest undo state; the callers move the
    head. *)
Definition apply_block (b : block_state) (s : Features.block_status) : exec controller unit :=
  capture_and_rethrow (abort_on is_fc (do _ <- run_pending (bsh b) s; commit_block_with (ret tt) false b)).

Definition remove_reversible_to (n : Z) (c : controller) : controller :=
  set_reversible (filter (fun row => n < fst row) (reversible_blocks c)) c.

(** One turn of log_irreversible's loop. *)
Definition log_block (b : block_state) : exec controller unit :=
  do c <- get_state;
  do _ <- (if bool_decide (read_mode c = IRREVERSIBLE) then
             do _ <- apply_block b Features.complete;
             do _ <- modify (set_head (bsh b));
             in_fork_db (mark_valid b)
           else ret tt);
  modify (commit (b_num b)).

(** The loop, oldest block first, with [root_id] the last block committed: an
    exception keeps it. *)
Fixpoint log_loop (bs : list block_state) (root_id : digest_type) (c : controller)
    : res unit * digest_type * controller :=
  match bs with
  | [] => (Ok tt, root_id, c)
  | b :: bs' =>
      match log_block b c with
      | (Throw e, c') => (Throw e, root_id, c')
      | (Ok _, c') =>
          match append (bsh b) c' with
          | (Throw e, c') => (Throw e, b_id b, c')
          | (Ok _, c') => log_loop bs' (b_id b) (remove_reversible_to (b_num b) c')
          end
      end
  end.

Definition advance_root_to (root_id : digest_type) : exec controller unit :=
  do c <- get_state;
  match root (fork_db c) with
  | None => lift (Throw undefined_behavior)
  | Some r => if bool_decide (root_id = b_id r) then ret tt else in_fork_db (advance_root root_id)
  end.

Definition log_irreversible : exec controller unit :=
  do c <- get_state;
  match root (fork_db c) with
  | None => lift (Throw fork_database_exception)
  | Some r =>
      let log_head := hd_error (log_blocks (blog c)) in
      let lib_num := match log_head with Some h => num h | None => u32 (first_block_num (blog c) - 1) end in
      check (match log_head with
             | Some h => bool_decide (b_id r = bhs_id h)
             | None => b_num r =? lib_num
             end) else fork_database_exception;
      do fork_head <- lift (match read_mode c with
                            | IRREVERSIBLE => pending_head (fork_db c)
                            | _ => Ok (head (fork_db c))
                            end);
      match fork_head with
      | None => lift (Throw undefined_behavior)
      | Some fork_head =>
          if b_lib fork_head <=? lib_num then ret tt
          else
            do branch <- lift (fetch_branch (fork_db c) (b_id fork_head) (b_lib fork_head));
            fun c => match log_loop (reverse branch) (b_id r) c with
                     | (Ok _, root_id, c') => advance_root_to root_id c'
                     | (Throw e, root_id, c') =>
                         if is_fc e then bind (advance_root_to root_id) (fun _ => lift (Throw e)) c' else (Throw e, c')
                     end
      end
  end.

Definition commit_block : bool -> block_state -> exec controller unit := commit_block_with log_irreversible.

Fixpoint pop_blocks (n : nat) : exec controller unit :=
  match n with
  | O => ret tt
  | S n' => do _ <- pop_block; pop_blocks n'
  end.

(** self.head_block_id() == branches.second.back()->header.previous; back() of
    an empty vector is undefined. *)
Definition check_fork_point (second : list block_state) : exec controller unit :=
  do c <- get_state;
  match last second with
  | None => lift (Throw undefined_behavior)
  | Some b => check (bool_decide (bhs_id (c_head c) = b_prev b)) else fork_database_exception; ret tt
  end.

(** Going back to the old branch after the block [bad] threw, [applied] blocks
    of the new branch having been applied before it. *)
Definition reverse_switch (second : list block_state) (bad : block_state) (applied : nat) : exec controller unit :=
  do _ <- in_fork_db (remove (b_id bad));
  do _ <- pop_blocks applied;
  do _ <- check_fork_point second;
  for_each (reverse second) (fun b =>
    do _ <- apply_block b Features.validated;
    modify (set_head (bsh b))).

(** The loop over the new branch, oldest block first. *)
Fixpoint apply_branch (second todo : list block_state) (applied : nat) : exec controller unit :=
  match todo with
  | [] => ret tt
  | b :: todo' => fun c =>
      match (do _ <- apply_block b (if validated b then Features.validated else Features.complete);
             do _ <- in_fork_db (mark_valid b);
             modify (set_head (bsh b))) c with
      | (Ok _, c') => apply_branch second todo' (S applied) c'
      | (Throw e, c') =>
          if is_fc e then bind (reverse_switch second b applied) (fun _ => lift (Throw e)) c' else (Throw e, c')
      end
  end.

(** The step to a block on top of the head. *)
Definition extend_head (new_head : block_state) (s : Features.block_status) : exec controller unit :=
  fun c =>
    match (do _ <- apply_block new_head s;
           do _ <- in_fork_db (mark_valid new_head);
           modify (set_head (bsh new_head))) c with
    | (Ok _, c') => (Ok tt, c')
    | (Throw e, c') =>
        if is_fc e then bind (in_fork_db (remove (b_id new_head))) (fun _ => lift (Throw e)) c' else (Throw e, c')
    end.

Definition switch_branch (new_head : block_state) : exec controller unit :=
  do c <- get_state;
  do branches <- lift (fetch_branch_from (fork_db c) (b_id new_head) (bhs_id (c_head c)));
  let '(first, second) := branches in
  do _ <- match second with
          | [] => ret tt
          | _ => do _ <- pop_blocks (length second); check_fork_point second
          end;
  apply_branch second (reverse first) 0.

Definition maybe_switch_forks (new_head : block_state) (s : Features.block_status) : exec controller unit :=
  do c <- get_state;
  if bool_decide (b_prev new_head = bhs_id (c_head c)) then
    do _ <- extend_head new_head s; log_irreversible
  else if bool_decide (b_id new_head <> bhs_id (c_head c)) then
    do _ <- switch_branch new_head; log_irreversible
  else ret tt.

(** reset_prod_light_validation: the flag is set back however [m] ends. *)
Definition reset_light_validation (old_value : bool) {A} (m : exec controller A) : exec controller A :=
  fun c => let '(o, c') := m c in (o, set_light_validation old_value c').

(** push_block on the block state the future delivers. *)
Definition push_block (future : res block_state) : exec controller unit :=
  do c <- get_state;
  check (bool_decide (pending c = None)) else block_validate_exception;
  reset_light_validation (trusted_producer_light_validation c) (capture_and_rethrow (
    do bsp <- lift future;
    do _ <- in_fork_db (add (Some bsp) false);
    do _ <- (if bool_decide (producer (bare_header (header (bsh bsp))) ∈ trusted_producers c)
             then modify (set_light_validation true) else ret tt);
    if bool_decide (read_mode c = IRREVERSIBLE) then log_irreversible
    else
      do c <- get_state;
      do new_head <- lift (pending_head (fork_db c));
      match new_head with
      | None => lift (Throw undefined_behavior)
      | Some new_head => maybe_switch_forks new_head Features.complete
      end)).
End Controller.

(** ** The chain as a replay from the root *)

Section Position.
Context {fc : Fc} {runner : BlockRunner fc} {laws : BlockRunnerLaws fc runner}.
(** The root of the fork database, and the state the root block left. *)
Context (r : block_header_state) (d0 : chainbase) (fm0 : features).

Definition tip (l : list block_header_state) : block_header_state := match l with [] => r | b :: _ => b end.

(** Executing the blocks of [l], newest first in the list, with every check:
    the database and features reached, and the states before each block. *)
Fixpoint replay (l : list block_header_state) : option (chainbase * features * list chainbase) :=
  match l with
  | [] => Some (d0, fm0, [])
  | b :: l' =>
      match replay l' with
      | Some (d, fm, u) =>
          match run_block false (num (tip l')) (tip l') b Features.complete d fm with
          | Completed d' fm' _ _ => Some (d', fm', d :: u)
          | Failed _ _ _ _ => None
          end
      | None => None
      end
  end.

(** Each block follows the next one of the list. *)
Fixpoint chained (l : list block_header_state) : Prop :=
  match l with
  | [] => True
  | b :: l' =>
      num b = num (tip l') + 1 /\ num b <= max_block_num
      /\ previous (bare_header (header b)) = bhs_id (tip l') /\ chained l'
  end.

(** The rows reversible_blocks holds for the branch. *)
Definition rows (l : list block_header_state) : gmap Z digest_type :=
  list_to_map ((fun b => (num b, bhs_id b)) <$> l).

(** The controller stands at the end of [l]: its head, database, undo stack,
    revision, features and reversible blocks are those of the branch.  It is not
    replaying, does not run in irreversible mode and trusts no producer. *)
Record positioned (c : controller) (l : list block_header_state) (rest : list chainbase) : Prop := {
  pos_head : c_head c = tip l;
  pos_state : exists u, replay l = Some (db c, protocol_features c, u) /\ undo_stack c = u ++ rest;
  pos_revision : revision c = num (tip l);
  pos_rows : reversible_blocks c = rows l;
  pos_pending : pending c = None;
  pos_mode : replaying c = false /\ read_mode c <> IRREVERSIBLE
    /\ trusted_producers c = ∅ /\ trusted_producer_light_validation c = false
}.

(** The configuration of the node. *)
Definition same_mode (c c' : controller) : Prop :=
  read_mode c' = read_mode c /\ replaying c' = replaying c /\ trusted_producers c' = trusted_producers c
  /\ trusted_producer_light_validation c' = trusted_producer_light_validation c.

(** The parts that moving along a branch does not touch. *)
Definition keeps (c c' : controller) : Prop := fork_db c' = fork_db c /\ blog c' = blog c /\ same_mode c c'.

(** The fork database knows the root and the blocks of [l]. *)
Definition known (f : fork_database) (l : list block_header_state) : Prop :=
  index f !! bhs_id r = None /\ (exists rb, root f = Some rb /\ bsh rb = r)
  /\ forall b, b ∈ l -> exists p, index f !! bhs_id b = Some p /\ bsh p = b.

Context (base_ok : state_ok (num r) d0 fm0).

Lemma replay_ok l d fm u : chained l -> replay l = Some (d, fm, u) -> state_ok (num (tip l)) d fm.
Proof.
  revert d fm u. induction l as [|b l IH]; intros d fm u; cbn [chained replay].
  - by intros _ [= <- <- <-].
  - intros (Hn & Hm & _ & Hc). destruct (replay l) as [[[d1 fm1] u1]|]; [|done].
    destruct (run_block _ _ _ _ _ _ _) as [d' fm' er tx|] eqn:E; [|done]. intros [= <- <- <-].
    eapply completed_ok in E as [? _]; eauto.
Qed.

Lemma chained_num l b : chained l -> b ∈ l -> num b <= num (tip l).
Proof.
  revert b. induction l as [|a l IH]; intros b; cbn [chained].
  - by intros _ ?%elem_of_nil.
  - intros (Hn & _ & _ & Hc) [->|Hb]%elem_of_cons; cbn [tip]; [lia|]. specialize (IH b Hc Hb). lia.
Qed.

Lemma rows_None l n : Forall (fun b => num b <> n) l -> rows l !! n = None.
Proof.
  intros Hall. apply not_elem_of_list_to_map_1. rewrite <- list_fmap_compose.
  intros (b & E & Hb)%list_elem_of_fmap. rewrite Forall_forall in Hall. by apply (Hall b).
Qed.

Lemma rows_fresh b l : chained (b :: l) -> rows l !! num b = None.
Proof.
  intros (Hn & _ & _ & Hc). apply rows_None, Forall_forall. intros a Ha.
  pose proof (chained_num _ _ Hc Ha). lia.
Qed.

(** *** apply_block *)

Lemma controller_eq (c c' : controller) :
  db c = db c' -> undo_stack c = undo_stack c' -> revision c = revision c' ->
  reversible_blocks c = reversible_blocks c' -> blog c = blog c' -> pending c = pending c' ->
  c_head c = c_head c' -> fork_db c = fork_db c' -> protocol_features c = protocol_features c' ->
  unapplied_transactions c = unapplied_transactions c' -> read_mode c = read_mode c' -> replaying c = replaying c' ->
  trusted_producers c = trusted_producers c' ->
  trusted_producer_light_validation c = trusted_producer_light_validation c' -> c = c'.
Proof. destruct c, c'; cbn. by intros <- <- <- <- <- <- <- <- <- <- <- <- <- <-. Qed.

Section Apply.
Context (c : controller) (b : block_state) (l : list block_header_state) (rest : list chainbase).
Context (Hp : positioned c l rest) (Hc : chained (bsh b :: l)).

Lemma positioned_ok : state_ok (num (tip l)) (db c) (protocol_features c).
Proof. destruct (pos_state _ _ _ Hp) as (u & Hr & _). destruct Hc as (_ & _ & _ & Hl). by eapply replay_ok. Qed.

Lemma apply_block_ok s : is_Some (replay (bsh b :: l)) -> s = Features.complete \/ s = Features.validated ->
  exists c', apply_block b s c = (Ok tt, c') /\ positioned (set_head (bsh b) c') (bsh b :: l) rest /\ keeps c c'.
Proof.
  intros [[[d fm] u'] Hrun] Hs. pose proof positioned_ok as Hok. pose proof (rows_fresh _ _ Hc) as Hfresh.
  destruct Hp as [Hh (u & Hr & Hu) Hrev Hrows Hpend (Hrep & Hmode & Htp & Hlight)]. cbn [chained] in Hc. destruct Hc as (Hn & Hm & Hprev & Hl).
  cbn [replay] in Hrun. rewrite Hr in Hrun.
  destruct (run_block _ _ _ _ _ _ _) as [d' fm' er tx|] eqn:E; [|done]. injection Hrun as -> -> <-.
  assert (exists er tx, run_block (trusted_producer_light_validation c) (revision c) (c_head c) (bsh b) s (db c) (protocol_features c) = Completed d fm er tx)
    as (er' & tx' & E').
  { rewrite Hrev, Hh, Hlight. destruct Hs as [-> | ->]; [eauto|]. eapply validated_ok; eauto. }
  unfold apply_block, capture_and_rethrow, abort_on at 1, run_pending, commit_block_with, abort_on, create_reversible, bind, get_state, lift,
    put_state, modify, ret.
  rewrite Hpend, bool_decide_true by done. cbn -[run_block]. rewrite E'. cbn. rewrite Hrep, bool_decide_false by done.
  cbn. rewrite Hrows, Hfresh. cbn. eexists. split; [done|]. split; [|done].
  constructor; cbn; [done| |lia|done|done|done].
  exists (db c :: u). rewrite Hr, E. by rewrite Hu.
Qed.

Lemma apply_block_fails s e fm er tx :
  run_block false (num (tip l)) (tip l) (bsh b) s (db c) (protocol_features c) = Failed e fm er tx -> is_fc e = true ->
  exists u, apply_block b s c = (Throw e, set_unapplied u c).
Proof.
  intros E He. pose proof positioned_ok as Hok.
  destruct Hp as [Hh _ Hrev Hrows Hpend (Hrep & Hmode & Htp & Hlight)]. cbn [chained] in Hc. destruct Hc as (Hn & Hm & Hprev & Hl).
  pose proof E as Hf. eapply failed_ok in Hf; [|eauto..].
  unfold apply_block, capture_and_rethrow, abort_on, run_pending, bind, get_state, lift, put_state.
  rewrite Hpend, bool_decide_true by done. cbn -[run_block abort_block]. rewrite Hrev, Hh, Hlight, E.
  cbn -[abort_block fc_rethrow]. rewrite He. destruct tx as [tx|].
  - exists (match read_mode c with
            | SPECULATIVE => unapplied_transactions c ∖ er ∪ list_to_set tx
            | _ => unapplied_transactions c ∖ er
            end).
    unfold abort_block, bind, get_state, modify, pop_features, zoom, lift, unapply. cbn -[fc_rethrow].
    destruct (read_mode c) eqn:Em; cbn -[fc_rethrow]; rewrite Hh, Hf, (fc_rethrow_fc _ He), Z.add_simpl_r; f_equal;
      apply controller_eq; cbn; done.
  - subst fm. exists (unapplied_transactions c ∖ er). unfold abort_block, bind, get_state, lift. cbn -[fc_rethrow].
    rewrite (fc_rethrow_fc _ He). f_equal. apply controller_eq; cbn; done.
Qed.
End Apply.

Lemma positioned_unapplied c l rest u : positioned c l rest -> positioned (set_unapplied u c) l rest.
Proof. by intros []. Qed.

Lemma positioned_fork_db c l rest f : positioned c l rest -> positioned (set_fork_db f c) l rest.
Proof. by intros []. Qed.

(** *** pop_block *)

Lemma pop_block_ok c b l rest :
  positioned c (b :: l) rest -> chained (b :: l) -> known (fork_db c) l ->
  exists c', pop_block c = (Ok tt, c') /\ positioned c' l rest /\ keeps c c'.
Proof.
  intros [Hh (u & Hr & Hu) Hrev Hrows Hpend Hmode] Hc (Hnone & (rb & Hroot & Hrb) & Hknown).
  pose proof (rows_fresh _ _ Hc) as Hfresh. pose proof Hc as (Hn & Hm & Hprev & Hl).
  cbn [replay] in Hr. destruct (replay l) as [[[d fm] u1]|] eqn:Er; [|done].
  destruct (run_block _ _ _ _ _ _ _) as [d' fm' er tx|] eqn:E; [|done]. injection Hr as -> -> <-.
  pose proof (completed_ok _ _ _ _ _ _ _ _ _ _ _ (replay_ok _ _ _ _ Hl Er) Hn Hm E) as [_ Hpop].
  assert (exists p, (match get_block (fork_db c) (bhs_id (tip l)) with
      | Some p => Ok p
      | None => match root (fork_db c) with
                | None => Throw undefined_behavior
                | Some r => assert! (bool_decide (b_id r = bhs_id (tip l))) else block_validate_exception in Ok r
                end
      end) = Ok p /\ bsh p = tip l) as (p & Ep & Hpt).
  { unfold get_block. destruct l as [|a l]; cbn [tip].
    - rewrite Hnone, Hroot. exists rb. rewrite bool_decide_true by (unfold b_id; congruence). done.
    - destruct (Hknown a) as (p & Hp & Ha); [left|]. exists p. by rewrite Hp. }
  unfold pop_block, bind at 1, get_state. cbn [tip] in Hh. rewrite Hh, Hprev. unfold bind at 1, lift. rewrite Ep.
  unfold bind, modify, pop_features, zoom.
  assert (b_num p = num (tip l)) as Hpn by (unfold b_num; by rewrite Hpt).
  set (c1 := undo _). assert (c1 = set_chainbase d (u1 ++ rest) (num (tip l))
    (set_head (tip l) (set_reversible (rows l) (set_unapplied (unapplied_transactions c1) c)))) as E1.
  { subst c1. unfold undo, unapply. cbn. destruct (read_mode c) eqn:Em; cbn; rewrite Hu; cbn;
      apply controller_eq; cbn; try done; try (by rewrite Hh, Hrows; apply delete_insert_id);
      cbn in Hrev; lia. }
  clearbody c1. rewrite E1. cbn. rewrite Hpn, Hpop. eexists. split; [done|]. split; [|done].
  constructor; cbn; eauto.
Qed.

#[local] Instance same_mode_preorder : PreOrder same_mode.
Proof.
  split; [by intros c|]. intros c1 c2 c3 (H1 & H2 & H3 & H4) (G1 & G2 & G3 & G4). unfold same_mode. split_and!; congruence.
Qed.

#[local] Instance keeps_preorder : PreOrder keeps.
Proof.
  split; [by intros c|]. intros c1 c2 c3 (H1 & H2 & H3) (G1 & G2 & G3). split_and!; [congruence..|by etrans].
Qed.

Lemma known_app f l1 l : known f (l1 ++ l) -> known f l.
Proof. intros (H1 & H2 & H3). split; [done|]. split; [done|]. intros b Hb. apply H3, elem_of_app. by right. Qed.

Lemma chained_app l1 l : chained (l1 ++ l) -> chained l.
Proof. induction l1 as [|b l1 IH]; [done|]. intros (_ & _ & _ & Hc). by apply IH. Qed.

Lemma replay_app_is_Some l1 l : is_Some (replay (l1 ++ l)) -> is_Some (replay l).
Proof.
  induction l1 as [|b l1 IH]; [done|]. cbn [app replay]. destruct (replay (l1 ++ l)) as [[[d fm] u]|]; [eauto|].
  by intros [? ?].
Qed.

Lemma pop_blocks_ok l1 l rest : forall c,
  positioned c (l1 ++ l) rest -> chained (l1 ++ l) -> known (fork_db c) (l1 ++ l) ->
  exists c', pop_blocks (length l1) c = (Ok tt, c') /\ positioned c' l rest /\ keeps c c'.
Proof.
  induction l1 as [|b l1 IH]; intros c Hp Hc Hk; cbn [length pop_blocks].
  - by exists c.
  - destruct (pop_block_ok c b (l1 ++ l) rest) as (c1 & E & Hp1 & Hk1); [done|done|by apply (known_app _ [b])|].
    unfold bind. rewrite E.
    destruct (IH c1) as (c2 & E2 & Hp2 & Hk2);
      [done|apply Hc|destruct Hk1 as (-> & _); by apply (known_app _ [b])|].
    exists c2. split; [done|]. split; [done|]. by etrans.
Qed.

(** Applying the blocks of [l2] again. *)
Lemma reapply_ok (l2 : list block_state) l rest : forall c,
  positioned c l rest -> chained ((bsh <$> l2) ++ l) -> is_Some (replay ((bsh <$> l2) ++ l)) ->
  exists c', for_each (reverse l2) (fun b => do _ <- apply_block b Features.validated; modify (set_head (bsh b))) c
      = (Ok tt, c')
    /\ positioned c' ((bsh <$> l2) ++ l) rest /\ keeps c c'.
Proof.
  induction l2 as [|b l2 IH]; intros c Hp Hc Hs; [by exists c|].
  rewrite fmap_cons in Hc, Hs |- *. cbn [app] in Hc, Hs |- *.
  destruct (IH c Hp) as (c1 & E1 & Hp1 & Hk1); [apply Hc|by apply (replay_app_is_Some [bsh b])|].
  destruct (apply_block_ok c1 b _ rest Hp1 Hc Features.validated Hs (or_intror eq_refl)) as (c2 & E2 & Hp2 & Hk2).
  exists (set_head (bsh b) c2). rewrite reverse_cons, for_each_app. unfold bind at 1. rewrite E1.
  cbn [for_each]. unfold bind, modify. rewrite E2. split; [done|]. split; [done|]. by etrans.
Qed.

(** *** The fork database of a chain *)

(** Every header the fork database holds is in [U]. *)
Definition covered (U : block_header_state -> Prop) (f : fork_database) : Prop :=
  (forall k b, index f !! k = Some b -> U (bsh b)) /\ forall rb, root f = Some rb -> U (bsh rb).

(** A block's id and its predecessor's carry their numbers. *)
Definition id_ok (b : block_state) : Prop :=
  num_from_id (b_id b) = b_num b /\ num_from_id (b_prev b) = b_num b - 1.

Lemma id_ok_bsh x y : bsh x = bsh y -> id_ok x -> id_ok y.
Proof. intros E. apply bsh_eq in E as (E1 & E2 & E3). unfold id_ok. by rewrite E1, E2, E3. Qed.

(** On top of the database's own invariant: the blocks marked valid are those of
    branches that replay. *)
Record forks_ok (f : fork_database) (rb h : block_state) : Prop := {
  fo_root : root f = Some rb;
  fo_bsh : bsh rb = r;
  fo_head : head f = Some h;
  fo_tree : tree (index f) rb;
  fo_head_ok : head_ok (index f) rb h;
  fo_flag : validated h = true;
  fo_root_id : id_ok rb;
  fo_root_flag : validated rb = true;
  fo_ids : forall k b, index f !! k = Some b -> id_ok b;
  fo_nums : forall k b, index f !! k = Some b -> b_num b <= max_block_num;
  fo_links : forall k b p, index f !! k = Some b -> node_at (index f) rb (b_prev b) p -> links (bsh p) (bsh b);
  fo_valid : forall k b, index f !! k = Some b -> validated b = true ->
    exists l, branch (index f) rb k l /\ Forall (fun b => validated b = true) l /\ is_Some (replay (bsh <$> l))
}.

Lemma branch_chained f rb h k l : forks_ok f rb h -> branch (index f) rb k l ->
  chained (bsh <$> l) /\ bhs_id (tip (bsh <$> l)) = k /\ known f (bsh <$> l).
Proof.
  intros Hf Hb. pose proof (fo_tree _ _ _ Hf) as Ht. split_and!.
  - induction Hb as [|k b l Hk Hb IH]; [done|]. rewrite fmap_cons. cbn [chained].
    pose proof (fo_nums _ _ _ Hf _ _ Hk) as Hm.
    apply branch_inv in Hb as [[Ep ->]|(p & l' & -> & Hp & _)]; split_and!; try done.
    + destruct (tr_linked _ _ Ht _ _ Hk) as [[_ En]|[q Hq]].
      * rewrite fmap_nil. cbn [tip]. unfold b_num in En. unfold num. rewrite <- (fo_bsh _ _ _ Hf). done.
      * rewrite Ep, (tr_root _ _ Ht) in Hq. done.
    + rewrite fmap_nil. cbn [tip]. rewrite <- (fo_bsh _ _ _ Hf). done.
    + apply (tr_ranked _ _ Ht _ _ _ Hk Hp).
    + rewrite fmap_cons. cbn [tip]. symmetry. apply (tr_keyed _ _ Ht _ _ Hp).
  - destruct Hb as [|k' b l' Hk _]; [rewrite fmap_nil; cbn; by rewrite <- (fo_bsh _ _ _ Hf)|].
    rewrite fmap_cons. cbn. apply (tr_keyed _ _ Ht _ _ Hk).
  - split; [|split].
    + rewrite <- (fo_bsh _ _ _ Hf). apply (tr_root _ _ Ht).
    + exists rb. split; apply Hf.
    + intros b (x & -> & Hx)%list_elem_of_fmap. exists x. split; [|done]. by apply (branch_elem _ _ Ht _ _ _ Hb).
Qed.

(** [i'] has the blocks of [i], more of them marked valid, the new ones in [ids]. *)
Record marked (ids : list digest_type) (i i' : gmap digest_type block_state) : Prop := {
  mk_headers : forall k, bsh <$> i' !! k = bsh <$> i !! k;
  mk_grows : forall k b, i !! k = Some b -> validated b = true -> exists b', i' !! k = Some b' /\ validated b' = true;
  mk_new : forall k b', i' !! k = Some b' -> validated b' = true ->
    k ∈ ids \/ exists b, i !! k = Some b /\ validated b = true
}.

Lemma marked_refl i : marked [] i i.
Proof. split; eauto. Qed.

Lemma marked_trans ids ids' i1 i2 i3 : marked ids i1 i2 -> marked ids' i2 i3 -> marked (ids ++ ids') i1 i3.
Proof.
  intros [H1 H2 H3] [G1 G2 G3]. split.
  - intros k. by rewrite G1, H1.
  - intros k b Hb Hv. destruct (H2 _ _ Hb Hv) as (b' & Hb' & Hv'). eauto.
  - intros k b Hb Hv. destruct (G3 _ _ Hb Hv) as [Hk|(b2 & Hb2 & Hv2)]; [left; set_solver|].
    destruct (H3 _ _ Hb2 Hv2) as [Hk|?]; [left; set_solver|by right].
Qed.

Lemma marked_lookup ids i i' k b : marked ids i i' -> i !! k = Some b ->
  exists b', i' !! k = Some b' /\ bsh b' = bsh b /\ (validated b = true -> validated b' = true).
Proof.
  intros [H1 H2 _] Hb. specialize (H1 k). rewrite Hb in H1. destruct (i' !! k) as [b'|] eqn:E; [|done].
  injection H1 as H1. exists b'. split; [done|]. split; [done|]. intros Hv.
  destruct (H2 _ _ Hb Hv) as (b2 & Hb2 & Hv2). congruence.
Qed.

Lemma branch_marked ids i i' rb k l : marked ids i i' -> branch i rb k l ->
  exists l', branch i' rb k l' /\ bsh <$> l' = bsh <$> l
    /\ (Forall (fun b => validated b = true) l -> Forall (fun b => validated b = true) l').
Proof.
  intros Hm. induction 1 as [|k b l Hk _ (l' & Hb' & Hl & Hv)]; [exists []; split_and!; [constructor|done..]|].
  destruct (marked_lookup _ _ _ _ _ Hm Hk) as (b' & Hi' & Hs & Hvb). exists (b' :: l'). split_and!.
  - econstructor; [done|]. apply bsh_eq in Hs as (_ & -> & _). done.
  - rewrite !fmap_cons, Hs, Hl. done.
  - intros [? ?]%Forall_cons. constructor; auto.
Qed.

(** The head only moves to a preferred block, marked valid. *)
Definition head_moved (f f' : fork_database) (h h' : block_state) : Prop :=
  h' = h \/ (first_preferred h' h = true
             /\ exists b, index f' !! b_id h' = Some b /\ bsh b = bsh h' /\ validated b = true).

Lemma links_marked ids f rb h i' k x p : forks_ok f rb h -> marked ids (index f) i' -> i' !! k = Some x ->
  node_at i' rb (b_prev x) p -> links (bsh p) (bsh x).
Proof.
  intros Hf Hm Hx Hp. pose proof (mk_headers _ _ _ Hm k) as Ek. rewrite Hx in Ek.
  destruct (index f !! k) as [y|] eqn:Ey; [|done]. injection Ek as Ek. rewrite Ek. apply bsh_eq in Ek as (_ & Ep & _).
  destruct Hp as [[Hp ->]|Hp]; [apply (fo_links _ _ _ Hf _ _ _ Ey); left; by rewrite <- Ep|].
  pose proof (mk_headers _ _ _ Hm (b_prev x)) as Eq. rewrite Hp in Eq.
  destruct (index f !! b_prev x) as [q|] eqn:Eqx; [|done]. injection Eq as ->.
  apply (fo_links _ _ _ Hf _ _ _ Ey). right. by rewrite <- Ep.
Qed.

Lemma mark_valid_forks f rb h b l :
  forks_ok f rb h -> index f !! b_id b = Some b -> branch (index f) rb (b_id b) (b :: l) ->
  Forall (fun b => validated b = true) l -> is_Some (replay (bsh <$> b :: l)) ->
  exists f' h', mark_valid b f = (Ok tt, f') /\ forks_ok f' rb h' /\ marked [b_id b] (index f) (index f')
    /\ head_moved f f' h h' /\ (exists b', index f' !! b_id b = Some b' /\ bsh b' = bsh b /\ validated b' = true).
Proof.
  intros Hf Hb Hbr Hvl Hr. destruct (validated b) eqn:Hv.
  { exists f, h. unfold mark_valid. rewrite Hv. split; [done|]. split; [done|].
    split; [split; eauto|]. split; [by left|eauto]. }
  destruct (mark_valid_spec b f rb h b) as (h' & E & Ht & Hh & Hm); try done; try apply Hf.
  set (i' := <[b_id b := set_validated true b]> (index f)) in *.
  assert (marked [b_id b] (index f) i') as Hmk.
  { split.
    - intros k. unfold i'. destruct (decide (k = b_id b)) as [->|Hne]; [by rewrite lookup_insert_eq, Hb|].
      by rewrite lookup_insert_ne.
    - intros k x Hx Hvx. unfold i'. destruct (decide (k = b_id b)) as [->|Hne]; [rewrite lookup_insert_eq; eauto|].
      rewrite lookup_insert_ne by done. eauto.
    - intros k x [[<- <-]|[_ Hx]]%lookup_insert_Some Hvx; [left; left|right; eauto]. }
  eexists _, h'. split; [done|]. cbn [index]. split; [|split; [done|split]].
  - constructor; cbn [root head index]; try done; [apply Hf|..].
    + destruct Hm as [->|(_ & ? & _)]; [apply Hf|done].
    + apply Hf.
    + apply Hf.
    + intros k x [[<- <-]|[_ Hx]]%lookup_insert_Some; [apply (fo_ids _ _ _ Hf _ _ Hb)|by apply (fo_ids _ _ _ Hf k)].
    + intros k x [[<- <-]|[_ Hx]]%lookup_insert_Some; [apply (fo_nums _ _ _ Hf _ _ Hb)|by apply (fo_nums _ _ _ Hf k)].
    + intros k x p Hx Hp. by eapply links_marked.
    + intros k x [[<- <-]|[_ Hx]]%lookup_insert_Some Hvx.
      * apply branch_inv in Hbr as [[_ ?]|(y & l2 & [= <- <-] & Hb2 & Hl2)]; [done|].
        destruct (branch_marked _ _ _ _ _ _ Hmk Hl2) as (l' & Hl' & Es & Hvl').
        exists (set_validated true b :: l'). split_and!.
        -- econstructor; [apply lookup_insert_eq|done].
        -- constructor; auto.
        -- rewrite fmap_cons, Es. done.
      * destruct (fo_valid _ _ _ Hf _ _ Hx Hvx) as (l1 & Hl1 & Hv1 & Hr1).
        destruct (branch_marked _ _ _ _ _ _ Hmk Hl1) as (l' & Hl' & Es & Hvl').
        exists l'. rewrite Es. auto.
  - destruct Hm as [->|(Hi & Hv' & Hp)]; [by left|right]. split; [done|]. cbn [index]. by exists h'.
  - exists (set_validated true b). cbn [index]. unfold i'. by rewrite lookup_insert_eq.
Qed.

Lemma desc_on_branch i rb a k b l : tree i rb -> i !! a = Some b -> desc i a k -> branch i rb k l -> b ∈ l.
Proof.
  intros Ht Ha Hd Hb. revert Hd. induction Hb as [|k x l Hk _ IH]; intros Hd.
  - apply desc_outside in Hd; [|apply (tr_root _ _ Ht)]. rewrite <- Hd, (tr_root _ _ Ht) in Ha. done.
  - destruct Hd as [|k y Hy Hd]; [rewrite Ha in Hk; injection Hk as ->; left|].
    rewrite Hk in Hy. injection Hy as <-. right. auto.
Qed.

(** Removing a block that is not marked valid. *)
Lemma remove_forks f rb h b :
  forks_ok f rb h -> index f !! b_id b = Some b -> validated b = false ->
  exists f', remove (b_id b) f = (Ok tt, f') /\ forks_ok f' rb h
    /\ (forall k x, index f' !! k = Some x <-> index f !! k = Some x /\ ~ desc (index f) (b_id b) k)
    /\ forall k x, index f !! k = Some x -> validated x = true -> index f' !! k = Some x.
Proof.
  intros Hf Hb Hv. pose proof (fo_tree _ _ _ Hf) as Ht.
  assert (forall k x, index f !! k = Some x -> validated x = true -> ~ desc (index f) (b_id b) k) as Hsafe.
  { intros k x Hx Hvx Hd. destruct (fo_valid _ _ _ Hf _ _ Hx Hvx) as (l & Hl & Hvl & _).
    pose proof (desc_on_branch _ _ _ _ _ _ Ht Hb Hd Hl) as Hin. rewrite Forall_forall in Hvl.
    specialize (Hvl _ Hin). congruence. }
  destruct (remove_spec (b_id b) f h) as [[Hd _]|(Hn & i' & E & Hi)]; [apply Ht|apply Ht|apply Hf| |].
  { exfalso. destruct (fo_head_ok _ _ _ Hf) as [[Eh|(h' & Hh & _ & Hvh)] _]; [|by apply (Hsafe _ _ Hh Hvh)].
    apply bsh_eq in Eh as (Eh & _). rewrite Eh in Hd. apply desc_outside in Hd; [|apply (tr_root _ _ Ht)].
    rewrite <- Hd, (tr_root _ _ Ht) in Hb. done. }
  assert (forall k l, branch (index f) rb k l -> Forall (fun b => validated b = true) l -> branch i' rb k l) as Hbr.
  { induction 1 as [|k x l Hk _ IH]; [constructor|]. intros [Hvx Hvl]%Forall_cons.
    econstructor; [|by apply IH]. apply Hi. eauto. }
  destruct (fork_ok_remove (b_id b) f (Ok tt) (set_index i' f)) as (rb' & h' & Hr' & Hh' & Ht' & Hok');
    [exists rb, h; split_and!; apply Hf|done|].
  cbn [root head index set_index] in *. rewrite (fo_root _ _ _ Hf) in Hr'. rewrite (fo_head _ _ _ Hf) in Hh'.
  injection Hr' as <-. injection Hh' as <-.
  exists (set_index i' f). cbn [index set_index]. split; [done|]. split; [|split; [done|]].
  - constructor; cbn [root head index set_index]; try apply Hf; try done.
    + intros k x [Hx _]%Hi. by apply (fo_ids _ _ _ Hf k).
    + intros k x [Hx _]%Hi. by apply (fo_nums _ _ _ Hf k).
    + intros k x p [Hx _]%Hi Hp. apply (fo_links _ _ _ Hf _ _ _ Hx).
      destruct Hp as [?|[Hp _]%Hi]; [by left|by right].
    + intros k x [Hx _]%Hi Hvx. destruct (fo_valid _ _ _ Hf _ _ Hx Hvx) as (l & Hl & Hvl & Hr). exists l. auto.
  - intros k x Hx Hvx. apply Hi. eauto.
Qed.

(** *** Switching *)

(** The headers [l] belong to blocks marked valid. *)
Definition all_valid (f : fork_database) (l : list block_header_state) : Prop :=
  forall b, b ∈ l -> exists p, index f !! bhs_id b = Some p /\ bsh p = b /\ validated p = true.

Lemma all_valid_known f rb h l : forks_ok f rb h -> all_valid f l -> known f l.
Proof.
  intros Hf Hv. split; [|split].
  - rewrite <- (fo_bsh _ _ _ Hf). apply (tr_root _ _ (fo_tree _ _ _ Hf)).
  - exists rb. split; apply Hf.
  - intros b Hb. destruct (Hv b Hb) as (p & Hp & Hs & _). eauto.
Qed.

Lemma all_valid_marked ids f f' l : marked ids (index f) (index f') -> all_valid f l -> all_valid f' l.
Proof.
  intros Hm Hv b Hb. destruct (Hv b Hb) as (p & Hp & Hs & Hvp).
  destruct (marked_lookup _ _ _ _ _ Hm Hp) as (p' & Hp' & Hs' & Hv'). exists p'. split; [done|]. split; [congruence|auto].
Qed.

(** A chain of valid headers is a branch. *)
Lemma valid_branch f rb h l : forks_ok f rb h -> chained l -> all_valid f l ->
  exists lb, branch (index f) rb (bhs_id (tip l)) lb /\ bsh <$> lb = l /\ Forall (fun b => validated b = true) lb.
Proof.
  intros Hf. induction l as [|b l IH]; intros Hc Hv.
  - exists []. cbn [tip]. rewrite <- (fo_bsh _ _ _ Hf). split_and!; [constructor|done..].
  - destruct Hc as (_ & _ & Hprev & Hc). destruct IH as (lb & Hlb & Es & Hvl); [done|intros x Hx; apply Hv; by right|].
    destruct (Hv b) as (p & Hp & Hs & Hvp); [left|]. exists (p :: lb). split_and!.
    + econstructor; [done|]. unfold b_prev. rewrite Hs, Hprev. done.
    + by rewrite fmap_cons, Hs, Es.
    + by constructor.
Qed.

Lemma last_chained (l2 : list block_state) l b : chained ((bsh <$> l2) ++ l) -> last l2 = Some b -> b_prev b = bhs_id (tip l).
Proof.
  induction l2 as [|x l2 IH]; [done|]. rewrite fmap_cons. cbn [app chained]. intros (_ & _ & Hp & Hc).
  destruct l2 as [|y l2]; [intros [= <-]; apply Hp|]. intros Hl. apply IH; [done|]. rewrite <- Hl. done.
Qed.

Definition keeps_log (c c' : controller) : Prop := blog c' = blog c /\ same_mode c c'.

#[local] Instance keeps_log_preorder : PreOrder keeps_log.
Proof.
  split; [by intros c|]. intros c1 c2 c3 (H1 & H2) (G1 & G2). split; [congruence|by etrans].
Qed.

Lemma keeps_keeps_log c c' : keeps c c' -> keeps_log c c'.
Proof. by intros (_ & ? & ?). Qed.

(** The step both kinds of switch make: apply, mark valid, move the head. *)
Definition step (b : block_state) (s : Features.block_status) : exec controller unit :=
  do _ <- apply_block b s;
  do _ <- in_fork_db (mark_valid b);
  modify (set_head (bsh b)).

Lemma step_ok c rb h b l rest s :
  positioned c l rest -> forks_ok (fork_db c) rb h -> chained (bsh b :: l) -> all_valid (fork_db c) l ->
  index (fork_db c) !! b_id b = Some b ->
  s = Features.complete \/ (s = Features.validated /\ validated b = true) ->
  (exists c' h', step b s c = (Ok tt, c') /\ positioned c' (bsh b :: l) rest /\ forks_ok (fork_db c') rb h'
     /\ marked [b_id b] (index (fork_db c)) (index (fork_db c')) /\ head_moved (fork_db c) (fork_db c') h h'
     /\ all_valid (fork_db c') (bsh b :: l) /\ keeps_log c c')
  \/ (exists e u, step b s c = (Throw e, set_unapplied u c) /\ is_fc e = true /\ validated b = false).
Proof.
  intros Hp Hf Hc Hv Hb Hs. destruct (valid_branch _ _ _ l Hf (proj2 (proj2 (proj2 Hc))) Hv) as (lb & Hlb & El & Hvl).
  assert (branch (index (fork_db c)) rb (b_id b) (b :: lb)) as Hbr.
  { econstructor; [done|]. unfold b_prev. destruct Hc as (_ & _ & -> & _). done. }
  destruct (replay (bsh b :: l)) as [st|] eqn:Er.
  - left. destruct (apply_block_ok c b l rest Hp Hc s) as (c1 & E1 & Hp1 & Hk1);
      [by rewrite Er|destruct Hs as [?|[? _]]; auto|].
    destruct Hk1 as (Ef & Hk1). rewrite <- Ef in Hf, Hv, Hb, Hbr, Hlb |- *.
    destruct (mark_valid_forks _ rb h b lb Hf Hb Hbr Hvl) as (f' & h' & Em & Hf' & Hmk & Hmv & b' & Hb' & Hsb & Hvb);
      [by rewrite fmap_cons, El, Er|].
    exists (set_head (bsh b) (set_fork_db f' c1)), h'. split.
    { unfold step, bind, in_fork_db, zoom, modify. rewrite E1, Em. done. }
    cbn [fork_db set_head set_fork_db]. split; [by apply (positioned_fork_db _ _ _ f') in Hp1|].
    split_and!; try done. intros x [->|Hx]%elem_of_cons; [eauto|]. by apply (all_valid_marked _ _ _ _ Hmk Hv).
  - right. assert (validated b = false) as Hvb.
    { destruct (validated b) eqn:Ev; [|done]. destruct (fo_valid _ _ _ Hf _ _ Hb Ev) as (l1 & Hl1 & _ & Hr1).
      rewrite (branch_unique _ _ (fo_tree _ _ _ Hf) _ _ _ Hl1 Hbr), fmap_cons, El, Er in Hr1. by destruct Hr1. }
    destruct Hs as [->|[-> ?]]; [|congruence]. destruct (pos_state _ _ _ Hp) as (u & Hr & _).
    cbn [replay] in Er. rewrite Hr in Er. destruct (run_block _ _ _ _ _ _ _) as [|e fm er tx] eqn:Erun; [done|].
    assert (links (tip l) (bsh b)) as Hlk.
    { rewrite <- El. destruct Hc as (_ & _ & Hpb & _).
      apply branch_inv in Hlb as [[Ek ->]|(p & l' & -> & Hpi & _)]; rewrite <- El in Hpb; cbn [tip fmap list_fmap] in Hpb |- *.
      - rewrite <- (fo_bsh _ _ _ Hf). apply (fo_links _ _ _ Hf _ _ rb Hb). left. split; [|done].
        unfold b_prev. rewrite Hpb, <- (fo_bsh _ _ _ Hf). done.
      - apply (fo_links _ _ _ Hf _ _ p Hb). right. unfold b_prev. rewrite Hpb.
        by rewrite <- El in Hpi. }
    pose proof (failed_fc _ _ _ _ _ _ _ _ _ _ _ (positioned_ok c b l rest Hp Hc) (proj1 Hc) (proj1 (proj2 Hc)) Hlk Erun) as He.
    destruct (apply_block_fails c b l rest Hp Hc _ _ _ _ _ Erun He) as (u' & E). exists e, u'.
    split; [|done]. unfold step, bind. by rewrite E.
Qed.

Section Switch.
Context (rb : block_state) (rest : list chainbase) (l2 : list block_state) (common : list block_header_state).
Context (Hc2 : chained ((bsh <$> l2) ++ common)) (Hr2 : is_Some (replay ((bsh <$> l2) ++ common))).

(** The fork database has lost the blocks built on [b]. *)
Definition pruned (f f' : fork_database) (b : block_state) : Prop :=
  forall k x, index f' !! k = Some x <-> index f !! k = Some x /\ ~ desc (index f) (b_id b) k.

Lemma reverse_switch_ok c h b done :
  positioned c (done ++ common) rest -> chained (done ++ common) -> forks_ok (fork_db c) rb h ->
  all_valid (fork_db c) (done ++ common) -> index (fork_db c) !! b_id b = Some b -> validated b = false ->
  (l2 = [] -> exists c', reverse_switch l2 b (length done) c = (Throw undefined_behavior, c'))
  /\ (l2 <> [] -> exists c', reverse_switch l2 b (length done) c = (Ok tt, c')
        /\ positioned c' ((bsh <$> l2) ++ common) rest /\ forks_ok (fork_db c') rb h
        /\ pruned (fork_db c) (fork_db c') b /\ keeps_log c c'
        /\ forall l, all_valid (fork_db c) l -> all_valid (fork_db c') l).
Proof.
  intros Hp Hc Hf Hv Hb Hvb.
  destruct (remove_forks _ _ _ _ Hf Hb Hvb) as (f' & Er & Hf' & Hpr & Hkeep).
  assert (forall l, all_valid (fork_db c) l -> all_valid f' l) as Hvk.
  { intros l Hl x Hx. destruct (Hl x Hx) as (p & Hpx & Hs & Hvp). eauto. }
  destruct (pop_blocks_ok done common rest (set_fork_db f' c)) as (c1 & E1 & Hp1 & Hk1);
    [by apply positioned_fork_db|done|by eapply all_valid_known, Hvk|].
  pose proof Hk1 as (Ef1 & _). cbn [fork_db set_fork_db] in Ef1.
  assert (reverse_switch l2 b (length done) c
    = bind (check_fork_point l2) (fun _ => for_each (reverse l2)
        (fun b => do _ <- apply_block b Features.validated; modify (set_head (bsh b)))) c1) as ->.
  { unfold reverse_switch, bind at 1, in_fork_db, zoom. rewrite Er. unfold bind at 1. by rewrite E1. }
  split; [intros E0; rewrite E0; cbn; eauto|intros Hne].
  destruct (last l2) as [x|] eqn:El; [|by apply last_None in El].
  unfold bind at 1, check_fork_point, bind at 1, get_state. rewrite El.
  unfold bind at 1, lift. rewrite (last_chained _ _ _ Hc2 El), (pos_head _ _ _ Hp1), bool_decide_true by done.
  cbn [eos_assert]. unfold ret at 1.
  destruct (reapply_ok l2 common rest c1 Hp1 Hc2 Hr2) as (c2 & E2 & Hp2 & Hk2). rewrite E2.
  pose proof Hk2 as (Ef2 & _). exists c2. split; [done|]. split; [done|]. rewrite Ef2, Ef1. split; [done|].
  split; [done|]. split; [|done]. apply keeps_keeps_log in Hk1, Hk2. by transitivity c1.
Qed.

Lemma marked_other ids i i' k b : marked ids i i' -> i !! k = Some b -> k ∉ ids -> i' !! k = Some b.
Proof.
  intros Hm Hb Hk. destruct (marked_lookup _ _ _ _ _ Hm Hb) as (b' & Hb' & Hs & Hv). rewrite Hb'. f_equal.
  assert (validated b' = validated b) as Ev.
  { destruct (validated b') eqn:E1, (validated b) eqn:E2; try done; [|by specialize (Hv eq_refl)].
    destruct (mk_new _ _ _ Hm _ _ Hb' E1) as [?|(x & Hx & Hvx)]; [done|]. congruence. }
  destruct b, b'; cbn in *. congruence.
Qed.

Lemma head_moved_trans ids f1 f2 f3 h1 h2 h3 :
  marked ids (index f2) (index f3) -> head_moved f1 f2 h1 h2 -> head_moved f2 f3 h2 h3 -> head_moved f1 f3 h1 h3.
Proof.
  intros Hm H12 [->|(Hp & Hi)].
  - destruct H12 as [?|(Hp & b & Hb & Hs & Hv)]; [by left|right]. split; [done|].
    destruct (marked_lookup _ _ _ _ _ Hm Hb) as (b' & Hb' & Hs' & Hv'). exists b'. split; [done|]. split; [congruence|auto].
  - right. split; [|done]. destruct H12 as [->|(Hp' & _)]; [done|].
    destruct (first_preferred h3 h1) eqn:E; [done|]. by rewrite (first_preferred_trans h3 h2 h1) in E.
Qed.

Lemma desc_marked ids i i' a k : marked ids i i' -> desc i' a k <-> desc i a k.
Proof.
  intros Hm. assert (forall k, bsh <$> i' !! k = bsh <$> i !! k) as Hh by apply Hm. clear Hm. split.
  - induction 1 as [|k b Hb _ IH]; [constructor|]. specialize (Hh k). rewrite Hb in Hh.
    destruct (i !! k) as [b'|] eqn:E; [|done]. injection Hh as Hs. apply bsh_eq in Hs as (_ & Ep & _).
    apply (desc_step i a k b'); [done|]. by rewrite <- Ep.
  - induction 1 as [|k b Hb _ IH]; [constructor|]. specialize (Hh k). rewrite Hb in Hh.
    destruct (i' !! k) as [b'|] eqn:E; [|done]. injection Hh as Hs. apply bsh_eq in Hs as (_ & Ep & _).
    apply (desc_step i' a k b'); [done|]. by rewrite Ep.
Qed.

(** Up to marks, [f'] is [f] without the block [b] and those built on it. *)
Definition dropped (f f' : fork_database) (b : block_state) : Prop := forall k,
  (desc (index f) (b_id b) k -> index f' !! k = None)
  /\ (~ desc (index f) (b_id b) k -> bsh <$> index f' !! k = bsh <$> index f !! k).

Lemma pruned_dropped ids f f1 f2 b : marked ids (index f) (index f1) -> pruned f1 f2 b -> dropped f f2 b.
Proof.
  intros Hm Hp k. rewrite <- (desc_marked _ _ _ _ _ Hm). split; intros Hd.
  - destruct (index f2 !! k) eqn:E; [|done]. by apply Hp in E as [_ ?].
  - rewrite <- (mk_headers _ _ _ Hm). destruct (index f1 !! k) as [x|] eqn:E1.
    + assert (index f2 !! k = Some x) as -> by (by apply Hp). done.
    + destruct (index f2 !! k) eqn:E2; [|done]. apply Hp in E2 as [E2 _]. congruence.
Qed.

Lemma dropped_marked ids f f1 f2 b : marked ids (index f) (index f1) -> dropped f1 f2 b -> dropped f f2 b.
Proof. intros Hm Hd k. rewrite <- (desc_marked _ _ _ _ _ Hm), <- (mk_headers _ _ _ Hm). apply Hd. Qed.

(** What a run of the loop may end in. *)
Definition switched (c c' : controller) (h : block_state) (todo : list block_state) (l : list block_header_state) : Prop :=
  exists h', positioned c' l rest /\ forks_ok (fork_db c') rb h' /\ all_valid (fork_db c') l
    /\ marked (b_id <$> todo) (index (fork_db c)) (index (fork_db c')) /\ head_moved (fork_db c) (fork_db c') h h'
    /\ keeps_log c c'.

Definition reversed (c c' : controller) (b : block_state) : Prop :=
  exists h', positioned c' ((bsh <$> l2) ++ common) rest /\ forks_ok (fork_db c') rb h'
    /\ dropped (fork_db c) (fork_db c') b /\ keeps_log c c'
    /\ forall l, all_valid (fork_db c) l -> all_valid (fork_db c') l.

Lemma apply_branch_ok todo : forall c h done,
  positioned c (done ++ common) rest -> forks_ok (fork_db c) rb h -> all_valid (fork_db c) (done ++ common) ->
  (forall x, x ∈ todo -> index (fork_db c) !! b_id x = Some x) -> NoDup (b_id <$> todo) ->
  chained ((bsh <$> reverse todo) ++ done ++ common) ->
  (exists c', apply_branch l2 todo (length done) c = (Ok tt, c')
     /\ switched c c' h todo ((bsh <$> reverse todo) ++ done ++ common))
  \/ (exists b e c', b ∈ todo /\ validated b = false /\ apply_branch l2 todo (length done) c = (Throw e, c')
        /\ (l2 = [] -> e = undefined_behavior) /\ (l2 <> [] -> is_fc e = true /\ reversed c c' b)).
Proof.
  induction todo as [|b todo IH]; intros c h done Hp Hf Hv Hin Hnd Hc.
  { left. exists c. split; [done|]. exists h. split_and!; try done; [apply marked_refl|by left]. }
  rewrite reverse_cons, fmap_app, <- app_assoc in Hc. rewrite fmap_cons in Hc. cbn [fmap list_fmap app] in Hc.
  pose proof (chained_app _ _ Hc) as Hcb. cbn [apply_branch].
  assert (index (fork_db c) !! b_id b = Some b) as Hb by (apply Hin; left).
  rewrite fmap_cons in Hnd. apply NoDup_cons in Hnd as [Hbn Hnd].
  set (s := if validated b then Features.validated else Features.complete).
  destruct (step_ok c rb h b (done ++ common) rest s Hp Hf Hcb Hv Hb) as
    [(c1 & h1 & E1 & Hp1 & Hf1 & Hmk1 & Hmv1 & Hv1 & Hk1)|(e & u & E1 & He & Hvb)].
  { unfold s. destruct (validated b); [by right|by left]. }
  - change (bind (apply_block b s) _) with (step b s). rewrite E1.
    destruct (IH c1 h1 (bsh b :: done) Hp1 Hf1 Hv1) as [(c2 & E2 & h2 & Hp2 & Hf2 & Hv2 & Hmk2 & Hmv2 & Hk2)
                                                       |(x & e & c2 & Hx & Hvx & E2 & H0 & H1)]; [|done|done|..].
    { intros x Hx. eapply marked_other; [done|apply Hin; by right|].
      intros [= E]%list_elem_of_singleton. apply Hbn. rewrite <- E. by apply list_elem_of_fmap_2. }
    + left. exists c2. split; [done|]. rewrite reverse_cons, fmap_app, <- app_assoc. exists h2.
      split_and!; try done; [|by eapply head_moved_trans|by etrans].
      rewrite fmap_cons. by apply (marked_trans [b_id b] (b_id <$> todo) _ (index (fork_db c1))).
    + right. exists x, e, c2. split; [by right|]. do 3 (split; [done|]). intros Hne.
      destruct (H1 Hne) as [He (h2 & Hp2 & Hf2 & Hd2 & Hk2 & Hvk)]. split; [done|].
      exists h2. split; [done|]. split; [done|]. split; [by eapply dropped_marked|]. split; [by etrans|].
      intros l Hl. by eapply Hvk, all_valid_marked.
  - right. change (bind (apply_block b s) _) with (step b s). rewrite E1, He.
    destruct (reverse_switch_ok (set_unapplied u c) h b done) as [H0 H1]; try done;
      [by apply positioned_unapplied|by destruct Hcb as (_ & _ & _ & ?)|].
    unfold bind. destruct (decide (l2 = [])) as [Hl|Hl].
    + destruct (H0 Hl) as (c2 & ->). exists b, undefined_behavior, c2. by split; [left|].
    + destruct (H1 Hl) as (c2 & E2 & Hp2 & Hf2 & Hpr & Hk2 & Hvk). rewrite E2. exists b, e, c2. split; [left|].
      do 3 (split; [done|]). intros _. split; [done|]. exists h. split; [done|]. split; [done|].
      split; [|done]. apply (pruned_dropped [] _ _ _ _ (marked_refl _) Hpr).
Qed.
End Switch.

(** *** maybe_switch_forks *)

(** The controller follows the branch [l]. *)
Record follows (c : controller) (rb h : block_state) (l : list block_header_state) (rest : list chainbase) : Prop := {
  fl_position : positioned c l rest;
  fl_forks : forks_ok (fork_db c) rb h;
  fl_valid : all_valid (fork_db c) l;
  fl_chained : chained l
}.

Lemma branch_NoDup_ids i rb k l : tree i rb -> branch i rb k l -> NoDup (b_id <$> l).
Proof.
  intros Ht Hb. pose proof (branch_descending _ _ Ht _ _ Hb) as Hs.
  assert (forall x, x ∈ l -> i !! b_id x = Some x) as Hi by (intros x; by apply (branch_elem _ _ Ht _ _ _ Hb)).
  clear Hb. induction Hs as [|x l Hs IH Hall]; [constructor|]. rewrite fmap_cons. constructor.
  - intros (y & E & Hy)%list_elem_of_fmap. rewrite Forall_forall in Hall. specialize (Hall y Hy). cbn in Hall.
    assert (Some x = Some y) as [= ->]; [|lia]. rewrite <- (Hi x), <- (Hi y); [by rewrite E|by right|left].
  - apply IH. intros y Hy. apply Hi. by right.
Qed.

Lemma switch_branch_ok c rb h l rest n :
  follows c rb h l rest -> node_at (index (fork_db c)) rb (b_id n) n ->
  exists l1 l2 common, branch (index (fork_db c)) rb (b_id n) (l1 ++ common) /\ (bsh <$> l2) ++ (bsh <$> common) = l
    /\ ((exists c', switch_branch n c = (Ok tt, c') /\ switched rb rest c c' h (reverse l1) (bsh <$> l1 ++ common))
        \/ (exists b e c', b ∈ l1 /\ validated b = false /\ switch_branch n c = (Throw e, c')
              /\ (l2 = [] -> e = undefined_behavior)
              /\ (l2 <> [] -> is_fc e = true /\ reversed rb rest l2 (bsh <$> common) c c' b))).
Proof.
  intros [Hp Hf Hv Hc] Hn. pose proof (fo_tree _ _ _ Hf) as Ht.
  destruct (valid_branch _ _ _ _ Hf Hc Hv) as (lb & Hlb & El & Hvl).
  assert (node_at (index (fork_db c)) rb (bhs_id (c_head c)) (hd rb lb)) as Hnode.
  { rewrite (pos_head _ _ _ Hp). destruct Hlb as [|k x lb Hx _]; cbn; [left|right]; done. }
  destruct (fetch_branch_from_spec (fork_db c) rb (b_id n) (bhs_id (c_head c)) n (hd rb lb)) as
    (l1 & l2 & common & E & Hb1 & Hb2 & _); [apply Hf|done|done|done|].
  rewrite (pos_head _ _ _ Hp) in Hb2. pose proof (branch_unique _ _ Ht _ _ _ Hlb Hb2) as ->.
  rewrite fmap_app in El. subst l. exists l1, l2, common. split; [done|]. split; [done|].
  destruct (pos_state _ _ _ Hp) as (u & Hr & _).
  destruct (branch_chained _ _ _ _ _ Hf Hb1) as (Hc1 & _ & Hk1). rewrite fmap_app in Hc1 |- *.
  assert (exists c1, (match l2 with [] => ret tt | _ => do _ <- pop_blocks (length l2); check_fork_point l2 end) c
             = (Ok tt, c1) /\ positioned c1 (bsh <$> common) rest /\ keeps c c1) as (c1 & E1 & Hp1 & Hk).
  { destruct l2 as [|x l2]; [by exists c|].
    destruct (pop_blocks_ok (bsh <$> x :: l2) (bsh <$> common) rest c Hp Hc) as (c1 & E1 & Hp1 & Hk);
      [by eapply all_valid_known|]. exists c1. split; [|done]. rewrite length_fmap in E1.
    unfold bind at 1. rewrite E1. unfold check_fork_point, bind at 1, get_state.
    destruct (last (x :: l2)) as [y|] eqn:Ey; [|by apply last_None in Ey].
    unfold bind, lift. rewrite (last_chained _ _ _ Hc Ey), (pos_head _ _ _ Hp1), bool_decide_true; done. }
  pose proof Hk as (Ef & _). apply keeps_keeps_log in Hk.
  assert (switch_branch n c = apply_branch l2 (reverse l1) 0 c1) as ->.
  { unfold switch_branch, bind at 1, get_state, bind at 1, lift. rewrite E. unfold bind at 1. by rewrite E1. }
  destruct (apply_branch_ok rb rest l2 (bsh <$> common) Hc ltac:(by rewrite Hr) (reverse l1) c1 h []) as
    [(c' & E' & h' & Hp' & Hf' & Hv' & Hmk & Hmv & Hk')|(b & e & c' & Hb & Hvb & E' & H0 & H1)].
  - done.
  - by rewrite Ef.
  - rewrite Ef. intros x Hx. apply Hv, elem_of_app. by right.
  - rewrite Ef. intros x Hx. rewrite elem_of_reverse in Hx. apply (branch_elem _ _ Ht _ _ _ Hb1), elem_of_app. by left.
  - rewrite fmap_reverse, reverse_Permutation. pose proof (branch_NoDup_ids _ _ _ _ Ht Hb1) as Hnd.
    rewrite fmap_app in Hnd. by apply NoDup_app in Hnd as (? & _).
  - rewrite reverse_involutive. done.
  - left. exists c'. split; [done|]. rewrite reverse_involutive in Hp', Hv'. rewrite Ef in Hmk.
    exists h'. split_and!; try done. by etrans.
  - right. exists b, e, c'. split; [by apply elem_of_reverse|]. do 3 (split; [done|]). intros Hne.
    destruct (H1 Hne) as [He (h' & Hp' & Hf' & Hd & Hk' & Hvk)]. split; [done|]. exists h'.
    rewrite Ef in Hvk. split_and!; try done.
    + unfold dropped in *. by rewrite Ef in Hd.
    + by etrans.
Qed.

Lemma extend_head_ok c rb h l rest n s :
  follows c rb h l rest -> index (fork_db c) !! b_id n = Some n -> b_prev n = bhs_id (c_head c) ->
  s = Features.complete ->
  (exists c', extend_head n s c = (Ok tt, c') /\ switched rb rest c c' h [n] (bsh n :: l))
  \/ (exists e c', extend_head n s c = (Throw e, c') /\ is_fc e = true
        /\ validated n = false /\ follows c' rb h l rest /\ dropped (fork_db c) (fork_db c') n /\ keeps_log c c').
Proof.
  intros [Hp Hf Hv Hc] Hn Hprev Hs. pose proof (fo_tree _ _ _ Hf) as Ht.
  destruct (valid_branch _ _ _ _ Hf Hc Hv) as (lb & Hlb & El & Hvl).
  assert (chained (bsh n :: l)) as Hcn.
  { assert (branch (index (fork_db c)) rb (b_id n) (n :: lb)) as Hbr.
    { econstructor; [done|]. by rewrite Hprev, (pos_head _ _ _ Hp). }
    apply (branch_chained _ _ _ _ _ Hf) in Hbr as (Hcn & _). by rewrite fmap_cons, El in Hcn. }
  unfold extend_head. change (bind (apply_block n s) _) with (step n s).
  destruct (step_ok c rb h n l rest s Hp Hf Hcn Hv Hn (or_introl Hs)) as
    [(c1 & h1 & E1 & Hp1 & Hf1 & Hmk1 & Hmv1 & Hv1 & Hk1)|(e & u & E1 & He & Hvb)]; rewrite E1.
  - left. exists c1. split; [done|]. exists h1. done.
  - right. rewrite He. destruct (remove_forks _ _ _ _ Hf Hn Hvb) as (f' & Er & Hf' & Hpr & Hkeep).
    unfold bind, in_fork_db, zoom. cbn [fork_db set_unapplied]. rewrite Er. eexists e, _. split; [done|].
    split; [done|]. split; [done|]. split; [constructor|].
    + by apply positioned_fork_db, positioned_unapplied.
    + done.
    + intros x Hx. destruct (Hv x Hx) as (p & Hpx & Hsx & Hvp). exists p. cbn. auto.
    + done.
    + split; [|done]. apply (pruned_dropped [] _ _ _ _ (marked_refl _) Hpr).
Qed.
End Position.

(** ** log_irreversible *)

Section Irreversible.
Context {fc : Fc} {runner : BlockRunner fc} {laws : BlockRunnerLaws fc runner}.

(** The block log ends at the root. *)
Definition log_ok (c : controller) (r : block_header_state) : Prop :=
  match log_blocks (blog c) with
  | [] => u32 (first_block_num (blog c) - 1) = num r
  | h :: _ => bhs_id h = bhs_id r /\ num h = num r
  end
  /\ Z.of_nat (length (log_blocks (blog c))) = num r + 1 - first_block_num (blog c).

(** The effect of the loop. *)
Definition logged_block (c : controller) (b : block_state) : controller :=
  remove_reversible_to (b_num b)
    (set_blog (mk_log (first_block_num (blog c)) (bsh b :: log_blocks (blog c))) (commit (b_num b) c)).
Definition logged (bs : list block_state) (c : controller) : controller := foldl logged_block c bs.

(** The numbers of [bs] are n+1, n+2, ... *)
Fixpoint numbered (n : Z) (bs : list block_state) : Prop :=
  match bs with
  | [] => True
  | b :: bs' => b_num b = n + 1 /\ numbered (n + 1) bs'
  end.

Lemma log_loop_ok bs : forall n root_id c,
  read_mode c <> IRREVERSIBLE -> numbered n bs ->
  Z.of_nat (length (log_blocks (blog c))) = n + 1 - first_block_num (blog c) ->
  log_loop bs root_id c = (Ok tt, match last bs with Some b => b_id b | None => root_id end, logged bs c).
Proof.
  induction bs as [|b bs IH]; intros n root_id c Hm Hn Hl; [done|]. destruct Hn as [Hb Hn]. cbn [log_loop].
  unfold log_block, bind at 1, get_state. rewrite bool_decide_false by done. unfold bind, ret, modify at 1.
  unfold append, bind, get_state, lift, eos_assert. cbn [blog commit set_chainbase].
  replace (_ =? _) with true; [|symmetry; apply Z.eqb_eq; unfold b_num in Hb; unfold num; lia].
  unfold modify. change (remove_reversible_to _ _) with (logged_block c b).
  rewrite (IH (n + 1)); [destruct bs; [done|]; rewrite last_cons_cons; by destruct (last _) eqn:E; [|apply last_None in E]
    |done|done|cbn; lia].
Qed.

Lemma numbered_last bs b n : numbered n (bs ++ [b]) -> n < b_num b.
Proof.
  revert n. induction bs as [|x bs IH]; intros n; cbn [app numbered]; [lia|].
  intros [Hx Hn]. specialize (IH _ Hn). lia.
Qed.

Lemma logged_eq bs : forall n b c, numbered n (bs ++ [b]) ->
  logged (bs ++ [b]) c =
    set_chainbase (db c) (take (Z.to_nat (revision c - b_num b)) (undo_stack c)) (revision c)
      (set_reversible (filter (fun row => b_num b < fst row) (reversible_blocks c))
        (set_blog (mk_log (first_block_num (blog c)) ((bsh <$> reverse (bs ++ [b])) ++ log_blocks (blog c))) c)).
Proof.
  induction bs as [|x bs IH]; intros n b c Hn; cbn [app] in *; [done|].
  destruct Hn as [Hx Hn]. cbn [logged foldl]. fold (logged (bs ++ [b]) (logged_block c x)).
  rewrite (IH (n + 1) b _ Hn). pose proof (numbered_last _ _ _ Hn). apply controller_eq; cbn -[reverse]; try done.
  - rewrite take_take. f_equal. lia.
  - rewrite map_filter_filter. apply map_filter_ext. intros k v _. cbn. lia.
  - by rewrite reverse_cons, fmap_app, <- app_assoc.
Qed.

(** *** A new root *)

Section Rebase.
Context (r : block_header_state) (d0 : chainbase) (fm0 : features).

Lemma tip_rebase nr high below : tip r (high ++ nr :: below) = tip nr high.
Proof. by destruct high. Qed.

Lemma chained_rebase nr high below : chained r (high ++ nr :: below) -> chained nr high.
Proof.
  induction high as [|b high IH]; [done|]. cbn [app chained]. rewrite tip_rebase.
  intros (H1 & H2 & H3 & H4). split_and!; auto.
Qed.

Lemma replay_rebase nr high below d fm u :
  replay r d0 fm0 (high ++ nr :: below) = Some (d, fm, u) ->
  exists d1 fm1 u1 uh, replay r d0 fm0 (nr :: below) = Some (d1, fm1, u1)
    /\ replay nr d1 fm1 high = Some (d, fm, uh) /\ u = uh ++ u1 /\ length uh = length high.
Proof.
  revert d fm u. induction high as [|b high IH]; intros d fm u.
  - cbn [app]. intros ->. by exists d, fm, u, [].
  - cbn [app]. remember (nr :: below) as low. cbn [replay].
    destruct (replay r d0 fm0 (high ++ low)) as [[[d2 fm2] u2]|] eqn:E; [|done].
    destruct (IH _ _ _ eq_refl) as (d1 & fm1 & u1 & uh & E1 & E2 & -> & Hlen). subst low.
    rewrite tip_rebase. intros Hrun. exists d1, fm1, u1. rewrite E2.
    destruct (run_block _ _ _ _ _ _ _) as [d' fm' er tx|]; [|done]. injection Hrun as <- <- <-.
    exists (d2 :: uh). split_and!; [done..|]. cbn. lia.
Qed.

Lemma rows_filter nr high below : chained r (high ++ nr :: below) ->
  filter (fun row => num nr < fst row) (rows (high ++ nr :: below)) = rows high.
Proof.
  induction high as [|b high IH]; intros Hc.
  - cbn [app]. apply map_empty_filter. intros k v Hk%elem_of_list_to_map_2.
    apply list_elem_of_fmap in Hk as (x & [= -> ->] & Hx). pose proof (chained_num r _ _ Hc Hx). cbn in *. lia.
  - pose proof Hc as (Hn & _ & _ & Hc'). cbn [app] in *.
    change (rows (b :: high ++ nr :: below)) with (<[num b := bhs_id b]> (rows (high ++ nr :: below))).
    rewrite map_filter_insert_True; [by rewrite IH|].
    pose proof (chained_num r _ nr Hc' ltac:(apply elem_of_app; right; left)). cbn. lia.
Qed.

Lemma branch_cut i rb nr id i' k high below :
  tree i rb -> i !! id = Some nr ->
  (forall k b, i' !! k = Some b <-> i !! k = Some b /\ k <> id /\ desc i id k) ->
  branch i rb k (high ++ nr :: below) -> branch i' nr k high.
Proof.
  intros Ht Hid Hi. revert k. induction high as [|x high IH]; intros k Hb; cbn [app] in Hb.
  - apply branch_inv in Hb as [[_ ?]|(b & l & [= <- <-] & Hk & _)]; [done|].
    rewrite <- (tr_keyed _ _ Ht _ _ Hk). constructor.
  - pose proof (branch_num _ _ Ht _ _ _ Hb) as Nx.
    apply branch_inv in Hb as [[_ ?]|(b & l & [= <- <-] & Hk & Hb)]; [done|].
    assert (desc i id (b_prev x)) as Hd.
    { clear -Hb Ht Hid. revert Hb. generalize (b_prev x) as j. induction high as [|y high IH]; intros j Hb; cbn [app] in Hb.
      - apply branch_inv in Hb as [[_ ?]|(b & l & [= <- <-] & Hk & _)]; [done|].
        rewrite <- (tr_keyed _ _ Ht _ _ Hk), (tr_keyed _ _ Ht _ _ Hid). constructor.
      - apply branch_inv in Hb as [[_ ?]|(b & l & [= <- <-] & Hk & Hb)]; [done|]. eapply desc_step; [done|]. auto. }
    econstructor; [|by apply IH]. apply Hi. split; [done|]. split; [|by eapply desc_step].
    intros ->. rewrite Hid in Hk. injection Hk as ->.
    pose proof (branch_num _ _ Ht _ _ _ (branch_suffix _ _ Ht _ _ _ _ Hb)) as Nn.
    cbn [length] in Nx, Nn. rewrite length_app in Nx. cbn [length] in Nx. lia.
Qed.

Lemma forks_rebase f rb h nr below d1 fm1 u1 :
  forks_ok r d0 fm0 f rb h -> branch (index f) rb (b_id nr) (nr :: below) -> validated nr = true ->
  replay r d0 fm0 (bsh <$> nr :: below) = Some (d1, fm1, u1) -> desc (index f) (b_id nr) (b_id h) ->
  exists f', advance_root (b_id nr) f = (Ok tt, f') /\ forks_ok (bsh nr) d1 fm1 f' nr h
    /\ forall k b, index f' !! k = Some b <-> index f !! k = Some b /\ k <> b_id nr /\ desc (index f) (b_id nr) k.
Proof.
  intros Hf Hb Hv Hr Hd. pose proof (fo_tree _ _ _ _ _ _ Hf) as Ht.
  pose proof Hb as Hb'. apply branch_inv in Hb' as [[_ ?]|(x & l & [= <- <-] & Hnr & _)]; [done|].
  destruct (advance_root_spec (b_id nr) f rb h nr) as [(_ & i' & E & Hi & Ht' & Hh')|[? _]]; try done; try apply Hf.
  eexists. split; [done|]. cbn [index]. split; [|done]. constructor; cbn [root head index]; try done.
  - apply Hf.
  - by apply (fo_ids _ _ _ _ _ _ Hf (b_id nr)).
  - intros k b [Hk _]%Hi. by apply (fo_ids _ _ _ _ _ _ Hf k).
  - intros k b [Hk _]%Hi. by apply (fo_nums _ _ _ _ _ _ Hf k).
  - intros k b p [Hk _]%Hi Hp. apply (fo_links _ _ _ _ _ _ Hf _ _ _ Hk). right.
    destruct Hp as [[-> ->]|[Hp _]%Hi]; done.
  - intros k b (Hk & Hne & Hdk)%Hi Hvb. destruct (fo_valid _ _ _ _ _ _ Hf _ _ Hk Hvb) as (lx & Hlx & Hvx & [st Hrx]).
    pose proof (desc_on_branch _ _ _ _ _ _ Ht Hnr Hdk Hlx) as Hin.
    apply list_elem_of_split in Hin as (hx & bx & ->).
    pose proof (branch_unique _ _ Ht _ _ _ Hb (branch_suffix _ _ Ht _ _ _ _ Hlx)) as [= <-].
    exists hx. split; [by apply (branch_cut (index f) rb nr (b_id nr) i' k hx below)|]. split; [by apply Forall_app in Hvx as [? _]|].
    rewrite fmap_app, fmap_cons in Hrx. destruct st as [[d fm] u].
    destruct (replay_rebase _ _ _ _ _ _ Hrx) as (d2 & fm2 & u2 & uh & E1 & E2 & _).
    rewrite fmap_cons, E1 in Hr. injection Hr as -> -> ->. eauto.
Qed.
End Rebase.

(** *** The effect of log_irreversible *)

Lemma filter_suffix t (l : list block_state) : StronglySorted (fun x y => b_num y < b_num x) l ->
  exists high low, l = high ++ low /\ filter (fun b => b_num b <= t) l = low
    /\ Forall (fun b => t < b_num b) high /\ Forall (fun b => b_num b <= t) low.
Proof.
  induction 1 as [|x l Hs (high & low & -> & E & Hh & Hl) Hall]; [by exists [], []|].
  destruct (Z.le_gt_cases (b_num x) t) as [Hle|Hgt].
  - exists [], (x :: high ++ low). split; [done|]. split; [|split; [constructor|]].
    + apply filter_all. constructor; [done|]. eapply Forall_impl; [exact Hall|]. cbn. lia.
    + constructor; [done|]. eapply Forall_impl; [exact Hall|]. cbn. lia.
  - exists (x :: high), low. split; [done|]. rewrite filter_cons_False by lia. split; [done|].
    split; [by constructor|done].
Qed.

Lemma numbered_snoc n l b : numbered n l -> b_num b = n + Z.of_nat (length l) + 1 -> numbered n (l ++ [b]).
Proof.
  revert n. induction l as [|x l IH]; intros n; cbn [app numbered length]; [intros _ ?; split; [lia|done]|].
  intros [Hx Hn] Hb. split; [done|]. apply IH; [done|lia].
Qed.

Lemma numbered_branch i rb k l : tree i rb -> branch i rb k l -> numbered (b_num rb) (reverse l).
Proof.
  intros Ht. induction 1 as [|k b l Hk Hb IH]; [done|]. rewrite reverse_cons. apply numbered_snoc; [done|].
  rewrite length_reverse, (branch_num _ _ Ht _ _ _ (branch_cons _ _ _ _ _ Hk Hb)). cbn [length]. lia.
Qed.

Section Log.
Context (r : block_header_state) (d0 : chainbase) (fm0 : features).
Context (c : controller) (rb h : block_state) (l : list block_header_state) (rest : list chainbase).
Context (base_ok : state_ok (num r) d0 fm0) (Hfl : follows r d0 fm0 c rb h l rest).
Context (Hlog : log_ok c r) (Hhead : bsh h = c_head c).

(** A controller that follows the branch from the new root [r'] to the same
    head, with the same state. *)
Record advanced (c' : controller) (r' : block_header_state) (low : Z) : Prop := {
  adv_follows : exists d0' fm0' rb' l' rest', state_ok (num r') d0' fm0' /\ follows r' d0' fm0' c' rb' h l' rest'
    /\ low = num r';
  adv_log : log_ok c' r';
  adv_index : forall k b, index (fork_db c') !! k = Some b -> index (fork_db c) !! k = Some b;
  adv_covered : forall U, covered U (fork_db c) -> covered U (fork_db c');
  adv_same : db c' = db c /\ protocol_features c' = protocol_features c /\ c_head c' = c_head c
    /\ same_mode c c'
}.

(** The blocks of the branch up to [nr] are committed. *)
Lemma branch_reaches high nr below k :
  branch (index (fork_db c)) rb k (high ++ nr :: below) -> desc (index (fork_db c)) (b_id nr) k.
Proof.
  intros Hb. destruct Hfl as [_ Hf _ _]. pose proof (fo_tree _ _ _ _ _ _ Hf) as Ht.
  revert k Hb. induction high as [|y high IH]; intros k Hb.
  - apply branch_inv in Hb as [[_ ?]|(b & l' & [= <- <-] & Hk & _)]; [done|].
    rewrite <- (tr_keyed _ _ Ht _ _ Hk). constructor.
  - apply branch_inv in Hb as [[_ ?]|(b & l' & [= <- <-] & Hk & Hb)]; [done|]. eapply desc_step; [done|auto].
Qed.

Lemma tip_above high nr below :
  branch (index (fork_db c)) rb (bhs_id (tip r l)) (high ++ nr :: below) -> bsh <$> high ++ nr :: below = l ->
  num (tip r l) = b_num nr + Z.of_nat (length high).
Proof.
  intros Hb El. destruct Hfl as [_ Hf _ _]. pose proof (fo_tree _ _ _ _ _ _ Hf) as Ht.
  pose proof (branch_num _ _ Ht _ _ _ (branch_suffix _ _ Ht _ _ _ _ Hb)) as Nn.
  destruct high as [|x high]; [rewrite <- El; cbn; unfold b_num, num; lia|].
  pose proof (branch_num _ _ Ht _ _ _ Hb) as Nx. rewrite <- El. cbn [app fmap list_fmap tip].
  change (num (bsh x)) with (b_num x). rewrite Nx, Nn. cbn [length]. rewrite length_app. cbn [length]. lia.
Qed.

Lemma advance_to high nr below :
  branch (index (fork_db c)) rb (bhs_id (tip r l)) (high ++ nr :: below) -> bsh <$> high ++ nr :: below = l ->
  Forall (fun b => validated b = true) (high ++ nr :: below) ->
  exists c', advance_root_to (b_id nr) (logged (reverse below ++ [nr]) c) = (Ok tt, c')
    /\ advanced c' (bsh nr) (b_num nr).
Proof.
  intros Hb El Hv. destruct Hfl as [Hp Hf Hva Hc]. pose proof (fo_tree _ _ _ _ _ _ Hf) as Ht.
  destruct (pos_state _ _ _ _ _ _ Hp) as (u & Hr & Hu).
  pose proof (branch_suffix _ _ Ht _ _ _ _ Hb) as Hlow. pose proof (branch_elem _ _ Ht _ _ nr Hlow ltac:(left)) as Hnr.
  pose proof (numbered_branch _ _ _ _ Ht Hlow) as Hnum. rewrite reverse_cons in Hnum.
  rewrite (logged_eq _ _ _ c Hnum). set (c1 := set_chainbase _ _ _ _).
  rewrite <- El, fmap_app, fmap_cons in Hr. pose proof Hr as Hr'.
  apply replay_rebase in Hr' as (d1 & fm1 & u1 & uh & E1 & E2 & -> & Hlen).
  assert (Forall (fun b => validated b = true) (nr :: below)) as Hvl by (by apply Forall_app in Hv as [_ ?]).
  assert (desc (index (fork_db c)) (b_id nr) (b_id h)) as Hd.
  { replace (b_id h) with (bhs_id (tip r l)) by (unfold b_id; by rewrite Hhead, (pos_head _ _ _ _ _ _ Hp)). by eapply branch_reaches. }
  destruct (forks_rebase r d0 fm0 (fork_db c) rb h nr below d1 fm1 u1 Hf Hlow) as (f' & Ea & Hf' & Hchar);
    [by apply Forall_cons in Hvl as [? _]|done|done|].
  unfold advance_root_to, bind, get_state. change (fork_db c1) with (fork_db c). rewrite (fo_root _ _ _ _ _ _ Hf), bool_decide_false.
  2:{ intros E. rewrite E, (tr_root _ _ Ht) in Hnr. done. }
  unfold in_fork_db, zoom. change (fork_db c1) with (fork_db c). rewrite Ea. eexists. split; [done|].
  assert (chained r ((bsh <$> high) ++ bsh nr :: (bsh <$> below))) as Hcl by (by rewrite <- fmap_cons, <- fmap_app, El).
  pose proof (branch_num _ _ Ht _ _ _ Hlow) as Nn.
  pose proof (tip_above high nr below Hb El) as Nt.
  constructor.
  - exists d1, fm1, nr, (bsh <$> high), []. split; [|split; [|done]].
    + apply (replay_ok r d0 fm0 base_ok (bsh nr :: (bsh <$> below)) _ _ u1); [by apply chained_app in Hcl|done].
    + split; cbn; [constructor; cbn| |..].
      * rewrite (pos_head _ _ _ _ _ _ Hp), <- El, fmap_app, fmap_cons, tip_rebase. done.
      * exists uh. split; [done|]. rewrite (pos_revision _ _ _ _ _ _ Hp), Hu, Nt, app_nil_r, <- app_assoc.
        rewrite take_app_length'; [done|rewrite Hlen, length_fmap; lia].
      * rewrite (pos_revision _ _ _ _ _ _ Hp), <- El, fmap_app, fmap_cons, tip_rebase. done.
      * rewrite (pos_rows _ _ _ _ _ _ Hp), <- El, fmap_app, fmap_cons. by apply (rows_filter r).
      * apply Hp.
      * apply Hp.
      * done.
      * intros b (x & -> & Hx)%list_elem_of_fmap.
        assert (x ∈ high ++ nr :: below) as Hx' by (apply elem_of_app; by left).
        exists x. split; [|split; [done|rewrite Forall_forall in Hv; auto]]. apply Hchar.
        apply list_elem_of_split in Hx as (l1 & l3 & ->). rewrite <- app_assoc in Hb. cbn [app] in Hb.
        pose proof (branch_suffix _ _ Ht _ _ _ _ Hb) as Hbx.
        pose proof (branch_cut _ _ nr (b_id nr) (index f') _ (x :: l3) below Ht Hnr Hchar Hbx) as Hcut.
        apply branch_inv in Hcut as [[_ ?]|(y & l4 & [= <- <-] & Hi' & _)]; [done|]. by apply Hchar.
      * by apply chained_rebase in Hcl.
  - destruct Hlog as [_ Hlen']. unfold log_ok. cbn [c1 blog set_fork_db set_chainbase set_reversible set_blog log_blocks first_block_num].
    rewrite reverse_snoc, reverse_involutive, fmap_cons. cbn [app]. split; [done|]. cbn [length].
    rewrite length_app, length_fmap. change (num (bsh nr)) with (b_num nr). rewrite Nn. cbn [length].
    rewrite <- (fo_bsh _ _ _ _ _ _ Hf) in Hlen'. change (num (bsh rb)) with (b_num rb) in Hlen'. lia.
  - intros k b Hk. by apply Hchar in Hk as [? _].
  - intros U [HU _]. split; [intros k b Hk; apply Hchar in Hk as [? _]; eauto|].
    intros rb' Hrb. cbn [fork_db set_fork_db] in Hrb. rewrite (fo_root _ _ _ _ _ _ Hf') in Hrb. injection Hrb as <-. eauto.
  - cbn. done.
Qed.

(** The number of the new root. *)
Definition new_root_num : Z := Z.max (num r) (Z.min (b_lib h) (num (c_head c))).

Lemma advanced_refl : new_root_num = num r -> advanced c r new_root_num.
Proof.
  intros E. constructor; [|done..]. exists d0, fm0, rb, l, rest. done.
Qed.

Lemma log_irreversible_ok : exists c' r', log_irreversible c = (Ok tt, c') /\ advanced c' r' new_root_num.
Proof.
  pose proof Hfl as [Hp Hf Hva Hc]. pose proof (fo_tree _ _ _ _ _ _ Hf) as Ht.
  destruct (valid_branch _ _ _ _ _ _ _ Hf Hc Hva) as (lb & Hlb & El & Hvl).
  unfold log_irreversible, bind at 1, get_state. rewrite (fo_root _ _ _ _ _ _ Hf).
  assert (match hd_error (log_blocks (blog c)) with
          | Some h => num h | None => u32 (first_block_num (blog c) - 1) end = num r) as ->
    by (destruct Hlog as [Hl _]; by destruct (log_blocks _); [|destruct Hl]).
  unfold bind at 1, lift at 1. replace (eos_assert _ _) with (@Ok unit tt).
  2:{ destruct Hlog as [Hl _]. unfold b_id, b_num. rewrite (fo_bsh _ _ _ _ _ _ Hf). destruct (log_blocks (blog c)); cbn.
      - change (block_num (common r)) with (num r). by rewrite Z.eqb_refl.
      - destruct Hl as [-> _]. by rewrite bool_decide_true. }
  replace (match read_mode c with IRREVERSIBLE => _ | _ => _ end) with (@Ok (option block_state) (Some h)).
  2:{ destruct (pos_mode _ _ _ _ _ _ Hp) as (_ & Hm & _). rewrite (fo_head _ _ _ _ _ _ Hf). by destruct (read_mode c). }
  unfold bind at 1, lift at 1. destruct (Z.leb_spec (b_lib h) (num r)) as [Hle|Hgt].
  { exists c, r. split; [done|]. apply advanced_refl. unfold new_root_num. lia. }
  assert (b_id h = bhs_id (tip r l)) as Eh by (unfold b_id; by rewrite Hhead, (pos_head _ _ _ _ _ _ Hp)).
  unfold bind at 1, lift at 1. rewrite Eh, (fetch_branch_spec _ _ _ _ (b_lib h) Ht Hlb).
  destruct (filter_suffix (b_lib h) lb) as (high & low & -> & -> & Hhigh & Hlow); [by eapply branch_descending|].
  assert (b_num rb = num r) as Nr by (unfold b_num, num; by rewrite (fo_bsh _ _ _ _ _ _ Hf)).
  assert (num (c_head c) = b_num rb + Z.of_nat (length (high ++ low))) as Nh.
  { rewrite (pos_head _ _ _ _ _ _ Hp), <- El. destruct (high ++ low) as [|x lb]; [cbn; lia|].
    apply (branch_num _ _ Ht _ _ _ Hlb). }
  destruct low as [|nr below].
  - assert (high = []) as ->.
    { destruct high as [|x high _] using rev_ind; [done|]. rewrite app_nil_r in Hlb. exfalso.
      pose proof (branch_num _ _ Ht _ _ _ (branch_suffix _ _ Ht _ _ _ _ Hlb)) as Nx.
      apply Forall_app in Hhigh as [_ Hx]. apply Forall_cons in Hx as [Hx _]. cbn in Nx. lia. }
    exists c, r. split; [|apply advanced_refl; unfold new_root_num; cbn in Nh; lia].
    cbn. unfold advance_root_to, bind, get_state. by rewrite (fo_root _ _ _ _ _ _ Hf), bool_decide_true.
  - pose proof (branch_suffix _ _ Ht _ _ _ _ Hlb) as Hbl. pose proof (branch_num _ _ Ht _ _ _ Hbl) as Nn.
    destruct (advance_to high nr below Hlb El Hvl) as (c' & Ea & Hadv).
    exists c', (bsh nr). rewrite reverse_cons, (log_loop_ok _ (b_num rb)).
    + rewrite last_snoc. split; [done|]. replace new_root_num with (b_num nr); [done|].
      apply Forall_cons in Hlow as [Hnr _]. rewrite length_app in Nh. unfold new_root_num.
      destruct high as [|x high _] using rev_ind; [cbn [length] in *; lia|].
      rewrite <- app_assoc in Hlb. pose proof (branch_num _ _ Ht _ _ _ (branch_suffix _ _ Ht _ _ _ _ Hlb)) as Nx.
      apply Forall_app in Hhigh as [_ Hx]. apply Forall_cons in Hx as [Hx _]. rewrite length_app in Nh. cbn [length] in *. lia.
    + apply Hp.
    + rewrite <- reverse_cons. by eapply numbered_branch.
    + destruct Hlog as [_ ->]. lia.
Qed.
End Log.
End Irreversible.

(** ** push_block *)

Section Push.
Context {fc : Fc} {runner : BlockRunner fc} {laws : BlockRunnerLaws fc runner}.

Section Root.
Context (r : block_header_state) (d0 : chainbase) (fm0 : features).

(** A block state as the header validation delivers it. *)
Record incoming (f : fork_database) (n : block_state) : Prop := {
  in_links : forall rb p, root f = Some rb -> node_at (index f) rb (b_prev n) p -> links (bsh p) (bsh n);
  in_id : id_ok n;
  in_new : validated n = false;
  in_num : b_num n <= max_block_num
}.

(** Adding a block to validate. *)
Lemma add_forks f rb h n :
  forks_ok r d0 fm0 f rb h -> incoming f n ->
  (exists e, add (Some n) false f = (Throw e, f) /\ is_fc e = true)
  \/ (index f !! b_id n = None /\ exists f' h', add (Some n) false f = (Ok tt, f') /\ forks_ok r d0 fm0 f' rb h'
      /\ index f' = <[b_id n := n]> (index f)).
Proof.
  intros Hf [Hlinks [Hid Hprev] Hv Hm]. pose proof (fo_tree _ _ _ _ _ _ Hf) as Ht.
  destruct (decide (b_prev n = b_id rb \/ is_Some (index f !! b_prev n))) as [Hlink|Hno].
  2:{ left. exists unlinkable_block_exception. split; [|done].
      unfold add, add_impl, bind, get_state, lift, get_block_header. rewrite (fo_root _ _ _ _ _ _ Hf).
      rewrite bool_decide_true by done. cbn [eos_assert]. rewrite bool_decide_false by (intros E; apply Hno; by left).
      destruct (index f !! b_prev n) eqn:E; [destruct Hno; right; eauto|done]. }
  assert (extends f n) as Hext.
  { intros rb' Hrb. rewrite (fo_root _ _ _ _ _ _ Hf) in Hrb. injection Hrb as <-.
    destruct (fo_root_id _ _ _ _ _ _ Hf) as [Hri _]. split_and!.
    - intros E. rewrite E, Hri in Hid. destruct Hlink as [El|[p Hp]].
      + rewrite El, Hri in Hprev. lia.
      + destruct (fo_ids _ _ _ _ _ _ Hf _ _ Hp) as [Hpi _]. rewrite (tr_keyed _ _ Ht _ _ Hp) in Hpi.
        pose proof (tr_above _ _ Ht _ _ Hp). lia.
    - intros El. rewrite El, Hri in Hprev. lia.
    - intros p Hp. destruct (fo_ids _ _ _ _ _ _ Hf _ _ Hp) as [Hpi _]. rewrite (tr_keyed _ _ Ht _ _ Hp) in Hpi. lia. }
  destruct (add_spec n false f rb h) as [(E & Hn & Hp)|[(_ & E)|(Hnew & h' & E & Ht' & Hh' & Hflag)]];
    try apply Hf; try done.
  - left. eauto.
  - left. eauto.
  - right. split; [done|]. eexists _, h'. split; [done|]. split; [|done].
    constructor; cbn [root head index]; try done; try apply Hf.
    + destruct Hflag as [->|?]; [apply Hf|done].
    + intros k b [[<- <-]|[_ Hb]]%lookup_insert_Some; [done|by apply (fo_ids _ _ _ _ _ _ Hf k)].
    + intros k b [[<- <-]|[_ Hb]]%lookup_insert_Some; [done|by apply (fo_nums _ _ _ _ _ _ Hf k)].
    + destruct (Hext rb (fo_root _ _ _ _ _ _ Hf)) as (Hne & _).
      intros k b p [[<- <-]|[_ Hb]]%lookup_insert_Some Hp.
      * apply (Hlinks rb); [apply Hf|]. destruct Hp as [?|[[E' _]|[_ Hp]]%lookup_insert_Some]; [by left| |by right].
        rewrite <- E', Hid in Hprev. lia.
      * apply (fo_links _ _ _ _ _ _ Hf _ _ _ Hb). destruct Hp as [?|[[E' _]|[_ Hp]]%lookup_insert_Some]; [by left| |by right].
        exfalso. destruct (tr_linked _ _ Ht _ _ Hb) as [[El _]|[q Hq]]; congruence.
    + intros k b [[<- <-]|[_ Hb]]%lookup_insert_Some Hvb; [congruence|].
      destruct (fo_valid _ _ _ _ _ _ Hf _ _ Hb Hvb) as (l & Hl & Hvl & Hr). exists l. split; [|done].
      clear -Hl Hnew. induction Hl as [|k x l Hk _ IH]; [constructor|]. econstructor; [|done].
      rewrite lookup_insert_ne; [done|]. congruence.
Qed.

(** The block chosen by pending_head. *)
Definition chosen (f : fork_database) (h n : block_state) : Prop :=
  (n = h \/ (index f !! b_id n = Some n /\ validated n = false /\ first_preferred n h = true))
  /\ forall k b, index f !! k = Some b -> validated b = false -> first_preferred b n = false.

Lemma chosen_node f rb h n : forks_ok r d0 fm0 f rb h -> chosen f h n ->
  bsh n = bsh rb \/ index f !! b_id n = Some n.
Proof.
  intros Hf [[->|(? & _)] _]; [|by right].
  destruct (fo_head_ok _ _ _ _ _ _ Hf) as [[E|(b & Hb & Hs & Hv)] _]; [by left|right].
  rewrite Hb. f_equal. pose proof (fo_flag _ _ _ _ _ _ Hf). destruct b, h; cbn in *. congruence.
Qed.

(** Once the branch of the chosen block is marked valid, the block is the head,
    and no block is preferred to it. *)
Lemma chosen_becomes_head f f' rb h h' n ids lb :
  forks_ok r d0 fm0 f rb h -> forks_ok r d0 fm0 f' rb h' -> chosen f h n ->
  branch (index f) rb (b_id n) lb -> (forall k, k ∈ ids -> k ∈ b_id <$> lb) ->
  marked ids (index f) (index f') -> head_moved f f' h h' ->
  (forall b, index f !! b_id n = Some b -> exists b', index f' !! b_id n = Some b' /\ validated b' = true) ->
  bsh h' = bsh n /\ forall k b, index f' !! k = Some b -> first_preferred b h' = false.
Proof.
  intros Hf Hf' [Hn Hbest] Hb Hids Hmk Hmv Hval. pose proof (fo_tree _ _ _ _ _ _ Hf) as Ht.
  assert (bsh h' = bsh n) as Eh.
  { destruct Hmv as [->|(Hp & x & Hx & Hsx & Hvx)].
    - destruct Hn as [->|(Hn & Hvn & Hpn)]; [done|]. exfalso.
      destruct (Hval _ Hn) as (n' & Hn' & Hvn'). destruct (fo_head_ok _ _ _ _ _ _ Hf') as [_ Hbest'].
      specialize (Hbest' _ _ Hn' Hvn'). destruct (marked_lookup _ _ _ _ _ Hmk Hn) as (n2 & Hn2 & Hs2 & _).
      rewrite Hn' in Hn2. injection Hn2 as <-. unfold first_preferred, b_lib, b_num in *. rewrite Hs2 in Hbest'. congruence.
    - destruct (mk_new _ _ _ Hmk _ _ Hx Hvx) as [Hk|(b & Hbf & Hvb)].
      2:{ exfalso. destruct (fo_head_ok _ _ _ _ _ _ Hf) as [_ Hbh]. specialize (Hbh _ _ Hbf Hvb).
          pose proof (mk_headers _ _ _ Hmk (b_id h')) as Eb. rewrite Hx, Hbf in Eb. injection Eb as Eb.
          rewrite Hsx in Eb. unfold first_preferred, b_lib, b_num in *. rewrite <- Eb in Hbh. congruence. }
      apply Hids, list_elem_of_fmap in Hk as (y & Ey & Hy). pose proof (branch_elem _ _ Ht _ _ _ Hb Hy) as Hiy.
      pose proof (mk_headers _ _ _ Hmk (b_id h')) as Eb. rewrite Hx, Ey, Hiy in Eb. injection Eb as Eb. rewrite Hsx in Eb.
      destruct (validated y) eqn:Hvy.
      { exfalso. destruct (fo_head_ok _ _ _ _ _ _ Hf) as [_ Hbh]. specialize (Hbh _ _ Hiy Hvy).
        unfold first_preferred, b_lib, b_num in *. rewrite <- Eb in Hbh. congruence. }
      specialize (Hbest _ _ Hiy Hvy). destruct Hn as [->|(Hn & Hvn & Hpn)].
      { exfalso. unfold first_preferred, b_lib, b_num in *. rewrite <- Eb in Hbest. congruence. }
      destruct Hb as [|k z lb Hz Hb]; [by apply elem_of_nil in Hy|]. rewrite Hn in Hz. injection Hz as <-.
      apply elem_of_cons in Hy as [->|Hy]; [done|]. exfalso.
      pose proof (branch_descending _ _ Ht _ _ (branch_cons _ _ _ _ _ Hn Hb)) as Hs.
      apply StronglySorted_inv in Hs as [_ Hs]. rewrite Forall_forall in Hs. specialize (Hs _ Hy). cbn in Hs.
      destruct (Hval _ Hn) as (n' & Hn' & Hvn'). destruct (fo_head_ok _ _ _ _ _ _ Hf') as [_ Hbest'].
      specialize (Hbest' _ _ Hn' Hvn'). destruct (marked_lookup _ _ _ _ _ Hmk Hn) as (n2 & Hn2 & Hs2 & _).
      rewrite Hn' in Hn2. injection Hn2 as <-. unfold first_preferred, b_lib, b_num in *. rewrite Eb, Hs2 in Hbest'.
      bprop. apply andb_false_iff in H0 as [?|?], H2 as [?|?]; bprop; lia. }
  split; [done|]. intros k b Hkb. destruct (validated b) eqn:Hvb.
  { destruct (fo_head_ok _ _ _ _ _ _ Hf') as [_ Hbest']. eauto. }
  pose proof (mk_headers _ _ _ Hmk k) as Eb. rewrite Hkb in Eb. destruct (index f !! k) as [b0|] eqn:Hb0; [|done].
  injection Eb as Eb. assert (first_preferred b0 n = false) as Hp.
  { apply (Hbest k); [done|]. destruct (validated b0) eqn:Hv0; [|done].
    destruct (marked_lookup _ _ _ _ _ Hmk Hb0) as (b2 & Hb2 & _ & Hv2). rewrite Hkb in Hb2. injection Hb2 as <-.
    rewrite Hv2 in Hvb; done. }
  unfold first_preferred, b_lib, b_num in *. by rewrite Eb, Eh.
Qed.
End Root.

(** What holds of the controller between blocks: its state is the replay, from
    the state of the root, of the branch of its head; every block marked valid
    replays; the block log ends at the root. *)
Definition chain_inv (c : controller) : Prop :=
  exists r d0 fm0 rb h l rest, state_ok (num r) d0 fm0 /\ follows r d0 fm0 c rb h l rest /\ log_ok c r.

(** The head is the fork database's, and no known block is preferred to it. *)
Definition at_best (c : controller) : Prop :=
  exists h, head (fork_db c) = Some h /\ bsh h = c_head c
    /\ forall k b, index (fork_db c) !! k = Some b -> first_preferred b h = false.

(** Everything but the fork database and the unapplied transactions. *)
Definition restored (c c' : controller) : Prop :=
  c' = set_unapplied (unapplied_transactions c') (set_fork_db (fork_db c') c).

Lemma positioned_restored r d0 fm0 c c' l rest :
  positioned r d0 fm0 c l rest -> positioned r d0 fm0 c' l rest -> keeps_log c c' -> restored c c'.
Proof.
  intros [H1 (u & H2 & H3) H4 H5 H6 _] [G1 (u' & G2 & G3) G4 G5 G6 _] (K1 & K2 & K3 & K4 & K5).
  rewrite H2 in G2. injection G2 as Ed Ef Eu. apply controller_eq; cbn; congruence.
Qed.

Lemma switched_logs r d0 fm0 c c1 rb h n l rest todo lb :
  state_ok (num r) d0 fm0 -> forks_ok r d0 fm0 (fork_db c) rb h -> log_ok c r -> chosen (fork_db c) h n ->
  branch (index (fork_db c)) rb (b_id n) lb -> (forall x, x ∈ todo -> x ∈ lb) -> l = bsh <$> lb ->
  switched r d0 fm0 rb rest c c1 h todo l ->
  exists c', log_irreversible c1 = (Ok tt, c') /\ chain_inv c' /\ at_best c' /\ c_head c' = bsh n
    /\ forall U, covered U (fork_db c) -> covered U (fork_db c').
Proof.
  intros Hok Hf Hlog Hch Hb Hin -> (h1 & Hp1 & Hf1 & Hv1 & Hmk & Hmv & Hk).
  pose proof (branch_chained _ _ _ _ _ _ _ _ Hf Hb) as (Hc & _ & _).
  assert (Htip : tip r (bsh <$> lb) = bsh n).
  { destruct (chosen_node _ _ _ _ _ _ _ Hf Hch) as [E|Hn].
    - apply branch_inv in Hb as [[_ ->]|(x & l & -> & Hx & _)]; [cbn; by rewrite E, (fo_bsh _ _ _ _ _ _ Hf)|].
      apply bsh_eq in E as (E & _). rewrite E, (tr_root _ _ (fo_tree _ _ _ _ _ _ Hf)) in Hx. done.
    - apply branch_inv in Hb as [[E ->]|(x & l & -> & Hx & _)].
      + rewrite E, (tr_root _ _ (fo_tree _ _ _ _ _ _ Hf)) in Hn. done.
      + rewrite Hn in Hx. injection Hx as <-. done. }
  destruct (chosen_becomes_head r d0 fm0 (fork_db c) (fork_db c1) rb h h1 n (b_id <$> todo) lb) as [Eh Hbest]; try done.
  { intros k (x & -> & Hx)%list_elem_of_fmap. apply list_elem_of_fmap_2. auto. }
  { intros b Hbn. apply branch_inv in Hb as [[E ->]|(x & lb' & -> & Hx & _)].
    - rewrite E, (tr_root _ _ (fo_tree _ _ _ _ _ _ Hf)) in Hbn. done.
    - rewrite Hx in Hbn. injection Hbn as <-. destruct (Hv1 (bsh x)) as (p & Hp & _ & Hvp); [left|].
      exists p. split; [|done]. rewrite fmap_cons in Htip. cbn in Htip. unfold b_id. rewrite <- Htip. done. }
  assert (log_ok c1 r) as Hlog1 by (unfold log_ok; destruct Hk as (-> & _); done).
  assert (bsh h1 = c_head c1) as Eh1 by (by rewrite Eh, (pos_head _ _ _ _ _ _ Hp1), Htip).
  destruct (log_irreversible_ok r d0 fm0 c1 rb h1 (bsh <$> lb) rest Hok) as (c' & r' & E & Hadv); try done.
  destruct Hadv as [(d0' & fm0' & rb' & l' & rest' & Hok' & Hfl' & _) Hlog' Hidx Hcov (_ & _ & Hhd & _)].
  exists c'. split; [done|]. split; [by exists r', d0', fm0', rb', h1, l', rest'|]. split; [|split].
  - exists h1. split; [apply Hfl'|]. split; [by rewrite Hhd|]. eauto.
  - by rewrite Hhd, <- Eh1.
  - intros U [HU1 HU2]. apply Hcov. split.
    + intros k b Hkb. pose proof (mk_headers _ _ _ Hmk k) as Ek. rewrite Hkb in Ek.
      destruct (index (fork_db c) !! k) as [y|] eqn:Ey; [|done]. injection Ek as ->. eauto.
    + intros x Hx. apply HU2. rewrite (fo_root _ _ _ _ _ _ Hf). by rewrite (fo_root _ _ _ _ _ _ Hf1) in Hx.
Qed.

Lemma branch_app_desc i rb k l1 l2 : branch i rb k (l1 ++ l2) -> exists k2, branch i rb k2 l2 /\ desc i k2 k.
Proof.
  revert k. induction l1 as [|b l1 IH]; intros k Hb; [exists k; split; [done|constructor]|].
  apply branch_inv in Hb as [[_ ?]|(x & l & [= <- <-] & Hk & Hb)]; [done|].
  destruct (IH _ Hb) as (k2 & Hk2 & Hd). exists k2. split; [done|]. by eapply desc_step.
Qed.

Section MaybeSwitch.
Context (r : block_header_state) (d0 : chainbase) (fm0 : features).
Context (c : controller) (rb h n : block_state) (l : list block_header_state) (rest : list chainbase).
Context (Hok : state_ok (num r) d0 fm0) (Hfl : follows r d0 fm0 c rb h l rest) (Hlog : log_ok c r).
Context (Hch : chosen (fork_db c) h n).

(** The switch failed: the controller is back on its branch, without the block
    that threw and those built on it. *)
Definition switch_failed (c' : controller) : Prop :=
  restored c c' /\ exists h' b, follows r d0 fm0 c' rb h' l rest /\ log_ok c' r
    /\ dropped (fork_db c) (fork_db c') b /\ validated b = false /\ index (fork_db c) !! b_id b = Some b
    /\ desc (index (fork_db c)) (b_id b) (b_id n).

Lemma head_num : num_from_id (bhs_id (c_head c)) = num (c_head c) /\ b_num rb <= num (c_head c).
Proof.
  destruct Hfl as [Hp Hf Hv _]. rewrite (pos_head _ _ _ _ _ _ Hp). destruct l as [|x l']; cbn [tip].
  - rewrite <- (fo_bsh _ _ _ _ _ _ Hf). split; [apply (fo_root_id _ _ _ _ _ _ Hf)|unfold b_num, num; lia].
  - destruct (Hv x) as (p & Hpx & <- & _); [left|].
    split; [apply (fo_ids _ _ _ _ _ _ Hf _ _ Hpx)|].
    pose proof (tr_above _ _ (fo_tree _ _ _ _ _ _ Hf) _ _ Hpx). unfold b_num, num in *. lia.
Qed.

Lemma chosen_node_at : node_at (index (fork_db c)) rb (b_id n) n.
Proof.
  destruct Hfl as [_ Hf _ _]. destruct (chosen_node _ _ _ _ _ _ _ Hf Hch) as [E|Hn]; [left|by right].
  assert (n = rb) as ->; [|done]. destruct Hch as [[->|(Hn & _)] _].
  - pose proof (fo_flag _ _ _ _ _ _ Hf). pose proof (fo_root_flag _ _ _ _ _ _ Hf). destruct h, rb; cbn in *. congruence.
  - apply bsh_eq in E as (E & _). rewrite E, (tr_root _ _ (fo_tree _ _ _ _ _ _ Hf)) in Hn. done.
Qed.

Lemma stay_at_head : b_id n = bhs_id (c_head c) -> bsh n = c_head c /\ n = h.
Proof.
  intros E. destruct Hfl as [Hp Hf Hv _]. pose proof (tr_root _ _ (fo_tree _ _ _ _ _ _ Hf)) as Hroot.
  pose proof (chosen_node _ _ _ _ _ _ _ Hf Hch) as Hn. rewrite (pos_head _ _ _ _ _ _ Hp) in E |- *.
  destruct l as [|x l']; cbn [tip] in *.
  - rewrite <- (fo_bsh _ _ _ _ _ _ Hf) in E |- *. change (bhs_id (bsh rb)) with (b_id rb) in E.
    destruct Hn as [Hn|Hn]; [|rewrite E in Hn; congruence]. split; [done|].
    destruct Hch as [[?|(Hi & _)] _]; [done|]. rewrite E in Hi. congruence.
  - destruct (Hv x) as (p & Hpx & Hs & Hvp); [left|]. rewrite <- E in Hpx.
    destruct Hn as [Hn|Hn]; [apply bsh_eq in Hn as (Hn & _); rewrite Hn in Hpx; congruence|].
    rewrite Hn in Hpx. injection Hpx as <-. split; [done|].
    destruct Hch as [[?|(_ & Hv' & _)] _]; congruence.
Qed.

Lemma maybe_switch_forks_ok :
  (exists c', maybe_switch_forks n Features.complete c = (Ok tt, c') /\ chain_inv c' /\ at_best c' /\ c_head c' = bsh n
     /\ forall U, covered U (fork_db c) -> covered U (fork_db c'))
  \/ (exists e c', maybe_switch_forks n Features.complete c = (Throw e, c') /\ is_fc e = true /\ switch_failed c')
  \/ (exists c', maybe_switch_forks n Features.complete c = (Throw undefined_behavior, c')
      /\ b_prev n <> bhs_id (c_head c) /\ b_id n <> bhs_id (c_head c)
      /\ desc (index (fork_db c)) (bhs_id (c_head c)) (b_id n)).
Proof.
  pose proof Hfl as [Hp Hf Hv Hc]. pose proof (fo_tree _ _ _ _ _ _ Hf) as Ht. pose proof head_num as [Hn1 Hn2].
  unfold maybe_switch_forks, bind at 1 4 7, get_state. case_bool_decide as Hprev; [|case_bool_decide as Hne].
  - destruct chosen_node_at as [[_ E]|Hn].
    { exfalso. destruct (fo_root_id _ _ _ _ _ _ Hf) as [_ Hpi]. rewrite E in Hprev. rewrite Hprev in Hpi. lia. }
    destruct (extend_head_ok r d0 fm0 Hok c rb h l rest n _ Hfl Hn Hprev eq_refl) as
      [(c1 & E1 & Hsw)|(e & c' & E1 & He & Hvn & Hfl' & Hd & Hk)].
    + left. destruct (valid_branch _ _ _ _ _ _ _ Hf Hc Hv) as (lb & Hlb & El & _).
      destruct (switched_logs r d0 fm0 c c1 rb h n (bsh n :: l) rest [n] (n :: lb)) as (c' & E2 & Hinv); try done.
      * econstructor; [done|]. by rewrite Hprev, (pos_head _ _ _ _ _ _ Hp).
      * intros x ->%list_elem_of_singleton. left.
      * by rewrite fmap_cons, El.
      * exists c'. unfold bind. by rewrite E1.
    + right; left. exists e, c'. unfold bind. rewrite E1. split; [done|]. split; [done|].
      split; [eapply positioned_restored; [done|apply Hfl'|done]|]. exists h, n.
      split; [done|]. split; [unfold log_ok; by destruct Hk as (-> & _)|]. do 3 (split; [done|]). constructor.
  - destruct (switch_branch_ok r d0 fm0 Hok c rb h l rest n Hfl chosen_node_at) as
      (l1 & l2 & common & Hb & El & [(c1 & E1 & Hsw)|(b & e & c' & Hbin & Hvb & E1 & H0 & H1)]).
    + left. destruct (switched_logs r d0 fm0 c c1 rb h n (bsh <$> l1 ++ common) rest (reverse l1) (l1 ++ common))
        as (c' & E2 & Hinv); try done.
      * intros x Hx. rewrite elem_of_reverse in Hx. apply elem_of_app. by left.
      * exists c'. unfold bind. by rewrite E1.
    + right. destruct (decide (l2 = [])) as [->|Hl2].
      * right. exists c'. unfold bind. rewrite E1, H0 by done. split; [done|]. split; [done|]. split; [done|].
        apply branch_app_desc in Hb as (k2 & Hk2 & Hd).
        destruct (branch_chained _ _ _ _ _ _ _ _ Hf Hk2) as (_ & Hid & _).
        rewrite fmap_nil in El. cbn [app] in El. rewrite (pos_head _ _ _ _ _ _ Hp), <- El, Hid. done.
      * left. exists e, c'. unfold bind. rewrite E1. destruct (H1 Hl2) as [He (h' & Hp' & Hf' & Hd & Hk & Hvk)].
        rewrite El in Hp'. split; [done|]. split; [done|].
        split; [by eapply positioned_restored|]. exists h', b. split; [constructor; try done|split; [|split; [done|split; [done|split]]]].
        -- auto.
        -- unfold log_ok. by destruct Hk as (-> & _).
        -- apply (branch_elem _ _ Ht _ _ _ Hb), elem_of_app. by left.
        -- apply list_elem_of_split in Hbin as (a1 & a2 & ->). rewrite <- app_assoc in Hb. cbn [app] in Hb.
           pose proof (branch_app_desc _ _ _ _ _ Hb) as (k2 & Hk2 & Hdk).
           apply branch_inv in Hk2 as [[_ ?]|(x & l' & [= <- <-] & Hx & _)]; [done|].
           by rewrite (tr_keyed _ _ Ht _ _ Hx).
  - left. exists c. split; [done|]. destruct (stay_at_head Hne) as [E ->].
    split; [by exists r, d0, fm0, rb, h, l, rest|]. split; [|by split]. exists h. split; [apply Hf|]. split; [done|].
    intros k b Hb. destruct (validated b) eqn:Hvb; [|by apply Hch in Hb]. destruct (fo_head_ok _ _ _ _ _ _ Hf). eauto.
Qed.
End MaybeSwitch.

(** *** Pushing one block *)

(** Light validation for a trusted producer's block ends with its push. *)
Lemma push_block_resets_light future c o c' : push_block future c = (o, c') ->
  trusted_producer_light_validation c' = trusted_producer_light_validation c.
Proof.
  unfold push_block, bind at 1, get_state at 1, bind at 1, lift at 1, reset_light_validation.
  destruct (eos_assert _ _); [|by intros [= _ <-]]. destruct (capture_and_rethrow _ c) as [o1 c1]. by intros [= _ <-].
Qed.

(** The scope of push_block when it trusts no producer: an exception it rethrows
    is an fc::exception already, and the flag is as it was. *)
Definition scoped (m : exec controller unit) : exec controller unit :=
  reset_light_validation false (capture_and_rethrow m).

Lemma scoped_ok m c o c' :
  m c = (o, c') -> match o with Ok _ => True | Throw e => is_fc e = true end -> chain_inv c' -> scoped m c = (o, c').
Proof.
  intros E Ho (r & d0 & fm0 & rb & h & l & rest & _ & Hfl & _).
  destruct (pos_mode _ _ _ _ _ _ (fl_position _ _ _ _ _ _ _ _ Hfl)) as (_ & _ & _ & Hlight).
  unfold scoped, reset_light_validation, capture_and_rethrow. rewrite E.
  destruct o as [[]|e]; [|rewrite (fc_rethrow_fc _ Ho)]; f_equal; by apply controller_eq.
Qed.

Lemma scoped_undefined m c c' :
  m c = (Throw undefined_behavior, c') -> scoped m c = (Throw undefined_behavior, set_light_validation false c').
Proof. intros E. unfold scoped, reset_light_validation, capture_and_rethrow. by rewrite E. Qed.

Lemma push_block_adds r d0 fm0 c rb h l rest n :
  follows r d0 fm0 c rb h l rest -> incoming (fork_db c) n ->
  (exists e, push_block (Ok n) c = (Throw e, c) /\ is_fc e = true)
  \/ exists f h1 m, index (fork_db c) !! b_id n = None /\ index f = <[b_id n := n]> (index (fork_db c))
      /\ follows r d0 fm0 (set_fork_db f c) rb h1 l rest /\ chosen f h1 m
      /\ push_block (Ok n) c = scoped (maybe_switch_forks m Features.complete) (set_fork_db f c).
Proof.
  intros [Hp Hf Hv Hc] Hn. pose proof (pos_mode _ _ _ _ _ _ Hp) as (_ & Hmode & Htp & Hlight).
  assert (push_block (Ok n) c =
    match add (Some n) false (fork_db c) with
    | (Ok _, f) =>
        match pending_head f with
        | Ok (Some m) => scoped (maybe_switch_forks m Features.complete) (set_fork_db f c)
        | Ok None => scoped (lift (Throw undefined_behavior)) (set_fork_db f c)
        | Throw e => scoped (lift (Throw e)) (set_fork_db f c)
        end
    | (Throw e, f) => scoped (lift (Throw e)) (set_fork_db f c)
    end) as ->.
  { unfold push_block, bind at 1, get_state at 1, bind at 1, lift at 1.
    rewrite (pos_pending _ _ _ _ _ _ Hp), bool_decide_true by done. cbn [eos_assert]. rewrite Hlight, Htp.
    unfold scoped, reset_light_validation, capture_and_rethrow. unfold bind at 1, lift at 1. unfold bind at 1.
    unfold in_fork_db, zoom. rewrite (bool_decide_false (_ ∈ ∅)) by set_solver. rewrite bool_decide_false by done.
    destruct (add (Some n) false (fork_db c)) as [[[]|e] f]; [|done]. unfold bind, ret, get_state, lift.
    cbn [fork_db set_fork_db]. by destruct (pending_head f) as [[m|]|e]. }
  destruct (add_forks r d0 fm0 _ _ _ n Hf Hn) as [(e & E & He)|(Hnew & f & h1 & E & Hf1 & Hi)]; rewrite E.
  - left. exists e. split; [|done]. unfold scoped, reset_light_validation, capture_and_rethrow, lift.
    rewrite (fc_rethrow_fc _ He). f_equal. by apply controller_eq.
  - right. destruct (pending_head_spec f h1) as (m & Em & Hch); [apply (fo_tree _ _ _ _ _ _ Hf1)|apply Hf1|].
    exists f, h1, m. split; [done|]. split; [done|]. split; [constructor|split; [done|]].
    + by apply positioned_fork_db.
    + done.
    + intros x Hx. destruct (Hv x Hx) as (p & Hpx & Hs & Hvp). exists p. split; [|done]. cbn [fork_db set_fork_db].
      rewrite Hi, lookup_insert_ne; [done|]. intros E'. rewrite E' in Hnew. congruence.
    + done.
    + by rewrite Em.
Qed.

(** No known block is built on the head. *)
Definition quiet (c : controller) : Prop :=
  forall k b, index (fork_db c) !! k = Some b -> b_prev b <> bhs_id (c_head c).

Lemma desc_child i a k : desc i a k -> k <> a -> exists k1 x, i !! k1 = Some x /\ b_prev x = a /\ desc i k1 k.
Proof.
  induction 1 as [|k b Hk Hd IH]; [done|]. intros _. destruct (decide (b_prev b = a)) as [E|Hne].
  - exists k, b. split; [done|]. split; [done|]. constructor.
  - destruct (IH Hne) as (k1 & x & Hx & Hp & Hd1). exists k1, x. split; [done|]. split; [done|]. by eapply desc_step.
Qed.

(** With nothing built on the head, the only block on top of it is the new one. *)
Lemma quiet_only_new r d0 fm0 c rb h l rest n f m :
  follows r d0 fm0 c rb h l rest -> incoming (fork_db c) n -> quiet c -> index (fork_db c) !! b_id n = None ->
  index f = <[b_id n := n]> (index (fork_db c)) -> node_at (index f) rb (b_id m) m ->
  desc (index f) (bhs_id (c_head c)) (b_id m) -> b_id m <> bhs_id (c_head c) -> b_prev m = bhs_id (c_head c).
Proof.
  intros Hfl [_ [Hid Hpn] Hvn Hm] Hq Hnew Hi Hmn Hd Hne. pose proof Hfl as [Hp Hf Hv Hc].
  pose proof (fo_tree _ _ _ _ _ _ Hf) as Ht. destruct (head_num r d0 fm0 c rb h l rest Hfl) as [H1 H2].
  destruct (desc_child _ _ _ Hd Hne) as (k1 & x & Hx & Hpx & Hdx). rewrite Hi in Hx.
  apply lookup_insert_Some in Hx as [[<- <-]|[_ Hx]]; [|by destruct (Hq _ _ Hx)].
  destruct (decide (b_id m = b_id n)) as [E|Hmne].
  - assert (m = n) as ->; [|done]. destruct Hmn as [[E' ->]|Hmi].
    + exfalso. destruct (fo_root_id _ _ _ _ _ _ Hf) as [Hri _]. rewrite <- E, Hri in Hid.
      rewrite Hpx, H1 in Hpn. lia.
    + rewrite Hi, E, lookup_insert_eq in Hmi. congruence.
  - exfalso. destruct (desc_child _ _ _ Hdx Hmne) as (k2 & y & Hy & Hpy & _). rewrite Hi in Hy.
    apply lookup_insert_Some in Hy as [[_ <-]|[_ Hy]].
    + rewrite Hpy, Hid in Hpn. lia.
    + destruct (tr_linked _ _ Ht _ _ Hy) as [[E' _]|[p E']].
      * destruct (fo_root_id _ _ _ _ _ _ Hf) as [Hri _]. rewrite E' in Hpy. rewrite <- Hpy, Hri in Hid.
        rewrite Hpx, H1 in Hpn. lia.
      * rewrite Hpy in E'. congruence.
Qed.

(** C2: push_block, on a controller whose state is the replay of the branch of its
    head, which is not replaying, not in irreversible mode and trusts no producer,
    ends in one of three ways.  It returns: the controller's head is then
    the fork database's, no known block is preferred to it, and its state -
    database, undo stack, revision, features, reversible blocks, block log - is
    again the replay of the head's branch.  Or it throws: the block was refused,
    or a block of the new branch failed and was removed, and the database, the
    undo stack, the features, the reversible blocks, the block log and the head
    are exactly as they were; the fork database, from which blocks were removed,
    and the unapplied transactions may differ.  The third way is undefined
    behaviour in the reversal of a failed switch, of which nothing is said but that
    it needs a block built on the head that is known and was not applied. *)
Theorem push_block_follows c n :
  chain_inv c -> incoming (fork_db c) n ->
  (exists c', push_block (Ok n) c = (Ok tt, c') /\ chain_inv c' /\ at_best c')
  \/ (exists e c', push_block (Ok n) c = (Throw e, c') /\ is_fc e = true /\ chain_inv c' /\ restored c c')
  \/ (exists c', push_block (Ok n) c = (Throw undefined_behavior, c') /\ ~ quiet c).
Proof.
  intros (r & d0 & fm0 & rb & h & l & rest & Hok & Hfl & Hlog) Hn.
  destruct (push_block_adds _ _ _ _ _ _ _ _ n Hfl Hn) as [(e & E & He)|(f & h1 & m & Hnew & Hi & Hfl1 & Hch & E)].
  { right; left. exists e, c. split; [done|]. split; [done|].
    split; [by exists r, d0, fm0, rb, h, l, rest|by apply controller_eq]. }
  rewrite E. destruct (maybe_switch_forks_ok r d0 fm0 (set_fork_db f c) rb h1 m l rest Hok Hfl1 Hlog Hch) as
    [(c' & E' & Hinv & Hbest & _)|[(e & c' & E' & He & Hres & h' & b & Hfl' & Hlog' & _)|(c' & E' & Hp & Hne & Hd)]].
  - left. exists c'. by rewrite (scoped_ok _ _ _ _ E').
  - assert (chain_inv c') as Hinv by (by exists r, d0, fm0, rb, h', l, rest).
    right; left. exists e, c'. by rewrite (scoped_ok _ _ _ _ E').
  - right; right. rewrite (scoped_undefined _ _ _ E'). eexists. split; [done|]. intros Hq. apply Hp.
    eapply (quiet_only_new _ _ _ c); try done. by apply (chosen_node_at _ _ _ _ _ _ _ _ _ Hfl1).
Qed.

(** *** Pushing many blocks *)

(** No known block is preferred to the head. *)
Definition settled (c : controller) : Prop :=
  forall k b, index (fork_db c) !! k = Some b -> first_preferred b (mk_block_state (c_head c) true) = false.

Lemma at_best_settled c : at_best c -> settled c.
Proof.
  intros (h & Hh & Es & Hbest) k b Hb. specialize (Hbest _ _ Hb). unfold first_preferred, b_lib, b_num in *.
  cbn [bsh]. by rewrite <- Es.
Qed.

Section Settled.
(** The headers of the chain, along which the irreversible number never
    decreases. *)
Context (U : block_header_state -> Prop).
Context (U_mono : forall x y, U x -> U y -> previous (bare_header (header x)) = bhs_id y ->
  dpos_irreversible_blocknum (common y) <= dpos_irreversible_blocknum (common x)).
Context (U_links : forall x y, U x -> U y -> previous (bare_header (header x)) = bhs_id y -> links y x).

Lemma settled_quiet r d0 fm0 c rb h l rest :
  follows r d0 fm0 c rb h l rest -> covered U (fork_db c) -> settled c -> quiet c.
Proof.
  intros Hfl [HU1 HU2] Hs k b Hb Hp. destruct (head_num _ _ _ _ _ _ _ _ Hfl) as [Hn _]. destruct Hfl as [Hpos Hf Hv _].
  destruct (fo_ids _ _ _ _ _ _ Hf _ _ Hb) as [_ Hid]. rewrite Hp, Hn in Hid.
  assert (U (c_head c)) as HUc.
  { rewrite (pos_head _ _ _ _ _ _ Hpos). destruct l as [|x l]; cbn [tip].
    - rewrite <- (fo_bsh _ _ _ _ _ _ Hf). apply HU2, Hf.
    - destruct (Hv x) as (p & Hpx & <- & _); [left|]. eauto. }
  pose proof (U_mono _ _ (HU1 _ _ Hb) HUc Hp) as Hle. specialize (Hs _ _ Hb).
  unfold first_preferred, b_lib, b_num, num in *. cbn [bsh] in Hs. bprop.
  apply andb_false_iff in H0 as [?|?]; bprop; lia.
Qed.

(** The block chosen from a settled database, when its branch fails, is the new
    one. *)
Lemma failed_is_new r d0 fm0 c rb h1 l rest f n m b :
  follows r d0 fm0 (set_fork_db f c) rb h1 l rest -> settled c -> quiet c -> chosen f h1 m ->
  index (fork_db c) !! b_id n = None -> root (fork_db c) = Some rb -> tree (index (fork_db c)) rb ->
  index f = <[b_id n := n]> (index (fork_db c)) -> index f !! b_id b = Some b -> validated b = false ->
  desc (index f) (b_id b) (b_id m) -> b_id m = b_id n.
Proof.
  intros [Hp Hf Hv _] Hs Hq [Hm _] Hnew Hroot Htr Hi Hb Hvb Hd. cbn [fork_db set_fork_db] in *.
  pose proof (fo_tree _ _ _ _ _ _ Hf) as Ht. destruct Hm as [->|(Hm & Hvm & Hpm)].
  { exfalso. destruct (fo_head_ok _ _ _ _ _ _ Hf) as [[E|(h' & Hh & _ & Hvh)] _].
    - apply bsh_eq in E as (E & _). rewrite E in Hd. apply desc_outside in Hd; [|apply (tr_root _ _ Ht)].
      rewrite <- Hd, (tr_root _ _ Ht) in Hb. done.
    - destruct (fo_valid _ _ _ _ _ _ Hf _ _ Hh Hvh) as (lx & Hlx & Hvx & _).
      pose proof (desc_on_branch _ _ _ _ _ _ Ht Hb Hd Hlx) as Hin. rewrite Forall_forall in Hvx.
      specialize (Hvx _ Hin). cbn in Hvx. congruence. }
  rewrite Hi in Hm. apply lookup_insert_Some in Hm as [[<- _]|[_ Hm]]; [done|]. exfalso.
  specialize (Hs _ _ Hm). destruct l as [|x l].
  - pose proof (pos_head _ _ _ _ _ _ Hp) as Hh. cbn in Hh.
    destruct (desc_child _ _ _ (tree_desc_root _ _ Htr _ _ Hm)) as (k1 & y & Hy & Hpy & _).
    { intros E. rewrite E, (tr_root _ _ Htr) in Hm. done. }
    apply (Hq _ _ Hy). rewrite Hh, Hpy. unfold b_id. by rewrite (fo_bsh _ _ _ _ _ _ Hf).
  - destruct (Hv x) as (p & Hpx & Hsx & Hvp); [left|]. destruct (fo_head_ok _ _ _ _ _ _ Hf) as [_ Hbest].
    specialize (Hbest _ _ Hpx Hvp). pose proof (pos_head _ _ _ _ _ _ Hp) as Hh. cbn in Hh.
    assert (first_preferred m p = false) as Hmp.
    { unfold first_preferred, b_lib, b_num in *. rewrite Hsx. cbn [bsh] in Hs. by rewrite Hh in Hs. }
    rewrite (first_preferred_neg_trans _ _ _ Hmp Hbest) in Hpm. done.
Qed.

Lemma push_settled c n :
  chain_inv c -> settled c -> covered U (fork_db c) -> incoming (fork_db c) n -> U (bsh n) ->
  exists o c', push_block (Ok n) c = (o, c') /\ chain_inv c' /\ settled c' /\ covered U (fork_db c')
    /\ match o with Ok _ => at_best c' | Throw e => is_fc e = true /\ restored c c' end.
Proof.
  intros (r & d0 & fm0 & rb & h & l & rest & Hok & Hfl & Hlog) Hs [HU1 HU2] Hn HUn.
  pose proof (settled_quiet _ _ _ _ _ _ _ _ Hfl (conj HU1 HU2) Hs) as Hq.
  destruct (push_block_adds _ _ _ _ _ _ _ _ n Hfl Hn) as [(e & E & He)|(f & h1 & m & Hnew & Hi & Hfl1 & Hch & E)].
  { exists (Throw e), c. split_and!; try done; [by exists r, d0, fm0, rb, h, l, rest|by apply controller_eq]. }
  assert (covered U f) as HUf.
  { split.
    - intros k b Hb. rewrite Hi in Hb. apply lookup_insert_Some in Hb as [[_ <-]|[_ Hb]]; eauto.
    - intros x Hx. apply HU2. pose proof (fo_root _ _ _ _ _ _ (fl_forks _ _ _ _ _ _ _ _ Hfl1)) as Hr1.
      rewrite (fo_root _ _ _ _ _ _ (fl_forks _ _ _ _ _ _ _ _ Hfl)). cbn in Hr1. congruence. }
  rewrite E. destruct (maybe_switch_forks_ok r d0 fm0 (set_fork_db f c) rb h1 m l rest Hok Hfl1 Hlog Hch) as
    [(c' & E' & Hinv & Hbest & _ & Hcov)|[(e & c' & E' & He & Hres & h' & b & Hfl' & Hlog' & Hdr & Hvb & Hb & Hd)
    |(c' & E' & Hp & Hne & Hd)]].
  - exists (Ok tt), c'. rewrite (scoped_ok _ _ _ _ E') by done. split_and!; try done; [by apply at_best_settled|by apply Hcov].
  - assert (chain_inv c') as Hinv by (by exists r, d0, fm0, rb, h', l, rest).
    exists (Throw e), c'. rewrite (scoped_ok _ _ _ _ E') by done. pose proof Hfl as [Hpos Hf _ _].
    assert (b_id m = b_id n) as Emn.
    { eapply (failed_is_new r d0 fm0 c rb h1 l rest f n m b); try done; apply Hf. }
    assert (forall k x, index (fork_db c') !! k = Some x -> exists y, index (fork_db c) !! k = Some y /\ bsh x = bsh y) as Hsub.
    { intros k x Hx. destruct (Hdr k) as [H1 H2]. cbn [fork_db set_fork_db] in H1, H2, Hd.
      assert (~ desc (index f) (b_id b) k) as Hnd by (intros Hdk; specialize (H1 Hdk); congruence).
      specialize (H2 Hnd). rewrite Hx, Hi, lookup_insert_ne in H2.
      - destruct (index (fork_db c) !! k) as [y|] eqn:Ey; [|done]. injection H2 as ->. eauto.
      - intros <-. apply Hnd. by rewrite <- Emn. }
    assert (c_head c' = c_head c) as Eh by (rewrite Hres; done).
    do 2 (split; [done|]). split; [|split; [split|done]].
    + intros k x Hx. destruct (Hsub _ _ Hx) as (y & Hy & Exy). rewrite Eh. specialize (Hs _ _ Hy).
      unfold first_preferred, b_lib, b_num in *. by rewrite Exy.
    + intros k x Hx. destruct (Hsub _ _ Hx) as (y & Hy & ->). eauto.
    + intros x Hx. rewrite (fo_root _ _ _ _ _ _ (fl_forks _ _ _ _ _ _ _ _ Hfl')) in Hx. injection Hx as <-.
      apply HU2, Hf.
  - exfalso. apply Hp. eapply (quiet_only_new _ _ _ c); try done. by apply (chosen_node_at _ _ _ _ _ _ _ _ _ Hfl1).
Qed.

(** The controller after a sequence of pushes, whose exceptions the caller
    catches, and what each push ended in. *)
Fixpoint push_all (ns : list block_state) (c : controller) : list (res unit) * controller :=
  match ns with
  | [] => ([], c)
  | n :: ns' =>
      let '(o, c') := push_block (Ok n) c in
      let '(os, c'') := push_all ns' c' in (o :: os, c'')
  end.

(** C1: however many blocks are pushed, in whatever order and on whatever forks,
    valid or not, on a node that is not replaying, is not in irreversible mode and
    trusts no producer, and provided that the irreversible number does not decrease
    from a block to one built on it: no push is undefined, each returns or throws
    an fc::exception, and after all of them the controller's state is the replay of
    the branch of its head and no block of the fork database is preferred to the
    head.  Without the proviso this fails: see
    [Examples.reversal_of_an_extension_undefined]. *)
Theorem pushes_settle ns c :
  chain_inv c -> settled c -> covered U (fork_db c) ->
  Forall (fun n => U (bsh n) /\ id_ok n /\ validated n = false /\ b_num n <= max_block_num) ns ->
  let '(os, c') := push_all ns c in
  chain_inv c' /\ settled c' /\ Forall (fun o => match o with Ok _ => True | Throw e => is_fc e = true end) os.
Proof.
  revert c. induction ns as [|n ns IH]; intros c Hinv Hs HU Hin; [done|].
  apply Forall_cons in Hin as [(HUn & Hid & Hv & Hm) Hin]. cbn [push_all].
  assert (incoming (fork_db c) n) as Hn.
  { constructor; try done. intros rb p Hr Hp. destruct HU as [HU1 HU2]. destruct Hinv as (? & ? & ? & rb' & ? & ? & ? & _ & Hfl & _).
    pose proof (fl_forks _ _ _ _ _ _ _ _ Hfl) as Hf. rewrite (fo_root _ _ _ _ _ _ Hf) in Hr. injection Hr as ->.
    destruct Hp as [[Hp ->]|Hp]; apply U_links; eauto; [apply HU2, Hf|].
    symmetry. apply (tr_keyed _ _ (fo_tree _ _ _ _ _ _ Hf) _ _ Hp). }
  destruct (push_settled c n Hinv Hs HU Hn HUn) as (o & c1 & E & Hinv1 & Hs1 & HU1 & Ho). rewrite E.
  specialize (IH c1 Hinv1 Hs1 HU1 Hin). destruct (push_all ns c1) as [os c'].
  destruct IH as (H1 & H2 & H3). split; [done|]. split; [done|]. constructor; [|done].
  destruct o; [done|apply Ho].
Qed.
End Settled.
End Push.

(** ** A concrete chain

    Executing a block records its number in the database; blocks of branch 9
    fail. *)

Module Examples.
Import Features Features.Examples ProtocolFeatures.Examples ProtocolFeatures.Manager.

Abbreviation toy_database := (Features.database
  (TL := gmap (bool * Z) ResourceLimits.Manager.resource_limits_object)
  (TU := gmap Z ResourceLimits.Manager.resource_usage_object) (TC := gmap Z account_ram_correction_object)).

(** The id of block [n] of branch [branch]. *)
Definition fork_id (n branch : Z) : digest_type := mk_digest (byte_swap_u32 n) branch 0 0.

Definition fork_block (n branch prev lib : Z) (v : bool) : block_state (fc := toy_fc) :=
  mk_block_state (fc := toy_fc)
    (mk_bhs (fc := toy_fc)
       (mk_common n lib lib toy_schedule empty_incremental_merkle ∅ ∅ (110 : @public_key toy_fc) [])
       (fork_id n branch)
       (mk_signed_header (@mk_header Z n 10 0 (fork_id (n - 1) prev) digest_zero digest_zero 0 None []) null_signature)
       (mk_schedule_info 0 digest_zero toy_schedule) ∅ [])
    v.

Definition toy_execute (light : bool) (h b : block_header_state (fc := toy_fc)) (s : block_status) (d : toy_database)
    : res toy_database * gset digest_type * list digest_type :=
  if _hash1 (bhs_id b) =? 9 then (Throw tx_duplicate, ∅, [])
  else (Ok (mk_database (pso d)
              (ResourceLimits.Manager.set_usage (<[num b := toy_usage (_hash1 (bhs_id b) mod 1000)]>
                 (ResourceLimits.Manager.usage (resource_limits d))) (resource_limits d))
              (ram_corrections d)), ∅, [bhs_id b]).

Definition toy_name_hash (s : string) : Z := Z.of_nat (String.length s).

#[local] Instance toy_runner : BlockRunner toy_fc :=
  feature_runner toy_name_hash true toy_execute (fun b => [bhs_id b]) (fun _ _ _ => ret tt) (fun _ => []).

Lemma toy_keeps : execute_keeps toy_execute.
Proof.
  intros light h b s d d' er tx. unfold toy_execute. destruct (_ =? 9); [done|]. intros [= <- _ _] Hnd Hfine.
  split; [|done]. destruct Hfine as [H1 H2 H3]. split; [done| |done]. intros id c Hc.
  destruct (H2 id c Hc) as (u & Hu & Hr).
  change (tbl_view (ResourceLimits.Manager.usage _)) with
    (<[num b := toy_usage (_hash1 (bhs_id b) mod 1000)]> (tbl_view (ResourceLimits.Manager.usage (resource_limits d)))).
  destruct (decide (correction_name c = num b)) as [->|Hne].
  - rewrite lookup_insert_eq. eexists. split; [done|]. cbn. pose proof (Z.mod_pos_bound (_hash1 (bhs_id b)) 1000). lia.
  - rewrite lookup_insert_ne by done. eauto.
Qed.

Lemma toy_fc_only : execute_fc toy_execute.
Proof. intros light h b s d e er tx. unfold toy_execute. destruct (_ =? 9); [by intros [= <- _ _]|done]. Qed.

Lemma toy_again : execute_again toy_execute.
Proof. intros light h b d d' er tx E. exists er, tx. exact E. Qed.

Lemma toy_rest_keeps : rest_keeps (fun _ _ _ => ret (S := toy_database) tt).
Proof. by intros h b s d d' [= <-]. Qed.

Lemma toy_rest_fc : rest_fc (fun _ _ _ => ret (S := toy_database) tt).
Proof. by intros h b s d r d' Hd [= <- <-]. Qed.

Lemma toy_rest_again : rest_again (fun _ _ _ => ret (S := toy_database) tt).
Proof. by intros h b d d'. Qed.

#[local] Instance toy_laws : BlockRunnerLaws toy_fc toy_runner :=
  feature_runner_laws toy_name_hash true toy_execute (fun b => [bhs_id b]) (fun _ _ _ => ret tt) (fun _ => [])
    toy_keeps toy_fc_only toy_again toy_rest_keeps toy_rest_fc toy_rest_again.

Definition toy_start_db : toy_database :=
  mk_database (mk_pso [] [] []) (ResourceLimits.Manager.initialize_database ∅ ∅) ∅.

Definition toy_controller : controller :=
  mk_controller (runner := toy_runner) toy_start_db [] 5 ∅ (mk_log 6 []) None (bsh (fork_block 5 0 0 3 true))
    (mk_fork_db ∅ (Some (fork_block 5 0 0 3 true)) (Some (fork_block 5 0 0 3 true)))
    (initialized_manager toy_set) ∅ SPECULATIVE false ∅ false.

(** Two blocks on the root, a longer branch, a bad block on top of it, and a
    branch from the first block that fails at its last. *)
Definition toy_blocks : list (block_state (fc := toy_fc)) :=
  [fork_block 6 1 0 4 false; fork_block 6 2 0 4 false; fork_block 7 2 2 4 false; fork_block 8 9 2 5 false;
   fork_block 7 3 1 4 false; fork_block 8 9 3 5 false; fork_block 8 2 2 5 false].

Lemma toy_pushes :
  fst (push_all toy_blocks toy_controller)
    = [Ok tt; Ok tt; Ok tt; Throw tx_duplicate; Ok tt; Throw tx_duplicate; Ok tt]
  /\ bhs_id (c_head (snd (push_all toy_blocks toy_controller))) = fork_id 8 2.
Proof. split; vm_refl. Qed.

Lemma toy_chain_inv : chain_inv toy_controller.
Proof.
  set (rb := fork_block 5 0 0 3 true).
  exists (bsh rb), toy_start_db, (initialized_manager toy_set), rb, rb, [], []. split; [|split].
  - split; [done|]. split; [constructor; intros id c *; cbn; rewrite lookup_empty; done|].
    split; [constructor|]. split; [done|]. exists []. split; [apply initialized_manager_ok|constructor].
  - constructor; [| |by intros b ?%elem_of_nil|done].
    + constructor; try done. exists []. done.
    + assert (id_ok rb) as Hid by (split; vm_refl).
      constructor; try done; try (intros k b *; cbn; rewrite lookup_empty; done).
      split; [by left|]. intros k b *. cbn. rewrite lookup_empty. done.
  - split; vm_compute; reflexivity.
Qed.

(** The headers of the example. *)
Definition toy_universe : list (block_header_state (fc := toy_fc)) := bsh <$> fork_block 5 0 0 3 true :: toy_blocks.

Definition header_ok (x y : block_header_state (fc := toy_fc)) : bool :=
  negb (bool_decide (previous (bare_header (header x)) = bhs_id y))
  || (dpos_irreversible_blocknum (common y) <=? dpos_irreversible_blocknum (common x))
     && is_ok (next_pending y (timestamp (bare_header (header x))) (confirmed (bare_header (header x)))).

Lemma toy_headers x y : x ∈ toy_universe -> y ∈ toy_universe -> previous (bare_header (header x)) = bhs_id y ->
  dpos_irreversible_blocknum (common y) <= dpos_irreversible_blocknum (common x) /\ made_from y x.
Proof.
  intros Hx Hy E. assert (forallb (fun x => forallb (header_ok x) toy_universe) toy_universe = true) as Hall by vm_refl.
  rewrite forallb_forall in Hall. specialize (Hall x ltac:(by apply list_elem_of_In)).
  rewrite forallb_forall in Hall. specialize (Hall y ltac:(by apply list_elem_of_In)). unfold header_ok in Hall.
  rewrite bool_decide_true in Hall by done. cbn [negb orb] in Hall. bprop. split; [done|]. unfold made_from.
  destruct (next_pending y _ _) as [p|]; [eauto|done].
Qed.

Definition incoming_check (n : block_state (fc := toy_fc)) : bool :=
  (num_from_id (b_id n) =? b_num n) && (num_from_id (b_prev n) =? b_num n - 1) && negb (ForkDatabase.validated n)
  && (b_num n <=? max_block_num).

Lemma toy_incoming : Forall (fun n => bsh n ∈ toy_universe /\ id_ok n /\ ForkDatabase.validated n = false /\ b_num n <= max_block_num)
  toy_blocks.
Proof.
  assert (forallb incoming_check toy_blocks = true) as Hall by vm_refl. rewrite forallb_forall in Hall.
  apply Forall_forall. intros n Hn. specialize (Hall n ltac:(by apply list_elem_of_In)). unfold incoming_check in Hall. bprop.
  split; [|done]. unfold toy_universe. apply list_elem_of_fmap_2. by right.
Qed.

Lemma pushes_settle_witness :
  let '(os, c') := push_all toy_blocks toy_controller in
  chain_inv c' /\ settled c' /\ Forall (fun o => match o with Ok _ => True | Throw e => is_fc e = true end) os.
Proof.
  apply (pushes_settle (fun x => x ∈ toy_universe)).
  - intros x y Hx Hy E. exact (proj1 (toy_headers x y Hx Hy E)).
  - intros x y Hx Hy E. exact (proj2 (toy_headers x y Hx Hy E)).
  - exact toy_chain_inv.
  - intros k b Hb. exfalso. cbn in Hb. rewrite lookup_empty in Hb. discriminate Hb.
  - split; [intros k b Hb; exfalso; cbn in Hb; rewrite lookup_empty in Hb; discriminate Hb|].
    intros rb [= <-]. unfold toy_universe. rewrite fmap_cons. left.
  - exact toy_incoming.
Defined.

Lemma push_block_follows_witness :
  let n := fork_block 6 1 0 4 false in
  (exists c', push_block (Ok n) toy_controller = (Ok tt, c') /\ chain_inv c' /\ at_best c')
  \/ (exists e c', push_block (Ok n) toy_controller = (Throw e, c') /\ is_fc e = true /\ chain_inv c'
        /\ restored toy_controller c')
  \/ (exists c', push_block (Ok n) toy_controller = (Throw undefined_behavior, c') /\ ~ quiet toy_controller).
Proof.
  apply push_block_follows; [exact toy_chain_inv|].
  destruct (proj1 (Forall_cons _ _ _) toy_incoming) as [(_ & Hid & Hv & Hm) _].
  constructor; [|exact Hid|exact Hv|exact Hm].
  intros rb p [= <-] [[_ ->]|Hp]; [|exfalso; cbn in Hp; rewrite lookup_empty in Hp; discriminate Hp].
  apply (toy_headers (bsh (fork_block 6 1 0 4 false)) (bsh (fork_block 5 0 0 3 true))).
  - right. left.
  - left.
  - reflexivity.
Defined.

(** when the irreversible number falls along a branch, a block built on the head
    can be known without being applied; if a block on top of it then becomes
    preferred and fails, maybe_switch_forks reads branches.second.back() of an
    empty vector while it goes back. *)
Theorem reversal_of_an_extension_undefined :
  fst (push_all [fork_block 6 1 0 4 false; fork_block 7 1 1 3 false; fork_block 8 9 1 4 false] toy_controller)
  = [Ok tt; Ok tt; Throw undefined_behavior].
Proof. vm_refl. Qed.
End Examples.
