(* ===== verification/IteratorCache.v ===== *)
(** The iterator cache of an action: apply_context::iterator_cache of
    include/eosio/chain/apply_context.hpp.

    A contract names rows by small integers.  The cache hands out the
    non-negative ones for rows and the ones below -1 for the ends of tables; -1
    is the invalid iterator.  A pointer to a row or to a table is modelled by
    the chainbase id of the object, which chainbase does not reuse while the
    object's index lives; following a pointer to an object that was removed is
    [undefined_behavior].

    [cache_ok] is the representation invariant; the lemmas after it say that
    every operation keeps it, and what the operation does to the two things a
    client sees: [object_at] (the row an iterator stands for) and [end_of] (the
    end iterator of a table). *)

From Stdlib Require Import ZArith Lia.
From stdpp Require Import base gmap numbers list.
From S2P Require Import Prelude.

#[local] Open Scope Z_scope.

Record iterator_cache := mk_cache {
  table_cache : gmap Z (Z * Z);
  end_iterator_to_table : list Z;
  iterator_to_object : list (option Z);
  object_to_iterator : gmap Z Z
}.

Definition empty_cache : iterator_cache := mk_cache ∅ [] [] ∅.

(** -(indx + 2) on size_t, converted to int. *)
Definition index_to_end_iterator (indx : nat) : Z := i32 (u64 (- (Z.of_nat indx + 2))).

(** -ei - 2 on int, converted to size_t; -ei is undefined for the least int. *)
Definition end_iterator_to_index (ei : Z) : res Z :=
  if ei =? - 2 ^ 31 then Throw undefined_behavior else Ok (u64 (- ei - 2)).

Definition cache_table (id : Z) (c : iterator_cache) : Z * iterator_cache :=
  match table_cache c !! id with
  | Some (_, ei) => (ei, c)
  | None =>
      let ei := index_to_end_iterator (length (end_iterator_to_table c)) in
      (ei, mk_cache (<[id := (id, ei)]> (table_cache c)) (end_iterator_to_table c ++ [id])
             (iterator_to_object c) (object_to_iterator c))
  end.

(** The pointer behind the returned reference. *)
Definition get_table (i : Z) (c : iterator_cache) : res Z :=
  match table_cache c !! i with
  | Some (ptr, _) => Ok ptr
  | None => Throw table_not_in_cache
  end.

Definition get_end_iterator_by_table_id (i : Z) (c : iterator_cache) : res Z :=
  match table_cache c !! i with
  | Some (_, ei) => Ok ei
  | None => Throw table_not_in_cache
  end.

Definition find_table_by_end_iterator (ei : Z) (c : iterator_cache) : res (option Z) :=
  assert! (ei <? -1) else invalid_table_iterator in
  let! indx := end_iterator_to_index ei in
  if Z.of_nat (length (end_iterator_to_table c)) <=? indx then Ok None
  else Ok (end_iterator_to_table c !! Z.to_nat indx).

(** The pointer behind the reference [get] returns. *)
Definition get (iterator : Z) (c : iterator_cache) : res Z :=
  assert! (negb (iterator =? -1)) else invalid_table_iterator in
  assert! (0 <=? iterator) else table_operation_not_permitted in
  assert! (u64 iterator <? Z.of_nat (length (iterator_to_object c))) else invalid_table_iterator in
  match iterator_to_object c !! Z.to_nat iterator with
  | Some (Some p) => Ok p
  | _ => Throw table_operation_not_permitted
  end.

Definition remove (iterator : Z) (c : iterator_cache) : res iterator_cache :=
  assert! (negb (iterator =? -1)) else invalid_table_iterator in
  assert! (0 <=? iterator) else table_operation_not_permitted in
  assert! (u64 iterator <? Z.of_nat (length (iterator_to_object c))) else invalid_table_iterator in
  match iterator_to_object c !! Z.to_nat iterator with
  | Some (Some p) =>
      Ok (mk_cache (table_cache c) (end_iterator_to_table c)
            (<[Z.to_nat iterator := None]> (iterator_to_object c)) (delete p (object_to_iterator c)))
  | _ => Ok c
  end.

Definition add (p : Z) (c : iterator_cache) : Z * iterator_cache :=
  match object_to_iterator c !! p with
  | Some i => (i, c)
  | None =>
      let i := i32 (Z.of_nat (length (iterator_to_object c))) in
      (i, mk_cache (table_cache c) (end_iterator_to_table c)
            (iterator_to_object c ++ [Some p]) (<[p := i]> (object_to_iterator c)))
  end.

(** ** The invariant and the client's view *)

(** The object the iterator stands for. *)
Definition object_at (c : iterator_cache) (iterator : Z) : option Z :=
  if iterator <? 0 then None else mjoin (iterator_to_object c !! Z.to_nat iterator).

(** The end iterator of the table, when the table was cached. *)
Definition end_of (c : iterator_cache) (id : Z) : option Z := snd <$> table_cache c !! id.

Record cache_ok (c : iterator_cache) : Prop := {
  objects_ok : forall p i, object_to_iterator c !! p = Some i <-> object_at c i = Some p;
  tables_ok : forall t ptr ei, table_cache c !! t = Some (ptr, ei) <->
    ptr = t /\ exists i, ei = - (Z.of_nat i + 2) /\ end_iterator_to_table c !! i = Some t;
  objects_few : Z.of_nat (length (iterator_to_object c)) < 2 ^ 31;
  tables_few : Z.of_nat (length (end_iterator_to_table c)) < 2 ^ 31 - 2
}.

(** There is room for [n] more entries of both kinds. *)
Definition room (n : nat) (c : iterator_cache) : Prop :=
  Z.of_nat (length (iterator_to_object c)) + Z.of_nat n < 2 ^ 31
  /\ Z.of_nat (length (end_iterator_to_table c)) + Z.of_nat n < 2 ^ 31 - 2.

Lemma room_le m n c : (m <= n)%nat -> room n c -> room m c.
Proof. unfold room. lia. Qed.

Lemma empty_cache_ok : cache_ok empty_cache.
Proof.
  split; cbn; try lia.
  - intros p i. rewrite lookup_empty. unfold object_at. cbn. by destruct (i <? 0), (Z.to_nat i).
  - intros t ptr ei. rewrite lookup_empty. split; [done|]. intros (_ & i & _ & Hi). by destruct i.
Qed.

Lemma object_at_Some c i p :
  object_at c i = Some p <-> 0 <= i /\ iterator_to_object c !! Z.to_nat i = Some (Some p).
Proof.
  unfold object_at. destruct (Z.ltb_spec i 0); [split; [done|lia]|].
  destruct (iterator_to_object c !! Z.to_nat i) as [[q|]|]; cbn; naive_solver.
Qed.

Lemma end_of_Some c t ei :
  cache_ok c -> end_of c t = Some ei ->
  exists i, ei = - (Z.of_nat i + 2) /\ end_iterator_to_table c !! i = Some t.
Proof.
  intros Hc He. unfold end_of in He. apply fmap_Some in He as ([ptr e] & Hl & ->).
  apply (tables_ok _ Hc) in Hl as [_ Hi]. exact Hi.
Qed.

Lemma end_of_below c t ei : cache_ok c -> end_of c t = Some ei -> - 2 ^ 31 < ei < -1.
Proof.
  intros Hc He. destruct (end_of_Some _ _ _ Hc He) as (i & -> & Hi).
  apply lookup_lt_Some in Hi. pose proof (tables_few _ Hc). lia.
Qed.

(** ** What the operations do *)

Lemma index_to_end_iterator_eq (n : nat) :
  Z.of_nat n < 2 ^ 31 - 1 -> index_to_end_iterator n = - (Z.of_nat n + 2).
Proof.
  intros Hn. unfold index_to_end_iterator, u64, i32, wrap.
  replace ((- (Z.of_nat n + 2)) mod 2 ^ 64) with (2 ^ 64 - (Z.of_nat n + 2)).
  2:{ apply Z.mod_unique with (-1); lia. }
  replace (2 ^ 64 - (Z.of_nat n + 2) + 2 ^ 31) with ((2 ^ 31 - (Z.of_nat n + 2)) + 2 ^ 32 * 2 ^ 32) by lia.
  rewrite Z.mod_add by lia. rewrite Z.mod_small by lia. lia.
Qed.

Lemma get_object i c :
  cache_ok c -> i < 2 ^ 31 ->
  get i c = match object_at c i with
            | Some p => Ok p
            | None => if (i <? -1) then Throw table_operation_not_permitted
                      else if (i =? -1) || (Z.of_nat (length (iterator_to_object c)) <=? i)
                      then Throw invalid_table_iterator else Throw table_operation_not_permitted
            end.
Proof.
  intros Hc Hi. unfold get, object_at. unfold eos_assert.
  destruct (Z.eqb_spec i (-1)) as [->|H1]; [done|]. cbn [negb res_bind].
  destruct (Z.leb_spec 0 i) as [H0|H0]; cbn [res_bind].
  - destruct (Z.ltb_spec i 0); [lia|].
    assert (u64 i = i) as -> by (apply wrap_small; unfold is_uint; lia).
    destruct (Z.ltb_spec i (Z.of_nat (length (iterator_to_object c)))) as [Hl|Hl]; cbn [res_bind].
    + destruct (iterator_to_object c !! Z.to_nat i) as [[p|]|]; cbn; try done;
        (destruct (Z.ltb_spec i (-1)); [lia|]);
        (destruct (Z.leb_spec (Z.of_nat (length (iterator_to_object c))) i); [lia|done]).
    + rewrite lookup_ge_None_2 by lia. cbn. destruct (Z.ltb_spec i (-1)); [lia|].
      destruct (Z.leb_spec (Z.of_nat (length (iterator_to_object c))) i); [done|lia].
  - destruct (Z.ltb_spec i 0); [|lia]. destruct (Z.ltb_spec i (-1)); [done|lia].
Qed.

Lemma get_ok i c p : cache_ok c -> i < 2 ^ 31 -> get i c = Ok p <-> object_at c i = Some p.
Proof.
  intros Hc Hi. rewrite get_object by done. destruct (object_at c i) as [q|]; [naive_solver|].
  by repeat case_match.
Qed.

Lemma object_at_small c i p : cache_ok c -> object_at c i = Some p -> 0 <= i < 2 ^ 31.
Proof.
  intros Hc Hi. apply object_at_Some in Hi as [H0 Hl]. apply lookup_lt_Some in Hl.
  pose proof (objects_few _ Hc). lia.
Qed.

(** [add] returns an iterator that stands for the object, and moves no other. *)
Lemma add_object p c i c' :
  cache_ok c -> room 1 c -> add p c = (i, c') ->
  cache_ok c' /\ object_at c' i = Some p
  /\ (forall j q, object_at c j = Some q -> object_at c' j = Some q)
  /\ (forall j q, object_at c' j = Some q -> q = p \/ object_at c j = Some q)
  /\ table_cache c' = table_cache c
  /\ (forall n, room (S n) c -> room n c').
Proof.
  intros Hc [Hr1 Hr2] Ha. unfold add in Ha.
  destruct (object_to_iterator c !! p) as [i0|] eqn:Ep.
  { injection Ha as -> ->. split; [done|]. split; [by apply Hc|]. repeat split; try naive_solver.
    all: by eapply room_le; [|eassumption]; lia. }
  rewrite i32_small in Ha by lia. injection Ha as <- <-.
  set (l := iterator_to_object c) in *.
  assert (forall j q, object_at c j = Some q -> q <> p) as Hnew.
  { intros j q Hj ->. apply (objects_ok _ Hc) in Hj. congruence. }
  assert (forall j q, mjoin ((l ++ [Some p]) !! Z.to_nat j) = Some q /\ 0 <= j
            <-> (object_at c j = Some q \/ (j = Z.of_nat (length l) /\ q = p))) as Hat.
  { intros j q. rewrite object_at_Some. fold l. destruct (decide (Z.to_nat j < length l)%nat) as [Hlt|Hge].
    - rewrite lookup_app_l by done. destruct (l !! Z.to_nat j) as [[x|]|]; cbn;
        (split; [naive_solver|]); intros [[? ?]|[-> ?]]; try (rewrite Nat2Z.id in Hlt); naive_solver lia.
    - rewrite lookup_app_r, (lookup_ge_None_2 l) by lia.
      destruct (decide (Z.to_nat j = length l)) as [E|E].
      + rewrite E, Nat.sub_diag. cbn. split; [intros [[= ->] ?]; right; split; [lia|done]|].
        intros [[_ ?]|[-> ->]]; [done|]. split; [done|lia].
      + rewrite lookup_ge_None_2 by (cbn; lia). cbn. split; [naive_solver|].
        intros [[_ ?]|[-> ?]]; [done|]. rewrite Nat2Z.id in E. done. }
  assert (forall j q, object_at (mk_cache (table_cache c) (end_iterator_to_table c) (l ++ [Some p])
              (<[p := Z.of_nat (length l)]> (object_to_iterator c))) j = Some q
            <-> (object_at c j = Some q \/ (j = Z.of_nat (length l) /\ q = p))) as Hat'.
  { intros j q. rewrite <- Hat. unfold object_at at 1. cbn [iterator_to_object].
    destruct (Z.ltb_spec j 0); [split; [done|lia]|naive_solver]. }
  split; [|repeat split].
  - split; cbn [object_to_iterator table_cache end_iterator_to_table iterator_to_object].
    + intros q j. rewrite Hat', lookup_insert_Some, <- (objects_ok _ Hc). naive_solver.
    + apply Hc.
    + rewrite length_app. cbn. lia.
    + apply Hc.
  - apply Hat'. by right.
  - intros j q Hj. apply Hat'. by left.
  - intros j q Hj. apply Hat' in Hj. naive_solver.
  - cbn. rewrite length_app. cbn. unfold room in *. fold l in H. lia.
  - cbn. unfold room in *. fold l in H. lia.
Qed.

(** Removing the object an iterator stands for. *)
Lemma remove_object i c p :
  cache_ok c -> i < 2 ^ 31 -> object_at c i = Some p ->
  exists c', remove i c = Ok c' /\ cache_ok c'
    /\ (forall j q, object_at c' j = Some q <-> object_at c j = Some q /\ q <> p)
    /\ table_cache c' = table_cache c
    /\ (forall n, room n c -> room n c')
    /\ length (iterator_to_object c') = length (iterator_to_object c).
Proof.
  intros Hc Hi Ho. pose proof (proj2 (get_ok i c p Hc Hi) Ho) as Hg.
  unfold get in Hg. unfold remove.
  destruct (eos_assert (negb (i =? -1)) invalid_table_iterator); [cbn [res_bind] in *|done].
  destruct (eos_assert (0 <=? i) table_operation_not_permitted); [cbn [res_bind] in *|done].
  destruct (eos_assert (u64 i <? Z.of_nat (length (iterator_to_object c))) invalid_table_iterator);
    [cbn [res_bind] in *|done].
  apply object_at_Some in Ho as [H0 Hl]. rewrite Hl. clear Hg.
  assert (forall j q, object_at c j = Some q -> j <> i <-> q <> p) as Hinj.
  { intros j q Hj. split; intros Hne E; apply Hne; subst.
    - apply (objects_ok _ Hc) in Hj. assert (object_at c i = Some p) as Hi' by by apply object_at_Some.
      apply (objects_ok _ Hc) in Hi'. congruence.
    - apply object_at_Some in Hj as [_ Hj]. congruence. }
  eexists. split; [done|].
  assert (forall j q, object_at (mk_cache (table_cache c) (end_iterator_to_table c)
              (<[Z.to_nat i := None]> (iterator_to_object c)) (delete p (object_to_iterator c))) j = Some q
            <-> object_at c j = Some q /\ q <> p) as Hat.
  { intros j q. rewrite object_at_Some. cbn [iterator_to_object].
    rewrite list_lookup_insert_Some.
    split.
    - intros [Hj [(_ & [=] & _)|[Hne Hlj]]]. assert (object_at c j = Some q) as Hj' by by apply object_at_Some.
      split; [done|]. apply (Hinj _ _ Hj'). intros ->. done.
    - intros [Hj Hq]. pose proof Hj as Hj'. apply object_at_Some in Hj as [? ?]. split; [done|].
      right. split; [|done]. apply (Hinj _ _ Hj') in Hq. lia. }
  split; [|split; [exact Hat|split; [done|split; [|apply length_insert]]]].
  - split; cbn [object_to_iterator table_cache end_iterator_to_table iterator_to_object].
    + intros q j. rewrite Hat, lookup_delete_Some, <- (objects_ok _ Hc). naive_solver.
    + apply Hc.
    + rewrite length_insert. apply Hc.
    + apply Hc.
  - intros n. unfold room. cbn. by rewrite length_insert.
Qed.

(** [cache_table] returns the table's end iterator, and leaves the others. *)
Lemma cache_table_end t c ei c' :
  cache_ok c -> room 1 c -> cache_table t c = (ei, c') ->
  cache_ok c' /\ end_of c' t = Some ei
  /\ (forall u e, end_of c u = Some e -> end_of c' u = Some e)
  /\ (forall u, is_Some (table_cache c' !! u) -> u = t \/ is_Some (table_cache c !! u))
  /\ iterator_to_object c' = iterator_to_object c
  /\ (forall n, room (S n) c -> room n c').
Proof.
  intros Hc [Hr1 Hr2] Hca. unfold cache_table in Hca.
  destruct (table_cache c !! t) as [[ptr e0]|] eqn:Et.
  { injection Hca as -> <-. split; [done|]. split; [unfold end_of; by rewrite Et|].
    repeat split; try naive_solver. all: by eapply room_le; [|eassumption]; lia. }
  rewrite index_to_end_iterator_eq in Hca by lia.
  set (l := end_iterator_to_table c) in *. injection Hca as <- <-.
  assert (~ exists i, l !! i = Some t) as Hnew.
  { intros [i Hi]. assert (table_cache c !! t = Some (t, - (Z.of_nat i + 2))) as Hx
      by (apply (tables_ok _ Hc); eauto). congruence. }
  split; [|repeat split].
  - split; cbn [object_to_iterator table_cache end_iterator_to_table iterator_to_object].
    + apply Hc.
    + intros u ptr e. rewrite lookup_insert_Some, (tables_ok _ Hc). fold l. split.
      * intros [(-> & [= <- <-])|(Hne & -> & i & -> & Hi)]; (split; [done|]).
        -- exists (length l). split; [done|]. by rewrite lookup_app_r, Nat.sub_diag by lia.
        -- exists i. split; [done|]. by apply lookup_app_l_Some.
      * intros (-> & i & -> & Hi). apply lookup_app_Some in Hi as [Hi|[Hge Hi]].
        -- right. split; [intros <-; apply Hnew; eauto|]. eauto.
        -- apply list_lookup_singleton_Some in Hi as [Hi <-]. left. split; [done|]. do 2 f_equal. lia.
    + apply Hc.
    + rewrite length_app. cbn. lia.
  - unfold end_of. cbn. by rewrite lookup_insert_eq.
  - intros u e He. unfold end_of in *. cbn. rewrite lookup_insert_ne; [done|].
    intros <-. by rewrite Et in He.
  - intros u [x Hx]. cbn in Hx. apply lookup_insert_Some in Hx as [[-> _]|[_ Hx]]; eauto.
  - unfold room in *. cbn. fold l in H. lia.
  - unfold room in *. cbn. rewrite length_app. cbn. fold l in H. lia.
Qed.

(** An end iterator leads back to its table. *)
Lemma find_table_by_end_iterator_end c t ei :
  cache_ok c -> end_of c t = Some ei -> find_table_by_end_iterator ei c = Ok (Some t).
Proof.
  intros Hc He. pose proof (end_of_below _ _ _ Hc He) as Hb.
  destruct (end_of_Some _ _ _ Hc He) as (i & -> & Hi).
  unfold find_table_by_end_iterator, end_iterator_to_index, eos_assert.
  destruct (Z.ltb_spec (- (Z.of_nat i + 2)) (-1)); [|lia]. cbn [res_bind].
  destruct (Z.eqb_spec (- (Z.of_nat i + 2)) (- 2 ^ 31)); [lia|]. cbn [res_bind].
  replace (- - (Z.of_nat i + 2) - 2) with (Z.of_nat i) by lia.
  assert (u64 (Z.of_nat i) = Z.of_nat i) as -> by (apply wrap_small; unfold is_uint; lia).
  apply lookup_lt_Some in Hi as Hlt.
  destruct (Z.leb_spec (Z.of_nat (length (end_iterator_to_table c))) (Z.of_nat i)); [lia|].
  by rewrite Nat2Z.id, Hi.
Qed.

(** Every int below -1 that is not the end iterator of a cached table is
    refused, except the least int. *)
Lemma find_table_by_end_iterator_inv c ei r :
  cache_ok c -> - 2 ^ 31 < ei < -1 -> find_table_by_end_iterator ei c = r ->
  r = Ok None \/ exists t, r = Ok (Some t) /\ end_of c t = Some ei.
Proof.
  intros Hc Hb Hr. unfold find_table_by_end_iterator, end_iterator_to_index, eos_assert in Hr.
  destruct (Z.ltb_spec ei (-1)); [|lia]. cbn [res_bind] in Hr.
  destruct (Z.eqb_spec ei (- 2 ^ 31)); [lia|]. cbn [res_bind] in Hr.
  assert (u64 (- ei - 2) = - ei - 2) as E by (apply wrap_small; unfold is_uint; lia). rewrite E in Hr.
  destruct (Z.leb_spec (Z.of_nat (length (end_iterator_to_table c))) (- ei - 2)); [by left|].
  destruct (end_iterator_to_table c !! Z.to_nat (- ei - 2)) as [t|] eqn:Et; [|by left].
  right. exists t. split; [done|]. unfold end_of.
  assert (table_cache c !! t = Some (t, ei)) as ->; [|done].
  apply (tables_ok _ Hc). split; [done|]. exists (Z.to_nat (- ei - 2)). split; [lia|done].
Qed.
