(* ===== verification/ContractTables.v ===== *)
(** The tables of contracts: the data of
    include/eosio/chain/contract_table_objects.hpp and the database interface
    of apply_context (apply_context.cpp, db_*_i64, and generic_index of
    include/eosio/chain/apply_context.hpp).

    A contract keeps rows in tables named by code, scope and table.  The rows
    of the primary index (key_value_object) and of the five secondary indices
    share one record here, [row], whose [contents] are the value or the
    secondary key; the six chainbase containers are the [indices] of the
    context.  One [table_id_object] counts the rows of all six. *)

From Stdlib Require Import ZArith Lia.
From stdpp Require Import base gmap numbers sorting list.
From S2P Require Import Prelude Chainbase Authority ResourceLimits IteratorCache.

#[local] Open Scope Z_scope.
#[local] Open Scope chain_scope.

(** ** Data *)

(** The values of float64_t and float128_t other than NaN (wasm_interface
    refuses a NaN before it calls generic_index), with softfloat's f64_lt and
    f128_lt.  On these they are strict weak orders. *)
Class SoftFloat := {
  float64 : Type;
  float128 : Type;
  f64_lt : float64 -> float64 -> bool;
  f128_lt : float128 -> float128 -> bool;
  f64_lt_asymm : forall a b, f64_lt a b = true -> f64_lt b a = false;
  f128_lt_asymm : forall a b, f128_lt a b = true -> f128_lt b a = false;
  f64_nlt_trans : forall a b c, f64_lt b a = false -> f64_lt c b = false -> f64_lt c a = false;
  f128_nlt_trans : forall a b c, f128_lt b a = false -> f128_lt c b = false -> f128_lt c a = false
}.

(** The container an object lives in. *)
Inductive index_kind := key_value | index64 | index128 | index256 | index_double | index_long_double.

#[export] Instance index_kind_eq_dec : EqDecision index_kind.
Proof. solve_decision. Defined.

(** billable_size<T>::value, rounded up by billable_size_v; every object has
    two or three indices of overhead_per_row_per_index_ram_bytes = 32. *)
Definition billable_size (k : index_kind) : Z :=
  match k with
  | key_value => billable_size_v (32 + 8 + 4 + 32 * 2)
  | index64 => billable_size_v (24 + 8 + 32 * 3)
  | index128 => billable_size_v (24 + 16 + 32 * 3)
  | index256 => billable_size_v (24 + 32 + 32 * 3)
  | index_double => billable_size_v (24 + 8 + 32 * 3)
  | index_long_double => billable_size_v (24 + 16 + 32 * 3)
  end.

Definition table_billable_size : Z := billable_size_v (44 + 32 * 2).

Record table_id_object := mk_table {
  tab_id : Z;
  code : Z;
  scope : Z;
  table : Z;
  tab_payer : Z;
  count : Z
}.

Definition set_count (n : Z) (t : table_id_object) : table_id_object :=
  mk_table (tab_id t) (code t) (scope t) (table t) (tab_payer t) n.

Section Rows.
Context {SF : SoftFloat}.

(** The value of a key_value_object, or the secondary_key of an index_object. *)
Inductive data :=
| Value (v : list Z)
| Key64 (k : Z)
| Key128 (k : Z)
| Key256 (k0 k1 : Z)
| KeyDouble (d : float64)
| KeyLongDouble (d : float128).

Record row := mk_row { id : Z; t_id : Z; primary_key : Z; payer : Z; contents : data }.

(** SecondaryKeyLess of the index that holds the keys; all the keys of one
    index have the same constructor. *)
Definition key_rank (d : data) : Z :=
  match d with
  | Value _ => 0 | Key64 _ => 1 | Key128 _ => 2 | Key256 _ _ => 3
  | KeyDouble _ => 4 | KeyLongDouble _ => 5
  end.

Definition secondary_less (a b : data) : bool :=
  match a, b with
  | Key64 x, Key64 y => x <? y
  | Key128 x, Key128 y => x <? y
  | Key256 x0 x1, Key256 y0 y1 => (x0 <? y0) || ((x0 =? y0) && (x1 <? y1))
  | KeyDouble x, KeyDouble y => f64_lt x y
  | KeyLongDouble x, KeyLongDouble y => f128_lt x y
  | _, _ => key_rank a <? key_rank b
  end.

(** The composite keys: by_scope_primary and by_primary compare t_id and the
    primary key, by_secondary t_id, the secondary key and the primary key. *)
Inductive tag := by_primary | by_secondary.

Definition primary_lt (t1 p1 t2 p2 : Z) : bool := (t1 <? t2) || ((t1 =? t2) && (p1 <? p2)).

Definition secondary_lt (t1 : Z) (s1 : data) (t2 : Z) (s2 : data) : bool :=
  (t1 <? t2) || ((t1 =? t2) && secondary_less s1 s2).

Definition row_lt (by_ : tag) (a b : row) : bool :=
  match by_ with
  | by_primary => primary_lt (t_id a) (primary_key a) (t_id b) (primary_key b)
  | by_secondary =>
      secondary_lt (t_id a) (contents a) (t_id b) (contents b)
      || (negb (secondary_lt (t_id b) (contents b) (t_id a) (contents a))
          && (primary_key a <? primary_key b))
  end.

Definition row_le (by_ : tag) : relation row := fun a b => row_lt by_ b a = false.

#[export] Instance row_le_dec by_ : RelDecision (row_le by_).
Proof. intros a b. unfold row_le. apply _. Defined.

(** ** The containers and the context *)

Context {TT TR TL TU : Type} `{HTT : !Table Z table_id_object TT} `{HTR : !Table Z row TR}.
Context `{HTL : !Table (bool * Z) Manager.resource_limits_object TL}
        `{HTU : !Table Z Manager.resource_usage_object TU}.

(** One chainbase index with the iterator_cache of its objects: keyval_cache,
    or the itr_cache of idx64, idx128, idx256, idx_double or idx_long_double. *)
Record container := mk_container { rows : TR; next_id : Z; cache : iterator_cache }.

Record apply_context := mk_context {
  receiver : Z;
  act_account : Z;                         (** act->account *)
  authorization : list permission_level;   (** act->authorization *)
  privileged : bool;
  ram_restrictions : bool;                 (** control.is_builtin_activated( ram_restrictions ) *)
  ram_billing_in_notify_allowed : bool;    (** control.is_ram_billing_in_notify_allowed() *)
  table_ids : TT;
  next_table_id : Z;
  indices : index_kind -> container;
  account_ram_deltas : gmap Z Z;
  resource_limits : @Manager.database TL TU;
  validate_ram_usage : gset Z              (** of the transaction_context *)
}.

Definition set_tables (t : TT) (n : Z) (c : apply_context) : apply_context :=
  mk_context (receiver c) (act_account c) (authorization c) (privileged c) (ram_restrictions c)
    (ram_billing_in_notify_allowed c) t n (indices c) (account_ram_deltas c) (resource_limits c)
    (validate_ram_usage c).
Definition set_index (k : index_kind) (x : container) (c : apply_context) : apply_context :=
  mk_context (receiver c) (act_account c) (authorization c) (privileged c) (ram_restrictions c)
    (ram_billing_in_notify_allowed c) (table_ids c) (next_table_id c)
    (fun k' => if decide (k' = k) then x else indices c k') (account_ram_deltas c) (resource_limits c)
    (validate_ram_usage c).
Definition set_ram (deltas : gmap Z Z) (d : Manager.database) (v : gset Z) (c : apply_context) : apply_context :=
  mk_context (receiver c) (act_account c) (authorization c) (privileged c) (ram_restrictions c)
    (ram_billing_in_notify_allowed c) (table_ids c) (next_table_id c) (indices c) deltas d v.

Definition set_cache (k : index_kind) (ca : iterator_cache) (c : apply_context) : apply_context :=
  set_index k (mk_container (rows (indices c k)) (next_id (indices c k)) ca) c.
Definition set_rows (k : index_kind) (t : TR) (n : Z) (c : apply_context) : apply_context :=
  set_index k (mk_container t n (cache (indices c k))) c.

(** The sequence from begin() to end() of the index. *)
Definition index_rows (k : index_kind) (by_ : tag) (c : apply_context) : list row :=
  merge_sort (row_le by_) (snd <$> tbl_rows (rows (indices c k))).

(** The first row of a sequence on which [p] holds: lower_bound and upper_bound
    with the condition of their key, find with the equality. *)
Definition first_row (p : row -> bool) (l : list row) : option row :=
  snd <$> list_find (fun r => p r = true) l.

(** ++iterator_to( obj ) and --iterator_to( obj ); [None] is end() and the
    begin() before which nothing lies. *)
Definition position (r : row) (l : list row) : option nat :=
  fst <$> list_find (fun x => id x = id r) l.
Definition next_row (r : row) (l : list row) : option row :=
  match position r l with Some i => l !! S i | None => None end.
Definition previous_row (r : row) (l : list row) : option row :=
  match position r l with Some (S i) => l !! i | _ => None end.

(** --upper_bound( tab->id ): the row before the first one of a later table. *)
Definition before_upper_bound (t : Z) (l : list row) : option row :=
  let i := match list_find (fun r => t < t_id r) l with Some (i, _) => i | None => length l end in
  match i with S j => l !! j | O => None end.

(** ** Authorization and RAM *)

Definition has_authorization (account : Z) (c : apply_context) : bool :=
  existsb (fun a => actor a =? account) (authorization c).

Definition require_authorization (account : Z) : exec apply_context unit :=
  do c <- get_state;
  check (existsb (fun a => actor a =? account) (authorization c)) else missing_auth_exception;
  ret tt.

Definition require_permission (account permission_ : Z) : exec apply_context unit :=
  do c <- get_state;
  check (existsb (fun a => (actor a =? account) && (permission a =? permission_)) (authorization c))
    else missing_auth_exception;
  ret tt.

(** transaction_context::add_ram_usage *)
Definition trx_add_ram_usage (account ram_delta : Z) : exec apply_context unit :=
  do _ <- zoom resource_limits (fun d c => set_ram (account_ram_deltas c) d (validate_ram_usage c) c)
            (Manager.add_pending_ram_usage account ram_delta);
  if 0 <? ram_delta then
    modify (fun c => set_ram (account_ram_deltas c) (resource_limits c) ({[account]} ∪ validate_ram_usage c) c)
  else ret tt.

Definition add_ram_usage (account ram_delta : Z) : exec apply_context unit :=
  do _ <- trx_add_ram_usage account ram_delta;
  do c <- get_state;
  match account_ram_deltas c !! account with
  | None =>
      modify (fun c => set_ram (<[account := ram_delta]> (account_ram_deltas c)) (resource_limits c)
                         (validate_ram_usage c) c)
  | Some delta =>
      check ((- 2 ^ 63 <=? delta + ram_delta) && (delta + ram_delta <? 2 ^ 63)) else undefined_behavior;
      modify (fun c => set_ram (<[account := delta + ram_delta]> (account_ram_deltas c)) (resource_limits c)
                         (validate_ram_usage c) c)
  end.

Definition update_db_usage (payer delta : Z) : exec apply_context unit :=
  do c <- get_state;
  do _ <- (if 0 <? delta then
             if negb (privileged c || (payer =? receiver c) || ram_restrictions c) then
               check (ram_billing_in_notify_allowed c || (receiver c =? act_account c))
                 else subjective_block_production_exception;
               require_authorization payer
             else ret tt
           else ret tt);
  add_ram_usage payer delta.

(** ** Tables *)

Definition find_table (code_ scope_ table_ : Z) (c : apply_context) : option table_id_object :=
  snd <$> list_find (fun t => code t = code_ /\ scope t = scope_ /\ table t = table_) (snd <$> tbl_rows (table_ids c)).

(** Following a pointer to a table. *)
Definition deref_table (ptr : Z) : exec apply_context table_id_object :=
  do c <- get_state;
  match tbl_find ptr (table_ids c) with Some t => ret t | None => lift (Throw undefined_behavior) end.

Definition find_or_create_table (code_ scope_ table_ payer_ : Z) : exec apply_context table_id_object :=
  do c <- get_state;
  match find_table code_ scope_ table_ c with
  | Some t => ret t
  | None =>
      do _ <- update_db_usage payer_ table_billable_size;
      do c <- get_state;
      let t := mk_table (next_table_id c) code_ scope_ table_ payer_ 0 in
      do _ <- modify (set_tables (tbl_put (next_table_id c) t (table_ids c)) (next_table_id c + 1));
      ret t
  end.

Definition remove_table (t : table_id_object) : exec apply_context unit :=
  do _ <- update_db_usage (tab_payer t) (- table_billable_size);
  modify (fun c => set_tables (tbl_remove (tab_id t) (table_ids c)) (next_table_id c) c).

(** db.modify( tab, ... ) on the count: uint32_t arithmetic. *)
Definition change_count (ptr d : Z) : exec apply_context unit :=
  do t <- deref_table ptr;
  modify (fun c => set_tables (tbl_put ptr (set_count (u32 (count t + d)) t) (table_ids c)) (next_table_id c) c).

(** ** Rows *)

(** itr_cache.get( iterator ): the reference is to the stored object. *)
Definition get_row (k : index_kind) (iterator : Z) : exec apply_context row :=
  do c <- get_state;
  do p <- lift (IteratorCache.get iterator (cache (indices c k)));
  match tbl_find p (rows (indices c k)) with Some r => ret r | None => lift (Throw undefined_behavior) end.

Definition cache_table (k : index_kind) (t : Z) : exec apply_context Z :=
  fun c => let '(ei, ca) := IteratorCache.cache_table t (cache (indices c k)) in (Ok ei, set_cache k ca c).

Definition cache_add (k : index_kind) (p : Z) : exec apply_context Z :=
  fun c => let '(i, ca) := IteratorCache.add p (cache (indices c k)) in (Ok i, set_cache k ca c).

Definition cache_remove (k : index_kind) (iterator : Z) : exec apply_context unit :=
  fun c => match IteratorCache.remove iterator (cache (indices c k)) with
           | Ok ca => (Ok tt, set_cache k ca c)
           | Throw e => (Throw e, c)
           end.

(** keyval_cache.get_table( obj.t_id ), dereferenced. *)
Definition table_of (k : index_kind) (t : Z) : exec apply_context table_id_object :=
  do c <- get_state;
  do ptr <- lift (IteratorCache.get_table t (cache (indices c k)));
  deref_table ptr.

(** db.create<ObjectType>: the key t_id, primary_key must be free. *)
Definition create_row (k : index_kind) (t pk payer_ : Z) (v : data) : exec apply_context row :=
  do c <- get_state;
  match first_row (fun r => (t_id r =? t) && (primary_key r =? pk)) (index_rows k by_primary c) with
  | Some _ => lift (Throw database_duplicate_key)
  | None =>
      let x := indices c k in
      let r := mk_row (next_id x) t pk payer_ v in
      do _ <- modify (set_rows k (tbl_put (next_id x) r (rows x)) (next_id x + 1));
      ret r
  end.

Definition remove_row (k : index_kind) (r : row) : exec apply_context unit :=
  modify (fun c => set_rows k (tbl_remove (id r) (rows (indices c k))) (next_id (indices c k)) c).

Definition modify_row (k : index_kind) (r : row) (payer_ : Z) (v : data) : exec apply_context unit :=
  modify (fun c => set_rows k (tbl_put (id r) (mk_row (id r) (t_id r) (primary_key r) payer_ v)
                                 (rows (indices c k))) (next_id (indices c k)) c).

(** What db_store_i64 and generic_index::store do once the table is there. *)
Definition insert_row (k : index_kind) (tab : table_id_object) (payer_ pk : Z) (v : data) (size : Z)
    : exec apply_context Z :=
  do obj <- create_row k (tab_id tab) pk payer_ v;
  do _ <- change_count (tab_id tab) 1;
  do _ <- update_db_usage payer_ size;
  do _ <- cache_table k (tab_id tab);
  cache_add k (id obj).

(** What db_remove_i64 and generic_index::remove do once the RAM is refunded. *)
Definition erase_row (k : index_kind) (tab : table_id_object) (obj : row) (iterator : Z)
    : exec apply_context unit :=
  do _ <- change_count (tab_id tab) (-1);
  do _ <- remove_row k obj;
  do tab' <- deref_table (tab_id tab);
  do _ <- (if count tab' =? 0 then remove_table tab' else ret tt);
  cache_remove k iterator.

(** ** The primary index: db_*_i64 *)

Definition value_size (v : data) : Z := match v with Value b => Z.of_nat (length b) | _ => 0 end.

Definition db_store_i64 (scope_ table_ payer_ pk : Z) (buffer : list Z) : exec apply_context Z :=
  do c <- get_state;
  do tab <- find_or_create_table (receiver c) scope_ table_ payer_;
  check (negb (payer_ =? 0)) else invalid_table_payer;
  insert_row key_value tab payer_ pk (Value buffer)
    (i64 (u64 (Z.of_nat (length buffer) + billable_size key_value))).

Definition db_update_i64 (iterator payer_ : Z) (buffer : list Z) : exec apply_context unit :=
  do obj <- get_row key_value iterator;
  do table_obj <- table_of key_value (t_id obj);
  do c <- get_state;
  check (code table_obj =? receiver c) else table_access_violation;
  let overhead := billable_size key_value in
  let old_size := i64 (u64 (value_size (contents obj) + overhead)) in
  let new_size := i64 (u64 (Z.of_nat (length buffer) + overhead)) in
  let payer' := if payer_ =? 0 then payer obj else payer_ in
  do _ <- (if negb (payer obj =? payer') then
             do _ <- update_db_usage (payer obj) (- old_size);
             update_db_usage payer' new_size
           else if negb (old_size =? new_size) then update_db_usage (payer obj) (new_size - old_size)
           else ret tt);
  modify_row key_value obj payer' (Value buffer).

Definition db_remove_i64 (iterator : Z) : exec apply_context unit :=
  do obj <- get_row key_value iterator;
  do table_obj <- table_of key_value (t_id obj);
  do c <- get_state;
  check (code table_obj =? receiver c) else table_access_violation;
  do _ <- update_db_usage (payer obj) (i64 (u64 (- (value_size (contents obj) + billable_size key_value))));
  erase_row key_value table_obj obj iterator.

(** The returned int and the bytes copied to the buffer. *)
Definition db_get_i64 (iterator : Z) (buffer_size : nat) : exec apply_context (Z * list Z) :=
  do obj <- get_row key_value iterator;
  let v := match contents obj with Value b => b | _ => [] end in
  if (buffer_size =? 0)%nat then ret (i32 (Z.of_nat (length v)), [])
  else
    let copy_size := Nat.min buffer_size (length v) in
    ret (i32 (Z.of_nat copy_size), take copy_size v).

(** What every search does: the end iterator of the table when [search] finds
    no row of it, the iterator of the row otherwise.  [None] comes with -1 for
    a table that does not exist. *)
Definition seek (k : index_kind) (by_ : tag) (code_ scope_ table_ : Z) (search : Z -> row -> bool)
    : exec apply_context (Z * option row) :=
  do c <- get_state;
  match find_table code_ scope_ table_ c with
  | None => ret (-1, None)
  | Some tab =>
      do table_end_itr <- cache_table k (tab_id tab);
      match first_row (search (tab_id tab)) (index_rows k by_ c) with
      | None => ret (table_end_itr, None)
      | Some r =>
          if negb (t_id r =? tab_id tab) then ret (table_end_itr, None)
          else do it <- cache_add k (id r); ret (it, Some r)
      end
  end.

Definition eq_primary (pk t : Z) (r : row) : bool := (t_id r =? t) && (primary_key r =? pk).
Definition ge_primary (pk t : Z) (r : row) : bool := negb (primary_lt (t_id r) (primary_key r) t pk).
Definition gt_primary (pk t : Z) (r : row) : bool := primary_lt t pk (t_id r) (primary_key r).

Definition db_find_i64 (code_ scope_ table_ pk : Z) : exec apply_context Z :=
  do x <- seek key_value by_primary code_ scope_ table_ (eq_primary pk); ret (fst x).
Definition db_lowerbound_i64 (code_ scope_ table_ pk : Z) : exec apply_context Z :=
  do x <- seek key_value by_primary code_ scope_ table_ (ge_primary pk); ret (fst x).
Definition db_upperbound_i64 (code_ scope_ table_ pk : Z) : exec apply_context Z :=
  do x <- seek key_value by_primary code_ scope_ table_ (gt_primary pk); ret (fst x).

Definition end_iterator (k : index_kind) (code_ scope_ table_ : Z) : exec apply_context Z :=
  do c <- get_state;
  match find_table code_ scope_ table_ c with
  | None => ret (-1)
  | Some tab => cache_table k (tab_id tab)
  end.

Definition db_end_i64 : Z -> Z -> Z -> exec apply_context Z := end_iterator key_value.

(** The returned iterator and the value assigned to [primary]. *)
Definition step_next (k : index_kind) (by_ : tag) (iterator : Z) : exec apply_context (Z * option Z) :=
  if iterator <? -1 then ret (-1, None)
  else
    do obj <- get_row k iterator;
    do c <- get_state;
    match next_row obj (index_rows k by_ c) with
    | Some r =>
        if negb (t_id r =? t_id obj) then
          do ei <- lift (get_end_iterator_by_table_id (t_id obj) (cache (indices c k))); ret (ei, None)
        else do it <- cache_add k (id r); ret (it, Some (primary_key r))
    | None => do ei <- lift (get_end_iterator_by_table_id (t_id obj) (cache (indices c k))); ret (ei, None)
    end.

Definition step_previous (k : index_kind) (by_ : tag) (iterator : Z) : exec apply_context (Z * option Z) :=
  do c <- get_state;
  if iterator <? -1 then
    do tab <- lift (find_table_by_end_iterator iterator (cache (indices c k)));
    match tab with
    | None => lift (Throw invalid_table_iterator)
    | Some ptr =>
        do t <- deref_table ptr;
        match before_upper_bound (tab_id t) (index_rows k by_ c) with
        | None => ret (-1, None)
        | Some r =>
            if negb (t_id r =? tab_id t) then ret (-1, None)
            else do it <- cache_add k (id r); ret (it, Some (primary_key r))
        end
    end
  else
    do obj <- get_row k iterator;
    match previous_row obj (index_rows k by_ c) with
    | None => ret (-1, None)
    | Some r =>
        if negb (t_id r =? t_id obj) then ret (-1, None)
        else do it <- cache_add k (id r); ret (it, Some (primary_key r))
    end.

Definition db_next_i64 : Z -> exec apply_context (Z * option Z) := step_next key_value by_primary.
Definition db_previous_i64 : Z -> exec apply_context (Z * option Z) := step_previous key_value by_primary.

(** ** The secondary indices: generic_index *)

Definition store (k : index_kind) (scope_ table_ payer_ pk : Z) (value : data) : exec apply_context Z :=
  check (negb (payer_ =? 0)) else invalid_table_payer;
  do c <- get_state;
  do tab <- find_or_create_table (receiver c) scope_ table_ payer_;
  insert_row k tab payer_ pk value (i64 (billable_size k)).

Definition remove (k : index_kind) (iterator : Z) : exec apply_context unit :=
  do obj <- get_row k iterator;
  do _ <- update_db_usage (payer obj) (i64 (u64 (- billable_size k)));
  do table_obj <- table_of k (t_id obj);
  do c <- get_state;
  check (code table_obj =? receiver c) else table_access_violation;
  erase_row k table_obj obj iterator.

Definition update (k : index_kind) (iterator payer_ : Z) (secondary : data) : exec apply_context unit :=
  do obj <- get_row k iterator;
  do table_obj <- table_of k (t_id obj);
  do c <- get_state;
  check (code table_obj =? receiver c) else table_access_violation;
  let payer' := if payer_ =? 0 then payer obj else payer_ in
  let billing_size := i64 (billable_size k) in
  do _ <- (if negb (payer obj =? payer') then
             do _ <- update_db_usage (payer obj) (- billing_size);
             update_db_usage payer' billing_size
           else ret tt);
  modify_row k obj payer' secondary.

Definition eq_secondary (s : data) (t : Z) (r : row) : bool :=
  negb (secondary_lt (t_id r) (contents r) t s) && negb (secondary_lt t s (t_id r) (contents r)).
Definition ge_secondary (s : data) (t : Z) (r : row) : bool := negb (secondary_lt (t_id r) (contents r) t s).
Definition gt_secondary (s : data) (t : Z) (r : row) : bool := secondary_lt t s (t_id r) (contents r).

(** The searches assign [primary], and some [secondary], when they find a row. *)
Definition find_secondary (k : index_kind) (code_ scope_ table_ : Z) (secondary : data)
    : exec apply_context (Z * option Z) :=
  do x <- seek k by_secondary code_ scope_ table_ (eq_secondary secondary);
  ret (fst x, primary_key <$> snd x).
Definition lowerbound_secondary (k : index_kind) (code_ scope_ table_ : Z) (secondary : data)
    : exec apply_context (Z * option (Z * data)) :=
  do x <- seek k by_secondary code_ scope_ table_ (ge_secondary secondary);
  ret (fst x, (fun r => (primary_key r, contents r)) <$> snd x).
Definition upperbound_secondary (k : index_kind) (code_ scope_ table_ : Z) (secondary : data)
    : exec apply_context (Z * option (Z * data)) :=
  do x <- seek k by_secondary code_ scope_ table_ (gt_secondary secondary);
  ret (fst x, (fun r => (primary_key r, contents r)) <$> snd x).
Definition end_secondary : index_kind -> Z -> Z -> Z -> exec apply_context Z := end_iterator.
Definition next_secondary (k : index_kind) : Z -> exec apply_context (Z * option Z) := step_next k by_secondary.
Definition previous_secondary (k : index_kind) : Z -> exec apply_context (Z * option Z) := step_previous k by_secondary.

Definition find_primary (k : index_kind) (code_ scope_ table_ primary : Z)
    : exec apply_context (Z * option data) :=
  do x <- seek k by_primary code_ scope_ table_ (eq_primary primary);
  ret (fst x, contents <$> snd x).
Definition lowerbound_primary (k : index_kind) (code_ scope_ table_ primary : Z) : exec apply_context Z :=
  do x <- seek k by_primary code_ scope_ table_ (ge_primary primary); ret (fst x).
Definition upperbound_primary (k : index_kind) (code_ scope_ table_ primary : Z) : exec apply_context Z :=
  do x <- seek k by_primary code_ scope_ table_ (gt_primary primary); ret (fst x).
Definition next_primary (k : index_kind) : Z -> exec apply_context (Z * option Z) := step_next k by_primary.
Definition previous_primary (k : index_kind) : Z -> exec apply_context (Z * option Z) := step_previous k by_primary.

Definition get (k : index_kind) (iterator : Z) : exec apply_context (Z * data) :=
  do obj <- get_row k iterator; ret (primary_key obj, contents obj).

(** ** The RAM check at the end of exec_one *)

Section RamCheck.
(** transaction_context::checktime, by the number of the call. *)
Context (checktime : nat -> res unit).

Fixpoint check_deltas (counter call : nat) (l : list (Z * Z)) (c : apply_context) : res unit :=
  match l with
  | [] => Ok tt
  | (account, delta) :: l' =>
      let! (counter', call') :=
        (if (counter =? 10)%nat then let! _ := checktime call in Ok (0%nat, S call) else Ok (counter, call)) in
      let! _ :=
        (if (0 <? delta) && negb (account =? receiver c) then
           assert! (receiver c =? act_account c) else unauthorized_ram_usage_increase in
           assert! (has_authorization account c) else unauthorized_ram_usage_increase in
           Ok tt
         else Ok tt) in
      check_deltas (S counter') call' l' c
  end.

(** flat_set<account_delta> is ordered by account. *)
Definition delta_le : relation (Z * Z) := fun a b => fst a <= fst b.
#[local] Instance delta_le_dec : RelDecision delta_le.
Proof. intros a b. unfold delta_le. apply _. Defined.

Definition check_ram_deltas (c : apply_context) : res unit :=
  if negb (privileged c) && ram_restrictions c then
    check_deltas 0 0 (merge_sort delta_le (map_to_list (account_ram_deltas c))) c
  else Ok tt.
End RamCheck.
End Rows.
