(* ===== verification/ContractInvariant.v ===== *)
(** The invariant of an action's tables, and that every database operation
    keeps it: the containers, the row counts, the iterator caches and the RAM
    accounts of ContractTables agree. *)

From Stdlib Require Import ZArith Lia.
From stdpp Require Import base gmap numbers sorting list.
From S2P Require Import Prelude Chainbase Authority ResourceLimits IteratorCache ContractTables.

#[local] Open Scope Z_scope.
#[local] Open Scope chain_scope.

Section Invariant.
Context {SF : SoftFloat}.
Context {TT TR TL TU : Type} `{HTT : !Table Z table_id_object TT} `{HTR : !Table Z row TR}.
Context `{HTL : !Table (bool * Z) Manager.resource_limits_object TL}
        `{HTU : !Table Z Manager.resource_usage_object TU}.

Abbreviation context := (@apply_context TT TR TL TU).
Implicit Types (c : context) (k : index_kind) (r : row).

(** ** What the containers hold *)

Definition view (k : index_kind) (c : context) : gmap Z row := tbl_view (rows (indices c k)).
Definition tables (c : context) : gmap Z table_id_object := tbl_view (table_ids c).
Definition cache_of (k : index_kind) (c : context) : iterator_cache := cache (indices c k).

Definition sum_kinds (f : index_kind -> Z) : Z :=
  f key_value + f index64 + f index128 + f index256 + f index_double + f index_long_double.

(** The sum of a weight over all the rows of the six containers. *)
Definition total (w : index_kind -> row -> Z) (c : context) : Z :=
  sum_kinds (fun k => map_sum (w k) (view k c)).

Definition in_table (t : Z) (k : index_kind) (r : row) : Z := Z.b2z (t_id r =? t).

(** What a row costs its payer. *)
Definition row_bill (k : index_kind) (r : row) : Z :=
  match k with key_value => value_size (contents r) | _ => 0 end + billable_size k.

Definition row_billed_to (a : Z) (k : index_kind) (r : row) : Z := if payer r =? a then row_bill k r else 0.
Definition table_billed_to (a : Z) (t : table_id_object) : Z := if tab_payer t =? a then table_billable_size else 0.

(** The RAM the account pays for. *)
Definition billed_to (a : Z) (c : context) : Z :=
  total (row_billed_to a) c + map_sum (table_billed_to a) (tables c).

Lemma sum_kinds_update (f : index_kind -> Z) k x :
  sum_kinds (fun k' => if decide (k' = k) then x else f k') = sum_kinds f - f k + x.
Proof. unfold sum_kinds. destruct k; repeat (destruct (decide (_ = _)); try done); lia. Qed.

Lemma sum_kinds_ext f g : (forall k, f k = g k) -> sum_kinds f = sum_kinds g.
Proof. intros H. unfold sum_kinds. by rewrite !H. Qed.

Lemma sum_kinds_ge f k : (forall k, 0 <= f k) -> f k <= sum_kinds f.
Proof.
  intros H. unfold sum_kinds. pose proof (H key_value); pose proof (H index64); pose proof (H index128);
  pose proof (H index256); pose proof (H index_double); pose proof (H index_long_double).
  destruct k; lia.
Qed.

Lemma in_table_nonneg t k r : 0 <= in_table t k r.
Proof. unfold in_table. by destruct (_ =? _). Qed.

Lemma total_ge w c k p r :
  (forall k r, 0 <= w k r) -> view k c !! p = Some r -> w k r <= total w c.
Proof.
  intros Hw Hp. unfold total.
  etrans; [|apply (sum_kinds_ge _ k); intros k'; apply map_sum_nonneg, Hw].
  apply (map_sum_ge (w k) _ p); [apply Hw|done].
Qed.

(** ** The invariant *)

Record rows_ok (c : context) (k : index_kind) : Prop := {
  row_id : forall p r, view k c !! p = Some r -> id r = p;
  row_fresh : forall p r, view k c !! p = Some r -> p < next_id (indices c k);
  row_table : forall p r, view k c !! p = Some r -> is_Some (tables c !! t_id r);
  row_size : forall p r, view k c !! p = Some r -> value_size (contents r) < 2 ^ 32;
  row_key : forall p q r s, view k c !! p = Some r -> view k c !! q = Some s ->
    t_id r = t_id s -> primary_key r = primary_key s -> p = q
}.

(** The iterators an action holds stand for rows that exist, and the tables of
    these rows have their end iterators. *)
Record caches_ok (c : context) (k : index_kind) : Prop := {
  cache_rep : cache_ok (cache_of k c);
  cached_row : forall i p, object_at (cache_of k c) i = Some p ->
    exists r, view k c !! p = Some r /\ is_Some (table_cache (cache_of k c) !! t_id r);
  cached_table : forall t, is_Some (table_cache (cache_of k c) !! t) -> t < next_table_id c
}.

Record tables_wf (c : context) : Prop := {
  table_id_eq : forall t o, tables c !! t = Some o -> tab_id o = t;
  table_fresh : forall t o, tables c !! t = Some o -> t < next_table_id c;
  table_count : forall t o, tables c !! t = Some o -> count o = total (in_table t) c;
  table_name : forall t t' o o', tables c !! t = Some o -> tables c !! t' = Some o' ->
    code o = code o' -> scope o = scope o' -> table o = table o' -> t = t'
}.

Record context_wf (c : context) : Prop := {
  wf_rows : forall k, rows_ok c k;
  wf_caches : forall k, caches_ok c k;
  wf_tables : tables_wf c
}.

(** A table exists only while it has rows. *)
Definition no_empty_table (c : context) : Prop :=
  forall t o, tables c !! t = Some o -> 0 < count o.

(** ** RAM accounts *)

Definition ram (c : context) (a : Z) : Z :=
  match tbl_view (Manager.usage (resource_limits c)) !! a with
  | Some u => Manager.ram_usage u
  | None => 0
  end.
Definition delta_of (c : context) (a : Z) : Z := default 0 (account_ram_deltas c !! a).

(** Room for [n] more operations: iterators are int, the counts uint32_t, the
    deltas int64_t; an operation bills less than 2^34 bytes. *)
Definition roomy (n : nat) (c : context) : Prop :=
  (forall k, room (2 * n) (cache_of k c))
  /\ (forall t o, tables c !! t = Some o -> count o + Z.of_nat n < 2 ^ 32)
  /\ forall a, Z.abs (delta_of c a) + Z.of_nat n * 2 ^ 34 < 2 ^ 63.

Definition ram_typed (c : context) : Prop :=
  forall a u, tbl_view (Manager.usage (resource_limits c)) !! a = Some u -> is_uint 64 (Manager.ram_usage u).

(** The fields that are fixed while a contract runs. *)
Definition same_action (c c' : context) : Prop :=
  receiver c' = receiver c /\ act_account c' = act_account c /\ authorization c' = authorization c
  /\ privileged c' = privileged c /\ ram_restrictions c' = ram_restrictions c
  /\ ram_billing_in_notify_allowed c' = ram_billing_in_notify_allowed c.

(** The account did not agree to pay. *)
Definition unwilling (c : context) (a : Z) : Prop :=
  a <> receiver c /\ has_authorization a c = false.

(** How RAM accounts evolve: the deltas of the action record every change, and
    an unprivileged contract does not charge an unwilling account (before
    ram_restrictions; afterwards the check at the end of exec_one does it). *)
Record ram_evolves (c c' : context) : Prop := {
  ev_action : same_action c c';
  ev_typed : ram_typed c -> ram_typed c';
  ev_delta : ram_typed c -> forall a, ram c' a - ram c a = delta_of c' a - delta_of c a;
  ev_willing : ram_typed c -> privileged c = false -> ram_restrictions c = false ->
    forall a, unwilling c a -> ram c' a <= ram c a
}.

#[export] Instance ram_evolves_preorder : PreOrder ram_evolves.
Proof.
  split.
  - intros c. split; [by repeat split|done|intros; lia|intros; lia].
  - intros c1 c2 c3 [(A1 & A2 & A3 & A4 & A5 & A6) T1 D1 W1] [(B1 & B2 & B3 & B4 & B5 & B6) T2 D2 W2].
    split.
    + unfold same_action. naive_solver congruence.
    + auto.
    + intros Ht a. specialize (D1 Ht a). specialize (D2 (T1 Ht) a). lia.
    + intros Ht Hp Hr a Ha. specialize (W1 Ht Hp Hr a Ha).
      assert (ram c3 a <= ram c2 a) as W2'; [|lia].
      apply W2; [auto|congruence|congruence|]. unfold unwilling, has_authorization in *.
      by rewrite A1, A3.
Qed.

(** [usage_moved c c' p d]: only [p]'s usage moved, by [d]. *)
Definition usage_moved (c c' : context) (p d : Z) : Prop :=
  forall a, ram c' a = ram c a + (if p =? a then d else 0).

Lemma add_pending_ram_usage_ok account d (s s' : @Manager.database TL TU) :
  - 2 ^ 63 < d < 2 ^ 63 ->
  (forall a u, tbl_view (Manager.usage s) !! a = Some u -> is_uint 64 (Manager.ram_usage u)) ->
  Manager.add_pending_ram_usage account d s = (Ok tt, s') ->
  let look m a := match tbl_view (Manager.usage m) !! a with Some u => Manager.ram_usage u | None => 0 end in
  (forall a, look s' a = look s a + (if account =? a then d else 0))
  /\ (forall a u, tbl_view (Manager.usage s') !! a = Some u -> is_uint 64 (Manager.ram_usage u)).
Proof.
  intros Hd Hty Hr look. unfold Manager.add_pending_ram_usage in Hr.
  destruct (Z.eqb_spec d 0) as [->|Hd0].
  { injection Hr as <-. split; [|done]. intros a. by destruct (account =? a); rewrite Z.add_0_r. }
  unfold Manager.get_usage, Manager.put_usage, bind, get_state, lift, modify, tbl_get in Hr.
  rewrite tbl_find_view in Hr.
  destruct (tbl_view (Manager.usage s) !! account) as [u|] eqn:Hu; [|done].
  pose proof (Hty _ _ Hu) as Hur. unfold is_uint in Hur. unfold eos_assert in Hr.
  destruct ((d <=? 0) || _) eqn:C1; [|done]. destruct (negb _) eqn:C2; [|done].
  destruct ((0 <=? d) || _) eqn:C3; [|done]. injection Hr as <-.
  assert (u64 (Manager.ram_usage u + u64 d) = Manager.ram_usage u + d /\ 0 <= Manager.ram_usage u + d < 2 ^ 64)
    as [Hsum Hfit].
  { unfold u64, wrap, UINT64_MAX in *. rewrite Zplus_mod_idemp_r.
    apply orb_true_iff in C1, C3. rewrite !Z.leb_le in C1, C3.
    destruct (Z.lt_ge_cases d 0).
    - rewrite (Z.mod_small (- d)) in C3 by lia. rewrite Z.mod_small; lia.
    - rewrite (Z.mod_small d) in C1 by lia. rewrite Z.mod_small; lia. }
  cbn. unfold Manager.set_usage. cbn [Manager.usage]. split.
  - intros a. unfold look. cbn [Manager.usage]. rewrite tbl_put_view.
    destruct (Z.eqb_spec account a) as [<-|Hne].
    + rewrite lookup_insert_eq, Hu. cbn. exact Hsum.
    + rewrite lookup_insert_ne by done. lia.
  - intros a v. rewrite tbl_put_view, lookup_insert_Some. intros [[<- <-]|[_ Hv]]; [|by eapply Hty].
    cbn. unfold is_uint. lia.
Qed.

(** ** What billing an account does *)

(** The exceptions that do not tell of a broken invariant. *)
Definition legit (e : exn) : Prop := e <> table_not_in_cache /\ e <> undefined_behavior.

Lemma legit_dec e : bool_decide (e = table_not_in_cache) || bool_decide (e = undefined_behavior) = false -> legit e.
Proof. intros H. by apply orb_false_iff in H as [?%bool_decide_eq_false ?%bool_decide_eq_false]. Qed.

(** The accounts after the deltas were recorded. *)
Record billed (c c' : context) (p d : Z) : Prop := {
  bl_ram : exists deltas lims v, c' = set_ram deltas lims v c;
  bl_evolves : ram_evolves c c';
  bl_moved : ram_typed c -> usage_moved c c' p d;
  bl_delta : forall a, delta_of c' a = delta_of c a + (if p =? a then d else 0)
}.

Lemma require_authorization_wp p c :
  wp (require_authorization p) (fun _ c' => c' = c /\ has_authorization p c = true) legit c.
Proof. unfold wp, require_authorization, bind, get_state, lift, has_authorization. by destruct (existsb _ _). Qed.

Definition willing (p d : Z) (c : context) : Prop :=
  0 < d -> privileged c || (p =? receiver c) || ram_restrictions c || has_authorization p c = true.

Lemma update_guard_wp p d c :
  wp (if 0 <? d then
        if negb (privileged c || (p =? receiver c) || ram_restrictions c) then
          check (ram_billing_in_notify_allowed c || (receiver c =? act_account c))
            else subjective_block_production_exception;
          require_authorization p
        else ret tt
      else ret tt) (fun _ c' => c' = c /\ willing p d c) legit c.
Proof.
  unfold willing. destruct (Z.ltb_spec 0 d); [|split; [done|lia]].
  destruct (privileged c || (p =? receiver c) || ram_restrictions c); cbn [negb orb]; [done|].
  apply wp_check; [done|]. intros _. eapply wp_mono; [apply require_authorization_wp|]. naive_solver.
Qed.

Lemma add_pending_throws account d (s s' : @Manager.database TL TU) e :
  - 2 ^ 63 < d -> Manager.add_pending_ram_usage account d s = (Throw e, s') -> legit e.
Proof.
  intros Hd. unfold Manager.add_pending_ram_usage. destruct (d =? 0); [done|].
  unfold Manager.get_usage, Manager.put_usage, bind, get_state, lift, modify, tbl_get, eos_assert.
  destruct (tbl_find _ _); [|by intros [= <- _]]. destruct (_ || _); [|by intros [= <- _]].
  destruct (Z.eqb_spec d (- 2 ^ 63)); [lia|]. cbn [negb].
  destruct (_ || _); [done|]. by intros [= <- _].
Qed.

Lemma add_ram_usage_wp p d c :
  Z.abs d < 2 ^ 33 -> Z.abs (delta_of c p) + 2 ^ 33 < 2 ^ 63 -> willing p d c ->
  wp (add_ram_usage p d) (fun _ c' => billed c c' p d) legit c.
Proof.
  intros Hd Hdelta Hauth. unfold wp, add_ram_usage, trx_add_ram_usage, bind, zoom, get_state, lift.
  destruct (Manager.add_pending_ram_usage p d (resource_limits c)) as [[[]|e] lims] eqn:Ep.
  2:{ eapply add_pending_throws; [|exact Ep]. lia. }
  set (v := if 0 <? d then {[p]} ∪ validate_ram_usage c else validate_ram_usage c).
  assert ((if 0 <? d then modify (fun c0 => set_ram (account_ram_deltas c0) (resource_limits c0)
              ({[p]} ∪ validate_ram_usage c0) c0) else ret tt) (set_ram (account_ram_deltas c) lims (validate_ram_usage c) c)
            = (Ok tt, set_ram (account_ram_deltas c) lims v c)) as ->.
  { unfold v. by destruct (0 <? d). }
  cbn [account_ram_deltas set_ram].
  assert (forall deltas, (forall a, default 0 (deltas !! a) = delta_of c a + (if p =? a then d else 0)) ->
    billed c (set_ram deltas lims v c) p d) as Hbilled.
  { intros deltas Hdel.
    assert (ram_typed c -> usage_moved c (set_ram deltas lims v c) p d /\ ram_typed (set_ram deltas lims v c)) as Hmv.
    { intros Ht. assert (- 2 ^ 63 < d < 2 ^ 63) as Hd' by lia.
      apply (add_pending_ram_usage_ok _ _ _ _ Hd' Ht) in Ep as [H1 H2]. split; [exact H1|exact H2]. }
    split; [by eexists _, _, _| |by apply Hmv|exact Hdel]. split; [done|by apply Hmv|..].
    - intros Ht a. destruct (Hmv Ht) as [Hm _]. rewrite (Hm a). unfold delta_of at 1. cbn. rewrite Hdel. lia.
    - intros Ht Hp Hram a [Ha1 Ha2]. destruct (Hmv Ht) as [Hm _]. rewrite (Hm a).
      destruct (Z.eqb_spec p a) as [->|]; [|lia]. destruct (Z.lt_ge_cases 0 d) as [Hpos|]; [|lia].
      specialize (Hauth Hpos). rewrite Hp, Hram, Ha2 in Hauth. destruct (Z.eqb_spec a (receiver c)); [done|].
      by cbn in Hauth. }
  assert (forall x, x = delta_of c p + d -> forall a, default 0 (<[p := x]> (account_ram_deltas c) !! a)
            = delta_of c a + (if p =? a then d else 0)) as Hins.
  { intros x -> a. unfold delta_of. destruct (Z.eqb_spec p a) as [<-|Hne].
    - by rewrite lookup_insert_eq.
    - rewrite lookup_insert_ne by done. lia. }
  unfold delta_of in Hdelta, Hins at 1. destruct (account_ram_deltas c !! p) as [delta|] eqn:Edel; cbn in Hdelta, Hins.
  - destruct (Z.leb_spec (- 2 ^ 63) (delta + d)); [|lia]. destruct (Z.ltb_spec (delta + d) (2 ^ 63)); [|lia].
    cbn. by apply Hbilled, Hins.
  - cbn. by apply Hbilled, Hins.
Qed.

(** The same for one call that returned, whoever pays. *)
Lemma add_ram_usage_ok p d c u c' :
  add_ram_usage p d c = (Ok u, c') -> - 2 ^ 63 < d < 2 ^ 63 -> ram_typed c ->
  (exists deltas lims v, c' = set_ram deltas lims v c) /\ usage_moved c c' p d /\ ram_typed c'.
Proof.
  unfold add_ram_usage, trx_add_ram_usage, bind, zoom, get_state, lift. intros Hr Hd Ht.
  destruct (Manager.add_pending_ram_usage p d (resource_limits c)) as [[[]|e] lims] eqn:Ep; [|done].
  apply (add_pending_ram_usage_ok _ _ _ _ Hd Ht) in Ep as [Hm Hty].
  set (v := if 0 <? d then {[p]} ∪ validate_ram_usage c else validate_ram_usage c).
  assert (exists deltas, c' = set_ram deltas lims v c) as [deltas ->].
  { unfold v. destruct (0 <? d); unfold modify, ret in Hr; cbn [account_ram_deltas set_ram resource_limits] in Hr;
      (destruct (account_ram_deltas c !! p);
        [unfold eos_assert in Hr; destruct (_ && _); [|done]|]); injection Hr as _ <-; by eexists. }
  split; [by eexists _, _, _|]. split; [exact Hm|exact Hty].
Qed.

Lemma update_db_usage_wp p d c :
  Z.abs d < 2 ^ 33 -> Z.abs (delta_of c p) + 2 ^ 33 < 2 ^ 63 ->
  wp (update_db_usage p d) (fun _ c' => billed c c' p d) legit c.
Proof.
  intros Hd Hdelta. unfold update_db_usage. apply wp_bind. apply wp_bind.
  eapply wp_mono; [apply update_guard_wp|]. intros [] c' _ [-> Hw]. by apply add_ram_usage_wp.
Qed.

(** ** How the state changers act on what the containers hold *)

Lemma view_set_rows k k' t n c : view k' (set_rows k t n c) = if decide (k' = k) then tbl_view t else view k' c.
Proof. unfold view. cbn. by destruct (decide (k' = k)). Qed.
Lemma cache_set_rows k k' t n c : cache_of k' (set_rows k t n c) = cache_of k' c.
Proof. unfold cache_of. cbn. destruct (decide (k' = k)) as [->|]; done. Qed.
Lemma view_set_cache k k' ca c : view k' (set_cache k ca c) = view k' c.
Proof. unfold view. cbn. destruct (decide (k' = k)) as [->|]; done. Qed.
Lemma next_id_set_cache k k' ca c : next_id (indices (set_cache k ca c) k') = next_id (indices c k').
Proof. cbn. destruct (decide (k' = k)) as [->|]; done. Qed.
Lemma next_id_set_rows k k' t n c :
  next_id (indices (set_rows k t n c) k') = if decide (k' = k) then n else next_id (indices c k').
Proof. cbn. by destruct (decide (k' = k)). Qed.
Lemma cache_set_cache k k' ca c : cache_of k' (set_cache k ca c) = if decide (k' = k) then ca else cache_of k' c.
Proof. unfold cache_of. cbn. by destruct (decide (k' = k)). Qed.
Lemma tables_set_tables t n c : tables (set_tables t n c) = tbl_view t.
Proof. done. Qed.

Lemma total_ext w c c' : (forall k, view k c' = view k c) -> total w c' = total w c.
Proof. intros H. apply sum_kinds_ext. intros k. by rewrite H. Qed.

Lemma total_change w c c' k m :
  (forall k', view k' c' = if decide (k' = k) then m else view k' c) ->
  total w c' = total w c - map_sum (w k) (view k c) + map_sum (w k) m.
Proof.
  intros H. unfold total. rewrite <- (sum_kinds_update (fun k => map_sum (w k) (view k c))).
  apply sum_kinds_ext. intros k'. rewrite H. by destruct (decide (k' = k)) as [->|].
Qed.

Lemma billed_ext a c c' :
  (forall k, view k c' = view k c) -> tables c' = tables c -> billed_to a c' = billed_to a c.
Proof. intros Hv Ht. unfold billed_to. by rewrite Ht, (total_ext _ c c' Hv). Qed.

Lemma find_table_Some cd sc tb c o :
  find_table cd sc tb c = Some o -> tables_wf c ->
  tables c !! tab_id o = Some o /\ code o = cd /\ scope o = sc /\ table o = tb.
Proof.
  unfold find_table. intros Hf Hwf. apply fmap_Some in Hf as ([i o'] & Hf & ->).
  apply list_find_Some in Hf as (Hl & Hp & _). split; [|done]. cbn.
  apply list_elem_of_lookup_2, list_elem_of_fmap in Hl as ([t o''] & E & Hin). cbn in E. subst o''.
  apply tbl_rows_elem in Hin. by rewrite (table_id_eq _ Hwf _ _ Hin).
Qed.

Lemma find_table_None cd sc tb c t o :
  find_table cd sc tb c = None -> tables c !! t = Some o ->
  ~ (code o = cd /\ scope o = sc /\ table o = tb).
Proof.
  unfold find_table. rewrite fmap_None, list_find_None, Forall_forall. intros Hf Ho.
  apply Hf, list_elem_of_fmap. exists (t, o). split; [done|]. by apply tbl_rows_elem.
Qed.

Lemma find_table_found c o :
  tables_wf c -> tables c !! tab_id o = Some o -> find_table (code o) (scope o) (table o) c = Some o.
Proof.
  intros Hwf Ho. destruct (find_table (code o) (scope o) (table o) c) as [o'|] eqn:E.
  - apply find_table_Some in E as (Ho' & E1 & E2 & E3); [|done].
    assert (tab_id o = tab_id o') as Et by (eapply (table_name _ Hwf); [exact Ho|exact Ho'|..]; congruence).
    rewrite Et, Ho' in Ho. by injection Ho as ->.
  - exfalso. by eapply find_table_None; [exact E|exact Ho|].
Qed.

(** ** Keeping the invariant *)

Lemma wf_set_ram deltas lims v c : context_wf c -> context_wf (set_ram deltas lims v c).
Proof.
  intros [A B C]. split; [intros k; destruct (A k)|intros k; destruct (B k)|destruct C]; by split.
Qed.

Lemma no_rows_total c t :
  (forall k p r, view k c !! p = Some r -> t_id r <> t) -> total (in_table t) c = 0.
Proof.
  intros H. unfold total, sum_kinds.
  rewrite !map_sum_zero; [done|..]; intros p r Hr; unfold in_table;
    (destruct (Z.eqb_spec (t_id r) t) as [E|]; [by apply H in Hr|done]).
Qed.

Lemma wf_new_table c o :
  context_wf c -> tab_id o = next_table_id c -> count o = 0 ->
  find_table (code o) (scope o) (table o) c = None ->
  context_wf (set_tables (tbl_put (next_table_id c) o (table_ids c)) (next_table_id c + 1) c).
Proof.
  intros [Hr Hc Ht] Hid Hn Hnone. set (c' := set_tables _ _ _).
  assert (tables c' = <[next_table_id c := o]> (tables c)) as Et
    by (unfold c'; rewrite tables_set_tables, tbl_put_view; done).
  split.
  - intros k. destruct (Hr k). split; try done. intros p r Hp. rewrite Et.
    apply lookup_insert_is_Some'. right. by apply (row_table0 p).
  - intros k. destruct (Hc k). split; try done. intros t Hx. apply cached_table0 in Hx. cbn. lia.
  - destruct Ht as [T1 T2 T3 T4]. split; rewrite ?Et.
    + intros t x. rewrite lookup_insert_Some. intros [[<- <-]|[_ Hx]]; [done|by apply T1].
    + intros t x. rewrite lookup_insert_Some. cbn. intros [[<- <-]|[_ Hx]]; [lia|]. apply T2 in Hx. lia.
    + intros t x. rewrite lookup_insert_Some. intros [[<- <-]|[_ Hx]]; [|by apply T3].
      rewrite Hn. symmetry. apply no_rows_total. intros k p r Hp E.
      destruct (row_table _ _ (Hr k) _ _ Hp) as [x Hx]. apply T2 in Hx. lia.
    + intros t t' x x'. rewrite !lookup_insert_Some.
      intros [[<- <-]|[_ Hx]] [[<- <-]|[_ Hx']] E1 E2 E3; [done|..|by eapply T4].
      * exfalso. eapply find_table_None; [exact Hnone|exact Hx'|]. done.
      * exfalso. eapply find_table_None; [exact Hnone|exact Hx|]. done.
Qed.

(** [c'] holds the rows of [c] and the new row [r], counted by its table. *)
Lemma wf_new_row k c tab r n :
  context_wf c -> tables c !! tab_id tab = Some tab ->
  id r = next_id (indices c k) -> t_id r = tab_id tab -> value_size (contents r) < 2 ^ 32 ->
  (forall p s, view k c !! p = Some s -> t_id s = t_id r -> primary_key s <> primary_key r) ->
  n = count tab + 1 ->
  let c' := set_tables (tbl_put (tab_id tab) (set_count n tab) (table_ids c)) (next_table_id c)
              (set_rows k (tbl_put (id r) r (rows (indices c k))) (id r + 1) c) in
  context_wf c' /\ view k c' = <[id r := r]> (view k c) /\ view k c !! id r = None
  /\ tables c' = <[tab_id tab := set_count n tab]> (tables c)
  /\ (forall w, total w c' = total w c + w k r).
Proof.
  intros [Hr Hc Ht] Htab Hid Htid Hsz Hkey -> c'.
  assert (view k c !! id r = None) as Hnew.
  { destruct (view k c !! id r) as [s|] eqn:E; [|done]. apply (row_fresh _ _ (Hr k)) in E. lia. }
  assert (forall k', view k' c' = if decide (k' = k) then <[id r := r]> (view k c) else view k' c) as Hv.
  { intros k'. unfold c'. etrans; [exact (view_set_rows k k' _ _ c)|]. by rewrite tbl_put_view. }
  assert (forall k', cache_of k' c' = cache_of k' c) as Hca by (intros k'; apply (cache_set_rows k k')).
  assert (tables c' = <[tab_id tab := set_count (count tab + 1) tab]> (tables c)) as Et
    by (unfold c'; rewrite tables_set_tables, tbl_put_view; done).
  assert (forall w, total w c' = total w c + w k r) as Htot.
  { intros w. rewrite (total_change w c c' k (<[id r := r]> (view k c)) Hv), map_sum_insert by done. lia. }
  assert (view k c' = <[id r := r]> (view k c)) as Hvk by (rewrite Hv; by destruct (decide (k = k))).
  split; [|done]. split.
  - intros k'. destruct (Hr k') as [R1 R2 R3 R4 R5].
    assert (forall p s, view k' c' !! p = Some s -> (k' = k /\ p = id r /\ s = r) \/ view k' c !! p = Some s) as Hin.
    { intros p s. rewrite Hv. destruct (decide (k' = k)) as [->|]; [|by right].
      rewrite lookup_insert_Some. intros [[<- <-]|[_ ?]]; [by left|by right]. }
    split.
    + intros p s [(-> & -> & ->)|Hs]%Hin; [done|by apply R1].
    + intros p s Hs%Hin.
      assert (next_id (indices c' k') = if decide (k' = k) then id r + 1 else next_id (indices c k')) as ->
        by exact (next_id_set_rows k k' _ _ c).
      destruct Hs as [(-> & -> & ->)|Hs]; [destruct (decide (k = k)); [lia|done]|].
      apply R2 in Hs. destruct (decide (k' = k)) as [->|]; lia.
    + intros p s Hs%Hin. rewrite Et. apply lookup_insert_is_Some'.
      destruct Hs as [(-> & -> & ->)|Hs]; [by left|right; by apply (R3 p)].
    + intros p s [(-> & -> & ->)|Hs]%Hin; [done|by apply (R4 p)].
    + intros p q s s' [(-> & -> & ->)|Hs]%Hin [(? & -> & ->)|Hs']%Hin E1 E2; try done.
      * exfalso. by eapply Hkey; [exact Hs'|..].
      * subst. exfalso. by eapply Hkey; [exact Hs|..].
      * by eapply R5.
  - intros k'. destruct (Hc k') as [C1 C2 C3]. split; rewrite ?Hca; try done.
    intros i p Hi. apply C2 in Hi as (s & Hs & Hts). exists s. split; [|done].
    rewrite Hv. destruct (decide (k' = k)) as [->|]; [|done]. rewrite lookup_insert_ne; [done|].
    intros <-. congruence.
  - destruct Ht as [T1 T2 T3 T4].
    assert (forall t x, tables c' !! t = Some x -> exists y, tables c !! t = Some y /\ code x = code y
      /\ scope x = scope y /\ table x = table y /\ tab_id x = tab_id y
      /\ count x = count y + (if t =? tab_id tab then 1 else 0)) as Hin.
    { intros t x. rewrite Et, lookup_insert_Some. intros [[<- <-]|[Hne Hx]].
      - exists tab. rewrite Z.eqb_refl. done.
      - exists x. destruct (Z.eqb_spec t (tab_id tab)); [done|]. repeat split; (done || lia). }
    split.
    + intros t x (y & Hy & _ & _ & _ & -> & _)%Hin. by apply T1.
    + intros t x (y & Hy & _)%Hin. by apply (T2 t y).
    + intros t x (y & Hy & _ & _ & _ & _ & ->)%Hin. rewrite Htot, (T3 _ _ Hy). unfold in_table at 3.
      rewrite Htid, (Z.eqb_sym (tab_id tab) t). by destruct (t =? tab_id tab).
    + intros t t' x x' (y & Hy & -> & -> & -> & _)%Hin (y' & Hy' & -> & -> & -> & _)%Hin. by apply (T4 t t' y y').
Qed.

Lemma wf_cache_table k t c ei ca :
  context_wf c -> is_Some (tables c !! t) -> room 1 (cache_of k c) ->
  IteratorCache.cache_table t (cache_of k c) = (ei, ca) ->
  context_wf (set_cache k ca c).
Proof.
  intros [Hr Hc Ht] [o Ho] Hroom E. destruct (Hc k) as [C1 C2 C3].
  destruct (cache_table_end _ _ _ _ C1 Hroom E) as (K1 & K2 & K3 & K4 & K5 & K6).
  set (c' := set_cache k ca c). split.
  - intros k'. destruct (Hr k'). split; unfold c'; rewrite ?view_set_cache, ?next_id_set_cache; done.
  - intros k'. destruct (Hc k') as [D1 D2 D3]. unfold c'. split; rewrite ?cache_set_cache, ?view_set_cache;
      (destruct (decide (k' = k)) as [->|]; [|done]).
    + done.
    + intros i p. unfold object_at. rewrite K5. intros Hi. apply C2 in Hi as (r & Hp & [x Hx]).
      exists r. split; [done|]. specialize (K3 (t_id r) (snd x)). unfold end_of in K3. rewrite Hx in K3.
      specialize (K3 eq_refl). apply fmap_Some in K3 as (y & -> & _). by eexists.
    + intros u Hu. apply K4 in Hu as [-> |Hu]; [|by apply C3]. by apply (table_fresh _ Ht _ _ Ho).
  - split; try apply Ht. intros u x Hx. unfold c'. rewrite (total_ext _ c) by (intros; apply view_set_cache).
    by apply (table_count _ Ht).
Qed.

Lemma wf_cache_add k c r i ca :
  context_wf c -> view k c !! id r = Some r -> is_Some (table_cache (cache_of k c) !! t_id r) ->
  room 1 (cache_of k c) -> IteratorCache.add (id r) (cache_of k c) = (i, ca) ->
  context_wf (set_cache k ca c).
Proof.
  intros [Hr Hc Ht] Hrow Htab Hroom E. destruct (Hc k) as [C1 C2 C3].
  destruct (add_object _ _ _ _ C1 Hroom E) as (K1 & K2 & K3 & K4 & K5 & K6).
  set (c' := set_cache k ca c). split.
  - intros k'. destruct (Hr k'). split; unfold c'; rewrite ?view_set_cache, ?next_id_set_cache; done.
  - intros k'. destruct (Hc k') as [D1 D2 D3]. unfold c'. split; rewrite ?cache_set_cache, ?view_set_cache;
      (destruct (decide (k' = k)) as [->|]; [|done]).
    + done.
    + intros j p Hj. rewrite K5. apply K4 in Hj as [-> |Hj]; [by exists r|by apply (C2 j)].
    + intros u. rewrite K5. apply C3.
  - split; try apply Ht. intros u x Hx. unfold c'. rewrite (total_ext _ c) by (intros; apply view_set_cache).
    by apply (table_count _ Ht).
Qed.

(** [c'] is [c] with the rows of container [k], its cache, and the tables
    replaced. *)
Record replaced (c c' : context) (k : index_kind) (m : gmap Z row) (ca : iterator_cache)
    (ts : gmap Z table_id_object) : Prop := {
  rp_view : forall k', view k' c' = if decide (k' = k) then m else view k' c;
  rp_cache : forall k', cache_of k' c' = if decide (k' = k) then ca else cache_of k' c;
  rp_tables : tables c' = ts;
  rp_next : next_table_id c' = next_table_id c;
  rp_next_id : forall k', next_id (indices c' k') = next_id (indices c k')
}.

Lemma wf_modified_row k c c' r r' :
  context_wf c -> view k c !! id r = Some r ->
  id r' = id r -> t_id r' = t_id r -> primary_key r' = primary_key r -> value_size (contents r') < 2 ^ 32 ->
  replaced c c' k (<[id r := r']> (view k c)) (cache_of k c) (tables c) ->
  context_wf c' /\ forall w, total w c' = total w c - w k r + w k r'.
Proof.
  intros [Hr Hc Ht] Hrow E1 E2 E3 Hsz [Hv Hca Hts Hn Hni].
  assert (forall w, total w c' = total w c - w k r + w k r') as Htot.
  { intros w. rewrite (total_change w c c' k _ Hv), (map_sum_replace _ _ _ r) by done. lia. }
  assert (forall k', cache_of k' c' = cache_of k' c) as Hca'
    by (intros k'; rewrite Hca; by destruct (decide (k' = k)) as [->|]).
  assert (forall k' p s, view k' c' !! p = Some s -> exists s', view k' c !! p = Some s'
    /\ id s = id s' /\ t_id s = t_id s' /\ primary_key s = primary_key s'
    /\ (value_size (contents s') < 2 ^ 32 -> value_size (contents s) < 2 ^ 32)) as Hin.
  { intros k' p s. rewrite Hv. destruct (decide (k' = k)) as [->|]; [|by eauto 10].
    rewrite lookup_insert_Some. intros [[<- <-]|[_ Hs]]; [|by eauto 10]. exists r. done. }
  split; [|done]. split.
  - intros k'. destruct (Hr k') as [R1 R2 R3 R4 R5]. split; rewrite ?Hni, ?Hts.
    + intros p s (s' & Hs & -> & _)%Hin. by apply R1.
    + intros p s (s' & Hs & _)%Hin. by eapply R2.
    + intros p s (s' & Hs & _ & -> & _)%Hin. by eapply R3.
    + intros p s (s' & Hs & _ & _ & _ & Hz)%Hin. by eapply Hz, R4.
    + intros p q s x (s' & Hs & _ & -> & -> & _)%Hin (x' & Hx & _ & -> & -> & _)%Hin. by eapply R5.
  - intros k'. destruct (Hc k') as [C1 C2 C3]. split; rewrite ?Hca', ?Hn; try done.
    intros i p Hi. apply C2 in Hi as (s & Hs & Hx). rewrite Hv.
    destruct (decide (k' = k)) as [->|]; [|by exists s].
    destruct (decide (p = id r)) as [->|Hne].
    + exists r'. rewrite lookup_insert_eq. split; [done|]. rewrite Hrow in Hs. injection Hs as <-. by rewrite E2.
    + exists s. by rewrite lookup_insert_ne.
  - destruct Ht as [T1 T2 T3 T4]. split; rewrite ?Hts, ?Hn; try done.
    intros t o Ho. rewrite Htot, (T3 _ _ Ho). unfold in_table at 3 4. rewrite E2. lia.
Qed.

(** The table of an erased row loses one, and goes with its last row. *)
Definition after_erase (c : context) (tab : table_id_object) : gmap Z table_id_object :=
  if count tab =? 1 then delete (tab_id tab) (tables c)
  else <[tab_id tab := set_count (count tab - 1) tab]> (tables c).

(** The tables that are left, and their counts. *)
Lemma after_erase_tables c tab r t o : tables c !! t_id r = Some tab -> tab_id tab = t_id r -> after_erase c tab !! t = Some o ->
  exists o', tables c !! t = Some o' /\ code o = code o' /\ scope o = scope o' /\ table o = table o' /\ tab_id o = tab_id o'
    /\ count o = count o' - (if t =? t_id r then 1 else 0).
Proof.
  intros Htab Etab. unfold after_erase. rewrite Etab. destruct (count tab =? 1).
  - rewrite lookup_delete_Some. intros [Hne Ho]. exists o. destruct (Z.eqb_spec t (t_id r)); [done|].
    repeat split; (done || lia).
  - rewrite lookup_insert_Some. intros [[<- <-]|[Hne Ho]].
    + exists tab. rewrite Z.eqb_refl. done.
    + exists o. destruct (Z.eqb_spec t (t_id r)); [done|]. repeat split; (done || lia).
Qed.

(** A table that still has a row is kept. *)
Lemma after_erase_kept k c c' r tab k' p s : tables_wf c -> tables c !! t_id r = Some tab -> tab_id tab = t_id r ->
  total (in_table (t_id r)) c' = total (in_table (t_id r)) c - in_table (t_id r) k r ->
  view k' c' !! p = Some s -> is_Some (tables c !! t_id s) -> is_Some (after_erase c tab !! t_id s).
Proof.
  intros Ht Htab Etab Htot Hs [o Ho]. unfold after_erase. rewrite Etab. destruct (Z.eqb_spec (count tab) 1) as [E1|_].
  - rewrite lookup_delete_ne; [by eexists|]. intros E.
    pose proof (table_count _ Ht _ _ Htab) as Hcnt. rewrite E1 in Hcnt.
    pose proof (total_ge (in_table (t_id r)) c' k' p s (in_table_nonneg _) Hs) as Hge.
    unfold in_table at 1 in Hge. rewrite <- E, Z.eqb_refl in Hge. cbn in Hge.
    rewrite Htot in Hge. unfold in_table at 2 in Hge. rewrite Z.eqb_refl in Hge. cbn in Hge. lia.
  - apply lookup_insert_is_Some'. right. by eexists.
Qed.

Lemma wf_erased_row k c c' r tab i ca :
  context_wf c -> object_at (cache_of k c) i = Some (id r) -> view k c !! id r = Some r ->
  tables c !! t_id r = Some tab -> IteratorCache.remove i (cache_of k c) = Ok ca -> i < 2 ^ 31 ->
  replaced c c' k (delete (id r) (view k c)) ca (after_erase c tab) ->
  context_wf c' /\ (forall w, total w c' = total w c - w k r).
Proof.
  intros [Hr Hc Ht] Hi Hrow Htab Hrm Hi31 [Hv Hca Hts Hn Hni].
  assert (forall w, total w c' = total w c - w k r) as Htot.
  { intros w. rewrite (total_change w c c' k _ Hv), (map_sum_delete _ _ _ r) by done. lia. }
  assert (tab_id tab = t_id r) as Etab by (by apply (table_id_eq _ Ht)).
  assert (forall k' p s, view k' c' !! p = Some s -> view k' c !! p = Some s /\ (k' = k -> p <> id r)) as Hin.
  { intros k' p s. rewrite Hv. destruct (decide (k' = k)) as [->|]; [|done].
    rewrite lookup_delete_Some. naive_solver. }
  assert (forall t o, tables c' !! t = Some o -> exists o', tables c !! t = Some o' /\ code o = code o'
    /\ scope o = scope o' /\ table o = table o' /\ tab_id o = tab_id o'
    /\ count o = count o' - (if t =? t_id r then 1 else 0)) as Htin.
  { intros t o. rewrite Hts. by apply after_erase_tables. }
  split; [|done]. split.
  - intros k'. destruct (Hr k') as [R1 R2 R3 R4 R5]. split; rewrite ?Hni.
    + intros p s [Hs _]%Hin. by apply R1.
    + intros p s [Hs _]%Hin. by eapply R2.
    + intros p s Hs. rewrite Hts. apply (after_erase_kept k c c' r tab k' p s); [done|done|done|apply Htot|done|]. apply Hin in Hs as [Hs _]. by apply (R3 _ _ Hs).
    + intros p s [Hs _]%Hin. by eapply R4.
    + intros p q s x [Hs _]%Hin [Hx _]%Hin. by eapply R5.
  - intros k'. destruct (Hc k') as [C1 C2 C3]. rewrite <- Hn in C3.
    destruct (decide (k' = k)) as [->|Hne].
    + destruct (remove_object i _ _ C1 Hi31 Hi) as (ca' & E & K1 & K2 & K3 & K4 & _).
      rewrite Hrm in E. injection E as <-.
      assert (cache_of k c' = ca) as Eca by (rewrite Hca; by destruct (decide (k = k))).
      split; rewrite ?Eca; [done|..].
      * intros j p Hj. apply K2 in Hj as [Hj Hp]. apply C2 in Hj as (s & Hs & Hx). exists s. rewrite K3.
        split; [|done]. rewrite Hv. destruct (decide (k = k)); [|done]. by rewrite lookup_delete_ne.
      * rewrite K3. exact C3.
    + assert (cache_of k' c' = cache_of k' c) as Eca by (rewrite Hca; by destruct (decide (k' = k))).
      split; rewrite ?Eca; try done. intros j p Hj. apply C2 in Hj as (s & Hs & Hx). exists s.
      rewrite Hv. by destruct (decide (k' = k)).
  - destruct Ht as [T1 T2 T3 T4]. split.
    + intros t o (o' & Ho & _ & _ & _ & -> & _)%Htin. by apply T1.
    + intros t o (o' & Ho & _)%Htin. rewrite Hn. by eapply T2.
    + intros t o (o' & Ho & _ & _ & _ & _ & ->)%Htin. rewrite Htot, (T3 _ _ Ho). unfold in_table at 3.
      rewrite (Z.eqb_sym (t_id r) t). by destruct (t =? t_id r).
    + intros t t' o x (o' & Ho & -> & -> & -> & _)%Htin (x' & Hx & -> & -> & -> & _)%Htin. by eapply T4.
Qed.
End Invariant.
