(* ===== verification/ContractOperations.v ===== *)
(** Every database operation of an action keeps the invariant of
    ContractInvariant, moves RAM by exactly what the rows cost, keeps the
    iterators the contract already has, and fails only for a reason that is
    the contract's own. *)

From Stdlib Require Import ZArith Lia.
From stdpp Require Import base gmap numbers sorting list.
From S2P Require Import Prelude Chainbase Authority ResourceLimits IteratorCache ContractTables ContractInvariant.

#[local] Open Scope Z_scope.
#[local] Open Scope chain_scope.

Section Operations.
Context {SF : SoftFloat}.
Context {TT TR TL TU : Type} `{HTT : !Table Z table_id_object TT} `{HTR : !Table Z row TR}.
Context `{HTL : !Table (bool * Z) Manager.resource_limits_object TL}
        `{HTU : !Table Z Manager.resource_usage_object TU}.

Abbreviation context := (@apply_context TT TR TL TU).
Implicit Types (c : context) (k : index_kind) (r : row).

(** ** Operations that only grow a cache *)

Record reads (n : nat) (c c' : context) : Prop := {
  rd_wf : context_wf c';
  rd_rows : forall k, rows (indices c' k) = rows (indices c k);
  rd_next : forall k, next_id (indices c' k) = next_id (indices c k);
  rd_tables : table_ids c' = table_ids c;
  rd_limits : resource_limits c' = resource_limits c;
  rd_deltas : account_ram_deltas c' = account_ram_deltas c;
  rd_action : same_action c c';
  rd_room : forall k m, room (n + m) (cache_of k c) -> room m (cache_of k c');
  rd_iter : forall k i p, object_at (cache_of k c) i = Some p -> object_at (cache_of k c') i = Some p;
  rd_end : forall k t e, end_of (cache_of k c) t = Some e -> end_of (cache_of k c') t = Some e
}.

Lemma reads_refl c : context_wf c -> reads 0 c c.
Proof. intros Hwf. by split. Qed.

Lemma reads_trans n m c1 c2 c3 : reads n c1 c2 -> reads m c2 c3 -> reads (n + m) c1 c3.
Proof.
  intros [A1 A2 A3 A4 A5 A6 A7 A8 A9 A10] [B1 B2 B3 B4 B5 B6 B7 B8 B9 B10]. split; try congruence.
  - unfold same_action in *. naive_solver congruence.
  - intros k x Hx. apply B8, A8. by rewrite Nat.add_assoc.
  - auto.
  - auto.
Qed.

Lemma reads_view n c c' k : reads n c c' -> view k c' = view k c.
Proof. intros H. unfold view. by rewrite (rd_rows _ _ _ H). Qed.
Lemma reads_tables n c c' : reads n c c' -> tables c' = tables c.
Proof. intros H. unfold tables. by rewrite (rd_tables _ _ _ H). Qed.
Lemma reads_index_rows n c c' k by_ : reads n c c' -> index_rows k by_ c' = index_rows k by_ c.
Proof. intros H. unfold index_rows. by rewrite (rd_rows _ _ _ H). Qed.

Lemma cache_table_reads k t c :
  context_wf c -> is_Some (tables c !! t) -> room 1 (cache_of k c) ->
  exists ei c', cache_table k t c = (Ok ei, c') /\ reads 1 c c' /\ end_of (cache_of k c') t = Some ei.
Proof.
  intros Hwf Ht Hroom. unfold cache_table. fold (cache_of k c).
  destruct (IteratorCache.cache_table t (cache_of k c)) as [ei ca] eqn:E.
  pose proof (wf_cache_table k t c ei ca Hwf Ht Hroom E) as Hwf'.
  destruct (cache_table_end _ _ _ _ (cache_rep _ _ (wf_caches _ Hwf k)) Hroom E) as (K1 & K2 & K3 & K4 & K5 & K6).
  exists ei, (set_cache k ca c). split; [done|].
  split; [|rewrite cache_set_cache; by destruct (decide (k = k))].
  split; try done.
  - intros k'. cbn. by destruct (decide (k' = k)) as [->|].
  - intros k'. apply next_id_set_cache.
  - intros k' m. rewrite cache_set_cache. destruct (decide (k' = k)) as [->|]; [apply K6|].
    intros H. eapply room_le; [|exact H]. lia.
  - intros k' i p. rewrite cache_set_cache. destruct (decide (k' = k)) as [->|]; [|done].
    unfold object_at. by rewrite K5.
  - intros k' t' e. rewrite cache_set_cache. destruct (decide (k' = k)) as [->|]; [apply K3|done].
Qed.

Lemma cache_add_reads k r c :
  context_wf c -> view k c !! id r = Some r -> is_Some (table_cache (cache_of k c) !! t_id r) ->
  room 1 (cache_of k c) ->
  exists it c', cache_add k (id r) c = (Ok it, c') /\ reads 1 c c' /\ object_at (cache_of k c') it = Some (id r).
Proof.
  intros Hwf Hr Ht Hroom. unfold cache_add. fold (cache_of k c).
  destruct (IteratorCache.add (id r) (cache_of k c)) as [it ca] eqn:E.
  pose proof (wf_cache_add k c r it ca Hwf Hr Ht Hroom E) as Hwf'.
  destruct (add_object _ _ _ _ (cache_rep _ _ (wf_caches _ Hwf k)) Hroom E) as (K1 & K2 & K3 & K4 & K5 & K6).
  exists it, (set_cache k ca c). split; [done|].
  split; [|rewrite cache_set_cache; by destruct (decide (k = k))].
  split; try done.
  - intros k'. cbn. by destruct (decide (k' = k)) as [->|].
  - intros k'. apply next_id_set_cache.
  - intros k' m. rewrite cache_set_cache. destruct (decide (k' = k)) as [->|]; [apply K6|].
    intros H. eapply room_le; [|exact H]. lia.
  - intros k' i p. rewrite cache_set_cache. destruct (decide (k' = k)) as [->|]; [apply K3|done].
  - intros k' t' e. rewrite cache_set_cache. destruct (decide (k' = k)) as [->|]; [|done].
    unfold end_of. by rewrite K5.
Qed.

Lemma end_of_cached ca t e : end_of ca t = Some e -> is_Some (table_cache ca !! t).
Proof. unfold end_of. intros (x & -> & _)%fmap_Some. by eexists. Qed.

Lemma cached_end_of ca t : is_Some (table_cache ca !! t) -> exists e, end_of ca t = Some e.
Proof. intros [x Hx]. exists (snd x). unfold end_of. by rewrite Hx. Qed.

(** ** Dereferencing iterators *)

(** What an iterator of a contract stands for. *)
Definition designates (k : index_kind) (c : context) (it : Z) (r : row) : Prop :=
  object_at (cache_of k c) it = Some (id r) /\ view k c !! id r = Some r.

Lemma get_row_designates k c it r :
  context_wf c -> designates k c it r -> get_row k it c = (Ok r, c).
Proof.
  intros Hwf [Ho Hr]. pose proof (cache_rep _ _ (wf_caches _ Hwf k)) as Hc.
  unfold get_row, bind, get_state, lift. fold (cache_of k c).
  rewrite (proj2 (get_ok it _ _ Hc (proj2 (object_at_small _ _ _ Hc Ho))) Ho), tbl_find_view.
  fold (view k c). by rewrite Hr.
Qed.

Lemma designates_cached k c it r :
  context_wf c -> designates k c it r ->
  is_Some (table_cache (cache_of k c) !! t_id r) /\ is_Some (tables c !! t_id r) /\ value_size (contents r) < 2 ^ 32.
Proof.
  intros Hwf [Ho Hr]. split; [|split].
  - destruct (cached_row _ _ (wf_caches _ Hwf k) _ _ Ho) as (r' & Hr' & Hx). rewrite Hr in Hr'.
    by injection Hr' as <-.
  - by apply (row_table _ _ (wf_rows _ Hwf k) _ _ Hr).
  - by apply (row_size _ _ (wf_rows _ Hwf k) _ _ Hr).
Qed.

Lemma get_row_wp k it c :
  context_wf c -> it < 2 ^ 31 ->
  wp (get_row k it) (fun r c' => c' = c /\ designates k c it r) legit c.
Proof.
  intros Hwf Hit. pose proof (cache_rep _ _ (wf_caches _ Hwf k)) as Hc.
  destruct (object_at (cache_of k c) it) as [p|] eqn:Ho.
  - destruct (cached_row _ _ (wf_caches _ Hwf k) _ _ Ho) as (r & Hr & _).
    assert (id r = p) as <- by (by apply (row_id _ _ (wf_rows _ Hwf k))).
    unfold wp. by rewrite (get_row_designates k c it r).
  - unfold wp, get_row, bind, get_state, lift. fold (cache_of k c). rewrite get_object, Ho by done.
    by destruct (it <? -1); [|destruct ((it =? -1) || (Z.of_nat (length (iterator_to_object (cache_of k c))) <=? it))].
Qed.

(** The references to a live row's table are sound. *)
Lemma table_of_ok k c it r :
  context_wf c -> designates k c it r ->
  exists tab, tables c !! t_id r = Some tab /\ tab_id tab = t_id r /\ table_of k (t_id r) c = (Ok tab, c).
Proof.
  intros Hwf Hd. destruct (designates_cached _ _ _ _ Hwf Hd) as ([[ptr ei] Hx] & [tab Htab] & _).
  exists tab. split; [done|]. split; [by apply (table_id_eq _ (wf_tables _ Hwf))|].
  unfold table_of, bind, get_state, lift, IteratorCache.get_table. fold (cache_of k c). rewrite Hx.
  apply (IteratorCache.tables_ok _ (cache_rep _ _ (wf_caches _ Hwf k))) in Hx as [-> _].
  unfold deref_table, bind, get_state. rewrite tbl_find_view. fold (tables c). by rewrite Htab.
Qed.

(** ** What an operation keeps *)

Record keeps (c c' : context) : Prop := {
  kp_wf : context_wf c';
  kp_full : no_empty_table c';
  kp_ram : ram_evolves c c';
  kp_balance : ram_typed c -> forall a, ram c' a - billed_to a c' = ram c a - billed_to a c;
  kp_room : forall n, roomy (S n) c -> roomy n c';
  kp_next : forall k, next_id (indices c k) <= next_id (indices c' k);
  kp_old : forall k p, p < next_id (indices c k) -> is_Some (view k c' !! p) -> is_Some (view k c !! p);
  kp_iter : forall k i p, object_at (cache_of k c) i = Some p -> is_Some (view k c' !! p) ->
    object_at (cache_of k c') i = Some p;
  kp_end : forall k t e, end_of (cache_of k c) t = Some e -> end_of (cache_of k c') t = Some e
}.

Definition good (c : context) : Prop := context_wf c /\ no_empty_table c.

Lemma reads_keeps n c c' : (n <= 2)%nat -> no_empty_table c -> reads n c c' -> keeps c c'.
Proof.
  intros Hn Hfull Hr. pose proof (reads_tables _ _ _ Hr) as Ht. pose proof (fun k => reads_view _ _ _ k Hr) as Hv.
  destruct Hr as [A1 A2 A3 A4 A5 A6 A7 A8 A9 A10].
  assert (forall a, ram c' a = ram c a) as Hram by (intros a; unfold ram; by rewrite A5).
  assert (forall a, delta_of c' a = delta_of c a) as Hdel by (intros a; unfold delta_of; by rewrite A6).
  split; try done.
  - intros t o. rewrite Ht. apply Hfull.
  - split; [done|unfold ram_typed; by rewrite A5|..].
    + intros _ a. rewrite Hram, Hdel. lia.
    + intros _ _ _ a _. rewrite Hram. lia.
  - intros _ a. by rewrite Hram, (billed_ext a c c').
  - intros m (R1 & R2 & R3). split; [|split].
    + intros k. apply A8. eapply room_le; [|apply R1]. lia.
    + intros t o. rewrite Ht. intros Ho. apply R2 in Ho. lia.
    + intros a. rewrite Hdel. specialize (R3 a). lia.
  - intros k. by rewrite A3.
  - intros k p _. by rewrite Hv.
  - intros k i p Hi _. by apply A9.
Qed.

Lemma keeps_good c c' : keeps c c' -> good c'.
Proof. intros H. split; apply H. Qed.

(** ** Storing *)

(** The RAM side of an operation: how far the deltas may move. *)
Definition deltas_within (b : Z) (c c' : context) : Prop :=
  forall a, Z.abs (delta_of c' a) <= Z.abs (delta_of c a) + b.

Lemma billed_within c c' p d : billed c c' p d -> deltas_within (Z.abs d) c c'.
Proof. intros H a. rewrite (bl_delta _ _ _ _ H). destruct (p =? a); lia. Qed.

Lemma deltas_within_trans a b c1 c2 c3 :
  deltas_within a c1 c2 -> deltas_within b c2 c3 -> deltas_within (a + b) c1 c3.
Proof. intros H1 H2 x. specialize (H1 x). specialize (H2 x). lia. Qed.

Lemma ram_evolves_store c c' :
  same_action c c' -> resource_limits c' = resource_limits c -> account_ram_deltas c' = account_ram_deltas c ->
  ram_evolves c c'.
Proof.
  intros Ha Hl Hd. split; [done|unfold ram_typed; by rewrite Hl|..].
  - intros _ a. unfold ram, delta_of. rewrite Hl, Hd. lia.
  - intros _ _ _ a _. unfold ram. rewrite Hl. lia.
Qed.

Lemma map_sum_new_table a c o t :
  tables c !! t = None ->
  map_sum (table_billed_to a) (<[t := o]> (tables c)) = map_sum (table_billed_to a) (tables c) + table_billed_to a o.
Proof. intros H. rewrite map_sum_insert by done. lia. Qed.

(** The context in which the table is there. *)
Record prepared (c c' : context) (tab : table_id_object) : Prop := {
  pr_wf : context_wf c';
  pr_tab : tables c' !! tab_id tab = Some tab;
  pr_indices : indices c' = indices c;
  pr_evolves : ram_evolves c c';
  pr_balance : ram_typed c -> forall a, ram c' a - billed_to a c' = ram c a - billed_to a c;
  pr_tables : forall t o, tables c' !! t = Some o -> tables c !! t = Some o \/ (t = tab_id tab /\ count o = 0);
  pr_deltas : deltas_within (2 ^ 33) c c'
}.

Lemma find_or_create_table_wp cd sc tb p c :
  context_wf c -> roomy 1 c ->
  wp (find_or_create_table cd sc tb p)
    (fun tab c' => prepared c c' tab /\ code tab = cd /\ scope tab = sc /\ table tab = tb
       /\ (find_table cd sc tb c = Some tab \/ find_table cd sc tb c = None /\ count tab = 0)) legit c.
Proof.
  intros Hwf (_ & _ & Hroom). unfold find_or_create_table. apply wp_bind. unfold wp at 1, get_state.
  destruct (find_table cd sc tb c) as [tab|] eqn:Ef.
  { pose proof (find_table_Some _ _ _ _ _ Ef (wf_tables _ Hwf)) as (Ht & E1 & E2 & E3).
    unfold wp, ret. split; [|auto]. split; try done; [by left|]. intros a. lia. }
  apply wp_bind. eapply wp_mono; [apply update_db_usage_wp|].
  { vm_compute. reflexivity. }
  { specialize (Hroom p). lia. }
  intros [] c1 _ Hb. destruct (bl_ram _ _ _ _ Hb) as (deltas & lims & v & E).
  unfold wp, bind, get_state, modify, ret.
  assert (next_table_id c1 = next_table_id c) as En by (by rewrite E).
  set (tab := mk_table (next_table_id c1) cd sc tb p 0).
  assert (find_table cd sc tb c1 = None) as Ef1 by (by rewrite E).
  assert (context_wf c1) as Hwf1 by (rewrite E; by apply wf_set_ram).
  pose proof (wf_new_table c1 tab Hwf1 eq_refl eq_refl Ef1) as Hwf2.
  set (c2 := set_tables _ _ c1) in *.
  assert (tables c2 = <[next_table_id c1 := tab]> (tables c1)) as Et
    by (unfold c2; rewrite tables_set_tables, tbl_put_view; done).
  assert (tables c1 = tables c) as Et1 by (by rewrite E).
  assert (indices c2 = indices c) as Ei by (change (indices c1 = indices c); by rewrite E).
  assert (tables c !! next_table_id c = None) as Hfresh.
  { destruct (tables c !! next_table_id c) as [o|] eqn:Eo; [|done].
    apply (table_fresh _ (wf_tables _ Hwf)) in Eo. lia. }
  split; [|split; [done|split; [done|split; [done|by right]]]].
  split; [done|by rewrite Et; apply lookup_insert_eq|done|..].
  - etrans; [apply (bl_evolves _ _ _ _ Hb)|]. by apply ram_evolves_store.
  - intros Hty a. assert (ram c2 a = ram c1 a) as -> by done.
    rewrite (bl_moved _ _ _ _ Hb Hty a). unfold billed_to. rewrite Et, Et1, En, map_sum_new_table by done.
    rewrite (total_ext _ c c2) by (intros k; unfold view; by rewrite Ei). unfold table_billed_to at 2. cbn [tab_payer tab].
    destruct (p =? a); lia.
  - intros t o. rewrite Et, Et1, lookup_insert_Some. intros [[<- <-]|[_ Ho]]; [by right|by left].
  - intros a. assert (delta_of c2 a = delta_of c1 a) as -> by done.
    rewrite (bl_delta _ _ _ _ Hb). assert (table_billable_size = 112) as -> by done. destruct (p =? a); lia.
Qed.

(** ** Inserting a row *)

Lemma index_rows_elem k by_ c r : r ∈ index_rows k by_ c <-> exists p, view k c !! p = Some r.
Proof.
  unfold index_rows. rewrite merge_sort_Permutation, list_elem_of_fmap. split.
  - intros ([p r'] & -> & Hin). exists p. by apply tbl_rows_elem.
  - intros [p Hp]. exists (p, r). split; [done|]. by apply tbl_rows_elem.
Qed.

Lemma first_row_Some p l r : first_row p l = Some r -> r ∈ l /\ p r = true.
Proof.
  unfold first_row. intros ([i x] & Hf & ->)%fmap_Some. apply list_find_Some in Hf as (Hl & Hp & _).
  split; [by eapply list_elem_of_lookup_2|done].
Qed.

Lemma first_row_None p l : first_row p l = None -> forall r, r ∈ l -> p r = false.
Proof.
  unfold first_row. rewrite fmap_None, list_find_None, Forall_forall. intros H r Hr.
  apply H in Hr. by destruct (p r).
Qed.

(** [r] is a new row of [k] in [c'], and [it] stands for it. *)
Record inserted (k : index_kind) (c c' : context) (tab : table_id_object) (r : row) (it size : Z) : Prop := {
  in_wf : context_wf c';
  in_designates : designates k c' it r;
  in_fresh : view k c !! id r = None;
  in_view : forall k', view k' c' = if decide (k' = k) then <[id r := r]> (view k c) else view k' c;
  in_tables : tables c' = <[tab_id tab := set_count (count tab + 1) tab]> (tables c);
  in_total : forall w, total w c' = total w c + w k r;
  in_evolves : ram_evolves c c';
  in_usage : ram_typed c -> usage_moved c c' (payer r) size;
  in_deltas : deltas_within (Z.abs size) c c';
  in_next : forall k', next_id (indices c k') <= next_id (indices c' k');
  in_id : next_id (indices c k) <= id r;
  in_room : forall k' m, room (2 + m) (cache_of k' c) -> room m (cache_of k' c');
  in_iter : forall k' i p, object_at (cache_of k' c) i = Some p -> object_at (cache_of k' c') i = Some p;
  in_end : forall k' t e, end_of (cache_of k' c) t = Some e -> end_of (cache_of k' c') t = Some e
}.

Lemma create_row_wp k t pk p v c :
  wp (create_row k t pk p v)
    (fun r c' => r = mk_row (next_id (indices c k)) t pk p v
       /\ c' = set_rows k (tbl_put (id r) r (rows (indices c k))) (id r + 1) c
       /\ forall q s, view k c !! q = Some s -> t_id s = t -> primary_key s <> pk) legit c.
Proof.
  unfold wp, create_row, bind, get_state, modify, lift, ret.
  destruct (first_row _ _) eqn:Ef; [done|]. split; [done|split; [done|]].
  intros q s Hs Et Epk. pose proof (first_row_None _ _ Ef s) as Hn. cbn beta in Hn. rewrite Et, Epk, !Z.eqb_refl in Hn.
  cbn in Hn. assert (true = false) as [=]. apply Hn, index_rows_elem. by exists q.
Qed.

Lemma count_nonneg c tab : context_wf c -> tables c !! tab_id tab = Some tab -> 0 <= count tab.
Proof.
  intros Hwf Htab. rewrite (table_count _ (wf_tables _ Hwf) _ _ Htab). unfold total, sum_kinds.
  pose proof (fun k => map_sum_nonneg (in_table (tab_id tab) k) (view k c) (in_table_nonneg _ _)) as Hnn.
  pose proof (Hnn key_value); pose proof (Hnn index64); pose proof (Hnn index128); pose proof (Hnn index256);
  pose proof (Hnn index_double); pose proof (Hnn index_long_double). lia.
Qed.

(** The row is in its index, counted and billed, but not yet in the cache. *)
Record placed (k : index_kind) (c c' : context) (tab : table_id_object) (r : row) (size : Z) : Prop := {
  st_wf : context_wf c';
  st_cache : forall k', cache_of k' c' = cache_of k' c;
  st_fresh : view k c !! id r = None;
  st_view : forall k', view k' c' = if decide (k' = k) then <[id r := r]> (view k c) else view k' c;
  st_tables : tables c' = <[tab_id tab := set_count (count tab + 1) tab]> (tables c);
  st_total : forall w, total w c' = total w c + w k r;
  st_evolves : ram_evolves c c';
  st_usage : ram_typed c -> usage_moved c c' (payer r) size;
  st_deltas : deltas_within (Z.abs size) c c';
  st_next : forall k', next_id (indices c' k') = if decide (k' = k) then id r + 1 else next_id (indices c k');
  st_id : id r = next_id (indices c k)
}.

Lemma store_row_wp {A} k tab p pk v size c (K : row -> exec context A) Q :
  context_wf c -> tables c !! tab_id tab = Some tab -> count tab + 1 < 2 ^ 32 ->
  value_size v < 2 ^ 32 -> Z.abs size < 2 ^ 33 -> (forall a, Z.abs (delta_of c a) + 2 ^ 33 < 2 ^ 63) ->
  (forall r c', placed k c c' tab r size -> t_id r = tab_id tab -> primary_key r = pk -> payer r = p -> contents r = v ->
     wp (K r) Q legit c') ->
  wp (do r <- create_row k (tab_id tab) pk p v; do _ <- change_count (tab_id tab) 1; do _ <- update_db_usage p size; K r) Q legit c.
Proof.
  intros Hwf Htab Hcnt Hv Hsz Hdel HK. apply wp_bind.
  eapply wp_mono; [apply create_row_wp|]. intros r c1 _ (Er & Ec1 & Hkey). pose proof (count_nonneg c tab Hwf Htab) as Hc0.
  apply wp_bind. unfold wp at 1, change_count, deref_table, bind, get_state, modify, ret.
  assert (tbl_find (tab_id tab) (table_ids c1) = Some tab) as Ef
    by (rewrite tbl_find_view, Ec1; exact Htab).
  rewrite Ef. assert (u32 (count tab + 1) = count tab + 1) as -> by (apply wrap_small; unfold is_uint; lia).
  assert (id r = next_id (indices c k) /\ t_id r = tab_id tab /\ primary_key r = pk /\ payer r = p
          /\ contents r = v) as (Hid & Htid & Hpk & Hp & Hcv) by (by rewrite Er).
  pose proof (wf_new_row k c tab r (count tab + 1) Hwf Htab Hid Htid) as Hnew. rewrite Hcv in Hnew.
  specialize (Hnew Hv). rewrite Htid, Hpk in Hnew. specialize (Hnew Hkey eq_refl).
  cbn zeta in Hnew. rewrite <- Ec1 in Hnew.
  assert (table_ids c1 = table_ids c /\ next_table_id c1 = next_table_id c) as [Et1 En1] by (by rewrite Ec1).
  rewrite Et1, En1. set (c2 := set_tables _ _ c1) in *. destruct Hnew as (Hwf2 & Hv2 & Hfr & Ht2 & Htot).
  apply wp_bind. eapply wp_mono; [apply update_db_usage_wp|]; [done| |].
  { assert (delta_of c2 p = delta_of c p) as -> by (unfold c2; by rewrite Ec1). apply Hdel. }
  intros [] c3 _ Hb. destruct (bl_ram _ _ _ _ Hb) as (deltas & lims & vv & E3).
  assert (ram_evolves c c2) as Hev2 by (unfold c2; rewrite Ec1; by apply ram_evolves_store).
  apply (HK r c3); [|done..]. split.
  - rewrite E3. by apply wf_set_ram.
  - intros k'. rewrite E3. unfold c2. rewrite Ec1. apply (cache_set_rows k k').
  - done.
  - intros k'. rewrite E3. unfold c2. rewrite Ec1. etrans; [exact (view_set_rows k k' _ _ c)|]. by rewrite tbl_put_view.
  - rewrite E3. etrans; [exact Ht2|]. done.
  - intros w. rewrite <- Htot. by rewrite E3.
  - etrans; [exact Hev2|]. apply (bl_evolves _ _ _ _ Hb).
  - intros Hty a. rewrite Hp. rewrite (bl_moved _ _ _ _ Hb). { unfold c2. by rewrite Ec1. } by apply (ev_typed _ _ Hev2).
  - intros a. rewrite (bl_delta _ _ _ _ Hb). assert (delta_of c2 a = delta_of c a) as -> by (unfold c2; by rewrite Ec1).
    destruct (p =? a); lia.
  - intros k'. rewrite E3. unfold c2. rewrite Ec1. exact (next_id_set_rows k k' _ _ c).
  - done.
Qed.

Lemma insert_row_wp k tab p pk v size c :
  context_wf c -> tables c !! tab_id tab = Some tab -> room 2 (cache_of k c) -> count tab + 1 < 2 ^ 32 ->
  value_size v < 2 ^ 32 -> Z.abs size < 2 ^ 33 -> (forall a, Z.abs (delta_of c a) + 2 ^ 33 < 2 ^ 63) ->
  wp (insert_row k tab p pk v size)
    (fun it c' => exists r, inserted k c c' tab r it size
       /\ t_id r = tab_id tab /\ primary_key r = pk /\ payer r = p /\ contents r = v) legit c.
Proof.
  intros Hwf Htab Hroom Hcnt Hv Hsz Hdel. unfold insert_row. apply store_row_wp; [done..|].
  intros r c3 [Hwf3 Hca3 Hfr Hv3 Ht3 Htot Hev Huse Hdlt Hni3 Hid] Htid Hpk Hp Hcv.
  assert (view k c3 !! id r = Some r) as Hr3 by (rewrite Hv3; destruct (decide (k = k)); [apply lookup_insert_eq|done]).
  assert (room 1 (cache_of k c3)) as Hroom3 by (rewrite Hca3; eapply room_le; [|exact Hroom]; lia).
  destruct (cache_table_reads k (tab_id tab) c3 Hwf3) as (ei & c4 & E4 & Hrd4 & Hend4); [|done|].
  { rewrite Ht3. apply lookup_insert_is_Some'. by left. }
  apply wp_bind. unfold wp at 1. rewrite E4.
  destruct (cache_add_reads k r c4 (rd_wf _ _ _ Hrd4)) as (it & c5 & E5 & Hrd5 & Hit).
  { by rewrite (reads_view _ _ _ _ Hrd4). }
  { rewrite Htid. by eapply end_of_cached. }
  { apply (rd_room _ _ _ Hrd4). rewrite Hca3. eapply room_le; [|exact Hroom]; lia. }
  unfold wp. rewrite E5. pose proof (reads_trans _ _ _ _ _ Hrd4 Hrd5) as Hrd.
  exists r. split; [|done]. split.
  - apply Hrd.
  - split; [done|]. by rewrite (reads_view _ _ _ _ Hrd).
  - done.
  - intros k'. by rewrite (reads_view _ _ _ _ Hrd).
  - by rewrite (reads_tables _ _ _ Hrd).
  - intros w. rewrite <- Htot. apply (total_ext w c3). intros k'. apply (reads_view _ _ _ _ Hrd).
  - etrans; [exact Hev|]. apply ram_evolves_store; apply Hrd.
  - intros Hty a. assert (ram c5 a = ram c3 a) as -> by (unfold ram; by rewrite (rd_limits _ _ _ Hrd)). by apply Huse.
  - intros a. assert (delta_of c5 a = delta_of c3 a) as -> by (unfold delta_of; by rewrite (rd_deltas _ _ _ Hrd)). apply Hdlt.
  - intros k'. rewrite (rd_next _ _ _ Hrd), Hni3. destruct (decide (k' = k)) as [->|]; lia.
  - lia.
  - intros k' m Hm. apply (rd_room _ _ _ Hrd). by rewrite Hca3.
  - intros k' i q Hi. apply (rd_iter _ _ _ Hrd). by rewrite Hca3.
  - intros k' t e He. apply (rd_end _ _ _ Hrd). by rewrite Hca3.
Qed.

Lemma billable_size_bound k : 112 <= billable_size k <= 160.
Proof. destruct k; vm_compute; split; discriminate. Qed.

Lemma value_size_nonneg v : 0 <= value_size v.
Proof. destruct v; cbn; lia. Qed.

Lemma row_bill_bound k r : value_size (contents r) < 2 ^ 32 -> 0 <= row_bill k r < 2 ^ 33.
Proof.
  intros H. pose proof (billable_size_bound k). pose proof (value_size_nonneg (contents r)).
  unfold row_bill. destruct k; lia.
Qed.

Lemma stored_keeps k c c1 c2 tab r it :
  good c -> roomy 1 c -> prepared c c1 tab -> inserted k c1 c2 tab r it (row_bill k r) ->
  value_size (contents r) < 2 ^ 32 -> keeps c c2.
Proof.
  intros [Hwf Hfull] Hroom Hp Hi Hsz. pose proof (row_bill_bound k r Hsz) as Hbill.
  assert (forall k', cache_of k' c1 = cache_of k' c /\ view k' c1 = view k' c
          /\ next_id (indices c1 k') = next_id (indices c k')) as Hsame.
  { intros k'. unfold cache_of, view. by rewrite (pr_indices _ _ _ Hp). }
  assert (forall t o, tables c2 !! t = Some o -> tables c !! t = Some o \/ (t = tab_id tab /\ o = set_count (count tab + 1) tab)) as Ht.
  { intros t o. rewrite (in_tables _ _ _ _ _ _ _ Hi), lookup_insert_Some. intros [[<- <-]|[Hne Ho]]; [by right|].
    apply (pr_tables _ _ _ Hp) in Ho as [Ho|[-> _]]; [by left|done]. }
  assert (0 <= count tab /\ (tables c !! tab_id tab = Some tab \/ count tab = 0)) as [Hc0 Hctab].
  { destruct (pr_tables _ _ _ Hp _ _ (pr_tab _ _ _ Hp)) as [Ho|[_ ->]]; [|split; [lia|by right]].
    specialize (Hfull _ _ Ho). split; [lia|by left]. }
  split.
  - apply Hi.
  - intros t o Ho. apply Ht in Ho as [Ho|[-> ->]]; [by eapply Hfull|cbn; lia].
  - etrans; [apply (pr_evolves _ _ _ Hp)|apply (in_evolves _ _ _ _ _ _ _ Hi)].
  - intros Hty a. rewrite <- (pr_balance _ _ _ Hp Hty a).
    rewrite (in_usage _ _ _ _ _ _ _ Hi (ev_typed _ _ (pr_evolves _ _ _ Hp) Hty) a).
    unfold billed_to. rewrite (in_total _ _ _ _ _ _ _ Hi), (in_tables _ _ _ _ _ _ _ Hi).
    rewrite (map_sum_replace _ _ _ _ _ (pr_tab _ _ _ Hp)). unfold row_billed_to at 2, table_billed_to at 2 3. cbn [tab_payer set_count].
    destruct (payer r =? a); lia.
  - intros n (R1 & R2 & R3). split; [|split].
    + intros k'. apply (in_room _ _ _ _ _ _ _ Hi). destruct (Hsame k') as (-> & _).
      eapply room_le; [|apply R1]. lia.
    + intros t o Ho. apply Ht in Ho as [Ho|[-> ->]]; [apply R2 in Ho; lia|]. cbn [count set_count].
      destruct Hctab as [Ho| ->]; [apply R2 in Ho; lia|]. destruct (R1 key_value) as [_ Hr]. lia.
    + intros a. specialize (R3 a). pose proof (pr_deltas _ _ _ Hp a). pose proof (in_deltas _ _ _ _ _ _ _ Hi a). lia.
  - intros k'. destruct (Hsame k') as (_ & _ & <-). apply Hi.
  - intros k' p Hlt. destruct (Hsame k') as (_ & Ev & En). rewrite (in_view _ _ _ _ _ _ _ Hi), <- Ev.
    destruct (decide (k' = k)) as [->|]; [|done]. pose proof (in_id _ _ _ _ _ _ _ Hi).
    rewrite lookup_insert_ne by lia. done.
  - intros k' i p Hx _. apply (in_iter _ _ _ _ _ _ _ Hi). by destruct (Hsame k') as (-> & _).
  - intros k' t e Hx. apply (in_end _ _ _ _ _ _ _ Hi). by destruct (Hsame k') as (-> & _).
Qed.

(** The tail of both stores, from the context in which the table is there. *)
Lemma store_tail_wp k c c1 tab p pk v size (Q : Z -> context -> Prop) :
  good c -> roomy 1 c -> prepared c c1 tab -> value_size v < 2 ^ 32 ->
  (forall i t, size = row_bill k (mk_row i t pk p v)) ->
  (forall it c2 r, keeps c c2 -> inserted k c1 c2 tab r it size -> t_id r = tab_id tab -> primary_key r = pk ->
     payer r = p -> contents r = v -> Q it c2) ->
  wp (insert_row k tab p pk v size) Q legit c1.
Proof.
  intros Hg Hroom Hp Hv Hsize HQ. pose proof Hroom as (R1 & R2 & R3).
  pose proof (row_bill_bound k (mk_row 0 0 pk p v) Hv) as Hb. rewrite <- Hsize in Hb.
  eapply wp_mono; [apply insert_row_wp|].
  - apply Hp.
  - apply Hp.
  - unfold cache_of. rewrite (pr_indices _ _ _ Hp). apply R1.
  - destruct (pr_tables _ _ _ Hp _ _ (pr_tab _ _ _ Hp)) as [Ho|[_ ->]]; [apply R2 in Ho; lia|lia].
  - done.
  - lia.
  - intros a. specialize (R3 a). pose proof (pr_deltas _ _ _ Hp a). lia.
  - intros it c2 _ (r & Hi & E1 & E2 & E3 & E4). apply (HQ _ _ r); try done.
    assert (row_bill k r = size) as Ebill.
    { rewrite (Hsize (id r) (t_id r)). destruct r; cbn in *. by subst. }
    rewrite <- Ebill in Hi. eapply stored_keeps; [done|done|done|exact Hi|]. by rewrite E4.
Qed.

Definition stored (k : index_kind) (cd sc tb p pk : Z) (v : data) (c : context) (it : Z) (c' : context) : Prop :=
  exists tab r, find_table cd sc tb c' = Some tab /\ t_id r = tab_id tab /\ primary_key r = pk /\ payer r = p
    /\ contents r = v /\ designates k c' it r /\ view k c !! id r = None
    /\ forall k', view k' c' = if decide (k' = k) then <[id r := r]> (view k c) else view k' c.

Lemma inserted_stored k c c1 c2 tab r it size :
  prepared c c1 tab -> inserted k c1 c2 tab r it size -> t_id r = tab_id tab ->
  stored k (code tab) (scope tab) (table tab) (payer r) (primary_key r) (contents r) c it c2.
Proof.
  intros Hp Hi Et. exists (set_count (count tab + 1) tab), r.
  assert (forall k', view k' c1 = view k' c) as Hv by (intros k'; unfold view; by rewrite (pr_indices _ _ _ Hp)).
  split; [|do 4 (split; [done|]); split; [apply Hi|]].
  - apply (find_table_found c2 (set_count (count tab + 1) tab)); [apply Hi|].
    rewrite (in_tables _ _ _ _ _ _ _ Hi). apply lookup_insert_eq.
  - rewrite <- Hv. split; [apply Hi|]. intros k'. rewrite (in_view _ _ _ _ _ _ _ Hi). by rewrite !Hv.
Qed.

Lemma i64_u64_small z : 0 <= z < 2 ^ 63 -> i64 (u64 z) = z.
Proof. intros H. unfold u64. rewrite wrap_small by (unfold is_uint; lia). apply i64_small. unfold is_int64. lia. Qed.

Lemma i64_u64_neg z : 0 <= z < 2 ^ 63 -> i64 (u64 (- z)) = - z.
Proof.
  intros H. unfold u64, i64, wrap. rewrite Zplus_mod_idemp_l, Z.mod_small; lia.
Qed.

Lemma db_store_i64_wp sc tb p pk buffer c :
  good c -> roomy 1 c -> Z.of_nat (length buffer) < 2 ^ 32 ->
  wp (db_store_i64 sc tb p pk buffer)
    (fun it c' => keeps c c' /\ stored key_value (receiver c) sc tb p pk (Value buffer) c it c' /\ p <> 0) legit c.
Proof.
  intros Hg Hroom Hb. unfold db_store_i64. apply wp_bind. unfold wp at 1, get_state. apply wp_bind.
  eapply wp_mono; [apply find_or_create_table_wp; [apply Hg|done]|].
  intros tab c1 _ (Hp & <- & <- & <- & _). apply wp_check; [done|]. intros Hp0.
  apply negb_true_iff, Z.eqb_neq in Hp0.
  apply (store_tail_wp key_value c c1 tab); try done.
  - intros i t. unfold row_bill. cbn [contents value_size].
    rewrite i64_u64_small; [done|]. pose proof (billable_size_bound key_value). lia.
  - intros it c2 r Hk Hi E1 <- <- <-. split; [done|]. split; [|done]. by eapply inserted_stored.
Qed.

Lemma store_wp k sc tb p pk v c :
  k <> key_value -> good c -> roomy 1 c -> value_size v < 2 ^ 32 ->
  wp (store k sc tb p pk v)
    (fun it c' => keeps c c' /\ stored k (receiver c) sc tb p pk v c it c' /\ p <> 0) legit c.
Proof.
  intros Hkv Hg Hroom Hb. unfold store. apply wp_check; [done|]. intros Hp0.
  apply negb_true_iff, Z.eqb_neq in Hp0. apply wp_bind. unfold wp at 1, get_state. apply wp_bind.
  eapply wp_mono; [apply find_or_create_table_wp; [apply Hg|done]|].
  intros tab c1 _ (Hp & <- & <- & <- & _).
  apply (store_tail_wp k c c1 tab); try done.
  - intros i t. pose proof (billable_size_bound k). rewrite i64_small by (unfold is_int64; lia).
    unfold row_bill. by destruct k.
  - intros it c2 r Hk Hi E1 <- <- <-. split; [done|]. split; [|done]. by eapply inserted_stored.
Qed.

(** ** Removing *)

(** [r] is gone from [c'], with its table when it was the last row. *)
Record erased (k : index_kind) (c c' : context) (tab : table_id_object) (r : row) : Prop := {
  er_wf : context_wf c';
  er_view : forall k', view k' c' = if decide (k' = k) then delete (id r) (view k c) else view k' c;
  er_tables : tables c' = after_erase c tab;
  er_total : forall w, total w c' = total w c - w k r;
  er_evolves : ram_evolves c c';
  er_usage : ram_typed c -> forall a, ram c' a = ram c a - (if count tab =? 1 then table_billed_to a tab else 0);
  er_deltas : deltas_within (2 ^ 32) c c';
  er_next : forall k', next_id (indices c' k') = next_id (indices c k');
  er_room : forall k' m, room m (cache_of k' c) -> room m (cache_of k' c');
  er_iter : forall k' i p, object_at (cache_of k' c) i = Some p -> (k' = k -> p <> id r) ->
    object_at (cache_of k' c') i = Some p;
  er_slots : length (iterator_to_object (cache_of k c')) = length (iterator_to_object (cache_of k c))
    /\ forall i p, object_at (cache_of k c') i = Some p -> object_at (cache_of k c) i = Some p;
  er_end : forall k' t e, end_of (cache_of k' c) t = Some e -> end_of (cache_of k' c') t = Some e
}.

(** After the row was taken out and its table counted down or removed. *)
Record taken (k : index_kind) (c c' : context) (tab : table_id_object) (r : row) : Prop := {
  tk_replaced : replaced c c' k (delete (id r) (view k c)) (cache_of k c) (after_erase c tab);
  tk_evolves : ram_evolves c c';
  tk_usage : ram_typed c -> forall a, ram c' a = ram c a - (if count tab =? 1 then table_billed_to a tab else 0);
  tk_deltas : deltas_within (2 ^ 32) c c'
}.

Lemma take_row_wp k tab r c :
  tables c !! tab_id tab = Some tab -> 0 < count tab < 2 ^ 32 ->
  (forall a, Z.abs (delta_of c a) + 2 ^ 33 < 2 ^ 63) ->
  wp (do _ <- change_count (tab_id tab) (-1);
      do _ <- remove_row k r;
      do tab' <- deref_table (tab_id tab);
      if count tab' =? 0 then remove_table tab' else ret tt)
    (fun _ c' => taken k c c' tab r) legit c.
Proof.
  intros Htab Hc Hdel. apply wp_bind.
  unfold wp at 1, change_count, deref_table, bind at 1, bind at 1, get_state, modify.
  rewrite tbl_find_view. fold (tables c). rewrite Htab. cbn [ret].
  assert (u32 (count tab + -1) = count tab - 1) as -> by (apply wrap_small; unfold is_uint; lia).
  apply wp_bind. unfold wp at 1, remove_row, modify. set (c1 := set_tables _ _ c). set (c2 := set_rows k _ _ c1).
  assert (tables c2 = <[tab_id tab := set_count (count tab - 1) tab]> (tables c)) as Ht2
    by (unfold c2, c1, tables; cbn; by rewrite tbl_put_view).
  assert (forall k', view k' c2 = if decide (k' = k) then delete (id r) (view k c) else view k' c) as Hv2.
  { intros k'. unfold c2. rewrite view_set_rows. by rewrite tbl_remove_view. }
  assert (forall k', cache_of k' c2 = if decide (k' = k) then cache_of k c else cache_of k' c) as Hca2.
  { intros k'. unfold c2. rewrite cache_set_rows. by destruct (decide (k' = k)) as [->|]. }
  assert (forall k', next_id (indices c2 k') = next_id (indices c k')) as Hn2.
  { intros k'. unfold c2. rewrite next_id_set_rows. by destruct (decide (k' = k)) as [->|]. }
  assert (ram_evolves c c2) as Hev2 by (by apply ram_evolves_store).
  apply wp_bind. unfold wp at 1, bind, get_state. rewrite tbl_find_view. fold (tables c2).
  rewrite Ht2, lookup_insert_eq. cbn [ret count set_count].
  destruct (Z.eqb_spec (count tab - 1) 0) as [E0|E0].
  - unfold remove_table. apply wp_bind. eapply wp_mono; [apply update_db_usage_wp|].
    { vm_compute. reflexivity. }
    { exact (Hdel _). }
    intros [] c3 _ Hb. destruct (bl_ram _ _ _ _ Hb) as (deltas & lims & v & E3).
    unfold wp, modify. cbn [tab_id set_count]. set (c4 := set_tables _ _ c3).
    assert ((count tab =? 1) = true) as E1 by (apply Z.eqb_eq; lia).
    assert (tables c4 = delete (tab_id tab) (tables c2)) as Ht4.
    { unfold c4, tables. cbn [table_ids set_tables]. rewrite tbl_remove_view, E3. done. }
    split.
    + split.
      * intros k'. rewrite <- Hv2. unfold c4, view. by rewrite E3.
      * intros k'. rewrite <- Hca2. unfold c4, cache_of. by rewrite E3.
      * rewrite Ht4, Ht2, delete_insert_eq. unfold after_erase. by rewrite E1.
      * unfold c4. by rewrite E3.
      * intros k'. rewrite <- Hn2. unfold c4. by rewrite E3.
    + etrans; [exact Hev2|]. etrans; [apply (bl_evolves _ _ _ _ Hb)|]. by apply ram_evolves_store.
    + intros Hty a. rewrite E1. assert (ram c4 a = ram c3 a) as -> by done.
      rewrite (bl_moved _ _ _ _ Hb Hty a). assert (ram c2 a = ram c a) as -> by done.
      unfold table_billed_to. cbn [tab_payer set_count]. destruct (_ =? a); lia.
    + intros a. assert (delta_of c4 a = delta_of c3 a) as -> by done. rewrite (bl_delta _ _ _ _ Hb a).
      assert (delta_of c2 a = delta_of c a) as -> by done.
      assert (table_billable_size = 112) as -> by done. destruct (_ =? a); lia.
  - assert ((count tab =? 1) = false) as E1 by (apply Z.eqb_neq; lia). unfold wp, ret. split.
    + split; try done. rewrite Ht2. unfold after_erase. by rewrite E1.
    + done.
    + intros _ a. rewrite E1. assert (ram c2 a = ram c a) as -> by done. lia.
    + intros a. assert (delta_of c2 a = delta_of c a) as -> by done. lia.
Qed.

Lemma erase_row_wp k tab r it c :
  context_wf c -> designates k c it r -> tables c !! t_id r = Some tab -> 0 < count tab < 2 ^ 32 ->
  (forall a, Z.abs (delta_of c a) + 2 ^ 33 < 2 ^ 63) ->
  wp (erase_row k tab r it) (fun _ c' => erased k c c' tab r) legit c.
Proof.
  intros Hwf Hd Htab Hc Hdel. pose proof (cache_rep _ _ (wf_caches _ Hwf k)) as Hrep.
  assert (tab_id tab = t_id r) as Eid by (by apply (table_id_eq _ (wf_tables _ Hwf))).
  destruct Hd as [Ho Hr]. pose proof (object_at_small _ _ _ Hrep Ho) as Hit.
  destruct (remove_object it _ _ Hrep (proj2 Hit) Ho) as (ca & Erm & K1 & K2 & K3 & K4 & K5).
  assert (erase_row k tab r it c
          = bind (do _ <- change_count (tab_id tab) (-1); do _ <- remove_row k r;
                  do tab' <- deref_table (tab_id tab); if count tab' =? 0 then remove_table tab' else ret tt)
              (fun _ => cache_remove k it) c) as Eassoc.
  { unfold erase_row, bind. by repeat case_match. }
  unfold wp. rewrite Eassoc. fold (wp (bind (do _ <- change_count (tab_id tab) (-1); do _ <- remove_row k r;
                  do tab' <- deref_table (tab_id tab); if count tab' =? 0 then remove_table tab' else ret tt)
              (fun _ => cache_remove k it)) (fun _ c' => erased k c c' tab r) legit c).
  apply wp_bind. eapply wp_mono; [apply take_row_wp; [by rewrite Eid|done|done]|].
  intros [] c1 _ [[V1 C1 T1 N1 I1] Hev Hus Hde].
  unfold wp, cache_remove. fold (cache_of k c1). rewrite C1. destruct (decide (k = k)) as [_|]; [|done]. rewrite Erm.
  assert (replaced c (set_cache k ca c1) k (delete (id r) (view k c)) ca (after_erase c tab)) as Hrep'.
  { split.
    - intros k'. by rewrite view_set_cache, V1.
    - intros k'. rewrite cache_set_cache, C1. by destruct (decide (k' = k)).
    - exact T1.
    - exact N1.
    - intros k'. by rewrite next_id_set_cache, I1. }
  destruct (wf_erased_row k c _ r tab it ca Hwf Ho Hr Htab Erm (proj2 Hit) Hrep') as [Hwf' Htot].
  split; try done.
  - apply Hrep'.
  - etrans; [exact Hev|]. by apply ram_evolves_store.
  - apply Hrep'.
  - intros k' m. rewrite (rp_cache _ _ _ _ _ _ Hrep'). destruct (decide (k' = k)) as [->|]; [apply K4|done].
  - intros k' i p Hi Hne. rewrite (rp_cache _ _ _ _ _ _ Hrep'). destruct (decide (k' = k)) as [->|]; [|done].
    apply K2. split; [done|]. by apply Hne.
  - rewrite (rp_cache _ _ _ _ _ _ Hrep'). destruct (decide (k = k)); [|done]. split; [done|].
    intros i p Hi. by apply K2 in Hi as [Hi _].
  - intros k' t e He. rewrite (rp_cache _ _ _ _ _ _ Hrep'). destruct (decide (k' = k)) as [->|]; [|done].
    unfold end_of. by rewrite K3.
Qed.

(** The action's accounts were billed, the containers are as they were. *)
Record rebilled (c c' : context) (f : Z -> Z) : Prop := {
  rb_ram : exists deltas lims v, c' = set_ram deltas lims v c;
  rb_evolves : ram_evolves c c';
  rb_usage : ram_typed c -> forall a, ram c' a = ram c a + f a;
  rb_deltas : deltas_within (2 ^ 34 - 2 ^ 33) c c'
}.

Lemma billed_rebilled c c' p d :
  Z.abs d < 2 ^ 33 -> billed c c' p d -> rebilled c c' (fun a => if p =? a then d else 0).
Proof.
  intros Hd Hb. split; [apply Hb|apply Hb|apply Hb|]. intros a. pose proof (billed_within _ _ _ _ Hb a). lia.
Qed.

Lemma rebilled_wf c c' f : context_wf c -> rebilled c c' f -> context_wf c'.
Proof. intros Hwf [(deltas & lims & v & ->) _ _ _]. by apply wf_set_ram. Qed.

Lemma rebilled_designates k c c' f it r : rebilled c c' f -> designates k c it r -> designates k c' it r.
Proof. intros [(deltas & lims & v & ->) _ _ _]. done. Qed.

Lemma rebilled_same c c' f :
  rebilled c c' f -> (forall k, view k c' = view k c /\ cache_of k c' = cache_of k c
    /\ next_id (indices c' k) = next_id (indices c k)) /\ tables c' = tables c
    /\ next_table_id c' = next_table_id c /\ receiver c' = receiver c.
Proof. intros [(deltas & lims & v & ->) _ _ _]. done. Qed.

Lemma after_erase_billed a c tab :
  tables c !! tab_id tab = Some tab ->
  map_sum (table_billed_to a) (after_erase c tab)
  = map_sum (table_billed_to a) (tables c) - (if count tab =? 1 then table_billed_to a tab else 0).
Proof.
  intros Ht. unfold after_erase. destruct (count tab =? 1).
  - by rewrite (map_sum_delete _ _ _ _ Ht).
  - rewrite (map_sum_replace _ _ _ _ _ Ht). unfold table_billed_to at 2 3. cbn. lia.
Qed.

Lemma removed_keeps k c c1 c2 tab r it :
  good c -> designates k c it r -> tables c !! t_id r = Some tab ->
  rebilled c c1 (fun a => if payer r =? a then - row_bill k r else 0) -> erased k c1 c2 tab r -> keeps c c2.
Proof.
  intros [Hwf Hfull] [Ho Hr] Htab Hb He. destruct (rebilled_same _ _ _ Hb) as (Hs & Ht & _).
  assert (tab_id tab = t_id r) as Eid by (by apply (table_id_eq _ (wf_tables _ Hwf))).
  assert (forall t o, tables c2 !! t = Some o -> exists o', tables c !! t = Some o' /\ 0 < count o <= count o') as Hin.
  { intros t o. rewrite (er_tables _ _ _ _ _ He). unfold after_erase. rewrite Ht, Eid.
    destruct (Z.eqb_spec (count tab) 1).
    - rewrite lookup_delete_Some. intros [_ H]. exists o. specialize (Hfull _ _ H). split; [done|lia].
    - rewrite lookup_insert_Some. intros [[<- <-]|[_ H]].
      + exists tab. specialize (Hfull _ _ Htab). cbn. split; [done|lia].
      + exists o. specialize (Hfull _ _ H). split; [done|lia]. }
  split.
  - apply He.
  - intros t o Hto. apply Hin in Hto as (o' & _ & H). lia.
  - etrans; [apply (rb_evolves _ _ _ Hb)|apply (er_evolves _ _ _ _ _ He)].
  - intros Hty a. rewrite (er_usage _ _ _ _ _ He (ev_typed _ _ (rb_evolves _ _ _ Hb) Hty) a), (rb_usage _ _ _ Hb Hty a).
    unfold billed_to. rewrite (er_total _ _ _ _ _ He), (er_tables _ _ _ _ _ He), after_erase_billed by (by rewrite Ht, Eid).
    rewrite Ht, (total_ext _ c c1) by apply Hs. unfold row_billed_to at 2. destruct (payer r =? a); lia.
  - intros n (R1 & R2 & R3). split; [|split].
    + intros k'. apply (er_room _ _ _ _ _ He). destruct (Hs k') as (_ & -> & _). eapply room_le; [|apply R1]. lia.
    + intros t o Hto. apply Hin in Hto as (o' & H & Hle). apply R2 in H. lia.
    + intros a. specialize (R3 a). pose proof (rb_deltas _ _ _ Hb a). pose proof (er_deltas _ _ _ _ _ He a). lia.
  - intros k'. rewrite (er_next _ _ _ _ _ He). destruct (Hs k') as (_ & _ & ->). lia.
  - intros k' p _. rewrite (er_view _ _ _ _ _ He). destruct (Hs k) as (-> & _), (Hs k') as (-> & _).
    destruct (decide (k' = k)) as [->|]; [|done]. intros [x Hx]. apply lookup_delete_Some in Hx as [_ Hx]. by eexists.
  - intros k' i p Hi Hp. apply (er_iter _ _ _ _ _ He); [by destruct (Hs k') as (_ & -> & _)|].
    intros -> ->. rewrite (er_view _ _ _ _ _ He) in Hp. destruct (decide (k = k)); [|done].
    rewrite lookup_delete_eq in Hp. by destruct Hp.
  - intros k' t e Hx. apply (er_end _ _ _ _ _ He). by destruct (Hs k') as (_ & -> & _).
Qed.

(** The row the iterator stood for is gone, and no other. *)
Definition row_removed (k : index_kind) (c : context) (it : Z) (c' : context) : Prop :=
  exists r tab, designates k c it r /\ tables c !! t_id r = Some tab /\ code tab = receiver c
    /\ (forall k', view k' c' = if decide (k' = k) then delete (id r) (view k c) else view k' c)
    /\ tables c' = after_erase c tab
    /\ length (iterator_to_object (cache_of k c')) = length (iterator_to_object (cache_of k c))
    /\ forall i p, object_at (cache_of k c') i = Some p -> object_at (cache_of k c) i = Some p.

Lemma remove_tail_wp k c c1 tab r it :
  good c -> roomy 1 c -> designates k c it r -> tables c !! t_id r = Some tab -> code tab = receiver c ->
  rebilled c c1 (fun a => if payer r =? a then - row_bill k r else 0) ->
  wp (erase_row k tab r it) (fun _ c' => keeps c c' /\ row_removed k c it c') legit c1.
Proof.
  intros Hg (R1 & R2 & R3) Hd Htab Hcode Hb. destruct (rebilled_same _ _ _ Hb) as (Hs & Ht & _).
  eapply wp_mono; [apply erase_row_wp|].
  - eapply rebilled_wf; [apply Hg|exact Hb].
  - by eapply rebilled_designates.
  - by rewrite Ht.
  - pose proof (proj2 Hg _ _ Htab). apply R2 in Htab. lia.
  - intros a. specialize (R3 a). pose proof (rb_deltas _ _ _ Hb a). lia.
  - intros [] c' _ He. split; [by eapply removed_keeps|]. exists r, tab. split; [done|]. split; [done|].
    split; [done|]. split.
    + intros k'. rewrite (er_view _ _ _ _ _ He). destruct (Hs k) as (-> & _), (Hs k') as (-> & _). done.
    + rewrite (er_tables _ _ _ _ _ He). unfold after_erase. rewrite Ht. split; [done|].
      destruct (Hs k) as (_ & <- & _). apply He.
Qed.

Lemma db_remove_i64_wp it c :
  good c -> roomy 1 c -> it < 2 ^ 31 ->
  wp (db_remove_i64 it) (fun _ c' => keeps c c' /\ row_removed key_value c it c') legit c.
Proof.
  intros Hg Hroom Hit. unfold db_remove_i64. apply wp_bind.
  eapply wp_mono; [apply get_row_wp; [apply Hg|done]|]. intros r c0 _ [-> Hd].
  destruct (table_of_ok _ _ _ _ (proj1 Hg) Hd) as (tab & Htab & Eid & Et).
  apply wp_bind. unfold wp at 1. rewrite Et. apply wp_bind. unfold wp at 1, get_state.
  apply wp_check; [done|]. intros Hcode%Z.eqb_eq.
  destruct (designates_cached _ _ _ _ (proj1 Hg) Hd) as (_ & _ & Hsz).
  pose proof (row_bill_bound key_value r Hsz) as Hbill.
  assert (i64 (u64 (- (value_size (contents r) + billable_size key_value))) = - row_bill key_value r) as ->.
  { apply (i64_u64_neg (row_bill key_value r)). lia. }
  apply wp_bind. eapply wp_mono; [apply update_db_usage_wp|].
  - lia.
  - destruct Hroom as (_ & _ & R3). specialize (R3 (payer r)). lia.
  - intros [] c1 _ Hb. apply remove_tail_wp; try done. apply billed_rebilled; [lia|done].
Qed.

Lemma row_bill_index k r : k <> key_value -> row_bill k r = billable_size k.
Proof. unfold row_bill. by destruct k. Qed.

Lemma remove_wp k it c :
  k <> key_value -> good c -> roomy 1 c -> it < 2 ^ 31 ->
  wp (remove k it) (fun _ c' => keeps c c' /\ row_removed k c it c') legit c.
Proof.
  intros Hkv Hg Hroom Hit. unfold remove. apply wp_bind.
  eapply wp_mono; [apply get_row_wp; [apply Hg|done]|]. intros r c0 _ [-> Hd].
  pose proof (billable_size_bound k) as Hbill.
  rewrite i64_u64_neg by lia. rewrite <- (row_bill_index k r Hkv) in Hbill |- *.
  apply wp_bind. eapply wp_mono; [apply update_db_usage_wp|].
  { lia. }
  { destruct Hroom as (_ & _ & R3). specialize (R3 (payer r)). lia. }
  intros [] c1 _ Hb. apply billed_rebilled in Hb; [|lia].
  destruct (rebilled_same _ _ _ Hb) as (_ & Ht & _ & Er).
  destruct (table_of_ok k c1 it r) as (tab & Htab & Eid & Et).
  { eapply rebilled_wf; [apply Hg|exact Hb]. }
  { by eapply rebilled_designates. }
  apply wp_bind. unfold wp at 1. rewrite Et. apply wp_bind. unfold wp at 1, get_state.
  apply wp_check; [done|]. intros Hcode%Z.eqb_eq.
  apply remove_tail_wp; try done; congruence.
Qed.

(** ** Updating *)

Definition row_updated (k : index_kind) (c : context) (it p : Z) (v : data) (c' : context) : Prop :=
  exists r tab, designates k c it r /\ tables c !! t_id r = Some tab /\ code tab = receiver c
    /\ let r' := mk_row (id r) (t_id r) (primary_key r) (if p =? 0 then payer r else p) v in
       designates k c' it r'
    /\ (forall k', view k' c' = if decide (k' = k) then <[id r := r']> (view k c) else view k' c)
    /\ tables c' = tables c.

Lemma modify_tail_wp k c c1 tab r it p v :
  let r' := mk_row (id r) (t_id r) (primary_key r) (if p =? 0 then payer r else p) v in
  good c -> designates k c it r -> tables c !! t_id r = Some tab -> code tab = receiver c -> value_size v < 2 ^ 32 ->
  rebilled c c1 (fun a => row_billed_to a k r' - row_billed_to a k r) ->
  wp (modify_row k r (payer r') v) (fun _ c' => keeps c c' /\ row_updated k c it p v c') legit c1.
Proof.
  intros r' [Hwf Hfull] Hd Htab Hcode Hv Hb. destruct (rebilled_same _ _ _ Hb) as (Hs & Ht & Hn & _).
  unfold wp, modify_row, modify. fold r'. set (c2 := set_rows _ _ _ c1).
  assert (forall k', cache_of k' c2 = cache_of k' c) as Hca.
  { intros k'. unfold c2. rewrite cache_set_rows. apply Hs. }
  assert (forall k', view k' c2 = if decide (k' = k) then <[id r := r']> (view k c) else view k' c) as Hview.
  { intros k'. unfold c2. rewrite view_set_rows, tbl_put_view. destruct (Hs k) as (<- & _), (Hs k') as (<- & _). done. }
  assert (replaced c c2 k (<[id r := r']> (view k c)) (cache_of k c) (tables c)) as Hrep.
  { split; [done| |by rewrite <- Ht|by rewrite <- Hn|].
    - intros k'. rewrite Hca. by destruct (decide (k' = k)) as [->|].
    - intros k'. destruct (Hs k') as (_ & _ & <-). unfold c2. rewrite next_id_set_rows.
      by destruct (decide (k' = k)) as [->|]. }
  destruct (wf_modified_row k c c2 r r' Hwf (proj2 Hd) eq_refl eq_refl eq_refl Hv Hrep) as [Hwf2 Htot].
  split.
  - split.
    + done.
    + intros t o. rewrite (rp_tables _ _ _ _ _ _ Hrep). apply Hfull.
    + etrans; [apply (rb_evolves _ _ _ Hb)|]. by apply ram_evolves_store.
    + intros Hty a. assert (ram c2 a = ram c1 a) as -> by done. rewrite (rb_usage _ _ _ Hb Hty a).
      unfold billed_to. rewrite Htot, (rp_tables _ _ _ _ _ _ Hrep). lia.
    + intros n (R1 & R2 & R3). split; [|split].
      * intros k'. rewrite Hca. eapply room_le; [|apply R1]. lia.
      * intros t o. rewrite (rp_tables _ _ _ _ _ _ Hrep). intros Hto. apply R2 in Hto. lia.
      * intros a. assert (delta_of c2 a = delta_of c1 a) as -> by done. specialize (R3 a).
        pose proof (rb_deltas _ _ _ Hb a). lia.
    + intros k'. rewrite (rp_next_id _ _ _ _ _ _ Hrep). lia.
    + intros k' q _. rewrite Hview. destruct (decide (k' = k)) as [->|]; [|done].
      rewrite lookup_insert_is_Some'. intros [<-|H]; [|done]. eexists. apply Hd.
    + intros k' i q Hi _. by rewrite Hca.
    + intros k' t e He. by rewrite Hca.
  - exists r, tab. do 3 (split; [done|]). fold r'. split; [|split; [done|apply Hrep]].
    split; [rewrite Hca; apply Hd|]. rewrite Hview. destruct (decide (k = k)); [apply lookup_insert_eq|done].
Qed.

(** Refunding the old payer and charging the new one. *)
Lemma rebill_wp p d p' d' c :
  Z.abs d < 2 ^ 32 + 2 ^ 20 -> Z.abs d' < 2 ^ 32 + 2 ^ 20 -> roomy 1 c -> p <> p' ->
  wp (do _ <- update_db_usage p d; update_db_usage p' d')
    (fun _ c' => rebilled c c' (fun a => (if p =? a then d else 0) + (if p' =? a then d' else 0))) legit c.
Proof.
  intros Hd Hd' (_ & _ & R3) Hne. apply wp_bind.
  eapply wp_mono; [apply update_db_usage_wp; [lia|specialize (R3 p); lia]|]. intros [] c1 _ Hb.
  pose proof (bl_delta _ _ _ _ Hb) as Hdel. destruct (bl_ram _ _ _ _ Hb) as (d1 & l1 & v1 & E1).
  eapply wp_mono; [apply update_db_usage_wp; [lia|]|].
  { rewrite Hdel. destruct (Z.eqb_spec p p'); [done|]. specialize (R3 p'). lia. }
  intros [] c2 _ Hb2. destruct (bl_ram _ _ _ _ Hb2) as (d2 & l2 & v2 & E2). split.
  - exists d2, l2, v2. by rewrite E2, E1.
  - etrans; [apply (bl_evolves _ _ _ _ Hb)|apply (bl_evolves _ _ _ _ Hb2)].
  - intros Hty a. rewrite (bl_moved _ _ _ _ Hb2 (ev_typed _ _ (bl_evolves _ _ _ _ Hb) Hty) a).
    rewrite (bl_moved _ _ _ _ Hb Hty a). lia.
  - intros a. rewrite (bl_delta _ _ _ _ Hb2), Hdel.
    destruct (Z.eqb_spec p a), (Z.eqb_spec p' a); subst; (done || lia).
Qed.

Lemma rebilled_ext c c' f g : (forall a, f a = g a) -> rebilled c c' f -> rebilled c c' g.
Proof. intros H [A B C D]. split; try done. intros Hty a. by rewrite <- H, C. Qed.

Lemma rebilled_refl c : rebilled c c (fun _ => 0).
Proof.
  split; [exists (account_ram_deltas c), (resource_limits c), (validate_ram_usage c); by destruct c|done|..].
  - intros _ a. lia.
  - intros a. lia.
Qed.

Lemma db_update_i64_wp it p buffer c :
  good c -> roomy 1 c -> it < 2 ^ 31 -> Z.of_nat (length buffer) < 2 ^ 32 ->
  wp (db_update_i64 it p buffer) (fun _ c' => keeps c c' /\ row_updated key_value c it p (Value buffer) c') legit c.
Proof.
  intros Hg Hroom Hit Hb. unfold db_update_i64. apply wp_bind.
  eapply wp_mono; [apply get_row_wp; [apply Hg|done]|]. intros r c0 _ [-> Hd].
  destruct (table_of_ok _ _ _ _ (proj1 Hg) Hd) as (tab & Htab & Eid & Et).
  apply wp_bind. unfold wp at 1. rewrite Et. apply wp_bind. unfold wp at 1, get_state.
  apply wp_check; [done|]. intros Hcode%Z.eqb_eq. cbn zeta.
  destruct (designates_cached _ _ _ _ (proj1 Hg) Hd) as (_ & _ & Hsz).
  set (r' := mk_row (id r) (t_id r) (primary_key r) (if p =? 0 then payer r else p) (Value buffer)).
  assert (billable_size key_value = 112) as Ebs by done.
  pose proof (value_size_nonneg (contents r)) as Hnn.
  assert (i64 (u64 (value_size (contents r) + billable_size key_value)) = row_bill key_value r) as ->
    by (apply (i64_u64_small (value_size (contents r) + billable_size key_value)); lia).
  assert (i64 (u64 (Z.of_nat (length buffer) + billable_size key_value)) = row_bill key_value r') as ->
    by (apply (i64_u64_small (Z.of_nat (length buffer) + billable_size key_value)); lia).
  assert (0 <= row_bill key_value r < 2 ^ 32 + 2 ^ 20) as Hr1
    by (change (row_bill key_value r) with (value_size (contents r) + billable_size key_value); lia).
  assert (0 <= row_bill key_value r' < 2 ^ 32 + 2 ^ 20) as Hr2
    by (change (row_bill key_value r') with (Z.of_nat (length buffer) + billable_size key_value); lia).
  change (if p =? 0 then payer r else p) with (payer r') at 1 2 3.
  apply wp_bind.
  assert (forall c1, rebilled c c1 (fun a => row_billed_to a key_value r' - row_billed_to a key_value r) ->
    wp (modify_row key_value r (payer r') (Value buffer))
      (fun _ c' => keeps c c' /\ row_updated key_value c it p (Value buffer) c') legit c1) as Htail
    by (intros c1 Hc1; by apply (modify_tail_wp key_value c c1 tab r it p (Value buffer))).
  unfold row_billed_to in Htail.
  destruct (Z.eqb_spec (payer r) (payer r')) as [Ep|Ep]; cbn [negb].
  - destruct (Z.eqb_spec (row_bill key_value r) (row_bill key_value r')) as [Eb|Eb]; cbn [negb].
    + unfold wp at 1, ret. apply Htail. eapply rebilled_ext; [|apply rebilled_refl].
      intros a. cbn beta. rewrite <- Ep, Eb. destruct (payer r =? a); lia.
    + eapply wp_mono; [apply update_db_usage_wp; [lia|]|].
      { destruct Hroom as (_ & _ & R3). specialize (R3 (payer r)). lia. }
      intros [] c1 _ Hc1. apply Htail. eapply rebilled_ext; [|apply billed_rebilled; [|exact Hc1]; lia].
      intros a. cbn beta. rewrite <- Ep. destruct (payer r =? a); lia.
  - eapply wp_mono; [apply rebill_wp; [lia|lia|done|done]|].
    intros [] c1 _ Hc1. apply Htail. eapply rebilled_ext; [|exact Hc1].
    intros a. cbn beta. destruct (payer r =? a), (payer r' =? a); lia.
Qed.

Lemma update_wp k it p v c :
  k <> key_value -> good c -> roomy 1 c -> it < 2 ^ 31 -> value_size v < 2 ^ 32 ->
  wp (update k it p v) (fun _ c' => keeps c c' /\ row_updated k c it p v c') legit c.
Proof.
  intros Hkv Hg Hroom Hit Hb. unfold update. apply wp_bind.
  eapply wp_mono; [apply get_row_wp; [apply Hg|done]|]. intros r c0 _ [-> Hd].
  destruct (table_of_ok _ _ _ _ (proj1 Hg) Hd) as (tab & Htab & Eid & Et).
  apply wp_bind. unfold wp at 1. rewrite Et. apply wp_bind. unfold wp at 1, get_state.
  apply wp_check; [done|]. intros Hcode%Z.eqb_eq. cbn zeta.
  set (r' := mk_row (id r) (t_id r) (primary_key r) (if p =? 0 then payer r else p) v).
  pose proof (billable_size_bound k) as Hbs. rewrite i64_small by (unfold is_int64; lia).
  change (if p =? 0 then payer r else p) with (payer r') at 1 2 3.
  apply wp_bind.
  assert (forall c1, rebilled c c1 (fun a => row_billed_to a k r' - row_billed_to a k r) ->
    wp (modify_row k r (payer r') v) (fun _ c' => keeps c c' /\ row_updated k c it p v c') legit c1) as Htail
    by (intros c1 Hc1; by apply (modify_tail_wp k c c1 tab r it p v)).
  unfold row_billed_to in Htail. rewrite !row_bill_index in Htail by done.
  destruct (Z.eqb_spec (payer r) (payer r')) as [Ep|Ep]; cbn [negb].
  - unfold wp at 1, ret. apply Htail. eapply rebilled_ext; [|apply rebilled_refl].
    intros a. cbn beta. rewrite <- Ep. lia.
  - eapply wp_mono; [apply rebill_wp; [lia|lia|done|done]|].
    intros [] c1 _ Hc1. apply Htail. eapply rebilled_ext; [|exact Hc1].
    intros a. cbn beta. destruct (payer r =? a), (payer r' =? a); lia.
Qed.
End Operations.
