(* ===== verification/ContractIterators.v ===== *)
(** What the iterators of a contract mean: each table is the sequence of its
    rows in the order of an index ([table_rows]); the searches return the
    first row of the sequence that the key asks for, next and previous move by
    one, and walking a table visits each of its rows once, in order. *)

From Stdlib Require Import ZArith Lia.
From stdpp Require Import base gmap numbers sorting list.
From S2P Require Import Prelude Chainbase Authority ResourceLimits IteratorCache ContractTables ContractInvariant ContractOperations.

#[local] Open Scope Z_scope.
#[local] Open Scope chain_scope.

(** ** Strict weak orders given by a boolean comparison *)

Record weak_order {A} (lt : A -> A -> bool) : Prop := {
  wo_asymm : forall a b, lt a b = true -> lt b a = false;
  wo_trans : forall a b c, lt b a = false -> lt c b = false -> lt c a = false
}.

(** Comparing by one key and then, when neither is less, by another. *)
Definition lex {A} (lt1 lt2 : A -> A -> bool) (a b : A) : bool := lt1 a b || (negb (lt1 b a) && lt2 a b).

Lemma lex_weak_order {A} (lt1 lt2 : A -> A -> bool) :
  weak_order lt1 -> weak_order lt2 -> weak_order (lex lt1 lt2).
Proof.
  intros [A1 T1] [A2 T2]. unfold lex. split.
  - intros a b H. destruct (lt1 a b) eqn:E1.
    + by rewrite (A1 _ _ E1).
    + cbn in H. apply andb_true_iff in H as [H1 H2]. apply negb_true_iff in H1.
      by rewrite H1, (A2 _ _ H2).
  - intros a b c H1 H2. apply orb_false_iff in H1 as [H1 H1'], H2 as [H2 H2'].
    rewrite (T1 a b c H1 H2). cbn. destruct (lt1 a c) eqn:E; [done|]. cbn in *.
    (* all three are equivalent for lt1 *)
    assert (lt1 a b = false) as E1 by (eapply T1; [exact H2|exact E]).
    assert (lt1 b c = false) as E2 by (eapply T1; [exact E|exact H1]).
    rewrite E1 in H1'. rewrite E2 in H2'. cbn in *. by eapply T2.
Qed.

Lemma weak_order_by {A B} (f : A -> B) lt : weak_order lt -> weak_order (fun a b => lt (f a) (f b)).
Proof. intros [H1 H2]. split; intros *; [apply H1|apply H2]. Qed.

Lemma weak_order_Z : weak_order Z.ltb.
Proof.
  split.
  - intros a b. rewrite Z.ltb_lt, Z.ltb_ge. lia.
  - intros a b c. rewrite !Z.ltb_ge. lia.
Qed.

Lemma weak_order_ext {A} (lt lt' : A -> A -> bool) :
  (forall a b, lt a b = lt' a b) -> weak_order lt -> weak_order lt'.
Proof. intros E [H1 H2]. split; intros *; rewrite <- !E; [apply H1|apply H2]. Qed.

Section Iterators.
Context {SF : SoftFloat}.
Context {TT TR TL TU : Type} `{HTT : !Table Z table_id_object TT} `{HTR : !Table Z row TR}.
Context `{HTL : !Table (bool * Z) Manager.resource_limits_object TL}
        `{HTU : !Table Z Manager.resource_usage_object TU}.

Abbreviation context := (@apply_context TT TR TL TU).
Implicit Types (c : context) (k : index_kind) (r : row).

(** ** The orders of the indices *)

Lemma secondary_less_weak_order : weak_order secondary_less.
Proof.
  split.
  - intros a b. destruct a, b; cbn; try done.
    + rewrite Z.ltb_lt, Z.ltb_ge. lia.
    + rewrite Z.ltb_lt, Z.ltb_ge. lia.
    + lia.
    + apply f64_lt_asymm.
    + apply f128_lt_asymm.
  - intros a b c. destruct a, b, c; cbn; try done.
    + rewrite !Z.ltb_ge. lia.
    + rewrite !Z.ltb_ge. lia.
    + lia.
    + apply f64_nlt_trans.
    + apply f128_nlt_trans.
Qed.

Lemma row_lt_weak_order by_ : weak_order (row_lt by_).
Proof.
  assert (weak_order (fun a b : row => t_id a <? t_id b)) as Ht by apply weak_order_by, weak_order_Z.
  assert (weak_order (fun a b : row => primary_key a <? primary_key b)) as Hp by apply weak_order_by, weak_order_Z.
  assert (weak_order (fun a b : row => secondary_less (contents a) (contents b))) as Hs
    by apply weak_order_by, secondary_less_weak_order.
  assert (forall x y : Z, (x =? y) = negb (x <? y) && negb (y <? x)) as Heq by (intros; lia).
  destruct by_.
  - eapply weak_order_ext; [|exact (lex_weak_order _ _ Ht Hp)]. intros a b. unfold lex, row_lt, primary_lt. lia.
  - eapply weak_order_ext; [|exact (lex_weak_order _ _ (lex_weak_order _ _ Ht Hs) Hp)].
    intros a b. unfold lex at 1. unfold row_lt, secondary_lt.
    assert (forall x y : row, lex (fun a b => t_id a <? t_id b) (fun a b => secondary_less (contents a) (contents b)) x y
      = (t_id x <? t_id y) || ((t_id x =? t_id y) && secondary_less (contents x) (contents y))) as E; [|by rewrite !E].
    intros x y. unfold lex. rewrite Heq.
    destruct (Z.ltb_spec (t_id x) (t_id y)), (Z.ltb_spec (t_id y) (t_id x)); done.
Qed.

#[export] Instance row_le_total by_ : Total (row_le by_).
Proof.
  intros a b. unfold row_le. destruct (row_lt by_ b a) eqn:E; [|by left]. right.
  by apply (wo_asymm _ (row_lt_weak_order by_)).
Qed.

#[export] Instance row_le_transitive by_ : Transitive (row_le by_).
Proof. intros a b c. unfold row_le. apply (wo_trans _ (row_lt_weak_order by_)). Qed.

Lemma row_le_table by_ a b : row_le by_ a b -> t_id a <= t_id b.
Proof.
  unfold row_le, row_lt, primary_lt, secondary_lt. destruct by_; [lia|].
  intros H. apply orb_false_iff in H as [H _]. apply orb_false_iff in H as [H _]. lia.
Qed.

Lemma row_le_primary a b : t_id a = t_id b -> row_le by_primary a b -> primary_key a <= primary_key b.
Proof. unfold row_le, row_lt, primary_lt. lia. Qed.

Lemma row_le_secondary a b :
  t_id a = t_id b -> row_le by_secondary a b -> secondary_less (contents b) (contents a) = false.
Proof.
  intros E. unfold row_le, row_lt, secondary_lt. rewrite E, Z.eqb_refl, Z.ltb_irrefl. cbn.
  intros H. by apply orb_false_iff in H as [H _].
Qed.

(** ** Tables as sequences *)

Definition table_rows (k : index_kind) (by_ : tag) (t : Z) (c : context) : list row :=
  filter (fun r => t_id r = t) (index_rows k by_ c).

Lemma index_rows_sorted k by_ c : StronglySorted (row_le by_) (index_rows k by_ c).
Proof. apply StronglySorted_merge_sort; apply _. Qed.

Lemma table_rows_elem k by_ t c r :
  r ∈ table_rows k by_ t c <-> t_id r = t /\ exists p, view k c !! p = Some r.
Proof. unfold table_rows. by rewrite list_elem_of_filter, index_rows_elem. Qed.

Lemma StronglySorted_filter {A} (R : relation A) (P : A -> Prop) `{!forall x, Decision (P x)} l :
  StronglySorted R l -> StronglySorted R (filter P l).
Proof.
  induction 1 as [|x l _ IH Hall]; [constructor|]. rewrite filter_cons.
  destruct (decide (P x)); [|done]. constructor; [done|].
  rewrite Forall_forall in *. intros y [_ Hy]%list_elem_of_filter. by apply Hall.
Qed.

Lemma table_rows_sorted k by_ t c : StronglySorted (row_le by_) (table_rows k by_ t c).
Proof. apply StronglySorted_filter, index_rows_sorted. Qed.

Lemma index_rows_NoDup k by_ c : (forall k, rows_ok c k) -> NoDup (id <$> index_rows k by_ c).
Proof.
  intros Hr. unfold index_rows. rewrite merge_sort_Permutation, tbl_rows_perm. fold (view k c).
  rewrite <- list_fmap_compose.
  assert ((id ∘ snd) <$> map_to_list (view k c) = fst <$> map_to_list (view k c)) as ->.
  { apply list_fmap_ext. intros i [p r] Hx. cbn. apply (row_id _ _ (Hr k)).
    apply elem_of_map_to_list. by eapply list_elem_of_lookup_2. }
  apply NoDup_fst_map_to_list.
Qed.

(** The rows of a table are contiguous in the index. *)
Lemma index_rows_split k by_ t c :
  exists before after, index_rows k by_ c = before ++ table_rows k by_ t c ++ after
    /\ Forall (fun r => t_id r < t) before /\ Forall (fun r => t < t_id r) after.
Proof.
  unfold table_rows. pose proof (index_rows_sorted k by_ c) as Hs.
  induction Hs as [|x l _ (before & after & E & Hb & Ha) Hall]; [by exists [], []|].
  assert (Forall (fun r => t_id x <= t_id r) l) as Hge.
  { eapply Forall_impl; [exact Hall|]. intros r. apply row_le_table. }
  rewrite filter_cons. destruct (decide (t_id x = t)) as [Ex|Ex].
  - exists [], after. split; [|split; [constructor|done]]. cbn. f_equal.
    destruct before as [|b before]; [exact E|]. exfalso.
    rewrite E in Hge. inversion Hge; subst. inversion Hb; subst. lia.
  - destruct (Z.lt_ge_cases (t_id x) t) as [Hlt|Hgt].
    + exists (x :: before), after. cbn. rewrite <- E. split; [done|]. split; [by constructor|done].
    + exists [], (x :: l).
      assert (filter (fun r => t_id r = t) l = []) as ->.
      { destruct (filter (fun r => t_id r = t) l) as [|y l'] eqn:Ey; [done|]. exfalso.
        assert (y ∈ filter (fun r => t_id r = t) l) as Hy by (rewrite Ey; left).
        apply list_elem_of_filter in Hy as [Hy1 Hy2]. rewrite Forall_forall in Hge. specialize (Hge _ Hy2). lia. }
      cbn. split; [done|]. split; [constructor|]. constructor; [lia|].
      eapply Forall_impl; [exact Hge|]. intros r Hr. cbn in Hr. lia.
Qed.

Lemma first_row_cons p x l : first_row p (x :: l) = if p x then Some x else first_row p l.
Proof.
  unfold first_row. cbn. destruct (p x); cbn; [done|]. by destruct (list_find _ l) as [[i y]|].
Qed.

Lemma first_row_app p l1 l2 :
  first_row p (l1 ++ l2) = match first_row p l1 with Some r => Some r | None => first_row p l2 end.
Proof.
  induction l1 as [|x l1 IH]; [done|]. cbn [app]. rewrite !first_row_cons. by destruct (p x).
Qed.

Lemma first_row_skip p l : Forall (fun r => p r = false) l -> first_row p l = None.
Proof. induction 1 as [|x l Hx _ IH]; [done|]. by rewrite first_row_cons, Hx. Qed.

(** What a search in the whole index finds is what it finds in the table. *)
Lemma first_row_table k by_ t c p :
  (forall r, t_id r < t -> p r = false) ->
  match first_row p (index_rows k by_ c) with
  | Some r => if negb (t_id r =? t) then None else Some r
  | None => None
  end = first_row p (table_rows k by_ t c).
Proof.
  intros Hp. destruct (index_rows_split k by_ t c) as (before & after & E & Hb & Ha). rewrite E.
  rewrite !first_row_app, first_row_skip by (eapply Forall_impl; [exact Hb|]; done).
  destruct (first_row p (table_rows k by_ t c)) as [r|] eqn:Er.
  - apply first_row_Some in Er as [Hin _]. apply table_rows_elem in Hin as [<- _]. by rewrite Z.eqb_refl.
  - destruct (first_row p after) as [r|] eqn:Er'; [|done]. apply first_row_Some in Er' as [Hin _].
    rewrite Forall_forall in Ha. specialize (Ha _ Hin). cbn in Ha. destruct (Z.eqb_spec (t_id r) t); [lia|done].
Qed.

Lemma position_lookup l i r : NoDup (id <$> l) -> l !! i = Some r -> position r l = Some i.
Proof.
  intros Hnd Hi. unfold position.
  assert (list_find (fun x => id x = id r) l = Some (i, r)) as ->; [|done].
  apply list_find_Some. split; [done|]. split; [done|]. intros j y Hj Hlt E.
  assert (j = i); [|lia]. eapply (NoDup_lookup _ j i (id r) Hnd); rewrite list_lookup_fmap; [by rewrite Hj; cbn; f_equal|by rewrite Hi].
Qed.

(** A row of a table and its neighbours in the index. *)
Lemma next_row_table k by_ c r j :
  context_wf c -> table_rows k by_ (t_id r) c !! j = Some r ->
  match next_row r (index_rows k by_ c) with
  | Some r' => if negb (t_id r' =? t_id r) then None else Some r'
  | None => None
  end = table_rows k by_ (t_id r) c !! S j.
Proof.
  intros Hwf Hj. pose proof (index_rows_NoDup k by_ c (wf_rows _ Hwf)) as Hnd.
  destruct (index_rows_split k by_ (t_id r) c) as (before & after & E & Hb & Ha).
  set (B := table_rows k by_ (t_id r) c) in *. unfold next_row.
  assert (index_rows k by_ c !! (length before + j)%nat = Some r) as Hpos.
  { rewrite E, lookup_app_r by lia. rewrite lookup_app_l; [by rewrite (Nat.add_comm (length before)), Nat.add_sub|].
    rewrite (Nat.add_comm (length before)), Nat.add_sub. by apply lookup_lt_Some in Hj. }
  rewrite (position_lookup _ _ _ Hnd Hpos), E.
  replace (S (length before + j)) with (length before + S j)%nat by lia.
  rewrite lookup_app_r by lia. rewrite (Nat.add_comm (length before)), Nat.add_sub.
  destruct (B !! S j) as [r'|] eqn:Er'.
  - rewrite (lookup_app_l_Some _ _ _ _ Er'). assert (r' ∈ B) as Hin by by eapply list_elem_of_lookup_2.
    apply table_rows_elem in Hin as [-> _]. by rewrite Z.eqb_refl.
  - apply lookup_ge_None in Er'. rewrite lookup_app_r by done.
    destruct (after !! _) as [r'|] eqn:Ea; [|done]. apply list_elem_of_lookup_2 in Ea.
    rewrite Forall_forall in Ha. specialize (Ha _ Ea). cbn in Ha. destruct (Z.eqb_spec (t_id r') (t_id r)); [lia|done].
Qed.

Lemma previous_row_table k by_ c r j :
  context_wf c -> table_rows k by_ (t_id r) c !! j = Some r ->
  match previous_row r (index_rows k by_ c) with
  | Some r' => if negb (t_id r' =? t_id r) then None else Some r'
  | None => None
  end = match j with S i => table_rows k by_ (t_id r) c !! i | O => None end.
Proof.
  intros Hwf Hj. pose proof (index_rows_NoDup k by_ c (wf_rows _ Hwf)) as Hnd.
  destruct (index_rows_split k by_ (t_id r) c) as (before & after & E & Hb & Ha).
  set (B := table_rows k by_ (t_id r) c) in *. unfold previous_row.
  assert (index_rows k by_ c !! (length before + j)%nat = Some r) as Hpos.
  { rewrite E, lookup_app_r by lia. rewrite lookup_app_l; [by rewrite (Nat.add_comm (length before)), Nat.add_sub|].
    rewrite (Nat.add_comm (length before)), Nat.add_sub. by apply lookup_lt_Some in Hj. }
  rewrite (position_lookup _ _ _ Hnd Hpos), E. destruct j as [|j].
  - rewrite Nat.add_0_r. destruct (length before) as [|n] eqn:El; [done|].
    rewrite lookup_app_l by lia. destruct (before !! n) as [r'|] eqn:Er'; [|done].
    apply list_elem_of_lookup_2 in Er'. rewrite Forall_forall in Hb. specialize (Hb _ Er'). cbn in Hb.
    destruct (Z.eqb_spec (t_id r') (t_id r)); [lia|done].
  - replace (length before + S j)%nat with (S (j + length before)) by lia.
    rewrite lookup_app_r by lia. rewrite Nat.add_sub.
    apply lookup_lt_Some in Hj. destruct (lookup_lt_is_Some_2 B j ltac:(lia)) as [r' Er'].
    rewrite (lookup_app_l_Some _ _ _ _ Er'), Er'. assert (r' ∈ B) as Hin by by eapply list_elem_of_lookup_2.
    apply table_rows_elem in Hin as [-> _]. by rewrite Z.eqb_refl.
Qed.

Lemma before_upper_bound_table k by_ t c :
  match before_upper_bound t (index_rows k by_ c) with
  | Some r => if negb (t_id r =? t) then None else Some r
  | None => None
  end = last (table_rows k by_ t c).
Proof.
  destruct (index_rows_split k by_ t c) as (before & after & E & Hb & Ha).
  set (B := table_rows k by_ t c) in *. unfold before_upper_bound. rewrite E.
  assert (match list_find (fun r => t < t_id r) (before ++ B ++ after) with
          | Some (i, _) => i | None => length (before ++ B ++ after) end = (length before + length B)%nat) as ->.
  { assert (list_find (fun r => t < t_id r) before = None) as Eb.
    { apply list_find_None. eapply Forall_impl; [exact Hb|]. intros x Hx. cbn in Hx. lia. }
    assert (list_find (fun r => t < t_id r) B = None) as EB.
    { apply list_find_None, Forall_forall. intros x Hx. apply table_rows_elem in Hx as [-> _]. lia. }
    rewrite (list_find_app_r _ _ _ Eb), (list_find_app_r _ _ _ EB). destruct after as [|x after].
    - cbn. rewrite !length_app. cbn. lia.
    - cbn. inversion Ha; subst. rewrite decide_True by done. cbn. lia. }
  rewrite last_lookup. destruct (length B) as [|n] eqn:El.
  - rewrite Nat.add_0_r. assert (B = []) as -> by (by apply length_zero_iff_nil). cbn.
    destruct (length before) as [|m] eqn:Em; [done|].
    rewrite lookup_app_l by lia. destruct (before !! m) as [r|] eqn:Er; [|done].
    apply list_elem_of_lookup_2 in Er. rewrite Forall_forall in Hb. specialize (Hb _ Er). cbn in Hb.
    destruct (Z.eqb_spec (t_id r) t); [lia|done].
  - replace (length before + S n)%nat with (S (n + length before)) by lia.
    rewrite lookup_app_r by lia. rewrite Nat.add_sub. cbn [Nat.pred].
    destruct (lookup_lt_is_Some_2 B n ltac:(lia)) as [r Er].
    rewrite (lookup_app_l_Some _ _ _ _ Er), Er. assert (r ∈ B) as Hin by by eapply list_elem_of_lookup_2.
    apply table_rows_elem in Hin as [-> _]. by rewrite Z.eqb_refl.
Qed.

(** ** What the operations return *)

(** The iterator for a row, or the end iterator of the table when there is none. *)
Definition points_to (k : index_kind) (t : Z) (c : context) (it : Z) (x : option row) : Prop :=
  match x with
  | Some r => designates k c it r
  | None => end_of (cache_of k c) t = Some it
  end.

(** Handing out an iterator for a row of a cached table. *)
Lemma hand_out k c r t e :
  context_wf c -> room 1 (cache_of k c) -> r ∈ table_rows k by_primary t c -> end_of (cache_of k c) t = Some e ->
  exists it c', cache_add k (id r) c = (Ok it, c') /\ reads 1 c c' /\ designates k c' it r.
Proof.
  intros Hwf Hroom Hin He. apply table_rows_elem in Hin as [<- [p Hp]].
  pose proof (row_id _ _ (wf_rows _ Hwf k) _ _ Hp) as Eid. rewrite <- Eid in Hp.
  destruct (cache_add_reads k r c Hwf Hp (end_of_cached _ _ _ He) Hroom) as (it & c' & E & Hrd & Ho).
  exists it, c'. split; [done|]. split; [done|]. split; [done|]. by rewrite (reads_view _ _ _ _ Hrd).
Qed.

Lemma table_rows_tag k by_ t c r : r ∈ table_rows k by_ t c <-> r ∈ table_rows k by_primary t c.
Proof. by rewrite !table_rows_elem. Qed.

Lemma reads_table_rows n c c' k by_ t : reads n c c' -> table_rows k by_ t c' = table_rows k by_ t c.
Proof. intros H. unfold table_rows. by rewrite (reads_index_rows _ _ _ _ _ H). Qed.

Lemma seek_ok k by_ cd sc tb search c tab :
  context_wf c -> room 2 (cache_of k c) -> find_table cd sc tb c = Some tab ->
  (forall r, t_id r < tab_id tab -> search (tab_id tab) r = false) ->
  let x := first_row (search (tab_id tab)) (table_rows k by_ (tab_id tab) c) in
  exists it c', seek k by_ cd sc tb search c = (Ok (it, x), c') /\ reads 2 c c'
    /\ points_to k (tab_id tab) c' it x /\ is_Some (end_of (cache_of k c') (tab_id tab)).
Proof.
  intros Hwf Hroom Ef Hs x. pose proof (find_table_Some _ _ _ _ _ Ef (wf_tables _ Hwf)) as (Htab & _).
  unfold seek, bind at 1, get_state. rewrite Ef.
  destruct (cache_table_reads k (tab_id tab) c Hwf) as (ei & c1 & E1 & Hrd1 & He1);
    [by eexists|by eapply room_le; [|exact Hroom]; lia|].
  unfold bind. rewrite E1. pose proof (first_row_table k by_ (tab_id tab) c _ Hs) as Hfr. fold x in Hfr.
  assert (exists c', (Ok (ei, @None row), c1) = (Ok (ei, None), c') /\ reads 2 c c'
    /\ end_of (cache_of k c') (tab_id tab) = Some ei) as (c1' & Ec1 & Hrd1' & He1').
  { exists c1. split; [done|]. split; [|done]. destruct Hrd1. split; try done.
    intros k' m Hm. apply rd_room. eapply room_le; [|exact Hm]. lia. }
  injection Ec1 as <-.
  destruct (first_row (search (tab_id tab)) (index_rows k by_ c)) as [r|] eqn:Er.
  - destruct (negb (t_id r =? tab_id tab)) eqn:En.
    + rewrite <- Hfr. exists ei, c1. split; [done|]. split; [done|]. split; [done|by eexists].
    + rewrite <- Hfr. symmetry in Hfr. apply first_row_Some in Hfr as [Hin _].
      destruct (hand_out k c1 r (tab_id tab) ei (rd_wf _ _ _ Hrd1)) as (it & c2 & E2 & Hrd2 & Hd).
      * apply (rd_room _ _ _ Hrd1). done.
      * rewrite (reads_table_rows _ _ _ _ _ _ Hrd1). by apply table_rows_tag in Hin.
      * done.
      * rewrite E2. exists it, c2. split; [done|]. split; [exact (reads_trans 1 1 _ _ _ Hrd1 Hrd2)|].
        split; [done|]. eexists. by apply (rd_end _ _ _ Hrd2).
  - rewrite <- Hfr. exists ei, c1. split; [done|]. split; [done|]. split; [done|by eexists].
Qed.

Lemma step_next_ok k by_ c it r j :
  context_wf c -> room 1 (cache_of k c) -> designates k c it r ->
  table_rows k by_ (t_id r) c !! j = Some r ->
  let x := table_rows k by_ (t_id r) c !! S j in
  exists it' c', step_next k by_ it c = (Ok (it', primary_key <$> x), c') /\ reads 1 c c'
    /\ points_to k (t_id r) c' it' x.
Proof.
  intros Hwf Hroom Hd Hj x. pose proof (object_at_small _ _ _ (cache_rep _ _ (wf_caches _ Hwf k)) (proj1 Hd)) as Hit.
  destruct (designates_cached _ _ _ _ Hwf Hd) as (Hct & _ & _). destruct (cached_end_of _ _ Hct) as [e He].
  unfold step_next. destruct (Z.ltb_spec it (-1)); [lia|].
  unfold bind at 1. rewrite (get_row_designates k c it r Hwf Hd). unfold bind at 1, get_state. fold (cache_of k c).
  pose proof (next_row_table k by_ c r j Hwf Hj) as Hnx. fold x in Hnx.
  assert (get_end_iterator_by_table_id (t_id r) (cache_of k c) = Ok e) as Ee.
  { unfold get_end_iterator_by_table_id, end_of in *. destruct (table_cache _ !! t_id r) as [[ptr ei]|]; cbn in He; [by injection He as ->|done]. }
  assert (reads 1 c c) as Hrefl.
  { pose proof (reads_refl c Hwf) as R. destruct R. split; try done. intros k' m. apply room_le. lia. }
  destruct (next_row r (index_rows k by_ c)) as [r'|] eqn:En.
  - destruct (negb (t_id r' =? t_id r)) eqn:Et.
    + unfold bind, lift. rewrite Ee, <- Hnx. by exists e, c.
    + rewrite <- Hnx. symmetry in Hnx. unfold x in Hnx. apply list_elem_of_lookup_2, table_rows_tag in Hnx.
      destruct (hand_out k c r' (t_id r) e Hwf Hroom Hnx He) as (it' & c' & E & Hrd & Hd').
      unfold bind. rewrite E. by exists it', c'.
  - unfold bind, lift. rewrite Ee, <- Hnx. by exists e, c.
Qed.

Lemma step_next_end k by_ it c : it < -1 -> step_next k by_ it c = (Ok (-1, None), c).
Proof. intros H. unfold step_next. destruct (Z.ltb_spec it (-1)); [done|lia]. Qed.

Definition previous_result (k : index_kind) (c : context) (it : Z) (x : option row) : Prop :=
  match x with Some r => designates k c it r | None => it = -1 end.

Lemma step_previous_ok k by_ c it r j :
  context_wf c -> room 1 (cache_of k c) -> designates k c it r ->
  table_rows k by_ (t_id r) c !! j = Some r ->
  let x := match j with S i => table_rows k by_ (t_id r) c !! i | O => None end in
  exists it' c', step_previous k by_ it c = (Ok (it', primary_key <$> x), c') /\ reads 1 c c'
    /\ previous_result k c' it' x.
Proof.
  intros Hwf Hroom Hd Hj x. pose proof (object_at_small _ _ _ (cache_rep _ _ (wf_caches _ Hwf k)) (proj1 Hd)) as Hit.
  destruct (designates_cached _ _ _ _ Hwf Hd) as (Hct & _ & _). destruct (cached_end_of _ _ Hct) as [e He].
  unfold step_previous, bind at 1, get_state. destruct (Z.ltb_spec it (-1)); [lia|].
  unfold bind at 1. rewrite (get_row_designates k c it r Hwf Hd).
  pose proof (previous_row_table k by_ c r j Hwf Hj) as Hpv. fold x in Hpv.
  assert (reads 1 c c) as Hrefl.
  { pose proof (reads_refl c Hwf) as R. destruct R. split; try done. intros k' m. apply room_le. lia. }
  destruct (previous_row r (index_rows k by_ c)) as [r'|] eqn:En.
  - destruct (negb (t_id r' =? t_id r)) eqn:Et.
    + rewrite <- Hpv. by exists (-1), c.
    + rewrite <- Hpv. assert (r' ∈ table_rows k by_primary (t_id r) c) as Hin.
      { apply (table_rows_tag k by_). symmetry in Hpv. unfold x in Hpv. destruct j; [done|].
        by eapply list_elem_of_lookup_2. }
      destruct (hand_out k c r' (t_id r) e Hwf Hroom Hin He) as (it' & c' & E & Hrd & Hd').
      unfold bind. rewrite E. by exists it', c'.
  - rewrite <- Hpv. by exists (-1), c.
Qed.

Lemma step_previous_end_ok k by_ c it t :
  context_wf c -> room 1 (cache_of k c) -> end_of (cache_of k c) t = Some it -> is_Some (tables c !! t) ->
  let x := last (table_rows k by_ t c) in
  exists it' c', step_previous k by_ it c = (Ok (it', primary_key <$> x), c') /\ reads 1 c c'
    /\ previous_result k c' it' x.
Proof.
  intros Hwf Hroom He [o Ho] x. pose proof (cache_rep _ _ (wf_caches _ Hwf k)) as Hrep.
  pose proof (end_of_below _ _ _ Hrep He) as Hb.
  unfold step_previous, bind at 1, get_state. destruct (Z.ltb_spec it (-1)); [|lia].
  unfold bind at 1, lift. fold (cache_of k c). rewrite (find_table_by_end_iterator_end _ _ _ Hrep He).
  unfold bind at 1, deref_table, bind at 1, get_state. rewrite tbl_find_view. fold (tables c). rewrite Ho. cbn [ret].
  rewrite (table_id_eq _ (wf_tables _ Hwf) _ _ Ho).
  pose proof (before_upper_bound_table k by_ t c) as Hu. fold x in Hu.
  assert (reads 1 c c) as Hrefl.
  { pose proof (reads_refl c Hwf) as R. destruct R. split; try done. intros k' m. apply room_le. lia. }
  destruct (before_upper_bound t (index_rows k by_ c)) as [r'|] eqn:En.
  - destruct (negb (t_id r' =? t)) eqn:Et.
    + rewrite <- Hu. by exists (-1), c.
    + rewrite <- Hu. assert (r' ∈ table_rows k by_primary t c) as Hin.
      { apply (table_rows_tag k by_). symmetry in Hu. unfold x in Hu. rewrite last_lookup in Hu. by eapply list_elem_of_lookup_2. }
      destruct (hand_out k c r' t it Hwf Hroom Hin He) as (it' & c' & E & Hrd & Hd').
      unfold bind. rewrite E. by exists it', c'.
  - rewrite <- Hu. by exists (-1), c.
Qed.
End Iterators.
