(* ===== verification/ContractTheorems.v ===== *)
(** What a contract can rely on when it uses its tables: the theorems on
    sequences of database operations, on walking a table, and on the RAM the
    accounts of an action are billed. *)

From Stdlib Require Import ZArith Lia.
From stdpp Require Import base gmap numbers sorting list.
From S2P Require Import Prelude Chainbase Authority ResourceLimits IteratorCache ContractTables ContractInvariant ContractOperations ContractIterators.

#[local] Open Scope Z_scope.
#[local] Open Scope chain_scope.

Section Theorems.
Context {SF : SoftFloat}.
Context {TT TR TL TU : Type} `{HTT : !Table Z table_id_object TT} `{HTR : !Table Z row TR}.
Context `{HTL : !Table (bool * Z) Manager.resource_limits_object TL}
        `{HTU : !Table Z Manager.resource_usage_object TU}.

Abbreviation context := (@apply_context TT TR TL TU).
Implicit Types (c : context) (k : index_kind) (r : row).

(** ** Sequences of operations *)

(** The calls a contract makes, with their arguments. *)
Inductive operation :=
| Db_store (scope_ table_ payer_ pk : Z) (buffer : list Z)
| Db_update (iterator payer_ : Z) (buffer : list Z)
| Db_remove (iterator : Z)
| Db_get (iterator : Z) (buffer_size : nat)
| Db_next (iterator : Z)
| Db_previous (iterator : Z)
| Db_find (code_ scope_ table_ pk : Z)
| Db_lowerbound (code_ scope_ table_ pk : Z)
| Db_upperbound (code_ scope_ table_ pk : Z)
| Db_end (code_ scope_ table_ : Z)
| Idx_store (k : index_kind) (scope_ table_ payer_ pk : Z) (secondary : data)
| Idx_update (k : index_kind) (iterator payer_ : Z) (secondary : data)
| Idx_remove (k : index_kind) (iterator : Z)
| Idx_get (k : index_kind) (iterator : Z)
| Idx_find_secondary (k : index_kind) (code_ scope_ table_ : Z) (secondary : data)
| Idx_lowerbound_secondary (k : index_kind) (code_ scope_ table_ : Z) (secondary : data)
| Idx_upperbound_secondary (k : index_kind) (code_ scope_ table_ : Z) (secondary : data)
| Idx_end_secondary (k : index_kind) (code_ scope_ table_ : Z)
| Idx_next_secondary (k : index_kind) (iterator : Z)
| Idx_previous_secondary (k : index_kind) (iterator : Z)
| Idx_find_primary (k : index_kind) (code_ scope_ table_ pk : Z)
| Idx_lowerbound_primary (k : index_kind) (code_ scope_ table_ pk : Z)
| Idx_upperbound_primary (k : index_kind) (code_ scope_ table_ pk : Z)
| Idx_next_primary (k : index_kind) (iterator : Z)
| Idx_previous_primary (k : index_kind) (iterator : Z).

Definition void {S A} (m : exec S A) : exec S unit := do _ <- m; ret tt.

Definition perform (op : operation) : exec context unit :=
  match op with
  | Db_store sc tb p pk b => void (db_store_i64 sc tb p pk b)
  | Db_update it p b => db_update_i64 it p b
  | Db_remove it => db_remove_i64 it
  | Db_get it n => void (db_get_i64 it n)
  | Db_next it => void (db_next_i64 it)
  | Db_previous it => void (db_previous_i64 it)
  | Db_find cd sc tb pk => void (db_find_i64 cd sc tb pk)
  | Db_lowerbound cd sc tb pk => void (db_lowerbound_i64 cd sc tb pk)
  | Db_upperbound cd sc tb pk => void (db_upperbound_i64 cd sc tb pk)
  | Db_end cd sc tb => void (db_end_i64 cd sc tb)
  | Idx_store k sc tb p pk s => void (store k sc tb p pk s)
  | Idx_update k it p s => update k it p s
  | Idx_remove k it => remove k it
  | Idx_get k it => void (get k it)
  | Idx_find_secondary k cd sc tb s => void (find_secondary k cd sc tb s)
  | Idx_lowerbound_secondary k cd sc tb s => void (lowerbound_secondary k cd sc tb s)
  | Idx_upperbound_secondary k cd sc tb s => void (upperbound_secondary k cd sc tb s)
  | Idx_end_secondary k cd sc tb => void (end_secondary k cd sc tb)
  | Idx_next_secondary k it => void (next_secondary k it)
  | Idx_previous_secondary k it => void (previous_secondary k it)
  | Idx_find_primary k cd sc tb pk => void (find_primary k cd sc tb pk)
  | Idx_lowerbound_primary k cd sc tb pk => void (lowerbound_primary k cd sc tb pk)
  | Idx_upperbound_primary k cd sc tb pk => void (upperbound_primary k cd sc tb pk)
  | Idx_next_primary k it => void (next_primary k it)
  | Idx_previous_primary k it => void (previous_primary k it)
  end.

Definition perform_all (ops : list operation) : exec context unit := for_each ops perform.

(** Iterators are of type int, buffers lie in the memory of a WASM instance. *)
Definition typed (op : operation) : Prop :=
  match op with
  | Db_store _ _ _ _ b => Z.of_nat (length b) < 2 ^ 32
  | Db_update it _ b => it < 2 ^ 31 /\ Z.of_nat (length b) < 2 ^ 32
  | Db_remove it | Db_get it _ | Db_next it | Db_previous it => - 2 ^ 31 <= it < 2 ^ 31
  | Idx_store k _ _ _ _ s => k <> key_value /\ value_size s < 2 ^ 32
  | Idx_update k it _ s => k <> key_value /\ it < 2 ^ 31 /\ value_size s < 2 ^ 32
  | Idx_remove k it => k <> key_value /\ it < 2 ^ 31
  | Idx_get _ it | Idx_next_secondary _ it | Idx_previous_secondary _ it
  | Idx_next_primary _ it | Idx_previous_primary _ it => - 2 ^ 31 <= it < 2 ^ 31
  | _ => True
  end.

(** The two calls of previous whose behaviour C++ leaves undefined: on the
    least int, and on the end iterator of a table that was removed. *)
Definition stale (k : index_kind) (it : Z) (c : context) : Prop :=
  it = - 2 ^ 31 \/ exists t, end_of (cache_of k c) t = Some it /\ tables c !! t = None.

Definition undefined_call (op : operation) (c : context) : Prop :=
  match op with
  | Db_previous it => stale key_value it c
  | Idx_previous_secondary k it | Idx_previous_primary k it => stale k it c
  | _ => False
  end.

(** ** The operations that search and move keep everything *)

Lemma keeps_refl c : good c -> keeps c c.
Proof. intros [Hwf Hfull]. eapply (reads_keeps 0); [lia|done|by apply reads_refl]. Qed.

Lemma seek_keeps k by_ cd sc tb search c :
  good c -> roomy 1 c -> (forall t r, t_id r < t -> search t r = false) ->
  exists x c', seek k by_ cd sc tb search c = (Ok x, c') /\ keeps c c'.
Proof.
  intros Hg (R1 & _) Hs. destruct (find_table cd sc tb c) as [tab|] eqn:Ef.
  - destruct (seek_ok k by_ cd sc tb search c tab) as (it & c' & E & Hrd & _); [apply Hg|apply R1|done|by intros; apply Hs|].
    eexists _, c'. split; [exact E|]. eapply reads_keeps; [|apply Hg|exact Hrd]. lia.
  - eexists _, c. split; [unfold seek, bind, get_state; by rewrite Ef|]. by apply keeps_refl.
Qed.

Lemma eq_primary_late pk t r : t_id r < t -> eq_primary pk t r = false.
Proof. unfold eq_primary. lia. Qed.
Lemma ge_primary_late pk t r : t_id r < t -> ge_primary pk t r = false.
Proof. unfold ge_primary, primary_lt. lia. Qed.
Lemma gt_primary_late pk t r : t_id r < t -> gt_primary pk t r = false.
Proof. unfold gt_primary, primary_lt. lia. Qed.
Lemma ge_secondary_late s t r : t_id r < t -> ge_secondary s t r = false.
Proof. unfold ge_secondary, secondary_lt. intros H. by rewrite (proj2 (Z.ltb_lt _ _) H). Qed.
Lemma gt_secondary_late s t r : t_id r < t -> gt_secondary s t r = false.
Proof.
  unfold gt_secondary, secondary_lt. intros H. destruct (Z.ltb_spec t (t_id r)); [lia|].
  destruct (Z.eqb_spec t (t_id r)); [lia|done].
Qed.
Lemma eq_secondary_late s t r : t_id r < t -> eq_secondary s t r = false.
Proof. intros H. unfold eq_secondary, secondary_lt. by rewrite (proj2 (Z.ltb_lt _ _) H). Qed.

Lemma row_in_table k by_ c it r :
  context_wf c -> designates k c it r -> exists j, table_rows k by_ (t_id r) c !! j = Some r.
Proof.
  intros Hwf [_ Hr]. apply list_elem_of_lookup_1, table_rows_elem. split; [done|by eexists].
Qed.

Lemma step_next_wp k by_ it c :
  good c -> roomy 1 c -> it < 2 ^ 31 -> wp (step_next k by_ it) (fun _ c' => keeps c c') legit c.
Proof.
  intros Hg (R1 & _) Hit. destruct (Z.lt_ge_cases it (-1)) as [Hlt|Hge].
  { unfold wp. rewrite step_next_end by done. by apply keeps_refl. }
  pose proof (get_row_wp k it c (proj1 Hg) Hit) as Hget. unfold wp in Hget.
  destruct (get_row k it c) as [[r|e] c0] eqn:Eg.
  - destruct Hget as [-> Hd]. destruct (row_in_table k by_ c it r (proj1 Hg) Hd) as [j Hj].
    destruct (step_next_ok k by_ c it r j) as (it' & c' & E & Hrd & _); [apply Hg|by eapply room_le; [|apply R1]; lia|done|done|].
    unfold wp. rewrite E. eapply reads_keeps; [|apply Hg|exact Hrd]. lia.
  - unfold wp, step_next. destruct (Z.ltb_spec it (-1)); [lia|]. unfold bind. by rewrite Eg.
Qed.

Lemma step_previous_wp k by_ it c :
  good c -> roomy 1 c -> - 2 ^ 31 <= it < 2 ^ 31 ->
  wp (step_previous k by_ it) (fun _ c' => keeps c c')
    (fun e => legit e \/ e = undefined_behavior /\ stale k it c) c.
Proof.
  intros Hg (R1 & _) Hit. pose proof (cache_rep _ _ (wf_caches _ (proj1 Hg) k)) as Hrep.
  assert (room 1 (cache_of k c)) as Hroom by (eapply room_le; [|apply R1]; lia).
  destruct (Z.lt_ge_cases it (-1)) as [Hlt|Hge].
  - destruct (Z.eq_dec it (- 2 ^ 31)) as [->|Hmin].
    { right. split; [done|by left]. }
    destruct (find_table_by_end_iterator_inv (cache_of k c) it _ Hrep ltac:(lia) eq_refl) as [E|(t & E & He)].
    + unfold wp, step_previous, bind, get_state, lift. destruct (Z.ltb_spec it (-1)); [|lia].
      fold (cache_of k c). rewrite E. by left.
    + destruct (tables c !! t) as [o|] eqn:Eo.
      * destruct (step_previous_end_ok k by_ c it t) as (it' & c' & E' & Hrd & _); [apply Hg|done|done|by eexists|].
        unfold wp. rewrite E'. eapply reads_keeps; [|apply Hg|exact Hrd]. lia.
      * unfold wp, step_previous, bind, get_state, lift, deref_table, bind, get_state.
        destruct (Z.ltb_spec it (-1)); [|lia]. fold (cache_of k c). rewrite E, tbl_find_view. fold (tables c).
        rewrite Eo. right. split; [done|]. right. by exists t.
  - pose proof (get_row_wp k it c (proj1 Hg) (proj2 Hit)) as Hget. unfold wp in Hget.
    destruct (get_row k it c) as [[r|e] c0] eqn:Eg.
    + destruct Hget as [-> Hd]. destruct (row_in_table k by_ c it r (proj1 Hg) Hd) as [j Hj].
      destruct (step_previous_ok k by_ c it r j) as (it' & c' & E & Hrd & _); [apply Hg|done|done|done|].
      unfold wp. rewrite E. eapply reads_keeps; [|apply Hg|exact Hrd]. lia.
    + unfold wp, step_previous, bind, get_state. destruct (Z.ltb_spec it (-1)); [lia|]. rewrite Eg. by left.
Qed.

Lemma end_iterator_keeps k cd sc tb c :
  good c -> roomy 1 c -> exists it c', end_iterator k cd sc tb c = (Ok it, c') /\ keeps c c'.
Proof.
  intros Hg (R1 & _). unfold end_iterator, bind, get_state. destruct (find_table cd sc tb c) as [tab|] eqn:Ef.
  - pose proof (find_table_Some _ _ _ _ _ Ef (wf_tables _ (proj1 Hg))) as (Htab & _).
    destruct (cache_table_reads k (tab_id tab) c) as (ei & c' & E & Hrd & _);
      [apply Hg|by eexists|by eapply room_le; [|apply R1]; lia|].
    exists ei, c'. split; [done|]. eapply reads_keeps; [|apply Hg|exact Hrd]. lia.
  - exists (-1), c. split; [done|by apply keeps_refl].
Qed.

Lemma get_row_keeps {A} k it (f : row -> A) c :
  good c -> it < 2 ^ 31 -> wp (do r <- get_row k it; ret (f r)) (fun _ c' => keeps c c') legit c.
Proof.
  intros Hg Hit. apply wp_bind. eapply wp_mono; [apply get_row_wp; [apply Hg|done]|].
  intros r c' _ [-> _]. by apply keeps_refl.
Qed.

Lemma wp_void {S A} (m : exec S A) (Q : S -> Prop) E s : wp m (fun _ s' => Q s') E s -> wp (void m) (fun _ s' => Q s') E s.
Proof. intros H. apply wp_bind. exact H. Qed.

Lemma seek_wp {A} k by_ cd sc tb search (f : Z * option row -> A) c :
  good c -> roomy 1 c -> (forall t r, t_id r < t -> search t r = false) ->
  wp (void (do x <- seek k by_ cd sc tb search; ret (f x))) (fun _ c' => keeps c c') legit c.
Proof.
  intros Hg Hr Hs. destruct (seek_keeps k by_ cd sc tb search c Hg Hr Hs) as (x & c' & E & Hk).
  unfold wp, void, bind. by rewrite E.
Qed.

Lemma wp_weaken {S A} (m : exec S A) (Q Q' : A -> S -> Prop) (E E' : exn -> Prop) s :
  wp m Q E s -> (forall a s', Q a s' -> Q' a s') -> (forall e, E e -> E' e) -> wp m Q' E' s.
Proof. unfold wp. destruct (m s) as [[a|e] s']; auto. Qed.

Lemma perform_wp op c :
  good c -> roomy 1 c -> typed op ->
  wp (perform op) (fun _ c' => keeps c c') (fun e => legit e \/ e = undefined_behavior /\ undefined_call op c) c.
Proof.
  intros Hg Hr Ht.
  assert (forall m : exec context unit, wp m (fun _ c' => keeps c c') legit c ->
    wp m (fun _ c' => keeps c c') (fun e => legit e \/ e = undefined_behavior /\ undefined_call op c) c) as Hlegit.
  { intros m H. eapply wp_weaken; [exact H|done|by left]. }
  destruct op; cbn [typed] in Ht;
    try (apply Hlegit; apply seek_wp; [done|done|];
         auto using eq_primary_late, ge_primary_late, gt_primary_late, eq_secondary_late, ge_secondary_late, gt_secondary_late).
  - apply Hlegit. apply wp_void. eapply wp_weaken; [by apply db_store_i64_wp| |done]. naive_solver.
  - apply Hlegit. eapply wp_weaken; [apply db_update_i64_wp; naive_solver| |done]. naive_solver.
  - apply Hlegit. eapply wp_weaken; [apply db_remove_i64_wp; [done|done|lia]| |done]. naive_solver.
  - apply Hlegit. apply wp_void. unfold db_get_i64. apply wp_bind.
    eapply wp_mono; [apply get_row_wp; [apply Hg|lia]|]. intros r c' _ [-> _].
    destruct (_ =? 0)%nat; by apply keeps_refl.
  - apply Hlegit, wp_void, step_next_wp; [done|done|lia].
  - apply wp_void. by apply step_previous_wp.
  - apply Hlegit, wp_void. unfold wp. destruct (end_iterator_keeps key_value code_ scope_ table_ c Hg Hr) as (it & c' & E & Hk).
    unfold db_end_i64. by rewrite E.
  - apply Hlegit. apply wp_void. eapply wp_weaken; [apply store_wp; naive_solver| |done]. naive_solver.
  - apply Hlegit. eapply wp_weaken; [apply update_wp; naive_solver| |done]. naive_solver.
  - apply Hlegit. eapply wp_weaken; [apply remove_wp; naive_solver| |done]. naive_solver.
  - apply Hlegit, wp_void, get_row_keeps; [done|lia].
  - apply Hlegit, wp_void. unfold wp. destruct (end_iterator_keeps k code_ scope_ table_ c Hg Hr) as (it & c' & E & Hk).
    unfold end_secondary. by rewrite E.
  - apply Hlegit, wp_void, step_next_wp; [done|done|lia].
  - apply wp_void. by apply step_previous_wp.
  - apply Hlegit, wp_void, step_next_wp; [done|done|lia].
  - apply wp_void. by apply step_previous_wp.
Qed.

(** ** What a sequence of operations does *)

Record follows (c c' : context) : Prop := {
  fl_good : good c';
  fl_ram : ram_evolves c c';
  fl_balance : ram_typed c -> forall a, ram c' a - billed_to a c' = ram c a - billed_to a c;
  fl_next : forall k, next_id (indices c k) <= next_id (indices c' k);
  fl_old : forall k p, p < next_id (indices c k) -> is_Some (view k c' !! p) -> is_Some (view k c !! p);
  fl_iter : forall k i p, object_at (cache_of k c) i = Some p -> is_Some (view k c' !! p) ->
    object_at (cache_of k c') i = Some p;
  fl_end : forall k t e, end_of (cache_of k c) t = Some e -> end_of (cache_of k c') t = Some e
}.

Lemma keeps_follows c c' : keeps c c' -> follows c c'.
Proof. intros [A1 A2 A3 A4 A5 A6 A7 A8 A9]. by split. Qed.

Lemma follows_trans c1 c2 c3 : good c1 -> follows c1 c2 -> follows c2 c3 -> follows c1 c3.
Proof.
  intros [Hwf _] [A1 A2 A3 A4 A5 A6 A7] [B1 B2 B3 B4 B5 B6 B7]. split.
  - done.
  - by etrans.
  - intros Hty a. rewrite B3; [by apply A3|]. by apply (ev_typed _ _ A2).
  - intros k. specialize (A4 k). specialize (B4 k). lia.
  - intros k p Hp H. apply A5; [done|]. apply B5; [|done]. specialize (A4 k). lia.
  - intros k i p Hi Hp. apply B6; [|done]. apply A6; [done|]. apply B5; [|done].
    destruct (cached_row _ _ (wf_caches _ Hwf k) _ _ Hi) as (r & Hr & _).
    apply (row_fresh _ _ (wf_rows _ Hwf k)) in Hr. specialize (A4 k). lia.
  - auto.
Qed.

Lemma roomy_le m n c : (m <= n)%nat -> roomy n c -> roomy m c.
Proof.
  intros Hle (R1 & R2 & R3). split; [|split].
  - intros k. eapply room_le; [|apply R1]. lia.
  - intros t o Ho. apply R2 in Ho. lia.
  - intros a. specialize (R3 a). lia.
Qed.

Lemma perform_all_keeps ops n c c' :
  good c -> roomy (length ops + n) c -> Forall typed ops -> perform_all ops c = (Ok tt, c') ->
  follows c c' /\ roomy n c'.
Proof.
  unfold perform_all. revert c. induction ops as [|op ops IH]; intros c Hg Hroom Ht Hrun.
  { cbn in Hrun. injection Hrun as <-. split; [by apply keeps_follows, keeps_refl|done]. }
  inversion Ht as [|? ? Hop Hops]; subst. cbn [for_each] in Hrun.
  apply bind_ok in Hrun as ([] & c1 & E1 & E2).
  assert (roomy 1 c) as Hr1 by (eapply roomy_le; [|exact Hroom]; cbn; lia).
  pose proof (wp_ok _ _ _ _ _ _ (perform_wp op c Hg Hr1 Hop) E1) as Hk. cbn beta in Hk.
  destruct (IH c1) as [Hf Hr]; [by apply keeps_good in Hk|by apply (kp_room _ _ Hk)|done|done|].
  split; [|done]. apply (follows_trans _ c1); [done|by apply keeps_follows|done].
Qed.

Lemma perform_all_follows ops c c' :
  good c -> roomy (length ops) c -> Forall typed ops -> perform_all ops c = (Ok tt, c') -> follows c c'.
Proof. intros Hg Hr Ht Hrun. rewrite <- (Nat.add_0_r (length ops)) in Hr. by eapply perform_all_keeps. Qed.

(** C7: Whatever a contract does with its tables (any sequence of calls that
    return, among all the primary and secondary index operations, with room in
    the int iterators, the uint32_t counts and the int64_t deltas), the
    containers, row counts, table identifiers and iterator caches stay
    consistent: no table is empty, every table counts exactly the rows of its
    six indices, every iterator the contract held still stands for the same
    row as long as that row exists, and end iterators never change. *)
Theorem contract_tables_consistent ops c c' :
  good c -> roomy (length ops) c -> Forall typed ops -> perform_all ops c = (Ok tt, c') ->
  good c'
  /\ (forall t o, tables c' !! t = Some o -> 0 < count o /\ count o = total (in_table t) c')
  /\ (forall k it r, designates k c it r -> is_Some (view k c' !! id r) ->
        exists r', designates k c' it r' /\ id r' = id r)
  /\ (forall k t e, end_of (cache_of k c) t = Some e -> end_of (cache_of k c') t = Some e).
Proof.
  intros Hg Hroom Ht Hrun. pose proof (perform_all_follows ops c c' Hg Hroom Ht Hrun) as Hf.
  pose proof (fl_good _ _ Hf) as [Hwf Hfull]. split; [done|]. split; [|split].
  - intros t o Ho. split; [by eapply Hfull|]. by apply (table_count _ (wf_tables _ Hwf)).
  - intros k it r [Ho Hr] Hsome. pose proof (fl_iter _ _ Hf _ _ _ Ho Hsome) as Ho'. destruct Hsome as [r' Hr'].
    pose proof (row_id _ _ (wf_rows _ Hwf k) _ _ Hr') as Eid. exists r'. split; [|done]. unfold designates. by rewrite Eid.
  - apply Hf.
Qed.

(** C8: RAM is conserved: over any sequence of database calls that returns, the
    RAM usage of every account moves by exactly the change of the billed size
    of the rows and tables it pays for, and the deltas the action reports
    (account_ram_deltas) move with it. *)
Theorem contract_ram_conserved ops c c' :
  good c -> roomy (length ops) c -> Forall typed ops -> ram_typed c -> perform_all ops c = (Ok tt, c') ->
  forall a, ram c' a - ram c a = billed_to a c' - billed_to a c
    /\ delta_of c' a - delta_of c a = billed_to a c' - billed_to a c.
Proof.
  intros Hg Hroom Ht Hty Hrun a. pose proof (perform_all_follows ops c c' Hg Hroom Ht Hrun) as Hf.
  pose proof (fl_balance _ _ Hf Hty a). pose proof (ev_delta _ _ (fl_ram _ _ Hf) Hty a). lia.
Qed.

(** A database call of a contract fails only for reasons of its own: on a
    consistent context no call throws table_not_in_cache (the code's "an
    invariant was broken") or follows a dangling pointer, except previous on
    the least int and on the end iterator of a table that no longer exists. *)
Theorem database_calls_fail_legitimately op c e c' :
  good c -> roomy 1 c -> typed op -> perform op c = (Throw e, c') ->
  e <> table_not_in_cache /\ (e = undefined_behavior -> undefined_call op c).
Proof.
  intros Hg Hroom Ht Hrun. pose proof (wp_throw _ _ _ _ _ _ (perform_wp op c Hg Hroom Ht) Hrun) as [[H1 H2]|[-> Hu]].
  - split; [done|]. by intros ->.
  - by split.
Qed.

(** ** The accounts that did not agree to pay *)

Section RamCheck.
Context (checktime : nat -> res unit).

Lemma check_deltas_ok counter call l c :
  check_deltas checktime counter call l c = Ok tt ->
  Forall (fun x => snd x <= 0 \/ fst x = receiver c \/ has_authorization (fst x) c = true) l.
Proof.
  revert counter call. induction l as [|[a d] l IH]; intros counter call H; [constructor|].
  cbn [check_deltas] in H. apply res_bind_ok in H as ([counter' call'] & _ & H).
  apply res_bind_ok in H as ([] & H1 & H). constructor; [|by eapply IH]. cbn.
  destruct (Z.ltb_spec 0 d); [|by left]. right. destruct (Z.eqb_spec a (receiver c)) as [->|]; [by left|].
  right. cbn in H1. apply res_bind_ok in H1 as (? & _ & H1). apply res_bind_ok in H1 as (? & H1 & _).
  by apply eos_assert_ok in H1.
Qed.

Lemma check_ram_deltas_ok c a :
  privileged c = false -> ram_restrictions c = true -> check_ram_deltas checktime c = Ok tt ->
  unwilling c a -> delta_of c a <= 0.
Proof.
  intros Hp Hr Hc [Ha1 Ha2]. unfold check_ram_deltas in Hc. rewrite Hp, Hr in Hc. cbn in Hc.
  apply check_deltas_ok in Hc. unfold delta_of. destruct (account_ram_deltas c !! a) as [d|] eqn:Ed; [|done]. cbn.
  rewrite Forall_forall in Hc. specialize (Hc (a, d)). cbn in Hc.
  destruct Hc as [H|[H|H]]; [|done|done|congruence].
  rewrite merge_sort_Permutation. by apply elem_of_map_to_list.
Qed.

(** An unprivileged contract cannot make an account pay for RAM unless the
    account is the contract itself or authorized the action: when the
    database calls of an action return and the check at the end of exec_one
    passes, the RAM usage of every other account has not grown.  This holds
    both before the ram_restrictions feature, where each call checks, and
    after it, where only the check at the end does. *)
Theorem unwilling_accounts_not_charged ops c c' a :
  good c -> roomy (length ops) c -> Forall typed ops -> ram_typed c ->
  privileged c = false -> account_ram_deltas c = ∅ ->
  perform_all ops c = (Ok tt, c') -> check_ram_deltas checktime c' = Ok tt ->
  unwilling c a -> ram c' a <= ram c a.
Proof.
  intros Hg Hroom Ht Hty Hp Hd Hrun Hc Ha. pose proof (perform_all_follows ops c c' Hg Hroom Ht Hrun) as Hf.
  destruct (fl_ram _ _ Hf) as [(A1 & A2 & A3 & A4 & A5 & A6) _ Hdelta Hwill].
  destruct (ram_restrictions c) eqn:Er; [|by apply Hwill].
  specialize (Hdelta Hty a). assert (delta_of c a = 0) as E0 by (unfold delta_of; by rewrite Hd).
  assert (delta_of c' a <= 0); [|lia]. apply check_ram_deltas_ok; [congruence|congruence|done|].
  unfold unwilling, has_authorization in *. by rewrite A1, A3.
Qed.
End RamCheck.
End Theorems.
