(* ===== verification/ContractWalks.v ===== *)
(** Using a table through its iterators: walking it from a search or from its
    end visits its rows in order, and what was stored is found again. *)

From Stdlib Require Import ZArith Lia.
From stdpp Require Import base gmap numbers sorting list.
From S2P Require Import Prelude Chainbase Authority ResourceLimits IteratorCache ContractTables ContractInvariant ContractOperations ContractIterators ContractTheorems.

#[local] Open Scope Z_scope.
#[local] Open Scope chain_scope.

Section Walks.
Context {SF : SoftFloat}.
Context {TT TR TL TU : Type} `{HTT : !Table Z table_id_object TT} `{HTR : !Table Z row TR}.
Context `{HTL : !Table (bool * Z) Manager.resource_limits_object TL}
        `{HTU : !Table Z Manager.resource_usage_object TU}.

Abbreviation context := (@apply_context TT TR TL TU).
Implicit Types (c : context) (k : index_kind) (r : row).

(** The loop of a contract that reads rows until it meets an end iterator. *)
Fixpoint walk (k : index_kind) (by_ : tag) (fuel : nat) (it : Z) : exec context (list row) :=
  match fuel with
  | O => lift (Throw out_of_fuel)
  | S n =>
      if it <? 0 then ret []
      else
        do r <- get_row k it;
        do x <- step_next k by_ it;
        do l <- walk k by_ n (fst x);
        ret (r :: l)
  end.

(** The loop that goes back from an iterator until previous returns -1. *)
Fixpoint walk_back (k : index_kind) (by_ : tag) (fuel : nat) (it : Z) : exec context (list row) :=
  match fuel with
  | O => lift (Throw out_of_fuel)
  | S n =>
      do x <- step_previous k by_ it;
      if fst x =? -1 then ret []
      else
        do r <- get_row k (fst x);
        do l <- walk_back k by_ n (fst x);
        ret (r :: l)
  end.

Lemma walk_ok k by_ t fuel j it c :
  context_wf c -> room fuel (cache_of k c) -> (length (drop j (table_rows k by_ t c)) < fuel)%nat ->
  points_to k t c it (table_rows k by_ t c !! j) ->
  exists c', walk k by_ fuel it c = (Ok (drop j (table_rows k by_ t c)), c') /\ reads fuel c c'.
Proof.
  revert j it c. induction fuel as [|n IH]; intros j it c Hwf Hroom Hlen Hp; [lia|].
  pose proof (cache_rep _ _ (wf_caches _ Hwf k)) as Hrep. cbn [walk].
  destruct (table_rows k by_ t c !! j) as [r|] eqn:Hj.
  - cbn in Hp. pose proof (object_at_small _ _ _ Hrep (proj1 Hp)) as Hit.
    destruct (Z.ltb_spec it 0); [lia|].
    assert (t_id r = t) as Et by (apply list_elem_of_lookup_2, table_rows_elem in Hj; tauto). subst t.
    unfold bind at 1. rewrite (get_row_designates k c it r Hwf Hp).
    destruct (step_next_ok k by_ c it r j Hwf ltac:(by eapply room_le; [|exact Hroom]; lia) Hp Hj)
      as (it' & c1 & E1 & Hrd1 & Hp1).
    unfold bind at 1. rewrite E1. cbn [fst].
    pose proof (reads_table_rows _ _ _ k by_ (t_id r) Hrd1) as Etr.
    destruct (IH (S j) it' c1) as (c2 & E2 & Hrd2).
    + apply Hrd1.
    + apply (rd_room _ _ _ Hrd1). exact Hroom.
    + rewrite Etr. rewrite (drop_S _ _ _ Hj) in Hlen. cbn in Hlen. lia.
    + by rewrite Etr.
    + rewrite Etr in E2. unfold bind. rewrite E2. exists c2. rewrite (drop_S _ _ _ Hj).
      split; [done|]. exact (reads_trans 1 n _ _ _ Hrd1 Hrd2).
  - cbn in Hp. pose proof (end_of_below _ _ _ Hrep Hp) as Hb. destruct (Z.ltb_spec it 0); [|lia].
    apply lookup_ge_None in Hj. rewrite (drop_ge _ _ Hj). exists c. split; [done|].
    pose proof (reads_refl c Hwf) as R. destruct R. split; try done. intros k' m. apply room_le. lia.
Qed.

(** A condition that stays true along the order selects a suffix. *)
Lemma first_row_suffix p (l : list row) :
  StronglySorted (fun a b => p a = true -> p b = true) l ->
  exists j, first_row p l = l !! j /\ filter (fun r => p r = true) l = drop j l.
Proof.
  induction 1 as [|x l Hs (j & E1 & E2) Hall]; [by exists 0%nat|].
  rewrite first_row_cons, filter_cons. destruct (p x) eqn:Ex.
  - exists 0%nat. split; [done|]. cbn [drop]. rewrite decide_True by done. f_equal. apply filter_all.
    eapply Forall_impl; [exact Hall|]. intros y Hy. by apply Hy.
  - exists (S j). rewrite decide_False by done. done.
Qed.

Lemma StronglySorted_impl_elem {A} (R R' : relation A) l :
  (forall x y, x ∈ l -> y ∈ l -> R x y -> R' x y) -> StronglySorted R l -> StronglySorted R' l.
Proof.
  intros Himp. induction 1 as [|x l Hs IH Hall]; [constructor|]. constructor.
  - apply IH. intros y z Hy Hz. apply Himp; by right.
  - rewrite Forall_forall in *. intros y Hy. apply Himp; [left|by right|by apply Hall].
Qed.

Lemma StronglySorted_keys {A} (f : A -> Z) l :
  StronglySorted (fun a b => f a < f b) l -> StronglySorted Z.lt (f <$> l).
Proof. induction 1 as [|x l _ IH Hall]; cbn; constructor; [done|]. by rewrite Forall_fmap. Qed.

Lemma table_rows_count k by_ t c : (length (table_rows k by_ t c) <= size (view k c))%nat.
Proof.
  unfold table_rows. etrans; [apply length_filter|]. unfold index_rows.
  rewrite merge_sort_Permutation, length_fmap, tbl_rows_perm, length_map_to_list. done.
Qed.

(** What a search and the walk from it return. *)
Lemma search_and_walk k by_ cd sc tb search c tab :
  context_wf c -> find_table cd sc tb c = Some tab -> room (3 + size (view k c)) (cache_of k c) ->
  (forall t r, t_id r < t -> search t r = false) ->
  (forall a b, t_id a = tab_id tab -> t_id b = tab_id tab -> row_le by_ a b ->
     search (tab_id tab) a = true -> search (tab_id tab) b = true) ->
  let l := filter (fun r => search (tab_id tab) r = true) (table_rows k by_ (tab_id tab) c) in
  exists c', (do x <- seek k by_ cd sc tb search; walk k by_ (S (length l)) (fst x)) c = (Ok l, c')
    /\ reads (3 + size (view k c)) c c'.
Proof.
  intros Hwf Ef Hroom Hlate Hmono l.
  destruct (first_row_suffix (search (tab_id tab)) (table_rows k by_ (tab_id tab) c)) as (j & E1 & E2).
  { eapply StronglySorted_impl_elem; [|apply table_rows_sorted].
    intros x y [Hx _]%table_rows_elem [Hy _]%table_rows_elem. by apply Hmono. }
  destruct (seek_ok k by_ cd sc tb search c tab) as (it & c1 & Es & Hrd1 & Hp1 & _);
    [done|by eapply room_le; [|exact Hroom]; lia|done|by intros; apply Hlate|].
  rewrite E1 in Hp1. unfold bind. rewrite Es. cbn [fst].
  assert (length l <= size (view k c))%nat as Hl by (etrans; [apply length_filter|apply table_rows_count]).
  pose proof (reads_table_rows _ _ _ k by_ (tab_id tab) Hrd1) as Etr.
  destruct (walk_ok k by_ (tab_id tab) (S (length l)) j it c1) as (c2 & E & Hrd2).
  - apply Hrd1.
  - apply (rd_room _ _ _ Hrd1). eapply room_le; [|exact Hroom]. lia.
  - rewrite Etr, <- E2. fold l. lia.
  - by rewrite Etr.
  - rewrite E, Etr, <- E2. fold l. exists c2. split; [done|].
    pose proof (reads_trans 2 (S (length l)) _ _ _ Hrd1 Hrd2) as R. destruct R. split; try done.
    intros k' m Hm. apply rd_room. eapply room_le; [|exact Hm]. lia.
Qed.

Lemma table_rows_primary_sorted k t c :
  context_wf c -> StronglySorted (fun a b => primary_key a < primary_key b) (table_rows k by_primary t c).
Proof.
  intros Hwf. pose proof (index_rows_NoDup k by_primary c (wf_rows _ Hwf)) as Hnd.
  assert (NoDup (id <$> table_rows k by_primary t c)) as Hnd'.
  { eapply sublist_NoDup; [exact Hnd|]. apply fmap_sublist, sublist_filter. }
  pose proof (table_rows_sorted k by_primary t c) as Hs.
  assert (forall r, r ∈ table_rows k by_primary t c -> t_id r = t /\ view k c !! id r = Some r) as Hel.
  { intros r [Et [p Hp]]%table_rows_elem. split; [done|]. by rewrite (row_id _ _ (wf_rows _ Hwf k) _ _ Hp). }
  induction Hs as [|x l Hs IH Hall]; [constructor|]. cbn in Hnd'. apply NoDup_cons in Hnd' as [Hx Hnd'].
  constructor; [apply IH; [done|]; intros r Hr; apply Hel; by right|].
  rewrite Forall_forall in *. intros y Hy. destruct (Hel x) as [Etx Hvx]; [left|]. destruct (Hel y) as [Ety Hvy]; [by right|].
  pose proof (row_le_primary x y ltac:(congruence) (Hall _ Hy)) as Hle.
  destruct (Z.eq_dec (primary_key x) (primary_key y)) as [E|]; [|lia]. exfalso. apply Hx.
  pose proof (row_key _ _ (wf_rows _ Hwf k) _ _ _ _ Hvx Hvy ltac:(congruence) E) as Eid.
  rewrite Eid. apply list_elem_of_fmap. by exists y.
Qed.

Lemma walk_back_ok k by_ t fuel it r j c :
  context_wf c -> room fuel (cache_of k c) -> (j < fuel)%nat -> designates k c it r ->
  t_id r = t -> table_rows k by_ t c !! j = Some r ->
  exists c', walk_back k by_ fuel it c = (Ok (reverse (take j (table_rows k by_ t c))), c') /\ reads fuel c c'.
Proof.
  revert it r j c. induction fuel as [|n IH]; intros it r j c Hwf Hroom Hlt Hd <- Hj; [lia|].
  cbn [walk_back].
  destruct (step_previous_ok k by_ c it r j Hwf ltac:(by eapply room_le; [|exact Hroom]; lia) Hd Hj)
    as (it' & c1 & E1 & Hrd1 & Hp1).
  unfold bind at 1. rewrite E1. cbn [fst]. destruct j as [|i].
  - cbn in Hp1. subst it'. cbn. exists c1. split; [done|]. destruct Hrd1. split; try done.
    intros k' m Hm. apply rd_room. eapply room_le; [|exact Hm]. lia.
  - apply lookup_lt_Some in Hj as Hlen.
    destruct (lookup_lt_is_Some_2 (table_rows k by_ (t_id r) c) i ltac:(lia)) as [r' Hr'].
    rewrite Hr' in Hp1. cbn in Hp1.
    pose proof (object_at_small _ _ _ (cache_rep _ _ (wf_caches _ (rd_wf _ _ _ Hrd1) k)) (proj1 Hp1)) as Hit'.
    destruct (Z.eqb_spec it' (-1)); [lia|].
    unfold bind at 1. rewrite (get_row_designates k c1 it' r' (rd_wf _ _ _ Hrd1) Hp1).
    pose proof (reads_table_rows _ _ _ k by_ (t_id r) Hrd1) as Etr.
    destruct (IH it' r' i c1) as (c2 & E2 & Hrd2).
    + apply Hrd1.
    + apply (rd_room _ _ _ Hrd1). exact Hroom.
    + lia.
    + done.
    + apply list_elem_of_lookup_2, table_rows_elem in Hr'. tauto.
    + by rewrite Etr.
    + rewrite Etr in E2. unfold bind. rewrite E2. exists c2.
      rewrite (take_S_r _ _ _ Hr'), reverse_snoc. split; [done|]. exact (reads_trans 1 n _ _ _ Hrd1 Hrd2).
Qed.

Lemma end_and_walk_back k by_ cd sc tb c tab :
  context_wf c -> find_table cd sc tb c = Some tab -> room (3 + size (view k c)) (cache_of k c) ->
  let l := table_rows k by_ (tab_id tab) c in
  exists c', (do it <- end_iterator k cd sc tb; walk_back k by_ (S (length l)) it) c = (Ok (reverse l), c').
Proof.
  intros Hwf Ef Hroom l. pose proof (find_table_Some _ _ _ _ _ Ef (wf_tables _ Hwf)) as (Htab & _).
  pose proof (table_rows_count k by_ (tab_id tab) c) as Hl. fold l in Hl.
  unfold end_iterator, bind at 1, bind at 1, get_state. rewrite Ef.
  destruct (cache_table_reads k (tab_id tab) c Hwf) as (ei & c1 & E1 & Hrd1 & He1);
    [by eexists|by eapply room_le; [|exact Hroom]; lia|].
  rewrite E1. cbn [walk_back].
  destruct (step_previous_end_ok k by_ c1 ei (tab_id tab)) as (it & c2 & E2 & Hrd2 & Hp2);
    [apply Hrd1|apply (rd_room _ _ _ Hrd1); by eapply room_le; [|exact Hroom]; lia|done|by rewrite (reads_tables _ _ _ Hrd1); eexists|].
  pose proof (reads_trans _ _ _ _ _ Hrd1 Hrd2) as Hrd. unfold bind at 1. rewrite E2. cbn [fst].
  rewrite (reads_table_rows _ _ _ k by_ (tab_id tab) Hrd1) in Hp2. fold l in Hp2.
  pose proof (reads_table_rows _ _ _ k by_ (tab_id tab) Hrd) as Etr.
  destruct (last l) as [r|] eqn:Elast; cbn in Hp2.
  - rewrite last_lookup in Elast.
    pose proof (object_at_small _ _ _ (cache_rep _ _ (wf_caches _ (rd_wf _ _ _ Hrd2) k)) (proj1 Hp2)) as Hit.
    destruct (Z.eqb_spec it (-1)); [lia|].
    unfold bind at 1. rewrite (get_row_designates k c2 it r (rd_wf _ _ _ Hrd2) Hp2).
    apply lookup_lt_Some in Elast as Hlt.
    destruct (walk_back_ok k by_ (tab_id tab) (length l) it r (pred (length l)) c2) as (c3 & E3 & _).
    + apply Hrd2.
    + apply (rd_room _ _ _ Hrd). eapply room_le; [|exact Hroom]. lia.
    + lia.
    + done.
    + apply list_elem_of_lookup_2, table_rows_elem in Elast. tauto.
    + rewrite Etr. exact Elast.
    + unfold bind. rewrite E3, Etr. exists c3. fold l. unfold ret. rewrite <- (reverse_snoc _ r), <- (take_S_r _ _ _ Elast).
      by rewrite take_ge by lia.
  - subst it. apply last_None in Elast. rewrite Elast. by exists c2.
Qed.


(** Walking a secondary index: from lower_bound( s ) the next calls return
    every row of the table whose secondary key is not less than s, in the
    order of the secondary keys and, among equal ones, of the primary keys;
    and going back from the end iterator visits all the rows of the table in
    the opposite order. *)
Theorem walk_visits_index k cd sc tb s c tab :
  good c -> find_table cd sc tb c = Some tab -> room (3 + size (view k c)) (cache_of k c) ->
  exists l all c' c'',
    (do x <- lowerbound_secondary k cd sc tb s; walk k by_secondary (S (length l)) (fst x)) c = (Ok l, c')
    /\ (do it <- end_secondary k cd sc tb; walk_back k by_secondary (S (length all)) it) c = (Ok (reverse all), c'')
    /\ (forall r, r ∈ all <-> view k c !! id r = Some r /\ t_id r = tab_id tab)
    /\ StronglySorted (row_le by_secondary) all
    /\ l = filter (fun r => secondary_less (contents r) s = false) all.
Proof.
  intros [Hwf _] Ef Hroom.
  destruct (search_and_walk k by_secondary cd sc tb (ge_secondary s) c tab) as (c' & E & Hrd).
  - done.
  - done.
  - done.
  - apply ge_secondary_late.
  - intros a b Ea Eb Hle. unfold ge_secondary, secondary_lt. rewrite Ea, Eb, Z.ltb_irrefl, Z.eqb_refl. cbn.
    rewrite !negb_true_iff. intros Ha. pose proof (row_le_secondary a b ltac:(congruence) Hle) as Hba.
    by apply (wo_trans _ secondary_less_weak_order _ (contents a)).
  - destruct (end_and_walk_back k by_secondary cd sc tb c tab Hwf Ef Hroom) as (c'' & E').
    eexists _, (table_rows k by_secondary (tab_id tab) c), c', c''. split; [|split; [exact E'|split; [|split]]].
    + etrans; [|exact E]. unfold lowerbound_secondary, bind. by destruct (seek _ _ _ _ _ _ _) as [[x|] ?].
    + intros r. rewrite table_rows_elem. split.
      * intros (Et & p & Hp). by rewrite (row_id _ _ (wf_rows _ Hwf k) _ _ Hp).
      * intros [Hv Et]. split; [done|by eexists].
    + apply table_rows_sorted.
    + unfold table_rows. induction (index_rows k by_secondary c) as [|x l IH]; [done|].
      rewrite !filter_cons. destruct (decide (t_id x = tab_id tab)) as [Et|]; [|exact IH].
      rewrite !filter_cons, IH. unfold ge_secondary, secondary_lt. rewrite Et, Z.ltb_irrefl, Z.eqb_refl. cbn.
      destruct (secondary_less (contents x) s); done.
Qed.

(** ** What was stored is found again *)

Lemma designates_inj k c i j r : context_wf c -> designates k c i r -> designates k c j r -> i = j.
Proof.
  intros Hwf [Hi _] [Hj _]. pose proof (objects_ok _ (cache_rep _ _ (wf_caches _ Hwf k))) as Ho.
  apply Ho in Hi, Hj. congruence.
Qed.

Lemma first_row_key k t pk c r :
  context_wf c -> view k c !! id r = Some r -> t_id r = t -> primary_key r = pk ->
  first_row (eq_primary pk t) (table_rows k by_primary t c) = Some r.
Proof.
  intros Hwf Hr Et Epk. destruct (first_row _ _) as [r'|] eqn:Ef.
  - apply first_row_Some in Ef as [[Et' [p Hp]]%table_rows_elem Hpk]. unfold eq_primary in Hpk.
    assert (p = id r) as -> by (eapply (row_key _ _ (wf_rows _ Hwf k)); [exact Hp|exact Hr|lia|lia]). congruence.
  - assert (eq_primary pk t r = false) as Hf.
    { apply (first_row_None _ _ Ef), table_rows_elem. split; [done|by eexists]. }
    unfold eq_primary in Hf. rewrite Et, Epk, !Z.eqb_refl in Hf. done.
Qed.

Lemma find_stored cd sc tb pk c tab r it :
  context_wf c -> room 2 (cache_of key_value c) -> find_table cd sc tb c = Some tab ->
  designates key_value c it r -> t_id r = tab_id tab -> primary_key r = pk ->
  exists c', db_find_i64 cd sc tb pk c = (Ok it, c') /\ reads 2 c c'.
Proof.
  intros Hwf Hroom Ef Hd Et Epk.
  destruct (seek_ok key_value by_primary cd sc tb (eq_primary pk) c tab) as (it' & c' & E & Hrd & Hp & _);
    [done|done|done|by intros; apply eq_primary_late|].
  rewrite (first_row_key key_value (tab_id tab) pk c r Hwf (proj2 Hd) Et Epk) in E, Hp. cbn in Hp.
  unfold db_find_i64, bind. rewrite E. exists c'. cbn [fst].
  assert (it' = it) as ->; [|done].
  apply (designates_inj key_value c' _ _ r); [apply Hrd|done|]. split.
  - apply (rd_iter _ _ _ Hrd), Hd.
  - rewrite (reads_view _ _ _ _ Hrd). apply Hd.
Qed.

(** What db_get_i64 returns and copies for a value and a buffer size. *)
Definition copied (n : nat) (b : list Z) : Z * list Z :=
  if (n =? 0)%nat then (Z.of_nat (length b), []) else (Z.of_nat (Nat.min n (length b)), take n b).

Lemma get_designated it r b n c :
  context_wf c -> designates key_value c it r -> contents r = Value b -> Z.of_nat (length b) < 2 ^ 31 ->
  db_get_i64 it n c = (Ok (copied n b), c).
Proof.
  intros Hwf Hd Ec Hb. unfold copied, db_get_i64, bind. rewrite (get_row_designates _ _ _ _ Hwf Hd), Ec.
  destruct (n =? 0)%nat; unfold ret.
  - by rewrite i32_small by lia.
  - rewrite i32_small by lia. do 3 f_equal. destruct (Nat.le_ge_cases n (length b)).
    + by rewrite Nat.min_l.
    + rewrite Nat.min_r by done. by rewrite !take_ge.
Qed.

(** What a contract stores it finds again: after db_store_i64 returns an
    iterator, db_find_i64 on the receiver's table and key returns the same
    iterator, db_get_i64 on it copies the stored bytes (as many as fit), and
    its size is reported for an empty buffer; no other row of any index
    changed. *)
Theorem stored_row_found sc tb p pk buffer c it c1 n :
  good c -> roomy 2 c -> Z.of_nat (length buffer) < 2 ^ 31 ->
  db_store_i64 sc tb p pk buffer c = (Ok it, c1) ->
  (exists c2, db_find_i64 (receiver c) sc tb pk c1 = (Ok it, c2)
     /\ db_get_i64 it n c2 = (Ok (copied n buffer), c2))
  /\ exists i, view key_value c !! i = None /\ delete i (view key_value c1) = view key_value c
     /\ forall k, k <> key_value -> view k c1 = view k c.
Proof.
  intros Hg Hroom Hb Hrun.
  assert (roomy 1 c) as Hr1 by (eapply roomy_le; [|exact Hroom]; lia).
  destruct (wp_ok _ _ _ _ _ _ (db_store_i64_wp sc tb p pk buffer c Hg Hr1 ltac:(lia)) Hrun)
    as (Hk & (tab & r & Ef & Et & Epk & Ep & Ec & Hd & Hfresh & Hview) & _).
  destruct (kp_room _ _ Hk 1%nat Hroom) as (R1 & _).
  split.
  - destruct (find_stored _ _ _ pk c1 tab r it (kp_wf _ _ Hk) (R1 key_value) Ef Hd Et Epk) as (c2 & E2 & Hrd).
    exists c2. split; [done|]. apply (get_designated it r); [apply Hrd| |done|done].
    split; [by apply (rd_iter _ _ _ Hrd), Hd|]. rewrite (reads_view _ _ _ _ Hrd). apply Hd.
  - exists (id r). split; [done|]. split.
    + rewrite Hview. destruct (decide (key_value = key_value)); [|done]. by apply delete_insert_id.
    + intros k Hne. rewrite Hview. by destruct (decide (k = key_value)).
Qed.

(** A removed row is gone: after db_remove_i64 the iterator can no longer be
    dereferenced, the row is out of the container and no other row is, and the
    table is removed exactly when that was its last row. *)
Theorem removed_row_gone it c c1 :
  good c -> roomy 1 c -> it < 2 ^ 31 -> db_remove_i64 it c = (Ok tt, c1) ->
  exists r tab, designates key_value c it r /\ tables c !! t_id r = Some tab
    /\ view key_value c1 = delete (id r) (view key_value c)
    /\ (forall k, k <> key_value -> view k c1 = view k c)
    /\ (tables c1 !! t_id r = None <-> count tab = 1)
    /\ (forall t, t <> t_id r -> tables c1 !! t = tables c !! t)
    /\ fst (get_row key_value it c1) = Throw table_operation_not_permitted.
Proof.
  intros Hg Hroom Hit Hrun.
  destruct (wp_ok _ _ _ _ _ _ (db_remove_i64_wp it c Hg Hroom Hit) Hrun) as (Hk & r & tab & Hd & Htab & Hcode & Hview & Htabs & Hlen & Hslots).
  pose proof (table_id_eq _ (wf_tables _ (proj1 Hg)) _ _ Htab) as Eid.
  exists r, tab. split; [done|]. split; [done|]. split; [|split; [|split; [|split]]].
  - rewrite Hview. by destruct (decide (key_value = key_value)).
  - intros k Hne. rewrite Hview. by destruct (decide (k = key_value)).
  - rewrite Htabs. unfold after_erase. rewrite Eid. destruct (Z.eqb_spec (count tab) 1) as [E|E].
    + by rewrite lookup_delete_eq.
    + by rewrite lookup_insert_eq.
  - intros t Hne. rewrite Htabs. unfold after_erase. rewrite Eid.
    destruct (count tab =? 1); [by rewrite lookup_delete_ne|by rewrite lookup_insert_ne].
  - pose proof (kp_wf _ _ Hk) as Hwf1. pose proof (cache_rep _ _ (wf_caches _ Hwf1 key_value)) as Hrep1.
    pose proof (object_at_small _ _ _ (cache_rep _ _ (wf_caches _ (proj1 Hg) key_value)) (proj1 Hd)) as Hits.
    unfold get_row, bind, get_state, lift. fold (cache_of key_value c1).
    rewrite get_object by done. destruct (object_at (cache_of key_value c1) it) as [q|] eqn:Eq.
    + exfalso. pose proof (Hslots _ _ Eq) as Eq'. rewrite (proj1 Hd) in Eq'. injection Eq' as <-.
      destruct (cached_row _ _ (wf_caches _ Hwf1 key_value) _ _ Eq) as (r' & Hr' & _).
      rewrite Hview in Hr'. destruct (decide (key_value = key_value)); [|done]. by rewrite lookup_delete_eq in Hr'.
    + destruct (Z.ltb_spec it (-1)); [lia|]. destruct (Z.eqb_spec it (-1)); [lia|]. cbn [orb].
      destruct Hd as [Ho _]. apply object_at_Some in Ho as [_ Ho]. apply lookup_lt_Some in Ho.
      destruct (Z.leb_spec (Z.of_nat (length (iterator_to_object (cache_of key_value c1)))) it); [lia|done].
Qed.
End Walks.
