(* ===== verification/ContractExamples.v ===== *)
(** Concrete runs of the contract tables: an empty database, an action of the
    account 7 on it, and the theorems of the contract tables at work. *)

From Stdlib Require Import ZArith Lia.
From stdpp Require Import base gmap numbers sorting list.
From S2P Require Import Prelude Chainbase Authority ResourceLimits IteratorCache ContractTables ContractInvariant ContractOperations ContractIterators ContractTheorems ContractWalks.

#[local] Open Scope Z_scope.
#[local] Open Scope chain_scope.

(** Floats that compare like integers. *)
#[local] Instance integer_floats : SoftFloat.
Proof.
  refine {| float64 := Z; float128 := Z; f64_lt := Z.ltb; f128_lt := Z.ltb |}.
  - apply (wo_asymm _ weak_order_Z).
  - apply (wo_asymm _ weak_order_Z).
  - apply (wo_trans _ weak_order_Z).
  - apply (wo_trans _ weak_order_Z).
Defined.

Definition no_rows : @container (gmap Z row) := mk_container ∅ 0 empty_cache.

Definition limits_db : @Manager.database (gmap (bool * Z) Manager.resource_limits_object) (gmap Z Manager.resource_usage_object) :=
  Manager.set_usage (<[7 := Manager.default_usage]> (<[8 := Manager.default_usage]> ∅))
    (Manager.initialize_database ∅ ∅).

(** An action on an empty database: the receiver 7 runs its own action, which 8 authorized. *)
Definition action_start (restrictions : bool) : @apply_context (gmap Z table_id_object) (gmap Z row)
    (gmap (bool * Z) Manager.resource_limits_object) (gmap Z Manager.resource_usage_object) :=
  mk_context 7 7 [mk_level 8 1] false restrictions true ∅ 0 (fun _ => no_rows) ∅ limits_db ∅.

Lemma action_start_good b : good (action_start b).
Proof.
  split.
  - split.
    + intros k. split; intros *; unfold view; cbn; by rewrite lookup_empty.
    + intros k. split.
      * apply empty_cache_ok.
      * intros i p. unfold object_at. cbn. by destruct (i <? 0), (Z.to_nat i).
      * intros t [x Hx]. unfold cache_of in Hx. cbn in Hx. by rewrite lookup_empty in Hx.
    + split; intros *; unfold tables; cbn; by rewrite lookup_empty.
  - intros t o. unfold tables. cbn. by rewrite lookup_empty.
Qed.

Lemma action_start_roomy b n : (n <= 100)%nat -> roomy n (action_start b).
Proof.
  intros Hn. split; [|split].
  - intros k. unfold room, cache_of. cbn. lia.
  - intros t o. unfold tables. cbn. by rewrite lookup_empty.
  - intros a. unfold delta_of. cbn. rewrite lookup_empty. cbn. lia.
Qed.

Lemma action_start_typed b : ram_typed (action_start b).
Proof.
  intros a u. cbn. rewrite !lookup_insert_Some. intros [[_ <-]|[_ [[_ <-]|[_ H]]]];
    [unfold is_uint; cbn; lia|unfold is_uint; cbn; lia|by rewrite lookup_empty in H].
Qed.

(** The context the calls lead to. *)
Abbreviation after ops b := (snd (perform_all ops (action_start b))).

Lemma session_run ops b :
  fst (perform_all ops (action_start b)) = Ok tt -> perform_all ops (action_start b) = (Ok tt, after ops b).
Proof. intros E. rewrite <- E. apply surjective_pairing. Qed.

(** Four rows of two tables, one secondary key, an update, a removal and a search. *)
Definition session : list operation :=
  [ Db_store 1 2 7 30 [1; 2; 3]; Db_store 1 2 8 10 [4]; Db_store 1 3 7 5 []; Db_store 1 2 7 20 [5; 6];
    Idx_store index64 1 2 7 30 (Key64 99); Db_update 1 7 [7; 7; 7; 7]; Db_remove 2; Db_lowerbound 7 1 2 11 ].

Lemma session_typed : Forall typed session.
Proof. unfold session. repeat constructor; cbn; try lia; discriminate. Qed.

Lemma session_returns b : perform_all session (action_start b) = (Ok tt, after session b).
Proof. apply session_run. destruct b; vm_refl. Qed.

(** The context before call [n] of the session. *)
Lemma session_prefix n b :
  (n <= 8)%nat -> good (after (take n session) b) /\ roomy 50 (after (take n session) b)
    /\ ram_typed (after (take n session) b).
Proof.
  intros Hn.
  assert (perform_all (take n session) (action_start b) = (Ok tt, after (take n session) b)) as Hrun.
  { apply session_run. do 9 (destruct n as [|n]; [destruct b; vm_refl|]). lia. }
  assert (roomy (length (take n session) + 50) (action_start b)) as Hroom
    by (apply action_start_roomy; rewrite length_take; cbn; lia).
  destruct (perform_all_keeps (take n session) 50 (action_start b) _ (action_start_good b) Hroom
    (Forall_take _ _ _ session_typed) Hrun) as [Hf Hr].
  split; [apply Hf|]. split; [done|]. apply (ev_typed _ _ (fl_ram _ _ Hf)), action_start_typed.
Qed.

Lemma session_prefix_room n b k :
  (n <= 8)%nat -> room 100 (cache_of k (after (take n session) b)).
Proof. intros Hn. destruct (session_prefix n b Hn) as (_ & (R & _) & _). apply R. Qed.

Lemma prefix_run n b :
  fst (perform_all (drop n session) (after (take n session) b)) = Ok tt ->
  perform_all (drop n session) (after (take n session) b)
  = (Ok tt, snd (perform_all (drop n session) (after (take n session) b))).
Proof. intros E. rewrite <- E. apply surjective_pairing. Qed.

Abbreviation early := (after (take 5 session) false).
Abbreviation late := (snd (perform_all (drop 5 session) early)).

Lemma contract_tables_consistent_witness :
  good late /\ (forall t o, tables late !! t = Some o -> 0 < count o)
  /\ exists r', designates key_value late 1 r' /\ id r' = 1.
Proof.
  destruct (session_prefix 5 false ltac:(lia)) as (Hg & Hr & _).
  destruct (contract_tables_consistent (drop 5 session) early late Hg) as (H1 & H2 & H3 & _).
  - eapply roomy_le; [|exact Hr]. cbn. lia.
  - apply Forall_drop, session_typed.
  - apply prefix_run. vm_refl.
  - split; [exact H1|]. split; [intros t o Ho; apply (H2 t o Ho)|].
    apply (H3 key_value 1 (mk_row 1 0 10 8 (Value [4]))).
    + split; vm_refl.
    + vm_compute. eexists. reflexivity.
Defined.

Lemma contract_ram_conserved_witness :
  ram late 7 - ram early 7 = (112 + 4) - 112 - 112 /\ ram late 8 - ram early 8 = -113.
Proof.
  destruct (session_prefix 5 false ltac:(lia)) as (Hg & Hr & Ht).
  pose proof (contract_ram_conserved (drop 5 session) early late Hg
    ltac:(eapply roomy_le; [|exact Hr]; cbn; lia) (Forall_drop _ _ _ session_typed) Ht
    ltac:(apply prefix_run; vm_refl)) as H.
  split.
  - rewrite (proj1 (H 7)). vm_refl.
  - rewrite (proj1 (H 8)). vm_refl.
Defined.

(** A second row with the key of the first. *)
Lemma database_calls_fail_legitimately_witness :
  fst (perform (Db_store 1 2 7 30 [9]) early) = Throw database_duplicate_key
  /\ database_duplicate_key <> table_not_in_cache.
Proof.
  assert (fst (perform (Db_store 1 2 7 30 [9]) early) = Throw database_duplicate_key) as E by vm_refl.
  split; [exact E|]. destruct (session_prefix 5 false ltac:(lia)) as (Hg & Hr & _).
  apply (database_calls_fail_legitimately (Db_store 1 2 7 30 [9]) early database_duplicate_key
           (snd (perform (Db_store 1 2 7 30 [9]) early)) Hg).
  - eapply roomy_le; [|exact Hr]. lia.
  - cbn. lia.
  - rewrite <- E. apply surjective_pairing.
Defined.

(** Account 9 is neither the receiver nor did it authorize the action. *)
Lemma unwilling_accounts_not_charged_witness :
  ram (after session true) 9 <= ram (action_start true) 9.
Proof.
  apply (unwilling_accounts_not_charged (fun _ => Ok tt) session).
  - apply action_start_good.
  - apply action_start_roomy. cbn. lia.
  - apply session_typed.
  - apply action_start_typed.
  - reflexivity.
  - reflexivity.
  - apply session_returns.
  - vm_refl.
  - split; [cbn; lia|reflexivity].
Defined.


Lemma walk_visits_index_witness :
  exists l c', (do x <- lowerbound_secondary index64 7 1 2 (Key64 50); walk index64 by_secondary (S (length l)) (fst x)) early
    = (Ok l, c').
Proof.
  destruct (session_prefix 5 false ltac:(lia)) as (Hg & _).
  destruct (walk_visits_index index64 7 1 2 (Key64 50) early (mk_table 0 7 1 2 7 4) Hg) as (l & all & c' & c'' & E & _).
  - vm_refl.
  - eapply room_le; [|apply (session_prefix_room 5 false index64); lia]. vm_compute. lia.
  - exists l, c'. exact E.
Defined.

Lemma stored_row_found_witness :
  exists c2, db_find_i64 7 1 2 44 (snd (db_store_i64 1 2 7 44 [3; 1; 4] early)) = (Ok 4, c2)
    /\ db_get_i64 4 2 c2 = (Ok (2, [3; 1]), c2).
Proof.
  destruct (session_prefix 5 false ltac:(lia)) as (Hg & Hr & _).
  assert (db_store_i64 1 2 7 44 [3; 1; 4] early = (Ok 4, snd (db_store_i64 1 2 7 44 [3; 1; 4] early))) as E.
  { assert (fst (db_store_i64 1 2 7 44 [3; 1; 4] early) = Ok 4) as E by vm_refl. rewrite <- E. apply surjective_pairing. }
  destruct (stored_row_found 1 2 7 44 [3; 1; 4] early 4 _ 2 Hg ltac:(eapply roomy_le; [|exact Hr]; lia) ltac:(cbn; lia) E)
    as ((c2 & E1 & E2) & _).
  exists c2. split; [exact E1|exact E2].
Defined.

Lemma removed_row_gone_witness :
  fst (get_row key_value 2 (snd (db_remove_i64 2 early))) = Throw table_operation_not_permitted.
Proof.
  destruct (session_prefix 5 false ltac:(lia)) as (Hg & Hr & _).
  assert (db_remove_i64 2 early = (Ok tt, snd (db_remove_i64 2 early))) as E.
  { assert (fst (db_remove_i64 2 early) = Ok tt) as E by vm_refl. rewrite <- E. apply surjective_pairing. }
  destruct (removed_row_gone 2 early _ Hg ltac:(eapply roomy_le; [|exact Hr]; lia) ltac:(lia) E)
    as (r & tab & _ & _ & _ & _ & _ & _ & H). exact H.
Defined.

(** Two calls a contract can make have undefined behaviour: db_previous_i64 on
    the end iterator of a table whose last row was removed follows the pointer
    to the removed table object, and on the least int it negates the least
    int. *)
Theorem previous_can_be_undefined :
  fst (perform_all [Db_store 1 2 7 30 [1]; Db_remove 0; Db_previous (-2)] (action_start false)) = Throw undefined_behavior
  /\ fst (perform_all [Db_store 1 2 7 30 [1]; Db_previous (- 2 ^ 31)] (action_start false)) = Throw undefined_behavior.
Proof. split; vm_refl. Qed.
