(* ===== verification/EosioContract.v ===== *)
(** The native actions of the system account: libraries/chain/eosio_contract.cpp
    (newaccount, setcode, setabi, updateauth, deleteauth, linkauth, unlinkauth,
    canceldelay) and apply_context::cancel_deferred_transaction, over the
    authorization manager, the resource limits and the tables of accounts and
    code.

    A handler takes its action decoded (action::data_as).  [environment] is what
    it asks of the controller and of the transaction context.  The cache of
    instantiated code in wasm_interface is not modelled. *)

From Stdlib Require Import ZArith Lia Ascii.
From stdpp Require Import base gmap strings numbers sorting list.
From S2P Require Import Prelude Chainbase Name Authority AuthorityChecker AuthorizationManager ResourceLimits IteratorCache ContractTables ContractInvariant.

#[local] Open Scope Z_scope.
#[local] Open Scope chain_scope.

Definition owner_name : Z := Eval vm_compute in N_ "owner".
Definition eosio_code_name : Z := Eval vm_compute in N_ "eosio.code".

(** operator< and the packed size of fc::crypto::public_key. *)
Class KeyOps (K : Type) := {
  key_lt : K -> K -> bool;
  key_pack_size : K -> Z;
  key_pack_size_bound : forall k, 0 <= key_pack_size k < 2 ^ 16
}.

(** fc::sha256::hash of the code of a contract, taken to be without collisions
    and never the all-zeros digest, and wasm_interface::validate. *)
Class CodeHash := {
  sha256 : list Z -> Z;
  sha256_inj : forall a b, sha256 a = sha256 b -> a = b;
  sha256_nonzero : forall a, sha256 a <> 0;
  wasm_validate : list Z -> res unit
}.

(** ** Objects *)

Record account_object := mk_account { creation_date : Z; abi : list Z }.

Record account_metadata_object := mk_metadata {
  recv_sequence : Z;
  auth_sequence : Z;
  code_sequence : Z;
  abi_sequence : Z;
  code_hash : Z;
  last_code_update : Z;
  flags : Z;
  vm_type : Z;
  vm_version : Z
}.

Definition default_metadata : account_metadata_object := mk_metadata 0 0 0 0 0 0 0 0 0.

(** has_field( flags, flags_fields::privileged ) *)
Definition is_privileged (m : account_metadata_object) : bool := negb (Z.land (flags m) 1 =? 0).

Record code_object := mk_code { co_code : list Z; code_ref_count : Z; first_block_used : Z }.

(** billable_size_v of permission_object, permission_link_object and
    generated_transaction_object. *)
Definition permission_billable_size : Z := billable_size_v (billable_size_v (3 * 16 + 4) + 64 + 5 * 32).
Definition link_billable_size : Z := billable_size_v (40 + 32 * 3).
Definition generated_billable_size : Z := billable_size_v (96 + 4 + 32 * 5).

(** ** Actions *)

Record newaccount {K : Type} := mk_newaccount { na_creator : Z; na_name : Z; na_owner : authority K; na_active : authority K }.
Arguments newaccount : clear implicits.
Arguments mk_newaccount {K}.
Record setcode := mk_setcode { sc_account : Z; sc_vmtype : Z; sc_vmversion : Z; sc_code : list Z }.
Record setabi := mk_setabi { sa_account : Z; sa_abi : list Z }.

(** tid._hash[3], tid._hash[2]: the upper two little-endian words of the digest;
    a digest is the number its bytes spell, which is how fc orders digests. *)
Definition digest_byte (tid : Z) (i : Z) : Z := Z.land (Z.shiftr tid (8 * (31 - i))) 255.
Definition digest_word (tid : Z) (w : Z) : Z :=
  fold_right (fun j acc => digest_byte tid (8 * w + Z.of_nat j) + 256 * acc) 0 (seq 0 8).
Definition transaction_id_to_sender_id (tid : Z) : Z := Z.lor (Z.shiftl (digest_word tid 3) 64) (digest_word tid 2).

Section Handlers.
Import Authorization.
Context {K : Type} `{EqDecision K} {key_ops : KeyOps K} {hashing : CodeHash} {trim : Name.BoostTrim} {SF : SoftFloat}.
Context {TT TR TL TU : Type} `{HTT : !Table Z table_id_object TT} `{HTR : !Table Z row TR}.
Context `{HTL : !Table (bool * Z) Manager.resource_limits_object TL}
        `{HTU : !Table Z Manager.resource_usage_object TU}.
Context {TP TPU TLK TG TA TM TC : Type} {permission_index : Table Z (permission_object K) TP}
  {permission_usage_index : Table Z Z TPU} {permission_link_index : Table (Z * Z * Z) Z TLK}
  {generated_transaction_index : Table Z generated_transaction_object TG}
  {account_index : Table Z account_object TA} {account_metadata_index : Table Z account_metadata_object TM}
  {code_index : Table (Z * Z * Z) code_object TC}.

Abbreviation auth_tables := (@auth_db TP TPU TLK TG).

(** The state the handlers work on: the apply_context with the contract tables
    and the resource limits, and the tables of the system account. *)
Record native_context := mk_native {
  context : @apply_context TT TR TL TU;
  auth : auth_tables;
  accounts_table : TA;
  metadata_table : TM;
  codes : TC
}.

Definition set_context (x : @apply_context TT TR TL TU) (n : native_context) : native_context :=
  mk_native x (auth n) (accounts_table n) (metadata_table n) (codes n).
Definition set_auth (x : auth_tables) (n : native_context) : native_context :=
  mk_native (context n) x (accounts_table n) (metadata_table n) (codes n).
Definition set_accounts (x : TA) (n : native_context) : native_context :=
  mk_native (context n) (auth n) x (metadata_table n) (codes n).
Definition set_metadata (x : TM) (n : native_context) : native_context :=
  mk_native (context n) (auth n) (accounts_table n) x (codes n).
Definition set_codes (x : TC) (n : native_context) : native_context :=
  mk_native (context n) (auth n) (accounts_table n) (metadata_table n) x.

Definition set_links (t : TLK) (d : auth_tables) : auth_tables :=
  mk_auth_db (permissions d) (next_permission_id d) (usages d) (next_usage_id d) t (generated d).
Definition set_generated (t : TG) (d : auth_tables) : auth_tables :=
  mk_auth_db (permissions d) (next_permission_id d) (usages d) (next_usage_id d) (links d) t.

Definition in_context {A} (m : exec (@apply_context TT TR TL TU) A) : exec native_context A := zoom context set_context m.
Definition in_auth {A} (m : exec auth_tables A) : exec native_context A := zoom auth set_auth m.
Definition in_limits {A} (m : exec (@Manager.database TL TU) A) : exec native_context A :=
  in_context (zoom resource_limits (fun d c => set_ram (account_ram_deltas c) d (validate_ram_usage c) c) m).

(** What the controller and the transaction context answer. *)
Record environment := mk_environment {
  pending_block_time : Z;
  head_block_num : Z;
  env_max_transaction_delay : Z;
  only_link_to_existing_permission_active : bool;
  enforcing_key_list : bool;     (** trx_context.enforce_whiteblacklist && is_producing_block() *)
  key_blacklist : list K
}.
Context (env : environment).

(** ** Helpers *)

Definition check_key_list (key : K) : res unit :=
  if 0 <? Z.of_nat (length (key_blacklist env)) then
    assert! (bool_decide (key ∉ key_blacklist env)) else key_blacklist_exception in Ok tt
  else Ok tt.

Definition check_authority_account (a : permission_level_weight) : exec native_context unit :=
  do n <- get_state;
  check (bool_decide (is_Some (tbl_find (actor (plw_permission a)) (accounts_table n)))) else action_validate_exception;
  let p := permission (plw_permission a) in
  if (p =? owner_name) || (p =? active_name) then ret tt
  else if p =? eosio_code_name then ret tt
  else match get_permission (auth n) (plw_permission a) with
       | Ok _ => ret tt
       | Throw permission_query_exception => lift (Throw action_validate_exception)
       | Throw e => lift (Throw e)
       end.

Definition validate_authority_precondition (a : authority K) : exec native_context unit :=
  do _ <- for_each (accounts a) check_authority_account;
  if enforcing_key_list env then for_each (keys a) (fun p => lift (check_key_list (kw_key p))) else ret tt.

Definition auth_size (a : authority K) : Z := get_billable_size key_pack_size a.

Definition starts_with_eosio (s : list ascii) : bool := bool_decide (take 6 s = String.list_ascii_of_string "eosio.").

(** ** newaccount *)

Definition create_account_rows (name : Z) : exec native_context unit :=
  do n <- get_state;
  do t <- lift (tbl_create name (mk_account (pending_block_time env) []) (accounts_table n));
  do _ <- modify (set_accounts t);
  do t <- lift (tbl_create name default_metadata (metadata_table n));
  modify (set_metadata t).

Definition apply_eosio_newaccount (create : newaccount K) : exec native_context unit :=
  do _ <- in_context (require_authorization (na_creator create));
  check (validate key_lt (na_owner create)) else action_validate_exception;
  check (validate key_lt (na_active create)) else action_validate_exception;
  let name_str := Name.to_string (na_name create) in
  check (negb (na_name create =? 0)) else action_validate_exception;
  check (Z.of_nat (length name_str) <=? 12) else action_validate_exception;
  do n <- get_state;
  do creator <- lift (tbl_get (na_creator create) (metadata_table n));
  check (is_privileged creator || negb (starts_with_eosio name_str)) else action_validate_exception;
  check (bool_decide (tbl_find (na_name create) (accounts_table n) = None)) else account_name_exists_exception;
  do _ <- create_account_rows (na_name create);
  do _ <- validate_authority_precondition (na_owner create);
  do _ <- validate_authority_precondition (na_active create);
  do owner <- in_auth (create_permission (pending_block_time env) (na_name create) owner_name 0 (na_owner create) 0);
  do active <- in_auth (create_permission (pending_block_time env) (na_name create) active_name (perm_id owner)
                          (na_active create) 0);
  do _ <- in_limits (Manager.initialize_account (na_name create));
  let ram_delta := i64 (2 * 1024 + 2 * permission_billable_size
                        + auth_size (perm_auth owner) + auth_size (perm_auth active)) in
  in_context (add_ram_usage (na_name create) ram_delta).

(** ** setcode and setabi *)

Definition put_code (key : Z * Z * Z) (c : code_object) : exec native_context unit :=
  modify (fun n => set_codes (tbl_put key c (codes n)) n).

(** The old code loses a reference; its size is returned. *)
Definition drop_code (m : account_metadata_object) (new_hash : Z) : exec native_context Z :=
  let key := (code_hash m, vm_type m, vm_version m) in
  do n <- get_state;
  do old <- lift (tbl_get key (codes n));
  check (negb (code_hash m =? new_hash)) else set_exact_code;
  do _ <- (if code_ref_count old =? 1 then modify (fun n => set_codes (tbl_remove key (codes n)) n)
           else put_code key (mk_code (co_code old) (u64 (code_ref_count old - 1)) (first_block_used old)));
  ret (i64 (Z.of_nat (length (co_code old)) * 10)).

(** The new code gains a reference, or is stored. *)
Definition use_code (hash vmtype vmversion : Z) (code : list Z) : exec native_context unit :=
  let key := (hash, vmtype, vmversion) in
  do n <- get_state;
  match tbl_find key (codes n) with
  | Some c => put_code key (mk_code (co_code c) (u64 (code_ref_count c + 1)) (first_block_used c))
  | None =>
      do t <- lift (tbl_create key (mk_code code 1 (u32 (head_block_num env + 1))) (codes n));
      modify (set_codes t)
  end.

Definition apply_eosio_setcode (act : setcode) : exec native_context unit :=
  do _ <- in_context (require_authorization (sc_account act));
  check (sc_vmtype act =? 0) else invalid_contract_vm_type;
  check (sc_vmversion act =? 0) else invalid_contract_vm_version;
  let code_size := i64 (Z.of_nat (length (sc_code act))) in
  let hash := if 0 <? code_size then sha256 (sc_code act) else 0 in
  do _ <- (if 0 <? code_size then lift (wasm_validate (sc_code act)) else ret tt);
  do n <- get_state;
  do account <- lift (tbl_get (sc_account act) (metadata_table n));
  let existing_code := negb (code_hash account =? 0) in
  check ((0 <? code_size) || existing_code) else set_exact_code;
  let new_size := i64 (code_size * 10) in
  do old_size <- (if existing_code then drop_code account hash else ret 0);
  do _ <- (if 0 <? code_size then use_code hash (sc_vmtype act) (sc_vmversion act) (sc_code act) else ret tt);
  do _ <- modify (fun n => set_metadata (tbl_put (sc_account act)
            (mk_metadata (recv_sequence account) (auth_sequence account) (u64 (code_sequence account + 1))
               (abi_sequence account) hash (pending_block_time env) (flags account)
               (sc_vmtype act) (sc_vmversion act)) (metadata_table n)) n);
  if negb (new_size =? old_size) then in_context (add_ram_usage (sc_account act) (i64 (new_size - old_size)))
  else ret tt.

Definition apply_eosio_setabi (act : setabi) : exec native_context unit :=
  do _ <- in_context (require_authorization (sa_account act));
  do n <- get_state;
  do account <- lift (tbl_get (sa_account act) (accounts_table n));
  let old_size := i64 (Z.of_nat (length (abi account))) in
  let new_size := i64 (Z.of_nat (length (sa_abi act))) in
  do _ <- modify (set_accounts (tbl_put (sa_account act)
            (mk_account (creation_date account) (if 0 <? new_size then sa_abi act else [])) (accounts_table n)));
  do m <- lift (tbl_get (sa_account act) (metadata_table n));
  do _ <- modify (fun n => set_metadata (tbl_put (sa_account act)
            (mk_metadata (recv_sequence m) (auth_sequence m) (code_sequence m) (u64 (abi_sequence m + 1))
               (code_hash m) (last_code_update m) (flags m) (vm_type m) (vm_version m)) (metadata_table n)) n);
  if negb (new_size =? old_size) then in_context (add_ram_usage (sa_account act) (i64 (new_size - old_size)))
  else ret tt.

(** ** updateauth and deleteauth *)

(** The conditions on the name and the parent. *)
Definition check_update (update : updateauth K) : res unit :=
  assert! (negb (ua_permission update =? 0)) else action_validate_exception in
  assert! (negb (starts_with_eosio (Name.to_string (ua_permission update)))) else action_validate_exception in
  assert! (negb (ua_permission update =? ua_parent update)) else action_validate_exception in
  Ok tt.

Definition check_update_parent (update : updateauth K) : res unit :=
  assert! (negb (ua_permission update =? active_name) || (ua_parent update =? owner_name)) else action_validate_exception in
  (if ua_permission update =? owner_name
   then assert! (ua_parent update =? 0) else action_validate_exception in Ok tt
   else assert! (negb (ua_parent update =? 0)) else action_validate_exception in Ok tt).

Definition check_update_waits (update : updateauth K) : res unit :=
  match last (waits (ua_auth update)) with
  | Some w => assert! (ww_wait_sec w <=? env_max_transaction_delay env) else action_validate_exception in Ok tt
  | None => Ok tt
  end.

Definition apply_eosio_updateauth (update : updateauth K) : exec native_context unit :=
  do _ <- in_context (require_authorization (ua_account update));
  do _ <- lift (check_update update);
  do n <- get_state;
  do _ <- lift (tbl_get (ua_account update) (accounts_table n));
  check (validate key_lt (ua_auth update)) else action_validate_exception;
  do _ <- lift (check_update_parent update);
  do _ <- lift (check_update_waits update);
  do _ <- validate_authority_precondition (ua_auth update);
  do n <- get_state;
  do existing <- lift (find_permission (auth n) (mk_level (ua_account update) (ua_permission update)));
  do parent_id <- (if negb (ua_permission update =? owner_name) then
                     do parent <- lift (get_permission (auth n) (mk_level (ua_account update) (ua_parent update)));
                     ret (perm_id parent)
                   else ret 0);
  match existing with
  | Some p =>
      check (parent_id =? perm_parent p) else action_validate_exception;
      let old_size := i64 (permission_billable_size + auth_size (perm_auth p)) in
      do _ <- in_auth (modify_permission (pending_block_time env) p (ua_auth update));
      let new_size := i64 (permission_billable_size + auth_size (ua_auth update)) in
      in_context (add_ram_usage (perm_owner p) (i64 (new_size - old_size)))
  | None =>
      do p <- in_auth (create_permission (pending_block_time env) (ua_account update) (ua_permission update) parent_id
                         (ua_auth update) 0);
      in_context (add_ram_usage (ua_account update) (i64 (permission_billable_size + auth_size (perm_auth p))))
  end.

(** index.equal_range( account, permission ) of by_permission_name. *)
Definition is_linked (d : auth_tables) (account permission_ : Z) : bool :=
  existsb (fun kv => let '(a, _, _) := fst kv in (a =? account) && (snd kv =? permission_)) (tbl_rows (links d)).

Definition apply_eosio_deleteauth (del : deleteauth) : exec native_context unit :=
  do _ <- in_context (require_authorization (da_account del));
  check (negb (da_permission del =? active_name)) else action_validate_exception;
  check (negb (da_permission del =? owner_name)) else action_validate_exception;
  do n <- get_state;
  check (negb (is_linked (auth n) (da_account del) (da_permission del))) else action_validate_exception;
  do p <- lift (get_permission (auth n) (mk_level (da_account del) (da_permission del)));
  let old_size := i64 (permission_billable_size + auth_size (perm_auth p)) in
  do _ <- in_auth (remove_permission p);
  in_context (add_ram_usage (da_account del) (- old_size)).

(** ** linkauth and unlinkauth *)

(** find< permission_object, by_owner > or, before the feature, by_name: any
    permission of that name. *)
Definition requirement_exists (d : auth_tables) (account requirement : Z) : bool :=
  if only_link_to_existing_permission_active env
  then bool_decide (is_Some (find_by_owner d account requirement))
  else existsb (fun kv => perm_name (snd kv) =? requirement) (tbl_rows (permissions d)).

Definition put_link (key : Z * Z * Z) (requirement : Z) : exec native_context unit :=
  modify (fun n => set_auth (set_links (tbl_put key requirement (links (auth n))) (auth n)) n).

Definition apply_eosio_linkauth (link : linkauth) : exec native_context unit :=
  check (negb (la_requirement link =? 0)) else action_validate_exception;
  do _ <- in_context (require_authorization (la_account link));
  do n <- get_state;
  check (bool_decide (is_Some (tbl_find (la_account link) (accounts_table n)))) else account_query_exception;
  check (bool_decide (is_Some (tbl_find (la_code link) (accounts_table n)))) else account_query_exception;
  check ((la_requirement link =? eosio_any_name)
         || requirement_exists (auth n) (la_account link) (la_requirement link)) else permission_query_exception;
  let key := (la_account link, la_code link, la_type link) in
  match tbl_find key (links (auth n)) with
  | Some old =>
      check (negb (old =? la_requirement link)) else action_validate_exception;
      put_link key (la_requirement link)
  | None =>
      do _ <- put_link key (la_requirement link);
      in_context (add_ram_usage (la_account link) (i64 link_billable_size))
  end.

Definition apply_eosio_unlinkauth (unlink : unlinkauth) : exec native_context unit :=
  do _ <- in_context (require_authorization (ul_account unlink));
  do n <- get_state;
  let key := (ul_account unlink, ul_code unlink, ul_type unlink) in
  check (bool_decide (is_Some (tbl_find key (links (auth n))))) else action_validate_exception;
  do _ <- in_context (add_ram_usage (ul_account unlink) (- i64 link_billable_size));
  modify (fun n => set_auth (set_links (tbl_remove key (links (auth n))) (auth n)) n).

(** ** canceldelay *)

(** find< generated_transaction_object, by_sender_id > *)
Definition find_generated (d : auth_tables) (sender sender_id : Z) : option (Z * generated_transaction_object) :=
  snd <$> list_find (fun kv => gto_sender (snd kv) = sender /\ gto_sender_id (snd kv) = sender_id) (tbl_rows (generated d)).

Definition cancel_deferred_transaction (sender_id sender : Z) : exec native_context bool :=
  do n <- get_state;
  match find_generated (auth n) sender sender_id with
  | Some (trx_id, g) =>
      do _ <- in_context (add_ram_usage (gto_payer g)
                (i64 (u64 (- (generated_billable_size + Z.of_nat (length (gto_packed_trx g)))))));
      do _ <- modify (fun n => set_auth (set_generated (tbl_remove trx_id (generated (auth n))) (auth n)) n);
      ret true
  | None => ret false
  end.

Definition apply_eosio_canceldelay (cancel : canceldelay) : exec native_context unit :=
  do _ <- in_context (require_authorization (actor (cd_canceling_auth cancel)));
  do _ <- cancel_deferred_transaction (transaction_id_to_sender_id (cd_trx_id cancel)) 0;
  ret tt.

(** ** The handlers the controller registers for the system account *)

Inductive native_action :=
| NewAccount (create : newaccount K)
| SetCode (act : setcode)
| SetAbi (act : setabi)
| UpdateAuth (update : updateauth K)
| DeleteAuth (del : deleteauth)
| LinkAuth (link : linkauth)
| UnlinkAuth (unlink : unlinkauth)
| CancelDelay (cancel : canceldelay).

Definition apply_native (a : native_action) : exec native_context unit :=
  match a with
  | NewAccount x => apply_eosio_newaccount x
  | SetCode x => apply_eosio_setcode x
  | SetAbi x => apply_eosio_setabi x
  | UpdateAuth x => apply_eosio_updateauth x
  | DeleteAuth x => apply_eosio_deleteauth x
  | LinkAuth x => apply_eosio_linkauth x
  | UnlinkAuth x => apply_eosio_unlinkauth x
  | CancelDelay x => apply_eosio_canceldelay x
  end.
End Handlers.
