(* ===== verification/NativeActions.v ===== *)
(** Correctness of the native actions (EosioContract.v): the tables of the
    system account stay consistent, every byte of RAM is accounted for, links
    never dangle, and setcode shares and releases code as it should. *)

From Stdlib Require Import ZArith Lia Ascii.
From stdpp Require Import base gmap strings numbers sorting list.
From S2P Require Import Prelude Chainbase Name Authority AuthorityChecker AuthorizationManager ResourceLimits IteratorCache ContractTables ContractInvariant EosioContract.

#[local] Open Scope Z_scope.
#[local] Open Scope chain_scope.

(** A sum of indicators is at most the number of rows. *)
Lemma map_sum_le_size `{Countable K} {V} (f : V -> Z) (m : gmap K V) :
  (forall v, 0 <= f v <= 1) -> map_sum f m <= Z.of_nat (size m).
Proof.
  intros Hf. induction m as [|k v m Hk IH] using map_ind; [by rewrite map_sum_empty, map_size_empty|].
  rewrite map_sum_insert, map_size_insert_None by done. specialize (Hf v). lia.
Qed.

(** ** Reference counts *)

Abbreviation code_key m := (code_hash m, vm_type m, vm_version m).

Definition uses (k : Z * Z * Z) (m : account_metadata_object) : Z := Z.b2z (bool_decide (code_key m = k)).

(** The number of accounts whose code is [k]. *)
Definition users (M : gmap Z account_metadata_object) (k : Z * Z * Z) : Z := map_sum (uses k) M.

Lemma uses_range k m : 0 <= uses k m <= 1.
Proof. unfold uses. by destruct (bool_decide _); cbn. Qed.

Lemma users_two M k a b m m' :
  M !! a = Some m -> M !! b = Some m' -> a <> b -> code_key m = k -> code_key m' = k -> 2 <= users M k.
Proof.
  intros Ha Hb Hne Ka Kb. unfold users. rewrite <- (insert_delete_id M a m Ha).
  rewrite map_sum_insert by apply lookup_delete_eq.
  assert (uses k m = 1) as -> by (unfold uses; by rewrite bool_decide_true).
  assert (delete a M !! b = Some m') as Hb' by (by rewrite lookup_delete_ne).
  pose proof (map_sum_ge (uses k) (delete a M) b m' (fun v => proj1 (uses_range k v)) Hb').
  assert (uses k m' = 1) by (unfold uses; by rewrite bool_decide_true). lia.
Qed.

Section Correctness.
Import Authorization.
Context {K : Type} `{EqDecision K} {key_ops : KeyOps K} {hashing : CodeHash} {trim : Name.BoostTrim} {SF : SoftFloat}.
Context {TT TR TL TU : Type} `{HTT : !Table Z table_id_object TT} `{HTR : !Table Z row TR}.
Context `{HTL : !Table (bool * Z) Manager.resource_limits_object TL}
        `{HTU : !Table Z Manager.resource_usage_object TU}.
Context {TP TPU TLK TG TA TM TC : Type} {permission_index : Table Z (permission_object K) TP}
  {permission_usage_index : Table Z Z TPU} {permission_link_index : Table (Z * Z * Z) Z TLK}
  {generated_transaction_index : Table Z generated_transaction_object TG}
  {account_index : Table Z account_object TA} {account_metadata_index : Table Z account_metadata_object TM}
  {code_index : Table (Z * Z * Z) code_object TC}.
Context (env : @environment K).

Abbreviation native := (@native_context TT TR TL TU TP TPU TLK TG TA TM TC).
Abbreviation auth_tables := (@auth_db TP TPU TLK TG).
Abbreviation perms d := (tbl_view (permissions d)).

(** The codes are those in use, with their numbers of users: [f] counts them. *)
Record codes_ok (f : Z * Z * Z -> Z) (C : gmap (Z * Z * Z) code_object) : Prop := {
  co_some : forall k c, C !! k = Some c -> fst (fst k) = sha256 (co_code c) /\ Z.of_nat (length (co_code c)) < 2 ^ 32
    /\ code_ref_count c = f k /\ 0 < f k;
  co_none : forall k, C !! k = None -> fst (fst k) <> 0 -> f k = 0
}.

Lemma codes_ok_ext f g C : (forall k, fst (fst k) <> 0 -> g k = f k) -> codes_ok f C -> codes_ok g C.
Proof.
  intros Hfg [H1 H2]. split; intros k.
  - intros c Hc. destruct (H1 k c Hc) as (Hh & Hl & Hr & Hp).
    assert (fst (fst k) <> 0) as Hk by (rewrite Hh; apply sha256_nonzero). by rewrite (Hfg k Hk).
  - intros Hc Hk. rewrite (Hfg k Hk). by apply H2.
Qed.

(** ** The invariant *)

(** The account has its owner permission, without a parent, and its active
    permission under it. *)
Definition standard (d : auth_tables) (a : Z) : Prop :=
  exists o p, perms d !! perm_id o = Some o /\ perm_owner o = a /\ perm_name o = owner_name /\ perm_parent o = 0
    /\ perms d !! perm_id p = Some p /\ perm_owner p = a /\ perm_name p = active_name /\ perm_parent p = perm_id o.

Record state_ok (d : auth_tables) (A : gmap Z account_object) (M : gmap Z account_metadata_object)
    (C : gmap (Z * Z * Z) code_object) : Prop := {
  so_tree : tree_ok d;
  so_rows : forall a, is_Some (A !! a) <-> is_Some (M !! a);
  so_standard : forall a, is_Some (A !! a) -> standard d a;
  so_codes : codes_ok (users M) C;
  so_abi : forall a x, A !! a = Some x -> Z.of_nat (length (abi x)) < 2 ^ 32;
  so_auth : forall i p, perms d !! i = Some p -> auth_size (perm_auth p) < 2 ^ 40;
  so_generated : forall i g, tbl_view (generated d) !! i = Some g -> Z.of_nat (length (gto_packed_trx g)) < 2 ^ 32
}.

Definition native_ok (n : native) : Prop :=
  state_ok (auth n) (tbl_view (accounts_table n)) (tbl_view (metadata_table n)) (tbl_view (codes n)).

(** ** What an account pays for *)

Definition account_bill (A : gmap Z account_object) (a : Z) : Z :=
  match A !! a with Some x => 2048 + Z.of_nat (length (abi x)) | None => 0 end.
(** The code an account runs. *)
Definition code_of (M : gmap Z account_metadata_object) (C : gmap (Z * Z * Z) code_object) (a : Z) : option (list Z) :=
  m ← M !! a; co_code <$> C !! code_key m.
Definition code_size (c : option (list Z)) : Z := match c with Some l => 10 * Z.of_nat (length l) | None => 0 end.
Definition permission_bill (a : Z) (p : permission_object K) : Z :=
  if perm_owner p =? a then permission_billable_size + auth_size (perm_auth p) else 0.
Definition link_bill (a : Z) (k : Z * Z * Z) (_ : Z) : Z := if fst (fst k) =? a then link_billable_size else 0.
Definition generated_bill (a : Z) (g : generated_transaction_object) : Z :=
  if gto_payer g =? a then generated_billable_size + Z.of_nat (length (gto_packed_trx g)) else 0.

Definition auth_billed (d : auth_tables) (a : Z) : Z :=
  map_sum (permission_bill a) (perms d) + map_ksum (link_bill a) (tbl_view (links d))
  + map_sum (generated_bill a) (tbl_view (generated d)).

Definition native_billed (n : native) (a : Z) : Z :=
  account_bill (tbl_view (accounts_table n)) a + code_size (code_of (tbl_view (metadata_table n)) (tbl_view (codes n)) a)
  + auth_billed (auth n) a.

(** At most one account more. *)
Definition grows (n n' : native) : Prop :=
  (size (tbl_view (metadata_table n')) <= S (size (tbl_view (metadata_table n))))%nat.

(** Every link requires eosio.any or a permission of its account. *)
Definition resolves (d : auth_tables) (account requirement : Z) : Prop :=
  requirement = eosio_any_name
  \/ exists i p, perms d !! i = Some p /\ perm_owner p = account /\ perm_name p = requirement.
Definition links_resolve (d : auth_tables) : Prop :=
  forall k requirement, tbl_view (links d) !! k = Some requirement -> resolves d (fst (fst k)) requirement.

(** Once links are required to name a permission of the account, they keep
    naming one. *)
Definition links_kept (n n' : native) : Prop :=
  only_link_to_existing_permission_active env = true -> links_resolve (auth n) -> links_resolve (auth n').

Lemma links_kept_same (n n' : native) : auth n' = auth n -> links_kept n n'.
Proof. unfold links_kept. by intros ->. Qed.

Lemma links_kept_mono (n n' : native) :
  links (auth n') = links (auth n) ->
  (forall i p, perms (auth n) !! i = Some p ->
     exists j q, perms (auth n') !! j = Some q /\ perm_owner q = perm_owner p /\ perm_name q = perm_name p) ->
  links_kept n n'.
Proof.
  intros El Hp _ Hr k req. rewrite El. intros [Hany|(i & p & Hi & Ho & Hn)]%Hr; [by left|right].
  destruct (Hp _ _ Hi) as (j & q & Hj & Eo & En). exists j, q. split_and!; [done|congruence|congruence].
Qed.

(** One action that returned: the invariant holds again, the contract tables are
    untouched, and RAM usage moved with what each account pays for. *)
Record native_step (n n' : native) : Prop := {
  ns_ok : native_ok n';
  ns_context : exists deltas lims v, context n' = set_ram deltas lims v (context n);
  ns_typed : ram_typed (context n');
  ns_grows : grows n n';
  ns_links : links_kept n n';
  ns_ram : forall a, ram (context n') a - ram (context n) a = native_billed n' a - native_billed n a
}.

(** The last call of most handlers: the books are changed, then [p] is charged. *)
Lemma charge_after n n1 p d u n' :
  native_ok n1 -> grows n n1 -> links_kept n n1 -> (exists deltas lims v, context n1 = set_ram deltas lims v (context n)) ->
  (forall a, ram (context n1) a = ram (context n) a) -> ram_typed (context n1) -> - 2 ^ 63 < d < 2 ^ 63 ->
  (forall a, native_billed n1 a = native_billed n a + (if p =? a then d else 0)) ->
  in_context (add_ram_usage p d) n1 = (Ok u, n') -> native_step n n'.
Proof.
  intros Hok Hg Hlk (deltas & lims & v & Hc) Hram Ht Hd Hbill (c' & Hadd & ->)%zoom_ok.
  apply add_ram_usage_ok in Hadd as ((deltas' & lims' & v' & Hset) & Hmv & Hty); [|done|done].
  split; [exact Hok|exists deltas', lims', v'; by rewrite Hc in Hset|exact Hty|exact Hg|exact Hlk|].
  intros a. change (native_billed (set_context c' n1) a) with (native_billed n1 a).
  change (context (set_context c' n1)) with c'. rewrite (Hmv a), (Hbill a), Hram. lia.
Qed.

Lemma charge_step n n1 p d u n' :
  native_ok n1 -> grows n n1 -> links_kept n n1 -> context n1 = context n -> ram_typed (context n) -> - 2 ^ 63 < d < 2 ^ 63 ->
  (forall a, native_billed n1 a = native_billed n a + (if p =? a then d else 0)) ->
  in_context (add_ram_usage p d) n1 = (Ok u, n') -> native_step n n'.
Proof.
  intros Hok Hg Hlk Hc Ht. apply charge_after; rewrite ?Hc; [done|done|done| |done|done].
  exists (account_ram_deltas (context n)), (resource_limits (context n)), (validate_ram_usage (context n)).
  by destruct (context n).
Qed.

(** A handler that charges nobody. *)
Lemma free_step n n' :
  native_ok n' -> grows n n' -> links_kept n n' -> context n' = context n -> ram_typed (context n) ->
  (forall a, native_billed n' a = native_billed n a) -> native_step n n'.
Proof.
  intros Hok Hg Hlk Hc Ht Hb. split; rewrite ?Hc; [done| |done|done|done|].
  - by exists (account_ram_deltas (context n)), (resource_limits (context n)), (validate_ram_usage (context n));
      destruct (context n).
  - intros a. rewrite Hb. lia.
Qed.

Lemma require_ok a (n : native) u n' : in_context (require_authorization a) n = (Ok u, n') ->
  n' = n /\ has_authorization a (context n) = true.
Proof.
  intros (c' & Hr & ->)%zoom_ok. pose proof (require_authorization_wp a (context n)) as Hw.
  unfold wp in Hw. rewrite Hr in Hw. destruct Hw as [-> Hh]. by destruct n.
Qed.

(** ** Sizes *)

Lemma keys_size_bound (l : list (key_weight K)) acc :
  0 <= acc -> let s := fold_left (fun sz k => sz + billable_size_v 8 + key_pack_size (kw_key k)) l acc in
  acc <= s <= acc + Z.of_nat (length l) * (16 + 2 ^ 16).
Proof.
  revert acc. induction l as [|k l IH]; intros acc Hacc; cbn [fold_left]; [cbn; lia|].
  pose proof (key_pack_size_bound (kw_key k)). specialize (IH (acc + billable_size_v 8 + key_pack_size (kw_key k))).
  change (billable_size_v 8) with 16 in *. cbn [length]. cbv zeta in *. lia.
Qed.

Lemma auth_size_nonneg (a : authority K) : 0 <= auth_size a.
Proof.
  unfold auth_size, get_billable_size. pose proof (keys_size_bound (keys a) 0). cbv zeta in *.
  change (billable_size_v 24) with 32. change (billable_size_v 16) with 16. lia.
Qed.

(** validate bounds the number of members, so the size. *)
Lemma validate_size (a : authority K) : validate key_lt a = true -> auth_size a < 2 ^ 40.
Proof.
  unfold validate. destruct (Z.ltb_spec (2 ^ 16) (Z.of_nat (length (keys a)) + Z.of_nat (length (accounts a))
    + Z.of_nat (length (waits a)))) as [|Hle]; [done|]. intros _.
  unfold auth_size, get_billable_size. pose proof (keys_size_bound (keys a) 0). cbv zeta in *.
  change (billable_size_v 24) with 32. change (billable_size_v 16) with 16. lia.
Qed.

Lemma permission_size_fits (a : authority K) : auth_size a < 2 ^ 40 ->
  i64 (permission_billable_size + auth_size a) = permission_billable_size + auth_size a.
Proof.
  intros Ha. pose proof (auth_size_nonneg a). apply i64_small. unfold is_int64.
  change permission_billable_size with 288. lia.
Qed.

(** ** Code: the counts follow the accounts *)

Definition bump (f : Z * Z * Z -> Z) (k : Z * Z * Z) (x : Z) : Z * Z * Z -> Z :=
  fun j => f j + (if bool_decide (j = k) then x else 0).

Lemma drop_code_ok m h (n n' : native) x f :
  drop_code m h n = (Ok x, n') -> codes_ok f (tbl_view (codes n)) -> (forall k, f k < 2 ^ 63) ->
  exists old, tbl_view (codes n) !! code_key m = Some old /\ code_hash m <> h
    /\ x = 10 * Z.of_nat (length (co_code old)) /\ n' = set_codes (codes n') n
    /\ codes_ok (bump f (code_key m) (-1)) (tbl_view (codes n'))
    /\ forall k, k <> code_key m \/ 1 < f (code_key m) ->
         co_code <$> tbl_view (codes n') !! k = co_code <$> tbl_view (codes n) !! k.
Proof.
  intros Hrun [Hs Hn] Hf. unfold drop_code in Hrun. do 3 exec_step Hrun. exec_step Hrun. unfold ret in Hrun.
  unfold tbl_get in L. rewrite tbl_find_view in L. destruct (tbl_view (codes n) !! code_key m) as [old|] eqn:Eo; [|done].
  injection L as <-. destruct (Hs _ _ Eo) as (Hh & Hl & Hr & Hp). bprop. injection Hrun as <- <-.
  exists old. specialize (Hf (code_key m)).
  assert (i64 (Z.of_nat (length (co_code old)) * 10) = 10 * Z.of_nat (length (co_code old))) as ->.
  { rewrite i64_small; [lia|]. unfold is_int64. lia. }
  split_and!; [done|done|done|..].
  - destruct (Z.eqb_spec (code_ref_count old) 1); injection R as _ <-; by destruct n.
  - destruct (Z.eqb_spec (code_ref_count old) 1) as [E1|E1]; injection R as _ <-; cbn [codes set_codes];
      rewrite ?tbl_put_view, ?tbl_remove_view; split; intros k; unfold bump.
    + intros c [Hne Hc]%lookup_delete_Some. rewrite bool_decide_false by done. rewrite Z.add_0_r. by apply Hs.
    + intros [<-|Hc]%lookup_delete_None Hk; [rewrite bool_decide_true by done; lia|].
      case_bool_decide; [congruence|]. rewrite Z.add_0_r. by apply Hn.
    + intros c [[<- <-]|[Hne Hc]]%lookup_insert_Some.
      * rewrite bool_decide_true by done. cbn. split_and!; [done|done|rewrite Hr; unfold u64, wrap; rewrite Z.mod_small; lia|lia].
      * rewrite bool_decide_false by done. rewrite Z.add_0_r. by apply Hs.
    + intros [Hc Hne]%lookup_insert_None Hk. rewrite bool_decide_false by done. rewrite Z.add_0_r. by apply Hn.
  - intros k Hk. destruct (Z.eqb_spec (code_ref_count old) 1) as [E1|E1]; injection R as _ <-; cbn [codes set_codes];
      rewrite ?tbl_put_view, ?tbl_remove_view.
    + rewrite lookup_delete_ne; [done|]. intros <-. destruct Hk as [Hk|Hk]; [done|lia].
    + destruct (decide (k = code_key m)) as [-> |Hne]; [by rewrite lookup_insert_eq, Eo|by rewrite lookup_insert_ne].
Qed.

Lemma use_code_ok h vt vv code (n n' : native) u f :
  use_code env h vt vv code n = (Ok u, n') -> codes_ok f (tbl_view (codes n)) -> (forall k, f k < 2 ^ 63) ->
  h = sha256 code -> Z.of_nat (length code) < 2 ^ 32 ->
  n' = set_codes (codes n') n /\ codes_ok (bump f (h, vt, vv) 1) (tbl_view (codes n'))
  /\ co_code <$> tbl_view (codes n') !! (h, vt, vv) = Some code
  /\ forall k, is_Some (tbl_view (codes n) !! k) ->
       co_code <$> tbl_view (codes n') !! k = co_code <$> tbl_view (codes n) !! k.
Proof.
  intros Hrun [Hs Hn] Hf Hh Hl. unfold use_code in Hrun. exec_step Hrun. rewrite tbl_find_view in Hrun.
  specialize (Hf (h, vt, vv)).
  assert (exists c, c = mk_code code (f (h, vt, vv) + 1) (first_block_used c) /\ 0 <= f (h, vt, vv)
    /\ n' = set_codes (codes n') n /\ tbl_view (codes n') = <[(h, vt, vv) := c]> (tbl_view (codes n))
    /\ forall k, is_Some (tbl_view (codes n) !! k) -> k = (h, vt, vv) -> co_code <$> tbl_view (codes n) !! k = Some code)
    as (c & Ec & Hf0 & Hset & Hview & Hold).
  { destruct (tbl_view (codes n) !! (h, vt, vv)) as [c|] eqn:Ec.
    - destruct (Hs _ _ Ec) as (Hc & _ & Hr & Hp). cbn in Hc. rewrite Hh in Hc. apply sha256_inj in Hc.
      injection Hrun as _ <-. eexists. split_and!; [|lia|by destruct n|cbn; apply tbl_put_view|].
      + cbn. rewrite Hr, <- Hc. unfold u64, wrap. by rewrite Z.mod_small by lia.
      + intros k _ ->. rewrite Ec. cbn. by rewrite Hc.
    - exec_step Hrun. unfold tbl_create in L. rewrite tbl_find_view, Ec in L. injection L as <-. injection Hrun as _ <-.
      assert (f (h, vt, vv) = 0) as -> by (apply Hn; [done|]; cbn; rewrite Hh; apply sha256_nonzero).
      eexists. split_and!; [|lia|by destruct n|cbn; apply tbl_put_view|by intros k Hk ->; rewrite Ec in Hk; destruct Hk].
      done. }
  split; [done|]. split_and!.
  - rewrite Hview. split; intros k; unfold bump.
    + intros x [[<- <-]|[Hne Hx]]%lookup_insert_Some.
      * rewrite bool_decide_true by done. rewrite Ec. cbn. split_and!; [done|done|done|lia].
      * rewrite bool_decide_false by done. rewrite Z.add_0_r. by apply Hs.
    + intros [Hx Hne]%lookup_insert_None Hk. rewrite bool_decide_false by done. rewrite Z.add_0_r. by apply Hn.
  - rewrite Hview, lookup_insert_eq, Ec. done.
  - intros k Hk. rewrite Hview. destruct (decide (k = (h, vt, vv))) as [Ek|Hne].
    + rewrite (Hold k Hk Ek). subst k. by rewrite lookup_insert_eq, Ec.
    + by rewrite lookup_insert_ne.
Qed.

(** An account without code uses no stored code. *)
Lemma no_code f C m : codes_ok f C -> code_hash m = 0 -> C !! code_key m = None.
Proof.
  intros [Hs _] Hm. destruct (C !! code_key m) as [c|] eqn:E; [|done].
  apply Hs in E as (Hh & _). cbn in Hh. rewrite Hm in Hh. by apply symmetry, sha256_nonzero in Hh.
Qed.

Lemma users_bound M k : Z.of_nat (size M) < 2 ^ 63 -> users M k < 2 ^ 63.
Proof. intros Hs. pose proof (map_sum_le_size (uses k) M (uses_range k)). unfold users. lia. Qed.

Lemma uses_zero k m : code_hash m = 0 -> fst (fst k) <> 0 -> uses k m = 0.
Proof. intros Hm Hk. unfold uses. rewrite bool_decide_false; [done|]. intros <-. done. Qed.

(** An account with code finds it. *)
Lemma user_finds f M C a m :
  codes_ok f C -> (forall k, fst (fst k) <> 0 -> f k = users M k) -> M !! a = Some m -> code_hash m <> 0 ->
  is_Some (C !! code_key m).
Proof.
  intros [_ Hn] Hf Ha Hh. destruct (C !! code_key m) eqn:E; [done|].
  specialize (Hn _ E Hh). rewrite Hf in Hn by done.
  pose proof (map_sum_ge (uses (code_key m)) M a m (fun v => proj1 (uses_range _ v)) Ha) as Hge.
  unfold users in Hn. unfold uses in Hge at 1. rewrite bool_decide_true in Hge by done. cbn in Hge. lia.
Qed.

(** The two halves of setcode on the codes: [m] is the old row of account [a],
    [h] the new hash. *)
Lemma drop_half M m a h (n n1 : native) old_size :
  codes_ok (users M) (tbl_view (codes n)) -> Z.of_nat (size M) < 2 ^ 62 -> M !! a = Some m ->
  (if negb (code_hash m =? 0) then drop_code m h else ret 0) n = (Ok old_size, n1) ->
  n1 = set_codes (codes n1) n /\ old_size = code_size (code_of M (tbl_view (codes n)) a)
  /\ (exists f, codes_ok f (tbl_view (codes n1)) /\ (forall k, f k < 2 ^ 63)
        /\ forall k, fst (fst k) <> 0 -> f k = users M k - uses k m)
  /\ forall b mb, b <> a -> M !! b = Some mb ->
        co_code <$> tbl_view (codes n1) !! code_key mb = co_code <$> tbl_view (codes n) !! code_key mb.
Proof.
  intros Hok Hsize Ha Hrun. assert (forall k, users M k < 2 ^ 62) as Hb.
  { intros k. pose proof (map_sum_le_size (uses k) M (uses_range k)). unfold users. lia. }
  destruct (Z.eqb_spec (code_hash m) 0) as [E0|E0]; cbn [negb] in Hrun.
  - injection Hrun as <- <-. split; [by destruct n|]. unfold code_of. rewrite Ha. cbn. rewrite (no_code _ _ _ Hok E0).
    split; [done|]. split; [|done]. exists (users M). split; [done|]. split; [intros k; specialize (Hb k); lia|].
    intros k Hk. rewrite uses_zero; [lia|done|done].
  - apply drop_code_ok with (f := users M) in Hrun as (old & Ho & Hne & -> & Hset & Hok' & Hsame);
      [|done|intros k; specialize (Hb k); lia].
    split; [done|]. unfold code_of. rewrite Ha. cbn. rewrite Ho. cbn. split; [done|]. split.
    + eexists. split; [exact Hok'|]. unfold bump, uses. split.
      * intros k. specialize (Hb k). case_bool_decide; lia.
      * intros k _. rewrite (bool_decide_ext (k = code_key m) (code_key m = k)) by done. case_bool_decide; cbn; lia.
    + intros b mb Hba Hmb. apply Hsame. destruct (decide (code_key mb = code_key m)) as [E|]; [|by left].
      right. pose proof (users_two M (code_key m) a b m mb Ha Hmb (not_eq_sym Hba) eq_refl E). lia.
Qed.

Lemma use_half M m a h code (n1 n2 : native) u f m' :
  codes_ok f (tbl_view (codes n1)) -> (forall k, f k < 2 ^ 63) -> M !! a = Some m ->
  (forall k, fst (fst k) <> 0 -> f k = users M k - uses k m) ->
  h = (if 0 <? Z.of_nat (length code) then sha256 code else 0) -> Z.of_nat (length code) < 2 ^ 32 ->
  (if 0 <? Z.of_nat (length code) then use_code env h 0 0 code else ret tt) n1 = (Ok u, n2) ->
  code_key m' = (h, 0, 0) ->
  n2 = set_codes (codes n2) n1 /\ codes_ok (users (<[a := m']> M)) (tbl_view (codes n2))
  /\ code_of (<[a := m']> M) (tbl_view (codes n2)) a = (if 0 <? Z.of_nat (length code) then Some code else None)
  /\ forall k, is_Some (tbl_view (codes n1) !! k) ->
       co_code <$> tbl_view (codes n2) !! k = co_code <$> tbl_view (codes n1) !! k.
Proof.
  intros Hok Hf Ha Husers Hh Hl Hrun Hkey. unfold code_of. rewrite lookup_insert_eq. cbn [mbind option_bind]. rewrite Hkey.
  destruct (Z.ltb_spec 0 (Z.of_nat (length code))) as [Hpos|Hpos].
  - apply use_code_ok with (f := f) in Hrun as (Hset & Hok' & Hcode & Hsame); [|done..].
    split; [done|]. split; [|done]. eapply codes_ok_ext; [|exact Hok'].
    intros k Hk. unfold users. rewrite (map_sum_replace _ _ _ m) by done. unfold bump.
    rewrite (Husers k Hk). unfold uses at 3, users. rewrite Hkey, (bool_decide_ext ((h, 0, 0) = k) (k = (h, 0, 0))) by done.
    case_bool_decide; cbn; lia.
  - injection Hrun as _ <-. split; [by destruct n1|].
    assert (code_hash m' = 0) as H0 by congruence.
    split; [|split; [|done]].
    + eapply codes_ok_ext; [|exact Hok]. intros k Hk. unfold users. rewrite (map_sum_replace _ _ _ m) by done.
      rewrite (Husers k Hk), (uses_zero k m') by done. unfold users. lia.
    + rewrite <- Hkey. by rewrite (no_code _ _ _ Hok H0).
Qed.

(** ** setcode *)

(** What setcode makes of the codes of the accounts. *)
Definition sets_code (act : setcode) (n n' : native) : Prop :=
  forall a, code_of (tbl_view (metadata_table n')) (tbl_view (codes n')) a =
    if a =? sc_account act then (if 0 <? Z.of_nat (length (sc_code act)) then Some (sc_code act) else None)
    else code_of (tbl_view (metadata_table n)) (tbl_view (codes n)) a.

(** setcode up to the charge. *)
Record code_swapped (act : setcode) (n n2 : native) : Prop := {
  cw_context : context n2 = context n;
  cw_auth : auth n2 = auth n;
  cw_accounts : accounts_table n2 = accounts_table n;
  cw_metadata : exists m m', tbl_view (metadata_table n) !! sc_account act = Some m
    /\ tbl_view (metadata_table n2) = <[sc_account act := m']> (tbl_view (metadata_table n));
  cw_codes : codes_ok (users (tbl_view (metadata_table n2))) (tbl_view (codes n2));
  cw_sets : sets_code act n n2
}.

Lemma swap_code M m m' h act (n n1 n2 : native) old_size u :
  M = tbl_view (metadata_table n) -> codes_ok (users M) (tbl_view (codes n)) -> Z.of_nat (size M) < 2 ^ 62 ->
  M !! sc_account act = Some m -> h = (if 0 <? Z.of_nat (length (sc_code act)) then sha256 (sc_code act) else 0) ->
  Z.of_nat (length (sc_code act)) < 2 ^ 32 ->
  (if negb (code_hash m =? 0) then drop_code m h else ret 0) n = (Ok old_size, n1) ->
  (if 0 <? Z.of_nat (length (sc_code act)) then use_code env h 0 0 (sc_code act) else ret tt) n1 = (Ok u, n2) ->
  code_key m' = (h, 0, 0) ->
  old_size = code_size (code_of M (tbl_view (codes n)) (sc_account act))
  /\ code_swapped act n (set_metadata (tbl_put (sc_account act) m' (metadata_table n2)) n2).
Proof.
  intros -> Hok Hsize Hm Hh Hlen Hdrop Huse Hkey.
  destruct (drop_half _ _ _ _ _ _ _ Hok Hsize Hm Hdrop) as (E1 & -> & (f & Hf1 & Hf2 & Hf3) & Hsame1).
  destruct (use_half _ m _ h _ _ _ _ _ m' Hf1 Hf2 Hm Hf3 Hh Hlen Huse Hkey) as (E2 & Hcodes & Hnew & Hsame2).
  assert (n2 = set_codes (codes n2) n) as E3 by (rewrite E2, E1; by destruct n). clear E1 E2.
  split; [done|]. set (t := tbl_put _ _ _).
  assert (tbl_view t = <[sc_account act := m']> (tbl_view (metadata_table n))) as Ht.
  { unfold t. rewrite E3. apply tbl_put_view. }
  split; cbn [context auth accounts_table metadata_table codes set_metadata];
    [by rewrite E3..| |by rewrite Ht|]; [by exists m, m'|].
  intros b. cbn [metadata_table codes set_metadata]. rewrite Ht.
  destruct (Z.eqb_spec b (sc_account act)) as [-> |Hne]; [exact Hnew|]. unfold code_of. rewrite lookup_insert_ne by done.
  destruct (tbl_view (metadata_table n) !! b) as [mb|] eqn:Hb; [cbn|done].
  specialize (Hsame1 b mb Hne Hb). rewrite <- Hsame1.
  destruct (decide (code_hash mb = 0)) as [Hz|Hnz].
  - by rewrite (no_code _ _ _ Hcodes Hz), (no_code _ _ _ Hf1 Hz).
  - apply Hsame2. pose proof (user_finds _ _ _ _ _ Hok (fun _ _ => eq_refl) Hb Hnz) as [c Hc].
    rewrite Hc in Hsame1. by apply fmap_Some in Hsame1 as (c' & -> & _).
Qed.

Lemma swapped_ok act (n n2 : native) : native_ok n -> code_swapped act n n2 -> native_ok n2.
Proof.
  intros [Htree Hrows Hstd _ Habi Hauth Hgen] [_ Ea Eacc (m & m' & Hm & EM) Hcodes _]. unfold native_ok.
  rewrite Ea, Eacc. split; [done| |done|done|done|done|done]. intros b.
  rewrite Hrows, EM, lookup_insert_is_Some'. split; [by right|]. intros [<-|]; [by eexists|done].
Qed.

Lemma setcode_step act (n n' : native) u :
  native_ok n -> ram_typed (context n) -> Z.of_nat (size (tbl_view (metadata_table n))) < 2 ^ 62 ->
  Z.of_nat (length (sc_code act)) < 2 ^ 32 -> apply_eosio_setcode env act n = (Ok u, n') ->
  native_step n n' /\ sets_code act n n'.
Proof.
  intros Hok Hty Hsize Hlen Hrun. unfold apply_eosio_setcode in Hrun.
  exec_step Hrun. apply require_ok in R as [-> _]. do 2 exec_step Hrun. bprop.
  rewrite (i64_small (Z.of_nat _)) in Hrun by (unfold is_int64; lia).
  exec_step Hrun. assert (s = n) as ->.
  { destruct (0 <? _); [by apply lift_ok in R as [_ ->]|by injection R]. }
  clear R. exec_step Hrun. exec_step Hrun. unfold tbl_get in L. rewrite tbl_find_view in L.
  destruct (tbl_view (metadata_table n) !! sc_account act) as [m|] eqn:Hm; [|done]. injection L as <-.
  exec_step Hrun. exec_step Hrun. exec_step Hrun. exec_step Hrun. rewrite C, C0 in *.
  destruct (swap_code _ m (mk_metadata (recv_sequence m) (auth_sequence m) (u64 (code_sequence m + 1)) (abi_sequence m)
    (if 0 <? Z.of_nat (length (sc_code act)) then sha256 (sc_code act) else 0) (pending_block_time env) (flags m) 0 0)
    _ act _ _ _ _ _ eq_refl (so_codes _ _ _ _ Hok) Hsize Hm eq_refl Hlen R R0 eq_refl) as [-> Hsw].
  set (n2 := set_metadata _ _) in Hrun, Hsw. pose proof (swapped_ok _ _ _ Hok Hsw) as Hok2.
  assert (grows n n2) as Hg.
  { unfold grows. destruct (cw_metadata _ _ _ Hsw) as (m0 & m1 & Hm0 & ->). rewrite map_size_insert_Some by (by exists m0). lia. }
  destruct Hsw as [Hc2 Ea Eacc _ _ Hsets].
  set (len := Z.of_nat (length (sc_code act))) in *.
  set (old := code_of (tbl_view (metadata_table n)) (tbl_view (codes n)) (sc_account act)) in Hrun.
  assert (0 <= code_size old < 2 ^ 36) as Hold.
  { unfold code_size, old, code_of. rewrite Hm. cbn.
    destruct (tbl_view (codes n) !! _) as [c|] eqn:Ec; cbn; [|lia].
    apply (co_some _ _ (so_codes _ _ _ _ Hok)) in Ec as (_ & ? & _). lia. }
  assert (forall a, native_billed n2 a = native_billed n a + (if sc_account act =? a then len * 10 - code_size old else 0))
    as Hbill.
  { intros a. unfold native_billed. rewrite (Hsets a), Ea, Eacc, (Z.eqb_sym a).
    destruct (Z.eqb_spec (sc_account act) a) as [<-|]; [|lia]. fold old len.
    destruct (Z.ltb_spec 0 len); cbn; unfold len in *; lia. }
  rewrite (i64_small (len * 10)), (i64_small (len * 10 - _)) in Hrun by (unfold is_int64; lia).
  destruct (Z.eqb_spec (len * 10) (code_size old)) as [E|E]; cbn [negb] in Hrun.
  - injection Hrun as _ <-. split; [|exact Hsets]. apply free_step; [done|exact Hg|by apply links_kept_same|done..|].
    intros a. rewrite Hbill. destruct (_ =? a); lia.
  - split; [eapply charge_step; [exact Hok2|exact Hg|by apply links_kept_same|exact Hc2|done| |exact Hbill|exact Hrun]; lia|].
    apply zoom_ok in Hrun as (c' & _ & ->). exact Hsets.
Qed.

(** ** setabi *)

Lemma setabi_step act (n n' : native) u :
  native_ok n -> ram_typed (context n) -> Z.of_nat (length (sa_abi act)) < 2 ^ 32 ->
  apply_eosio_setabi act n = (Ok u, n') -> native_step n n'.
Proof.
  intros Hok Hty Hlen Hrun. unfold apply_eosio_setabi in Hrun.
  exec_step Hrun. apply require_ok in R as [-> _]. do 2 exec_step Hrun. unfold tbl_get in L. rewrite tbl_find_view in L.
  destruct (tbl_view (accounts_table n) !! sa_account act) as [y0|] eqn:Hx; [|done]. injection L as <-.
  pose proof (so_abi _ _ _ _ Hok _ _ Hx) as Habi0.
  rewrite !(i64_small (Z.of_nat _)) in Hrun by (unfold is_int64; lia).
  rewrite (i64_small (_ - _)) in Hrun by (unfold is_int64; lia).
  do 2 exec_step Hrun. unfold tbl_get in L. rewrite tbl_find_view in L.
  destruct (tbl_view (metadata_table n) !! sa_account act) as [m|] eqn:Hm; [|done]. injection L as <-.
  exec_step Hrun. set (x' := mk_account _ _) in Hrun. set (m' := mk_metadata _ _ _ _ _ _ _ _ _) in Hrun.
  set (n2 := set_metadata _ _) in Hrun.
  assert (Z.of_nat (length (abi x')) = Z.of_nat (length (sa_abi act))) as Hx'.
  { unfold x'. cbn. destruct (Z.ltb_spec 0 (Z.of_nat (length (sa_abi act)))); cbn; [done|lia]. }
  assert (tbl_view (accounts_table n2) = <[sa_account act := x']> (tbl_view (accounts_table n))) as EA by apply tbl_put_view.
  assert (tbl_view (metadata_table n2) = <[sa_account act := m']> (tbl_view (metadata_table n))) as EM by apply tbl_put_view.
  assert (grows n n2) as Hg by (unfold grows; rewrite EM, map_size_insert_Some; [lia|by exists m]).
  assert (forall k, users (tbl_view (metadata_table n2)) k = users (tbl_view (metadata_table n)) k) as Hu.
  { intros k. unfold users. rewrite EM, (map_sum_replace _ _ _ m) by done. change (uses k m') with (uses k m). lia. }
  assert (native_ok n2) as Hok2.
  { destruct Hok as [Htree Hrows Hstd Hcodes Habi Hauth Hgen]. unfold native_ok. split; [done| | | | |done|done].
    - intros a. rewrite EA, EM, !lookup_insert_is_Some'. by rewrite Hrows.
    - intros a Ha. apply Hstd. rewrite EA, lookup_insert_is_Some' in Ha. destruct Ha as [<-|]; [by eexists|done].
    - eapply codes_ok_ext; [|exact Hcodes]. by intros k _.
    - intros a y. rewrite EA. intros [[<- <-]|[_ Hy]]%lookup_insert_Some; [lia|by eapply Habi]. }
  assert (forall a, native_billed n2 a = native_billed n a + (if sa_account act =? a
    then Z.of_nat (length (sa_abi act)) - Z.of_nat (length (abi y0)) else 0)) as Hbill.
  { intros a. unfold native_billed, account_bill. rewrite EA. change (auth n2) with (auth n).
    assert (code_of (tbl_view (metadata_table n2)) (tbl_view (codes n2)) a
      = code_of (tbl_view (metadata_table n)) (tbl_view (codes n)) a) as ->.
    { unfold code_of. rewrite EM. destruct (decide (sa_account act = a)) as [<-|Hne];
        [by rewrite lookup_insert_eq, Hm|by rewrite lookup_insert_ne]. }
    destruct (Z.eqb_spec (sa_account act) a) as [<-|Hne].
    - rewrite lookup_insert_eq, Hx, Hx'. lia.
    - rewrite lookup_insert_ne by done. lia. }
  destruct (Z.eqb_spec (Z.of_nat (length (sa_abi act))) (Z.of_nat (length (abi y0)))) as [E|E]; cbn [negb] in Hrun.
  - injection Hrun as _ <-. apply free_step; [done|exact Hg|by apply links_kept_same|done..|]. intros a. rewrite Hbill, E. destruct (_ =? a); lia.
  - eapply charge_step; [exact Hok2|exact Hg|by apply links_kept_same|done|done| |exact Hbill|exact Hrun]. lia.
Qed.

(** ** updateauth *)

Lemma check_authority_account_id x (n : native) u n' : check_authority_account x n = (Ok u, n') -> n' = n.
Proof.
  intros Hrun. unfold check_authority_account in Hrun. do 2 exec_step Hrun.
  destruct (_ || _); [by injection Hrun|]. destruct (_ =? eosio_code_name); [by injection Hrun|].
  destruct (get_permission _ _) as [p|e]; [by injection Hrun|]. by destruct e.
Qed.

Lemma for_each_id {S A} (l : list A) (body : A -> exec S unit) s u s' :
  (forall x s u s', body x s = (Ok u, s') -> s' = s) -> for_each l body s = (Ok u, s') -> s' = s.
Proof.
  intros Hb. revert s. induction l as [|x l IH]; intros s Hrun; [by injection Hrun|].
  cbn in Hrun. exec_step Hrun. apply Hb in R as ->. by apply IH.
Qed.

Lemma precondition_id a (n n' : native) u : validate_authority_precondition env a n = (Ok u, n') -> n' = n.
Proof.
  intros Hrun. unfold validate_authority_precondition in Hrun. exec_step Hrun.
  apply (for_each_id _ _ _ _ _ check_authority_account_id) in R as ->.
  destruct (enforcing_key_list env); [|by injection Hrun].
  eapply for_each_id; [|exact Hrun]. intros k s v s' [_ ->]%lift_ok. done.
Qed.

(** A row that stands for another in the tree of permissions. *)
Definition same_place (x x' : permission_object K) : Prop :=
  perm_id x' = perm_id x /\ perm_owner x' = perm_owner x /\ perm_name x' = perm_name x /\ perm_parent x' = perm_parent x.

Lemma standard_mono (d d' : auth_tables) a :
  (forall i x, perms d !! i = Some x -> perm_name x = owner_name \/ perm_name x = active_name ->
     exists x', perms d' !! i = Some x' /\ same_place x x') ->
  standard d a -> standard d' a.
Proof.
  intros Hm (o & p & Ho & Oo & On & Op & Hp & Po & Pn & Pp).
  destruct (Hm _ _ Ho (or_introl On)) as (o' & Ho' & Io & Wo & No & Fo).
  destruct (Hm _ _ Hp (or_intror Pn)) as (p' & Hp' & Ip & Wp & Np & Fp).
  exists o', p'. rewrite Io, Ip. by split_and!; congruence.
Qed.

(** A handler that works on the authorization tables only. *)
Lemma auth_only_ok (n : native) d' :
  native_ok n -> tree_ok d' -> (forall a, standard (auth n) a -> standard d' a) ->
  (forall i p, perms d' !! i = Some p -> auth_size (perm_auth p) < 2 ^ 40) ->
  (forall i g, tbl_view (generated d') !! i = Some g -> tbl_view (generated (auth n)) !! i = Some g) ->
  native_ok (set_auth d' n).
Proof.
  intros [_ Hrows Hstd Hcodes Habi _ Hgen] Ht Hs Hauth Hg.
  split; [done|done| |done|done|done|]; [intros a Ha; by apply Hs, Hstd|intros i g Hi; by eapply Hgen, Hg].
Qed.

Lemma auth_only_charge (n : native) d' p d u n' :
  native_ok (set_auth d' n) -> links_kept n (set_auth d' n) -> ram_typed (context n) -> - 2 ^ 63 < d < 2 ^ 63 ->
  (forall a, auth_billed d' a = auth_billed (auth n) a + (if p =? a then d else 0)) ->
  in_context (add_ram_usage p d) (set_auth d' n) = (Ok u, n') -> native_step n n'.
Proof.
  intros Hok Hlk Hty Hd Hb Hrun. eapply charge_step; [exact Hok|unfold grows; cbn; lia|exact Hlk|done|exact Hty|exact Hd| |exact Hrun].
  intros a. specialize (Hb a). unfold native_billed. change (auth (set_auth d' n)) with d'. cbn [accounts_table metadata_table codes set_auth]. lia.
Qed.

(** A permission enters the books, changes or leaves them. *)
Lemma billed_insert (d d' : auth_tables) i p a :
  perms d' = <[i := p]> (perms d) -> perms d !! i = None -> permissions_only d d' ->
  auth_billed d' a = auth_billed d a + (if perm_owner p =? a then permission_billable_size + auth_size (perm_auth p) else 0).
Proof.
  intros Hp Hi [El Eg]. unfold auth_billed. rewrite Hp, El, Eg, map_sum_insert by done. unfold permission_bill at 1. lia.
Qed.

Lemma billed_replace (d d' : auth_tables) i p p' a :
  perms d' = <[i := p']> (perms d) -> perms d !! i = Some p -> permissions_only d d' -> perm_owner p' = perm_owner p ->
  auth_billed d' a = auth_billed d a + (if perm_owner p =? a then auth_size (perm_auth p') - auth_size (perm_auth p) else 0).
Proof.
  intros Hp Hi [El Eg] Ho. unfold auth_billed. rewrite Hp, El, Eg, (map_sum_replace _ _ _ p) by done.
  unfold permission_bill at 2 3. rewrite Ho. destruct (perm_owner p =? a); lia.
Qed.

Lemma billed_delete (d d' : auth_tables) i p a :
  perms d' = delete i (perms d) -> perms d !! i = Some p -> permissions_only d d' ->
  auth_billed d' a = auth_billed d a + (if perm_owner p =? a then - (permission_billable_size + auth_size (perm_auth p)) else 0).
Proof.
  intros Hp Hi [El Eg]. unfold auth_billed. rewrite Hp, El, Eg, (map_sum_delete _ _ _ p) by done.
  unfold permission_bill at 2. destruct (perm_owner p =? a); lia.
Qed.

(** create_permission as the handlers call it. *)
Lemma create_ok now account name parent a (d d' : auth_tables) p q :
  tree_ok d -> create_permission now account name parent a 0 d = (Ok p, d') ->
  perms d !! parent = Some q -> (parent <> 0 -> perm_owner q = account) ->
  tree_ok d' /\ perms d' = <[perm_id p := p]> (perms d) /\ perms d !! perm_id p = None /\ permissions_only d d'
  /\ perm_owner p = account /\ perm_name p = name /\ perm_parent p = parent /\ perm_auth p = a
  /\ forall x, standard d x -> standard d' x.
Proof.
  intros Ht Hc Hq Ho. pose proof (create_permission_tree _ _ _ _ _ _ _ _ _ _ Ht Hc Hq Ho) as Ht'.
  apply create_permission_Ok in Hc as (Hp & Hrows & Hfresh & _ & _ & Honly).
  assert (perm_id p = next_permission_id d) as Eid by (by subst p). rewrite Eid.
  split_and!; [done..|by subst p|by subst p|by subst p|by subst p|].
  intros x. apply standard_mono. intros i y Hy _. exists y. split; [|done]. rewrite Hrows.
  rewrite lookup_insert_ne; [done|]. intros <-. congruence.
Qed.

(** The parent updateauth looks up. *)
Lemma update_parent_ok (update : updateauth K) (n n' : native) parent :
  native_ok n ->
  (if negb (ua_permission update =? owner_name) then
     do p <- lift (get_permission (auth n) (mk_level (ua_account update) (ua_parent update))); ret (perm_id p)
   else ret 0) n = (Ok parent, n') ->
  n' = n /\ exists q, perms (auth n) !! parent = Some q /\ (parent <> 0 -> perm_owner q = ua_account update).
Proof.
  intros Hok Hrun. destruct (negb _).
  - exec_step Hrun. injection Hrun as <- <-. split; [done|].
    apply get_permission_Ok in L as (Hq & _ & Ho & _); [|apply Hok]. by exists x.
  - injection Hrun as <- <-. split; [done|]. destruct (tree_reserved _ (so_tree _ _ _ _ Hok)) as (r & Hr & _ & _). by exists r.
Qed.

Lemma modify_step now p a (n n' : native) u :
  native_ok n -> ram_typed (context n) -> perms (auth n) !! perm_id p = Some p -> auth_size a < 2 ^ 40 ->
  (do _ <- in_auth (modify_permission now p a);
   in_context (add_ram_usage (perm_owner p) (i64 (i64 (permission_billable_size + auth_size a)
     - i64 (permission_billable_size + auth_size (perm_auth p)))))) n = (Ok u, n') -> native_step n n'.
Proof.
  intros Hok Hty Hp Ha Hrun. exec_step Hrun. apply zoom_ok in R as (d' & Hm & ->).
  pose proof (modify_permission_tree now a _ _ (so_tree _ _ _ _ Hok) Hp) as Ht. rewrite Hm in Ht. cbn [snd] in Ht.
  injection Hm as _ Ed. set (p' := mk_permission _ _ _ _ _ _ _) in Ed.
  assert (perms d' = <[perm_id p := p']> (perms (auth n))) as Ep by (rewrite <- Ed; apply tbl_put_view).
  pose proof (so_auth _ _ _ _ Hok _ _ Hp) as Hp0.
  rewrite !permission_size_fits in Hrun by done.
  pose proof (auth_size_nonneg a). pose proof (auth_size_nonneg (perm_auth p)).
  change permission_billable_size with 288 in Hrun. rewrite i64_small in Hrun by (unfold is_int64; lia).
  eapply auth_only_charge; [| |done| | |exact Hrun]; [| |lia|].
  2:{ apply links_kept_mono; [by rewrite <- Ed|]. intros i y Hy. cbn [auth set_auth]. rewrite Ep. exists i.
      destruct (decide (perm_id p = i)) as [<-|Hne]; [exists p'; by rewrite lookup_insert_eq; simplify_eq|].
      exists y. by rewrite lookup_insert_ne. }
  - apply auth_only_ok; [done|done|..|by intros i g; rewrite <- Ed].
    + intros z. apply standard_mono. intros i y Hy _. rewrite Ep.
      destruct (decide (perm_id p = i)) as [<-|Hne].
      * rewrite lookup_insert_eq. exists p'. by simplify_eq.
      * exists y. by rewrite lookup_insert_ne.
    + intros i y. rewrite Ep. intros [[_ <-]|[_ Hy]]%lookup_insert_Some; [done|by eapply (so_auth _ _ _ _ Hok)].
  - intros z. rewrite (billed_replace (auth n) d' (perm_id p) p p'); [|done|done|by rewrite <- Ed|done].
    change (perm_auth p') with a. destruct (_ =? z); lia.
Qed.

Lemma create_step now account name parent a q (n n' : native) u :
  native_ok n -> ram_typed (context n) -> auth_size a < 2 ^ 40 ->
  perms (auth n) !! parent = Some q -> (parent <> 0 -> perm_owner q = account) ->
  (do p <- in_auth (create_permission now account name parent a 0);
   in_context (add_ram_usage account (i64 (permission_billable_size + auth_size (perm_auth p))))) n = (Ok u, n') ->
  native_step n n'.
Proof.
  intros Hok Hty Ha Hq Ho Hrun. exec_step Hrun. apply zoom_ok in R as (d' & Hc & ->).
  destruct (create_ok _ _ _ _ _ _ _ _ _ (so_tree _ _ _ _ Hok) Hc Hq Ho)
    as (Ht & Ep & Hfresh & Honly & Hown & _ & _ & Hauth & Hstd).
  rewrite Hauth, permission_size_fits in Hrun by done. pose proof (auth_size_nonneg a).
  eapply auth_only_charge; [| |done| | |exact Hrun]; [| |change permission_billable_size with 288; lia|].
  2:{ apply links_kept_mono; [apply Honly|]. intros i y Hy. exists i, y. cbn [auth set_auth]. rewrite Ep.
      rewrite lookup_insert_ne; [done|]. intros <-. congruence. }
  - apply auth_only_ok; [done|done|done|..].
    + intros i y. rewrite Ep. intros [[_ <-]|[_ Hy]]%lookup_insert_Some; [by rewrite Hauth|by eapply (so_auth _ _ _ _ Hok)].
    + intros i g. by rewrite (proj2 Honly).
  - intros y. rewrite (billed_insert _ _ _ _ _ Ep Hfresh Honly), Hown, Hauth. done.
Qed.

Lemma updateauth_step update (n n' : native) u :
  native_ok n -> ram_typed (context n) -> apply_eosio_updateauth env update n = (Ok u, n') -> native_step n n'.
Proof.
  intros Hok Hty Hrun. unfold apply_eosio_updateauth in Hrun.
  exec_step Hrun. apply require_ok in R as [-> _]. do 6 exec_step Hrun. exec_step Hrun. apply precondition_id in R as ->.
  do 3 exec_step Hrun. pose proof (validate_size _ C) as Hsize. injection R as <- <-.
  apply (update_parent_ok _ _ _ _ Hok) in R0 as (-> & q & Hq & Hqo).
  unfold find_permission in L3. apply res_bind_ok in L3 as (_ & _ & [= L3]).
  destruct x6 as [p|].
  - apply find_by_owner_Some in L3 as (i & Hi & _ & _). pose proof (tree_id _ (so_tree _ _ _ _ Hok) _ _ Hi) as [<- _].
    exec_step Hrun. by eapply modify_step.
  - by eapply create_step.
Qed.

(** ** deleteauth *)

Lemma remove_permission_other (d d' : auth_tables) p u :
  remove_permission p d = (Ok u, d') -> permissions_only d d'.
Proof.
  intros Hrun. unfold remove_permission in Hrun. do 4 exec_step Hrun. by injection Hrun as _ <-.
Qed.

Lemma is_linked_false (d : auth_tables) account p k :
  is_linked d account p = false -> tbl_view (links d) !! k = Some p -> fst (fst k) <> account.
Proof.
  unfold is_linked. intros Hf Hk E. apply tbl_rows_elem, list_elem_of_In in Hk.
  assert (existsb (fun kv => let '(a, _, _) := fst kv in (a =? account) && (snd kv =? p)) (tbl_rows (links d)) = true)
    as Ht; [|congruence].
  apply existsb_exists. eexists. split; [exact Hk|]. destruct k as [[a c] t]. cbn in *. subst a. by rewrite !Z.eqb_refl.
Qed.

Lemma deleteauth_step del (n n' : native) u :
  native_ok n -> ram_typed (context n) -> apply_eosio_deleteauth del n = (Ok u, n') -> native_step n n'.
Proof.
  intros Hok Hty Hrun. unfold apply_eosio_deleteauth in Hrun.
  exec_step Hrun. apply require_ok in R as [-> _]. do 5 exec_step Hrun. exec_step Hrun. bprop.
  apply zoom_ok in R as (d' & Hr & ->). pose proof (so_tree _ _ _ _ Hok) as Ht.
  pose proof (remove_permission_other _ _ _ _ Hr) as Honly.
  apply get_permission_Ok in L as (Hp & Hp0 & Hown & Hname); [|done]. cbn in Hown, Hname.
  destruct (remove_permission_tree _ _ _ _ Ht Hp Hp0 Hr) as [Ht' Ep].
  assert (perms d' = delete (perm_id x0) (perms (auth n))) as Ep' by (apply Ep; by destruct x1). clear Ep.
  pose proof (so_auth _ _ _ _ Hok _ _ Hp) as Hsz. pose proof (auth_size_nonneg (perm_auth x0)).
  rewrite permission_size_fits in Hrun by done.
  eapply auth_only_charge; [| |done| | |exact Hrun]; [| |change permission_billable_size with 288; lia|].
  2:{ intros _ Hres k req. cbn [auth set_auth]. rewrite (proj1 Honly). intros Hk.
      destruct (Hres _ _ Hk) as [Hany|(i & y & Hi & Ho & Hn)]; [by left|right]. exists i, y. split; [|done].
      rewrite Ep', lookup_delete_ne; [done|]. intros <-. simplify_eq. rewrite Hname in Hk.
      apply (is_linked_false _ (da_account del)) in Hk; [congruence|done]. }
  - apply auth_only_ok; [done|done|..|by intros i g; rewrite (proj2 Honly)].
    + intros x2. apply standard_mono. intros i y Hy Hn. exists y. split; [|done]. rewrite Ep', lookup_delete_ne; [done|].
      intros <-. simplify_eq. destruct Hn; congruence.
    + intros i y. rewrite Ep'. intros [_ Hy]%lookup_delete_Some. by eapply (so_auth _ _ _ _ Hok).
  - intros y. by rewrite (billed_delete _ _ _ _ _ Ep' Hp Honly), Hown.
Qed.

(** ** linkauth, unlinkauth and canceldelay *)

Lemma links_ok (n : native) t : native_ok n -> native_ok (set_auth (set_links t (auth n)) n).
Proof.
  intros Hok. apply auth_only_ok; [done| |done|apply Hok|done].
  apply (tree_ok_ext (auth n)); [done|done|apply Hok].
Qed.

(** A new or changed link whose requirement exists. *)
Lemma put_link_kept key req (n : native) :
  (req =? eosio_any_name) || requirement_exists env (auth n) (fst (fst key)) req = true ->
  links_kept n (set_auth (set_links (tbl_put key req (links (auth n))) (auth n)) n).
Proof.
  intros Hreq Hact Hres k r. cbn [auth set_auth links set_links]. rewrite tbl_put_view.
  intros [[<- <-]|[_ Hk]]%lookup_insert_Some; [|by apply Hres in Hk].
  apply orb_true_iff in Hreq as [Hany|He]; bprop; [by left|right]. unfold requirement_exists in He.
  rewrite Hact in He. bprop. destruct He as [p (i & Hi & Ho & Hn)%find_by_owner_Some]. by exists i, p.
Qed.

Lemma linkauth_step link (n n' : native) u :
  native_ok n -> ram_typed (context n) -> apply_eosio_linkauth env link n = (Ok u, n') -> native_step n n'.
Proof.
  intros Hok Hty Hrun. unfold apply_eosio_linkauth in Hrun.
  exec_step Hrun. exec_step Hrun. apply require_ok in R as [-> _]. do 4 exec_step Hrun.
  rewrite tbl_find_view in Hrun. set (key := (_, _, _)) in Hrun.
  destruct (tbl_view (links (auth n)) !! key) as [old|] eqn:El.
  - exec_step Hrun. injection Hrun as _ <-. apply free_step; [by apply links_ok|unfold grows; cbn; lia|by apply put_link_kept|done|done|].
    intros a. unfold native_billed, auth_billed. cbn [auth set_auth links set_links permissions generated accounts_table metadata_table codes].
    rewrite tbl_put_view, (map_ksum_replace _ _ _ old) by done. unfold link_bill. lia.
  - exec_step Hrun. injection R as _ <-. rewrite i64_small in Hrun by (vm_compute; split; congruence).
    eapply auth_only_charge; [| |done| | |exact Hrun]; [by apply links_ok|by apply put_link_kept|by vm_compute|].
    intros a. unfold auth_billed. cbn [links set_links permissions generated].
    rewrite tbl_put_view, map_ksum_insert by done. unfold link_bill at 1. cbn. lia.
Qed.

(** The charge comes first here. *)
Lemma charge_first (n : native) (f : auth_tables -> auth_tables) p d u n1 :
  native_ok (set_auth (f (auth n)) n) -> links_kept n (set_auth (f (auth n)) n) -> ram_typed (context n) -> - 2 ^ 63 < d < 2 ^ 63 ->
  (forall a, auth_billed (f (auth n)) a = auth_billed (auth n) a + (if p =? a then d else 0)) ->
  in_context (add_ram_usage p d) n = (Ok u, n1) -> native_step n (set_auth (f (auth n1)) n1).
Proof.
  intros Hok Hlk Hty Hd Hb (c' & Hadd & ->)%zoom_ok.
  change (set_auth (f (auth (set_context c' n))) (set_context c' n)) with (set_context c' (set_auth (f (auth n)) n)).
  eapply auth_only_charge; [exact Hok|exact Hlk|exact Hty|exact Hd|exact Hb|]. apply zoom_ok. by exists c'.
Qed.

Lemma unlinkauth_step unlink (n n' : native) u :
  native_ok n -> ram_typed (context n) -> apply_eosio_unlinkauth unlink n = (Ok u, n') -> native_step n n'.
Proof.
  intros Hok Hty Hrun. unfold apply_eosio_unlinkauth in Hrun.
  exec_step Hrun. apply require_ok in R as [-> _]. do 2 exec_step Hrun. bprop. exec_step Hrun. injection Hrun as _ <-.
  set (key := (_, _, _)) in *. rewrite tbl_find_view in C. destruct C as [old Hl].
  eapply (charge_first _ (fun d => set_links (tbl_remove key (links d)) d)); [by apply links_ok| |done| | |exact R];
    [|by vm_compute|].
  { intros _ Hres k req. cbn [auth set_auth links set_links]. rewrite tbl_remove_view. by intros [_ Hk%Hres]%lookup_delete_Some. }
  intros a. unfold auth_billed. cbn [links set_links permissions generated].
  rewrite tbl_remove_view, (map_ksum_delete _ _ _ old) by done. unfold link_bill at 2. cbn [fst key].
  rewrite i64_small by (by vm_compute; split; congruence). change (fst (fst key)) with (ul_account unlink).
  destruct (_ =? a); lia.
Qed.

Lemma find_generated_Some (d : auth_tables) sender sender_id i g :
  find_generated d sender sender_id = Some (i, g) ->
  tbl_view (generated d) !! i = Some g /\ gto_sender g = sender /\ gto_sender_id g = sender_id.
Proof.
  unfold find_generated. intros ([j kv] & Hf & E)%fmap_Some. cbn in E. subst kv.
  apply list_find_Some in Hf as (Hl & Hp & _). split; [|done]. apply tbl_rows_elem. by eapply list_elem_of_lookup_2.
Qed.

Lemma canceldelay_step cancel (n n' : native) u :
  native_ok n -> ram_typed (context n) -> apply_eosio_canceldelay cancel n = (Ok u, n') -> native_step n n'.
Proof.
  intros Hok Hty Hrun. unfold apply_eosio_canceldelay in Hrun.
  exec_step Hrun. apply require_ok in R as [-> _]. exec_step Hrun. injection Hrun as _ <-.
  unfold cancel_deferred_transaction in R. exec_step R. destruct (find_generated _ _ _) as [[i g]|] eqn:Eg.
  2:{ injection R as _ <-. apply free_step; [done|unfold grows; lia|by apply links_kept_same|done..]. }
  apply find_generated_Some in Eg as (Hg & _). pose proof (so_generated _ _ _ _ Hok _ _ Hg) as Hsz.
  do 2 exec_step R. injection R as _ <-.
  assert (i64 (u64 (- (generated_billable_size + Z.of_nat (length (gto_packed_trx g)))))
    = - (generated_billable_size + Z.of_nat (length (gto_packed_trx g)))) as E64.
  { change generated_billable_size with 272. set (sz := 272 + _). assert (0 < sz < 2 ^ 33) as Hx by (unfold sz; lia).
    unfold u64, i64, wrap. rewrite Zplus_mod_idemp_l, Z.mod_small; lia. }
  rewrite E64 in R0. eapply (charge_first _ (fun d => set_generated (tbl_remove i (generated d)) d)); [| |done| | |exact R0].
  2:{ by apply links_kept_mono; [|intros j y Hy; exists j, y]. }
  - apply auth_only_ok; [done| |done|apply Hok|].
    + apply (tree_ok_ext (auth n)); [done|done|apply Hok].
    + intros j g'. cbn [generated set_generated]. rewrite tbl_remove_view. by intros [_ ?]%lookup_delete_Some.
  - change generated_billable_size with 272. lia.
  - intros a. unfold auth_billed. cbn [links set_generated permissions generated].
    rewrite tbl_remove_view, (map_sum_delete _ _ _ g) by done. unfold generated_bill at 2. destruct (_ =? a); lia.
Qed.

(** ** newaccount *)

Lemma initialize_account_ok a (n n' : native) u :
  in_limits (Manager.initialize_account a) n = (Ok u, n') -> ram_typed (context n) ->
  exists lims, n' = set_context (set_ram (account_ram_deltas (context n)) lims (validate_ram_usage (context n)) (context n)) n
    /\ ram_typed (context n') /\ forall x, ram (context n') x = ram (context n) x.
Proof.
  intros (c' & (lims & Hi & ->)%zoom_ok & ->)%zoom_ok Hty. exists lims. split; [done|].
  unfold Manager.initialize_account, Manager.create_limits, Manager.create_usage in Hi. exec_step Hi.
  do 2 exec_step R. injection R as _ <-. do 2 exec_step Hi. injection Hi as _ <-.
  unfold tbl_create in L0. rewrite tbl_find_view in L0. cbn in L0.
  destruct (tbl_view (Manager.usage (resource_limits (context n))) !! a) eqn:Ea; [done|]. injection L0 as <-.
  split.
  - intros x1 v. cbn. rewrite tbl_put_view. intros [[_ <-]|[_ Hv]]%lookup_insert_Some; [unfold is_uint; cbn; lia|by eapply Hty].
  - intros x1. unfold ram. cbn. rewrite tbl_put_view. destruct (decide (a = x1)) as [<-|Hne];
      [by rewrite lookup_insert_eq, Ea|by rewrite lookup_insert_ne].
Qed.

Lemma create_account_rows_ok a (n n' : native) u :
  create_account_rows env a n = (Ok u, n') ->
  context n' = context n /\ auth n' = auth n /\ codes n' = codes n
  /\ tbl_view (accounts_table n) !! a = None /\ tbl_view (metadata_table n) !! a = None
  /\ tbl_view (accounts_table n') = <[a := mk_account (pending_block_time env) []]> (tbl_view (accounts_table n))
  /\ tbl_view (metadata_table n') = <[a := default_metadata]> (tbl_view (metadata_table n)).
Proof.
  intros Hrun. unfold create_account_rows in Hrun. do 4 exec_step Hrun. injection Hrun as _ <-.
  unfold tbl_create in L, L0. rewrite tbl_find_view in L; rewrite tbl_find_view in L0.
  destruct (tbl_view (accounts_table n) !! a) eqn:Ea; [done|]. destruct (tbl_view (metadata_table n) !! a) eqn:Em; [done|].
  injection L as <-. injection L0 as <-. cbn. rewrite !tbl_put_view. done.
Qed.

(** The tables after the rows of the account and its two permissions. *)
Lemma new_account_ok now name oa aa (n n1 : native) d1 d2 o p :
  native_ok n -> auth_size oa < 2 ^ 40 -> auth_size aa < 2 ^ 40 ->
  auth n1 = auth n -> codes n1 = codes n ->
  tbl_view (accounts_table n) !! name = None -> tbl_view (metadata_table n) !! name = None ->
  tbl_view (accounts_table n1) = <[name := mk_account (pending_block_time env) []]> (tbl_view (accounts_table n)) ->
  tbl_view (metadata_table n1) = <[name := default_metadata]> (tbl_view (metadata_table n)) ->
  create_permission now name owner_name 0 oa 0 (auth n1) = (Ok o, d1) ->
  create_permission now name active_name (perm_id o) aa 0 d1 = (Ok p, d2) ->
  native_ok (set_auth d2 n1) /\ links_kept n (set_auth d2 n1) /\ perm_auth o = oa /\ perm_auth p = aa
  /\ forall a, native_billed (set_auth d2 n1) a = native_billed n a
       + (if name =? a then 2048 + 2 * permission_billable_size + auth_size oa + auth_size aa else 0).
Proof.
  intros Hok Hoa Haa Eau Eco HA HM EA EM Ho Hp. pose proof Hok as [Htree Hrows Hstd Hcodes Habi Hauth Hgen].
  rewrite Eau in Ho. destruct (tree_reserved _ Htree) as (r & Hr & _).
  destruct (create_ok _ _ _ _ _ _ _ _ _ Htree Ho Hr) as (T1 & E1 & F1 & P1 & O1 & N1 & R1 & A1 & S1); [done|].
  assert (perms d1 !! perm_id o = Some o) as Ho1 by (by rewrite E1, lookup_insert_eq).
  destruct (create_ok _ _ _ _ _ _ _ _ _ T1 Hp Ho1) as (T2 & E2 & F2 & P2 & O2 & N2 & R2 & A2 & S2); [done|].
  split; [|split_and!; [|done|done|]].
  - split; cbn [auth set_auth accounts_table metadata_table codes]; [done|..]; rewrite ?EA, ?EM, ?Eco.
    + intros a. rewrite !lookup_insert_is_Some'. by rewrite Hrows.
    + intros a [<-|Ha]%lookup_insert_is_Some'; [|by apply S2, S1, Hstd]. exists o, p.
      rewrite E2, lookup_insert_eq, lookup_insert_ne by congruence. done.
    + eapply codes_ok_ext; [|exact Hcodes]. intros k Hk. unfold users. rewrite map_sum_insert by done.
      by rewrite uses_zero.
    + intros a x. intros [[_ <-]|[_ Hx]]%lookup_insert_Some; [cbn; lia|by eapply Habi].
    + intros i x. rewrite E2. intros [[_ <-]|[_ Hx]]%lookup_insert_Some; [by rewrite A2|]. revert Hx.
      rewrite E1. intros [[_ <-]|[_ Hx]]%lookup_insert_Some; [by rewrite A1|by eapply Hauth].
    + intros i g. rewrite (proj2 P2), (proj2 P1). apply Hgen.
  - apply links_kept_mono; cbn [auth set_auth]; [by rewrite (proj1 P2), (proj1 P1)|].
    intros i x Hx. exists i, x. rewrite E2, lookup_insert_ne, E1, lookup_insert_ne; [done|congruence|].
    intros <-. rewrite E1, lookup_insert_ne in F2; congruence.
  - intros a. unfold native_billed. cbn [auth set_auth accounts_table metadata_table codes].
    rewrite (billed_insert _ _ _ _ _ E2 F2 P2), (billed_insert _ _ _ _ _ E1 F1 P1), O1, O2, A1, A2, EA, EM, Eco.
    unfold account_bill, code_of. destruct (Z.eqb_spec name a) as [<-|Hne].
    + rewrite !lookup_insert_eq, HA, HM. cbn [mbind option_bind]. rewrite (no_code _ _ default_metadata Hcodes eq_refl). cbn [code_size fmap option_fmap option_map abi length]. lia.
    + rewrite !lookup_insert_ne by done. lia.
Qed.

Lemma newaccount_step create (n n' : native) u :
  native_ok n -> ram_typed (context n) -> apply_eosio_newaccount env create n = (Ok u, n') -> native_step n n'.
Proof.
  intros Hok Hty Hrun. unfold apply_eosio_newaccount in Hrun.
  exec_step Hrun. apply require_ok in R as [-> _]. do 4 exec_step Hrun. do 4 exec_step Hrun.
  apply validate_size in C, C0.
  exec_step Hrun. apply create_account_rows_ok in R as (Ec & Eau & Eco & HA & HM & EA & EM).
  exec_step Hrun. apply precondition_id in R as ->. exec_step Hrun. apply precondition_id in R as ->.
  exec_step Hrun. apply zoom_ok in R as (d1 & Ho & ->). exec_step Hrun. apply zoom_ok in R as (d2 & Hp & ->).
  destruct (new_account_ok _ _ _ _ _ _ _ _ _ _ Hok C C0 Eau Eco HA HM EA EM Ho Hp) as (Hok2 & Hlk & A1 & A2 & Hbill).
  exec_step Hrun. change (set_auth d2 (set_auth d1 s)) with (set_auth d2 s) in R.
  apply initialize_account_ok in R as (lims & Es & Hty0 & Hram); [|change (context (set_auth d2 s)) with (context s); by rewrite Ec].
  rewrite A1, A2 in Hrun. pose proof (auth_size_nonneg (na_owner create)). pose proof (auth_size_nonneg (na_active create)).
  rewrite i64_small in Hrun by (unfold is_int64; change permission_billable_size with 288; lia).
  eapply charge_after; [| | | | |exact Hty0| | |exact Hrun].
  - by rewrite Es.
  - rewrite Es. unfold grows. cbn [metadata_table set_context set_auth]. by rewrite EM, map_size_insert_None.
  - by rewrite Es.
  - rewrite Es. cbn [context set_context set_auth]. rewrite Ec. by eexists _, _, _.
  - intros a. rewrite Hram. cbn [context set_auth]. by rewrite Ec.
  - change permission_billable_size with 288. lia.
  - intros a. rewrite <- Hbill, Es. done.
Qed.

(** ** All the native actions *)

(** Action data of the size a transaction can carry. *)
Definition action_typed (a : @native_action K) : Prop :=
  match a with
  | SetCode x => Z.of_nat (length (sc_code x)) < 2 ^ 32
  | SetAbi x => Z.of_nat (length (sa_abi x)) < 2 ^ 32
  | _ => True
  end.

(** An action adds at most one account. *)
Definition accounts_roomy (k : nat) (n : native) : Prop :=
  Z.of_nat (size (tbl_view (metadata_table n))) + Z.of_nat k < 2 ^ 62.

Lemma apply_native_step a (n n' : native) u k :
  native_ok n -> ram_typed (context n) -> accounts_roomy (S k) n -> action_typed a ->
  apply_native env a n = (Ok u, n') -> native_step n n' /\ accounts_roomy k n'.
Proof.
  intros Hok Hty Hroom Ha Hrun. assert (native_step n n') as Hstep.
  { destruct a; cbn [apply_native action_typed] in *;
      eauto using newaccount_step, setabi_step, updateauth_step, deleteauth_step, linkauth_step, unlinkauth_step, canceldelay_step.
    unfold accounts_roomy in Hroom. eapply setcode_step; [done|done| |done|done]. lia. }
  split; [done|]. pose proof (ns_grows _ _ Hstep) as Hg. unfold grows in Hg. unfold accounts_roomy in *. lia.
Qed.
End Correctness.

Section Runs.
Import Authorization.
Context {K : Type} `{EqDecision K} {key_ops : KeyOps K} {hashing : CodeHash} {trim : Name.BoostTrim} {SF : SoftFloat}.
Context {TT TR TL TU : Type} `{HTT : !Table Z table_id_object TT} `{HTR : !Table Z row TR}.
Context `{HTL : !Table (bool * Z) Manager.resource_limits_object TL}
        `{HTU : !Table Z Manager.resource_usage_object TU}.
Context {TP TPU TLK TG TA TM TC : Type} {permission_index : Table Z (permission_object K) TP}
  {permission_usage_index : Table Z Z TPU} {permission_link_index : Table (Z * Z * Z) Z TLK}
  {generated_transaction_index : Table Z generated_transaction_object TG}
  {account_index : Table Z account_object TA} {account_metadata_index : Table Z account_metadata_object TM}
  {code_index : Table (Z * Z * Z) code_object TC}.
Abbreviation native := (@native_context TT TR TL TU TP TPU TLK TG TA TM TC).
Abbreviation auth_tables := (@auth_db TP TPU TLK TG).
Abbreviation perms d := (tbl_view (permissions d)).

(** Native actions one after the other, each with what the chain answers then. *)
Definition apply_natives (l : list (@environment K * @native_action K)) : exec native unit :=
  for_each l (fun ea => apply_native (fst ea) (snd ea)).

Lemma apply_natives_step l : forall n n' u,
  native_ok n -> ram_typed (context n) -> accounts_roomy (length l) n -> Forall (fun ea => action_typed (snd ea)) l ->
  apply_natives l n = (Ok u, n') -> native_ok n' /\ ram_typed (context n')
  /\ (exists deltas lims v, context n' = set_ram deltas lims v (context n))
  /\ forall a, ram (context n') a - ram (context n) a = native_billed n' a - native_billed n a.
Proof.
  unfold apply_natives. induction l as [|[e x] l IH]; intros n n' u Hok Hty Hroom Ht Hrun; cbn [for_each] in Hrun.
  - injection Hrun as _ <-. split_and!; [done|done| |intros; lia].
    exists (account_ram_deltas (context n)), (resource_limits (context n)), (validate_ram_usage (context n)).
    by destruct (context n).
  - apply Forall_cons in Ht as [Hx Ht]. exec_step Hrun. cbn [length] in Hroom.
    destruct (apply_native_step e x _ _ _ _ Hok Hty Hroom Hx R) as [[Hok1 (d1 & l1 & v1 & E1) Hty1 _ _ Hram] Hroom1].
    destruct (IH _ _ _ Hok1 Hty1 Hroom1 Ht Hrun) as (Hok' & Hty' & (d2 & l2 & v2 & E2) & Hram').
    split_and!; [done|done| |intros a; specialize (Hram a); specialize (Hram' a); lia].
    exists d2, l2, v2. rewrite E2, E1. done.
Qed.

(** C24: Whatever native actions run, the tables of the system account stay
    consistent: accounts and their metadata come in pairs, every account keeps
    an owner permission without parent and an active permission under it, the
    permissions form a tree, each stored code is filed under its hash and its
    reference count is the number of accounts that run it, so that code is
    neither dropped while in use nor kept when unused.  The contract tables are
    not touched. *)
Theorem native_tables_consistent l (n n' : native) u :
  native_ok n -> ram_typed (context n) -> accounts_roomy (length l) n -> Forall (fun ea => action_typed (snd ea)) l ->
  apply_natives l n = (Ok u, n') ->
  native_ok n' /\ table_ids (context n') = table_ids (context n) /\ indices (context n') = indices (context n).
Proof.
  intros Hok Hty Hroom Ht Hrun. destruct (apply_natives_step l n n' u Hok Hty Hroom Ht Hrun)
    as (Hok' & _ & (d & lims & v & E) & _). by rewrite E.
Qed.

(** C25: RAM is conserved by the native actions: every account's RAM usage moves by
    exactly the change in what it pays for, its account row and abi, ten times
    its code, its permissions, its links and its deferred transactions. *)
Theorem native_ram_conserved l (n n' : native) u :
  native_ok n -> ram_typed (context n) -> accounts_roomy (length l) n -> Forall (fun ea => action_typed (snd ea)) l ->
  apply_natives l n = (Ok u, n') ->
  forall a, ram (context n') a - ram (context n) a = native_billed n' a - native_billed n a.
Proof. intros Hok Hty Hroom Ht Hrun. by apply (apply_natives_step l n n' u). Qed.

(** setcode refines the assignment of one entry in the map from accounts to
    code: the account runs the given code, or none when it is empty, and every
    other account runs what it ran before, however the code is shared. *)
Theorem setcode_sets_code (env : @environment K) act (n n' : native) u :
  native_ok n -> ram_typed (context n) -> accounts_roomy 1 n -> Z.of_nat (length (sc_code act)) < 2 ^ 32 ->
  apply_eosio_setcode env act n = (Ok u, n') ->
  forall a, code_of (tbl_view (metadata_table n')) (tbl_view (codes n')) a =
    if a =? sc_account act then (if 0 <? Z.of_nat (length (sc_code act)) then Some (sc_code act) else None)
    else code_of (tbl_view (metadata_table n)) (tbl_view (codes n)) a.
Proof.
  intros Hok Hty Hroom Hlen Hrun. unfold accounts_roomy in Hroom. eapply setcode_step; [done|done| |done|done]. lia.
Qed.

(** C26: Once only_link_to_existing_permission is active, no native action makes a
    link dangle: linkauth requires a permission of the account itself, and
    deleteauth refuses to remove a permission that is linked to. *)
Theorem links_never_dangle (env : @environment K) a (n n' : native) u :
  native_ok n -> ram_typed (context n) -> accounts_roomy 1 n -> action_typed a ->
  only_link_to_existing_permission_active env = true -> links_resolve (auth n) ->
  apply_native env a n = (Ok u, n') -> links_resolve (auth n').
Proof.
  intros Hok Hty Hroom Ha Hact Hres Hrun. destruct (apply_native_step env a n n' u 0 Hok Hty Hroom Ha Hrun) as [Hstep _].
  by apply (ns_links _ _ _ Hstep).
Qed.
End Runs.
