(* ===== verification/NativeExamples.v ===== *)
(** Concrete runs of the native actions: a database with one account, which
    creates another one, and the theorems of NativeActions.v at work. *)

From Stdlib Require Import ZArith Lia.
From stdpp Require Import base gmap countable strings numbers sorting list.
From S2P Require Import Prelude Chainbase Name Authority AuthorityChecker AuthorizationManager ResourceLimits IteratorCache ContractTables ContractInvariant ContractExamples EosioContract NativeActions.

#[local] Open Scope Z_scope.
#[local] Open Scope chain_scope.
Import Authorization Authorization.Examples.

#[local] Existing Instance Name.boost_trim_reference.
#[local] Existing Instance integer_floats.

#[local] Instance toy_keys : KeyOps nat.
Proof. refine {| key_lt := Nat.ltb; key_pack_size := fun _ => 34 |}. lia. Defined.

(** A hash without collisions. *)
#[local] Instance toy_hash : CodeHash.
Proof.
  refine {| sha256 := fun l => Zpos (encode l); wasm_validate := fun _ => Ok tt |}.
  - intros a b [= E]. by apply (inj encode).
  - done.
Defined.

Definition eosio : Z := Eval vm_compute in N_ "eosio".
Definition alice : Z := Eval vm_compute in N_ "alice".
Definition trade : Z := Eval vm_compute in N_ "trade".

Definition toy_env : environment := mk_environment (K := nat) 1000 7 3888000 true true [99%nat].

Abbreviation toy_native := (@native_context (gmap Z table_id_object) (gmap Z row)
  (gmap (bool * Z) Manager.resource_limits_object) (gmap Z Manager.resource_usage_object)
  (gmap Z (permission_object nat)) (gmap Z Z) (gmap (Z * Z * Z) Z) (gmap Z generated_transaction_object)
  (gmap Z account_object) (gmap Z account_metadata_object) (gmap (Z * Z * Z) code_object)).

Definition native_start : @apply_context (gmap Z table_id_object) (gmap Z row)
    (gmap (bool * Z) Manager.resource_limits_object) (gmap Z Manager.resource_usage_object) :=
  mk_context eosio eosio [mk_level eosio active_name; mk_level alice active_name] true true true ∅ 0 (fun _ => no_rows) ∅
    (Manager.set_usage (<[eosio := Manager.default_usage]> ∅) (Manager.initialize_database ∅ ∅)) ∅.

(** No account; the reserved permission. *)
Definition reserved_db : toy_db := snd (initialize_database empty_db).
Definition no_accounts : toy_native := mk_native native_start reserved_db ∅ ∅ ∅.

(** The account eosio. *)
Definition owner_row := create_permission (K := nat) (TL := gmap (Z * Z * Z) Z) (TG := gmap Z generated_transaction_object)
  (TP := gmap Z (permission_object nat)) (TU := gmap Z Z) 1000 eosio owner_name 0 (by_key 1) 0 reserved_db.
Definition active_row := create_permission (K := nat) (TL := gmap (Z * Z * Z) Z) (TG := gmap Z generated_transaction_object)
  (TP := gmap Z (permission_object nat)) (TU := gmap Z Z) 1000 eosio active_name 1 (by_key 1) 0 (snd owner_row).
Definition bare_account : toy_native :=
  mk_native native_start reserved_db (<[eosio := mk_account 1000 []]> ∅) (<[eosio := default_metadata]> ∅) ∅.
Definition one_account : toy_native := set_auth (snd active_row) bare_account.

Lemma no_accounts_ok : native_ok no_accounts.
Proof.
  assert (tbl_view (permissions reserved_db) = {[0 := mk_permission 0 0 0 0 0 0 empty_authority]}) as E by vm_refl.
  split; cbn [auth accounts_table metadata_table codes no_accounts].
  - by apply (initialize_database_tree empty_db).
  - intros a. split; intros [? [=]].
  - intros a [x [=]].
  - split; [intros k c [=]|]. done.
  - intros a x [=].
  - intros i p Hp. rewrite E in Hp. apply lookup_singleton_Some in Hp as [_ <-]. by vm_compute.
  - intros i g [=].
Qed.

Lemma one_account_ok : native_ok one_account.
Proof.
  eapply (new_account_ok toy_env 1000 eosio (by_key 1) (by_key 1) no_accounts bare_account (snd owner_row) (snd active_row)
    (mk_permission 1 0 0 eosio owner_name 1000 (by_key 1)) (mk_permission 2 1 1 eosio active_name 1000 (by_key 1))
    no_accounts_ok); [by vm_compute|by vm_compute|done|done|done|done|done|done|vm_refl|vm_refl].
Qed.

Lemma one_account_typed : ram_typed (context one_account).
Proof.
  intros a u. cbn. intros [[_ <-]|[_ H]]%lookup_insert_Some; [unfold is_uint; cbn; lia|done].
Qed.

(** eosio creates alice; both run the same code, alice clears hers; alice adds,
    links, unlinks and deletes a permission of her own. *)
Definition native_session : list (@environment nat * @native_action nat) :=
  (fun a => (toy_env, a)) <$>
  [ NewAccount (mk_newaccount eosio alice (by_key 2) (by_key 3));
    SetCode (mk_setcode alice 0 0 [1; 2; 3]); SetCode (mk_setcode eosio 0 0 [1; 2; 3]); SetAbi (mk_setabi alice [9; 9]);
    UpdateAuth (mk_updateauth alice trade active_name (by_key 4));
    LinkAuth (mk_linkauth alice eosio trade trade);
    SetCode (mk_setcode alice 0 0 []);
    UnlinkAuth (mk_unlinkauth alice eosio trade); DeleteAuth (mk_deleteauth alice trade) ].

Definition native_after (k : nat) : toy_native := snd (apply_natives (take k native_session) one_account).

Lemma native_session_returns k : (k <= 9)%nat -> apply_natives (take k native_session) one_account = (Ok tt, native_after k).
Proof.
  intros Hk. assert (fst (apply_natives (take k native_session) one_account) = Ok tt) as <-; [|apply surjective_pairing].
  do 10 (destruct k as [|k]; [vm_refl|]). lia.
Qed.

Lemma native_session_typed : Forall (fun ea => action_typed (snd ea)) native_session.
Proof. repeat constructor; cbn; lia. Qed.

Lemma native_session_roomy : accounts_roomy (length native_session) one_account.
Proof. by vm_compute. Qed.

Lemma native_session_ok k : (k <= 8)%nat -> native_ok (native_after k) /\ ram_typed (context (native_after k)) .
Proof.
  intros Hk. destruct (apply_natives_step (take k native_session) one_account (native_after k) tt) as (Hok & Hty & _).
  - apply one_account_ok.
  - apply one_account_typed.
  - pose proof native_session_roomy as Hr. unfold accounts_roomy in *. rewrite length_take. lia.
  - apply Forall_take, native_session_typed.
  - apply native_session_returns. lia.
  - done.
Qed.

Lemma native_tables_consistent_witness : native_ok (native_after 9).
Proof.
  apply (native_tables_consistent native_session one_account (native_after 9) tt one_account_ok one_account_typed
           native_session_roomy native_session_typed (native_session_returns 9 (le_n 9))).
Defined.

(** alice pays for her account row, abi and two permissions: the permission and
    the link she removed are refunded, and so is the code she cleared, which
    eosio still runs. *)
Lemma native_ram_conserved_witness :
  ram (context (native_after 9)) alice - ram (context one_account) alice
    = native_billed (native_after 9) alice - native_billed one_account alice
  /\ ram (context (native_after 9)) alice = 2048 + 2 + 2 * (288 + 50).
Proof.
  split; [|vm_refl]. apply (native_ram_conserved native_session one_account (native_after 9) tt one_account_ok
    one_account_typed native_session_roomy native_session_typed (native_session_returns 9 (le_n 9))).
Defined.

Lemma step_returns k ea :
  (k <= 8)%nat -> native_session !! k = Some ea ->
  apply_native (fst ea) (snd ea) (native_after k) = (Ok tt, native_after (S k)).
Proof.
  intros Hk Hea. pose proof (native_session_returns (S k) ltac:(lia)) as Hr. rewrite (take_S_r _ _ _ Hea) in Hr.
  unfold apply_natives in Hr. rewrite for_each_app in Hr. apply bind_ok in Hr as ([] & s & H1 & H2).
  pose proof (native_session_returns k ltac:(lia)) as Hr. unfold apply_natives in Hr. rewrite Hr in H1. injection H1 as <-.
  cbn in H2. by apply bind_ok in H2 as ([] & s & H1 & [= <-]).
Qed.

(** Clearing alice's code leaves the code eosio shares with her. *)
Lemma setcode_sets_code_witness :
  code_of (tbl_view (metadata_table (native_after 7))) (tbl_view (codes (native_after 7))) eosio = Some [1; 2; 3].
Proof.
  rewrite (setcode_sets_code toy_env (mk_setcode alice 0 0 []) (native_after 6) (native_after 7) tt).
  - vm_refl.
  - apply native_session_ok. lia.
  - apply native_session_ok. lia.
  - by vm_compute.
  - cbn. lia.
  - apply (step_returns 6 (toy_env, SetCode (mk_setcode alice 0 0 []))); [lia|done].
Defined.

Lemma links_never_dangle_witness : links_resolve (auth (native_after 6)).
Proof.
  apply (links_never_dangle toy_env (LinkAuth (mk_linkauth alice eosio trade trade)) (native_after 5) (native_after 6) tt).
  - apply native_session_ok. lia.
  - apply native_session_ok. lia.
  - by vm_compute.
  - done.
  - done.
  - intros k req. assert (tbl_view (links (auth (native_after 5))) = ∅) as -> by vm_refl. by rewrite lookup_empty.
  - apply (step_returns 5 (toy_env, LinkAuth (mk_linkauth alice eosio trade trade))); [lia|done].
Defined.
