(* ===== verification/ChainConfig.v ===== *)
(** The producer-voted configuration: chain_config.hpp, chain_config.cpp. *)

From Stdlib Require Import ZArith Lia.
From stdpp Require Import base numbers list.
From S2P Require Import Prelude.

#[local] Open Scope Z_scope.
#[local] Open Scope chain_scope.

Record chain_config := mk_chain_config {
  max_block_net_usage : Z;
  target_block_net_usage_pct : Z;
  max_transaction_net_usage : Z;
  base_per_transaction_net_usage : Z;
  net_usage_leeway : Z;
  context_free_discount_net_usage_num : Z;
  context_free_discount_net_usage_den : Z;
  max_block_cpu_usage : Z;
  target_block_cpu_usage_pct : Z;
  max_transaction_cpu_usage : Z;
  min_transaction_cpu_usage : Z;
  max_transaction_lifetime : Z;
  deferred_trx_expiration_window : Z;
  max_transaction_delay : Z;
  max_inline_action_size : Z;
  max_inline_action_depth : Z;
  max_authority_depth : Z
}.

(** The C++ types of the members. *)
Definition config_typed (c : chain_config) : Prop :=
  is_uint 64 (max_block_net_usage c)
  /\ Forall (fun f => is_uint 32 (f c))
       [target_block_net_usage_pct; max_transaction_net_usage; base_per_transaction_net_usage; net_usage_leeway;
        context_free_discount_net_usage_num; context_free_discount_net_usage_den; max_block_cpu_usage;
        target_block_cpu_usage_pct; max_transaction_cpu_usage; min_transaction_cpu_usage; max_transaction_lifetime;
        deferred_trx_expiration_window; max_transaction_delay; max_inline_action_size]
  /\ is_uint 16 (max_inline_action_depth c) /\ is_uint 16 (max_authority_depth c).

Definition percent_100 : Z := 10000.
Definition percent_1 : Z := 100.
Definition min_net_usage_delta_between_base_and_max_for_trx : Z := 10 * 1024.

(** The differences are of type uint32_t. *)
Definition validate (c : chain_config) : res unit :=
  assert! (target_block_net_usage_pct c <=? percent_100) else action_validate_exception in
  assert! (percent_1 / 10 <=? target_block_net_usage_pct c) else action_validate_exception in
  assert! (target_block_cpu_usage_pct c <=? percent_100) else action_validate_exception in
  assert! (percent_1 / 10 <=? target_block_cpu_usage_pct c) else action_validate_exception in
  assert! (max_transaction_net_usage c <? max_block_net_usage c) else action_validate_exception in
  assert! (max_transaction_cpu_usage c <? max_block_cpu_usage c) else action_validate_exception in
  assert! (base_per_transaction_net_usage c <? max_transaction_net_usage c) else action_validate_exception in
  assert! (min_net_usage_delta_between_base_and_max_for_trx
           <=? u32 (max_transaction_net_usage c - base_per_transaction_net_usage c)) else action_validate_exception in
  assert! (0 <? context_free_discount_net_usage_den c) else action_validate_exception in
  assert! (context_free_discount_net_usage_num c <=? context_free_discount_net_usage_den c)
    else action_validate_exception in
  assert! (min_transaction_cpu_usage c <=? max_transaction_cpu_usage c) else action_validate_exception in
  assert! (max_transaction_cpu_usage c <? u32 (max_block_cpu_usage c - min_transaction_cpu_usage c))
    else action_validate_exception in
  assert! (1 <=? max_authority_depth c) else action_validate_exception in
  Ok tt.

(** operator ==, member by member as the two std::tie list them. *)
Definition config_eq (l r : chain_config) : bool :=
  forallb (fun f => f l =? f r)
    [max_block_net_usage; target_block_net_usage_pct; max_transaction_net_usage; base_per_transaction_net_usage;
     net_usage_leeway; context_free_discount_net_usage_num; context_free_discount_net_usage_den; max_block_cpu_usage;
     target_block_cpu_usage_pct; max_transaction_cpu_usage; max_transaction_cpu_usage; max_transaction_lifetime;
     deferred_trx_expiration_window; max_transaction_delay; max_inline_action_size; max_inline_action_depth;
     max_authority_depth].

(** What a validated configuration leaves room for: transactions within a
    block, with the time of one minimal transaction to spare. *)
Definition config_sane (c : chain_config) : Prop :=
  10 <= target_block_net_usage_pct c <= 10000 /\ 10 <= target_block_cpu_usage_pct c <= 10000
  /\ base_per_transaction_net_usage c + 10240 <= max_transaction_net_usage c < max_block_net_usage c
  /\ 0 < context_free_discount_net_usage_den c
  /\ context_free_discount_net_usage_num c <= context_free_discount_net_usage_den c
  /\ min_transaction_cpu_usage c <= max_transaction_cpu_usage c
  /\ max_transaction_cpu_usage c + min_transaction_cpu_usage c < max_block_cpu_usage c
  /\ 1 <= max_authority_depth c.

(** C31: validate accepts exactly the sane configurations: no 32-bit difference it
    compares wraps, and what it refuses it refuses with
    action_validate_exception. *)
Theorem validate_accepts_sane c :
  config_typed c -> (validate c = Ok tt <-> config_sane c) /\ (forall e, validate c = Throw e -> e = action_validate_exception).
Proof.
  unfold config_typed, is_uint. rewrite !Forall_cons. intros (_ & Ht & _ & _). decompose [and] Ht.
  assert (forall a b, 0 <= b < a -> a < 2 ^ 32 -> u32 (a - b) = a - b) as Hsub.
  { intros a b ? ?. unfold u32. apply wrap_small. unfold is_uint. lia. }
  split; [split|].
  - intros Hv. unfold validate in Hv. inv_res. bprop.
    change (percent_1 / 10) with 10 in *. unfold percent_100, min_net_usage_delta_between_base_and_max_for_trx in *.
    rewrite Hsub in * by lia. unfold config_sane. lia.
  - unfold config_sane. intros Hs. unfold validate. change (percent_1 / 10) with 10.
    unfold percent_100, min_net_usage_delta_between_base_and_max_for_trx. rewrite !Hsub by lia.
    repeat (match goal with |- res_bind (eos_assert ?b _) _ = _ => replace b with true by lia; cbn [eos_assert res_bind] end).
    done.
  - intros e He. unfold validate in He. repeat (inv_res_step; try done); congruence.
Qed.

Definition default_configuration : chain_config :=
  mk_chain_config (6 * 1024 * 1024) 1000 (3 * 1024 * 1024) 12 500 20 100 1200000 1000 900000 100
    3600 600 (45 * 24 * 3600) 4096 4 6.

Lemma validate_accepts_sane_witness : validate default_configuration = Ok tt /\ config_sane default_configuration.
Proof.
  assert (config_typed default_configuration) as Ht.
  { unfold config_typed, is_uint. rewrite !Forall_cons, Forall_nil. cbn. lia. }
  split; [vm_refl|]. apply (validate_accepts_sane _ Ht). vm_refl.
Defined.

(** operator == compares max_transaction_cpu_usage twice and
    min_transaction_cpu_usage never: it is equality of all the other members. *)
Theorem config_eq_ignores_min_cpu l r :
  config_eq l r = true <->
  exists m, r = mk_chain_config (max_block_net_usage l) (target_block_net_usage_pct l) (max_transaction_net_usage l)
    (base_per_transaction_net_usage l) (net_usage_leeway l) (context_free_discount_net_usage_num l)
    (context_free_discount_net_usage_den l) (max_block_cpu_usage l) (target_block_cpu_usage_pct l)
    (max_transaction_cpu_usage l) m (max_transaction_lifetime l) (deferred_trx_expiration_window l)
    (max_transaction_delay l) (max_inline_action_size l) (max_inline_action_depth l) (max_authority_depth l).
Proof.
  unfold config_eq. cbn [forallb]. rewrite !andb_true_iff, !Z.eqb_eq. split.
  - intros H. decompose [and] H. exists (min_transaction_cpu_usage r). destruct r; cbn in *; subst. reflexivity.
  - intros (m & ->). cbn. done.
Qed.
