(* ===== verification/AccessLists.v ===== *)
(** The white- and blacklists a producer configures: the members
    sender_avoids_whitelist_blacklist_enforcement, check_actor_list,
    check_contract_list and check_action_list of controller_impl
    (controller.cpp).

    A flat_set is its ascending sequence of elements. *)

From Stdlib Require Import ZArith Lia.
From stdpp Require Import base numbers sorting list.
From S2P Require Import Prelude.

#[local] Open Scope Z_scope.
#[local] Open Scope chain_scope.

(** The lists of controller::config. *)
Record access_lists := mk_access_lists {
  sender_bypass_whiteblacklist : list Z;
  actor_whitelist : list Z;
  actor_blacklist : list Z;
  contract_whitelist : list Z;
  contract_blacklist : list Z;
  action_blacklist : list (Z * Z)
}.

Definition is_flat_set (l : list Z) : Prop := StronglySorted Z.lt l.

Section Lists.
Context (conf : access_lists).

Definition sender_avoids_whitelist_blacklist_enforcement (sender : Z) : bool :=
  (0 <? Z.of_nat (length (sender_bypass_whiteblacklist conf))) && bool_decide (sender ∈ sender_bypass_whiteblacklist conf).

(** std::lower_bound( from, end, actor ): what is left from there. *)
Fixpoint lower_bound (from : list Z) (actor : Z) : list Z :=
  match from with
  | [] => []
  | x :: from' => if x <? actor then lower_bound from' actor else from
  end.

(** The for-loop of the whitelist; the result is [is_subset]. *)
Fixpoint whitelist_scan (from actors : list Z) : bool :=
  match actors with
  | [] => true
  | actor :: actors' =>
      match lower_bound from actor with
      | x :: next => if negb (x =? actor) then false else whitelist_scan next actors'
      | [] => false
      end
  end.

(** The for-loop of the blacklist; the result is [intersects]. *)
Fixpoint blacklist_scan (from actors : list Z) : bool :=
  match actors with
  | [] => false
  | actor :: actors' =>
      match lower_bound from actor with
      | [] => false
      | x :: next => if x =? actor then true else blacklist_scan (x :: next) actors'
      end
  end.

(** *cbegin() and *crbegin() of a set that is not empty. *)
Definition cbegin (l : list Z) : Z := default 0 (head l).
Definition crbegin (l : list Z) : Z := default 0 (last l).

Definition check_actor_list (actors : list Z) : res unit :=
  if Z.of_nat (length actors) =? 0 then Ok tt
  else if 0 <? Z.of_nat (length (actor_whitelist conf)) then
    let whitelist := actor_whitelist conf in
    let is_subset :=
      if (cbegin whitelist <=? cbegin actors) && (crbegin actors <=? crbegin whitelist)
      then whitelist_scan whitelist actors else false in
    assert! is_subset else actor_whitelist_exception in Ok tt
  else if 0 <? Z.of_nat (length (actor_blacklist conf)) then
    let blacklist := actor_blacklist conf in
    let intersects :=
      if (cbegin actors <=? crbegin blacklist) && (cbegin blacklist <=? crbegin actors)
      then blacklist_scan blacklist actors else false in
    assert! (negb intersects) else actor_blacklist_exception in Ok tt
  else Ok tt.

Definition check_contract_list (code : Z) : res unit :=
  if 0 <? Z.of_nat (length (contract_whitelist conf)) then
    assert! (bool_decide (code ∈ contract_whitelist conf)) else contract_whitelist_exception in Ok tt
  else if 0 <? Z.of_nat (length (contract_blacklist conf)) then
    assert! (bool_decide (code ∉ contract_blacklist conf)) else contract_blacklist_exception in Ok tt
  else Ok tt.

Definition check_action_list (code action : Z) : res unit :=
  if 0 <? Z.of_nat (length (action_blacklist conf)) then
    assert! (bool_decide ((code, action) ∉ action_blacklist conf)) else action_blacklist_exception in Ok tt
  else Ok tt.

(** ** The scans decide inclusion and intersection *)

Lemma flat_set_cons x l : is_flat_set (x :: l) <-> is_flat_set l /\ Forall (fun y => x < y) l.
Proof. unfold is_flat_set. split; [intros H; by apply StronglySorted_inv in H|]. intros [? ?]. by constructor. Qed.

Lemma lower_bound_flat from actor : is_flat_set from -> is_flat_set (lower_bound from actor).
Proof.
  induction from as [|x from IH]; [done|]. cbn. intros Hs. destruct (x <? actor); [|done].
  apply IH. by apply flat_set_cons in Hs as [? _].
Qed.

(** lower_bound drops exactly the elements below [actor]. *)
Lemma lower_bound_elem from actor y : is_flat_set from -> y ∈ lower_bound from actor <-> y ∈ from /\ actor <= y.
Proof.
  induction from as [|x from IH]; cbn; intros Hs.
  { split; [by intros ?%elem_of_nil|by intros [?%elem_of_nil _]]. }
  apply flat_set_cons in Hs as [Hs Hx]. rewrite elem_of_cons.
  destruct (Z.ltb_spec x actor); rewrite ?(IH Hs), ?elem_of_cons; [naive_solver lia|].
  rewrite Forall_forall in Hx. split; [|naive_solver]. intros Hy. split; [done|].
  destruct Hy as [-> |Hy]; [done|]. specialize (Hx _ Hy). lia.
Qed.

Lemma lower_bound_head from actor x next :
  is_flat_set from -> lower_bound from actor = x :: next ->
  actor <= x /\ (actor ∈ from <-> x = actor) /\ is_flat_set (x :: next)
  /\ forall y, actor < y -> y ∈ x :: next <-> y ∈ from.
Proof.
  intros Hs E. pose proof (lower_bound_flat _ actor Hs) as Hf. rewrite E in Hf.
  assert (forall y, y ∈ x :: next <-> y ∈ from /\ actor <= y) as He by (intros y; rewrite <- E; by apply lower_bound_elem).
  assert (x ∈ from /\ actor <= x) as [Hx Hle] by (apply He; by left).
  split; [done|]. split; [|split; [done|]].
  - split; [|by intros <-]. intros Ha. assert (actor ∈ x :: next) as Ha' by (apply He; split; [done|lia]).
    apply flat_set_cons in Hf as [_ Hf]. rewrite Forall_forall in Hf.
    apply elem_of_cons in Ha' as [-> |Hn]; [done|]. specialize (Hf _ Hn). lia.
  - intros y Hy. rewrite He. split; [tauto|]. intros ?. split; [done|lia].
Qed.

Lemma whitelist_scan_spec actors : forall from, is_flat_set actors -> is_flat_set from ->
  whitelist_scan from actors = true <-> forall a, a ∈ actors -> a ∈ from.
Proof.
  induction actors as [|actor actors IH]; intros from Ha Hf; cbn.
  { split; [by intros _ a ?%elem_of_nil|done]. }
  apply flat_set_cons in Ha as [Ha Hmin]. rewrite Forall_forall in Hmin.
  destruct (lower_bound from actor) as [|x next] eqn:E.
  - split; [done|]. intros H. specialize (H actor ltac:(by left)).
    assert (actor ∈ lower_bound from actor) as Hin by (apply lower_bound_elem; [done|split; [done|lia]]).
    rewrite E in Hin. by apply elem_of_nil in Hin.
  - destruct (lower_bound_head _ _ _ _ Hf E) as (_ & Hiff & Hs & Hrest).
    destruct (Z.eqb_spec x actor) as [-> |Hne]; cbn [negb].
    + apply flat_set_cons in Hs as [Hs Hnext]. rewrite Forall_forall in Hnext.
      rewrite (IH next Ha Hs). split.
      * intros H a [-> |Hin]%elem_of_cons; [by apply Hiff|]. apply Hrest; [by apply Hmin|]. right. by apply H.
      * intros H a Hin. specialize (Hmin _ Hin). specialize (H a ltac:(by right)). apply Hrest in H; [|done].
        apply elem_of_cons in H as [-> |]; [lia|done].
    + split; [done|]. intros H. exfalso. apply Hne, Hiff, H. by left.
Qed.

Lemma blacklist_scan_spec actors : forall from, is_flat_set actors -> is_flat_set from ->
  blacklist_scan from actors = true <-> exists a, a ∈ actors /\ a ∈ from.
Proof.
  induction actors as [|actor actors IH]; intros from Ha Hf; cbn.
  { split; [done|]. by intros (a & ?%elem_of_nil & _). }
  apply flat_set_cons in Ha as [Ha Hmin]. rewrite Forall_forall in Hmin.
  destruct (lower_bound from actor) as [|x next] eqn:E.
  - split; [done|]. intros (a & Hin & Hfrom). exfalso.
    assert (a ∈ lower_bound from actor) as H; [|rewrite E in H; by apply elem_of_nil in H].
    apply lower_bound_elem; [done|]. split; [done|]. apply elem_of_cons in Hin as [-> |Hin]; [lia|]. specialize (Hmin _ Hin). lia.
  - destruct (lower_bound_head _ _ _ _ Hf E) as (_ & Hiff & Hs & Hrest).
    destruct (Z.eqb_spec x actor) as [-> |Hne].
    + split; [|done]. intros _. exists actor. split; [by left|by apply Hiff].
    + rewrite (IH _ Ha Hs). split.
      * intros (a & Hin & Hx). exists a. split; [by right|]. apply Hrest; [by apply Hmin|done].
      * intros (a & [-> |Hin]%elem_of_cons & Hx); [by apply Hiff in Hx|]. exists a. split; [done|].
        apply Hrest; [by apply Hmin|done].
Qed.

Lemma flat_set_extents l a : is_flat_set l -> a ∈ l -> cbegin l <= a <= crbegin l.
Proof.
  unfold cbegin, crbegin. intros Hs Ha. split.
  - destruct l as [|x l]; [by apply elem_of_nil in Ha|]. cbn. apply flat_set_cons in Hs as [_ Hx].
    rewrite Forall_forall in Hx. apply elem_of_cons in Ha as [-> |Ha]; [lia|]. specialize (Hx _ Ha). lia.
  - revert a Ha. induction l as [|x l IH]; intros a Ha; [by apply elem_of_nil in Ha|]. apply flat_set_cons in Hs as [Hs Hx].
    destruct l as [|y l]; [apply list_elem_of_singleton in Ha as ->; cbn; lia|].
    change (last (x :: y :: l)) with (last (y :: l)). apply elem_of_cons in Ha as [-> |Ha]; [|by apply IH].
    rewrite Forall_forall in Hx. specialize (IH Hs).
    assert (y <= default 0 (last (y :: l))) as Hy by (apply IH; by left).
    specialize (Hx y ltac:(by left)). lia.
Qed.

Lemma blacklist_test l bl : l <> [] -> is_flat_set l -> is_flat_set bl ->
  (if (cbegin l <=? crbegin bl) && (cbegin bl <=? crbegin l) then blacklist_scan bl l else false)
  = existsb (fun a => bool_decide (a ∈ bl)) l.
Proof.
  intros Hl Ha Hb. apply eq_true_iff_eq. rewrite existsb_exists. split.
  - destruct (_ && _); [|done]. intros (a & H1 & H2)%blacklist_scan_spec; [|done..].
    exists a. split; [by apply list_elem_of_In|by rewrite bool_decide_true].
  - intros (a & H1%list_elem_of_In & H2). bprop.
    pose proof (flat_set_extents _ _ Ha H1). pose proof (flat_set_extents _ _ Hb H2).
    destruct (Z.leb_spec (cbegin l) (crbegin bl)); [|lia].
    destruct (Z.leb_spec (cbegin bl) (crbegin l)); [|lia]. cbn [andb].
    apply blacklist_scan_spec; [done..|]. by exists a.
Qed.

Lemma whitelist_test l wl : l <> [] -> is_flat_set l -> is_flat_set wl ->
  (if (cbegin wl <=? cbegin l) && (crbegin l <=? crbegin wl) then whitelist_scan wl l else false)
  = forallb (fun a => bool_decide (a ∈ wl)) l.
Proof.
  intros Hl Ha Hw. apply eq_true_iff_eq. rewrite forallb_forall. split.
  - destruct (_ && _); [|done]. intros Hscan a H1%list_elem_of_In. rewrite bool_decide_eq_true.
    by apply (proj1 (whitelist_scan_spec l wl Ha Hw)).
  - intros Hall. assert (forall a, a ∈ l -> a ∈ wl) as Hsub.
    { intros a H1%list_elem_of_In. specialize (Hall _ H1). by bprop. }
    assert (cbegin l ∈ l) as Hc by (destruct l; [done|]; by left).
    assert (crbegin l ∈ l) as Hr.
    { unfold crbegin. destruct (last l) as [z|] eqn:El; [|by apply last_None in El]. cbn. by apply last_Some_elem_of. }
    pose proof (flat_set_extents _ _ Hw (Hsub _ Hc)). pose proof (flat_set_extents _ _ Hw (Hsub _ Hr)).
    destruct (Z.leb_spec (cbegin wl) (cbegin l)); [|lia].
    destruct (Z.leb_spec (crbegin l) (crbegin wl)); [|lia]. cbn [andb]. by apply whitelist_scan_spec.
Qed.

Lemma length_positive {A} (l : list A) : (0 <? Z.of_nat (length l)) = match l with [] => false | _ => true end.
Proof. by destruct l. Qed.

(** The merge scan of check_actor_list, with its quick test of the extents, is
    the plain test: with a whitelist the call returns exactly when every actor is
    on it; without one, and with a blacklist, exactly when none is on it; and it
    throws the exception of the list that refused. *)
Theorem check_actor_list_spec actors :
  is_flat_set actors -> is_flat_set (actor_whitelist conf) -> is_flat_set (actor_blacklist conf) ->
  check_actor_list actors =
    if bool_decide (actors = []) then Ok tt
    else if negb (bool_decide (actor_whitelist conf = [])) then
      (if forallb (fun a => bool_decide (a ∈ actor_whitelist conf)) actors then Ok tt else Throw actor_whitelist_exception)
    else if existsb (fun a => bool_decide (a ∈ actor_blacklist conf)) actors then Throw actor_blacklist_exception
    else Ok tt.
Proof.
  intros Ha Hw Hb. unfold check_actor_list. rewrite !length_positive.
  destruct actors as [|a0 actors]; [done|]. rewrite bool_decide_false by done. cbn [length Z.of_nat Z.eqb].
  rewrite whitelist_test, blacklist_test by done. destruct (actor_whitelist conf) as [|w ws].
  - rewrite bool_decide_true by done. cbn [negb]. destruct (actor_blacklist conf) as [|b bs].
    + replace (existsb _ _) with false; [done|]. symmetry. apply not_true_is_false. rewrite existsb_exists.
      intros (x & _ & Hx). bprop. by apply elem_of_nil in Hx.
    + by destruct (existsb _ _).
  - rewrite bool_decide_false by done. cbn [negb]. by destruct (forallb _ _).
Qed.
End Lists.

Definition sample_lists : access_lists := mk_access_lists [] [2; 4; 6; 8] [] [] [] [].

Lemma check_actor_list_spec_witness :
  check_actor_list sample_lists [4; 8] = Ok tt /\ check_actor_list sample_lists [4; 5] = Throw actor_whitelist_exception.
Proof.
  assert (is_flat_set (actor_whitelist sample_lists)) as Hw by (repeat constructor).
  assert (is_flat_set (actor_blacklist sample_lists)) as Hb by constructor.
  split.
  - rewrite (check_actor_list_spec sample_lists [4; 8]); [vm_refl|repeat constructor|exact Hw|exact Hb].
  - rewrite (check_actor_list_spec sample_lists [4; 5]); [vm_refl|repeat constructor|exact Hw|exact Hb].
Defined.
