(* ===== verification/Transaction.v ===== *)
(** Transactions and how they are packed and signed: transaction.hpp,
    transaction.cpp.

    The packing of fc, sha256 and zlib are the class [TransactionFormat].  The
    cache of recovered keys is shared between threads: the clock readings and
    what other threads do to the cache while it is not locked are arguments. *)

From Stdlib Require Import ZArith Lia.
From stdpp Require Import base gmap countable numbers list.
From S2P Require Import Prelude Merkle Authority AuthorityChecker BlockHeader AuthorizationManager.

#[local] Open Scope Z_scope.
#[local] Open Scope chain_scope.
Import Authorization.

(** ** Data *)

Record transaction := mk_transaction {
  expiration : Z;                 (** seconds *)
  ref_block_num : Z;
  ref_block_prefix : Z;
  max_net_usage_words : Z;
  max_cpu_usage_ms : Z;
  delay_sec : Z;
  context_free_actions : list action;
  actions : list action;
  transaction_extensions : list (Z * bytes)
}.

(** transaction() *)
Definition empty_transaction : transaction := mk_transaction 0 0 0 0 0 0 [] [] [].

Definition transaction_authorizations (t : transaction) : list permission_level :=
  concat (act_authorization <$> actions t).

Definition first_authorizer (t : transaction) : Z :=
  match transaction_authorizations t with u :: _ => actor u | [] => 0 end.

Definition total_actions (t : transaction) : Z :=
  u32 (Z.of_nat (length (context_free_actions t)) + Z.of_nat (length (actions t))).

(** In uint32_t. *)
Definition get_ref_blocknum (t : transaction) (head_blocknum : Z) : Z :=
  u32 (u32 (head_blocknum / 0xffff * 0xffff) + head_blocknum mod 0xffff).

Definition validate_header (t : transaction) : res unit :=
  assert! (max_net_usage_words t <? UINT32_MAX / 8) else transaction_exception in Ok tt.

Record deferred_transaction_generation_context := mk_generation_context {
  sender_trx_id : Z;
  context_sender_id : Z;
  context_sender : Z
}.

Definition generation_context_id : Z := 0.
Definition generation_context_unique : bool := true.

Definition check_generation_context (c : deferred_transaction_generation_context) : res unit :=
  assert! (negb (context_sender c =? 0)) else ill_formed_deferred_transaction_generation_context in Ok tt.

(** ** What the code relies on *)

Class TransactionFormat {fc : Fc} := {
  signature_eq_dec :: EqDecision signature;
  (** digest_type::encoder, over the packed bytes written to it *)
  hash : bytes -> digest_type;
  (** a digest as the number its bytes spell *)
  digest_number : digest_type -> Z;
  (** fc::raw::pack and unpack *)
  pack_digest : digest_type -> bytes;
  pack_bytes : bytes -> bytes;
  pack_signatures : list signature -> bytes;
  pack_trx : transaction -> bytes;
  unpack_trx : bytes -> res transaction;
  unpack_pack_trx : forall t, unpack_trx (pack_trx t) = Ok t;
  pack_cfd : list bytes -> bytes;
  unpack_cfd : bytes -> res (list bytes);
  unpack_pack_cfd : forall l, unpack_cfd (pack_cfd l) = Ok l;
  (** the length of the vector is written *)
  pack_cfd_nonempty : forall l, pack_cfd l <> [];
  (** before its reflector_init hook *)
  pack_generation_context : deferred_transaction_generation_context -> bytes;
  unpack_generation_context : bytes -> res deferred_transaction_generation_context;
  unpack_pack_generation_context : forall c, unpack_generation_context (pack_generation_context c) = Ok c;
  (** boost's zlib filters: the compressed bytes; the pieces the decompressor
      writes, and whether it reaches the end of the stream without an error *)
  zlib_compressor : bytes -> bytes;
  zlib_decompressor : bytes -> list bytes * bool;
  (** a stream has a header *)
  zlib_nonempty : forall b, zlib_compressor b <> [];
  zlib_roundtrip : forall b, exists pieces, zlib_decompressor (zlib_compressor b) = (pieces, true) /\ concat pieces = b
}.

Section Transaction.
Context {fc : Fc} {format : TransactionFormat}.

Definition set_reference_block (reference_block : digest_type) (t : transaction) : transaction :=
  mk_transaction (expiration t) (u16 (num_from_id reference_block)) (u32 (_hash1 reference_block))
    (max_net_usage_words t) (max_cpu_usage_ms t) (delay_sec t) (context_free_actions t) (actions t)
    (transaction_extensions t).

Definition verify_reference_block (t : transaction) (reference_block : digest_type) : bool :=
  (ref_block_num t =? u16 (num_from_id reference_block)) && (ref_block_prefix t =? u32 (_hash1 reference_block)).

Definition id (t : transaction) : digest_type := hash (pack_trx t).

Definition sig_digest (chain_id : digest_type) (cfd : list bytes) (t : transaction) : digest_type :=
  hash (pack_digest chain_id ++ pack_trx t
        ++ pack_digest (match cfd with [] => digest_zero | _ => hash (pack_cfd cfd) end)).

(** ** Extensions *)

(** decompose<...>::extract, as for block headers. *)
Definition extract_trx_extension (i : Z) (data : bytes)
    : res (option (deferred_transaction_generation_context * bool)) :=
  if i =? generation_context_id then
    let! c := unpack_generation_context data in
    let! _ := check_generation_context c in
    Ok (Some (c, generation_context_unique))
  else Ok None.

Fixpoint extract_trx_loop (i : nat) (id_type_lower_bound : Z) (exts : list (Z * bytes))
    : res (list deferred_transaction_generation_context) :=
  match exts with
  | [] => Ok []
  | (ext_id, data) :: rest =>
      assert! (id_type_lower_bound <=? ext_id) else invalid_transaction_extension in
      let! m := extract_trx_extension ext_id data in
      match m with
      | None => Throw invalid_transaction_extension
      | Some (ext, unique) =>
          assert! (negb unique || (bool_decide (i = 0%nat) || (id_type_lower_bound <? ext_id)))
            else invalid_transaction_extension in
          let! results := extract_trx_loop (S i) ext_id rest in
          Ok (ext :: results)
      end
  end.

Definition validate_and_extract_extensions (t : transaction) : res (list deferred_transaction_generation_context) :=
  extract_trx_loop 0 0 (transaction_extensions t).

(** A transaction has no extension, or the context of its generation alone. *)
Lemma extensions_accepted t exts :
  validate_and_extract_extensions t = Ok exts ->
  (transaction_extensions t = [] /\ exts = [])
  \/ exists data c, transaction_extensions t = [(generation_context_id, data)]
       /\ unpack_generation_context data = Ok c /\ context_sender c <> 0 /\ exts = [c].
Proof.
  unfold validate_and_extract_extensions.
  destruct (transaction_extensions t) as [|[i data] rest]; cbn [extract_trx_loop]; [by intros [= <-]; left|].
  intros Hx. right. inv_res. unfold extract_trx_extension in *.
  destruct (Z.eqb_spec i generation_context_id) as [-> |]; [|inv_res; done]. inv_res.
  destruct rest as [|[j data'] rest]; cbn [extract_trx_loop] in *; inv_res.
  - unfold check_generation_context in *. inv_res. bprop. naive_solver.
  - exfalso. unfold extract_trx_extension in *. destruct (Z.eqb_spec j generation_context_id) as [-> |]; inv_res; done.
Qed.

(** ** Packed transactions *)

Record signed_transaction := mk_signed {
  st_trx : transaction;
  signatures : list signature;
  context_free_data : list bytes
}.

Definition none : Z := 0.
Definition zlib : Z := 1.

(** fc::enum_type<uint8_t,compression_type> may hold any byte. *)
Record packed_transaction := mk_packed {
  pt_signatures : list signature;
  compression : Z;
  packed_context_free_data : bytes;
  packed_trx : bytes;
  unpacked_trx : signed_transaction
}.

(** The fields that are packed; unpacked_trx is not. *)
Definition empty_signed : signed_transaction := mk_signed empty_transaction [] [].
Definition wire (p : packed_transaction) : list signature * Z * bytes * bytes :=
  (pt_signatures p, compression p, packed_context_free_data p, packed_trx p).

Definition fixed_net_overhead_of_packed_trx : Z := 16.

Definition get_unprunable_size (p : packed_transaction) : res Z :=
  let size := u64 (fixed_net_overhead_of_packed_trx + Z.of_nat (length (packed_trx p))) in
  assert! (size <=? UINT32_MAX) else tx_too_big in Ok (u32 size).

Definition get_prunable_size (p : packed_transaction) : res Z :=
  let size := u64 (Z.of_nat (length (pack_signatures (pt_signatures p)))
                   + Z.of_nat (length (packed_context_free_data p))) in
  assert! (size <=? UINT32_MAX) else tx_too_big in Ok (u32 size).

Definition packed_digest (p : packed_transaction) : digest_type :=
  let prunable := hash (pack_signatures (pt_signatures p) ++ pack_bytes (packed_context_free_data p)) in
  hash ([compression p] ++ pack_bytes (packed_trx p) ++ pack_digest prunable).

(** read_limiter<Limit>, over the pieces the decompressor writes. *)
Fixpoint limited_write (limit total : Z) (pieces : list bytes) : res bytes :=
  match pieces with
  | [] => Ok []
  | s :: pieces' =>
      let count := Z.of_nat (length s) in
      assert! (total + count <=? limit) else tx_decompression_error in
      let! out := limited_write limit (total + count) pieces' in
      Ok (s ++ out)
  end.

Definition decompressed_limit : Z := 1 * 1024 * 1024.

Definition zlib_decompress (data : bytes) : res bytes :=
  let '(pieces, complete) := zlib_decompressor data in
  let! out := limited_write decompressed_limit 0 pieces in
  if complete : bool then Ok out else Throw unhandled_exception.

Definition unpack_context_free_data (data : bytes) : res (list bytes) :=
  match data with [] => Ok [] | _ => unpack_cfd data end.

Definition unpack_transaction (data : bytes) : res transaction := unpack_trx data.

Definition zlib_decompress_context_free_data (data : bytes) : res (list bytes) :=
  match data with
  | [] => Ok []
  | _ => let! out := zlib_decompress data in unpack_context_free_data out
  end.

Definition zlib_decompress_transaction (data : bytes) : res transaction :=
  let! out := zlib_decompress data in unpack_transaction out.

Definition pack_transaction (t : transaction) : bytes := pack_trx t.

Definition pack_context_free_data (cfd : list bytes) : bytes :=
  match cfd with [] => [] | _ => pack_cfd cfd end.

Definition zlib_compress_context_free_data (cfd : list bytes) : bytes :=
  match cfd with [] => [] | _ => zlib_compressor (pack_context_free_data cfd) end.

Definition zlib_compress_transaction (t : transaction) : bytes := zlib_compressor (pack_transaction t).

Definition get_raw_transaction (p : packed_transaction) : res bytes :=
  if compression p =? none then Ok (packed_trx p)
  else if compression p =? zlib then zlib_decompress (packed_trx p)
  else Throw unknown_transaction_compression.

Definition set_unpacked (u : signed_transaction) (p : packed_transaction) : packed_transaction :=
  mk_packed (pt_signatures p) (compression p) (packed_context_free_data p) (packed_trx p) u.
Definition set_packed_cfd (b : bytes) (p : packed_transaction) : packed_transaction :=
  mk_packed (pt_signatures p) (compression p) b (packed_trx p) (unpacked_trx p).
Definition set_packed_trx (b : bytes) (p : packed_transaction) : packed_transaction :=
  mk_packed (pt_signatures p) (compression p) (packed_context_free_data p) b (unpacked_trx p).

Definition local_unpack_transaction (cfd : list bytes) (p : packed_transaction) : res packed_transaction :=
  let! t := (if compression p =? none then unpack_transaction (packed_trx p)
             else if compression p =? zlib then zlib_decompress_transaction (packed_trx p)
             else Throw unknown_transaction_compression) in
  Ok (set_unpacked (mk_signed t (pt_signatures p) cfd) p).

Definition local_unpack_context_free_data (p : packed_transaction) : res packed_transaction :=
  let u := unpacked_trx p in
  assert! (bool_decide (context_free_data u = [])) else tx_decompression_error in
  let! cfd := (if compression p =? none then unpack_context_free_data (packed_context_free_data p)
               else if compression p =? zlib then zlib_decompress_context_free_data (packed_context_free_data p)
               else Throw unknown_transaction_compression) in
  Ok (set_unpacked (mk_signed (st_trx u) (signatures u) cfd) p).

Definition local_pack_transaction (p : packed_transaction) : res packed_transaction :=
  if compression p =? none then Ok (set_packed_trx (pack_transaction (st_trx (unpacked_trx p))) p)
  else if compression p =? zlib then Ok (set_packed_trx (zlib_compress_transaction (st_trx (unpacked_trx p))) p)
  else Throw unknown_transaction_compression.

Definition local_pack_context_free_data (p : packed_transaction) : res packed_transaction :=
  let cfd := context_free_data (unpacked_trx p) in
  if compression p =? none then Ok (set_packed_cfd (pack_context_free_data cfd) p)
  else if compression p =? zlib then Ok (set_packed_cfd (zlib_compress_context_free_data cfd) p)
  else Throw unknown_transaction_compression.

(** The constructors, by what they are given. *)
Definition packed_of_signed (t : signed_transaction) (c : Z) : res packed_transaction :=
  let! p := local_pack_transaction (mk_packed (signatures t) c [] [] t) in
  local_pack_context_free_data p.

Definition packed_of_bytes (packed_txn : bytes) (sigs : list signature) (packed_cfd : bytes) (c : Z) : res packed_transaction :=
  let! p := local_unpack_transaction [] (mk_packed sigs c packed_cfd packed_txn empty_signed) in
  if negb (bool_decide (packed_context_free_data p = [])) then local_unpack_context_free_data p else Ok p.

Definition packed_of_bytes_cfd (packed_txn : bytes) (sigs : list signature) (cfd : list bytes) (c : Z) : res packed_transaction :=
  let! p := local_unpack_transaction cfd (mk_packed sigs c [] packed_txn empty_signed) in
  if negb (bool_decide (context_free_data (unpacked_trx p) = [])) then local_pack_context_free_data p else Ok p.

Definition packed_of_trx (t : transaction) (sigs : list signature) (packed_cfd : bytes) (c : Z) : res packed_transaction :=
  let! p := local_pack_transaction (mk_packed sigs c packed_cfd [] (mk_signed t sigs [])) in
  if negb (bool_decide (packed_context_free_data p = [])) then local_unpack_context_free_data p else Ok p.

(** The hook fc::raw::unpack calls once it has read the fields. *)
Definition packed_reflector_init (p : packed_transaction) : res packed_transaction :=
  assert! (expiration (st_trx (unpacked_trx p)) =? 0) else tx_decompression_error in
  let! p := local_unpack_transaction [] p in
  local_unpack_context_free_data p.

Definition unpack_packed (w : list signature * Z * bytes * bytes) : res packed_transaction :=
  let '(sigs, c, cfd, t) := w in packed_reflector_init (mk_packed sigs c cfd t empty_signed).

(** *** Round trips *)

Lemma limited_write_spec limit pieces : forall total, total <= limit ->
  limited_write limit total pieces
  = if total + Z.of_nat (length (concat pieces)) <=? limit then Ok (concat pieces) else Throw tx_decompression_error.
Proof.
  induction pieces as [|s pieces IH]; intros total Ht; cbn [limited_write concat].
  { cbn [length]. destruct (Z.leb_spec (total + Z.of_nat 0) limit); [done|lia]. }
  rewrite length_app, Nat2Z.inj_add. destruct (Z.leb_spec (total + Z.of_nat (length s)) limit); cbn [eos_assert res_bind].
  - rewrite IH by done. rewrite Z.add_assoc. by destruct (_ <=? limit).
  - destruct (Z.leb_spec (total + (Z.of_nat (length s) + Z.of_nat (length (concat pieces)))) limit); [lia|done].
Qed.

Lemma zlib_decompress_compressed b :
  zlib_decompress (zlib_compressor b)
  = if Z.of_nat (length b) <=? decompressed_limit then Ok b else Throw tx_decompression_error.
Proof.
  unfold zlib_decompress. destruct (zlib_roundtrip b) as (pieces & -> & <-).
  rewrite limited_write_spec by done. cbn [Z.add]. by destruct (_ <=? _).
Qed.

(** Whether the packed parts are small enough to be unpacked again. *)
Definition unpackable (t : signed_transaction) (c : Z) : bool :=
  (c =? none)
  || (Z.of_nat (length (pack_trx (st_trx t))) <=? decompressed_limit)
     && (bool_decide (context_free_data t = []) || (Z.of_nat (length (pack_cfd (context_free_data t))) <=? decompressed_limit)).

Lemma unpack_pack_context_free_data cfd : unpack_context_free_data (pack_context_free_data cfd) = Ok cfd.
Proof.
  destruct cfd as [|x cfd]; [done|]. cbn [pack_context_free_data]. pose proof (unpack_pack_cfd (x :: cfd)) as Hu.
  pose proof (pack_cfd_nonempty (x :: cfd)). unfold unpack_context_free_data. by destruct (pack_cfd (x :: cfd)).
Qed.

Lemma zlib_cfd_roundtrip cfd :
  zlib_decompress_context_free_data (zlib_compress_context_free_data cfd)
  = if bool_decide (cfd = []) || (Z.of_nat (length (pack_cfd cfd)) <=? decompressed_limit) then Ok cfd
    else Throw tx_decompression_error.
Proof.
  destruct cfd as [|x cfd]; [done|]. rewrite bool_decide_false by done. cbn [orb zlib_compress_context_free_data].
  pose proof (zlib_decompress_compressed (pack_context_free_data (x :: cfd))) as Hz.
  change (pack_context_free_data (x :: cfd)) with (pack_cfd (x :: cfd)) in *.
  unfold zlib_decompress_context_free_data. destruct (zlib_compressor (pack_cfd (x :: cfd))) as [|y l] eqn:E.
  - by apply zlib_nonempty in E.
  - rewrite Hz. destruct (_ <=? _); [|done]. cbn [res_bind].
    apply (unpack_pack_context_free_data (x :: cfd)).
Qed.

(** C30: A packed transaction survives the wire: packed without compression, or
    with zlib when the transaction and its context-free data are at most a
    megabyte, it is unpacked to the same packed transaction, signatures and
    context-free data included; a larger compressed one, which its constructor
    accepts, is refused with tx_decompression_error. *)
Theorem packed_transaction_roundtrip t c p :
  packed_of_signed t c = Ok p ->
  unpacked_trx p = t
  /\ unpack_packed (wire p) = if unpackable t c then Ok p else Throw tx_decompression_error.
Proof.
  destruct t as [t sigs cfd]. unfold packed_of_signed, local_pack_transaction, unpackable. cbn [compression st_trx context_free_data].
  destruct (Z.eqb_spec c none) as [-> |Hn]; cbn [res_bind orb].
  - intros [= <-]. split; [done|]. unfold unpack_packed, packed_reflector_init, local_unpack_transaction. cbn.
    unfold unpack_transaction, pack_transaction. rewrite unpack_pack_trx. cbn.
    rewrite unpack_pack_context_free_data. done.
  - destruct (Z.eqb_spec c zlib) as [-> |]; [|done]. intros [= <-]. split; [done|].
    unfold unpack_packed, packed_reflector_init, local_unpack_transaction. cbn.
    unfold zlib_decompress_transaction, zlib_compress_transaction, pack_transaction, unpack_transaction.
    rewrite zlib_decompress_compressed. destruct (_ <=? decompressed_limit); [|done]. cbn [res_bind].
    rewrite unpack_pack_trx. cbn. rewrite zlib_cfd_roundtrip. by destruct (_ || _).
Qed.

(** ** The keys that signed *)

Record cached_pub_key := mk_cached {
  cached_trx_id : digest_type;
  cached_key : public_key;
  cached_sig : signature;
  cached_cpu_usage : Z
}.

(** recovery_cache_type, in the order of the sequenced index. *)
Definition recovery_cache_type : Type := list cached_pub_key.

Definition find_sig (sig : signature) (c : recovery_cache_type) : option cached_pub_key :=
  snd <$> list_find (fun e => cached_sig e = sig) c.

(** Nothing is inserted when the signature is there. *)
Definition emplace_back (e : cached_pub_key) (c : recovery_cache_type) : recovery_cache_type :=
  match find_sig (cached_sig e) c with Some _ => c | None => c ++ [e] end.

Definition recovery_cache_size : Z := 10000.

Fixpoint trim (c : recovery_cache_type) : recovery_cache_type :=
  match c with
  | [] => []
  | _ :: c' => if recovery_cache_size <? Z.of_nat (length c) then trim c' else c
  end.

(** One round of the loop: the readings of the clock, and what the other threads
    do before the lock is taken the first and the second time. *)
Record round := mk_round {
  now_is : Z;
  recovered_at : Z;
  before_find : recovery_cache_type -> recovery_cache_type;
  before_insert : recovery_cache_type -> recovery_cache_type
}.

Section Keys.
Context (rounds : nat -> round) (start deadline : Z) (digest tid : digest_type) (allow_duplicate_keys : bool).

(** The key and the CPU usage of one signature. *)
Definition recover_one (i : nat) (sig : signature) : exec recovery_cache_type (public_key * Z) :=
  let r := rounds i in
  check (now_is r <? deadline) else tx_cpu_usage_exceeded;
  do _ <- modify (before_find r);
  do cache <- get_state;
  let recover :=
    do recov <- lift (recover_key sig digest);
    let cpu_usage := recovered_at r - start in
    do _ <- modify (before_insert r);
    do _ <- modify (emplace_back (mk_cached tid recov sig cpu_usage));
    ret (recov, cpu_usage) in
  match find_sig sig cache with
  | Some it => if bool_decide (cached_trx_id it = tid) then ret (cached_key it, cached_cpu_usage it) else recover
  | None => recover
  end.

(** [keys]: the elements of recovered_pub_keys, in the order of insertion. *)
Fixpoint recover_all (i : nat) (sigs : list signature) (keys : list public_key) (usage : Z)
    : exec recovery_cache_type (list public_key * Z) :=
  match sigs with
  | [] => ret (keys, usage)
  | sig :: sigs' =>
      do ku <- recover_one i sig;
      let '(recov, cpu_usage) := ku in
      let inserted := negb (bool_decide (recov ∈ keys)) in
      check (allow_duplicate_keys || inserted) else tx_duplicate_sig;
      recover_all (S i) sigs' (if inserted then keys ++ [recov] else keys) (usage + cpu_usage)
  end.
End Keys.

Definition get_signature_keys (rounds : nat -> round) (start : Z) (sigs : list signature) (chain_id : digest_type)
    (deadline : Z) (cfd : list bytes) (allow_duplicate_keys : bool) (t : transaction)
    : exec recovery_cache_type (list public_key * Z) :=
  do r <- recover_all rounds start deadline (sig_digest chain_id cfd t) (id t) allow_duplicate_keys 0 sigs [] 0;
  do _ <- modify (before_find (rounds (length sigs)));
  do _ <- modify trim;
  ret r.

Definition signed_signature_keys (rounds : nat -> round) (start : Z) (chain_id : digest_type) (deadline : Z)
    (allow_duplicate_keys : bool) (s : signed_transaction) : exec recovery_cache_type (list public_key * Z) :=
  get_signature_keys rounds start (signatures s) chain_id deadline (context_free_data s) allow_duplicate_keys (st_trx s).

(** Without a cache. *)
Fixpoint signing_keys (digest : digest_type) (allow : bool) (sigs : list signature) (keys : list public_key)
    : res (list public_key) :=
  match sigs with
  | [] => Ok keys
  | sig :: sigs' =>
      let! k := recover_key sig digest in
      assert! (allow || negb (bool_decide (k ∈ keys))) else tx_duplicate_sig in
      signing_keys digest allow sigs' (if bool_decide (k ∈ keys) then keys else keys ++ [k])
  end.

(** What is cached for this transaction was recovered from this digest. *)
Definition agrees (digest tid : digest_type) (c : recovery_cache_type) : Prop :=
  forall e, e ∈ c -> cached_trx_id e = tid -> recover_key (cached_sig e) digest = Ok (cached_key e).

Lemma find_sig_Some sig c e : find_sig sig c = Some e -> e ∈ c /\ cached_sig e = sig.
Proof.
  unfold find_sig. destruct (list_find _ c) as [[i x]|] eqn:E; [|done]. intros [= <-].
  apply list_find_Some in E as (Hx & Hs & _). split; [by eapply list_elem_of_lookup_2|done].
Qed.

Lemma emplace_back_agrees digest tid e c :
  agrees digest tid c -> (cached_trx_id e = tid -> recover_key (cached_sig e) digest = Ok (cached_key e)) ->
  agrees digest tid (emplace_back e c).
Proof.
  intros Hc He. unfold emplace_back. destruct (find_sig _ c); [done|].
  intros x [Hx|Hx]%elem_of_app; [by apply Hc|]. apply list_elem_of_singleton in Hx as ->. done.
Qed.

Lemma trim_agrees digest tid c : agrees digest tid c -> agrees digest tid (trim c).
Proof.
  induction c as [|x c IH]; [done|]. cbn [trim]. intros Hc. destruct (_ <? _); [|done].
  apply IH. intros e He. apply Hc. by right.
Qed.

(** The other threads keep the cache as it should be. *)
Definition rounds_agree (digest tid : digest_type) (deadline : Z) (rounds : nat -> round) : Prop :=
  forall i, now_is (rounds i) < deadline
  /\ forall c, agrees digest tid c ->
       agrees digest tid (before_find (rounds i) c) /\ agrees digest tid (before_insert (rounds i) c).

Lemma recover_one_agrees rounds start deadline digest tid i sig c :
  rounds_agree digest tid deadline rounds -> agrees digest tid c ->
  exists usage c', recover_one rounds start deadline digest tid i sig c
    = (let! k := recover_key sig digest in Ok (k, usage), c') /\ agrees digest tid c'.
Proof.
  intros Hr Hc. destruct (Hr i) as [Hnow Hpres]. destruct (Hpres c Hc) as [H1 _].
  set (c1 := before_find (rounds i) c) in *. unfold recover_one, bind, lift, modify, get_state, ret.
  destruct (Z.ltb_spec (now_is (rounds i)) deadline); [|lia]. cbn [eos_assert]. fold c1.
  assert (forall k, recover_key sig digest = Ok k -> agrees digest tid
    (emplace_back (mk_cached tid k sig (recovered_at (rounds i) - start)) (before_insert (rounds i) c1))) as Hins.
  { intros k Hk. apply emplace_back_agrees; [by apply Hpres|done]. }
  destruct (find_sig sig c1) as [e|] eqn:E; [case_bool_decide as Eid|].
  - apply find_sig_Some in E as [Hin <-]. rewrite (H1 e Hin Eid). by eexists _, _.
  - destruct (recover_key sig digest) as [k|x] eqn:Ek; eexists _, _; (split; [reflexivity|]); [by apply Hins|done].
  - destruct (recover_key sig digest) as [k|x] eqn:Ek; eexists _, _; (split; [reflexivity|]); [by apply Hins|done].
Unshelve. exact 0. exact 0.
Qed.

(** C29: The cache of recovered keys is transparent: whatever is cached and however
    other threads use the cache meanwhile, get_signature_keys returns the keys
    recovered from the signatures, and throws when a signature cannot be
    recovered or a key signed twice, provided that what is cached for this
    transaction id was recovered from the same digest and that the deadline is not
    reached meanwhile. *)
Theorem cached_keys_exact rounds start sigs chain_id deadline cfd allow t c :
  rounds_agree (sig_digest chain_id cfd t) (id t) deadline rounds -> agrees (sig_digest chain_id cfd t) (id t) c ->
  exists usage c', get_signature_keys rounds start sigs chain_id deadline cfd allow t c
    = (let! keys := signing_keys (sig_digest chain_id cfd t) allow sigs [] in Ok (keys, usage), c')
  /\ agrees (sig_digest chain_id cfd t) (id t) c'.
Proof.
  intros Hr Hc. unfold get_signature_keys. set (d := sig_digest chain_id cfd t) in *. set (tid := id t) in *.
  assert (forall i keys u c, agrees d tid c -> exists usage c',
    recover_all rounds start deadline d tid allow i sigs keys u c
    = (let! keys := signing_keys d allow sigs keys in Ok (keys, usage), c') /\ agrees d tid c') as Hall.
  { clear c Hc. induction sigs as [|sig sigs IH]; intros i keys u c Hc; cbn [recover_all signing_keys]; [by exists u, c|].
    destruct (recover_one_agrees rounds start deadline d tid i sig c Hr Hc) as (u1 & c1 & E & H1). unfold bind at 1. rewrite E.
    destruct (recover_key sig d) as [k|x]; cbn [res_bind]; [|by exists 0, c1].
    destruct (allow || negb (bool_decide (k ∈ keys))) eqn:Ea; unfold bind, lift; cbn [eos_assert]; [|by exists 0, c1].
    replace (if negb (bool_decide (k ∈ keys)) then keys ++ [k] else keys)
      with (if bool_decide (k ∈ keys) then keys else keys ++ [k]) by (by destruct (bool_decide _)).
    by apply IH. }
  destruct (Hall 0%nat [] 0 c Hc) as (u & c' & E & H'). unfold bind at 1. rewrite E.
  destruct (signing_keys d allow sigs []) as [keys|x]; cbn [res_bind]; [|by exists 0, c'].
  exists u. eexists. split; [reflexivity|]. apply trim_agrees. by apply (proj2 (Hr (length sigs))).
Qed.
End Transaction.

(** get_ref_blocknum is documented to give the absolute number of the reference
    block; the number of the head block is all it gives. *)
Theorem get_ref_blocknum_is_head t head : is_uint 32 head -> get_ref_blocknum t head = head.
Proof.
  intros Hh. unfold get_ref_blocknum, is_uint in *. pose proof (Z.div_mod head 0xffff ltac:(done)) as E.
  pose proof (Z.mod_pos_bound head 0xffff ltac:(done)). unfold u32.
  rewrite (wrap_small 32 (_ * _)) by (unfold is_uint; lia). rewrite wrap_small by (unfold is_uint; lia). lia.
Qed.

(** ** A format *)

#[local] Instance action_eq_dec : EqDecision action.
Proof. solve_decision. Defined.
#[local] Instance action_countable : Countable action :=
  inj_countable' (fun a => (act_account a, act_name a, act_authorization a, act_data a))
    (fun x => match x with (a, n, l, d) => mk_action a n l d end) ltac:(by intros []).
#[local] Instance transaction_eq_dec : EqDecision transaction.
Proof. unfold EqDecision. intros [] []. unfold Decision, bytes in *. decide equality; apply (decide (_ = _)). Defined.
#[local] Instance transaction_countable : Countable transaction :=
  inj_countable' (fun t => (expiration t, ref_block_num t, ref_block_prefix t, max_net_usage_words t, max_cpu_usage_ms t,
      delay_sec t, context_free_actions t, actions t, transaction_extensions t : list (Z * list Z)))
    (fun x => match x with (a, b, c, d, e, f, g, h, i) => mk_transaction a b c d e f g h i end) ltac:(by intros []).
#[local] Instance generation_context_eq_dec : EqDecision deferred_transaction_generation_context.
Proof. solve_decision. Defined.
#[local] Instance generation_context_countable : Countable deferred_transaction_generation_context :=
  inj_countable' (fun c => (sender_trx_id c, context_sender_id c, context_sender c))
    (fun x => match x with (a, b, c) => mk_generation_context a b c end) ltac:(by intros []).

(** One number for any value. *)
Definition to_bytes {A} `{Countable A} (x : A) : bytes := [Zpos (encode x)].
Definition of_bytes {A} `{Countable A} (b : bytes) : res A :=
  match b with
  | [Zpos p] => match decode p with Some x => Ok x | None => Throw parse_error_exception end
  | _ => Throw parse_error_exception
  end.
Lemma of_to_bytes {A} `{Countable A} (x : A) : of_bytes (to_bytes x) = Ok x.
Proof. unfold of_bytes, to_bytes. by rewrite decode_encode. Qed.

Lemma toy_zlib (b : bytes) : exists pieces, ([b], true) = (pieces, true) /\ concat pieces = b.
Proof. exists [b]. cbn. by rewrite app_nil_r. Qed.

#[export] Instance toy_format : @TransactionFormat toy_fc := {|
  signature_eq_dec := _ : EqDecision (Z * digest_type);
  hash := fun b => mk_digest (Zpos (encode (b : list Z))) 0 0 0;
  digest_number := _hash0; pack_digest := to_bytes; pack_bytes := fun b => to_bytes (b : list Z);
  pack_signatures := fun l => to_bytes (l : list (Z * digest_type));
  pack_trx := to_bytes; unpack_trx := of_bytes; unpack_pack_trx := of_to_bytes;
  pack_cfd := fun l => to_bytes (l : list (list Z)); unpack_cfd := of_bytes; unpack_pack_cfd := of_to_bytes;
  pack_cfd_nonempty := fun l => ltac:(done);
  pack_generation_context := to_bytes; unpack_generation_context := of_bytes;
  unpack_pack_generation_context := of_to_bytes;
  zlib_compressor := fun b => 120 :: b; zlib_decompressor := fun b => ([tail b], bool_decide (head b = Some 120));
  zlib_nonempty := fun b => ltac:(done); zlib_roundtrip := toy_zlib |}.

Definition toy_trx : transaction :=
  mk_transaction 1577836900 7 9 512 20 0 [] [mk_action 7 9 [mk_level 100 3] [1; 2]] [].

Definition toy_signed (cfd : list bytes) : @signed_transaction toy_fc := mk_signed toy_trx [(5, sig_digest digest_zero cfd toy_trx)] cfd.

Lemma packed_transaction_roundtrip_witness :
  exists p, packed_of_signed (toy_signed [[1; 2]]) zlib = Ok p /\ unpack_packed (wire p) = Ok p.
Proof.
  destruct (packed_of_signed (toy_signed [[1; 2]]) zlib) as [p|] eqn:E; [|done]. exists p. split; [reflexivity|].
  destruct (packed_transaction_roundtrip (toy_signed [[1; 2]]) zlib p E) as [_ ->]. reflexivity.
Defined.

(** ** Context-free data and the cache *)

(** No other thread. *)
Definition alone : nat -> round := fun _ => mk_round 10 15 (fun c => c) (fun c => c).

(** Key 5 signs the transaction with its context-free data; then the transaction
    comes again, with the same signature and other context-free data. *)
Definition honest := get_signature_keys alone 0 (signatures (toy_signed [[1; 2]])) digest_zero 100 [[1; 2]] false toy_trx [].
Definition forged :=
  get_signature_keys alone 0 (signatures (toy_signed [[1; 2]])) digest_zero 100 [[6; 6; 6]] false toy_trx (snd honest).

Lemma cached_keys_exact_witness : fst honest = Ok ([5], 15).
Proof.
  unfold honest.
  destruct (cached_keys_exact alone 0 (signatures (toy_signed [[1; 2]])) digest_zero 100 [[1; 2]] false toy_trx [])
    as (u & c' & E & _).
  - intros i. split; [cbn; lia|]. intros c Hc. split; exact Hc.
  - intros e He. by apply elem_of_nil in He.
  - pose proof (f_equal fst E) as E1. vm_compute in E1. injection E1 as <-. rewrite E. vm_refl.
Defined.

(** The condition of the cache is needed: the cache is keyed by the signature
    and the transaction id, which does not cover the context-free data, while
    the signed digest does.  Once a transaction has been seen, the same
    transaction with other context-free data is attributed to the key that
    signed the original, although its signature does not verify. *)
Theorem forged_context_free_data_accepted :
  fst honest = Ok ([5], 15) /\ fst forged = Ok ([5], 15)
  /\ recover_key (5, sig_digest digest_zero [[1; 2]] toy_trx) (sig_digest digest_zero [[6; 6; 6]] toy_trx)
     = Throw parse_error_exception
  /\ fst (get_signature_keys alone 0 (signatures (toy_signed [[1; 2]])) digest_zero 100 [[6; 6; 6]] false toy_trx [])
     = Throw parse_error_exception.
Proof. split_and!; vm_refl. Qed.
