(* ===== verification/TransactionContext.v ===== *)
(** The limits and the billing of one transaction: transaction_context.cpp
    (init, init_for_implicit_trx, init_for_input_trx, init_for_deferred_trx,
    finalize and what they call), and the checks of the controller that
    init_for_input_trx makes (validate_expiration, validate_tapos).

    What reads the clock takes the reading as an argument; [expired] is the flag
    of the deadline_timer, which a signal handler sets.  Times are microseconds. *)

From Stdlib Require Import ZArith Lia.
From stdpp Require Import base gmap numbers sorting list.
From S2P Require Import Prelude Chainbase Merkle Authority AuthorityChecker ResourceLimits BlockTimestamp BlockHeader AuthorizationManager ChainConfig AccessLists EosioContract Transaction.

#[local] Open Scope Z_scope.
#[local] Open Scope chain_scope.
Import Authorization.

(** ** The context *)

Record net_billing := mk_net {
  net_limit : Z;
  net_limit_due_to_block : bool;
  net_limit_due_to_greylist : bool;
  eager_net_limit : Z;
  net_usage : Z
}.

(** The exception codes are the exceptions. *)
Record cpu_billing := mk_cpu {
  cpu_limit_due_to_greylist : bool;
  initial_objective_duration_limit : Z;
  objective_duration_limit : Z;
  _deadline : Z;
  deadline_exception_code : exn;
  billing_timer_exception_code : exn;
  pseudo_start : Z;
  billed_time : Z;
  billing_timer_duration_limit : Z;
  billed_cpu_time_us : Z
}.

Record transaction_context := mk_trx_context {
  net : net_billing;
  cpu : cpu_billing;
  published : Z;
  bill_to_accounts : gset Z;
  is_input : bool;
  apply_context_free : bool;
  is_initialized : bool;
  scheduled : bool               (** trace->scheduled *)
}.

Definition set_net (x : net_billing) (t : transaction_context) : transaction_context :=
  mk_trx_context x (cpu t) (published t) (bill_to_accounts t) (is_input t) (apply_context_free t) (is_initialized t) (scheduled t).
Definition set_cpu (x : cpu_billing) (t : transaction_context) : transaction_context :=
  mk_trx_context (net t) x (published t) (bill_to_accounts t) (is_input t) (apply_context_free t) (is_initialized t) (scheduled t).
Definition set_bill_to (x : gset Z) (t : transaction_context) : transaction_context :=
  mk_trx_context (net t) (cpu t) (published t) x (is_input t) (apply_context_free t) (is_initialized t) (scheduled t).
Definition set_initialized (t : transaction_context) : transaction_context :=
  mk_trx_context (net t) (cpu t) (published t) (bill_to_accounts t) (is_input t) (apply_context_free t) true (scheduled t).
(** published, is_input, apply_context_free and trace->scheduled, which the
    init_for_... functions set. *)
Definition set_origin (p : Z) (input cfree sched : bool) (t : transaction_context) : transaction_context :=
  mk_trx_context (net t) (cpu t) p (bill_to_accounts t) input cfree (is_initialized t) sched.

Definition set_net_usage (x : Z) (n : net_billing) : net_billing :=
  mk_net (net_limit n) (net_limit_due_to_block n) (net_limit_due_to_greylist n) (eager_net_limit n) x.
Definition set_billed_cpu (x : Z) (c : cpu_billing) : cpu_billing :=
  mk_cpu (cpu_limit_due_to_greylist c) (initial_objective_duration_limit c) (objective_duration_limit c) (_deadline c)
    (deadline_exception_code c) (billing_timer_exception_code c) (pseudo_start c) (billed_time c)
    (billing_timer_duration_limit c) x.

(** fc::time_point::maximum() *)
Definition time_maximum : Z := INT64_MAX.

(** The constructor: the members as transaction_context.hpp initializes them. *)
Definition new_transaction_context (start billed_cpu_us : Z) : transaction_context :=
  mk_trx_context (mk_net 0 true false 0 0)
    (mk_cpu false 0 0 time_maximum block_cpu_usage_exceeded block_cpu_usage_exceeded start 0 0 billed_cpu_us)
    0 ∅ false true false false.

(** The elements of a flat_set, in order. *)
Definition flat (s : gset Z) : list Z := merge_sort Z.le (elements s).

Definition large_number_no_overflow : Z := INT64_MAX / 2.
Definition transaction_id_net_usage : Z := 32.

Section Context.
Context {K : Type} `{EqDecision K} {fc : Fc}.
Context {TL TU : Type} `{HTL : !Table (bool * Z) Manager.resource_limits_object TL}
        `{HTU : !Table Z Manager.resource_usage_object TU}.
Context {TP TPU TLK TG TA TX TB : Type} {permission_index : Table Z (permission_object K) TP}
  {permission_usage_index : Table Z Z TPU} {permission_link_index : Table (Z * Z * Z) Z TLK}
  {generated_transaction_index : Table Z generated_transaction_object TG}
  {account_index : Table Z account_object TA}
  {transaction_index : Table Z Z TX} {block_summary_index : Table Z digest_type TB}.

Abbreviation auth_tables := (@auth_db TP TPU TLK TG).

(** The context and the tables it works on; [ram_accounts] is its member
    validate_ram_usage. *)
Record trx_state := mk_trx_state {
  trx : transaction_context;
  ram_accounts : gset Z;
  limits_db : @Manager.database TL TU;
  auth_of : auth_tables;
  accounts_of : TA;
  recorded : TX;
  summaries : TB
}.

Definition set_trx (x : transaction_context) (s : trx_state) : trx_state :=
  mk_trx_state x (ram_accounts s) (limits_db s) (auth_of s) (accounts_of s) (recorded s) (summaries s).
Definition set_limits_db (x : @Manager.database TL TU) (s : trx_state) : trx_state :=
  mk_trx_state (trx s) (ram_accounts s) x (auth_of s) (accounts_of s) (recorded s) (summaries s).
Definition set_auth_of (x : auth_tables) (s : trx_state) : trx_state :=
  mk_trx_state (trx s) (ram_accounts s) (limits_db s) x (accounts_of s) (recorded s) (summaries s).
Definition set_recorded (x : TX) (s : trx_state) : trx_state :=
  mk_trx_state (trx s) (ram_accounts s) (limits_db s) (auth_of s) (accounts_of s) x (summaries s).

Definition in_limits_db {A} (m : exec (@Manager.database TL TU) A) : exec trx_state A := zoom limits_db set_limits_db m.
Definition in_auth_of {A} (m : exec auth_tables A) : exec trx_state A := zoom auth_of set_auth_of m.
Definition modify_trx (f : transaction_context -> transaction_context) : exec trx_state unit :=
  modify (fun s => set_trx (f (trx s)) s).

(** What the controller answers, and the members that are fixed once the
    transaction starts. *)
Record trx_environment := mk_trx_environment {
  cfg : chain_config;
  skip_trx_checks : bool;
  is_producing_block : bool;
  enforce_whiteblacklist : bool;
  block_time : Z;                        (** pending_block_time() *)
  only_bill_first_authorizer : bool;     (** is_builtin_activated( only_bill_first_authorizer ) *)
  resource_greylist : gset Z;
  lists : access_lists;
  the_trx : transaction;
  trx_id : Z;
  start : Z;
  deadline : Z;
  leeway : Z;
  explicit_billed_cpu_time : bool
}.
Context (env : trx_environment).

Definition time_slot : Z := BlockTimestamp.set_time_point (block_time env).

Definition disallow_transaction_extensions : res unit :=
  if is_producing_block env then Throw subjective_block_production_exception
  else Throw disallowed_transaction_extensions_bad_block_exception.

(** ** Checks of the usage *)

Definition check_net_usage (n : net_billing) : res unit :=
  if negb (skip_trx_checks env) then
    if eager_net_limit n <? net_usage n then
      if net_limit_due_to_block n then Throw block_net_usage_exceeded
      else if net_limit_due_to_greylist n then Throw greylist_net_usage_exceeded
      else Throw tx_net_usage_exceeded
    else Ok tt
  else Ok tt.

Definition add_net_usage (u : Z) : exec trx_state unit :=
  do _ <- modify_trx (fun t => set_net (set_net_usage (u64 (net_usage (net t) + u)) (net t)) t);
  do s <- get_state;
  lift (check_net_usage (net (trx s))).

Definition checktime (expired : bool) (now : Z) (c : cpu_billing) : res unit :=
  if negb expired then Ok tt
  else if _deadline c <? now then
    if explicit_billed_cpu_time env || bool_decide (deadline_exception_code c = deadline_exception)
    then Throw deadline_exception
    else if bool_decide (deadline_exception_code c = block_cpu_usage_exceeded) then Throw block_cpu_usage_exceeded
    else if bool_decide (deadline_exception_code c = tx_cpu_usage_exceeded) then
      (if cpu_limit_due_to_greylist c then Throw greylist_cpu_usage_exceeded else Throw tx_cpu_usage_exceeded)
    else if bool_decide (deadline_exception_code c = leeway_deadline_exception) then Throw leeway_deadline_exception
    else Throw transaction_exception
  else Ok tt.

Definition validate_cpu_usage_to_bill (c : cpu_billing) (billed_us : Z) (check_minimum : bool) : res unit :=
  if negb (skip_trx_checks env) then
    let! _ := (if check_minimum then
                 assert! (min_transaction_cpu_usage (cfg env) <=? billed_us) else transaction_exception in Ok tt
               else Ok tt) in
    if bool_decide (billing_timer_exception_code c = block_cpu_usage_exceeded) then
      assert! (billed_us <=? objective_duration_limit c) else block_cpu_usage_exceeded in Ok tt
    else if cpu_limit_due_to_greylist c then
      assert! (billed_us <=? objective_duration_limit c) else greylist_cpu_usage_exceeded in Ok tt
    else
      assert! (billed_us <=? objective_duration_limit c) else tx_cpu_usage_exceeded in Ok tt
  else Ok tt.

(** Nothing happens when the billed time is given or the timer is paused. *)
Definition pause_billing_timer (now : Z) (c : cpu_billing) : cpu_billing :=
  if explicit_billed_cpu_time env || (pseudo_start c =? 0) then c
  else mk_cpu (cpu_limit_due_to_greylist c) (initial_objective_duration_limit c) (objective_duration_limit c) (_deadline c)
         deadline_exception (billing_timer_exception_code c) 0 (now - pseudo_start c)
         (billing_timer_duration_limit c) (billed_cpu_time_us c).

Definition resume_billing_timer (now : Z) (c : cpu_billing) : cpu_billing :=
  if explicit_billed_cpu_time env || negb (pseudo_start c =? 0) then c
  else
    let new_start := now - billed_time c in
    let '(d, code) :=
      if new_start + billing_timer_duration_limit c <=? deadline env
      then (new_start + billing_timer_duration_limit c, billing_timer_exception_code c)
      else (deadline env, deadline_exception) in
    mk_cpu (cpu_limit_due_to_greylist c) (initial_objective_duration_limit c) (objective_duration_limit c) d code
      (billing_timer_exception_code c) new_start (billed_time c) (billing_timer_duration_limit c) (billed_cpu_time_us c).

(** The result, the billed time as a uint32_t, is not used. *)
Definition update_billed_cpu_time (now : Z) (c : cpu_billing) : cpu_billing :=
  if explicit_billed_cpu_time env then c
  else set_billed_cpu (Z.max (now - pseudo_start c) (min_transaction_cpu_usage (cfg env))) c.

(** ** What the billed accounts can pay *)

Definition is_resource_greylisted (a : Z) : bool := bool_decide (a ∈ resource_greylist env).

(** (account_net_limit, account_cpu_limit, greylisted_net, greylisted_cpu) *)
Definition bandwidth : Type := Z * Z * bool * bool.

Definition lower_bandwidth (force_elastic_limits : bool) (b : bandwidth) (a : Z)
    : exec (@Manager.database TL TU) bandwidth :=
  let '(account_net_limit, account_cpu_limit, greylisted_net, greylisted_cpu) := b in
  let elastic := force_elastic_limits || negb (is_producing_block env && is_resource_greylisted a) in
  do net_limit <- Manager.get_account_net_limit a elastic;
  let '(account_net_limit, greylisted_net) :=
    if 0 <=? net_limit then (Z.min account_net_limit net_limit, if elastic then greylisted_net else true)
    else (account_net_limit, greylisted_net) in
  do cpu_limit <- Manager.get_account_cpu_limit a elastic;
  let '(account_cpu_limit, greylisted_cpu) :=
    if 0 <=? cpu_limit then (Z.min account_cpu_limit cpu_limit, if elastic then greylisted_cpu else true)
    else (account_cpu_limit, greylisted_cpu) in
  ret (account_net_limit, account_cpu_limit, greylisted_net, greylisted_cpu).

Fixpoint lower_bandwidths (force_elastic_limits : bool) (b : bandwidth) (l : list Z)
    : exec (@Manager.database TL TU) bandwidth :=
  match l with
  | [] => ret b
  | a :: l' => do b' <- lower_bandwidth force_elastic_limits b a; lower_bandwidths force_elastic_limits b' l'
  end.

Definition max_bandwidth_billed_accounts_can_pay (billed : gset Z) (force_elastic_limits : bool)
    : exec (@Manager.database TL TU) bandwidth :=
  lower_bandwidths force_elastic_limits (large_number_no_overflow, large_number_no_overflow, false, false) (flat billed).

(** ** init *)

(** net_limit and objective_duration_limit: what is left in the block, the
    configuration and the transaction header. *)
Definition objective_net_limit (d : @Manager.database TL TU) (due_to_block : bool) : Z * bool :=
  let net_limit := Manager.get_block_net_limit d in
  let '(net_limit, due) :=
    if max_transaction_net_usage (cfg env) <=? net_limit then (max_transaction_net_usage (cfg env), false)
    else (net_limit, due_to_block) in
  let trx_specified_net_usage_limit := u64 (max_net_usage_words (the_trx env) * 8) in
  if (0 <? trx_specified_net_usage_limit) && (trx_specified_net_usage_limit <=? net_limit)
  then (trx_specified_net_usage_limit, false) else (net_limit, due).

Definition objective_cpu_limit (d : @Manager.database TL TU) (code : exn) : Z * exn :=
  let limit := i64 (Manager.get_block_cpu_limit d) in
  let '(limit, code) :=
    if max_transaction_cpu_usage (cfg env) <=? limit then (max_transaction_cpu_usage (cfg env), tx_cpu_usage_exceeded)
    else (limit, code) in
  if 0 <? max_cpu_usage_ms (the_trx env) then
    let trx_specified_cpu_usage_limit := 1000 * max_cpu_usage_ms (the_trx env) in
    if trx_specified_cpu_usage_limit <=? limit then (trx_specified_cpu_usage_limit, tx_cpu_usage_exceeded)
    else (limit, code)
  else (limit, code).

Definition init_objective_limits (d : @Manager.database TL TU) (t : transaction_context) : transaction_context :=
  let n := net t in
  let c := cpu t in
  let '(limit, due) := objective_net_limit d (net_limit_due_to_block n) in
  let '(duration, code) := objective_cpu_limit d (billing_timer_exception_code c) in
  set_net (mk_net limit due (net_limit_due_to_greylist n) (eager_net_limit n) (net_usage n))
    (set_cpu (mk_cpu (cpu_limit_due_to_greylist c) duration duration (start env + duration) (deadline_exception_code c)
                code (pseudo_start c) (billed_time c) (billing_timer_duration_limit c) (billed_cpu_time_us c)) t).

Definition accounts_to_bill : gset Z :=
  if only_bill_first_authorizer env then {[first_authorizer (the_trx env)]}
  else list_to_set (actor <$> transaction_authorizations (the_trx env)).

(** eager_net_limit and _deadline: what the billed accounts can pay, with some
    leeway. *)
Definition init_eager_limits (b : bandwidth) (t : transaction_context) : transaction_context :=
  let '(account_net_limit, account_cpu_limit, greylisted_net, greylisted_cpu) := b in
  let n := net t in
  let c := cpu t in
  let new_eager_net_limit := Z.min (net_limit n) (u64 (account_net_limit + net_usage_leeway (cfg env))) in
  let '(eager, due) :=
    if new_eager_net_limit <? net_limit n then (new_eager_net_limit, false)
    else (net_limit n, net_limit_due_to_block n) in
  let '(dl, billing_code) :=
    if account_cpu_limit + leeway env <=? _deadline c - start env
    then (start env + account_cpu_limit + leeway env, leeway_deadline_exception)
    else (_deadline c, billing_timer_exception_code c) in
  let '(dl', code) :=
    if explicit_billed_cpu_time env || (deadline env <? dl) then (deadline env, deadline_exception) else (dl, billing_code) in
  set_net (mk_net (net_limit n) due (net_limit_due_to_greylist n || greylisted_net) (eager / 8 * 8) (net_usage n))
    (set_cpu (mk_cpu (cpu_limit_due_to_greylist c || greylisted_cpu) (initial_objective_duration_limit c)
                (objective_duration_limit c) dl' code billing_code (pseudo_start c) (billed_time c) (dl - start env)
                (billed_cpu_time_us c)) t).

Definition init (initial_net_usage : Z) (expired : bool) (now : Z) : exec trx_state unit :=
  do s <- get_state;
  check (negb (is_initialized (trx s))) else transaction_exception;
  do _ <- modify (fun s => set_trx (init_objective_limits (limits_db s) (trx s)) s);
  do s <- get_state;
  do _ <- lift (if 0 <? billed_cpu_time_us (cpu (trx s))
                then validate_cpu_usage_to_bill (cpu (trx s)) (billed_cpu_time_us (cpu (trx s))) false else Ok tt);
  do _ <- modify_trx (fun t => set_bill_to (bill_to_accounts t ∪ accounts_to_bill) t);
  do s <- get_state;
  do _ <- in_limits_db (Manager.update_account_usage (flat (bill_to_accounts (trx s))) time_slot);
  do b <- in_limits_db (max_bandwidth_billed_accounts_can_pay (bill_to_accounts (trx s)) false);
  do _ <- modify_trx (init_eager_limits b);
  do _ <- (if 0 <? initial_net_usage then add_net_usage initial_net_usage else ret tt);
  do s <- get_state;
  do _ <- lift (checktime expired now (cpu (trx s)));
  modify_trx set_initialized.

(** ** Input, implicit and deferred transactions *)

Definition validate_expiration : res unit :=
  let exp := expiration (the_trx env) * 1000000 in
  assert! (block_time env <=? exp) else expired_tx_exception in
  assert! (exp <=? block_time env + max_transaction_lifetime (cfg env) * 1000000) else tx_exp_too_far_exception in
  Ok tt.

Definition validate_tapos (t : TB) : res unit :=
  let! summary := tbl_get (u16 (ref_block_num (the_trx env))) t in
  assert! (verify_reference_block (the_trx env) summary) else invalid_ref_block_exception in Ok tt.

Definition account_exists (a : Z) (accts : TA) : bool := bool_decide (is_Some (tbl_find a accts)).

Definition check_context_free_action (accts : TA) (a : action) : res unit :=
  assert! (account_exists (act_account a) accts) else transaction_exception in
  assert! (Z.of_nat (length (act_authorization a)) =? 0) else transaction_exception in
  Ok tt.

Definition check_referenced_auth (accts : TA) (d : auth_tables) (auth : permission_level) : res unit :=
  assert! (account_exists (actor auth) accts) else transaction_exception in
  let! p := find_permission d auth in
  assert! (bool_decide (is_Some p)) else transaction_exception in
  Ok tt.

(** [for( const auto& x : l ) body(x);] of a body that changes nothing. *)
Fixpoint check_each {A} (body : A -> res unit) (l : list A) : res unit :=
  match l with [] => Ok tt | x :: l' => let! _ := body x in check_each body l' end.

Definition check_action (accts : TA) (d : auth_tables) (a : action) : res unit :=
  assert! (account_exists (act_account a) accts) else transaction_exception in
  check_each (check_referenced_auth accts d) (act_authorization a).

Definition validate_referenced_accounts (t : transaction) (enforce_actor_whitelist_blacklist : bool) (accts : TA)
    (d : auth_tables) : res unit :=
  let! _ := check_each (check_context_free_action accts) (context_free_actions t) in
  let! _ := check_each (check_action accts d) (actions t) in
  assert! (0 <? Z.of_nat (length (transaction_authorizations t))) else tx_no_auths in
  if enforce_actor_whitelist_blacklist
  then check_actor_list (lists env) (flat (list_to_set (actor <$> transaction_authorizations t)))
  else Ok tt.

(** Any failure of create, bad_alloc excepted, is a duplicate. *)
Definition record_transaction (id exp : Z) : exec trx_state unit :=
  do s <- get_state;
  match tbl_create id exp (recorded s) with
  | Ok t => modify (set_recorded t)
  | Throw _ => lift (Throw tx_duplicate)
  end.

Definition init_for_implicit_trx (initial_net_usage : Z) (expired : bool) (now : Z) : exec trx_state unit :=
  do _ <- lift (if 0 <? Z.of_nat (length (transaction_extensions (the_trx env)))
                then disallow_transaction_extensions else Ok tt);
  do _ <- modify_trx (fun t => set_origin (block_time env) (is_input t) (apply_context_free t) (scheduled t) t);
  init initial_net_usage expired now.

(** The net usage of an input transaction, in uint64_t. *)
Definition discounted_size_for_pruned_data (packed_trx_prunable_size : Z) : Z :=
  let num := context_free_discount_net_usage_num (cfg env) in
  let den := context_free_discount_net_usage_den (cfg env) in
  if (0 <? den) && (num <? den) then u64 (u64 (u64 (packed_trx_prunable_size * num) + den) - 1) / den
  else packed_trx_prunable_size.

Definition input_net_usage (packed_trx_unprunable_size packed_trx_prunable_size : Z) : Z :=
  let usage := u64 (base_per_transaction_net_usage (cfg env) + packed_trx_unprunable_size
                    + discounted_size_for_pruned_data packed_trx_prunable_size) in
  if 0 <? delay_sec (the_trx env)
  then u64 (usage + (base_per_transaction_net_usage (cfg env) + transaction_id_net_usage)) else usage.

Definition init_for_input_trx (packed_trx_unprunable_size packed_trx_prunable_size : Z) (skip_recording expired : bool)
    (now : Z) : exec trx_state unit :=
  do _ <- lift (if 0 <? Z.of_nat (length (transaction_extensions (the_trx env)))
                then disallow_transaction_extensions else Ok tt);
  do _ <- modify_trx (fun t => set_origin (block_time env) true (apply_context_free t) (scheduled t) t);
  do s <- get_state;
  do _ <- lift (if negb (skip_trx_checks env) then
                  let! _ := validate_expiration in
                  let! _ := validate_tapos (summaries s) in
                  validate_referenced_accounts (the_trx env) (enforce_whiteblacklist env && is_producing_block env)
                    (accounts_of s) (auth_of s)
                else Ok tt);
  do _ <- init (input_net_usage packed_trx_unprunable_size packed_trx_prunable_size) expired now;
  if negb skip_recording then record_transaction (trx_id env) (expiration (the_trx env)) else ret tt.

Definition init_for_deferred_trx (p : Z) (expired : bool) (now : Z) : exec trx_state unit :=
  do _ <- lift (if negb (expiration (the_trx env) =? 0) && (0 <? Z.of_nat (length (transaction_extensions (the_trx env))))
                then disallow_transaction_extensions else Ok tt);
  do _ <- modify_trx (fun t => set_origin p (is_input t) false true t);
  init 0 expired now.

(** ** finalize *)

Definition update_used_permission (auth : permission_level) : exec trx_state unit :=
  do s <- get_state;
  do p <- lift (get_permission (auth_of s) auth);
  in_auth_of (update_permission_usage (block_time env) p).

(** The limits lowered to what the billed accounts can pay, the usage rounded up
    to words. *)
Definition final_limits (b : bandwidth) (t : transaction_context) : transaction_context :=
  let '(account_net_limit, account_cpu_limit, greylisted_net, greylisted_cpu) := b in
  let n := net t in
  let c := cpu t in
  let '(limit, due) := if u64 account_net_limit <=? net_limit n then (u64 account_net_limit, false)
                       else (net_limit n, net_limit_due_to_block n) in
  let '(duration, code) :=
    if account_cpu_limit <=? objective_duration_limit c then (account_cpu_limit, tx_cpu_usage_exceeded)
    else (objective_duration_limit c, billing_timer_exception_code c) in
  set_net (mk_net limit due (net_limit_due_to_greylist n || greylisted_net) limit (u64 (net_usage n + 7) / 8 * 8))
    (set_cpu (mk_cpu (cpu_limit_due_to_greylist c || greylisted_cpu) (initial_objective_duration_limit c) duration
                (_deadline c) (deadline_exception_code c) code (pseudo_start c) (billed_time c)
                (billing_timer_duration_limit c) (billed_cpu_time_us c)) t).

(** finalize up to validate_cpu_usage_to_bill. *)
Definition finalize_checks (now : Z) : exec trx_state unit :=
  do s <- get_state;
  check (is_initialized (trx s)) else transaction_exception;
  do _ <- (if is_input (trx s) then for_each (transaction_authorizations (the_trx env)) update_used_permission else ret tt);
  do _ <- in_limits_db (for_each (flat (ram_accounts s)) Manager.verify_account_ram_usage);
  do b <- in_limits_db (max_bandwidth_billed_accounts_can_pay (bill_to_accounts (trx s)) false);
  do _ <- modify_trx (final_limits b);
  do s <- get_state;
  do _ <- lift (check_net_usage (net (trx s)));
  do _ <- modify_trx (fun t => set_cpu (update_billed_cpu_time now (cpu t)) t);
  do s <- get_state;
  lift (validate_cpu_usage_to_bill (cpu (trx s)) (billed_cpu_time_us (cpu (trx s))) true).

(** rl.add_transaction_usage( ... ); // Should never fail *)
Definition finalize_bill : exec trx_state unit :=
  do s <- get_state;
  in_limits_db (Manager.add_transaction_usage (flat (bill_to_accounts (trx s)))
                  (u64 (billed_cpu_time_us (cpu (trx s)))) (net_usage (net (trx s))) time_slot).

Definition finalize (now : Z) : exec trx_state unit :=
  do _ <- finalize_checks now; finalize_bill.
End Context.
