(* ===== verification/TransactionBilling.v ===== *)
(** The billing of a transaction cannot fail: what finalize checks of the limits
    (TransactionContext.v) is enough for resource_limits_manager::
    add_transaction_usage to return, as a comment in finalize claims, provided
    the transaction uses some CPU time and bandwidth. *)

From Stdlib Require Import ZArith Lia.
From stdpp Require Import base gmap numbers sorting list.
From S2P Require Import Prelude Chainbase Merkle Authority AuthorityChecker ResourceLimits BlockTimestamp BlockHeader AuthorizationManager ChainConfig AccessLists EosioContract Transaction TransactionContext.

#[local] Open Scope Z_scope.
#[local] Open Scope chain_scope.
Import Authorization.
Import Accumulator Elastic.

(** ** Arithmetic of the moving averages *)

(** Rounding: units that fit in what is left in the window still fit once they
    are spread over it. *)
Lemma spread_fits v u w : 0 <= v -> 0 <= u -> 0 < w <= Precision ->
  (v + contribution u w) * w / Precision <= div_ceil (v * w) Precision + u.
Proof.
  intros Hv Hu Hw. unfold contribution.
  pose proof (div_ceil_spec (u * Precision) w ltac:(lia)) as [Hc _].
  pose proof (div_ceil_spec (v * w) Precision ltac:(done)) as [_ Hd].
  set (c := div_ceil (u * Precision) w) in *. set (U := div_ceil (v * w) Precision) in *.
  apply Z.lt_succ_r, Z.div_lt_upper_bound; [done|]. unfold Precision in *. nia.
Qed.

(** An accumulator of the period that is not about to overflow. *)
Definition current (slot : Z) (a : usage_accumulator) : Prop :=
  accumulator_typed a /\ last_ordinal a = slot /\ value_ex a <= 2 ^ 62 /\ consumed a <= 2 ^ 62.

Lemma add_current units slot w a :
  current slot a -> 0 <= units < 2 ^ 32 -> is_uint 32 slot -> 0 < w <= Precision ->
  exists a', add units slot w a = Ok a' /\ value_ex a' = value_ex a + contribution units w.
Proof.
  intros (Hty & Hlo & Hv & Hc) Hu Hs Hw.
  destruct (add units slot w a) as [a'|e] eqn:E.
  - exists a'. split; [done|].
    destruct (accumulator_add_ok units slot w a a') as (_ & _ & _ & Hve & _);
      [done|unfold is_uint; lia|done|unfold is_uint, Precision in *; lia|done|].
    rewrite Hve. unfold decayed. by rewrite Hlo, Z.eqb_refl.
  - exfalso. destruct Hty as (_ & [Hv0 _] & [Hc0 _]). revert E. unfold add, advance. rewrite Hlo, Z.eqb_refl.
    unfold max_raw_value. change (UINT64_MAX / Precision) with 18446744073709.
    destruct (Z.leb_spec units 18446744073709); [|lia]. cbn [eos_assert res_bind].
    destruct (Z.leb_spec units (UINT64_MAX - consumed a)); [|unfold UINT64_MAX in *; lia]. cbn [eos_assert res_bind].
    unfold u128. rewrite wrap_small by (unfold is_uint, Precision; lia).
    rewrite integer_divide_ceil_ok by lia. cbn [res_bind]. fold (contribution units w).
    destruct (contribution_bound units w units) as [Hn Hb]; [lia|lia|].
    assert (contribution units w <= units * Precision) as Hcu by (unfold Precision in *; nia).
    unfold downgrade_cast.
    destruct (Z.leb_spec 0 (contribution units w)); [|lia].
    destruct (Z.leb_spec (contribution units w) UINT64_MAX); [|unfold UINT64_MAX, Precision in *; lia].
    cbn [andb eos_assert res_bind].
    destruct (Z.leb_spec (contribution units w) (UINT64_MAX - value_ex a)); [|unfold UINT64_MAX, Precision in *; lia].
    done.
Qed.

Section Billing.
Context {TL TU : Type} `{HTL : !Table (bool * Z) Manager.resource_limits_object TL}
        `{HTU : !Table Z Manager.resource_usage_object TU}.
Abbreviation limits_database := (@Manager.database TL TU).
Import Manager.

(** ** One resource of one account *)

(** [units] more fit in the window: nothing is asked without a limit. *)
Definition fits (capacity w weight total value units : Z) : Prop :=
  0 <= weight -> 0 < total ->
  used_in_window (value + contribution units w) w <= max_user_use_in_window capacity w weight total.

Lemma max_use_exact x w weight total :
  0 <= x < 2 ^ 64 -> 0 < w <= Precision -> 0 <= weight -> x * w * weight < 2 ^ 128 ->
  max_user_use_in_window x w weight total = x * w * weight / total.
Proof.
  intros Hx Hw Hweight H128. unfold max_user_use_in_window, u128.
  rewrite (wrap_small 128 (x * w)) by (unfold is_uint, Precision in *; nia).
  rewrite wrap_small; [done|]. unfold is_uint. split; [nia|done].
Qed.

(** What account_limit_ex says is available, with the capacity itself or a lower
    one, fits. *)
Lemma available_fits capacity cap w weight total value units arl :
  account_limit_ex cap w weight total value = Ok arl -> 0 <= cap <= capacity -> capacity < 2 ^ 64 ->
  capacity * w * weight < 2 ^ 128 ->
  0 <= value <= 2 ^ 62 -> 0 < units < 2 ^ 32 -> 0 < w <= Precision -> 0 <= total ->
  (0 <= available arl -> units <= available arl) -> fits capacity w weight total value units.
Proof.
  intros Hl Hcap H64 H128 Hv Hu Hw Ht Hav Hweight Htotal. unfold account_limit_ex in Hl.
  destruct (Z.ltb_spec weight 0); [lia|]. destruct (Z.eqb_spec total 0); [lia|]. cbn [orb] in Hl.
  assert (cap * w * weight <= capacity * w * weight) as Hmono
    by (apply Z.mul_le_mono_nonneg_r; [lia|]; apply Z.mul_le_mono_nonneg_r; lia).
  rewrite (max_use_exact cap) in Hl by lia. rewrite max_use_exact by lia.
  assert (cap * w * weight / total <= capacity * w * weight / total) as Hdiv by (apply Z.div_le_mono; lia).
  unfold u128 in Hl. rewrite wrap_small in Hl by (unfold is_uint, Precision in *; nia).
  rewrite integer_divide_ceil_ok in Hl by done. cbn [res_bind] in Hl.
  set (used := div_ceil (value * w) Precision) in *. set (m := cap * w * weight / total) in *.
  assert (units <= m - used) as Hroom.
  { destruct (Z.leb_spec m used); cbn [res_bind] in Hl; inv_res; cbn in Hav; [lia|].
    unfold downgrade_cast in *. inv_res. bprop. lia. }
  pose proof (spread_fits value units w ltac:(lia) ltac:(lia) Hw) as Hs. fold used in Hs.
  destruct (contribution_bound units w units) as [Hn Hb]; [lia|lia|].
  assert (contribution units w <= units * Precision) as Hcu by (unfold Precision in *; nia).
  unfold used_in_window, u128. rewrite wrap_small; [lia|]. unfold is_uint, Precision in *. nia.
Qed.

(** ** One account *)

(** The rows of an account that can be charged [cpu] and [net]. *)
Definition can_pay (d : limits_database) (slot cpu net a : Z) : Prop :=
  exists u l, tbl_view (usage d) !! a = Some u /\ effective d a = Some l
    /\ current slot (net_usage u) /\ current slot (cpu_usage u)
    /\ fits (virtual_cpu_limit (state d)) (account_cpu_usage_average_window (config d)) (cpu_weight l)
         (total_cpu_weight (state d)) (value_ex (cpu_usage u)) cpu
    /\ fits (virtual_net_limit (state d)) (account_net_usage_average_window (config d)) (net_weight l)
         (total_net_weight (state d)) (value_ex (net_usage u)) net.

Definition windows_ok (d : limits_database) : Prop :=
  0 < account_cpu_usage_average_window (config d) <= Precision
  /\ 0 < account_net_usage_average_window (config d) <= Precision.

Lemma add_account_usage_succeeds cpu net slot a (d : limits_database) :
  windows_ok d -> is_uint 32 slot -> 0 <= cpu < 2 ^ 32 -> 0 <= net < 2 ^ 32 -> can_pay d slot cpu net a ->
  exists d' u', add_account_usage cpu net slot a d = (Ok tt, d') /\ tbl_view (usage d') = <[a := u']> (tbl_view (usage d))
    /\ limits d' = limits d /\ config d' = config d /\ state d' = state d.
Proof.
  intros [Wc Wn] Hs Hc Hn (u & l & Hu & Hl & Cn & Cc & Fc & Fn).
  destruct (add_current net slot _ _ Cn Hn Hs Wn) as (an & En & Vn).
  destruct (add_current cpu slot _ _ Cc Hc Hs Wc) as (ac & Ec & Vc).
  set (u' := mk_usage an ac (ram_usage u)).
  exists (set_usage (tbl_put a u' (tbl_put a (mk_usage an (cpu_usage u) (ram_usage u)) (usage d))) d), u'.
  assert (charge a net cpu slot d =
    (Ok u', set_usage (tbl_put a u' (tbl_put a (mk_usage an (cpu_usage u) (ram_usage u)) (usage d))) d)) as Hcharge.
  { unfold charge, get_usage, put_usage, bind, get_state, lift, modify, ret, tbl_get.
    rewrite tbl_find_view, Hu, En, Ec. done. }
  split; [|cbn; rewrite !tbl_put_view, insert_insert_eq; done].
  unfold add_account_usage. unfold bind at 1. unfold get_usage at 1, bind at 1, get_state at 1, lift at 1, tbl_get at 1.
  rewrite tbl_find_view, Hu. unfold bind at 1. rewrite get_account_limits_effective, Hl.
  unfold bind at 1. rewrite Hcharge. unfold bind at 1, get_state at 1.
  cbn [state config set_usage]. change (cpu_usage u') with ac. change (net_usage u') with an. rewrite Vc, Vn.
  unfold fits in Fc, Fn.
  destruct (Z.leb_spec 0 (cpu_weight l)), (Z.ltb_spec 0 (total_cpu_weight (state d))),
    (Z.leb_spec 0 (net_weight l)), (Z.ltb_spec 0 (total_net_weight (state d))); cbn [andb];
    unfold bind, lift, eos_assert, ret;
    repeat (match goal with |- context [?x <=? ?y] => destruct (Z.leb_spec x y) end); done || lia.
Qed.

Lemma can_pay_other (d d' : limits_database) slot cpu net a b u :
  can_pay d slot cpu net b -> b <> a -> tbl_view (usage d') = <[a := u]> (tbl_view (usage d)) ->
  limits d' = limits d -> config d' = config d -> state d' = state d -> can_pay d' slot cpu net b.
Proof.
  intros (v & l & Hv & Hl & H) Hne Hu El Ec Es. exists v, l. rewrite Hu, lookup_insert_ne by done.
  unfold effective in *. rewrite El, Ec, Es. done.
Qed.

Lemma add_accounts_usage_succeeds cpu net slot accounts : forall (d : limits_database),
  windows_ok d -> is_uint 32 slot -> 0 <= cpu < 2 ^ 32 -> 0 <= net < 2 ^ 32 -> NoDup accounts ->
  (forall a, a ∈ accounts -> can_pay d slot cpu net a) ->
  exists d', for_each accounts (add_account_usage cpu net slot) d = (Ok tt, d') /\ config d' = config d /\ state d' = state d.
Proof.
  induction accounts as [|a accounts IH]; intros d Hw Hs Hc Hn Hnd Hpay; [by exists d|].
  apply NoDup_cons in Hnd as [Ha Hnd].
  destruct (add_account_usage_succeeds cpu net slot a d Hw Hs Hc Hn) as (d1 & u' & E & Hu & El & Ec & Es);
    [apply Hpay; by left|].
  destruct (IH d1) as (d' & E' & Ec' & Es'); [by unfold windows_ok; rewrite Ec|done|done|done|done| |].
  { intros b Hb. eapply can_pay_other; [apply Hpay; by right| |exact Hu|done|done|done]. by intros ->. }
  exists d'. cbn [for_each]. unfold bind. rewrite E, E'. split; [done|]. split; congruence.
Qed.

(** ** The whole of add_transaction_usage *)

Lemma add_transaction_usage_succeeds cpu net slot accounts n (d : limits_database) :
  windows_ok d -> is_uint 32 slot -> 0 <= cpu < 2 ^ 32 -> 0 <= net < 2 ^ 32 -> NoDup accounts -> block_accounting n d ->
  (forall a, a ∈ accounts -> can_pay d slot cpu net a) ->
  pending_cpu_usage (state d) + cpu <= max (cpu_limit_parameters (config d)) ->
  pending_net_usage (state d) + net <= max (net_limit_parameters (config d)) ->
  exists d', add_transaction_usage accounts cpu net slot d = (Ok tt, d').
Proof.
  intros Hw Hs Hc Hn Hnd Hacc Hpay Hcpu Hnet.
  destruct (add_accounts_usage_succeeds cpu net slot accounts d Hw Hs Hc Hn Hnd Hpay) as (d1 & E & Ec & Es).
  unfold add_transaction_usage. unfold bind at 1. rewrite E. eexists.
  unfold bind, modify, get_state, lift, eos_assert, ret. cbn [state config set_state pending_cpu_usage pending_net_usage].
  rewrite Ec, Es. destruct Hacc as (Fc & Fn & _ & _ & _ & _ & Pc & Pn & _).
  pose proof Fc as ((_ & ? & _) & Pdc & _ & Fc2 & _). pose proof Fn as ((_ & ? & _) & Pdn & _ & Fn2 & _).
  unfold is_uint in Pdc, Pdn. unfold UINT64_MAX, Precision in *. unfold u64. rewrite !wrap_small by (unfold is_uint; lia).
  destruct (Z.leb_spec (pending_cpu_usage (state d) + cpu) (max (cpu_limit_parameters (config d)))); [|lia].
  destruct (Z.leb_spec (pending_net_usage (state d) + net) (max (net_limit_parameters (config d)))); [|lia]. done.
Qed.
End Billing.

Section Finalize.
Context {K : Type} `{EqDecision K} {fc : Fc}.
Context {TL TU : Type} `{HTL : !Table (bool * Z) Manager.resource_limits_object TL}
        `{HTU : !Table Z Manager.resource_usage_object TU}.
Context {TP TPU TLK TG TA TX TB : Type} {permission_index : Table Z (permission_object K) TP}
  {permission_usage_index : Table Z Z TPU} {permission_link_index : Table (Z * Z * Z) Z TLK}
  {generated_transaction_index : Table Z generated_transaction_object TG}
  {account_index : Table Z account_object TA}
  {transaction_index : Table Z Z TX} {block_summary_index : Table Z digest_type TB}.
Context (env : trx_environment).
Abbreviation state_of := (@trx_state TL TU TP TPU TLK TG TA TX TB).
Abbreviation limits_database := (@Manager.database TL TU).

(** ** What the billed accounts can pay *)

(** The limit of an account bounds the one of the transaction. *)
Definition pays (d : limits_database) (net cpu a : Z) : Prop :=
  exists u l elastic arln arlc, tbl_view (Manager.usage d) !! a = Some u /\ Manager.effective d a = Some l
  /\ Manager.account_limit_ex (if elastic : bool then Manager.virtual_net_limit (Manager.state d)
        else max (Manager.net_limit_parameters (Manager.config d)))
       (Manager.account_net_usage_average_window (Manager.config d)) (Manager.net_weight l)
       (Manager.total_net_weight (Manager.state d)) (value_ex (Manager.net_usage u)) = Ok arln
  /\ Manager.account_limit_ex (if elastic then Manager.virtual_cpu_limit (Manager.state d)
        else max (Manager.cpu_limit_parameters (Manager.config d)))
       (Manager.account_cpu_usage_average_window (Manager.config d)) (Manager.cpu_weight l)
       (Manager.total_cpu_weight (Manager.state d)) (value_ex (Manager.cpu_usage u)) = Ok arlc
  /\ (0 <= Manager.available arln -> net <= Manager.available arln)
  /\ (0 <= Manager.available arlc -> cpu <= Manager.available arlc).

(** get_account_net_limit and get_account_cpu_limit read the rows of the account. *)
Ltac read_limit Hx :=
  unfold Manager.get_account_net_limit, Manager.get_account_net_limit_ex,
    Manager.get_account_cpu_limit, Manager.get_account_cpu_limit_ex in Hx;
  exec_step Hx;
  match goal with R : bind get_state _ _ = _ |- _ =>
    exec_step R; apply bind_ok in R as (u & s1 & Hu & R);
    unfold Manager.get_usage in Hu; exec_step Hu; apply lift_ok in Hu as [Hu ->];
    unfold tbl_get in Hu; rewrite tbl_find_view in Hu;
    apply bind_ok in R as (l & s2 & Hl & R); rewrite Manager.get_account_limits_effective in Hl;
    apply lift_ok in R as [Harl ->]
  end.

Lemma get_net_limit_ok a elastic (d d' : limits_database) x :
  Manager.get_account_net_limit a elastic d = (Ok x, d') -> d' = d /\
  exists u l arl, tbl_view (Manager.usage d) !! a = Some u /\ Manager.effective d a = Some l /\ x = Manager.available arl
  /\ Manager.account_limit_ex (if elastic then Manager.virtual_net_limit (Manager.state d)
        else max (Manager.net_limit_parameters (Manager.config d)))
       (Manager.account_net_usage_average_window (Manager.config d)) (Manager.net_weight l)
       (Manager.total_net_weight (Manager.state d)) (value_ex (Manager.net_usage u)) = Ok arl.
Proof.
  intros Hx. read_limit Hx. destruct (_ !! a) as [u0|]; [|done]. injection Hu as ->.
  destruct (Manager.effective d a) as [l0|]; [|done]. injection Hl as -> <-. injection Hx as <- <-.
  split; [done|]. by exists u, l, x0.
Qed.

Lemma get_cpu_limit_ok a elastic (d d' : limits_database) x :
  Manager.get_account_cpu_limit a elastic d = (Ok x, d') -> d' = d /\
  exists u l arl, tbl_view (Manager.usage d) !! a = Some u /\ Manager.effective d a = Some l /\ x = Manager.available arl
  /\ Manager.account_limit_ex (if elastic then Manager.virtual_cpu_limit (Manager.state d)
        else max (Manager.cpu_limit_parameters (Manager.config d)))
       (Manager.account_cpu_usage_average_window (Manager.config d)) (Manager.cpu_weight l)
       (Manager.total_cpu_weight (Manager.state d)) (value_ex (Manager.cpu_usage u)) = Ok arl.
Proof.
  intros Hx. read_limit Hx. destruct (_ !! a) as [u0|]; [|done]. injection Hu as ->.
  destruct (Manager.effective d a) as [l0|]; [|done]. injection Hl as -> <-. injection Hx as <- <-.
  split; [done|]. by exists u, l, x0.
Qed.

Definition bw_net (b : bandwidth) : Z := fst (fst (fst b)).
Definition bw_cpu (b : bandwidth) : Z := snd (fst (fst b)).

Lemma lower_bandwidth_ok force b a (d d' : limits_database) b' :
  lower_bandwidth env force b a d = (Ok b', d') ->
  d' = d /\ bw_net b' <= bw_net b /\ bw_cpu b' <= bw_cpu b /\ (0 <= bw_net b -> 0 <= bw_net b')
  /\ pays d (bw_net b') (bw_cpu b') a.
Proof.
  destruct b as [[[bn bc] gn] gc]. unfold lower_bandwidth, bw_net, bw_cpu. intros Hrun.
  set (elastic := force || _) in Hrun. exec_step Hrun.
  apply get_net_limit_ok in R as (-> & u & l & arln & Hu & Hl & -> & Harln).
  set (p := if 0 <=? Manager.available arln then _ else _) in Hrun. destruct p as [bn' gn'] eqn:Ep. unfold p in Ep. clear p.
  exec_step Hrun. apply get_cpu_limit_ok in R as (-> & u' & l' & arlc & Hu' & Hl' & -> & Harlc). simplify_eq.
  set (p := if 0 <=? Manager.available arlc then _ else _) in Hrun. destruct p as [bc' gc'] eqn:Ep'. unfold p in Ep'. clear p.
  injection Hrun as <- <-. cbn [fst snd].
  assert (bn' <= bn /\ (0 <= bn -> 0 <= bn') /\ (0 <= Manager.available arln -> bn' <= Manager.available arln)) as Hn.
  { destruct (Z.leb_spec 0 (Manager.available arln)); injection Ep as <- _; lia. }
  assert (bc' <= bc /\ (0 <= Manager.available arlc -> bc' <= Manager.available arlc)) as Hc.
  { destruct (Z.leb_spec 0 (Manager.available arlc)); injection Ep' as <- _; lia. }
  split; [done|]. split; [lia|]. split; [lia|]. split; [lia|].
  exists u, l, elastic, arln, arlc. split_and!; [done|done|done|done|lia|lia].
Qed.

Lemma pays_less (d : limits_database) net cpu net' cpu' a : pays d net cpu a -> net' <= net -> cpu' <= cpu -> pays d net' cpu' a.
Proof. intros (u & l & e & an & ac & H1 & H2 & H3 & H4 & H5 & H6) ? ?. exists u, l, e, an, ac. split_and!; [done..|lia|lia]. Qed.

Lemma lower_bandwidths_ok force l : forall b (d d' : limits_database) b',
  lower_bandwidths env force b l d = (Ok b', d') ->
  d' = d /\ bw_net b' <= bw_net b /\ bw_cpu b' <= bw_cpu b /\ (0 <= bw_net b -> 0 <= bw_net b')
  /\ forall a, a ∈ l -> pays d (bw_net b') (bw_cpu b') a.
Proof.
  induction l as [|a l IH]; intros b d d' b' Hrun; cbn [lower_bandwidths] in Hrun.
  - injection Hrun as <- <-. split_and!; [done|lia|lia|done|by intros a ?%elem_of_nil].
  - exec_step Hrun. apply lower_bandwidth_ok in R as (-> & H1 & H2 & H3 & Hp).
    apply IH in Hrun as (-> & H4 & H5 & H6 & Hps). split_and!; [done|lia|lia|tauto|].
    intros c [-> |Hc]%elem_of_cons; [|by apply Hps]. by eapply pays_less.
Qed.

(** ** The invariant between init and finalize *)

Definition capacities_fit (d : limits_database) (a : Z) : Prop :=
  forall l, Manager.effective d a = Some l ->
    Manager.virtual_net_limit (Manager.state d) < 2 ^ 64 /\ Manager.virtual_cpu_limit (Manager.state d) < 2 ^ 64
    /\ Manager.virtual_net_limit (Manager.state d) * Manager.account_net_usage_average_window (Manager.config d)
       * Manager.net_weight l < 2 ^ 128
    /\ Manager.virtual_cpu_limit (Manager.state d) * Manager.account_cpu_usage_average_window (Manager.config d)
       * Manager.cpu_weight l < 2 ^ 128.

(** The accumulators of the account are those of this block's slot. *)
Definition up_to_date (d : limits_database) (slot a : Z) : Prop :=
  exists u, tbl_view (Manager.usage d) !! a = Some u /\ current slot (Manager.net_usage u)
    /\ current slot (Manager.cpu_usage u).

Record billable (s : state_of) : Prop := {
  bl_slot : is_uint 32 (time_slot env);
  bl_windows : windows_ok (limits_db s);
  bl_block : exists n, Manager.block_accounting n (limits_db s);
  bl_totals : 0 <= Manager.total_net_weight (Manager.state (limits_db s))
    /\ 0 <= Manager.total_cpu_weight (Manager.state (limits_db s));
  bl_net : net_limit (net (trx s)) < 2 ^ 32
    /\ Manager.pending_net_usage (Manager.state (limits_db s)) + net_limit (net (trx s))
       <= max (Manager.net_limit_parameters (Manager.config (limits_db s)));
  bl_cpu : objective_duration_limit (cpu (trx s)) < 2 ^ 32
    /\ Manager.pending_cpu_usage (Manager.state (limits_db s)) + objective_duration_limit (cpu (trx s))
       <= max (Manager.cpu_limit_parameters (Manager.config (limits_db s)));
  bl_accounts : forall a, a ∈ bill_to_accounts (trx s) ->
    up_to_date (limits_db s) (time_slot env) a /\ capacities_fit (limits_db s) a
}.

Lemma pays_can_pay (s : state_of) netl cpul n c a :
  billable s -> a ∈ bill_to_accounts (trx s) -> pays (limits_db s) netl cpul a ->
  0 < n <= netl -> n < 2 ^ 32 -> 0 < c <= cpul -> c < 2 ^ 32 -> can_pay (limits_db s) (time_slot env) c n a.
Proof.
  intros [Hslot [Wc Wn] (bn & Hblk) [Tn Tc] _ _ Hacc] Ha (u & l & el & arln & arlc & Hu & Hl & Hn & Hc & An & Ac) ? ? ? ?.
  destruct (Hacc a Ha) as [(u' & Hu' & Cn & Cc) Hcap]. simplify_eq. destruct (Hcap l Hl) as (V1 & V2 & P1 & P2).
  destruct Hblk as (Fc & Fn & _ & _ & _ & _ & _ & _ & Vc & Vn). unfold Manager.limit_in_range in Vc, Vn.
  pose proof Fc as ((_ & Mc & _) & _). pose proof Fn as ((_ & Mn & _) & _).
  exists u, l. split_and!; [done|done|done|done|..].
  - eapply available_fits; [exact Hc|destruct el; lia|done|done| |lia|done|done|lia].
    destruct Cc as ((_ & [? _] & _) & _ & ? & _). lia.
  - eapply available_fits; [exact Hn|destruct el; lia|done|done| |lia|done|done|lia].
    destruct Cn as ((_ & [? _] & _) & _ & ? & _). lia.
Qed.

Lemma update_used_permissions_trx l : forall (s s' : state_of) u,
  for_each l (update_used_permission env) s = (Ok u, s') ->
  trx s' = trx s /\ limits_db s' = limits_db s /\ ram_accounts s' = ram_accounts s.
Proof.
  induction l as [|x l IH]; intros s s' u Hrun; cbn [for_each] in Hrun; [by injection Hrun as _ <-|].
  exec_step Hrun. apply IH in Hrun as (-> & -> & ->). unfold update_used_permission in R. do 2 exec_step R.
  by apply zoom_ok in R as (d' & _ & ->).
Qed.

Lemma verify_ram_id l : forall (d d' : limits_database) u,
  for_each l Manager.verify_account_ram_usage d = (Ok u, d') -> d' = d.
Proof.
  induction l as [|x l IH]; intros d d' u Hrun; cbn [for_each] in Hrun; [by injection Hrun as _ <-|].
  exec_step Hrun. apply IH in Hrun as ->. unfold Manager.verify_account_ram_usage in R.
  exec_step R. rewrite Manager.get_account_limits_effective in R0. destruct (Manager.effective d x); [|done].
  injection R0 as <- <-. exec_step R. unfold Manager.get_usage in R0. exec_step R0. apply lift_ok in R0 as [_ ->].
  destruct (0 <=? _); [|by injection R]. exec_step R. by injection R.
Qed.

(** What finalize_checks leaves when it returns. *)
Lemma finalize_checks_ok now (s s1 : state_of) u :
  finalize_checks env now s = (Ok u, s1) -> skip_trx_checks env = false ->
  limits_db s1 = limits_db s /\ bill_to_accounts (trx s1) = bill_to_accounts (trx s)
  /\ exists b, (forall a, a ∈ bill_to_accounts (trx s) -> pays (limits_db s) (bw_net b) (bw_cpu b) a)
     /\ 0 <= bw_net b <= large_number_no_overflow
     /\ net_usage (net (trx s1)) <= Z.min (net_limit (net (trx s))) (bw_net b)
     /\ billed_cpu_time_us (cpu (trx s1)) <= Z.min (objective_duration_limit (cpu (trx s))) (bw_cpu b).
Proof.
  intros Hrun Hskip. unfold finalize_checks, modify_trx in Hrun. do 2 exec_step Hrun. exec_step Hrun.
  assert (trx s0 = trx s /\ limits_db s0 = limits_db s) as [Et El].
  { destruct (is_input (trx s)); [by apply update_used_permissions_trx in R as (-> & -> & _)|by injection R as _ <-]. }
  clear R. exec_step Hrun. apply zoom_ok in R as (d1 & Hv%verify_ram_id & ->). subst d1. exec_step Hrun.
  apply zoom_ok in R as (d2 & Hb & ->). apply lower_bandwidths_ok in Hb as (-> & B1 & B2 & B3 & Hpay).
  cbn [limits_db set_limits_db] in Hpay. rewrite El in Hpay. destruct x1 as [[[bn bc] gn] gc].
  cbn [bw_net bw_cpu fst snd] in *.
  do 5 (cbv beta iota in Hrun; exec_step Hrun). cbv beta iota in Hrun. apply lift_ok in Hrun as [Hcpu ->].
  injection R as <- <-. injection R0 as <- <-.
  cbn [trx set_trx set_limits_db limits_db] in *. rewrite Et, El in *.
  split; [done|]. split.
  { unfold final_limits. cbn [net cpu set_cpu set_net bill_to_accounts trx set_trx]. by destruct (_ <=? _), (_ <=? _). }
  assert (0 <= bn) as Hbn by (apply B3; by vm_compute).
  assert (u64 bn = bn) as Hu64.
  { unfold u64. apply wrap_small. unfold is_uint. change large_number_no_overflow with 4611686018427387903 in B1. lia. }
  exists (bn, bc, gn, gc). cbn [bw_net bw_cpu fst snd]. split.
  { intros a Ha. apply Hpay. unfold flat. rewrite merge_sort_Permutation. by apply elem_of_elements. }
  split; [split; [done|exact B1]|].
  unfold check_net_usage, validate_cpu_usage_to_bill, final_limits in *. rewrite Hskip in *. cbn [negb] in *.
  rewrite Hu64 in *. split.
  - clear Hcpu. destruct (Z.leb_spec bn (net_limit (net (trx s)))), (Z.leb_spec bc (objective_duration_limit (cpu (trx s))));
      cbn [set_cpu set_net net cpu eager_net_limit net_usage net_limit_due_to_block net_limit_due_to_greylist trx set_trx] in *;
      match type of L with (if ?x <? ?y then _ else _) = _ => destruct (Z.ltb_spec x y) end;
      try lia; repeat (match type of L with (if ?x then _ else _) = _ => destruct x end); done.
  - clear L. apply res_bind_ok in Hcpu as (_ & _ & Hcpu).
    destruct (Z.leb_spec bn (net_limit (net (trx s)))), (Z.leb_spec bc (objective_duration_limit (cpu (trx s))));
      unfold update_billed_cpu_time in *; destruct (explicit_billed_cpu_time env);
      cbn [set_cpu set_net net cpu objective_duration_limit billed_cpu_time_us set_billed_cpu trx set_trx] in *;
      repeat (match type of Hcpu with (if ?x then _ else _) = _ => destruct x end); inv_res; bprop; lia.
Qed.

(** C27: The billing of a transaction cannot fail: when the checks of finalize
    return, and the transaction is billed some CPU time and some bandwidth, the
    call of add_transaction_usage that follows ("should never fail") returns,
    whatever the rounding of the moving averages and whether or not an account
    is greylisted. *)
Theorem billing_never_fails now (s s1 : state_of) u :
  billable s -> skip_trx_checks env = false -> finalize_checks env now s = (Ok u, s1) ->
  0 < net_usage (net (trx s1)) -> 0 < billed_cpu_time_us (cpu (trx s1)) ->
  exists s2, finalize_bill env s1 = (Ok tt, s2).
Proof.
  intros Hb Hskip Hrun Hn Hc. destruct (finalize_checks_ok now s s1 u Hrun Hskip) as (El & Ea & b & Hpay & _ & Un & Uc).
  pose proof (bl_net _ Hb) as [N1 N2]. pose proof (bl_cpu _ Hb) as [C1 C2]. destruct (bl_block _ Hb) as (bn & Hblk).
  assert (exists d', Manager.add_transaction_usage (flat (bill_to_accounts (trx s1)))
    (u64 (billed_cpu_time_us (cpu (trx s1)))) (net_usage (net (trx s1))) (time_slot env) (limits_db s1) = (Ok tt, d')) as [d' Hd].
  { unfold u64. rewrite wrap_small by (unfold is_uint; lia). rewrite El, Ea.
    apply (add_transaction_usage_succeeds _ _ _ _ bn); try (by apply Hb); [lia|lia| |done| |lia|lia].
    - unfold flat. rewrite merge_sort_Permutation. apply NoDup_elements.
    - intros a Ha. unfold flat in Ha. rewrite merge_sort_Permutation in Ha. apply elem_of_elements in Ha.
      eapply pays_can_pay; [done|done|by apply Hpay|lia..]. }
  exists (set_limits_db d' s1). unfold finalize_bill, bind, get_state, in_limits_db, zoom. by rewrite Hd.
Qed.

(** ** init establishes the invariant *)

(** Accumulators far from overflow, of this slot or an earlier one. *)
Definition sound_accumulator (a : usage_accumulator) : Prop :=
  accumulator_typed a /\ value_ex a <= 2 ^ 62 /\ consumed a <= 2 ^ 62.

Record limits_sound (d : limits_database) : Prop := {
  ls_windows : windows_ok d;
  ls_block : exists n, Manager.block_accounting n d;
  ls_totals : 0 <= Manager.total_net_weight (Manager.state d) /\ 0 <= Manager.total_cpu_weight (Manager.state d);
  ls_capacities : forall a, capacities_fit d a;
  ls_usage : forall a u, tbl_view (Manager.usage d) !! a = Some u ->
    sound_accumulator (Manager.net_usage u) /\ sound_accumulator (Manager.cpu_usage u)
}.

Lemma add_nothing slot w a a' :
  sound_accumulator a -> is_uint 32 slot -> 0 < w <= Precision -> add 0 slot w a = Ok a' ->
  sound_accumulator a' /\ last_ordinal a' = slot.
Proof.
  intros (Hty & Hv & Hc) Hs Hw Hadd.
  destruct (accumulator_add_ok 0 slot w a a') as (_ & Hle & Hlo & Hve & Hco & Hty');
    [done|unfold is_uint; lia|done|unfold is_uint, Precision in *; lia|done|].
  split; [|done]. split; [done|].
  assert (contribution 0 w = 0) as Hc0.
  { unfold contribution. symmetry. apply div_ceil_unique; lia. }
  destruct Hty as (_ & [Hv0 _] & _). pose proof (decayed_bound a slot w Hv0 ltac:(lia) Hle) as Hd.
  rewrite Hve, Hco, Hc0. split; [lia|]. destruct (last_ordinal a =? slot); [lia|].
  pose proof (div_ceil_spec (decayed a slot w) Precision ltac:(done)). unfold Precision in *. lia.
Qed.

Lemma same_books (d d' : limits_database) :
  limits_sound d -> Manager.limits d' = Manager.limits d -> Manager.config d' = Manager.config d ->
  Manager.state d' = Manager.state d ->
  (forall a u, tbl_view (Manager.usage d') !! a = Some u ->
     sound_accumulator (Manager.net_usage u) /\ sound_accumulator (Manager.cpu_usage u)) -> limits_sound d'.
Proof.
  intros [H1 (n & H2) H3 H4 _] El Ec Es Hu. split; [|exists n| | |done].
  - unfold windows_ok. by rewrite Ec.
  - unfold Manager.block_accounting. by rewrite Ec, Es.
  - by rewrite Es.
  - intros a l. unfold Manager.effective, capacities_fit in *. rewrite El, Ec, Es. apply H4.
Qed.

(** update_account_usage brings every billed account to this slot. *)
Lemma update_account_usage_ok slot l : is_uint 32 slot -> forall (d d' : limits_database) u,
  limits_sound d -> Manager.update_account_usage l slot d = (Ok u, d') ->
  limits_sound d' /\ Manager.limits d' = Manager.limits d /\ Manager.config d' = Manager.config d
  /\ Manager.state d' = Manager.state d /\ (forall a, up_to_date d slot a \/ a ∈ l -> up_to_date d' slot a).
Proof.
  intros Hs. unfold Manager.update_account_usage. induction l as [|a l IH]; intros d d' u Hd Hrun; cbn [for_each] in Hrun.
  { injection Hrun as _ <-. split_and!; [done..|]. by intros a [?|?%elem_of_nil]. }
  exec_step Hrun. exec_step R. injection R as _ <-. pose proof (ls_windows _ Hd) as [Wc Wn].
  apply Manager.charge_ok in R0 as (v & Hv & (An & Ac & _) & Hu' & El & Ec & Es).
  destruct (ls_usage _ Hd _ _ Hv) as [Sn Sc].
  destruct (add_nothing slot _ _ _ Sn Hs Wn An) as [Sn' Ln]. destruct (add_nothing slot _ _ _ Sc Hs Wc Ac) as [Sc' Lc].
  assert (limits_sound s0) as Hd1.
  { eapply same_books; [exact Hd|done|done|done|]. intros b w. rewrite Hu'.
    intros [[_ <-]|[_ Hw]]%lookup_insert_Some; [done|by eapply (ls_usage _ Hd)]. }
  destruct (IH s0 d' u Hd1 Hrun) as (Hd' & El' & Ec' & Es' & Hup).
  split_and!; [done|congruence|congruence|congruence|]. intros b Hb. apply Hup.
  destruct (decide (a = b)) as [<-|Hne].
  - left. exists x0. rewrite Hu', lookup_insert_eq. destruct Sn' as (? & ? & ?), Sc' as (? & ? & ?). done.
  - destruct Hb as [(w & Hw & Cn & Cc)|[-> |Hb]%elem_of_cons]; [|done|by right].
    left. exists w. by rewrite Hu', lookup_insert_ne.
Qed.

Lemma objective_net_bound (d : limits_database) due n :
  Manager.block_accounting n d -> config_typed (cfg env) ->
  fst (objective_net_limit env d due) < 2 ^ 32
  /\ Manager.pending_net_usage (Manager.state d) + fst (objective_net_limit env d due)
     <= max (Manager.net_limit_parameters (Manager.config d)).
Proof.
  intros (_ & Fn & _ & _ & _ & _ & _ & Pn & _) (_ & Hc & _). rewrite !Forall_cons in Hc. unfold is_uint in Hc. cbv beta in Hc.
  pose proof Fn as ((_ & Mn & _) & Pd & _ & F2 & _). unfold is_uint in Pd. unfold UINT64_MAX, Precision in F2.
  unfold objective_net_limit, Manager.get_block_net_limit.
  assert (forall x, 0 <= x <= max (Manager.net_limit_parameters (Manager.config d)) -> u64 x = x) as Hu
    by (intros x Hx; unfold u64; apply wrap_small; unfold is_uint; lia).
  rewrite !(Hu (_ - _)) by lia.
  destruct (Z.leb_spec (max_transaction_net_usage (cfg env))
    (max (Manager.net_limit_parameters (Manager.config d)) - Manager.pending_net_usage (Manager.state d)));
    (destruct (_ && _) eqn:E; [bprop|]); cbn [fst]; lia.
Qed.

Lemma objective_cpu_bound (d : limits_database) code n :
  Manager.block_accounting n d -> config_typed (cfg env) ->
  fst (objective_cpu_limit env d code) < 2 ^ 32
  /\ Manager.pending_cpu_usage (Manager.state d) + fst (objective_cpu_limit env d code)
     <= max (Manager.cpu_limit_parameters (Manager.config d)).
Proof.
  intros (Fc & _ & _ & _ & _ & _ & Pc & _) (_ & Hc & _). rewrite !Forall_cons in Hc. unfold is_uint in Hc. cbv beta in Hc.
  pose proof Fc as ((_ & Mc & _) & Pd & _ & F2 & _). unfold is_uint in Pd. unfold UINT64_MAX, Precision in F2.
  unfold objective_cpu_limit, Manager.get_block_cpu_limit. unfold u64. rewrite wrap_small by (unfold is_uint; lia).
  rewrite i64_small by (unfold is_int64; lia).
  destruct (Z.leb_spec (max_transaction_cpu_usage (cfg env))
    (max (Manager.cpu_limit_parameters (Manager.config d)) - Manager.pending_cpu_usage (Manager.state d)));
    (destruct (0 <? _); [match goal with |- context [?x <=? ?y] => destruct (Z.leb_spec x y) end|]); cbn [fst]; lia.
Qed.

Lemma init_eager_limits_kept b (t : transaction_context) :
  net_limit (net (init_eager_limits env b t)) = net_limit (net t)
  /\ objective_duration_limit (cpu (init_eager_limits env b t)) = objective_duration_limit (cpu t)
  /\ bill_to_accounts (init_eager_limits env b t) = bill_to_accounts t.
Proof.
  destruct b as [[[bn bc] gn] gc]. unfold init_eager_limits.
  destruct (_ <? _), (_ <=? _), (_ || _); done.
Qed.

Lemma header_limits (d : limits_database) due code :
  fst (objective_net_limit env d due) <= max_transaction_net_usage (cfg env)
  /\ (0 < max_net_usage_words (the_trx env) < 2 ^ 32 ->
      fst (objective_net_limit env d due) <= 8 * max_net_usage_words (the_trx env))
  /\ fst (objective_cpu_limit env d code) <= max_transaction_cpu_usage (cfg env)
  /\ (0 < max_cpu_usage_ms (the_trx env) ->
      fst (objective_cpu_limit env d code) <= 1000 * max_cpu_usage_ms (the_trx env)).
Proof.
  unfold objective_net_limit, objective_cpu_limit.
  set (b := Manager.get_block_net_limit d). set (c := i64 (Manager.get_block_cpu_limit d)).
  assert (0 < max_net_usage_words (the_trx env) < 2 ^ 32 ->
    u64 (max_net_usage_words (the_trx env) * 8) = max_net_usage_words (the_trx env) * 8) as Hu.
  { intros. unfold u64. apply wrap_small. unfold is_uint. lia. }
  set (w := u64 _) in *. split_and!.
  - destruct (Z.leb_spec (max_transaction_net_usage (cfg env)) b); (destruct (_ && _) eqn:E; bprop); cbn [fst]; lia.
  - intros Hw. specialize (Hu Hw). destruct (Z.leb_spec (max_transaction_net_usage (cfg env)) b), (Z.ltb_spec 0 w);
      cbn [andb]; (destruct (Z.leb_spec w (max_transaction_net_usage (cfg env))) || idtac);
      (destruct (Z.leb_spec w b) || idtac); cbn [fst]; lia.
  - destruct (Z.leb_spec (max_transaction_cpu_usage (cfg env)) c); (destruct (0 <? _) eqn:E);
      [destruct (Z.leb_spec (1000 * max_cpu_usage_ms (the_trx env)) (max_transaction_cpu_usage (cfg env)))|
      |destruct (Z.leb_spec (1000 * max_cpu_usage_ms (the_trx env)) c)|]; cbn [fst]; lia.
  - intros Hm. destruct (Z.leb_spec (max_transaction_cpu_usage (cfg env)) c), (Z.ltb_spec 0 (max_cpu_usage_ms (the_trx env)));
      try lia; [destruct (Z.leb_spec (1000 * max_cpu_usage_ms (the_trx env)) (max_transaction_cpu_usage (cfg env)))
      |destruct (Z.leb_spec (1000 * max_cpu_usage_ms (the_trx env)) c)]; cbn [fst]; lia.
Qed.

Lemma init_objective_limits_fields (d : limits_database) (t : transaction_context) :
  net_limit (net (init_objective_limits env d t)) = fst (objective_net_limit env d (net_limit_due_to_block (net t)))
  /\ objective_duration_limit (cpu (init_objective_limits env d t))
     = fst (objective_cpu_limit env d (billing_timer_exception_code (cpu t)))
  /\ bill_to_accounts (init_objective_limits env d t) = bill_to_accounts t.
Proof.
  unfold init_objective_limits. by destruct (objective_net_limit _ _ _), (objective_cpu_limit _ _ _).
Qed.

Lemma add_net_usage_kept (usage : Z) (s s' : state_of) u :
  (if 0 <? usage then add_net_usage env usage else ret tt) s = (Ok u, s') ->
  limits_db s' = limits_db s /\ net_limit (net (trx s')) = net_limit (net (trx s)) /\ cpu (trx s') = cpu (trx s)
  /\ bill_to_accounts (trx s') = bill_to_accounts (trx s).
Proof.
  destruct (0 <? usage); [|by intros [= _ <-]]. unfold add_net_usage, modify_trx. intros Hrun.
  do 2 (exec_step Hrun; cbv beta iota in Hrun). by apply lift_ok in Hrun as [_ ->].
Qed.

(** What init does to the limits when it returns. *)
Lemma init_ok usage expired now (s s' : state_of) u :
  init env usage expired now s = (Ok u, s') ->
  bill_to_accounts (trx s') = bill_to_accounts (trx s) ∪ accounts_to_bill env
  /\ Manager.update_account_usage (flat (bill_to_accounts (trx s'))) (time_slot env) (limits_db s) = (Ok tt, limits_db s')
  /\ net_limit (net (trx s')) = fst (objective_net_limit env (limits_db s) (net_limit_due_to_block (net (trx s))))
  /\ objective_duration_limit (cpu (trx s'))
     = fst (objective_cpu_limit env (limits_db s) (billing_timer_exception_code (cpu (trx s)))).
Proof.
  intros Hrun. unfold init, modify_trx in Hrun. do 3 (exec_step Hrun; cbv beta iota in Hrun).
  exec_step Hrun. injection R as <- <-. do 2 (exec_step Hrun; cbv beta iota in Hrun).
  exec_step Hrun. injection R as <- <-. exec_step Hrun. apply zoom_ok in R as (d1 & Hup & ->). destruct x0.
  exec_step Hrun. apply zoom_ok in R as (d2 & Hb & ->). apply lower_bandwidths_ok in Hb as (-> & _).
  do 2 (exec_step Hrun; cbv beta iota in Hrun).
  apply add_net_usage_kept in R as (El & En & Ec & Ea).
  exec_step Hrun. injection R as <- <-. exec_step Hrun. injection Hrun as _ <-.
  cbn [trx limits_db set_trx set_limits_db set_initialized net cpu bill_to_accounts] in *.
  rewrite El, En, Ec, Ea.
  destruct (init_eager_limits_kept x0 (set_bill_to (bill_to_accounts (init_objective_limits env (limits_db s) (trx s))
    ∪ accounts_to_bill env) (init_objective_limits env (limits_db s) (trx s)))) as (-> & -> & ->).
  destruct (init_objective_limits_fields (limits_db s) (trx s)) as (E1 & E2 & E3).
  cbn [net cpu set_bill_to bill_to_accounts] in *. rewrite E3 in *. done.
Qed.

Lemma init_billable usage expired now (s s' : state_of) u :
  limits_sound (limits_db s) -> config_typed (cfg env) -> is_uint 32 (time_slot env) ->
  bill_to_accounts (trx s) = ∅ -> init env usage expired now s = (Ok u, s') -> billable s'.
Proof.
  intros Hsound Hcfg Hslot Hnone Hrun. apply init_ok in Hrun as (Ea & Hup & En & Ec).
  destruct (ls_block _ Hsound) as (n & Hblk).
  destruct (update_account_usage_ok _ _ Hslot _ _ _ Hsound Hup) as ([W B T C _] & El & Ecf & Es & Hcur).
  split; [done|done|done|done|..].
  - rewrite En, Es, Ecf. by eapply objective_net_bound.
  - rewrite Ec, Es, Ecf. by eapply objective_cpu_bound.
  - intros a Ha. split; [|apply C]. apply Hcur. right. unfold flat. rewrite merge_sort_Permutation. by apply elem_of_elements.
Qed.

(** init prepares the billing: when it returns, the limits of the transaction
    are within what is left in the block, the configuration's maximum and what
    the header allows, every billed account's averages are those of this slot,
    and so the invariant that makes the billing succeed holds; the accounts
    billed are the authorizers of the actions, or the first of them alone. *)
Theorem init_makes_billable usage expired now (s s' : state_of) u :
  limits_sound (limits_db s) -> config_typed (cfg env) -> is_uint 32 (time_slot env) ->
  bill_to_accounts (trx s) = ∅ -> init env usage expired now s = (Ok u, s') ->
  billable s' /\ bill_to_accounts (trx s') = accounts_to_bill env
  /\ net_limit (net (trx s')) <= max_transaction_net_usage (cfg env)
  /\ (0 < max_net_usage_words (the_trx env) < 2 ^ 32 -> net_limit (net (trx s')) <= 8 * max_net_usage_words (the_trx env))
  /\ objective_duration_limit (cpu (trx s')) <= max_transaction_cpu_usage (cfg env)
  /\ (0 < max_cpu_usage_ms (the_trx env) -> objective_duration_limit (cpu (trx s')) <= 1000 * max_cpu_usage_ms (the_trx env)).
Proof.
  intros Hsound Hcfg Hslot Hnone Hrun. split; [by eapply init_billable|].
  apply init_ok in Hrun as (Ea & _ & En & Ec). rewrite Hnone, (left_id_L ∅ (∪)) in Ea.
  split; [exact Ea|]. rewrite En, Ec. apply header_limits.
Qed.
End Finalize.
