(* ===== verification/TransactionExamples.v ===== *)
(** Concrete transactions: the theorems of TransactionBilling.v at work, and the
    deferred transaction whose billing fails although the checks passed. *)

From Stdlib Require Import ZArith Lia.
From stdpp Require Import base gmap numbers sorting list.
From S2P Require Import Prelude Chainbase Merkle Authority AuthorityChecker ResourceLimits BlockTimestamp BlockHeader AuthorizationManager ChainConfig AccessLists EosioContract Transaction TransactionContext TransactionBilling.

#[local] Open Scope Z_scope.
#[local] Open Scope chain_scope.
Import Authorization Authorization.Examples.

Abbreviation toy_trx_state := (@trx_state (gmap (bool * Z) Manager.resource_limits_object) (gmap Z Manager.resource_usage_object)
  (gmap Z (permission_object nat)) (gmap Z Z) (gmap (Z * Z * Z) Z) (gmap Z generated_transaction_object)
  (gmap Z account_object) (gmap Z Z) (gmap Z digest_type)).

(** One action authorized by account 1; 4,096 bytes and 20 ms at most. *)
Definition sample_trx : transaction :=
  mk_transaction 1577836900 0 0 512 20 0 [] [mk_action 2 77 [mk_level 1 active_name] []] [].

Definition sample_env : trx_environment :=
  mk_trx_environment default_configuration false false false 1577836800000000 true ∅ (mk_access_lists [] [] [] [] [] [])
    sample_trx 4242 1000000 1150000 300 false.

(** Before init; [d]: the tables of the resource limits. *)
Definition fresh_trx (d : @Manager.database (gmap (bool * Z) Manager.resource_limits_object)
    (gmap Z Manager.resource_usage_object)) : toy_trx_state :=
  mk_trx_state (new_transaction_context 1000000 0) ∅ d empty_db ∅ ∅ ∅.

Definition initialized : res unit * toy_trx_state := init sample_env 128 false 1000100 (fresh_trx Manager.sample_db).
Definition checked : res unit * toy_trx_state := finalize_checks sample_env 1000900 (snd initialized).

(** ** The books are sound *)

#[local] Instance is_uint_dec w x : Decision (is_uint w x).
Proof. unfold is_uint. apply _. Defined.
#[local] Instance sound_accumulator_dec a : Decision (sound_accumulator a).
Proof. unfold sound_accumulator, Accumulator.accumulator_typed. apply _. Defined.

Abbreviation toy_limits := (@Manager.database (gmap (bool * Z) Manager.resource_limits_object)
  (gmap Z Manager.resource_usage_object)).

Definition weights_fit (d : toy_limits) (l : Manager.resource_limits_object) : Prop :=
  Manager.virtual_net_limit (Manager.state d) < 2 ^ 64 /\ Manager.virtual_cpu_limit (Manager.state d) < 2 ^ 64
  /\ Manager.virtual_net_limit (Manager.state d) * Manager.account_net_usage_average_window (Manager.config d)
     * Manager.net_weight l < 2 ^ 128
  /\ Manager.virtual_cpu_limit (Manager.state d) * Manager.account_cpu_usage_average_window (Manager.config d)
     * Manager.cpu_weight l < 2 ^ 128.

#[local] Instance weights_fit_dec d l : Decision (weights_fit d l).
Proof. unfold weights_fit. apply _. Defined.

Lemma sound_check (d : toy_limits) :
  (exists n, Manager.block_accounting n d) ->
  bool_decide (0 < Manager.account_cpu_usage_average_window (Manager.config d) <= Accumulator.Precision
    /\ 0 < Manager.account_net_usage_average_window (Manager.config d) <= Accumulator.Precision
    /\ 0 <= Manager.total_net_weight (Manager.state d) /\ 0 <= Manager.total_cpu_weight (Manager.state d)
    /\ map_Forall (fun _ l => weights_fit d l) (Manager.limits d)
    /\ map_Forall (fun _ u => sound_accumulator (Manager.net_usage u) /\ sound_accumulator (Manager.cpu_usage u))
         (Manager.usage d)) = true -> limits_sound d.
Proof.
  intros Hblk (H1 & H2 & H3 & H4 & Hl & Hu)%bool_decide_eq_true. split; [done|done|done| |].
  - intros a l. unfold Manager.effective. cbn.
    destruct (Manager.limits d !! (true, a)) as [p|] eqn:E; [intros [= <-]; by apply (Hl _ _ E)|].
    intros E'. by apply (Hl _ _ E').
  - exact Hu.
Qed.

Lemma sample_sound : limits_sound Manager.sample_db.
Proof. apply sound_check; [exists 0; by apply Manager.sample_block_accounting|vm_refl]. Qed.

Lemma default_config_typed : config_typed default_configuration.
Proof. unfold config_typed. apply (bool_decide_unpack _). by vm_compute. Qed.

Lemma slot_typed : is_uint 32 (time_slot sample_env).
Proof. by vm_compute. Qed.

Lemma initialized_ok : init sample_env 128 false 1000100 (fresh_trx Manager.sample_db) = (Ok tt, snd initialized).
Proof.
  assert (fst initialized = Ok tt) as E by vm_refl. rewrite <- E. apply surjective_pairing.
Qed.

Lemma init_makes_billable_witness :
  billable sample_env (snd initialized) /\ bill_to_accounts (trx (snd initialized)) = {[1]}.
Proof.
  destruct (init_makes_billable sample_env 128 false 1000100 (fresh_trx Manager.sample_db) (snd initialized) tt)
    as (H1 & H2 & _).
  - apply sample_sound.
  - apply default_config_typed.
  - by vm_compute.
  - reflexivity.
  - apply initialized_ok.
  - split; [exact H1|exact H2].
Defined.

(** The whole transaction: 900 us and 128 bytes are billed to account 1. *)
Lemma billing_never_fails_witness :
  exists s2, finalize_bill sample_env (snd checked) = (Ok tt, s2).
Proof.
  apply (billing_never_fails sample_env 1000900 (snd initialized) (snd checked) tt).
  - apply (init_billable sample_env 128 false 1000100 (fresh_trx Manager.sample_db) (snd initialized) tt sample_sound
             default_config_typed); [by vm_compute|reflexivity|apply initialized_ok].
  - reflexivity.
  - assert (fst checked = Ok tt) as E by vm_refl. rewrite <- E. apply surjective_pairing.
  - by vm_compute.
  - by vm_compute.
Defined.

(** ** A billing that fails *)

(** Account 1 used bandwidth in this slot, then lost its stake. *)
Definition unstaked_db : toy_limits :=
  Manager.set_limits (<[(false, 1) := Manager.mk_limits 0 10 8000]> (Manager.limits Manager.sample_db))
    (Manager.set_usage (<[1 := Manager.mk_usage (Accumulator.mk_accumulator (time_slot sample_env) 1000000 1)
       Accumulator.empty_accumulator 0]> (Manager.usage Manager.sample_db)) Manager.sample_db).

(** A deferred transaction starts with no net usage. *)
Definition deferred_initialized : res unit * toy_trx_state :=
  init_for_deferred_trx sample_env 1577836700000000 false 1000100 (fresh_trx unstaked_db).
Definition deferred_checked : res unit * toy_trx_state := finalize_checks sample_env 1000900 (snd deferred_initialized).

(** The hypothesis on the bandwidth is needed: a deferred transaction, which
    has no net usage of its own, billed to an account that is over its limit,
    passes every check of finalize, and then the call that "should never fail"
    throws tx_net_usage_exceeded. *)
Theorem deferred_billing_can_fail :
  fst deferred_initialized = Ok tt /\ billable sample_env (snd deferred_initialized)
  /\ fst deferred_checked = Ok tt
  /\ fst (finalize_bill sample_env (snd deferred_checked)) = Throw tx_net_usage_exceeded.
Proof.
  assert (init_for_deferred_trx sample_env 1577836700000000 false 1000100 (fresh_trx unstaked_db)
    = (Ok tt, snd deferred_initialized)) as E.
  { assert (fst deferred_initialized = Ok tt) as <- by vm_refl. apply surjective_pairing. }
  split; [vm_refl|]. split; [|split; vm_refl].
  unfold init_for_deferred_trx in E. do 2 exec_step E. injection R as _ <-.
  eapply (init_billable sample_env); [| |  |  |exact E].
  - apply sound_check; [exists 0|vm_refl]. apply (Manager.sample_block_accounting 0). lia.
  - apply default_config_typed.
  - apply slot_typed.
  - reflexivity.
Qed.
