(* ===== verification/Deduplication.v ===== *)
(** No transaction is applied twice: the deduplication list of input transactions
    (transaction_object, record_transaction of TransactionContext.v,
    clear_expired_input_transactions of controller.cpp) along a chain. *)

From Stdlib Require Import ZArith Lia.
From stdpp Require Import base gmap numbers sorting list.
From S2P Require Import Prelude Chainbase Merkle Authority AuthorityChecker ResourceLimits BlockTimestamp BlockHeader AuthorizationManager ChainConfig AccessLists EosioContract Transaction TransactionContext TransactionBilling TransactionExamples.

#[local] Open Scope Z_scope.
#[local] Open Scope chain_scope.
Import Authorization.

Section List.
Context {TX : Type} {transaction_index : Table Z Z TX}.

Definition sooner (a b : Z * Z) : Z * Z := if snd b <? snd a then b else a.

(** begin() of the index by expiration.  Transactions that expire together come in
    the order of their creation; they are removed together. *)
Definition expiration_begin (t : TX) : option (Z * Z) :=
  match tbl_rows t with [] => None | r :: l => Some (foldl sooner r l) end.

Fixpoint remove_expired (fuel : nat) (now : Z) (t : TX) : TX :=
  match fuel with
  | O => t
  | S fuel =>
      match expiration_begin t with
      | Some (id, exp) => if exp * 1000000 <? now then remove_expired fuel now (tbl_remove id t) else t
      | None => t
      end
  end.

(** Each round removes a row: as many rounds as rows are enough. *)
Definition clear_expired_input_transactions (now : Z) (t : TX) : TX := remove_expired (length (tbl_rows t)) now t.

Lemma foldl_sooner l : forall r, foldl sooner r l ∈ r :: l /\ forall x, x ∈ r :: l -> snd (foldl sooner r l) <= snd x.
Proof.
  induction l as [|y l IH]; intros r; cbn [foldl].
  { split; [by left|]. intros x Hx%list_elem_of_singleton. by subst. }
  assert (snd (sooner r y) <= snd r /\ snd (sooner r y) <= snd y /\ (sooner r y = r \/ sooner r y = y)) as (Hr & Hy & Hor)
    by (unfold sooner; destruct (Z.ltb_spec (snd y) (snd r)); auto with lia).
  destruct (IH (sooner r y)) as [Hin Hle]. pose proof (Hle (sooner r y) ltac:(by left)) as Hs. split.
  - apply elem_of_cons in Hin as [-> |Hin]; [|by do 2 right]. destruct Hor as [-> | ->]; [by left|right; by left].
  - intros x Hx. apply elem_of_cons in Hx as [-> |[-> |Hx]%elem_of_cons]; [lia|lia|apply Hle; by right].
Qed.

Lemma expiration_begin_Some t id exp : expiration_begin t = Some (id, exp) ->
  tbl_view t !! id = Some exp /\ forall i e, tbl_view t !! i = Some e -> exp <= e.
Proof.
  unfold expiration_begin. destruct (tbl_rows t) as [|r l] eqn:E; [done|]. intros [= Hf].
  destruct (foldl_sooner l r) as [Hin Hle]. rewrite Hf, <- E in Hin. rewrite Hf, <- E in Hle.
  split; [by apply tbl_rows_elem|]. intros i e Hi%tbl_rows_elem. by apply (Hle (i, e)).
Qed.

Lemma expiration_begin_None t : expiration_begin t = None -> tbl_view t = ∅.
Proof.
  unfold expiration_begin. destruct (tbl_rows t) eqn:E; [|done]. intros _. apply map_to_list_empty_iff.
  apply Permutation_nil_r. by rewrite <- tbl_rows_perm, E.
Qed.

Definition unexpired (now : Z) (m : gmap Z Z) : gmap Z Z := filter (fun kv => now <= snd kv * 1000000) m.

Lemma remove_expired_view fuel now : forall t, (size (tbl_view t) <= fuel)%nat ->
  tbl_view (remove_expired fuel now t) = unexpired now (tbl_view t).
Proof.
  induction fuel as [|fuel IH]; intros t Hsize; cbn [remove_expired].
  { assert (tbl_view t = ∅) as -> by (apply map_size_empty_inv; lia). done. }
  destruct (expiration_begin t) as [[id exp]|] eqn:E.
  - apply expiration_begin_Some in E as [Hid Hmin]. destruct (Z.ltb_spec (exp * 1000000) now).
    + rewrite IH, tbl_remove_view; [|rewrite tbl_remove_view, map_size_delete_Some by eauto; lia].
      unfold unexpired. rewrite map_filter_delete, delete_id; [done|].
      rewrite map_lookup_filter_None. right. intros e He. cbn. simplify_eq. lia.
    + unfold unexpired. symmetry. apply map_filter_id. intros i e Hi. cbn. specialize (Hmin i e Hi). lia.
  - by rewrite (expiration_begin_None t E).
Qed.

(** clear_expired_input_transactions, which removes the first row of the index
    by expiration as long as it has expired, removes the expired transactions
    and no other, and ends. *)
Theorem clear_expired_exact now t :
  tbl_view (clear_expired_input_transactions now t) = unexpired now (tbl_view t).
Proof.
  unfold clear_expired_input_transactions. apply remove_expired_view.
  rewrite <- length_map_to_list, <- tbl_rows_perm. done.
Qed.
End List.

Section Chain.
Context {K : Type} `{EqDecision K} {fc : Fc}.
Context {TL TU : Type} `{HTL : !Table (bool * Z) Manager.resource_limits_object TL}
        `{HTU : !Table Z Manager.resource_usage_object TU}.
Context {TP TPU TLK TG TA TX TB : Type} {permission_index : Table Z (permission_object K) TP}
  {permission_usage_index : Table Z Z TPU} {permission_link_index : Table (Z * Z * Z) Z TLK}
  {generated_transaction_index : Table Z generated_transaction_object TG}
  {account_index : Table Z account_object TA}
  {transaction_index : Table Z Z TX} {block_summary_index : Table Z digest_type TB}.
Abbreviation state_of := (@trx_state TL TU TP TPU TLK TG TA TX TB).

Lemma init_recorded env usage expired now (s s' : state_of) u :
  init env usage expired now s = (Ok u, s') -> recorded s' = recorded s.
Proof.
  intros Hrun. unfold init, modify_trx in Hrun. do 3 (exec_step Hrun; cbv beta iota in Hrun).
  exec_step Hrun. injection R as <- <-. do 2 (exec_step Hrun; cbv beta iota in Hrun).
  exec_step Hrun. injection R as <- <-. exec_step Hrun. apply zoom_ok in R as (d1 & _ & ->).
  exec_step Hrun. apply zoom_ok in R as (d2 & _ & ->). do 2 (exec_step Hrun; cbv beta iota in Hrun).
  exec_step Hrun. injection R0 as <- <-. exec_step Hrun. injection Hrun as _ <-.
  destruct (0 <? usage); [|by injection R as _ <-]. unfold add_net_usage, modify_trx in R.
  do 2 (exec_step R; cbv beta iota in R). by apply lift_ok in R as [_ ->].
Qed.

Lemma init_for_input_trx_recorded env unprunable prunable expired now (s s' : state_of) u :
  init_for_input_trx env unprunable prunable false expired now s = (Ok u, s') -> skip_trx_checks env = false ->
  tbl_view (recorded s) !! trx_id env = None
  /\ tbl_view (recorded s') = <[trx_id env := expiration (the_trx env)]> (tbl_view (recorded s))
  /\ block_time env <= expiration (the_trx env) * 1000000.
Proof.
  intros Hrun Hskip. unfold init_for_input_trx, modify_trx in Hrun. exec_step Hrun.
  exec_step Hrun. cbv beta iota in Hrun. exec_step Hrun. exec_step Hrun. rewrite Hskip in L0. cbn [negb] in L0.
  apply res_bind_ok in L0 as (? & Hexp & _). unfold validate_expiration in Hexp. inv_res. bprop.
  exec_step Hrun. apply init_recorded in R as Er. cbn [negb] in Hrun. unfold record_transaction in Hrun.
  exec_step Hrun. unfold tbl_create in Hrun. rewrite tbl_find_view, Er in Hrun.
  cbn [recorded set_trx] in Hrun. destruct (_ !! trx_id env) eqn:Hn; [done|]. injection Hrun as _ <-.
  cbn [recorded set_recorded]. rewrite tbl_put_view. done.
Qed.

(** ** Along a chain *)

(** The time of the pending block and the list.  A block starts, not before the
    previous one, and the list is cleared; or an input transaction is recorded,
    in whatever state the rest of the database is. *)
Inductive chain_step : Z * TX -> option trx_environment -> Z * TX -> Prop :=
| start_block now now' t :
    now <= now' -> chain_step (now, t) None (now', clear_expired_input_transactions now' t)
| input_transaction env unprunable prunable expired clock (s s' : state_of) u :
    skip_trx_checks env = false ->
    init_for_input_trx env unprunable prunable false expired clock s = (Ok u, s') ->
    chain_step (block_time env, recorded s) (Some env) (block_time env, recorded s').

Inductive chain_run : Z * TX -> list trx_environment -> Z * TX -> Prop :=
| run_done c : chain_run c [] c
| run_block c c1 c2 l : chain_step c None c1 -> chain_run c1 l c2 -> chain_run c l c2
| run_input c c1 c2 env l : chain_step c (Some env) c1 -> chain_run c1 l c2 -> chain_run c (env :: l) c2.

(** The id of the transaction, a digest of it. *)
Context (id_of : transaction -> Z).
Hypothesis id_collision_free : forall t t', id_of t = id_of t' -> expiration t = expiration t'.

(** Listed, or expired. *)
Definition remembered (c : Z * TX) (env : trx_environment) : Prop :=
  tbl_view (snd c) !! trx_id env = Some (expiration (the_trx env)) \/ expiration (the_trx env) * 1000000 < fst c.

Lemma step_remembers c o c' e : chain_step c o c' -> remembered c e -> remembered c' e.
Proof.
  intros Hs He. destruct Hs as [now now' t Hle|env up pr ex cl s s' u Hskip Hrun]; unfold remembered in *; cbn [fst snd] in *.
  - rewrite clear_expired_exact. destruct He as [He|He]; [|right; lia].
    destruct (decide (now' <= expiration (the_trx e) * 1000000)); [left|right; lia].
    unfold unexpired. by apply map_lookup_filter_Some_2.
  - apply init_for_input_trx_recorded in Hrun as (Hn & -> & _); [|done]. destruct He as [He|He]; [left|by right].
    rewrite lookup_insert_ne; [done|]. congruence.
Qed.

Lemma recorded_is_new c env c' :
  chain_step c (Some env) c' -> remembered c' env /\
  forall e, remembered c e -> trx_id e = trx_id env -> expiration (the_trx e) = expiration (the_trx env) -> False.
Proof.
  intros Hs. inversion Hs as [|? up pr ex cl s s' u Hskip Hrun]; subst. unfold remembered; cbn [fst snd].
  apply init_for_input_trx_recorded in Hrun as (Hn & -> & Hexp); [|done]. split; [left; apply lookup_insert_eq|].
  intros e [He|He] Eid Eexp; [congruence|lia].
Qed.

Lemma run_fresh c l c' : chain_run c l c' ->
  (forall e, e ∈ l -> trx_id e = id_of (the_trx e)) ->
  NoDup (trx_id <$> l)
  /\ forall e, remembered c e -> trx_id e = id_of (the_trx e) -> trx_id e ∉ trx_id <$> l.
Proof.
  induction 1 as [c|c c1 c2 l Hs Hr IH|c c1 c2 env l Hs Hr IH]; intros Hid.
  - split; [apply NoDup_nil_2|]. intros e _ _ ?%elem_of_nil. done.
  - destruct (IH Hid) as [Hnd Hf]. split; [done|]. intros e He. apply Hf. by eapply step_remembers.
  - destruct IH as [Hnd Hf]; [intros e He; apply Hid; by right|].
    destruct (recorded_is_new c env c1 Hs) as [Henv Hnew]. pose proof (Hid env ltac:(by left)) as Eenv.
    cbn [fmap list_fmap]. split; [apply NoDup_cons; split; [by apply Hf|done]|].
    intros e He Ee [Heq|Hin]%elem_of_cons.
    + apply (Hnew e He Heq). apply id_collision_free. congruence.
    + revert Hin. apply Hf; [by eapply step_remembers|done].
Qed.

(** C28: No input transaction is applied twice along a chain whose transactions are
    checked and recorded (no light validation, no replay), although expired
    transactions are dropped from the deduplication list, provided that the ids of
    transactions do not collide: what has been dropped
    is refused as expired from then on, since the time of the blocks does not
    decrease. *)
Theorem no_transaction_twice c l c' :
  chain_run c l c' -> (forall env, env ∈ l -> trx_id env = id_of (the_trx env)) -> NoDup (trx_id <$> l).
Proof. intros Hr Hid. by destruct (run_fresh c l c' Hr Hid). Qed.
End Chain.

(** ** A chain of two transactions *)

Import Authorization.Examples.

(** One action of account 100, which refers to the block summary 0. *)
Definition transfer_trx (exp : Z) : transaction := mk_transaction exp 0 0 0 0 0 [] [transfer] [].
Definition transfer_env (exp time : Z) : trx_environment :=
  mk_trx_environment default_configuration false false false time true ∅ (mk_access_lists [] [] [] [] [] [])
    (transfer_trx exp) exp 1000000 1150000 300 false.

Definition transfer_start (t : gmap Z Z) : toy_trx_state :=
  mk_trx_state (new_transaction_context 1000000 0) ∅
    (snd (Manager.initialize_account 100 (Manager.initialize_database ∅ ∅))) sample_db
    (<[7 := mk_account 0 []]> (<[100 := mk_account 0 []]> ∅)) t (<[0 := digest_zero]> ∅).

Definition apply_transfer (exp time : Z) (t : gmap Z Z) : res unit * toy_trx_state :=
  init_for_input_trx (transfer_env exp time) 100 0 false false 1000100 (transfer_start t).

(** The first transaction expires at 1577836810 and is applied at 1577836800; the
    second one is applied in a block a minute later, when the first has been
    dropped and would be refused. *)
Lemma no_transaction_twice_witness :
  NoDup (trx_id <$> [transfer_env 1577836810 1577836800000000; transfer_env 1577836900 1577836860000000])
  /\ recorded (snd (apply_transfer 1577836810 1577836800000000 ∅)) = {[1577836810 := 1577836810]}
  /\ clear_expired_input_transactions 1577836860000000 ({[1577836810 := 1577836810]} : gmap Z Z) = ∅
  /\ fst (apply_transfer 1577836810 1577836860000000 ∅) = Throw expired_tx_exception.
Proof.
  assert (apply_transfer 1577836810 1577836800000000 ∅ = (Ok tt, snd (apply_transfer 1577836810 1577836800000000 ∅))) as E1.
  { assert (fst (apply_transfer 1577836810 1577836800000000 ∅) = Ok tt) as <- by vm_refl. apply surjective_pairing. }
  assert (recorded (snd (apply_transfer 1577836810 1577836800000000 ∅)) = {[1577836810 := 1577836810]}) as T1 by vm_refl.
  assert (clear_expired_input_transactions 1577836860000000 ({[1577836810 := 1577836810]} : gmap Z Z) = ∅) as C1 by vm_refl.
  assert (apply_transfer 1577836900 1577836860000000 ∅ = (Ok tt, snd (apply_transfer 1577836900 1577836860000000 ∅))) as E2.
  { assert (fst (apply_transfer 1577836900 1577836860000000 ∅) = Ok tt) as <- by vm_refl. apply surjective_pairing. }
  split; [|split; [exact T1|split; [exact C1|vm_refl]]].
  eapply (no_transaction_twice expiration ltac:(done) (1577836800000000, ∅)).
  - eapply run_input; [exact (input_transaction (transfer_env 1577836810 1577836800000000) _ _ _ _ _ _ _ eq_refl E1)|].
    eapply run_block; [apply start_block with (now' := 1577836860000000); vm_compute; discriminate|].
    eapply run_input; [|apply run_done]. cbn [block_time transfer_env fst snd]. rewrite T1, C1.
    exact (input_transaction (transfer_env 1577836900 1577836860000000) _ _ _ _ _ _ _ eq_refl E2).
  - clear E1 E2 T1 C1. intros env [-> |[-> |?%elem_of_nil]%elem_of_cons]%elem_of_cons; done.
Defined.
