(* ===== verification/ActionExecution.v ===== *)
(** The execution of the actions of a transaction: apply_context.cpp (exec,
    exec_one, notifications, inline actions, deferred transactions) and the
    execution part of transaction_context.cpp.

    A contract is a [program], which calls the host and goes on with what it can
    read of the state: the WebAssembly code is a parameter, and so are sha256 of
    an action and the decoding of the native actions.  A contract that runs for
    too long is stopped by an exception, so programs are finite. *)

From Stdlib Require Import ZArith Lia.
From stdpp Require Import base gmap strings numbers sorting list.
From S2P Require Import Prelude Chainbase Name Merkle Authority AuthorityChecker ResourceLimits BlockTimestamp BlockHeader AuthorizationManager IteratorCache ContractTables ContractTheorems EosioContract ChainConfig AccessLists Transaction TransactionContext.

#[local] Open Scope Z_scope.
#[local] Open Scope chain_scope.
Import Authorization.

Definition newaccount_name : Z := Eval vm_compute in N_ "newaccount".
Definition setcode_name : Z := Eval vm_compute in N_ "setcode".
Definition setabi_name : Z := Eval vm_compute in N_ "setabi".

(** The actions of SET_APP_HANDLER. *)
Definition native_names : list Z :=
  [newaccount_name; setcode_name; setabi_name; updateauth_name; deleteauth_name; linkauth_name; unlinkauth_name;
   canceldelay_name].

(** find_apply_handler *)
Definition has_native_handler (receiver scope act : Z) : bool :=
  (receiver =? system_account_name) && (scope =? system_account_name) && bool_decide (act ∈ native_names).

(** ** Traces and receipts *)

Record action_receipt := mk_receipt {
  rc_receiver : Z;
  rc_act_digest : digest_type;
  rc_global_sequence : Z;
  rc_recv_sequence : Z;
  rc_auth_sequence : gmap Z Z;
  rc_code_sequence : Z;
  rc_abi_sequence : Z
}.

(** The console output and the time spent are left out. *)
Record action_trace := mk_trace {
  tr_ordinal : Z;
  tr_creator : Z;
  tr_closest_unnotified_ancestor : Z;
  tr_receiver : Z;
  tr_act : action;
  tr_context_free : bool;
  tr_receipt : option action_receipt;
  tr_ram_deltas : gmap Z Z;
  tr_except : option exn
}.

Definition set_receipt (r : action_receipt) (t : action_trace) : action_trace :=
  mk_trace (tr_ordinal t) (tr_creator t) (tr_closest_unnotified_ancestor t) (tr_receiver t) (tr_act t) (tr_context_free t)
    (Some r) (tr_ram_deltas t) (tr_except t).
Definition set_tr_deltas (d : gmap Z Z) (t : action_trace) : action_trace :=
  mk_trace (tr_ordinal t) (tr_creator t) (tr_closest_unnotified_ancestor t) (tr_receiver t) (tr_act t) (tr_context_free t)
    (tr_receipt t) d (tr_except t).
Definition set_except (e : exn) (t : action_trace) : action_trace :=
  mk_trace (tr_ordinal t) (tr_creator t) (tr_closest_unnotified_ancestor t) (tr_receiver t) (tr_act t) (tr_context_free t)
    (tr_receipt t) (tr_ram_deltas t) (Some e).

(** The members of an apply_context that are not in [ContractTables.apply_context]. *)
Record frame := mk_frame {
  act : action;
  context_free : bool;
  recurse_depth : Z;
  first_receiver_action_ordinal : Z;
  action_ordinal : Z;
  notified : list (Z * Z);
  inline_actions : list Z;
  cfa_inline_actions : list Z
}.

Definition add_notified (x : Z * Z) (f : frame) : frame :=
  mk_frame (act f) (context_free f) (recurse_depth f) (first_receiver_action_ordinal f) (action_ordinal f)
    (notified f ++ [x]) (inline_actions f) (cfa_inline_actions f).
Definition add_inline (x : Z) (f : frame) : frame :=
  mk_frame (act f) (context_free f) (recurse_depth f) (first_receiver_action_ordinal f) (action_ordinal f)
    (notified f) (inline_actions f ++ [x]) (cfa_inline_actions f).
Definition add_cfa_inline (x : Z) (f : frame) : frame :=
  mk_frame (act f) (context_free f) (recurse_depth f) (first_receiver_action_ordinal f) (action_ordinal f)
    (notified f) (inline_actions f) (cfa_inline_actions f ++ [x]).
Definition set_ordinal (o : Z) (f : frame) : frame :=
  mk_frame (act f) (context_free f) (recurse_depth f) (first_receiver_action_ordinal f) o
    (notified f) (inline_actions f) (cfa_inline_actions f).
Definition set_act (a : action) (f : frame) : frame :=
  mk_frame a (context_free f) (recurse_depth f) (first_receiver_action_ordinal f) (action_ordinal f)
    (notified f) (inline_actions f) (cfa_inline_actions f).

Section Execution.
Context {K : Type} `{EqDecision K} {key_ops : KeyOps K} {hashing : CodeHash} {trim : Name.BoostTrim} {SF : SoftFloat}.
Context {multiset : FlatMultiset K} {decoding : ActionData K} {fc : Fc} {format : TransactionFormat}.
Context {TT TR TL TU : Type} `{HTT : !Table Z table_id_object TT} `{HTR : !Table Z row TR}.
Context `{HTL : !Table (bool * Z) Manager.resource_limits_object TL}
        `{HTU : !Table Z Manager.resource_usage_object TU}.
Context {TP TPU TLK TG TA TM TC TRC : Type} {permission_index : Table Z (permission_object K) TP}
  {permission_usage_index : Table Z Z TPU} {permission_link_index : Table (Z * Z * Z) Z TLK}
  {generated_transaction_index : Table Z generated_transaction_object TG}
  {account_index : Table Z account_object TA} {account_metadata_index : Table Z account_metadata_object TM}
  {code_index : Table (Z * Z * Z) code_object TC} {account_ram_correction_index : Table Z Z TRC}.

Abbreviation native := (@native_context TT TR TL TU TP TPU TLK TG TA TM TC).
Abbreviation contract_context := (@apply_context TT TR TL TU).

Record exec_state := mk_exec {
  chain_db : native;                       (** its [context]: the current apply_context *)
  corrections : TRC;
  global_action_sequence : Z;
  action_traces : list action_trace;
  executed : list action_receipt;
  trx_context : transaction_context;
  account_ram_delta : option (Z * Z);      (** trace->account_ram_delta *)
  current : frame
}.

Definition set_chain_db (x : native) (s : exec_state) : exec_state :=
  mk_exec x (corrections s) (global_action_sequence s) (action_traces s) (executed s) (trx_context s) (account_ram_delta s) (current s).
Definition set_corrections (x : TRC) (s : exec_state) : exec_state :=
  mk_exec (chain_db s) x (global_action_sequence s) (action_traces s) (executed s) (trx_context s) (account_ram_delta s) (current s).
Definition set_sequence (x : Z) (s : exec_state) : exec_state :=
  mk_exec (chain_db s) (corrections s) x (action_traces s) (executed s) (trx_context s) (account_ram_delta s) (current s).
Definition set_traces (x : list action_trace) (s : exec_state) : exec_state :=
  mk_exec (chain_db s) (corrections s) (global_action_sequence s) x (executed s) (trx_context s) (account_ram_delta s) (current s).
Definition set_executed (x : list action_receipt) (s : exec_state) : exec_state :=
  mk_exec (chain_db s) (corrections s) (global_action_sequence s) (action_traces s) x (trx_context s) (account_ram_delta s) (current s).
Definition set_trx_context (x : transaction_context) (s : exec_state) : exec_state :=
  mk_exec (chain_db s) (corrections s) (global_action_sequence s) (action_traces s) (executed s) x (account_ram_delta s) (current s).
Definition set_account_ram_delta (x : Z * Z) (s : exec_state) : exec_state :=
  mk_exec (chain_db s) (corrections s) (global_action_sequence s) (action_traces s) (executed s) (trx_context s) (Some x) (current s).
Definition set_current (x : frame) (s : exec_state) : exec_state :=
  mk_exec (chain_db s) (corrections s) (global_action_sequence s) (action_traces s) (executed s) (trx_context s) (account_ram_delta s) x.

Definition in_db {A} (m : exec native A) : exec exec_state A := zoom chain_db set_chain_db m.
Definition modify_frame (f : frame -> frame) : exec exec_state unit := modify (fun s => set_current (f (current s)) s).

(** ** The calls a contract makes *)

Inductive host_call :=
| Database (op : operation)
| RequireAuthorization (account : Z)
| RequirePermission (account permission_ : Z)
| RequireRecipient (recipient : Z)
| SendInline (a : action)
| SendContextFreeInline (a : action)
| SendDeferred (sender_id payer : Z) (t : transaction) (replace_existing : bool)
| CancelDeferred (sender_id : Z).

(** [Exit] is the end of apply or wasm_exit, [Trap] an exception of the contract
    or of the virtual machine. *)
Inductive program :=
| Exit
| Trap (e : exn)
| Call (c : host_call) (k : exec_state -> program).

(** ** What the controller answers *)

Record exec_environment := mk_exec_environment {
  trx_env : trx_environment;
  head_num : Z;                        (** head_block_num() *)
  head_id : digest_type;               (** head_block_id() *)
  skip_auth_check : bool;
  delay : Z;                           (** of the transaction_context *)
  all_subjective_mitigations_disabled : bool;
  blacklisted_keys : list K;
  only_link_to_existing_permission : bool;
  fix_linkauth : bool;
  forward_setcode : bool;
  restrict_action_to_self : bool;
  no_duplicate_deferred_id : bool;
  replace_deferred : bool;
  (** What the checktime callback of check_authorization ends in, by the number of
      action traces and the net usage when the check starts, and by the call. *)
  auth_checktime : nat -> Z -> nat -> res unit
}.
Context (env : exec_environment).
(** wasm_interface::apply; digest_type::hash( action ); the data of a native
    action; transaction_context::checktime, by the number of the call. *)
Context (contract : Z -> Z -> Z -> program) (act_digest : action -> digest_type)
  (decode_native : action -> res (@native_action K)) (checktime : nat -> res unit).

Definition enforcing : bool := enforce_whiteblacklist (trx_env env) && is_producing_block (trx_env env).
Definition native_env : @environment K :=
  mk_environment (block_time (trx_env env)) (head_num env) (ChainConfig.max_transaction_delay (cfg (trx_env env)))
    (only_link_to_existing_permission env) enforcing (blacklisted_keys env).
Definition auth_config : configuration :=
  mk_configuration (ChainConfig.max_transaction_delay (cfg (trx_env env)))
    (Z.to_nat (ChainConfig.max_authority_depth (cfg (trx_env env)))) (fix_linkauth env).

(** ** Scheduling actions *)

Definition get_action_trace (ordinal : Z) (s : exec_state) : res action_trace :=
  assert! ((0 <? ordinal) && (ordinal <=? Z.of_nat (length (action_traces s)))) else transaction_exception in
  match action_traces s !! Z.to_nat (ordinal - 1) with Some t => Ok t | None => Throw undefined_behavior end.

(** transaction_context::schedule_action( action, ... ) *)
Definition trx_schedule_action (a : action) (receiver : Z) (cf : bool) (creator closest : Z) : exec exec_state Z :=
  do s <- get_state;
  let new_action_ordinal := u32 (Z.of_nat (length (action_traces s)) + 1) in
  do _ <- modify (set_traces (action_traces s ++ [mk_trace new_action_ordinal creator closest receiver a cf None ∅ None]));
  ret new_action_ordinal.

(** transaction_context::schedule_action( action_ordinal, ... ) *)
Definition trx_schedule_ordinal (ordinal receiver : Z) (cf : bool) (creator closest : Z) : exec exec_state Z :=
  do s <- get_state;
  do t <- lift (get_action_trace ordinal s);
  trx_schedule_action (tr_act t) receiver cf creator closest.

(** act = &trx_context.get_action_trace( action_ordinal ).act; *)
Definition refresh_act : exec exec_state unit :=
  do s <- get_state;
  do t <- lift (get_action_trace (action_ordinal (current s)) s);
  modify_frame (set_act (tr_act t)).

Definition schedule_action (a : action) (receiver : Z) (cf : bool) : exec exec_state Z :=
  do s <- get_state;
  do o <- trx_schedule_action a receiver cf (action_ordinal (current s)) (first_receiver_action_ordinal (current s));
  do _ <- refresh_act; ret o.

Definition schedule_ordinal (ordinal receiver : Z) (cf : bool) : exec exec_state Z :=
  do s <- get_state;
  do o <- trx_schedule_ordinal ordinal receiver cf (action_ordinal (current s)) (first_receiver_action_ordinal (current s));
  do _ <- refresh_act; ret o.

Definition current_receiver (s : exec_state) : Z := receiver (context (chain_db s)).
Definition is_privileged_now (s : exec_state) : bool := privileged (context (chain_db s)).

Definition has_recipient (code : Z) (f : frame) : bool := existsb (fun p => fst p =? code) (notified f).

Definition require_recipient (recipient : Z) : exec exec_state unit :=
  do s <- get_state;
  if negb (has_recipient recipient (current s)) then
    do o <- schedule_ordinal (action_ordinal (current s)) recipient false;
    modify_frame (add_notified (recipient, o))
  else ret tt.

(** The receiver of the action that created this one. *)
Definition get_sender (s : exec_state) : res Z :=
  let! t := get_action_trace (action_ordinal (current s)) s in
  if 0 <? tr_creator t then let! c := get_action_trace (tr_creator t) s in Ok (tr_receiver c) else Ok 0.

(** ** Inline actions *)

Fixpoint check_inline_auths (n : native) (l : list permission_level) : res unit :=
  match l with
  | [] => Ok tt
  | auth_ :: l' =>
      assert! (account_exists (actor auth_) (accounts_table n)) else action_validate_exception in
      let! p := find_permission (auth n) auth_ in
      assert! (bool_decide (is_Some p)) else action_validate_exception in
      check_inline_auths n l'
  end.

(** What is done with the outcome of check_authorization when an action is sent
    to the sender itself. *)
Definition bypass (to_self : bool) (r : res unit) : res unit :=
  match r with
  | Ok tt => Ok tt
  | Throw e =>
      if restrict_action_to_self env || negb to_self then Throw e
      else if is_producing_block (trx_env env) then Throw subjective_block_production_exception
      else Ok tt
  end.

Definition inherits (s : exec_state) (a : action) : bool :=
  negb (restrict_action_to_self env) && (Authorization.act_account a =? current_receiver s)
  && (current_receiver s =? Authorization.act_account (act (current s))) && is_producing_block (trx_env env).

Definition inherited_authorizations (s : exec_state) (a : action) : gset permission_level :=
  if inherits s a
  then list_to_set (filter (fun p => p ∈ act_authorization (act (current s))) (act_authorization a))
  else ∅.

(** check_authorization of what the receiver's code may do. *)
Definition check_sent (s : exec_state) (l : list action) (provided_delay : Z) (satisfied : gset permission_level) : res unit :=
  check_authorization (auth (chain_db s)) auth_config [] [mk_level (current_receiver s) eosio_code_name]
    (auth_checktime env (length (action_traces s)) (net_usage (net (trx_context s)))) l provided_delay false satisfied.

Definition execute_inline (a : action) : exec exec_state unit :=
  do s <- get_state;
  let n := chain_db s in
  check (account_exists (Authorization.act_account a) (accounts_table n)) else action_validate_exception;
  do _ <- lift (check_inline_auths n (act_authorization a));
  do _ <- lift (if enforcing then check_actor_list (lists (trx_env env)) (flat (list_to_set (actor <$> act_authorization a)))
                else Ok tt);
  do _ <- lift (if negb (skip_auth_check env) && negb (is_privileged_now s) then
                  bypass (Authorization.act_account a =? current_receiver s)
                    (check_sent s [a] (block_time (trx_env env) - published (trx_context s)) (inherited_authorizations s a))
                else Ok tt);
  do o <- schedule_action a (Authorization.act_account a) false;
  modify_frame (add_inline o).

Definition execute_context_free_inline (a : action) : exec exec_state unit :=
  do s <- get_state;
  check (account_exists (Authorization.act_account a) (accounts_table (chain_db s))) else action_validate_exception;
  check (Z.of_nat (length (act_authorization a)) =? 0) else action_validate_exception;
  do o <- schedule_action a (Authorization.act_account a) true;
  modify_frame (add_cfa_inline o).

(** ** Deferred transactions *)

Definition exec_add_net_usage (u : Z) : exec exec_state unit :=
  do s <- get_state;
  let t := trx_context s in
  do _ <- modify (set_trx_context (set_net (set_net_usage (u64 (net_usage (net t) + u)) (net t)) t));
  do s <- get_state;
  lift (check_net_usage (trx_env env) (net (trx_context s))).

(** The net usage charged ahead for retiring a transaction. *)
Definition retirement_net_usage : Z := u64 (base_per_transaction_net_usage (cfg (trx_env env)) + transaction_id_net_usage).

Definition add_to_ram_correction (account ram_bytes : Z) : exec exec_state unit :=
  do s <- get_state;
  match tbl_find account (corrections s) with
  | Some c => modify (set_corrections (tbl_put account (u64 (c + ram_bytes)) (corrections s)))
  | None => do t <- lift (tbl_create account ram_bytes (corrections s)); modify (set_corrections t)
  end.

(** The context of the generation must be this one; without one it is added. *)
Definition check_generation (sender_id : Z) (s : exec_state) (t : transaction) : res (list (Z * bytes)) :=
  let here := mk_generation_context (trx_id (trx_env env)) sender_id (current_receiver s) in
  let! exts := validate_and_extract_extensions t in
  match exts with
  | [] =>
      assert! (bool_decide (transaction_extensions t = [])) else assert_exception in
      Ok [(generation_context_id, pack_generation_context here)]
  | [c] =>
      assert! (context_sender c =? current_receiver s) else ill_formed_deferred_transaction_generation_context in
      assert! (context_sender_id c =? sender_id) else ill_formed_deferred_transaction_generation_context in
      assert! (sender_trx_id c =? trx_id (trx_env env)) else ill_formed_deferred_transaction_generation_context in
      Ok (transaction_extensions t)
  | _ => Throw invalid_transaction_extension
  end.

(** The header of a deferred transaction. *)
Definition deferred_header (sender_id : Z) (s : exec_state) (t : transaction) : res transaction :=
  if no_duplicate_deferred_id env then
    let! exts := check_generation sender_id s t in
    Ok (mk_transaction 0 0 0 (max_net_usage_words t) (max_cpu_usage_ms t) (delay_sec t) (context_free_actions t) (actions t) exts)
  else
    Ok (set_reference_block (head_id env)
          (mk_transaction (u32 ((block_time (trx_env env) + 999999) / 1000000)) (ref_block_num t) (ref_block_prefix t)
             (max_net_usage_words t) (max_cpu_usage_ms t) (delay_sec t) (context_free_actions t) (actions t)
             (transaction_extensions t))).

Definition is_sending_only_to_self (t : transaction) (self : Z) : bool :=
  forallb (fun a => Authorization.act_account a =? self) (actions t).

Definition check_deferred_payer (payer : Z) (s : exec_state) : exec exec_state unit :=
  let c := context (chain_db s) in
  if negb (payer =? receiver c) then
    if ram_restrictions c then
      check (receiver c =? ContractTables.act_account c) else action_validate_exception;
      check (has_authorization payer c) else action_validate_exception;
      ret tt
    else in_db (in_context (require_authorization payer))
  else ret tt.

(** A generated_transaction_object, [delay_us] after now. *)
Definition generated_row (sender sender_id payer delay_us : Z) (t : transaction) : generated_transaction_object :=
  let published := block_time (trx_env env) in
  mk_generated sender sender_id payer (published + delay_us)
    (published + delay_us + deferred_trx_expiration_window (cfg (trx_env env)) * 1000000) published (pack_trx t).

Definition create_generated (tid : Z) (g : generated_transaction_object) : exec native unit :=
  do n <- get_state;
  do t <- lift (tbl_create tid g (generated (auth n)));
  modify (set_auth (set_generated t (auth n))).

(** The transaction takes the place of one with the same sender and sender id. *)
Definition replace_generated (old_id : Z) (old : generated_transaction_object) (tid : Z) (g : generated_transaction_object)
    : exec exec_state unit :=
  check (replace_deferred env || negb (is_producing_block (trx_env env)) || all_subjective_mitigations_disabled env)
    else subjective_block_production_exception;
  let orig_trx_ram_bytes := u64 (generated_billable_size + Z.of_nat (length (gto_packed_trx old))) in
  do _ <- (if replace_deferred env then in_db (in_context (add_ram_usage (gto_payer old) (- i64 orig_trx_ram_bytes)))
           else add_to_ram_correction (gto_payer old) orig_trx_ram_bytes);
  do _ <- in_db (modify (fun n => set_auth (set_generated (tbl_remove old_id (generated (auth n))) (auth n)) n));
  in_db (create_generated (if replace_deferred env then tid else old_id) g).

Definition schedule_deferred_transaction (sender_id payer : Z) (t : transaction) (replace_existing : bool)
    : exec exec_state unit :=
  check (Z.of_nat (length (context_free_actions t)) =? 0) else cfa_inside_generated_tx;
  do s <- get_state;
  let me := current_receiver s in
  do _ <- lift (validate_referenced_accounts (trx_env env) t
                  (enforcing && negb (sender_avoids_whitelist_blacklist_enforcement (lists (trx_env env)) me))
                  (accounts_table (chain_db s)) (auth (chain_db s)));
  do t <- lift (deferred_header sender_id s t);
  do _ <- exec_add_net_usage retirement_net_usage;
  let delay_us := delay_sec t * 1000000 in
  do s <- get_state;
  do _ <- (if negb (skip_auth_check env) && negb (is_privileged_now s) then
             do _ <- check_deferred_payer payer s;
             lift (bypass (is_sending_only_to_self t me) (check_sent s (actions t) delay_us ∅))
           else ret tt);
  let g := generated_row me sender_id payer delay_us t in
  let tid := digest_number (id t) in
  do _ <- match find_generated (auth (chain_db s)) me sender_id with
          | Some (old_id, old) =>
              check replace_existing else deferred_tx_duplicate;
              replace_generated old_id old tid g
          | None => in_db (create_generated tid g)
          end;
  let c := context (chain_db s) in
  check (ram_restrictions c || ram_billing_in_notify_allowed c || (receiver c =? ContractTables.act_account c) || (receiver c =? payer)
         || privileged c) else subjective_block_production_exception;
  in_db (in_context (add_ram_usage payer (i64 (u64 (generated_billable_size + Z.of_nat (length (gto_packed_trx g))))))).

(** ** Running a contract *)

Definition host (c : host_call) : exec exec_state unit :=
  match c with
  | Database op => in_db (in_context (perform op))
  | RequireAuthorization a => in_db (in_context (require_authorization a))
  | RequirePermission a p => in_db (in_context (require_permission a p))
  | RequireRecipient r => require_recipient r
  | SendInline a => execute_inline a
  | SendContextFreeInline a => execute_context_free_inline a
  | SendDeferred i p t r => schedule_deferred_transaction i p t r
  | CancelDeferred i =>
      do s <- get_state; do _ <- in_db (cancel_deferred_transaction i (current_receiver s)); ret tt
  end.

Fixpoint run_program (p : program) : exec exec_state unit :=
  match p with
  | Exit => ret tt
  | Trap e => lift (Throw e)
  | Call c k => do _ <- host c; do s <- get_state; run_program (k s)
  end.

(** ** exec_one *)

Definition set_privileged (b : bool) (c : contract_context) : contract_context :=
  mk_context (receiver c) (ContractTables.act_account c) (authorization c) b (ram_restrictions c) (ram_billing_in_notify_allowed c)
    (table_ids c) (next_table_id c) (indices c) (account_ram_deltas c) (resource_limits c) (validate_ram_usage c).
Definition set_context_receiver (r : Z) (c : contract_context) : contract_context :=
  mk_context r (ContractTables.act_account c) (authorization c) (privileged c) (ram_restrictions c) (ram_billing_in_notify_allowed c)
    (table_ids c) (next_table_id c) (indices c) (account_ram_deltas c) (resource_limits c) (validate_ram_usage c).
Definition clear_deltas (c : contract_context) : contract_context :=
  set_ram ∅ (resource_limits c) (validate_ram_usage c) c.
(** The members of a new apply_context, over the same database. *)
Definition fresh_context (r : Z) (a : action) (c : contract_context) : contract_context :=
  mk_context r (Authorization.act_account a) (act_authorization a) false (ram_restrictions c) (ram_billing_in_notify_allowed c)
    (table_ids c) (next_table_id c) (fun k => mk_container (rows (indices c k)) (next_id (indices c k)) empty_cache)
    ∅ (resource_limits c) (validate_ram_usage c).

Definition modify_context (f : contract_context -> contract_context) : exec exec_state unit :=
  modify (fun s => set_chain_db (set_context (f (context (chain_db s))) (chain_db s)) s).

Definition check_lists (r account name : Z) : exec exec_state unit :=
  lift (if enforcing then
          let! _ := check_contract_list (lists (trx_env env)) r in check_action_list (lists (trx_env env)) account name
        else Ok tt).

(** exec_one up to the check of the RAM deltas. *)
Definition apply_action : exec exec_state unit :=
  do s <- get_state;
  let r := current_receiver s in
  let a := act (current s) in
  let account := Authorization.act_account a in
  do m <- lift (tbl_get r (metadata_table (chain_db s)));
  do _ <- modify_context (set_privileged (is_privileged m));
  do _ <- (if has_native_handler r account (act_name a) then
             do _ <- check_lists r account (act_name a);
             do n <- lift (decode_native a);
             in_db (apply_native native_env n)
           else ret tt);
  do s <- get_state;
  do m <- lift (tbl_get r (metadata_table (chain_db s)));
  do _ <- (if negb (code_hash m =? 0)
              && (negb ((account =? system_account_name) && (act_name a =? setcode_name) && (r =? system_account_name))
                  || forward_setcode env) then
             do _ <- check_lists r account (act_name a);
             run_program (contract (code_hash m) (vm_type m) (vm_version m))
           else ret tt);
  do s <- get_state;
  lift (check_ram_deltas checktime (context (chain_db s))).

Definition update_trace (ordinal : Z) (f : action_trace -> action_trace) : exec exec_state unit :=
  do s <- get_state;
  do t <- lift (get_action_trace ordinal s);
  modify (set_traces (<[Z.to_nat (ordinal - 1) := f t]> (action_traces s))).

Definition finalize_trace (ordinal : Z) : exec exec_state unit :=
  do s <- get_state;
  do _ <- update_trace ordinal (set_tr_deltas (account_ram_deltas (context (chain_db s))));
  modify_context clear_deltas.

(** The catch of exec_one, after FC_RETHROW_EXCEPTIONS: the exception is recorded,
    and goes on. *)
Definition record_exception (e : exn) : exec exec_state unit :=
  do s <- get_state;
  do _ <- update_trace (action_ordinal (current s)) (set_except e);
  do _ <- finalize_trace (action_ordinal (current s));
  lift (Throw e).

Definition with_trace (m : exec exec_state unit) : exec exec_state unit := fun s =>
  match m s with
  | (Throw e, s') => if is_fc (fc_rethrow e) then record_exception (fc_rethrow e) s' else (Throw e, s')
  | r => r
  end.

Definition next_global_sequence : exec exec_state Z :=
  do _ <- modify (fun s => set_sequence (u64 (global_action_sequence s + 1)) s);
  do s <- get_state; ret (global_action_sequence s).

Definition put_account_metadata (a : Z) (m : account_metadata_object) : exec native unit :=
  modify (fun n => set_metadata (tbl_put a m (metadata_table n)) n).

Definition next_recv_sequence (a : Z) : exec native Z :=
  do n <- get_state;
  do m <- lift (tbl_get a (metadata_table n));
  let q := u64 (recv_sequence m + 1) in
  do _ <- put_account_metadata a (mk_metadata q (auth_sequence m) (code_sequence m) (abi_sequence m) (code_hash m)
            (last_code_update m) (flags m) (vm_type m) (vm_version m));
  ret q.

Definition next_auth_sequence (a : Z) : exec native Z :=
  do n <- get_state;
  do m <- lift (tbl_get a (metadata_table n));
  let q := u64 (auth_sequence m + 1) in
  do _ <- put_account_metadata a (mk_metadata (recv_sequence m) q (code_sequence m) (abi_sequence m) (code_hash m)
            (last_code_update m) (flags m) (vm_type m) (vm_version m));
  ret q.

Fixpoint auth_sequences (l : list permission_level) (m : gmap Z Z) : exec native (gmap Z Z) :=
  match l with
  | [] => ret m
  | p :: l' => do q <- next_auth_sequence (actor p); auth_sequences l' (<[actor p := q]> m)
  end.

(** The rest of exec_one: the receipt. *)
Definition record_receipt : exec exec_state unit :=
  do s <- get_state;
  let r := current_receiver s in
  let a := act (current s) in
  do g <- next_global_sequence;
  do q <- in_db (next_recv_sequence r);
  do s <- get_state;
  do first <- lift (tbl_get (Authorization.act_account a) (metadata_table (chain_db s)));
  do auths <- in_db (auth_sequences (act_authorization a) ∅);
  let receipt := mk_receipt r (act_digest a) g q auths (u32 (code_sequence first)) (u32 (abi_sequence first)) in
  do s <- get_state;
  let o := action_ordinal (current s) in
  do _ <- update_trace o (set_receipt receipt);
  do _ <- modify (fun s => set_executed (executed s ++ [receipt]) s);
  finalize_trace o.

Definition exec_one : exec exec_state unit :=
  do _ <- with_trace apply_action; record_receipt.

(** ** exec *)

(** The loop over _notified, which grows meanwhile. *)
Fixpoint notify (fuel i : nat) : exec exec_state unit :=
  do s <- get_state;
  match notified (current s) !! i with
  | None => ret tt
  | Some (r, o) =>
      match fuel with
      | O => lift (Throw out_of_fuel)
      | S fuel' =>
          do _ <- modify_context (set_context_receiver r);
          do _ <- modify_frame (set_ordinal o);
          do _ <- exec_one;
          notify fuel' (S i)
      end
  end.

(** Each account is notified once: one round more than accounts is enough. *)
Definition notify_all : exec exec_state unit :=
  do s <- get_state; notify (S (length (tbl_rows (metadata_table (chain_db s))))) 1.

(** exec, before the inline actions. *)
Definition exec_receivers : exec exec_state unit :=
  do s <- get_state;
  do _ <- modify_frame (add_notified (current_receiver s, action_ordinal (current s)));
  do _ <- exec_one;
  notify_all.

(** The constructor of apply_context. *)
Definition new_apply_context (ordinal depth : Z) : exec exec_state unit :=
  do s <- get_state;
  do t <- lift (get_action_trace ordinal s);
  do _ <- modify_context (fresh_context (tr_receiver t) (tr_act t));
  modify (set_current (mk_frame (tr_act t) (tr_context_free t) depth ordinal ordinal [] [] [])).

(** transaction_context::execute_action, with apply_context::exec.  [fuel] bounds
    the depth of the inline actions. *)
Fixpoint execute_action (fuel : nat) (ordinal depth : Z) : exec exec_state unit :=
  do _ <- new_apply_context ordinal depth;
  do _ <- exec_receivers;
  do s <- get_state;
  let f := current s in
  if (0 <? Z.of_nat (length (cfa_inline_actions f))) || (0 <? Z.of_nat (length (inline_actions f))) then
    check (depth <? max_inline_action_depth (cfg (trx_env env))) else transaction_exception;
    match fuel with
    | O => lift (Throw out_of_fuel)
    | S fuel' =>
        do _ <- for_each (cfa_inline_actions f) (fun o => execute_action fuel' o (u32 (depth + 1)));
        for_each (inline_actions f) (fun o => execute_action fuel' o (u32 (depth + 1)))
    end
  else ret tt.

(** ** The transaction *)

(** A delayed transaction is stored, to be applied after its delay. *)
Definition schedule_transaction : exec exec_state unit :=
  let t := the_trx (trx_env env) in
  do _ <- (if delay_sec t =? 0 then exec_add_net_usage retirement_net_usage else ret tt);
  let first_auth := first_authorizer t in
  let tid := trx_id (trx_env env) in
  let g := generated_row 0 (transaction_id_to_sender_id tid) first_auth (delay env) t in
  do _ <- in_db (create_generated tid g);
  let ram_delta := i64 (u64 (generated_billable_size + Z.of_nat (length (gto_packed_trx g)))) in
  do _ <- in_db (in_context (trx_add_ram_usage first_auth ram_delta));
  modify (set_account_ram_delta (first_auth, ram_delta)).

Fixpoint schedule_all (l : list action) (cf : bool) : exec exec_state unit :=
  match l with
  | [] => ret tt
  | a :: l' => do _ <- trx_schedule_action a (Authorization.act_account a) cf 0 0; schedule_all l' cf
  end.

(** for( i = 1; i <= num_original_actions_to_execute; ++i ) *)
Definition ordinals (n : nat) : list Z := (fun i => Z.of_nat (S i)) <$> seq 0 n.

Definition depth_bound : nat := Z.to_nat (max_inline_action_depth (cfg (trx_env env))).

Definition exec_transaction : exec exec_state unit :=
  do s <- get_state;
  check (is_initialized (trx_context s)) else transaction_exception;
  do _ <- (if apply_context_free (trx_context s) then schedule_all (context_free_actions (the_trx (trx_env env))) true
           else ret tt);
  do _ <- (if delay env =? 0 then schedule_all (actions (the_trx (trx_env env))) false else ret tt);
  do s <- get_state;
  do _ <- for_each (ordinals (length (action_traces s))) (fun o => execute_action depth_bound o 0);
  if negb (delay env =? 0) then schedule_transaction else ret tt.
End Execution.
