(* ===== verification/ActionFrames.v ===== *)
(** The parts of an execution (ActionExecution.v): what a contract does to the
    traces while it runs, what one receipt adds, and the books of a transaction.
    ActionTheorems.v puts them together. *)

From Stdlib Require Import ZArith Lia.
From stdpp Require Import base gmap numbers sorting list.
From S2P Require Import Prelude Chainbase Name Merkle Authority AuthorityChecker ResourceLimits BlockTimestamp BlockHeader AuthorizationManager IteratorCache ContractTables ContractTheorems EosioContract ChainConfig AccessLists Transaction TransactionContext ActionExecution.

#[local] Open Scope Z_scope.
#[local] Open Scope chain_scope.
Import Authorization.

(** ** What a computation leaves alone *)

(** Whether it returns or throws, [m] does not change what [view] sees. *)
Definition fixes {S X A} (view : S -> X) (m : exec S A) : Prop := forall s, view (snd (m s)) = view s.

Lemma fixes_bind {S X A B} (view : S -> X) (m : exec S A) (k : A -> exec S B) :
  fixes view m -> (forall a, fixes view (k a)) -> fixes view (bind m k).
Proof.
  intros Hm Hk s. unfold bind. pose proof (Hm s) as H. destruct (m s) as [[a|e] s']; [|done].
  rewrite (Hk a s'). exact H.
Qed.
Lemma fixes_ret {S X A} (view : S -> X) (a : A) : fixes view (ret a).
Proof. done. Qed.
Lemma fixes_lift {S X A} (view : S -> X) (r : res A) : fixes view (lift r).
Proof. done. Qed.
Lemma fixes_get {S X} (view : S -> X) : fixes view get_state.
Proof. done. Qed.
Lemma fixes_modify {S X} (view : S -> X) (f : S -> S) : (forall s, view (f s) = view s) -> fixes view (modify f).
Proof. intros H s. apply H. Qed.
Lemma fixes_zoom {S T X A} (view : S -> X) (v : S -> T) (update : T -> S -> S) (m : exec T A) :
  (forall t s, view (update t s) = view s) -> fixes view (zoom v update m).
Proof. intros H s. unfold zoom. destruct (m (v s)) as [r t]. apply H. Qed.
Lemma fixes_zoom_view {S T X Y A} (view : S -> X) (inner : T -> Y) (v : S -> T) (update : T -> S -> S) (m : exec T A) :
  fixes inner m -> (forall t s, inner t = inner (v s) -> view (update t s) = view s) -> fixes view (zoom v update m).
Proof. intros Hm H s. unfold zoom. pose proof (Hm (v s)). destruct (m (v s)) as [r t]. by apply H. Qed.

Create HintDb fixes discriminated.
#[local] Hint Resolve fixes_ret fixes_lift fixes_get : fixes.

(** The structure of the computation decides. *)
Ltac fixes_step :=
  lazymatch goal with
  | |- fixes _ (bind _ _) => apply fixes_bind; [|intros ?]
  | |- fixes _ (modify _) => apply fixes_modify; intros ?; reflexivity
  | |- fixes _ (for_each _ _) => fail
  | |- fixes _ (match ?x with _ => _ end) => destruct x
  | |- fixes _ (let '(_, _) := ?x in _) => destruct x
  | |- fixes _ _ => solve [auto with fixes]
  end.
Ltac fixes_auto := repeat fixes_step.

Section Execution.
Context {K : Type} `{EqDecision K} {key_ops : KeyOps K} {hashing : CodeHash} {trim : Name.BoostTrim} {SF : SoftFloat}.
Context {multiset : FlatMultiset K} {decoding : ActionData K} {fc : Fc} {format : TransactionFormat}.
Context {TT TR TL TU : Type} `{HTT : !Table Z table_id_object TT} `{HTR : !Table Z row TR}.
Context `{HTL : !Table (bool * Z) Manager.resource_limits_object TL}
        `{HTU : !Table Z Manager.resource_usage_object TU}.
Context {TP TPU TLK TG TA TM TC TRC : Type} {permission_index : Table Z (permission_object K) TP}
  {permission_usage_index : Table Z Z TPU} {permission_link_index : Table (Z * Z * Z) Z TLK}
  {generated_transaction_index : Table Z generated_transaction_object TG}
  {account_index : Table Z account_object TA} {account_metadata_index : Table Z account_metadata_object TM}
  {code_index : Table (Z * Z * Z) code_object TC} {account_ram_correction_index : Table Z Z TRC}.

Abbreviation native := (@native_context TT TR TL TU TP TPU TLK TG TA TM TC).
Abbreviation exec_state := (@ActionExecution.exec_state TT TR TL TU TP TPU TLK TG TA TM TC TRC).
Abbreviation program := (@ActionExecution.program SF TT TR TL TU TP TPU TLK TG TA TM TC TRC).
Context (env : @exec_environment K) (contract : Z -> Z -> Z -> program) (act_digest : action -> digest_type)
  (decode_native : action -> res (@native_action K)) (checktime : nat -> res unit).

Abbreviation execute_action := (execute_action env contract act_digest decode_native checktime).
Abbreviation exec_one := (exec_one env contract act_digest decode_native checktime).
Abbreviation apply_action := (apply_action env contract decode_native checktime).
Abbreviation notify := (notify env contract act_digest decode_native checktime).
Abbreviation max_depth := (max_inline_action_depth (cfg (trx_env env))).

(** ** Contracts do not change what they act as *)

(** What identifies the action an apply_context executes. *)
Definition identity (c : @apply_context TT TR TL TU) : Z * Z * list permission_level * bool * bool :=
  (receiver c, ContractTables.act_account c, authorization c, privileged c, ram_restrictions c).

Lemma fixes_trx_add_ram_usage a d : fixes identity (trx_add_ram_usage a d).
Proof. unfold trx_add_ram_usage. apply fixes_bind; [|intros ?; by fixes_auto]. by apply fixes_zoom. Qed.
#[local] Hint Resolve fixes_trx_add_ram_usage : fixes.

Lemma fixes_add_ram_usage a d : fixes identity (add_ram_usage a d).
Proof. unfold add_ram_usage. fixes_auto. Qed.
#[local] Hint Resolve fixes_add_ram_usage : fixes.

Lemma fixes_require_authorization a : fixes identity (require_authorization a).
Proof. unfold require_authorization. fixes_auto. Qed.
Lemma fixes_require_permission a p : fixes identity (require_permission a p).
Proof. unfold require_permission. fixes_auto. Qed.
#[local] Hint Resolve fixes_require_authorization fixes_require_permission : fixes.

Lemma fixes_update_db_usage p d : fixes identity (update_db_usage p d).
Proof. unfold update_db_usage. fixes_auto. Qed.
#[local] Hint Resolve fixes_update_db_usage : fixes.

Lemma fixes_cache_table k t : fixes identity (ContractTables.cache_table k t).
Proof. intros c. unfold ContractTables.cache_table. by destruct (IteratorCache.cache_table _ _). Qed.
Lemma fixes_cache_add k p : fixes identity (cache_add k p).
Proof. intros c. unfold cache_add. by destruct (IteratorCache.add _ _). Qed.
Lemma fixes_cache_remove k i : fixes identity (cache_remove k i).
Proof. intros c. unfold cache_remove. by destruct (IteratorCache.remove _ _). Qed.
#[local] Hint Resolve fixes_cache_table fixes_cache_add fixes_cache_remove : fixes.

Lemma fixes_perform op : fixes identity (perform op).
Proof.
  destruct op; cbn [perform]; unfold void, db_store_i64, db_update_i64, db_remove_i64, db_get_i64, db_next_i64, db_previous_i64,
    db_find_i64, db_lowerbound_i64, db_upperbound_i64, db_end_i64, store, update, remove, get, find_secondary,
    lowerbound_secondary, upperbound_secondary, end_secondary, next_secondary, previous_secondary, find_primary,
    lowerbound_primary, upperbound_primary, next_primary, previous_primary, seek, end_iterator, step_next, step_previous,
    insert_row, erase_row, create_row, remove_row, modify_row, find_or_create_table, remove_table, change_count, get_row,
    table_of, deref_table; fixes_auto.
Qed.
#[local] Hint Resolve fixes_perform : fixes.

(** ** The bookkeeping of one apply_context *)

(** The action trace numbered [o]. *)
Definition trace_at (s : exec_state) (o : Z) (t : action_trace) : Prop :=
  0 < o /\ action_traces s !! Z.to_nat (o - 1) = Some t.

Lemma get_action_trace_ok o s t : get_action_trace o s = Ok t -> trace_at s o t.
Proof.
  unfold get_action_trace. intros Hg. inv_res. bprop. split; [lia|].
  by destruct (_ !! _); [injection Hg as ->|].
Qed.

Lemma trace_at_app (s s' : exec_state) new o t :
  trace_at s o t -> action_traces s' = action_traces s ++ new -> trace_at s' o t.
Proof. intros [Ho Ht] E. split; [done|]. rewrite E. by apply lookup_app_l_Some. Qed.

(** The ordinals after the first [n]. *)
Definition fresh (n k : nat) : list Z := (fun j => Z.of_nat (S j)) <$> seq n k.

Lemma fresh_app n k l : fresh n (k + l) = fresh n k ++ fresh (n + k) l.
Proof. unfold fresh. by rewrite seq_app, fmap_app. Qed.

Lemma elem_of_fresh o n k : o ∈ fresh n k <-> Z.of_nat n < o <= Z.of_nat (n + k).
Proof.
  unfold fresh. rewrite list_elem_of_fmap. split.
  - intros (j & -> & Hj%elem_of_seq). lia.
  - intros Ho. exists (Z.to_nat (o - 1)). rewrite elem_of_seq. split; lia.
Qed.

Lemma NoDup_fresh n k : NoDup (fresh n k).
Proof. unfold fresh. apply NoDup_fmap; [intros ? ? ?; lia|apply NoDup_seq]. Qed.

Record frame_ok (s : exec_state) : Prop := {
  fo_here : exists t, trace_at s (action_ordinal (current s)) t /\ tr_act t = act (current s) /\ tr_receiver t = current_receiver s;
  fo_first : exists t, trace_at s (first_receiver_action_ordinal (current s)) t;
  fo_notified : forall r o, (r, o) ∈ notified (current s) ->
    exists t, trace_at s o t /\ tr_act t = act (current s) /\ tr_receiver t = r;
  fo_distinct : NoDup (fst <$> notified (current s));
  fo_queued : forall o, o ∈ cfa_inline_actions (current s) ++ inline_actions (current s) ->
    exists t, trace_at s o t /\ tr_receiver t = Authorization.act_account (tr_act t)
}.

(** What a contract does while it runs, besides what it does to the database:
    traces are added, without receipts, and queued in one of the lists. *)
Record hosted (s s' : exec_state) : Prop := {
  ho_executed : executed s' = executed s;
  ho_sequence : global_action_sequence s' = global_action_sequence s;
  ho_receiver : current_receiver s' = current_receiver s;
  ho_act : act (current s') = act (current s);
  ho_ordinal : action_ordinal (current s') = action_ordinal (current s);
  ho_first : first_receiver_action_ordinal (current s') = first_receiver_action_ordinal (current s);
  ho_traces : exists new, action_traces s' = action_traces s ++ new
    /\ (forall j t, new !! j = Some t -> tr_receipt t = None
         /\ tr_ordinal t = Z.of_nat (S (length (action_traces s) + j)) /\ tr_creator t = action_ordinal (current s)
         /\ tr_closest_unnotified_ancestor t = first_receiver_action_ordinal (current s))
    /\ exists nn ii cc, notified (current s') = notified (current s) ++ nn
        /\ inline_actions (current s') = inline_actions (current s) ++ ii
        /\ cfa_inline_actions (current s') = cfa_inline_actions (current s) ++ cc
        /\ (snd <$> nn) ++ cc ++ ii ≡ₚ fresh (length (action_traces s)) (length new);
  ho_ok : frame_ok s'
}.

Lemma hosted_refl s : frame_ok s -> hosted s s.
Proof.
  intros Hok. split; try done. exists []. rewrite app_nil_r. split; [done|]. split; [done|].
  exists [], [], []. by rewrite !app_nil_r.
Qed.

Lemma hosted_trans s1 s2 s3 : hosted s1 s2 -> hosted s2 s3 -> hosted s1 s3.
Proof.
  intros [E1 G1 R1 A1 O1 F1 (n1 & T1 & N1 & nn1 & ii1 & cc1 & Ln1 & Li1 & Lc1 & P1) _]
         [E2 G2 R2 A2 O2 F2 (n2 & T2 & N2 & nn2 & ii2 & cc2 & Ln2 & Li2 & Lc2 & P2) Ok2].
  split; try congruence. exists (n1 ++ n2). split; [by rewrite T2, T1, <- (assoc_L (++))|]. split.
  - intros j t [Hj|[Hlen Hj]]%lookup_app_Some; [by apply N1|]. rewrite <- O1, <- F1. rewrite T1, length_app in N2.
    destruct (N2 _ _ Hj) as (? & Ho & ? & ?). split_and!; [done| |done|done]. rewrite Ho. f_equal. lia.
  - exists (nn1 ++ nn2), (ii1 ++ ii2), (cc1 ++ cc2).
    rewrite Ln2, Ln1, Li2, Li1, Lc2, Lc1, <- !(assoc_L (++)). split_and!; [done..|].
    rewrite length_app, fresh_app, <- P1. rewrite T1, length_app in P2. rewrite <- P2, fmap_app. solve_Permutation.
Qed.

(** *** Calls that schedule nothing *)

Definition books (s : exec_state) : list action_receipt * Z * Z * list action_trace * frame :=
  (executed s, global_action_sequence s, current_receiver s, action_traces s, current s).
Definition quiet (s : exec_state) := (books s, metadata_table (chain_db s)).

Lemma hosted_quiet s s' : frame_ok s -> books s' = books s -> hosted s s'.
Proof.
  intros [H1 H2 H3 H4] E. injection E as Ee Eg Er Et Ec. split; try congruence.
  - exists []. rewrite app_nil_r. split; [done|]. split; [done|]. exists [], [], []. rewrite !app_nil_r, Ec. done.
  - unfold trace_at in *. split; unfold trace_at; rewrite ?Ec, ?Et, ?Er; done.
Qed.

Lemma fixes_quiet {A} (m : exec exec_state A) : fixes quiet m -> fixes books m.
Proof. intros H s. exact (f_equal fst (H s)). Qed.

Definition acting (n : native) : Z := receiver (context n).
Definition db_view (n : native) : Z * TM := (acting n, metadata_table n).

Lemma fixes_in_db_books {A} (m : exec native A) : fixes acting m -> fixes books (in_db m).
Proof.
  intros Hm. apply (fixes_zoom_view books acting); [done|]. intros n s. unfold books, current_receiver, acting. cbn.
  by intros ->.
Qed.

Lemma fixes_in_db {A} (m : exec native A) : fixes db_view m -> fixes quiet (in_db m).
Proof.
  intros Hm. apply (fixes_zoom_view quiet db_view); [done|]. intros n s.
  unfold quiet, books, current_receiver, db_view, acting. cbn. by intros [= -> ->].
Qed.
#[local] Hint Resolve fixes_in_db fixes_in_db_books : fixes.

Lemma fixes_in_context {A} (m : exec _ A) : fixes identity m -> fixes db_view (in_context m).
Proof.
  intros Hm. apply (fixes_zoom_view db_view identity); [done|]. intros c n. unfold identity, db_view, acting. cbn.
  by intros [= ->].
Qed.
#[local] Hint Resolve fixes_in_context : fixes.

Lemma fixes_create_generated tid g : fixes db_view (create_generated tid g).
Proof. unfold create_generated. fixes_auto. Qed.
#[local] Hint Resolve fixes_create_generated : fixes.

Lemma fixes_add_to_ram_correction a b : fixes quiet (add_to_ram_correction a b).
Proof. unfold add_to_ram_correction. fixes_auto. Qed.
#[local] Hint Resolve fixes_add_to_ram_correction : fixes.

Lemma fixes_exec_add_net_usage u : fixes quiet (exec_add_net_usage env u).
Proof. unfold exec_add_net_usage. fixes_auto. Qed.
#[local] Hint Resolve fixes_exec_add_net_usage : fixes.

Lemma fixes_replace_generated old_id old tid g : fixes quiet (replace_generated env old_id old tid g).
Proof.
  unfold replace_generated. fixes_auto. apply fixes_in_db. fixes_auto.
Qed.
#[local] Hint Resolve fixes_replace_generated : fixes.

Lemma fixes_schedule_deferred i p t r : fixes quiet (schedule_deferred_transaction env i p t r).
Proof. unfold schedule_deferred_transaction, check_deferred_payer. fixes_auto. Qed.
#[local] Hint Resolve fixes_schedule_deferred : fixes.

Lemma fixes_cancel_deferred i r : fixes db_view (cancel_deferred_transaction i r).
Proof. unfold cancel_deferred_transaction. fixes_auto. Qed.
#[local] Hint Resolve fixes_cancel_deferred : fixes.

(** *** Calls that schedule an action *)

Lemma set_act_same f : set_act (act f) f = f.
Proof. by destruct f. Qed.
Lemma set_current_same (s : exec_state) : set_current (current s) s = s.
Proof. by destruct s. Qed.

Definition scheduled (s : exec_state) (a : action) (r : Z) (cf : bool) : action_trace :=
  mk_trace (Z.of_nat (S (length (action_traces s)))) (action_ordinal (current s))
    (first_receiver_action_ordinal (current s)) r a cf None ∅ None.

Lemma schedule_action_ok a r cf (s s' : exec_state) o : frame_ok s -> Z.of_nat (length (action_traces s')) < 2 ^ 32 ->
  schedule_action a r cf s = (Ok o, s') ->
  o = Z.of_nat (S (length (action_traces s))) /\ s' = set_traces (action_traces s ++ [scheduled s a r cf]) s.
Proof.
  intros [(t & Ht & Ha & _) _ _ _ _] Hlen Hrun. unfold schedule_action, trx_schedule_action, refresh_act, modify_frame in Hrun.
  unfold bind, get_state, modify, ret, lift in Hrun. cbn [current action_traces set_traces] in Hrun.
  destruct (get_action_trace _ _) as [t'|] eqn:Eg; [|done]. apply get_action_trace_ok in Eg.
  assert (t' = t) as ->.
  { destruct Eg as [_ Eg]. destruct Ht as [_ Ht]. cbn in Eg. rewrite (lookup_app_l_Some _ _ _ _ Ht) in Eg. congruence. }
  injection Hrun as <- <-. cbn [action_traces set_current set_traces] in Hlen. rewrite length_app in Hlen. cbn in Hlen.
  cbn [current set_traces]. rewrite Ha, set_act_same. unfold u32. rewrite wrap_small by (unfold is_uint; lia).
  split; [lia|]. unfold scheduled. replace (Z.of_nat (length (action_traces s)) + 1) with (Z.of_nat (S (length (action_traces s)))) by lia.
  by destruct s.
Qed.

Lemma schedule_ordinal_ok r cf (s s' : exec_state) o : frame_ok s -> Z.of_nat (length (action_traces s')) < 2 ^ 32 ->
  schedule_ordinal (action_ordinal (current s)) r cf s = (Ok o, s') ->
  schedule_action (act (current s)) r cf s = (Ok o, s').
Proof.
  intros [(t & Ht & Ha & _) _ _ _ _] Hlen Hrun. unfold schedule_ordinal, trx_schedule_ordinal in Hrun. unfold schedule_action.
  unfold bind at 1, get_state at 1 in Hrun. unfold bind at 1, get_state at 1.
  apply bind_ok in Hrun as (o' & s1 & Hs & Hrun). unfold bind at 1, get_state at 1 in Hs. apply bind_lift_ok in Hs as (t' & Hg & Hs).
  apply get_action_trace_ok in Hg as [_ Hg]. destruct Ht as [_ Ht]. rewrite Ht in Hg. injection Hg as <-. rewrite Ha in Hs.
  unfold bind at 1. by rewrite Hs.
Qed.

Lemma hosted_scheduled s a r cf f' nn ii cc :
  frame_ok s ->
  f' = mk_frame (act (current s)) (context_free (current s)) (recurse_depth (current s))
         (first_receiver_action_ordinal (current s)) (action_ordinal (current s)) (notified (current s) ++ nn)
         (inline_actions (current s) ++ ii) (cfa_inline_actions (current s) ++ cc) ->
  (snd <$> nn) ++ cc ++ ii = [Z.of_nat (S (length (action_traces s)))] ->
  (forall x o, (x, o) ∈ nn -> x = r /\ a = act (current s)) ->
  (forall o, o ∈ cc ++ ii -> r = Authorization.act_account a) ->
  NoDup (fst <$> notified (current s) ++ nn) ->
  hosted s (set_current f' (set_traces (action_traces s ++ [scheduled s a r cf]) s)).
Proof.
  intros [H1 H2 H3 H4 H5] -> Hl Hnn Hq Hnd. split; try done; cbn.
  - exists [scheduled s a r cf]. split; [done|]. split.
    { intros j t [[-> <-]|[_ Hj]]%lookup_cons_Some; [|done]. cbn. split_and!; [done|lia|done|done]. }
    exists nn, ii, cc. rewrite Hl. done.
  - assert (forall o t, trace_at s o t -> trace_at (set_current (mk_frame (act (current s)) (context_free (current s))
      (recurse_depth (current s)) (first_receiver_action_ordinal (current s)) (action_ordinal (current s))
      (notified (current s) ++ nn) (inline_actions (current s) ++ ii) (cfa_inline_actions (current s) ++ cc))
      (set_traces (action_traces s ++ [scheduled s a r cf]) s)) o t) as Hat by (intros o t Ht; by eapply trace_at_app).
    assert (forall o, o ∈ (snd <$> nn) ++ cc ++ ii -> trace_at (set_traces (action_traces s ++ [scheduled s a r cf]) s) o (scheduled s a r cf))
      as Hlast.
    { intros o Ho. rewrite Hl in Ho. apply list_elem_of_singleton in Ho as ->. split; [lia|]. cbn. rewrite lookup_app_r by lia.
      by replace (Z.to_nat _ - length (action_traces s))%nat with 0%nat by lia. }
    split; cbn [current set_current act notified action_ordinal first_receiver_action_ordinal inline_actions cfa_inline_actions].
    + destruct H1 as (t & Ht & ?). exists t. split; [by apply Hat|done].
    + destruct H2 as (t & Ht). exists t. by apply Hat.
    + intros x o [Hx|Hx]%elem_of_app.
      * destruct (H3 _ _ Hx) as (t & Ht & ?). exists t. split; [by apply Hat|done].
      * destruct (Hnn _ _ Hx) as [-> ->]. exists (scheduled s (act (current s)) r cf).
        split; [|done]. apply Hlast, elem_of_app. left. apply list_elem_of_fmap. by exists (r, o).
    + done.
    + intros o Ho. assert (o ∈ cfa_inline_actions (current s) ++ inline_actions (current s) \/ o ∈ cc ++ ii) as [H|H]
        by (clear - Ho; rewrite !elem_of_app in *; tauto).
      * destruct (H5 _ H) as (t & Ht & ?). exists t. split; [by apply Hat|done].
      * exists (scheduled s a r cf). split; [apply Hlast, elem_of_app; by right|by apply (Hq o)].
Qed.

(** *** Traces are only added *)

(** Who is to execute what. *)
Definition trace_key (t : action_trace) : action * Z := (tr_act t, tr_receiver t).
Definition grows {A} (m : exec exec_state A) : Prop :=
  forall s, (trace_key <$> action_traces s) `prefix_of` (trace_key <$> action_traces (snd (m s))).

Lemma grows_length {A} (m : exec exec_state A) s : grows m -> (length (action_traces s) <= length (action_traces (snd (m s))))%nat.
Proof. intros H. pose proof (prefix_length _ _ (H s)) as Hl. by rewrite !length_fmap in Hl. Qed.

Lemma grows_at {A} (m : exec exec_state A) s s' r o t : grows m -> m s = (r, s') -> trace_at s o t ->
  exists t', trace_at s' o t' /\ trace_key t' = trace_key t.
Proof.
  intros Hm E [Ho Ht]. specialize (Hm s). rewrite E in Hm. cbn in Hm.
  assert ((trace_key <$> action_traces s) !! Z.to_nat (o - 1) = Some (trace_key t)) as Hk by (by rewrite list_lookup_fmap, Ht).
  apply (prefix_lookup_Some _ _ _ _ Hk) in Hm. rewrite list_lookup_fmap in Hm.
  destruct (action_traces s' !! Z.to_nat (o - 1)) as [t'|] eqn:Et; [|done]. exists t'. split; [done|]. by apply (inj Some).
Qed.

Lemma grows_bind {A B} (m : exec exec_state A) (k : A -> exec exec_state B) :
  grows m -> (forall a, grows (k a)) -> grows (bind m k).
Proof.
  intros Hm Hk s. unfold bind. pose proof (Hm s) as H. destruct (m s) as [[a|e] s']; [|done].
  etrans; [exact H|apply Hk].
Qed.
Lemma grows_fixes {A} (m : exec exec_state A) : fixes action_traces m -> grows m.
Proof. intros H s. by rewrite (H s). Qed.
Lemma grows_books {A} (m : exec exec_state A) : fixes books m -> grows m.
Proof. intros H. apply grows_fixes. intros s. by injection (H s). Qed.
Lemma grows_quiet {A} (m : exec exec_state A) : fixes quiet m -> grows m.
Proof. intros H. by apply grows_books, fixes_quiet. Qed.
Lemma grows_for_each {A} (l : list A) (f : A -> exec exec_state unit) : (forall a, grows (f a)) -> grows (for_each l f).
Proof.
  intros Hf. induction l as [|a l IH]; cbn [for_each]; [by intros s|]. by apply grows_bind.
Qed.

Create HintDb grows discriminated.
#[local] Hint Resolve grows_books grows_quiet grows_for_each : grows.
Ltac grows_step :=
  lazymatch goal with
  | |- grows (bind _ _) => apply grows_bind; [|intros ?]
  | |- grows (modify _) => apply grows_fixes, fixes_modify; intros ?; reflexivity
  | |- grows (match ?x with _ => _ end) => destruct x
  | |- grows (let '(_, _) := ?x in _) => destruct x
  | |- grows _ => solve [auto with grows fixes | apply grows_fixes; auto with fixes]
  end.
Ltac grows_auto := repeat grows_step.

Lemma grows_trx_schedule_action a r cf c cl : grows (trx_schedule_action a r cf c cl).
Proof. intros s. cbn. rewrite fmap_app. by apply prefix_app_r. Qed.
#[local] Hint Resolve grows_trx_schedule_action : grows.

Lemma grows_host c : grows (host env c).
Proof.
  destruct c; cbn [host]; try (apply grows_quiet; by fixes_auto);
    unfold require_recipient, execute_inline, execute_context_free_inline, schedule_action, schedule_ordinal,
      trx_schedule_ordinal, refresh_act, modify_frame; grows_auto.
Qed.
#[local] Hint Resolve grows_host : grows.

Lemma grows_run_program p : grows (run_program env p).
Proof. induction p as [| |c k IH]; cbn [run_program]; grows_auto. Qed.
#[local] Hint Resolve grows_run_program : grows.

(** *** A contract is hosted *)

Lemma has_recipient_false r f : has_recipient r f = false -> r ∉ fst <$> notified f.
Proof.
  unfold has_recipient. intros Hf ([x o] & -> & Hx)%list_elem_of_fmap. apply not_true_iff_false in Hf. apply Hf.
  apply existsb_exists. exists (x, o). split; [by apply list_elem_of_In|apply Z.eqb_refl].
Qed.

Lemma host_ok c s s' u : host env c s = (Ok u, s') -> frame_ok s -> Z.of_nat (length (action_traces s')) < 2 ^ 32 -> hosted s s'.
Proof.
  intros Hrun Hok Hlen. pose proof Hok as [_ _ _ Hnd _].
  assert (fixes quiet (host env c) -> hosted s s') as Hquiet.
  { intros Hf%fixes_quiet. apply hosted_quiet; [done|]. pose proof (Hf s) as E. by rewrite Hrun in E. }
  destruct c; cbn [host] in *; try (apply Hquiet; by fixes_auto); clear Hquiet.
  - unfold require_recipient in Hrun. unfold bind at 1, get_state at 1 in Hrun.
    destruct (has_recipient recipient (current s)) eqn:Hr; [injection Hrun as _ <-; by apply hosted_refl|]. cbn [negb] in Hrun.
    apply bind_ok in Hrun as (o & s1 & Hs & Hrun). injection Hrun as _ <-. cbn [action_traces set_current] in Hlen.
    apply schedule_ordinal_ok in Hs; [|done|done]. apply schedule_action_ok in Hs as [-> ->]; [|done|done].
    apply (hosted_scheduled s _ _ _ _ [(recipient, Z.of_nat (S (length (action_traces s))))] [] []); [done|by rewrite !app_nil_r|done| |by intros ? ?%elem_of_nil|].
    + intros x o [= -> ->]%list_elem_of_singleton. done.
    + rewrite fmap_app. apply NoDup_app. split; [done|]. split; [|apply NoDup_singleton].
      intros x Hx ->%list_elem_of_singleton. by apply (has_recipient_false _ _ Hr).
  - unfold execute_inline in Hrun. do 5 exec_step Hrun. apply bind_ok in Hrun as (o & s1 & Hs & Hrun).
    injection Hrun as _ <-. cbn [action_traces set_current] in Hlen. apply schedule_action_ok in Hs as [-> ->]; [|done|done].
    apply (hosted_scheduled s _ _ _ _ [] [Z.of_nat (S (length (action_traces s)))] []); [done|by rewrite !app_nil_r|done| |done|by rewrite app_nil_r].
    intros ? ? ?%elem_of_nil. done.
  - unfold execute_context_free_inline in Hrun. do 3 exec_step Hrun. apply bind_ok in Hrun as (o & s1 & Hs & Hrun).
    injection Hrun as _ <-. cbn [action_traces set_current] in Hlen. apply schedule_action_ok in Hs as [-> ->]; [|done|done].
    apply (hosted_scheduled s _ _ _ _ [] [] [Z.of_nat (S (length (action_traces s)))]); [done|by rewrite !app_nil_r|done| |done|by rewrite app_nil_r].
    intros ? ? ?%elem_of_nil. done.
Qed.

Lemma run_program_ok p : forall s s' u, run_program env p s = (Ok u, s') -> frame_ok s ->
  Z.of_nat (length (action_traces s')) < 2 ^ 32 -> hosted s s'.
Proof.
  induction p as [|e|c k IH]; intros s s' u Hrun Hok Hlen; cbn [run_program] in Hrun.
  - injection Hrun as _ <-. by apply hosted_refl.
  - done.
  - apply bind_ok in Hrun as (x & s1 & Hh & Hrun). unfold bind, get_state in Hrun.
    pose proof (grows_length _ s1 (grows_run_program (k s1))) as Hl. rewrite Hrun in Hl. cbn [snd] in Hl.
    assert (hosted s s1) as H1 by (eapply host_ok; [done|done|lia]).
    eapply hosted_trans; [exact H1|]. eapply IH; [done|apply H1|done].
Qed.

(** *** Native actions act as the same receiver *)

Lemma fixes_for_each {S X A} (view : S -> X) (l : list A) (f : A -> exec S unit) :
  (forall a, fixes view (f a)) -> fixes view (for_each l f).
Proof. intros Hf. induction l as [|a l IH]; cbn [for_each]; [done|]. by apply fixes_bind. Qed.

Lemma fixes_in_context_acting {A} (m : exec _ A) : fixes identity m -> fixes acting (in_context m).
Proof. intros H n. exact (f_equal fst (fixes_in_context m H n)). Qed.
Lemma fixes_in_auth_acting {A} (m : exec _ A) : fixes acting (in_auth m : exec native A).
Proof. by apply fixes_zoom. Qed.
Lemma fixes_in_limits_acting {A} (m : exec _ A) : fixes acting (in_limits m : exec native A).
Proof. unfold in_limits. apply fixes_in_context_acting. by apply fixes_zoom. Qed.
#[local] Hint Resolve fixes_in_context_acting fixes_in_auth_acting fixes_in_limits_acting : fixes.

Lemma fixes_validate_authority e (a : authority K) : fixes acting (validate_authority_precondition e a).
Proof.
  unfold validate_authority_precondition, check_authority_account.
  apply fixes_bind; [|intros _; destruct (enforcing_key_list e)]; [|apply fixes_for_each; intros ?; fixes_auto|fixes_auto].
  apply fixes_for_each. intros w. fixes_auto.
Qed.
#[local] Hint Resolve fixes_validate_authority : fixes.

Lemma fixes_apply_native e (a : @native_action K) : fixes acting (apply_native e a).
Proof.
  destruct a; cbn [apply_native]; unfold apply_eosio_newaccount, apply_eosio_setcode, apply_eosio_setabi,
    apply_eosio_updateauth, apply_eosio_deleteauth, apply_eosio_linkauth, apply_eosio_unlinkauth, apply_eosio_canceldelay,
    create_account_rows, drop_code, use_code, put_code, put_link, cancel_deferred_transaction; fixes_auto.
Qed.
#[local] Hint Resolve fixes_apply_native : fixes.

Lemma grows_in_db_native e (a : @native_action K) : grows (in_db (apply_native e a)).
Proof. apply grows_books, fixes_in_db_books, fixes_apply_native. Qed.
#[local] Hint Resolve grows_in_db_native : grows.

Lemma fixes_set_privileged b : fixes quiet (modify_context (set_privileged b)).
Proof. unfold modify_context. fixes_auto. Qed.
#[local] Hint Resolve fixes_set_privileged : fixes.

Lemma grows_apply_action : grows apply_action.
Proof. unfold ActionExecution.apply_action, check_lists. grows_auto. Qed.
#[local] Hint Resolve grows_apply_action : grows.

Lemma hosted_fixes {A} (m : exec exec_state A) s s' r : m s = (r, s') -> fixes books m -> frame_ok s -> hosted s s'.
Proof. intros Hm Hf Hok. apply hosted_quiet; [done|]. pose proof (Hf s) as E. by rewrite Hm in E. Qed.

Lemma apply_action_ok s s' u : apply_action s = (Ok u, s') -> frame_ok s ->
  Z.of_nat (length (action_traces s')) < 2 ^ 32 -> hosted s s'.
Proof.
  intros Hrun Hok Hlen. unfold ActionExecution.apply_action in Hrun. exec_step Hrun. exec_step Hrun. exec_step Hrun. clear L.
  assert (hosted s s0) as H1 by (eapply hosted_fixes; [exact R|apply fixes_quiet; auto with fixes|done]). clear R.
  exec_step Hrun. assert (hosted s0 s1) as H2.
  { eapply hosted_fixes; [exact R| |apply H1]. unfold check_lists. fixes_auto. }
  clear R. exec_step Hrun. injection R as <- <-. exec_step Hrun. clear L. exec_step Hrun.
  assert (s' = s2) as ->.
  { exec_step Hrun. injection R0 as <- <-. by apply lift_ok in Hrun as [_ ->]. }
  clear Hrun. assert (hosted s1 s2) as H3.
  { destruct (_ && _); [|injection R as _ <-; apply hosted_refl, H2]. unfold check_lists in R. exec_step R.
    eapply run_program_ok; [exact R|apply H2|done]. }
  eapply hosted_trans; [exact H1|]. by eapply hosted_trans.
Qed.

(** *** The receipt *)

(** [s'] has the receipt [r] for the current action. *)
Record receipted (s s' : exec_state) (r : action_receipt) : Prop := {
  rd_executed : executed s' = executed s ++ [r];
  rd_sequence : global_action_sequence s' = u64 (global_action_sequence s + 1);
  rd_global : rc_global_sequence r = u64 (global_action_sequence s + 1);
  rd_by : rc_receiver r = current_receiver s;
  rd_digest : rc_act_digest r = act_digest (act (current s));
  rd_receiver : current_receiver s' = current_receiver s;
  rd_frame : current s' = current s;
  rd_traces : exists t d, trace_at s (action_ordinal (current s)) t
    /\ action_traces s' = <[Z.to_nat (action_ordinal (current s) - 1) := set_tr_deltas d (set_receipt r t)]> (action_traces s)
}.

Lemma fixes_next_recv_sequence a : fixes acting (next_recv_sequence a : exec native Z).
Proof. unfold next_recv_sequence, put_account_metadata. fixes_auto. Qed.
Lemma fixes_auth_sequences l : forall m, fixes acting (auth_sequences l m : exec native _).
Proof.
  induction l as [|p l IH]; intros m; cbn [auth_sequences]; [fixes_auto|].
  unfold next_auth_sequence, put_account_metadata. fixes_auto.
Qed.
#[local] Hint Resolve fixes_next_recv_sequence fixes_auth_sequences : fixes.

Lemma books_of {A} (m : exec exec_state A) s s' r : m s = (r, s') -> fixes books m -> books s' = books s.
Proof. intros Hm Hf. pose proof (Hf s) as E. by rewrite Hm in E. Qed.

Lemma update_trace_ok o f s s' u : update_trace o f s = (Ok u, s') ->
  exists t, trace_at s o t /\ s' = set_traces (<[Z.to_nat (o - 1) := f t]> (action_traces s)) s.
Proof.
  intros Hrun. unfold update_trace in Hrun. do 2 exec_step Hrun. injection Hrun as _ <-.
  exists x. split; [by apply get_action_trace_ok|done].
Qed.

Lemma record_receipt_ok s s' u : record_receipt act_digest s = (Ok u, s') -> exists r, receipted s s' r.
Proof.
  intros Hrun. unfold record_receipt in Hrun. exec_step Hrun.
  unfold next_global_sequence in Hrun. apply bind_ok in Hrun as (g & s1 & Hg & Hrun).
  unfold bind, modify, get_state, ret in Hg. injection Hg as Eg Es1.
  exec_step Hrun. apply books_of in R as B2; [|auto with fixes]. clear R. exec_step Hrun. injection R as <- <-.
  exec_step Hrun. exec_step Hrun. apply books_of in R as B3; [|auto with fixes]. clear R. exec_step Hrun. injection R as <- <-.
  exec_step Hrun. apply update_trace_ok in R as (t & Ht & ->). exec_step Hrun. cbv beta iota in Hrun.
  unfold finalize_trace in Hrun. exec_step Hrun. exec_step Hrun.
  apply update_trace_ok in R as (t' & [_ Ht'] & ->). injection Hrun as _ <-.
  rewrite B2 in B3. subst s1. injection B3 as E1 E2 E3 E4 E5. destruct Ht as [Ho Ht].
  cbn [current set_executed set_traces action_traces] in *. rewrite E4, E5 in *.
  assert (Z.to_nat (action_ordinal (current s) - 1) < length (action_traces s))%nat as Hlt by (by eapply lookup_lt_Some).
  rewrite list_lookup_insert_eq in Ht' by done. injection Ht' as <-.
  eexists. split; cbn -[u64]; [by rewrite E1|exact E2|by rewrite <- Eg|done|done|exact E3|done|].
  exists t. eexists. split; [by split|]. by rewrite list_insert_insert_eq.
Qed.

(** ** The books of a transaction *)

Definition same_action (t t' : action_trace) : Prop :=
  tr_ordinal t' = tr_ordinal t /\ tr_creator t' = tr_creator t
  /\ tr_closest_unnotified_ancestor t' = tr_closest_unnotified_ancestor t /\ tr_receiver t' = tr_receiver t
  /\ tr_act t' = tr_act t /\ tr_context_free t' = tr_context_free t.

(** Traces are numbered in order and created by earlier ones; the receipts are
    those of the traces, and number the actions from [g0] on. *)
Record accounted (g0 : Z) (s : exec_state) : Prop := {
  ac_executed : executed s ≡ₚ omap tr_receipt (action_traces s);
  ac_global : rc_global_sequence <$> executed s = (fun k => u64 (g0 + Z.of_nat k)) <$> seq 1 (length (executed s));
  ac_sequence : global_action_sequence s = u64 (g0 + Z.of_nat (length (executed s)));
  ac_numbers : forall j t, action_traces s !! j = Some t -> tr_ordinal t = Z.of_nat (S j)
    /\ 0 <= tr_creator t <= Z.of_nat j /\ 0 <= tr_closest_unnotified_ancestor t <= Z.of_nat j;
  ac_receipts : forall j t r, action_traces s !! j = Some t -> tr_receipt t = Some r ->
    rc_receiver r = tr_receiver t /\ rc_act_digest r = act_digest (tr_act t)
}.

Lemma omap_none {A B} (f : A -> option B) l : (forall j t, l !! j = Some t -> f t = None) -> omap f l = [].
Proof.
  induction l as [|x l IH]; intros H; [done|]. cbn. rewrite (H 0%nat x) by done. apply IH. intros j t. apply (H (S j)).
Qed.

Lemma omap_insert_new {A B} (f : A -> option B) l k t t' r :
  l !! k = Some t -> f t = None -> f t' = Some r -> omap f (<[k := t']> l) ≡ₚ r :: omap f l.
Proof.
  intros Hk Ht Ht'. rewrite <- (take_drop_middle l k t Hk) at 2.
  rewrite insert_take_drop by (by eapply lookup_lt_Some). rewrite !omap_app. cbn. rewrite Ht, Ht'. solve_Permutation.
Qed.

Lemma trace_at_range (s : exec_state) o t : trace_at s o t -> 0 < o <= Z.of_nat (length (action_traces s)).
Proof. intros [Ho Ht]. apply lookup_lt_Some in Ht. lia. Qed.

Lemma accounted_hosted g0 s s' : accounted g0 s -> frame_ok s -> hosted s s' -> accounted g0 s'.
Proof.
  intros [A1 A2 A3 A4 A5] [(t1 & F1 & _) (t2 & F2) _ _] [E G R A O F (new & T & N & _) _].
  apply trace_at_range in F1. apply trace_at_range in F2. split; rewrite ?E, ?G, ?T; [|done|done|..].
  - rewrite omap_app, (omap_none _ new), app_nil_r by (intros j t Hj; apply (N j t Hj)). done.
  - intros j t [Hj|[Hl Hj]]%lookup_app_Some; [by apply A4|]. destruct (N _ _ Hj) as (_ & Ho & Hc & Hcl).
    rewrite Ho, Hc, Hcl. lia.
  - intros j t r [Hj|[Hl Hj]]%lookup_app_Some Hr; [by eapply A5|]. destruct (N _ _ Hj) as (Hn & _). congruence.
Qed.

Lemma u64_wrap a b : u64 (u64 a + b) = u64 (a + b).
Proof. unfold u64, wrap. by rewrite Zplus_mod_idemp_l. Qed.

Lemma accounted_receipted g0 s s' r t : accounted g0 s -> frame_ok s -> receipted s s' r ->
  trace_at s (action_ordinal (current s)) t -> tr_receipt t = None -> accounted g0 s'.
Proof.
  intros [A1 A2 A3 A4 A5] [(t1 & F1 & Fa & Fr) _ _ _] [E G Rg Rb Rd Rr Rf (t' & d & [_ Ht'] & T)] [Ho Ht] Hn.
  assert (t' = t) as -> by congruence. destruct F1 as [_ F1]. assert (t1 = t) as -> by congruence.
  split; rewrite ?E, ?G, ?T.
  - rewrite (omap_insert_new _ _ _ t _ r); [|done|done|done]. rewrite <- A1. solve_Permutation.
  - rewrite fmap_app, A2, length_app. cbn [length]. rewrite seq_app, fmap_app. cbn. f_equal. f_equal.
    rewrite Rg, A3, u64_wrap. f_equal. lia.
  - rewrite A3, u64_wrap, length_app. cbn [length]. f_equal. lia.
  - intros j x Hx. destruct (decide (j = Z.to_nat (action_ordinal (current s) - 1))) as [-> |Hne].
    + rewrite list_lookup_insert_eq in Hx by (by eapply lookup_lt_Some). injection Hx as <-. by apply (A4 _ _ Ht).
    + rewrite list_lookup_insert_ne in Hx by done. by apply A4.
  - intros j x r' Hx Hr'. destruct (decide (j = Z.to_nat (action_ordinal (current s) - 1))) as [-> |Hne].
    + rewrite list_lookup_insert_eq in Hx by (by eapply lookup_lt_Some). injection Hx as <-. cbn in Hr'.
      injection Hr' as <-. cbn. by rewrite Rb, Rd, Fr, Fa.
    + rewrite list_lookup_insert_ne in Hx by done. by eapply A5.
Qed.

Lemma frame_ok_receipted s s' r : frame_ok s -> receipted s s' r -> frame_ok s'.
Proof.
  intros [H1 H2 H3 H4 H5] [E G Rg Rb Rd Rr Rf (t & d & [Ho Ht] & T)].
  assert (forall o x, trace_at s o x -> exists y, trace_at s' o y /\ tr_act y = tr_act x /\ tr_receiver y = tr_receiver x) as Hat.
  { intros o x [Hx0 Hx]. unfold trace_at. rewrite T.
    destruct (decide (Z.to_nat (o - 1) = Z.to_nat (action_ordinal (current s) - 1))) as [Eo|Hne].
    - rewrite Eo in *. rewrite Ht in Hx. injection Hx as <-.
      exists (set_tr_deltas d (set_receipt r t)). rewrite list_lookup_insert_eq by (by eapply lookup_lt_Some). done.
    - exists x. by rewrite list_lookup_insert_ne. }
  split; rewrite ?Rf, ?Rr.
  - destruct H1 as (x & Hx & <- & <-). destruct (Hat _ _ Hx) as (y & Hy & Ey & Ez). by exists y.
  - destruct H2 as (x & Hx). destruct (Hat _ _ Hx) as (y & Hy & _). by exists y.
  - intros r' o Hin. destruct (H3 _ _ Hin) as (x & Hx & Ea & Er). destruct (Hat _ _ Hx) as (y & Hy & Ey & Ez).
    exists y. split; [done|]. split; congruence.
  - done.
  - intros o Hin. destruct (H5 _ Hin) as (x & Hx & Er). destruct (Hat _ _ Hx) as (y & Hy & Ey & Ez).
    exists y. split; [done|]. congruence.
Qed.

(** ** The number of traces only grows *)

Lemma grows_update_trace o f : (forall t, trace_key (f t) = trace_key t) -> grows (update_trace o f : exec exec_state unit).
Proof.
  intros Hf s. unfold update_trace, bind, get_state, lift, modify. destruct (get_action_trace o s) as [t|] eqn:E; [|done].
  apply get_action_trace_ok in E as [_ E]. cbn. rewrite list_fmap_insert, Hf, list_insert_id; [done|].
  by rewrite list_lookup_fmap, E.
Qed.
#[local] Hint Resolve grows_update_trace : grows.

Lemma grows_finalize_trace o : grows (finalize_trace o : exec exec_state unit).
Proof. unfold finalize_trace, modify_context. grows_auto. Qed.
#[local] Hint Resolve grows_finalize_trace : grows.

Lemma grows_with_trace (m : exec exec_state unit) : grows m -> grows (with_trace m).
Proof.
  intros Hm s. unfold with_trace. pose proof (Hm s) as H. destruct (m s) as [[a|e] s']; cbn [snd] in H; [done|].
  destruct (is_fc (fc_rethrow e)); [|done].
  assert (grows (record_exception (fc_rethrow e))) as Hl by (unfold record_exception; grows_auto). specialize (Hl s'). by etrans.
Qed.
#[local] Hint Resolve grows_with_trace : grows.

Lemma grows_exec_one : grows exec_one.
Proof. unfold ActionExecution.exec_one, record_receipt, next_global_sequence. grows_auto. Qed.
#[local] Hint Resolve grows_exec_one : grows.

Lemma grows_notify fuel : forall i, grows (notify fuel i).
Proof. induction fuel as [|fuel IH]; intros i; cbn [ActionExecution.notify]; unfold modify_context, modify_frame; grows_auto. Qed.
#[local] Hint Resolve grows_notify : grows.

Lemma grows_execute_action fuel : forall o depth, grows (execute_action fuel o depth).
Proof.
  induction fuel as [|fuel IH]; intros o depth; cbn [ActionExecution.execute_action];
    unfold new_apply_context, exec_receivers, notify_all, modify_context, modify_frame; grows_auto.
Qed.

Lemma fixes_schedule_transaction : fixes quiet (schedule_transaction env).
Proof. unfold schedule_transaction. fixes_auto. Qed.

(** ** Accounts are only created by native actions *)

Definition meta (s : exec_state) : TM := metadata_table (chain_db s).
Definition account_names (s : exec_state) : gset Z := dom (tbl_view (meta s)).

Lemma fixes_quiet_meta {A} (m : exec exec_state A) : fixes quiet m -> fixes meta m.
Proof. intros H s. exact (f_equal snd (H s)). Qed.
Lemma fixes_meta_names {A} (m : exec exec_state A) : fixes meta m -> fixes account_names m.
Proof. intros H s. unfold account_names. by rewrite (H s). Qed.

Lemma fixes_meta_host c : fixes meta (host env c).
Proof.
  destruct c; cbn [host]; try (apply fixes_quiet_meta; by fixes_auto);
    unfold require_recipient, execute_inline, execute_context_free_inline, schedule_action, schedule_ordinal,
      trx_schedule_ordinal, trx_schedule_action, refresh_act, modify_frame; fixes_auto.
Qed.
#[local] Hint Resolve fixes_meta_host : fixes.

Lemma fixes_meta_run_program p : fixes meta (run_program env p).
Proof. induction p as [| |c k IH]; cbn [run_program]; fixes_auto. Qed.
#[local] Hint Resolve fixes_meta_run_program : fixes.

Lemma apply_action_names (s : exec_state) :
  has_native_handler (current_receiver s) (Authorization.act_account (act (current s))) (act_name (act (current s))) = false ->
  account_names (snd (apply_action s)) = account_names s.
Proof.
  intros Hn. unfold ActionExecution.apply_action. unfold bind at 1, get_state at 1. cbv beta iota zeta. rewrite Hn.
  match goal with |- account_names (snd (?m s)) = _ => assert (fixes meta m) as Hf end.
  { unfold check_lists, modify_context. fixes_auto. }
  by apply fixes_meta_names.
Qed.

(** Changing a row that is there. *)
Definition names_of (n : native) : gset Z := dom (tbl_view (metadata_table n)).

Lemma put_account_metadata_names a m n : tbl_find a (metadata_table n) = Some m ->
  forall m', names_of (set_metadata (tbl_put a m' (metadata_table n)) n) = names_of n.
Proof.
  intros Hm m'. unfold names_of. cbn. rewrite tbl_put_view, dom_insert_L. rewrite tbl_find_view in Hm.
  apply elem_of_dom_2 in Hm. set_solver.
Qed.

Lemma fixes_recv_names a : fixes names_of (next_recv_sequence a : exec native Z).
Proof.
  intros n. unfold next_recv_sequence, bind, get_state, lift, put_account_metadata, modify, ret, tbl_get.
  destruct (tbl_find a (metadata_table n)) eqn:E; [|done]. by eapply put_account_metadata_names.
Qed.
Lemma fixes_auth_names l : forall m, fixes names_of (auth_sequences l m : exec native _).
Proof.
  induction l as [|p l IH]; intros m; cbn [auth_sequences]; [done|]. apply fixes_bind; [|by intros q].
  intros n. unfold next_auth_sequence, bind, get_state, lift, put_account_metadata, modify, ret, tbl_get.
  destruct (tbl_find (actor p) (metadata_table n)) eqn:E; [|done]. by eapply put_account_metadata_names.
Qed.
Lemma fixes_in_db_names {A} (m : exec native A) : fixes names_of m -> fixes account_names (in_db m).
Proof. intros Hm. by apply (fixes_zoom_view account_names names_of). Qed.

Lemma fixes_names_update_trace o f : fixes account_names (update_trace o f : exec exec_state unit).
Proof. unfold update_trace. fixes_auto. Qed.
#[local] Hint Resolve fixes_recv_names fixes_auth_names fixes_in_db_names fixes_names_update_trace : fixes.

Lemma fixes_record_receipt_names : fixes account_names (record_receipt act_digest : exec exec_state unit).
Proof.
  unfold record_receipt, next_global_sequence, finalize_trace, modify_context. fixes_auto.
Qed.

Lemma with_trace_ok (m : exec exec_state unit) s s' u : with_trace m s = (Ok u, s') -> m s = (Ok u, s').
Proof.
  unfold with_trace. intros Hw. destruct (m s) as [[a|e] s1]; [done|]. destruct (is_fc (fc_rethrow e)); [|done].
  unfold record_exception, bind at 1, get_state at 1 in Hw. apply bind_ok in Hw as (? & ? & _ & Hw).
  by apply bind_ok in Hw as (? & ? & _ & Hw).
Qed.

(** An account that has executed an action exists. *)
Lemma exec_one_names (s s' : exec_state) u :
  has_native_handler (current_receiver s) (Authorization.act_account (act (current s))) (act_name (act (current s))) = false ->
  exec_one s = (Ok u, s') -> account_names s' = account_names s /\ current_receiver s ∈ account_names s.
Proof.
  intros Hn Hrun. unfold ActionExecution.exec_one in Hrun. apply bind_ok in Hrun as (x & s1 & Ha & Hrun).
  apply with_trace_ok in Ha as E. pose proof (apply_action_names s Hn) as En. rewrite E in En. cbn [snd] in En.
  pose proof (fixes_record_receipt_names s1) as Er. rewrite Hrun in Er. cbn [snd] in Er.
  split; [congruence|]. unfold ActionExecution.apply_action in E. do 2 exec_step E. unfold tbl_get in L.
  destruct (tbl_find _ _) eqn:Ef; [|done]. rewrite tbl_find_view in Ef. by apply elem_of_dom_2 in Ef.
Qed.

Lemma record_receipt_exists (s s' : exec_state) u :
  record_receipt act_digest s = (Ok u, s') -> current_receiver s ∈ account_names s'.
Proof.
  intros Hrun. pose proof (fixes_record_receipt_names s) as Er. rewrite Hrun in Er. cbn [snd] in Er. rewrite Er.
  unfold record_receipt in Hrun. exec_step Hrun. unfold next_global_sequence in Hrun.
  apply bind_ok in Hrun as (g & s1 & Hg & Hrun). unfold bind, modify, get_state, ret in Hg. injection Hg as _ <-.
  exec_step Hrun. apply zoom_ok in R as (n & Hn & _). unfold next_recv_sequence in Hn. do 2 exec_step Hn.
  unfold tbl_get in L. destruct (tbl_find _ _) eqn:E; [|done]. rewrite tbl_find_view in E. by apply elem_of_dom_2 in E.
Qed.
End Execution.
