(* ===== verification/ActionTheorems.v ===== *)
(** What executing a transaction does (ActionExecution.v): every action that is
    scheduled is executed once, in a bounded number of steps, and the receipts
    number the actions consecutively; what contracts send is authorized. *)

From Stdlib Require Import ZArith Lia.
From stdpp Require Import base gmap numbers sorting list.
From S2P Require Import Prelude Chainbase Name Merkle Authority AuthorityChecker ResourceLimits BlockTimestamp BlockHeader AuthorizationManager IteratorCache ContractTables ContractInvariant ContractTheorems EosioContract NativeActions ChainConfig AccessLists Transaction TransactionContext ActionExecution ActionFrames.

#[local] Open Scope Z_scope.
#[local] Open Scope chain_scope.
Import Authorization.

Section Execution.
Context {K : Type} `{EqDecision K} {key_ops : KeyOps K} {hashing : CodeHash} {trim : Name.BoostTrim} {SF : SoftFloat}.
Context {multiset : FlatMultiset K} {decoding : ActionData K} {fc : Fc} {format : TransactionFormat}.
Context {TT TR TL TU : Type} `{HTT : !Table Z table_id_object TT} `{HTR : !Table Z row TR}.
Context `{HTL : !Table (bool * Z) Manager.resource_limits_object TL}
        `{HTU : !Table Z Manager.resource_usage_object TU}.
Context {TP TPU TLK TG TA TM TC TRC : Type} {permission_index : Table Z (permission_object K) TP}
  {permission_usage_index : Table Z Z TPU} {permission_link_index : Table (Z * Z * Z) Z TLK}
  {generated_transaction_index : Table Z generated_transaction_object TG}
  {account_index : Table Z account_object TA} {account_metadata_index : Table Z account_metadata_object TM}
  {code_index : Table (Z * Z * Z) code_object TC} {account_ram_correction_index : Table Z Z TRC}.

Abbreviation native := (@native_context TT TR TL TU TP TPU TLK TG TA TM TC).
Abbreviation exec_state := (@ActionExecution.exec_state TT TR TL TU TP TPU TLK TG TA TM TC TRC).
Abbreviation program := (@ActionExecution.program SF TT TR TL TU TP TPU TLK TG TA TM TC TRC).
Context (env : @exec_environment K) (contract : Z -> Z -> Z -> program) (act_digest : action -> digest_type)
  (decode_native : action -> res (@native_action K)) (checktime : nat -> res unit).

Abbreviation execute_action := (execute_action env contract act_digest decode_native checktime).
Abbreviation exec_one := (exec_one env contract act_digest decode_native checktime).
Abbreviation apply_action := (apply_action env contract decode_native checktime).
Abbreviation notify := (notify env contract act_digest decode_native checktime).
Abbreviation max_depth := (max_inline_action_depth (cfg (trx_env env))).

Abbreviation accounted := (accounted act_digest).
Abbreviation receipted := (receipted act_digest).

(** ** Notifications *)

(** [s]: the state of the apply_context of the action [o], started in [s0], once
    [i] of the receivers have executed it. *)
Record running (s0 : exec_state) (g0 o : Z) (i : nat) (s : exec_state) : Prop := {
  rn_len : (length (action_traces s0) <= length (action_traces s))%nat;
  rn_old : forall j t, action_traces s0 !! j = Some t -> j <> Z.to_nat (o - 1) -> action_traces s !! j = Some t;
  rn_own : exists t t', trace_at s0 o t /\ trace_at s o t' /\ same_action t t';
  rn_head : head (snd <$> notified (current s)) = Some o;
  rn_slots : tail (snd <$> notified (current s)) ++ cfa_inline_actions (current s) ++ inline_actions (current s)
    ≡ₚ fresh (length (action_traces s0)) (length (action_traces s) - length (action_traces s0));
  rn_done : forall j x, notified (current s) !! j = Some x ->
    exists t, trace_at s (snd x) t /\ (is_Some (tr_receipt t) <-> (j < i)%nat);
  rn_queued : forall x, x ∈ cfa_inline_actions (current s) ++ inline_actions (current s) ->
    exists t, trace_at s x t /\ tr_receipt t = None;
  rn_accounted : accounted g0 s;
  rn_frame : frame_ok s
}.

(** No trace is queued twice. *)
Lemma running_distinct s0 g0 o i s : running s0 g0 o i s ->
  NoDup ((snd <$> notified (current s)) ++ cfa_inline_actions (current s) ++ inline_actions (current s)).
Proof.
  intros [_ _ (t & _ & Ht & _) Hh Hs _ _ _ _]. destruct (snd <$> notified (current s)) as [|x l]; [done|].
  injection Hh as ->. cbn [tail] in Hs. cbn [app]. apply NoDup_cons. apply trace_at_range in Ht. rewrite Hs. split.
  - rewrite elem_of_fresh. lia.
  - apply NoDup_fresh.
Qed.

Lemma running_hosted s0 g0 o i s s' : running s0 g0 o i s -> (i <= length (notified (current s)))%nat -> hosted s s' ->
  running s0 g0 o i s'.
Proof.
  intros [L O Own Hd S D Q A F] Hi Hh. pose proof (accounted_hosted _ _ _ _ A F Hh) as A'.
  destruct Hh as [_ _ _ _ _ _ (new & T & N & nn & ii & cc & Ln & Li & Lc & P) F'].
  assert (forall x, x ∈ fresh (length (action_traces s)) (length new) -> exists t, trace_at s' x t /\ tr_receipt t = None) as Hnew.
  { intros x Hx%elem_of_fresh. destruct (new !! (Z.to_nat (x - 1) - length (action_traces s))%nat) as [t|] eqn:E;
      [|apply lookup_ge_None in E; lia].
    exists t. split; [|by destruct (N _ _ E)]. split; [lia|]. rewrite T, lookup_app_r by lia. exact E. }
  assert (forall x, x ∈ (snd <$> nn) ++ cc ++ ii -> exists t, trace_at s' x t /\ tr_receipt t = None) as Hnew'
    by (intros x Hx; apply Hnew; by rewrite <- P).
  split; [rewrite T, length_app; lia| | | | | | |done|done].
  - intros j t Hj Hne. rewrite T. apply lookup_app_l_Some. by apply O.
  - destruct Own as (t & t' & H1 & H2 & H3). exists t, t'. split; [done|]. split; [by eapply trace_at_app|done].
  - rewrite Ln, fmap_app. by destruct (snd <$> notified (current s)).
  - rewrite Ln, Li, Lc, T, length_app, fmap_app.
    replace (length (action_traces s) + length new - length (action_traces s0))%nat
      with (length (action_traces s) - length (action_traces s0) + length new)%nat by lia.
    rewrite fresh_app, <- S. replace (length (action_traces s0) + (length (action_traces s) - length (action_traces s0)))%nat
      with (length (action_traces s)) by lia.
    rewrite <- P. destruct (snd <$> notified (current s)); [done|]. cbn [tail app]. solve_Permutation.
  - intros j x. rewrite Ln. intros [Hj|[Hl Hj]]%lookup_app_Some.
    + destruct (D _ _ Hj) as (t & Ht & Hr). exists t. split; [by eapply trace_at_app|done].
    + destruct (Hnew' (snd x)) as (t & Ht & Hr).
      { apply elem_of_app. left. apply list_elem_of_fmap. exists x. split; [done|by eapply list_elem_of_lookup_2]. }
      exists t. split; [done|]. rewrite Hr. split; [by intros [? ?]|lia].
  - intros x. rewrite Li, Lc. intros Hx.
    assert (x ∈ cfa_inline_actions (current s) ++ inline_actions (current s) \/ x ∈ (snd <$> nn) ++ cc ++ ii) as [H|H].
    { rewrite !elem_of_app in Hx. rewrite !elem_of_app. tauto. }
    + destruct (Q _ H) as (t & Ht & Hr). exists t. split; [by eapply trace_at_app|done].
    + by apply Hnew'.
Qed.

(** The trace that gets the receipt, and the others. *)
Lemma receipted_at (s s' : exec_state) r o t : receipted s s' r -> trace_at s o t ->
  (o = action_ordinal (current s) /\ exists t', trace_at s' o t' /\ same_action t t' /\ is_Some (tr_receipt t'))
  \/ (o <> action_ordinal (current s) /\ trace_at s' o t).
Proof.
  intros [_ _ _ _ _ _ _ (t1 & d & [Ho1 Ht1] & T)] [Ho Ht].
  destruct (decide (o = action_ordinal (current s))) as [-> |Hne]; [left|right].
  - rewrite Ht1 in Ht. injection Ht as <-. split; [done|]. exists (set_tr_deltas d (set_receipt r t1)).
    unfold trace_at. rewrite T, list_lookup_insert_eq by (by eapply lookup_lt_Some). done.
  - split; [done|]. unfold trace_at. rewrite T, list_lookup_insert_ne by lia. done.
Qed.

Lemma running_receipted s0 g0 o i s s' r x : running s0 g0 o i s -> notified (current s) !! i = Some x ->
  snd x = action_ordinal (current s) -> receipted s s' r -> running s0 g0 o (S i) s'.
Proof.
  intros Hrun Hx Eo Hr. pose proof (running_distinct _ _ _ _ _ Hrun) as Hnd.
  destruct Hrun as [L O Own Hd S D Q A F]. destruct (D _ _ Hx) as (t & Ht & Hti). rewrite Eo in Ht.
  assert (tr_receipt t = None) as Hn. { destruct (tr_receipt t); [|done]. exfalso. assert (i < i)%nat; [by apply Hti|lia]. }
  pose proof (accounted_receipted _ _ _ _ _ t A F Hr Ht Hn) as A'. pose proof (frame_ok_receipted _ _ _ _ F Hr) as F'.
  pose proof (receipted_at s s' r) as Hat. pose proof Hr as [_ _ _ _ _ _ Rf (t1 & d & Ht1 & T)].
  assert (length (action_traces s') = length (action_traces s)) as El by (by rewrite T, length_insert).
  assert ((snd <$> notified (current s)) !! i = Some (action_ordinal (current s))) as Hi
    by (rewrite list_lookup_fmap, Hx; cbn; by rewrite Eo).
  assert (action_ordinal (current s) = o \/ Z.of_nat (length (action_traces s0)) < action_ordinal (current s)) as Hcase.
  { destruct (snd <$> notified (current s)) as [|y l] eqn:En; [done|]. injection Hd as ->. destruct i as [|i]; cbn in Hi; [left; congruence|].
    right. assert (action_ordinal (current s) ∈ fresh (length (action_traces s0)) (length (action_traces s) - length (action_traces s0)))
      as Hf%elem_of_fresh; [|lia]. rewrite <- S. apply elem_of_app. left. by eapply list_elem_of_lookup_2. }
  split; [lia| | | | | | |done|done].
  - intros j y Hj Hne. specialize (O _ _ Hj Hne). apply lookup_lt_Some in Hj as Hlt.
    destruct (Hat (Z.of_nat (Datatypes.S j)) y Hr) as [[E _]|[_ [_ H]]].
    + split; [lia|]. by replace (Z.to_nat (Z.of_nat (Datatypes.S j) - 1)) with j by lia.
    + exfalso. destruct Hcase; [subst o; lia|lia].
    + by replace (Z.to_nat (Z.of_nat (Datatypes.S j) - 1)) with j in H by lia.
  - destruct Own as (y & y' & H1 & H2 & H3). destruct (Hat o y' Hr H2) as [[_ (y2 & H4 & H5 & _)]|[_ H4]].
    + exists y, y2. split; [done|]. split; [done|]. unfold same_action in *. naive_solver congruence.
    + by exists y, y'.
  - by rewrite Rf.
  - by rewrite Rf, El.
  - intros j y. rewrite Rf. intros Hj. destruct (D _ _ Hj) as (y1 & Hy1 & Hr1).
    destruct (Hat _ _ Hr Hy1) as [[E (y2 & Hy2 & _ & Hs)]|[Hne Hy2]].
    + exists y2. split; [done|]. split; [|done]. intros _. assert (j = i); [|lia].
      apply NoDup_app in Hnd as [Hnd _]. apply (NoDup_lookup _ _ _ (snd y) Hnd); [by rewrite list_lookup_fmap, Hj|].
      by rewrite Hi, E.
    + exists y1. split; [done|]. rewrite Hr1. split; [lia|]. intros Hlt. destruct (decide (j = i)) as [-> |]; [|lia].
      rewrite Hx in Hj. congruence.
  - intros y. rewrite Rf. intros Hy. destruct (Q _ Hy) as (y1 & Hy1 & Hn1).
    destruct (Hat _ _ Hr Hy1) as [[E _]|[_ Hy2]]; [|by exists y1].
    exfalso. apply NoDup_app in Hnd as (_ & Hnd & _). apply (Hnd y); [|done]. subst y. by eapply list_elem_of_lookup_2.
Qed.

Lemma exec_one_ok (s s' : exec_state) u : exec_one s = (Ok u, s') -> frame_ok s -> Z.of_nat (length (action_traces s')) < 2 ^ 32 ->
  exists s1 r, hosted s s1 /\ receipted s1 s' r.
Proof.
  intros Hrun Hok Hlen. unfold ActionExecution.exec_one in Hrun. apply bind_ok in Hrun as (x & s1 & Ha & Hrun).
  apply with_trace_ok in Ha. apply record_receipt_ok in Hrun as (r & Hr). exists s1, r. split; [|done].
  eapply apply_action_ok; [exact Ha|done|]. destruct Hr as [_ _ _ _ _ _ _ (t & d & _ & T)]. by rewrite T, length_insert in Hlen.
Qed.

Lemma running_exec_one s0 g0 o i s s' u x : running s0 g0 o i s -> notified (current s) !! i = Some x ->
  snd x = action_ordinal (current s) -> exec_one s = (Ok u, s') -> Z.of_nat (length (action_traces s')) < 2 ^ 32 ->
  running s0 g0 o (S i) s'.
Proof.
  intros Hrun Hx Eo Hex Hlen. destruct (exec_one_ok s s' u Hex (rn_frame _ _ _ _ _ Hrun) Hlen) as (s1 & r & Hh & Hr).
  apply lookup_lt_Some in Hx as Hi. pose proof Hh as [_ _ _ _ Ho _ (new & _ & _ & nn & ii & cc & Ln & _) _].
  eapply running_receipted; [eapply running_hosted; [exact Hrun|lia|exact Hh]| | |exact Hr].
  - rewrite Ln. by apply lookup_app_l_Some.
  - by rewrite Ho.
Qed.

(** ** The receivers of an action *)

Lemma running_switch s0 g0 o i s r x : running s0 g0 o i s -> notified (current s) !! i = Some (r, x) ->
  running s0 g0 o i (set_current (set_ordinal x (current s))
    (set_chain_db (set_context (set_context_receiver r (context (chain_db s))) (chain_db s)) s)).
Proof.
  intros [L O Own Hd S D Q [A1 A2 A3 A4 A5] [F1 F2 F3 F4 F5]] Hx. split; try done. split; try done. cbn.
  destruct (F3 r x) as (t & Ht & Ha & Hr); [by eapply list_elem_of_lookup_2|]. by exists t.
Qed.

Lemma notify_ok s0 g0 o fuel : forall i s s' u, running s0 g0 o i s -> (i <= length (notified (current s)))%nat ->
  notify fuel i s = (Ok u, s') -> Z.of_nat (length (action_traces s')) < 2 ^ 32 ->
  running s0 g0 o (length (notified (current s'))) s'.
Proof.
  induction fuel as [|fuel IH]; intros i s s' u Hr Hi Hrun Hlen; cbn [ActionExecution.notify] in Hrun; exec_step Hrun;
    destruct (notified (current s) !! i) as [[r x]|] eqn:Hx;
    try (injection Hrun as _ <-; apply lookup_ge_None in Hx; by replace (length (notified (current s))) with i by lia).
  - done.
  - unfold modify_context, modify_frame in Hrun. do 2 (exec_step Hrun; cbv beta iota in Hrun). exec_step Hrun.
    set (sa := set_current _ _) in R. assert (running s0 g0 o i sa) as H1 by exact (running_switch s0 g0 o i s r x Hr Hx).
    pose proof (grows_length _ s1 (grows_notify env contract act_digest decode_native checktime fuel (Datatypes.S i))) as Hl.
    rewrite Hrun in Hl. cbn [snd] in Hl.
    assert (running s0 g0 o (Datatypes.S i) s1) as H2 by (eapply (running_exec_one _ _ _ _ sa); [done|exact Hx|done|exact R|lia]).
    eapply IH; [exact H2| |exact Hrun|done].
    destruct (exec_one_ok sa s1 x0 R (rn_frame _ _ _ _ _ H1)) as (s3 & rc & Hh & Hrc); [lia|].
    destruct Hh as [_ _ _ _ _ _ (new & _ & _ & nn & ii & cc & Ln & _) _]. destruct Hrc as [_ _ _ _ _ _ Rf _].
    rewrite Rf, Ln, length_app. apply lookup_lt_Some in Hx. cbn. lia.
Qed.

(** The state in which the first receiver starts. *)
Lemma new_apply_context_ok g0 o depth s s' u t : accounted g0 s -> trace_at s o t -> tr_receipt t = None ->
  new_apply_context o depth s = (Ok u, s') ->
  let s1 := set_current (add_notified (current_receiver s', action_ordinal (current s')) (current s')) s' in
  running s g0 o 0 s1 /\ notified (current s1) = [(tr_receiver t, o)] /\ act (current s1) = tr_act t
  /\ action_ordinal (current s1) = o /\ chain_db s1 = chain_db s'.
Proof.
  intros [A1 A2 A3 A4 A5] Ht Hn Hrun. unfold new_apply_context in Hrun. exec_step Hrun. exec_step Hrun.
  apply get_action_trace_ok in L as Ht'. destruct Ht as [Ho Ht]. destruct Ht' as [_ Ht']. assert (x = t) as -> by congruence.
  unfold modify_context in Hrun. exec_step Hrun. cbv beta iota in Hrun. injection Hrun as _ <-. cbn zeta.
  split; [|done]. split; cbn; try done.
  - exists t, t. split; [done|]. split; [done|]. by unfold same_action.
  - by rewrite Nat.sub_diag.
  - intros j y [[-> <-]|[_ ?]]%lookup_cons_Some; [|done]. exists t. cbn. split; [done|]. rewrite Hn. split; [by intros []|lia].
  - intros y ?%elem_of_nil. done.
  - split; cbn; [exists t; done|exists t; done| |apply NoDup_singleton|].
    + intros r y [= -> ->]%list_elem_of_singleton. by exists t.
    + by intros y ?%elem_of_nil.
Qed.

Lemma exec_receivers_ok g0 o depth s s1 s' u u' t : accounted g0 s -> trace_at s o t -> tr_receipt t = None ->
  new_apply_context o depth s = (Ok u, s1) -> exec_receivers env contract act_digest decode_native checktime s1 = (Ok u', s') ->
  Z.of_nat (length (action_traces s')) < 2 ^ 32 -> running s g0 o (length (notified (current s'))) s'.
Proof.
  intros Ha Ht Hn Hnew Hrun Hlen. destruct (new_apply_context_ok _ _ _ _ _ _ _ Ha Ht Hn Hnew) as (H0 & En & _ & Eo & _).
  unfold exec_receivers, modify_frame in Hrun. exec_step Hrun. exec_step Hrun. cbv beta iota in Hrun. exec_step Hrun.
  set (sa := set_current _ _) in *. unfold notify_all in Hrun. exec_step Hrun.
  pose proof (grows_length _ s0 (grows_notify env contract act_digest decode_native checktime
    (Datatypes.S (length (tbl_rows (metadata_table (chain_db s0))))) 1)) as Hl. rewrite Hrun in Hl. cbn [snd] in Hl.
  assert (running s g0 o 1 s0) as H1.
  { eapply (running_exec_one _ _ _ 0 sa); [done| | |exact R|lia]; [by rewrite En|by rewrite Eo]. }
  eapply notify_ok; [exact H1| |exact Hrun|done].
  pose proof (rn_head _ _ _ _ _ H1) as Hh. destruct (notified (current s0)); [done|]. cbn. lia.
Qed.

(** ** Whole actions *)

(** The actions [l], and all that they led to, have been executed. *)
Record finished (g0 : Z) (l : list Z) (s s' : exec_state) : Prop := {
  fi_len : (length (action_traces s) <= length (action_traces s'))%nat;
  fi_old : forall o t, trace_at s o t -> o ∉ l -> trace_at s' o t;
  fi_done : forall o, o ∈ l -> exists t t', trace_at s o t /\ trace_at s' o t' /\ same_action t t' /\ is_Some (tr_receipt t');
  fi_new : forall o t, trace_at s' o t -> Z.of_nat (length (action_traces s)) < o -> is_Some (tr_receipt t);
  fi_accounted : accounted g0 s'
}.

Lemma finished_nil g0 s : accounted g0 s -> finished g0 [] s s.
Proof.
  intros Ha. split; [done|done|by intros o ?%elem_of_nil| |done]. intros o t Ht%trace_at_range Ho. lia.
Qed.

Lemma finished_cons g0 o l s s1 s' : finished g0 [o] s s1 -> finished g0 l s1 s' -> o ∉ l ->
  (forall x, x ∈ l -> exists t, trace_at s x t) -> finished g0 (o :: l) s s'.
Proof.
  intros [L1 O1 D1 N1 _] [L2 O2 D2 N2 A2] Ho Hl. split; [lia| | | |done].
  - intros x t Ht Hx. apply not_elem_of_cons in Hx as [Hne Hx]. apply O2; [|done]. apply O1; [done|].
    by rewrite list_elem_of_singleton.
  - intros x [-> |Hx]%elem_of_cons.
    + destruct (D1 o) as (t & t' & H1 & H2 & H3 & H4); [by left|]. exists t, t'. split_and!; [done|by apply O2|done|done].
    + destruct (Hl x Hx) as (t & Ht). assert (trace_at s1 x t) as Ht1.
      { apply O1; [done|]. rewrite list_elem_of_singleton. by intros ->. }
      destruct (D2 x Hx) as (t1 & t' & [_ H1] & H2 & H3 & H4). destruct Ht1 as [? Ht1]. assert (t1 = t) as -> by congruence.
      by exists t, t'.
  - intros x t Ht Hx. destruct (decide (x ∈ l)) as [Hin|Hnin].
    + destruct (D2 x Hin) as (t1 & t' & _ & [_ H2] & _ & H4). destruct Ht as [_ Ht]. congruence.
    + destruct (decide (Z.of_nat (length (action_traces s1)) < x)) as [Hgt|Hle]; [by eapply N2|].
      destruct (action_traces s1 !! Z.to_nat (x - 1)) as [t1|] eqn:E; [|apply lookup_ge_None in E; lia].
      assert (trace_at s1 x t1) as H1 by (split; [lia|done]). pose proof (O2 _ _ H1 Hnin) as [_ H2].
      destruct Ht as [_ Ht]. assert (t1 = t) as -> by congruence. by eapply N1.
Qed.

Lemma for_each_finished g0 (f : Z -> exec exec_state unit) :
  (forall o, grows (f o)) ->
  (forall o s s' u t, accounted g0 s -> trace_at s o t -> tr_receipt t = None -> f o s = (Ok u, s') ->
     Z.of_nat (length (action_traces s')) < 2 ^ 32 -> finished g0 [o] s s') ->
  forall l s s' u, accounted g0 s -> NoDup l -> (forall o, o ∈ l -> exists t, trace_at s o t /\ tr_receipt t = None) ->
    for_each l f s = (Ok u, s') -> Z.of_nat (length (action_traces s')) < 2 ^ 32 -> finished g0 l s s'.
Proof.
  intros Hlong Hf. induction l as [|o l IH]; intros s s' u Ha Hnd Hl Hrun Hlen; cbn [for_each] in Hrun.
  { injection Hrun as _ <-. by apply finished_nil. }
  apply NoDup_cons in Hnd as [Ho Hnd]. apply bind_ok in Hrun as (x & s1 & H1 & Hrun).
  destruct (Hl o) as (t & Ht & Hn); [by left|].
  pose proof (grows_length _ s1 (grows_for_each l f Hlong)) as Hlg. rewrite Hrun in Hlg. cbn [snd] in Hlg.
  assert (finished g0 [o] s s1) as F1 by (eapply Hf; [done|exact Ht|done|exact H1|lia]).
  eapply finished_cons; [exact F1| |done|intros y Hy; destruct (Hl y) as (t' & ? & _); [by right|by exists t']].
  eapply IH; [apply F1|done| |exact Hrun|done].
  intros y Hy. destruct (Hl y) as (t' & Ht' & Hn'); [by right|]. exists t'. split; [|done].
  apply F1; [done|]. rewrite list_elem_of_singleton. by intros ->.
Qed.

(** The receivers have executed the action; now the inline actions have run. *)
Lemma running_finished s0 g0 o s s' :
  running s0 g0 o (length (notified (current s))) s ->
  finished g0 (cfa_inline_actions (current s) ++ inline_actions (current s)) s s' -> finished g0 [o] s0 s'.
Proof.
  intros Hrun [L O D N A]. pose proof (running_distinct _ _ _ _ _ Hrun) as Hnd.
  destruct Hrun as [L0 O0 Own Hd S D0 Q _ _]. set (l := cfa_inline_actions _ ++ inline_actions _) in *.
  apply NoDup_app in Hnd as (_ & Hdis & _).
  assert (forall x, x ∈ snd <$> notified (current s) -> exists t, trace_at s x t /\ trace_at s' x t /\ is_Some (tr_receipt t)) as Hn.
  { intros x Hx. pose proof Hx as (j & Hj)%list_elem_of_lookup. rewrite list_lookup_fmap in Hj.
    destruct (notified (current s) !! j) as [y|] eqn:Ej; [|done]. injection Hj as <-.
    destruct (D0 _ _ Ej) as (t & Ht & Hr). exists t. split_and!; [done|apply O; [done|by apply Hdis]|].
    apply Hr. by apply lookup_lt_Some in Ej. }
  assert (o ∈ snd <$> notified (current s)) as Ho by (destruct (snd <$> notified (current s)); [done|injection Hd as ->; by left]).
  assert (forall x t, trace_at s0 x t -> x ≠ o -> x ∉ l) as Hout.
  { intros x t Ht%trace_at_range Hne Hx. assert (x ∈ fresh (length (action_traces s0))
      (length (action_traces s) - length (action_traces s0))) as Hf%elem_of_fresh; [|lia].
    rewrite <- S. apply elem_of_app. by right. }
  split; [lia| | | |done].
  - intros x t Ht Hx. rewrite list_elem_of_singleton in Hx. pose proof (Hout _ _ Ht Hx). destruct Ht as [Hx0 Ht].
    apply O; [|done]. split; [done|]. apply O0; [done|]. destruct Own as (? & ? & [? _] & _). lia.
  - intros x ->%list_elem_of_singleton. destruct Own as (t & t' & H1 & [_ H2] & H3).
    destruct (Hn o Ho) as (t2 & [_ H4] & H5 & H6). assert (t2 = t') as -> by congruence. by exists t, t'.
  - intros x t Ht Hx. destruct (decide (Z.of_nat (length (action_traces s)) < x)) as [Hgt|Hle]; [by eapply N|].
    assert (x ∈ fresh (length (action_traces s0)) (length (action_traces s) - length (action_traces s0))) as Hf
      by (apply elem_of_fresh; lia).
    rewrite <- S in Hf. apply elem_of_app in Hf as [Hf|Hf].
    + destruct (Hn x) as (t1 & _ & [_ H1] & H2); [destruct (snd <$> notified (current s)); [done|by right]|].
      destruct Ht as [_ Ht]. congruence.
    + destruct (D x Hf) as (_ & t1 & _ & [_ H1] & _ & H2). destruct Ht as [_ Ht]. congruence.
Qed.

Lemma running_alone s0 g0 o s :
  running s0 g0 o (length (notified (current s))) s ->
  (0 <? Z.of_nat (length (cfa_inline_actions (current s)))) || (0 <? Z.of_nat (length (inline_actions (current s)))) = false ->
  finished g0 [o] s0 s.
Proof.
  intros Hr [E1 E2]%orb_false_iff. eapply running_finished; [exact Hr|]. bprop.
  destruct (cfa_inline_actions (current s)), (inline_actions (current s)); cbn in *; try lia.
  apply finished_nil, Hr.
Qed.

Lemma execute_action_ok g0 fuel : forall o depth s s' u t, accounted g0 s -> trace_at s o t -> tr_receipt t = None ->
  execute_action fuel o depth s = (Ok u, s') -> Z.of_nat (length (action_traces s')) < 2 ^ 32 -> finished g0 [o] s s'.
Proof.
  induction fuel as [|fuel IH]; intros o depth s s' u t Ha Ht Hn Hrun Hlen; cbn [ActionExecution.execute_action] in Hrun;
    apply bind_ok in Hrun as (x1 & s1 & Hnew & Hrun); apply bind_ok in Hrun as (x2 & s2 & Hrec & Hrun); exec_step Hrun;
    destruct (_ || _) eqn:Eq.
  - exec_step Hrun. done.
  - injection Hrun as _ <-. pose proof (exec_receivers_ok _ _ _ _ _ _ _ _ _ Ha Ht Hn Hnew Hrec Hlen) as Hr.
    by apply running_alone.
  - exec_step Hrun. apply bind_ok in Hrun as (x3 & s3 & Hc & Hi).
    assert (for_each (cfa_inline_actions (current s2) ++ inline_actions (current s2))
      (fun o => execute_action fuel o (u32 (depth + 1))) s2 = (Ok u, s')) as Hall.
    { rewrite for_each_app. unfold bind. by rewrite Hc. }
    pose proof (grows_length _ s2 (grows_for_each (cfa_inline_actions (current s2) ++ inline_actions (current s2)) _
      (fun o => grows_execute_action env contract act_digest decode_native checktime fuel o (u32 (depth + 1))))) as Hl.
    rewrite Hall in Hl. cbn [snd] in Hl.
    assert (Z.of_nat (length (action_traces s2)) < 2 ^ 32) as Hlen2 by lia.
    pose proof (exec_receivers_ok _ _ _ _ _ _ _ _ _ Ha Ht Hn Hnew Hrec Hlen2) as Hr.
    eapply running_finished; [exact Hr|]. pose proof (running_distinct _ _ _ _ _ Hr) as (_ & _ & Hnd)%NoDup_app.
    eapply for_each_finished; [| |apply Hr|exact Hnd|apply Hr|exact Hall|done].
    + intros o'. apply grows_execute_action.
    + intros o' sa sb v t'. by apply IH.
  - injection Hrun as _ <-. pose proof (exec_receivers_ok _ _ _ _ _ _ _ _ _ Ha Ht Hn Hnew Hrec Hlen) as Hr.
    by apply running_alone.
Qed.

(** ** The transaction *)

(** The actions the transaction itself asks for. *)
Definition planned (s : exec_state) : list action :=
  (if apply_context_free (trx_context s) then context_free_actions (the_trx (trx_env env)) else [])
  ++ (if delay env =? 0 then actions (the_trx (trx_env env)) else []).

(** A trace of an action of the transaction, not yet executed. *)
Definition original (a : action) (t : action_trace) : Prop :=
  tr_act t = a /\ tr_receiver t = Authorization.act_account a /\ tr_creator t = 0.

Lemma grows_schedule_all l cf : grows (schedule_all l cf : exec exec_state unit).
Proof.
  induction l as [|a l IH]; cbn [schedule_all]; [by intros s|]. apply grows_bind; [|by intros _].
  intros s. cbn. rewrite fmap_app. by apply prefix_app_r.
Qed.

(** Nothing has been executed. *)
Lemma accounted_start (s : exec_state) : action_traces s = [] -> executed s = [] -> is_uint 64 (global_action_sequence s) ->
  accounted (global_action_sequence s) s.
Proof.
  intros Et Ee Hg. split; rewrite ?Et, ?Ee; try done. cbn. rewrite Z.add_0_r. symmetry. by apply wrap_small.
Qed.

Lemma trx_schedule_action_ok g0 a r cf (s : exec_state) : accounted g0 s ->
  Z.of_nat (length (action_traces s)) + 1 < 2 ^ 32 ->
  exists t, trx_schedule_action a r cf 0 0 s = (Ok (Z.of_nat (S (length (action_traces s)))), set_traces (action_traces s ++ [t]) s)
    /\ tr_act t = a /\ tr_receiver t = r /\ tr_creator t = 0 /\ tr_receipt t = None
    /\ accounted g0 (set_traces (action_traces s ++ [t]) s).
Proof.
  intros [A1 A2 A3 A4 A5] Hlen. unfold trx_schedule_action, bind, get_state, modify, ret. unfold u32.
  rewrite wrap_small by (unfold is_uint; lia).
  replace (Z.of_nat (length (action_traces s)) + 1) with (Z.of_nat (S (length (action_traces s)))) by lia.
  eexists. split; [done|]. split_and!; try done.
  split; cbn [executed action_traces set_traces global_action_sequence]; [|done|done|..].
  - rewrite omap_app. cbn. by rewrite app_nil_r.
  - intros j x [Hj|[Hj [[Ej <-]|[_ ?]]%lookup_cons_Some]]%lookup_app_Some; [by apply A4| |done]. cbn. lia.
  - intros j x rc [Hj|[Hj [[Ej <-]|[_ ?]]%lookup_cons_Some]]%lookup_app_Some; [by eapply A5|done|done].
Qed.

Lemma schedule_all_ok g0 cf l : forall (s s' : exec_state) u, schedule_all l cf s = (Ok u, s') ->
  Z.of_nat (length (action_traces s')) < 2 ^ 32 -> accounted g0 s ->
  accounted g0 s' /\ executed s' = executed s /\ trx_context s' = trx_context s
  /\ exists new, action_traces s' = action_traces s ++ new
       /\ Forall2 (fun a t => original a t /\ tr_receipt t = None) l new.
Proof.
  induction l as [|a l IH]; intros s s' u Hrun Hlen Ha; cbn [schedule_all] in Hrun.
  { injection Hrun as _ <-. split_and!; [done..|]. exists []. by rewrite app_nil_r. }
  apply bind_ok in Hrun as (o & s1 & H1 & Hrun). pose proof (grows_length _ s1 (grows_schedule_all l cf)) as Hl. rewrite Hrun in Hl. cbn [snd] in Hl.
  assert (length (action_traces s1) = S (length (action_traces s))) as El.
  { unfold trx_schedule_action, bind, get_state, modify, ret in H1. injection H1 as _ <-. cbn. rewrite length_app. cbn. lia. }
  destruct (trx_schedule_action_ok g0 a (Authorization.act_account a) cf s Ha) as (t & E & Ta & Tr & Tc & Tn & Ha1); [lia|].
  rewrite E in H1. injection H1 as _ <-. destruct (IH _ _ _ Hrun Hlen Ha1) as (Ha' & Ee & Ec & new & Hnew & Hall).
  split_and!; [done|done|done|]. exists (t :: new). rewrite Hnew. cbn. rewrite <- (assoc_L (++)). split; [done|]. by constructor.
Qed.

(** What exec schedules before it executes anything. *)
Lemma plan_ok g0 (s s1 s2 : exec_state) u v : accounted g0 s -> Z.of_nat (length (action_traces s2)) < 2 ^ 32 ->
  (if apply_context_free (trx_context s) then schedule_all (context_free_actions (the_trx (trx_env env))) true else ret tt) s
    = (Ok u, s1) ->
  (if delay env =? 0 then schedule_all (actions (the_trx (trx_env env))) false else ret tt) s1 = (Ok v, s2) ->
  accounted g0 s2 /\ exists new, action_traces s2 = action_traces s ++ new
    /\ Forall2 (fun a t => original a t /\ tr_receipt t = None) (planned s) new.
Proof.
  intros Ha Hlen H1 H2.
  assert (length (action_traces s1) <= length (action_traces s2))%nat as Hl.
  { destruct (delay env =? 0); [|by injection H2 as _ <-]. pose proof (grows_length _ s1 (grows_schedule_all (actions (the_trx (trx_env env))) false)) as Hl.
    by rewrite H2 in Hl. }
  assert (accounted g0 s1 /\ exists new, action_traces s1 = action_traces s ++ new
    /\ Forall2 (fun a t => original a t /\ tr_receipt t = None)
        (if apply_context_free (trx_context s) then context_free_actions (the_trx (trx_env env)) else []) new) as (Ha1 & n1 & E1 & F1).
  { destruct (apply_context_free (trx_context s)).
    - destruct (schedule_all_ok g0 _ _ _ _ _ H1) as (? & _ & _ & ?); [lia|done|done].
    - injection H1 as _ <-. split; [done|]. exists []. by rewrite app_nil_r. }
  unfold planned. destruct (delay env =? 0).
  - destruct (schedule_all_ok g0 _ _ _ _ _ H2) as (Ha2 & _ & _ & n2 & E2 & F2); [lia|done|]. split; [done|].
    exists (n1 ++ n2). rewrite E2, E1, (assoc_L (++)). split; [done|]. by apply Forall2_app.
  - injection H2 as _ <-. split; [done|]. exists n1. by rewrite app_nil_r.
Qed.

Lemma omap_all {A B} (f : A -> option B) l : (forall j t, l !! j = Some t -> is_Some (f t)) -> length (omap f l) = length l.
Proof.
  induction l as [|x l IH]; intros H; [done|]. cbn. destruct (H 0%nat x) as [y ->]; [done|]. cbn.
  f_equal. apply IH. intros j t. apply (H (S j)).
Qed.

(** What exec schedules, and what is left to do afterwards. *)
Lemma exec_transaction_finished (s s' : exec_state) u :
  action_traces s = [] -> executed s = [] -> is_uint 64 (global_action_sequence s) ->
  exec_transaction env contract act_digest decode_native checktime s = (Ok u, s') ->
  Z.of_nat (length (action_traces s')) < 2 ^ 32 ->
  exists s1 s2, books s' = books s2
    /\ Forall2 (fun a t => original a t /\ tr_receipt t = None) (planned s) (action_traces s1)
    /\ finished (global_action_sequence s) (ordinals (length (action_traces s1))) s1 s2.
Proof.
  intros Et Ee Hg Hrun Hlen. unfold exec_transaction in Hrun. do 2 exec_step Hrun. exec_step Hrun. exec_step Hrun. exec_step Hrun.
  injection R1 as <- <-. exec_step Hrun.
  assert (books s' = books s2) as B.
  { destruct (negb _); [|by injection Hrun as _ <-]. eapply books_of; [exact Hrun|apply fixes_quiet, fixes_schedule_transaction]. }
  exists s1, s2. split; [exact B|]. injection B as Be Bg _ Bt _. rewrite Bt in Hlen.
  pose proof (grows_length _ s1 (grows_for_each (ordinals (length (action_traces s1))) _
    (fun o => grows_execute_action env contract act_digest decode_native checktime (depth_bound env) o 0))) as Hl.
  rewrite R1 in Hl. cbn [snd] in Hl.
  assert (accounted (global_action_sequence s) s) as Ha by (by apply accounted_start).
  assert (Z.of_nat (length (action_traces s1)) < 2 ^ 32) as Hl1 by lia.
  destruct (plan_ok _ _ _ _ _ _ Ha Hl1 R R0) as (Ha1 & new & En & Hplan). rewrite Et in En. cbn in En. subst new.
  split; [exact Hplan|]. eapply for_each_finished; [| |done|apply (NoDup_fresh 0)| |exact R1|done].
  - intros o. apply grows_execute_action.
  - intros o sa sb v t. apply execute_action_ok.
  - intros o Ho%(elem_of_fresh o 0). destruct (action_traces s1 !! Z.to_nat (o - 1)) as [t|] eqn:E; [|apply lookup_ge_None in E; lia].
    exists t. split; [split; [lia|done]|]. destruct (Forall2_lookup_r _ _ _ _ _ Hplan E) as (a & _ & _ & Hn). done.
Qed.

(** C18: Every action is executed exactly once: when a transaction has been
    executed, each of its actions, and each notification and inline action they
    led to, has its receipt; the receipts recorded are those, one for each; they
    carry consecutive global sequence numbers; and every action comes after the
    one that created it. *)
Theorem every_action_executed_once (s s' : exec_state) u :
  action_traces s = [] -> executed s = [] -> is_uint 64 (global_action_sequence s) ->
  exec_transaction env contract act_digest decode_native checktime s = (Ok u, s') ->
  Z.of_nat (length (action_traces s')) < 2 ^ 32 ->
  (forall j t, action_traces s' !! j = Some t -> tr_ordinal t = Z.of_nat (S j) /\ 0 <= tr_creator t <= Z.of_nat j
     /\ exists r, tr_receipt t = Some r /\ rc_receiver r = tr_receiver t /\ rc_act_digest r = act_digest (tr_act t))
  /\ executed s' ≡ₚ omap tr_receipt (action_traces s')
  /\ rc_global_sequence <$> executed s'
     = (fun k => u64 (global_action_sequence s + Z.of_nat k)) <$> seq 1 (length (action_traces s'))
  /\ Forall2 original (planned s) (take (length (planned s)) (action_traces s')).
Proof.
  intros Et Ee Hg Hrun Hlen. destruct (exec_transaction_finished s s' u Et Ee Hg Hrun Hlen) as (s1 & s2 & B & Hplan & [Hl _ D N A]).
  injection B as Be Bg _ Bt _.
  assert (forall o, o ∈ ordinals (length (action_traces s1)) <-> 0 < o <= Z.of_nat (length (action_traces s1))) as Hord
    by (intros o; apply (elem_of_fresh o 0)).
  assert (forall j t, action_traces s2 !! j = Some t -> is_Some (tr_receipt t)) as Hall.
  { intros j t Hj. assert (trace_at s2 (Z.of_nat (S j)) t) as Ht by (split; [lia|by replace (Z.to_nat _) with j by lia]).
    destruct (decide (Z.of_nat (S j) ∈ ordinals (length (action_traces s1)))) as [Hin|Hin].
    - destruct (D _ Hin) as (_ & t' & _ & [_ Ht'] & _ & Hs). destruct Ht as [_ Ht]. congruence.
    - apply (N _ _ Ht). rewrite Hord in Hin. lia. }
  destruct A as [A1 A2 A3 A4 A5]. rewrite Be, Bt. split_and!.
  - intros j t Hj. destruct (A4 _ _ Hj) as (Ho & Hc & _). split; [done|]. split; [done|].
    destruct (Hall _ _ Hj) as [r Hr]. exists r. split; [done|]. by eapply A5.
  - done.
  - rewrite A2, A1, (omap_all _ _ Hall). done.
  - pose proof (Forall2_length _ _ _ Hplan) as Hpl. apply Forall2_same_length_lookup_2.
    { rewrite length_take. lia. }
    intros j a t Ha' Hj. apply lookup_take_Some in Hj as [Hj _].
    destruct (Forall2_lookup_l _ _ _ _ _ Hplan Ha') as (t1 & Ht1 & (O1 & O2 & O3) & _). apply lookup_lt_Some in Ht1 as Hlt.
    destruct (D (Z.of_nat (S j))) as (t2 & t3 & [_ H2] & [_ H3] & (E1 & E2 & E3 & E4 & E5 & E6) & _); [apply Hord; lia|].
    replace (Z.to_nat (Z.of_nat (S j) - 1)) with j in * by lia. simplify_eq. unfold original. split_and!; congruence.
Qed.

(** ** Termination *)

(** The first receiver, and so the first of those notified, is the account whose
    action it is; the first [i] of them have executed it. *)
Record notifying (i : nat) (s : exec_state) : Prop := {
  nf_frame : frame_ok s;
  nf_first : head (fst <$> notified (current s)) = Some (Authorization.act_account (act (current s)));
  nf_started : (1 <= i <= length (notified (current s)))%nat;
  nf_exist : forall r, r ∈ take i (fst <$> notified (current s)) -> r ∈ account_names s
}.

Lemma notifying_bound i s : notifying i s -> (i <= size (account_names s))%nat.
Proof.
  intros [[_ _ _ Hnd _] _ Hi He]. assert (list_to_set (take i (fst <$> notified (current s))) ⊆ account_names s) as Hs.
  { intros r Hr%elem_of_list_to_set. by apply He. }
  apply subseteq_size in Hs. rewrite size_list_to_set in Hs; [|eapply sublist_NoDup; [exact Hnd|apply sublist_take]].
  rewrite length_take, length_fmap in Hs. lia.
Qed.

(** A notified account runs no native handler. *)
Lemma notified_not_native i s r o name : notifying i s -> notified (current s) !! i = Some (r, o) ->
  has_native_handler r (Authorization.act_account (act (current s))) name = false.
Proof.
  intros [[_ _ _ Hnd _] Hf Hi _] Hx. unfold has_native_handler.
  destruct (Z.eqb_spec r system_account_name) as [-> |]; [|done].
  destruct (Z.eqb_spec (Authorization.act_account (act (current s))) system_account_name) as [E|]; [|done]. exfalso.
  assert ((fst <$> notified (current s)) !! i = Some system_account_name) as H1 by (by rewrite list_lookup_fmap, Hx).
  assert ((fst <$> notified (current s)) !! 0%nat = Some system_account_name) as H2.
  { rewrite <- E, <- Hf. by destruct (fst <$> notified (current s)). }
  assert (i = 0%nat); [|lia]. by eapply NoDup_lookup.
Qed.

Lemma notifying_step i s s1 s' u r o : notifying i s -> notified (current s) !! i = Some (r, o) ->
  s1 = set_current (set_ordinal o (current s))
         (set_chain_db (set_context (set_context_receiver r (context (chain_db s))) (chain_db s)) s) ->
  exec_one s1 = (Ok u, s') -> Z.of_nat (length (action_traces s')) < 2 ^ 32 ->
  notifying (S i) s' /\ account_names s' = account_names s.
Proof.
  intros Hn Hx Es Hrun Hlen. pose proof (notified_not_native _ _ _ _ (act_name (act (current s))) Hn Hx) as Hnat.
  destruct Hn as [[F1 F2 F3 F4 F5] Hf Hi He].
  assert (frame_ok s1) as Hok1.
  { subst s1. split; [|done..]. destruct (F3 r o) as (t & Ht & Ha & Hr); [by eapply list_elem_of_lookup_2|]. by exists t. }
  assert (account_names s' = account_names s /\ r ∈ account_names s) as [En Hr].
  { destruct (exec_one_names env contract act_digest decode_native checktime s1 s' u) as [E1 E2]; [by subst s1|done|]. by subst s1. }
  destruct (exec_one_ok s1 s' u Hrun Hok1 Hlen) as (s2 & rc & Hh & Hrc).
  pose proof (frame_ok_receipted _ _ _ _ (ho_ok _ _ Hh) Hrc) as Hok'. destruct Hrc as [_ _ _ _ _ _ Rf _].
  destruct Hh as [_ _ _ Ea _ _ (new & _ & _ & nn & ii & cc & Ln & _) _]. subst s1. cbn in Ea, Ln.
  split; [|done]. apply lookup_lt_Some in Hx as Hlt. split; rewrite ?Rf, ?Ln, ?Ea; [done| | |].
  - rewrite fmap_app. by destruct (fst <$> notified (current s)).
  - rewrite length_app. lia.
  - intros x. rewrite En, fmap_app, take_app_le by (rewrite length_fmap; lia).
    rewrite (take_S_r _ i r) by (by rewrite list_lookup_fmap, Hx). intros [H|H]%elem_of_app; [by apply He|].
    by apply list_elem_of_singleton in H as ->.
Qed.

(** *** What the code does, with no bound on the number of steps *)

Abbreviation outcome := (res unit * exec_state)%type.

(** The apply_context turns to the receiver [r], with the trace [o]. *)
Definition as_receiver (r o : Z) (s : exec_state) : exec_state :=
  set_current (set_ordinal o (current s)) (set_chain_db (set_context (set_context_receiver r (context (chain_db s))) (chain_db s)) s).

(** The loop over the notified accounts, from the [i]th. *)
Inductive notifies : nat -> exec_state -> outcome -> Prop :=
| notifies_end i s : notified (current s) !! i = None -> notifies i s (Ok tt, s)
| notifies_throw i s r o e s' : notified (current s) !! i = Some (r, o) ->
    exec_one (as_receiver r o s) = (Throw e, s') -> notifies i s (Throw e, s')
| notifies_next i s r o u s' x : notified (current s) !! i = Some (r, o) ->
    exec_one (as_receiver r o s) = (Ok u, s') -> notifies (S i) s' x -> notifies i s x.

(** [run] of each element of a list. *)
Inductive each (run : Z -> exec_state -> outcome -> Prop) : list Z -> exec_state -> outcome -> Prop :=
| each_nil s : each run [] s (Ok tt, s)
| each_throw o l s e s' : run o s (Throw e, s') -> each run (o :: l) s (Throw e, s')
| each_cons o l s u s' x : run o s (Ok u, s') -> each run l s' x -> each run (o :: l) s x.

Scheme All for each.

(** An apply_context for the action [o], and its first receiver. *)
Definition enter (o depth : Z) : exec exec_state unit :=
  do _ <- new_apply_context o depth;
  do s <- get_state;
  do _ <- modify_frame (add_notified (current_receiver s, action_ordinal (current s)));
  exec_one.

Definition queued (s : exec_state) : list Z := cfa_inline_actions (current s) ++ inline_actions (current s).

(** Executing the action [o] comes to an end, with this outcome. *)
Inductive executes : Z -> Z -> exec_state -> outcome -> Prop :=
| executes_throw o depth s e s' : enter o depth s = (Throw e, s') -> executes o depth s (Throw e, s')
| executes_notify_throw o depth s u s1 e s' : enter o depth s = (Ok u, s1) -> notifies 1 s1 (Throw e, s') ->
    executes o depth s (Throw e, s')
| executes_alone o depth s u v s1 s' : enter o depth s = (Ok u, s1) -> notifies 1 s1 (Ok v, s') -> queued s' = [] ->
    executes o depth s (Ok tt, s')
| executes_too_deep o depth s u v s1 s' : enter o depth s = (Ok u, s1) -> notifies 1 s1 (Ok v, s') -> queued s' <> [] ->
    max_depth <= depth -> executes o depth s (Throw transaction_exception, s')
| executes_inline o depth s u v s1 s2 x : enter o depth s = (Ok u, s1) -> notifies 1 s1 (Ok v, s2) -> queued s2 <> [] ->
    depth < max_depth -> each (fun o' => executes o' (u32 (depth + 1))) (queued s2) s2 x -> executes o depth s x.

Lemma notify_notifies fuel : forall i s, notifying i s -> (size (account_names s) < fuel + i)%nat ->
  Z.of_nat (length (action_traces (snd (notify fuel i s)))) < 2 ^ 32 ->
  notifies i s (notify fuel i s) /\ forall u s', notify fuel i s = (Ok u, s') -> frame_ok s'.
Proof.
  induction fuel as [|fuel IH]; intros i s Hn Hsize Hlen; pose proof (notifying_bound i s Hn) as Hb; [lia|].
  cbn [ActionExecution.notify] in *. unfold bind, get_state, modify_context, modify_frame, modify in *.
  destruct (notified (current s) !! i) as [[r o]|] eqn:Hx.
  2:{ split; [by apply notifies_end|]. intros u s' [= _ <-]. apply Hn. }
  cbn [current set_chain_db] in *. change (set_current (set_ordinal o (current s)) _) with (as_receiver r o s) in *.
  destruct (exec_one (as_receiver r o s)) as [[u|e] s2] eqn:E; [|by split; [eapply notifies_throw|]].
  pose proof (grows_length _ s2 (grows_notify env contract act_digest decode_native checktime fuel (S i))) as Hl.
  destruct (notifying_step i s (as_receiver r o s) s2 u r o Hn Hx eq_refl E) as [Hn2 En]; [lia|].
  destruct (IH (S i) s2 Hn2) as [H1 H2]; [rewrite En; lia|done|]. split; [by eapply notifies_next|done].
Qed.

(** The trace [o] is of a first receiver. *)
Definition first_at (s : exec_state) (o : Z) : Prop :=
  exists t, trace_at s o t /\ tr_receiver t = Authorization.act_account (tr_act t).

Lemma first_at_grows {A} (m : exec exec_state A) s s' r o : grows m -> m s = (r, s') -> first_at s o -> first_at s' o.
Proof.
  intros Hm E (t & Ht & Hf). destruct (grows_at m s s' r o t Hm E Ht) as (t' & Ht' & [= Ea Er]). exists t'. split; [done|].
  congruence.
Qed.

Lemma for_each_each run (f : Z -> exec exec_state unit) :
  (forall o, grows (f o)) ->
  (forall o s, first_at s o -> Z.of_nat (length (action_traces (snd (f o s)))) < 2 ^ 32 -> run o s (f o s)) ->
  forall l s, (forall o, o ∈ l -> first_at s o) -> Z.of_nat (length (action_traces (snd (for_each l f s)))) < 2 ^ 32 ->
    each run l s (for_each l f s).
Proof.
  intros Hg Hf. induction l as [|o l IH]; intros s Hl Hlen; cbn [for_each] in *; [apply each_nil|]. unfold bind in *.
  pose proof (Hf o s (Hl o ltac:(by left))) as Ho. destruct (f o s) as [[u|e] s'] eqn:E; [|apply each_throw; by apply Ho].
  pose proof (grows_length _ s' (grows_for_each l f Hg)) as Hlg. eapply each_cons; [apply Ho; cbn; lia|]. apply IH; [|done].
  intros x Hx. eapply (first_at_grows (f o)); [apply Hg|exact E|]. apply Hl. by right.
Qed.

(** Once the first receiver has executed the action. *)
Lemma first_receiver_notifying (s sn s1 : exec_state) o depth t u v :
  trace_at s o t -> tr_receiver t = Authorization.act_account (tr_act t) ->
  new_apply_context o depth s = (Ok u, sn) ->
  exec_one (set_current (add_notified (current_receiver sn, action_ordinal (current sn)) (current sn)) sn) = (Ok v, s1) ->
  Z.of_nat (length (action_traces s1)) < 2 ^ 32 -> notifying 1 s1.
Proof.
  intros [Ho Ht] Hr Hnew Hrun Hlen. unfold new_apply_context in Hnew. exec_step Hnew. exec_step Hnew.
  apply get_action_trace_ok in L as [_ Ht']. assert (x = t) as -> by congruence.
  unfold modify_context in Hnew. exec_step Hnew. cbv beta iota in Hnew. injection Hnew as _ <-.
  set (sa := set_current _ _) in Hrun. assert (frame_ok sa) as Hok.
  { split; cbn; [exists t; done|exists t; done| |apply NoDup_singleton|by intros y ?%elem_of_nil].
    intros r y [= -> ->]%list_elem_of_singleton. by exists t. }
  unfold ActionExecution.exec_one in Hrun. apply bind_ok in Hrun as (x & s2 & Ha%with_trace_ok & Hrec).
  apply (record_receipt_exists contract) in Hrec as Hex. apply record_receipt_ok in Hrec as (rc & Hrc).
  assert (hosted sa s2) as Hh.
  { eapply apply_action_ok; [exact Ha|done|]. destruct Hrc as [_ _ _ _ _ _ _ (t1 & d & _ & T)]. by rewrite T, length_insert in Hlen. }
  pose proof (frame_ok_receipted _ _ _ _ (ho_ok _ _ Hh) Hrc) as Hok1. destruct Hrc as [_ _ _ _ _ _ Rf _].
  destruct Hh as [_ _ Er Ea _ _ (new & _ & _ & nn & ii & cc & Ln & _) _]. cbn in Er, Ea, Ln. rewrite Er in Hex.
  split; rewrite ?Rf, ?Ln, ?Ea; [done| | |].
  - cbn. by rewrite <- Hr.
  - cbn. lia.
  - cbn. intros y ->%list_elem_of_singleton. exact Hex.
Qed.

Lemma enter_notifying o depth s s1 u : first_at s o -> enter o depth s = (Ok u, s1) ->
  Z.of_nat (length (action_traces s1)) < 2 ^ 32 -> notifying 1 s1.
Proof.
  intros (t & Ht & Hr) Hrun Hlen. unfold enter in Hrun. apply bind_ok in Hrun as (v & sn & Hnew & Hrun).
  unfold bind, get_state, modify_frame, modify in Hrun. by eapply first_receiver_notifying.
Qed.

Lemma queued_check (s : exec_state) :
  (0 <? Z.of_nat (length (cfa_inline_actions (current s)))) || (0 <? Z.of_nat (length (inline_actions (current s))))
  = negb (bool_decide (queued s = [])).
Proof.
  unfold queued. destruct (cfa_inline_actions (current s)), (inline_actions (current s)); done.
Qed.

(** execute_action: the first receiver, those notified, and the inline actions. *)
Definition execute_inlines (fuel : nat) (depth : Z) (s : exec_state) : outcome :=
  if bool_decide (queued s = []) then (Ok tt, s)
  else if depth <? max_depth then
    match fuel with
    | O => (Throw out_of_fuel, s)
    | S fuel' => for_each (queued s) (fun o => execute_action fuel' o (u32 (depth + 1))) s
    end
  else (Throw transaction_exception, s).

Lemma execute_action_unfold fuel o depth s :
  execute_action fuel o depth s =
  match enter o depth s with
  | (Ok _, s1) => match notify_all env contract act_digest decode_native checktime s1 with
                  | (Ok _, s2) => execute_inlines fuel depth s2
                  | (Throw e, s2) => (Throw e, s2)
                  end
  | (Throw e, s1) => (Throw e, s1)
  end.
Proof.
  assert (forall s2, execute_inlines fuel depth s2 = (let f := current s2 in
    if (0 <? Z.of_nat (length (cfa_inline_actions f))) || (0 <? Z.of_nat (length (inline_actions f))) then
      check (depth <? max_depth) else transaction_exception;
      match fuel with
      | O => lift (Throw out_of_fuel)
      | S fuel' =>
          do _ <- for_each (cfa_inline_actions f) (fun o => execute_action fuel' o (u32 (depth + 1)));
          for_each (inline_actions f) (fun o => execute_action fuel' o (u32 (depth + 1)))
      end
    else ret tt) s2) as E.
  { intros s2. cbn zeta. rewrite queued_check. unfold execute_inlines, bind at 1, lift at 1.
    destruct (bool_decide _), (depth <? max_depth), fuel as [|fuel']; cbn [negb]; try done. unfold queued. by rewrite for_each_app. }
  destruct fuel as [|fuel]; cbn [ActionExecution.execute_action]; unfold exec_receivers, enter, bind, get_state, modify_frame, modify;
    destruct (new_apply_context o depth s) as [[v|e] sn]; try done;
    destruct (exec_one _) as [[v'|e] s1]; try done;
    destruct (notify_all _ _ _ _ _ s1) as [[v2|e] s2]; try done; by rewrite E.
Qed.

Lemma executes_step fuel o depth s : first_at s o ->
  (forall s2, frame_ok s2 -> queued s2 <> [] -> depth < max_depth ->
     Z.of_nat (length (action_traces (snd (execute_inlines fuel depth s2)))) < 2 ^ 32 ->
     each (fun o' => executes o' (u32 (depth + 1))) (queued s2) s2 (execute_inlines fuel depth s2)) ->
  Z.of_nat (length (action_traces (snd (execute_action fuel o depth s)))) < 2 ^ 32 ->
  executes o depth s (execute_action fuel o depth s).
Proof.
  intros Hfirst Hin Hlen. rewrite execute_action_unfold in *.
  destruct (enter o depth s) as [[u|e] s1] eqn:Eenter; [|by apply executes_throw].
  pose proof (grows_length _ s1 (grows_notify env contract act_digest decode_native checktime
    (S (length (tbl_rows (metadata_table (chain_db s1))))) 1)) as Hl.
  unfold notify_all, bind, get_state in *.
  set (rounds := S (length (tbl_rows (metadata_table (chain_db s1))))) in *.
  assert (size (account_names s1) < rounds + 1)%nat as Hrounds.
  { unfold account_names, meta, rounds. rewrite tbl_rows_perm, size_dom, length_map_to_list. lia. }
  assert (forall x s2, notify rounds 1 s1 = (x, s2) -> Z.of_nat (length (action_traces s2)) < 2 ^ 32 ->
    notifies 1 s1 (x, s2) /\ (forall v, x = Ok v -> frame_ok s2)) as Hn.
  { intros x s2 E Hlen2. rewrite E in Hl. cbn [snd] in Hl.
    destruct (notify_notifies rounds 1 s1) as [H1 H2]; rewrite ?E in *; [by eapply enter_notifying; [..|lia]|done|done|].
    split; [done|]. intros v ->. by apply (H2 v). }
  destruct (notify rounds 1 s1) as [[v|e] s2] eqn:E.
  2:{ destruct (Hn _ _ eq_refl Hlen) as [H _]. by eapply executes_notify_throw. }
  assert (length (action_traces s2) <= length (action_traces (snd (execute_inlines fuel depth s2))))%nat as Hl2.
  { unfold execute_inlines. destruct (bool_decide _), (depth <? max_depth), fuel; try done.
    apply grows_length, grows_for_each. intros o'. apply grows_execute_action. }
  destruct (Hn _ _ eq_refl) as [H Hok]; [lia|]. specialize (Hok v eq_refl).
  destruct (decide (queued s2 = [])) as [Eq|Hne]; [|destruct (decide (depth < max_depth)) as [Hlt|Hge]].
  - unfold execute_inlines. rewrite bool_decide_true by done. by eapply executes_alone.
  - eapply executes_inline; [exact Eenter|exact H|done|done|]. by apply Hin.
  - unfold execute_inlines. rewrite bool_decide_false by done. destruct (Z.ltb_spec depth max_depth); [lia|].
    eapply executes_too_deep; [exact Eenter|exact H|done|lia].
Qed.

(** C21: Executing an action terminates, whatever the contracts do: the run of the
    code, which has no bound of its own on the notified accounts and on the
    inline actions, comes to an end, and execute_action computes its outcome.
    The check of the depth stops the inline actions; the list of the notified
    accounts, which contracts extend while the loop goes over it, has an account
    once only, and the accounts must exist. *)
Theorem execution_terminates fuel : forall o depth (s : exec_state),
  is_uint 32 max_depth -> 0 <= depth -> (Z.to_nat (max_depth - depth) <= fuel)%nat -> first_at s o ->
  Z.of_nat (length (action_traces (snd (execute_action fuel o depth s)))) < 2 ^ 32 ->
  executes o depth s (execute_action fuel o depth s).
Proof.
  induction fuel as [|fuel IH]; intros o depth s Hm Hd Hfuel Hfirst; apply executes_step; [done| |done|].
  - intros s2 _ _ Hlt _. lia.
  - intros s2 Hok Hne Hlt Hlen. unfold execute_inlines in *. rewrite bool_decide_false in * by done.
    destruct (Z.ltb_spec depth max_depth) as [_|]; [|lia]. unfold is_uint in Hm.
    apply for_each_each; [intros o'; apply grows_execute_action| |apply Hok|done].
    intros o' s' Ho'. apply IH; [done|..|done]; unfold u32; rewrite wrap_small by (unfold is_uint; lia); lia.
Qed.

(** ** What contracts send is authorized *)

(** The code of [r] may send [a]: every authorization [a] declares covers what the
    account's links require, and is granted by r@eosio.code alone. *)
Definition code_authorized (d : @auth_db TP TPU TLK TG) (r provided_delay : Z) (a : action) : Prop :=
  forall p, p ∈ act_authorization a -> exists special act_delay,
    check_native_action d (auth_config env) (effective_provided_delay (auth_config env) provided_delay) a = Ok (special, act_delay)
    /\ (special = false -> minimum_ok d a p)
    /\ exists delay, delay <= act_delay /\ granted (authority_of d) [] [mk_level r eosio_code_name] delay p.

Lemma check_sent_sound (s : exec_state) l pd : tree_ok (auth (chain_db s)) -> authorities_ok (auth (chain_db s)) ->
  check_sent env s l pd ∅ = Ok tt -> forall a, a ∈ l -> code_authorized (auth (chain_db s)) (current_receiver s) pd a.
Proof.
  intros Ht Hty Hc a Ha p Hp. unfold check_sent in Hc.
  destruct (check_authorization_granted _ _ _ _ _ _ _ _ _ Ht Hty Hc a p Ha Hp) as (sp & dl & H1 & H2 & [H3|H3]).
  - by apply not_elem_of_empty in H3.
  - by exists sp, dl.
Qed.

(** C19: With restrict_action_to_self active and the authorization checks on (no
    light validation, no replay), an unprivileged contract sends no inline action
    it is not authorized for: when execute_inline returns, every authorization the
    action declares is granted by the eosio.code permission of the receiver,
    through the authorities stored when it is sent; nothing is inherited from the
    action being executed. *)
Theorem inline_actions_authorized a (s s' : exec_state) u :
  restrict_action_to_self env = true -> skip_auth_check env = false -> is_privileged_now s = false ->
  tree_ok (auth (chain_db s)) -> authorities_ok (auth (chain_db s)) -> execute_inline env a s = (Ok u, s') ->
  code_authorized (auth (chain_db s)) (current_receiver s) (block_time (trx_env env) - published (trx_context s)) a.
Proof.
  intros Hres Hskip Hpriv Ht Hty Hrun. unfold execute_inline in Hrun. do 5 exec_step Hrun.
  rewrite Hskip, Hpriv in L1. cbn [negb andb] in L1. unfold bypass in L1. rewrite Hres in L1. cbn [orb] in L1.
  assert (inherited_authorizations env s a = ∅) as Ei by (unfold inherited_authorizations, inherits; by rewrite Hres).
  rewrite Ei in L1. eapply check_sent_sound; [done|done| |by apply list_elem_of_singleton].
  by destruct (check_sent env s [a] _ ∅) as [[]|].
Qed.

(** *** Deferred transactions *)

Abbreviation deferred s := (tbl_view (generated (auth (chain_db s)))).

(** No stored transaction is as large as four gigabytes. *)
Definition small_transactions (s : exec_state) : Prop :=
  forall i g, deferred s !! i = Some g -> Z.of_nat (length (gto_packed_trx g)) < 2 ^ 32.

(** The RAM a deferred transaction is billed for. *)
Definition deferred_size (g : generated_transaction_object) : Z :=
  generated_billable_size + Z.of_nat (length (gto_packed_trx g)).

(** What account [a] gets back for the transaction [old] that is replaced. *)
Definition refund (old : option (Z * generated_transaction_object)) (a : Z) : Z :=
  match old with
  | Some (_, g) => if replace_deferred env && (gto_payer g =? a) then deferred_size g else 0
  | None => 0
  end.

Lemma deferred_size_exact g : Z.of_nat (length (gto_packed_trx g)) < 2 ^ 32 ->
  0 < deferred_size g < 2 ^ 33 /\ u64 (deferred_size g) = deferred_size g /\ i64 (deferred_size g) = deferred_size g.
Proof.
  intros Hl. assert (0 < deferred_size g < 2 ^ 33) as Hb by (unfold deferred_size; change generated_billable_size with 272; lia).
  split; [done|]. unfold u64, i64, wrap. rewrite !Z.mod_small; lia.
Qed.

Lemma deferred_charge_ok p d (s s' : exec_state) u :
  in_db (in_context (add_ram_usage p d)) s = (Ok u, s') -> - 2 ^ 63 < d < 2 ^ 63 -> ram_typed (context (chain_db s)) ->
  auth (chain_db s') = auth (chain_db s) /\ usage_moved (context (chain_db s)) (context (chain_db s')) p d
  /\ ram_typed (context (chain_db s')).
Proof.
  intros (n & (c & Hadd & ->)%zoom_ok & ->)%zoom_ok Hd Ht.
  apply add_ram_usage_ok in Hadd as (_ & Hm & Hty); [|done|done]. done.
Qed.

Lemma create_generated_ok tid g (s s' : exec_state) u :
  in_db (create_generated tid g) s = (Ok u, s') ->
  deferred s' = <[tid := g]> (deferred s) /\ context (chain_db s') = context (chain_db s).
Proof.
  intros (n & Hc & ->)%zoom_ok. unfold create_generated in Hc. exec_step Hc. cbv beta in Hc. exec_step Hc.
  injection Hc as _ <-. cbn. split; [|done]. unfold tbl_create in L. destruct (tbl_find _ _); [done|]. injection L as <-.
  apply tbl_put_view.
Qed.

Lemma replace_generated_ok old_id old tid g (s s' : exec_state) u :
  replace_generated env old_id old tid g s = (Ok u, s') -> deferred s !! old_id = Some old ->
  small_transactions s -> ram_typed (context (chain_db s)) ->
  (exists i, deferred s' = <[i := g]> (delete old_id (deferred s))) /\ ram_typed (context (chain_db s'))
  /\ forall a, ram (context (chain_db s')) a = ram (context (chain_db s)) a - refund (Some (old_id, old)) a.
Proof.
  intros Hrun Hold Hsmall Ht. unfold replace_generated in Hrun. fold (deferred_size old) in Hrun.
  destruct (deferred_size_exact old (Hsmall _ _ Hold)) as (Hb & Eu & Ei). rewrite Eu, Ei in Hrun.
  exec_step Hrun. exec_step Hrun. rename x into v, s0 into s1.
  assert (auth (chain_db s1) = auth (chain_db s) /\ ram_typed (context (chain_db s1))
    /\ forall a, ram (context (chain_db s1)) a = ram (context (chain_db s)) a - refund (Some (old_id, old)) a) as (Ea & Ht1 & Hr1).
  { unfold refund. destruct (replace_deferred env).
    - apply deferred_charge_ok in R as (Ea & Hm & Hty); [|lia|done]. split; [done|]. split; [done|]. intros a. rewrite (Hm a). cbn [andb].
      destruct (_ =? _); lia.
    - assert (chain_db s1 = chain_db s) as ->; [|split_and!; [done..|intros a; cbn [andb]; lia]].
      unfold add_to_ram_correction in R. exec_step R. destruct (tbl_find _ _); [by injection R as _ <-|].
      exec_step R. by injection R as _ <-. }
  exec_step Hrun. apply zoom_ok in R0 as (n & [= _ <-] & ->). apply create_generated_ok in Hrun as [Ed Ec].
  rewrite Ec. split; [|done]. eexists. rewrite Ed. cbn. by rewrite tbl_remove_view, Ea.
Qed.

(** The checks of the payer pass: the contract itself, or an account that
    authorized the action being executed. *)
Lemma check_deferred_payer_ok payer (s s' : exec_state) u : check_deferred_payer payer s s = (Ok u, s') ->
  s' = s /\ (payer <> current_receiver s ->
    has_authorization payer (context (chain_db s)) = true
    /\ (ram_restrictions (context (chain_db s)) = true ->
        current_receiver s = ContractTables.act_account (context (chain_db s)))).
Proof.
  unfold check_deferred_payer, current_receiver. intros Hp.
  destruct (Z.eqb_spec payer (receiver (context (chain_db s)))) as [->|Hne]; cbn [negb] in Hp; [by injection Hp as _ <-|].
  destruct (ram_restrictions _).
  - do 2 exec_step Hp. injection Hp as _ <-. bprop. done.
  - apply zoom_ok in Hp as (n & (c & Hp & ->)%zoom_ok & ->). unfold require_authorization in Hp. do 2 exec_step Hp.
    injection Hp as _ <-. split; [by destruct s as [[]]|done].
Qed.

(** [s'] holds the deferred transaction [t], billed to [payer], in the place of the
    one with the same sender id if there is one. *)
Definition deferred_as (sender_id payer : Z) (t : transaction) (s s' : exec_state) : Prop :=
  let old := find_generated (auth (chain_db s)) (current_receiver s) sender_id in
  exists i g stored,
    deferred s' = <[i := g]> (match old with Some (old_id, _) => delete old_id (deferred s) | None => deferred s end)
    /\ gto_sender g = current_receiver s /\ gto_sender_id g = sender_id /\ gto_payer g = payer
    /\ gto_delay_until g = block_time (trx_env env) + delay_sec t * 1000000
    /\ gto_packed_trx g = pack_trx stored /\ actions stored = actions t /\ delay_sec stored = delay_sec t
    /\ context_free_actions stored = []
    /\ forall a, ram (context (chain_db s')) a
         = ram (context (chain_db s)) a + (if payer =? a then deferred_size g else 0) - refund old a.

Lemma deferred_header_ok sender_id (s : exec_state) t stored : deferred_header env sender_id s t = Ok stored ->
  actions stored = actions t /\ delay_sec stored = delay_sec t /\ context_free_actions stored = context_free_actions t.
Proof.
  unfold deferred_header. destruct (no_duplicate_deferred_id env); [|by intros [= <-]].
  intros (exts & _ & H)%res_bind_ok. by injection H as <-.
Qed.

Lemma exec_add_net_usage_db w (s s' : exec_state) u : exec_add_net_usage env w s = (Ok u, s') -> chain_db s' = chain_db s.
Proof.
  unfold exec_add_net_usage. intros R. do 2 (exec_step R; cbv beta iota in R). exec_step R. injection R0 as <- <-.
  by apply lift_ok in R as [_ ->].
Qed.

(** The last part of schedule_deferred_transaction. *)
Lemma store_deferred_ok sender_id payer g replace_existing tid (s s' : exec_state) u :
  (do _ <- match find_generated (auth (chain_db s)) (current_receiver s) sender_id with
           | Some (old_id, old) =>
               check replace_existing else deferred_tx_duplicate; replace_generated env old_id old tid g
           | None => in_db (create_generated tid g)
           end;
   let c := context (chain_db s) in
   check (ram_restrictions c || ram_billing_in_notify_allowed c || (receiver c =? ContractTables.act_account c)
          || (receiver c =? payer) || privileged c) else subjective_block_production_exception;
   in_db (in_context (add_ram_usage payer (i64 (u64 (deferred_size g)))))) s = (Ok u, s') ->
  small_transactions s -> small_transactions s' -> ram_typed (context (chain_db s)) ->
  (exists i, deferred s' = <[i := g]> (match find_generated (auth (chain_db s)) (current_receiver s) sender_id with
                                       | Some (old_id, _) => delete old_id (deferred s)
                                       | None => deferred s
                                       end))
  /\ forall a, ram (context (chain_db s')) a = ram (context (chain_db s)) a + (if payer =? a then deferred_size g else 0)
       - refund (find_generated (auth (chain_db s)) (current_receiver s) sender_id) a.
Proof.
  intros Hrun Hsmall Hsmall' Ht. exec_step Hrun. rename s0 into s1. cbv zeta in Hrun. exec_step Hrun. clear C.
  set (old := find_generated _ _ _) in *.
  assert ((exists i, deferred s1 = <[i := g]> (match old with Some (old_id, _) => delete old_id (deferred s) | None => deferred s end))
    /\ ram_typed (context (chain_db s1))
    /\ forall a, ram (context (chain_db s1)) a = ram (context (chain_db s)) a - refund old a) as ([i Ei] & Ht1 & Hr1).
  { destruct old as [[old_id g']|] eqn:Eo.
    - apply find_generated_Some in Eo as (Hg & _). exec_step R. by eapply replace_generated_ok.
    - apply create_generated_ok in R as [Ed Ec]. rewrite Ec. split; [by exists tid|]. split; [done|]. intros a. cbn. lia. }
  assert (auth (chain_db s') = auth (chain_db s1)) as Ea.
  { clear -Hrun. by apply zoom_ok in Hrun as (n & (c & _ & ->)%zoom_ok & ->). }
  destruct (deferred_size_exact g) as (Hb & Eu & Ez).
  { apply (Hsmall' i). rewrite Ea, Ei. apply lookup_insert_eq. }
  rewrite Eu, Ez in Hrun. apply deferred_charge_ok in Hrun as (_ & Hm & _); [|lia|done].
  split; [exists i; by rewrite Ea|]. intros a. rewrite (Hm a), Hr1. lia.
Qed.

(** C20: A transaction that an unprivileged contract defers, when the authorization
    checks are on (no light validation, no replay) and restrict_action_to_self is
    active: every action of it is authorized for the contract's code; the payer is
    the contract, or an account that authorized the action being executed - with
    ram_restrictions not from a notification.  The call that returns has stored
    exactly that transaction, in the name of the contract and of that payer, in
    the place of the one with the same sender id if there is one; and RAM moved
    exactly by its size, charged to the payer, less the size of the replaced one,
    given back to its payer when replace_deferred is active. *)
Theorem deferred_transactions_authorized sender_id payer t replace_existing (s s' : exec_state) u :
  restrict_action_to_self env = true -> skip_auth_check env = false -> is_privileged_now s = false ->
  tree_ok (auth (chain_db s)) -> authorities_ok (auth (chain_db s)) ->
  ram_typed (context (chain_db s)) -> small_transactions s -> small_transactions s' ->
  schedule_deferred_transaction env sender_id payer t replace_existing s = (Ok u, s') ->
  (forall a, a ∈ actions t -> code_authorized (auth (chain_db s)) (current_receiver s) (delay_sec t * 1000000) a)
  /\ (payer <> current_receiver s ->
      has_authorization payer (context (chain_db s)) = true
      /\ (ram_restrictions (context (chain_db s)) = true ->
          current_receiver s = ContractTables.act_account (context (chain_db s))))
  /\ deferred_as sender_id payer t s s'.
Proof.
  intros Hres Hskip Hpriv Ht Hty Hram Hsmall Hsmall' Hrun. unfold schedule_deferred_transaction in Hrun. do 4 exec_step Hrun.
  apply deferred_header_ok in L0 as (Ea & Ed & Ecf). exec_step Hrun. apply exec_add_net_usage_db in R as Es.
  exec_step Hrun. injection R0 as <- <-. exec_step Hrun. rename s1 into s3, s0 into s1, x0 into stored.
  assert (current_receiver s1 = current_receiver s) as Er by (unfold current_receiver; by rewrite Es).
  unfold is_privileged_now in *. rewrite Es, Hskip, Hpriv in R0. cbn [negb andb] in R0.
  apply bind_ok in R0 as (v & s2 & (-> & Hp)%check_deferred_payer_ok & (Hc & ->)%lift_ok).
  unfold bypass in Hc. rewrite Hres in Hc. cbn [orb] in Hc. rewrite Er, Es in Hp. split; [|split; [exact Hp|]].
  - rewrite <- Ea, <- Ed, <- Er. rewrite <- Es in Ht, Hty |- *. apply (check_sent_sound s1 _ _ Ht Hty).
    by destruct (check_sent env s1 _ _ ∅) as [[]|].
  - rewrite <- Er in Hrun. set (g := generated_row env _ _ _ _ _) in Hrun.
    apply store_deferred_ok in Hrun as [[i Ei] Hr]; [|by unfold small_transactions; rewrite Es|done|by rewrite Es].
    rewrite Er, Es in Ei, Hr. exists i, g, stored. split; [exact Ei|]. unfold g. cbn. rewrite Ed, Er, Ecf.
    split_and!; try done. bprop. by apply length_zero_iff_nil, Nat2Z.inj.
Qed.
End Execution.
