(* ===== verification/ActionExamples.v ===== *)
(** A concrete run: a contract that notifies an account and sends an inline
    action and a deferred transaction, and the theorems of ActionTheorems.v. *)

From Stdlib Require Import ZArith Lia.
From stdpp Require Import base gmap strings numbers sorting list.
From S2P Require Import Prelude Chainbase Name Merkle Authority AuthorityChecker ResourceLimits BlockTimestamp BlockHeader AuthorizationManager IteratorCache ContractTables ContractInvariant ContractTheorems ContractExamples EosioContract NativeActions NativeExamples ChainConfig AccessLists Transaction TransactionContext TransactionBilling TransactionExamples ActionExecution ActionFrames ActionTheorems.

#[local] Open Scope Z_scope.
#[local] Open Scope chain_scope.
Import Authorization Authorization.Examples.

#[local] Existing Instance Name.boost_trim_reference.
#[local] Existing Instance integer_floats.
#[local] Existing Instance toy_keys.
#[local] Existing Instance toy_hash.

Definition hello : Z := Eval vm_compute in N_ "hello".
Definition bye : Z := Eval vm_compute in N_ "bye".

(** eosio creates alice, whose active permission her key or her code satisfies,
    and who has code. *)
Definition alice_session : list (@environment nat * @native_action nat) :=
  (fun a => (toy_env, a)) <$>
  [ NewAccount (mk_newaccount eosio alice (by_key 2) (by_key 3));
    UpdateAuth (mk_updateauth alice active_name owner_name
      (mk_authority 1 [mk_key_weight 3%nat 1] [mk_level_weight (mk_level alice eosio_code_name) 1] []));
    SetCode (mk_setcode alice 0 0 [1; 2; 3]) ].
Definition with_alice : toy_native := snd (apply_natives alice_session one_account).

Lemma with_alice_ok : native_ok with_alice.
Proof.
  destruct (apply_natives_step alice_session one_account with_alice tt) as (Hok & _).
  - apply one_account_ok.
  - apply one_account_typed.
  - by vm_compute.
  - repeat constructor; cbn; lia.
  - assert (fst (apply_natives alice_session one_account) = Ok tt) as <- by vm_refl. apply surjective_pairing.
  - done.
Qed.

Definition by_alice (name : Z) : action := mk_action alice name [mk_level alice active_name] [].

Definition hello_trx : transaction := mk_transaction 1577836900 0 0 512 20 0 [] [by_alice hello] [].
Definition later_trx : transaction := mk_transaction 0 0 0 0 0 10 [] [by_alice bye] [].

Definition exec_env : @exec_environment nat :=
  mk_exec_environment
    (mk_trx_environment default_configuration false false false 1577836800000000 true ∅ (mk_access_lists [] [] [] [] [] [])
       hello_trx 4242 1000000 1150000 300 false)
    7 digest_zero false 0 false [] true true true true true true (fun _ _ => noop_checktime).

Abbreviation toy_exec_state := (@exec_state (gmap Z table_id_object) (gmap Z row)
  (gmap (bool * Z) Manager.resource_limits_object) (gmap Z Manager.resource_usage_object)
  (gmap Z (permission_object nat)) (gmap Z Z) (gmap (Z * Z * Z) Z) (gmap Z generated_transaction_object)
  (gmap Z account_object) (gmap Z account_metadata_object) (gmap (Z * Z * Z) code_object) (gmap Z Z)).

(** The code of alice: tell eosio; when told hello, say bye now and later. *)
Definition alice_code (_ _ _ : Z) : @program _ (gmap Z table_id_object) (gmap Z row)
  (gmap (bool * Z) Manager.resource_limits_object) (gmap Z Manager.resource_usage_object)
  (gmap Z (permission_object nat)) (gmap Z Z) (gmap (Z * Z * Z) Z) (gmap Z generated_transaction_object)
  (gmap Z account_object) (gmap Z account_metadata_object) (gmap (Z * Z * Z) code_object) (gmap Z Z) :=
  Call (RequireRecipient eosio) (fun s =>
    if act_name (act (current s)) =? hello then
      Call (SendInline (by_alice bye)) (fun _ => Call (SendDeferred 5 alice later_trx false) (fun _ => Exit))
    else Exit).

Definition toy_digest (a : action) : digest_type := mk_digest (act_name a) 0 0 0.
Definition no_native (a : action) : res (@native_action nat) := Throw assert_exception.
Definition in_time (_ : nat) : res unit := Ok tt.

Definition before_exec : toy_exec_state :=
  mk_exec with_alice ∅ 100 [] [] (trx (snd initialized)) None (mk_frame (by_alice hello) false 0 0 0 [] [] []).

Definition after_exec : res unit * toy_exec_state := exec_transaction exec_env alice_code toy_digest no_native in_time before_exec.

Lemma toy_run_returns : fst after_exec = Ok tt.
Proof. vm_refl. Qed.

Lemma toy_run : exec_transaction exec_env alice_code toy_digest no_native in_time before_exec = (Ok tt, snd after_exec).
Proof. rewrite <- toy_run_returns. apply surjective_pairing. Qed.

(** hello and bye, by alice and by eosio: four receipts. *)
Lemma every_action_executed_once_witness :
  length (action_traces (snd after_exec)) = 4%nat
  /\ rc_global_sequence <$> executed (snd after_exec)
     = (fun k => u64 (100 + Z.of_nat k)) <$> seq 1 (length (action_traces (snd after_exec))).
Proof.
  split; [vm_refl|].
  destruct (every_action_executed_once exec_env alice_code toy_digest no_native in_time before_exec (snd after_exec) tt)
    as (_ & _ & H & _).
  - reflexivity.
  - reflexivity.
  - by vm_compute.
  - apply toy_run.
  - by vm_compute.
  - exact H.
Defined.

(** The action hello is scheduled, and then alice starts to execute it. *)
Definition scheduled_hello : toy_exec_state := snd (schedule_all [by_alice hello] false before_exec).
Definition alice_executes : toy_exec_state := snd (new_apply_context 1 0 scheduled_hello).

Lemma hello_first : first_at scheduled_hello 1.
Proof.
  exists (mk_trace 1 0 0 alice (by_alice hello) false None ∅ None). split; [|done]. split; [lia|vm_refl].
Qed.

Lemma execution_terminates_witness :
  fst (execute_action exec_env alice_code toy_digest no_native in_time 4 1 0 scheduled_hello) = Ok tt
  /\ executes exec_env alice_code toy_digest no_native in_time 1 0 scheduled_hello
       (execute_action exec_env alice_code toy_digest no_native in_time 4 1 0 scheduled_hello).
Proof.
  split; [vm_refl|].
  apply (execution_terminates exec_env alice_code toy_digest no_native in_time 4 1 0 scheduled_hello).
  - by vm_compute.
  - lia.
  - by vm_compute; lia.
  - apply hello_first.
  - by vm_compute.
Defined.

#[local] Instance is_uint_dec w x : Decision (is_uint w x).
Proof. unfold is_uint. apply _. Defined.
#[local] Instance authority_typed_dec (a : authority nat) : Decision (authority_typed a).
Proof. unfold authority_typed. apply _. Defined.

Lemma started_auth (s : toy_exec_state) a : action_traces s = [] ->
  auth (chain_db (snd (new_apply_context 1 0 (snd (schedule_all [a] false s))))) = auth (chain_db s).
Proof. destruct s. cbn. intros ->. reflexivity. Qed.

Lemma alice_tree : tree_ok (auth (chain_db alice_executes)).
Proof.
  assert (auth (chain_db alice_executes) = auth (chain_db before_exec)) as ->
    by exact (started_auth before_exec (by_alice hello) eq_refl).
  apply with_alice_ok.
Qed.

Lemma alice_authorities : authorities_ok (auth (chain_db alice_executes)).
Proof.
  assert (map_Forall (fun _ p => authority_typed (perm_auth p)) (permissions (auth (chain_db alice_executes)))) as H
    by (apply (bool_decide_unpack _); by vm_compute).
  exact H.
Qed.

Lemma inline_actions_authorized_witness :
  code_authorized exec_env (auth (chain_db alice_executes)) (current_receiver alice_executes)
    (block_time (trx_env exec_env) - published (trx_context alice_executes)) (by_alice bye).
Proof.
  apply (inline_actions_authorized exec_env (by_alice bye) alice_executes (snd (execute_inline exec_env (by_alice bye) alice_executes)) tt).
  - reflexivity.
  - reflexivity.
  - vm_refl.
  - apply alice_tree.
  - apply alice_authorities.
  - assert (fst (execute_inline exec_env (by_alice bye) alice_executes) = Ok tt) as <- by vm_refl. apply surjective_pairing.
Defined.

Definition alice_defers : res unit * toy_exec_state :=
  schedule_deferred_transaction exec_env 5 alice later_trx false alice_executes.

#[local] Instance small_dec (g : generated_transaction_object) : Decision (Z.of_nat (length (gto_packed_trx g)) < 2 ^ 32).
Proof. apply _. Defined.

Lemma alice_small (s : toy_exec_state) :
  bool_decide (map_Forall (fun _ g => Z.of_nat (length (gto_packed_trx g)) < 2 ^ 32) (generated (auth (chain_db s)))) = true ->
  small_transactions s.
Proof. intros H%bool_decide_eq_true i g. apply H. Qed.

Lemma alice_ram : ram_typed (context (chain_db alice_executes)).
Proof.
  assert (map_Forall (fun _ u => is_uint 64 (Manager.ram_usage u)) (Manager.usage (resource_limits (context (chain_db alice_executes)))))
    as H by (apply (bool_decide_unpack _); by vm_compute).
  exact H.
Qed.

Lemma deferred_transactions_authorized_witness :
  code_authorized exec_env (auth (chain_db alice_executes)) (current_receiver alice_executes) (10 * 1000000) (by_alice bye)
  /\ deferred_as exec_env 5 alice later_trx alice_executes (snd alice_defers).
Proof.
  destruct (deferred_transactions_authorized exec_env 5 alice later_trx false alice_executes (snd alice_defers) tt) as (H & _ & Hd).
  - reflexivity.
  - reflexivity.
  - vm_refl.
  - apply alice_tree.
  - apply alice_authorities.
  - apply alice_ram.
  - apply alice_small. vm_refl.
  - apply alice_small. vm_refl.
  - assert (fst alice_defers = Ok tt) as <- by vm_refl. apply surjective_pairing.
  - split; [apply H; by left|exact Hd].
Defined.
