(* ===== verification/Asset.v ===== *)
(** Token symbols and amounts: symbol.hpp, asset.hpp and asset.cpp.

    A [symbol] is its 64-bit [m_value]: the decimals in the first byte, the
    letters of the name in the others.  A shift by 64 bits or more, which a name
    of more than seven letters leads to, is undefined behaviour.  The functions
    of fc on strings and numbers are a class. *)

From Stdlib Require Import ZArith Lia Ascii String.
From stdpp Require Import base strings numbers list.
From S2P Require Import Prelude.

#[local] Open Scope Z_scope.
#[local] Open Scope chain_scope.

Module Asset.

Definition text : Type := list ascii.
Definition code (c : ascii) : Z := Z.of_N (N_of_ascii c).
Definition char_of (z : Z) : ascii := ascii_of_N (Z.to_N z).

(** ** Decimal notation *)

Definition digit (d : Z) : ascii := char_of (48 + d).
Definition is_digit (c : ascii) : Prop := 48 <= code c <= 57.

Fixpoint decimal_loop (fuel : nat) (v : Z) : text :=
  match fuel with
  | O => []
  | S fuel' => if v <? 10 then [digit v] else decimal_loop fuel' (v / 10) ++ [digit (v mod 10)]
  end.

(** std::to_string of an unsigned number; no 64-bit number has more than 20 digits. *)
Definition decimal (v : Z) : text := decimal_loop 20 v.

Definition value_of (l : text) : Z := foldl (fun v c => 10 * v + (code c - 48)) 0 l.

(** isspace *)
Definition is_space (c : ascii) : Prop := code c = 32 \/ 9 <= code c <= 13.

Class FcText := {
  (** fc::trim *)
  trim : text -> text;
  (** fc::to_int64 *)
  to_int64 : text -> res Z;
  (** fc::to_string( int64_t ) *)
  to_string_int64 : Z -> text;
  (** operators of fc::safe< int64_t > *)
  safe_add : Z -> Z -> res Z;
  safe_mul : Z -> Z -> res Z;
  (** trim removes spaces at both ends only. *)
  trim_id s : (forall c, head s = Some c -> ~ is_space c) -> (forall c, last s = Some c -> ~ is_space c) -> trim s = s;
  to_int64_digits l : l <> [] -> Forall is_digit l -> value_of l < 2 ^ 63 -> to_int64 l = Ok (value_of l);
  to_int64_minus l : l <> [] -> Forall is_digit l -> value_of l < 2 ^ 63 -> to_int64 ("-"%char :: l) = Ok (- value_of l);
  to_int64_range s v : to_int64 s = Ok v -> is_int64 v;
  to_string_decimal v : 0 <= v < 2 ^ 63 -> to_string_int64 v = decimal v;
  (** The results of safe are exact, or it throws. *)
  safe_add_exact a b : is_int64 (a + b) -> safe_add a b = Ok (a + b);
  safe_mul_exact a b : is_int64 (a * b) -> safe_mul a b = Ok (a * b);
  safe_add_sound a b r : safe_add a b = Ok r -> r = a + b /\ is_int64 r;
  safe_mul_sound a b r : safe_mul a b = Ok r -> r = a * b /\ is_int64 r
}.

(** ** std::string *)

Definition NUL : ascii := "000".
(** c_str(): up to the first zero character. *)
Fixpoint c_str (s : text) : text :=
  match s with [] => [] | c :: s' => if bool_decide (c = NUL) then [] else c :: c_str s' end.
Definition find (c : ascii) (s : text) : option nat := fst <$> list_find (c =.) s.

(** ** symbol *)

Definition is_upper (c : ascii) : bool := (65 <=? code c) && (code c <=? 90).

Fixpoint string_to_symbol_loop (str : text) (i result : Z) : res Z :=
  match str with
  | [] => Ok result
  | c :: str' =>
      assert! (is_upper c) else symbol_type_exception in
      assert! (8 * (i + 1) <? 64) else undefined_behavior in
      string_to_symbol_loop str' (i + 1) (Z.lor result (u64 (Z.shiftl (code c) (8 * (i + 1)))))
  end.

Definition string_to_symbol (precision : Z) (str : text) : res Z :=
  let! result := string_to_symbol_loop (c_str str) 0 0 in Ok (Z.lor result precision).

Definition max_precision : Z := 18.

Definition decimals (m_value : Z) : Z := Z.land m_value 0xFF.

Fixpoint name_loop (fuel : nat) (v : Z) : text :=
  match fuel with
  | O => []
  | S fuel' => if 0 <? v then char_of (Z.land v 0xFF) :: name_loop fuel' (Z.shiftr v 8) else []
  end.
(** Seven characters at most. *)
Definition name (m_value : Z) : text := name_loop 8 (Z.shiftr m_value 8).

Definition valid_name (n : text) : bool := forallb is_upper n.
Definition valid (m_value : Z) : bool := (decimals m_value <=? max_precision) && valid_name (name m_value).

(** symbol( uint64_t ) *)
Definition new_symbol (v : Z) : res Z := assert! (valid v) else symbol_type_exception in Ok v.
(** symbol( uint8_t, const char* ) *)
Definition new_symbol_named (p : Z) (s : text) : res Z :=
  let! v := string_to_symbol p s in assert! (valid v) else symbol_type_exception in Ok v.

(** reflector_init *)
Definition reflector_init (v : Z) : res unit :=
  assert! (decimals v <=? max_precision) else symbol_type_exception in
  assert! (valid_name (name v)) else symbol_type_exception in Ok tt.

Fixpoint precision_loop (fuel : nat) (p p10 : Z) : Z :=
  match fuel with
  | O => p10
  | S fuel' => if 0 <? p then precision_loop fuel' (p - 1) (u64 (p10 * 10)) else p10
  end.
Definition precision (v : Z) : res Z :=
  assert! (decimals v <=? max_precision) else symbol_type_exception in
  Ok (precision_loop 18 (decimals v) 1).

Definition symbol_to_string (v : Z) : text := decimal (decimals v) ++ [","%char] ++ name v.

(** symbol_code: to_variant and from_variant *)
Definition to_symbol_code (v : Z) : Z := Z.shiftr v 8.
Definition symbol_code_to_variant (value : Z) : res text := let! v := new_symbol (u64 (Z.shiftl value 8)) in Ok (name v).
Definition symbol_code_from_variant (s : text) : res Z := let! v := new_symbol_named 0 s in Ok (to_symbol_code v).

Section Fc.
Context {fc : FcText}.

Definition symbol_from_string (from : text) : res Z :=
  let s := trim from in
  assert! (negb (bool_decide (s = []))) else symbol_type_exception in
  match find "," s with
  | None => Throw symbol_type_exception
  | Some comma_pos =>
      let! n := to_int64 (take comma_pos s) in
      let p := u8 n in
      assert! (p <=? max_precision) else symbol_type_exception in
      let! v := string_to_symbol p (drop (S comma_pos) s) in
      new_symbol v
  end.

(** ** asset *)

Record asset := mk_asset { amount : Z; sym : Z }.

Definition max_amount : Z := 2 ^ 62 - 1.
Definition is_amount_within_range (a : Z) : bool := (- max_amount <=? a) && (a <=? max_amount).
Definition is_valid (a : asset) : bool := is_amount_within_range (amount a) && valid (sym a).

(** The constructor and reflector_init. *)
Definition new_asset (a s : Z) : res asset :=
  assert! (is_amount_within_range a) else asset_type_exception in
  assert! (valid s) else asset_type_exception in
  Ok (mk_asset a s).

(** asset::precision: an int64_t. *)
Definition asset_precision (a : asset) : res Z := let! p := precision (sym a) in Ok (i64 p).

Definition to_string (a : asset) : res text :=
  let sign := if amount a <? 0 then ["-"%char] else [] in
  let abs_amount := Z.abs (amount a) in
  let! p := asset_precision a in
  let result := to_string_int64 (abs_amount / p) in
  let result := if negb (decimals (sym a) =? 0)
                then result ++ "."%char :: drop 1 (to_string_int64 (p + abs_amount mod p)) else result in
  Ok (sign ++ result ++ [" "%char] ++ name (sym a)).

(** The digits after the point: their number, and the int_part and fract_part. *)
Definition parse_parts (amount_str : text) (dot_pos : option nat) : res (Z * Z) :=
  match dot_pos with
  | Some dot =>
      let! int_part := to_int64 (take dot amount_str) in
      let! fract_part := to_int64 (drop (S dot) amount_str) in
      if bool_decide (head amount_str = Some "-"%char) then let! f := safe_mul fract_part (-1) in Ok (int_part, f)
      else Ok (int_part, fract_part)
  | None => let! int_part := to_int64 amount_str in Ok (int_part, 0)
  end.

Definition from_string (from : text) : res asset :=
  let s := trim from in
  match find " " s with
  | None => Throw asset_type_exception
  | Some space_pos =>
      let symbol_str := trim (drop (S space_pos) s) in
      let amount_str := take space_pos s in
      let dot_pos := find "." amount_str in
      assert! (match dot_pos with Some d => negb (Z.of_nat d =? Z.of_nat (length amount_str) - 1) | None => true end)
        else asset_type_exception in
      let precision_digit_str :=
        match dot_pos with Some d => decimal (Z.of_nat (length amount_str) - Z.of_nat d - 1) | None => ["0"%char] end in
      let! s' := symbol_from_string (precision_digit_str ++ [","%char] ++ symbol_str) in
      let! parts := parse_parts amount_str dot_pos in
      let! p := precision s' in
      let! scaled := safe_mul (fst parts) (i64 p) in
      let! total := safe_add scaled (snd parts) in
      new_asset total s'
  end.

(** ** Operators: sums in int64_t, whose overflow is undefined *)

Definition int64_result (z : Z) : res Z := assert! (bool_decide (is_int64 z)) else undefined_behavior in Ok z.

(** operator += and -=: nothing checks the sum. *)
Definition add_assign (a o : asset) : res asset :=
  assert! (sym a =? sym o) else asset_type_exception in
  let! r := int64_result (amount a + amount o) in Ok (mk_asset r (sym a)).
Definition sub_assign (a o : asset) : res asset :=
  assert! (sym a =? sym o) else asset_type_exception in
  let! r := int64_result (amount a - amount o) in Ok (mk_asset r (sym a)).

Definition negate (a : asset) : res asset := let! r := int64_result (- amount a) in new_asset r (sym a).
Definition minus (a b : asset) : res asset :=
  assert! (sym a =? sym b) else asset_type_exception in
  let! r := int64_result (amount a - amount b) in new_asset r (sym a).
Definition plus (a b : asset) : res asset :=
  assert! (sym a =? sym b) else asset_type_exception in
  let! r := int64_result (amount a + amount b) in new_asset r (sym a).

Definition eqb (a b : asset) : bool := (sym a =? sym b) && (amount a =? amount b).
Definition ltb (a b : asset) : res bool :=
  assert! (sym a =? sym b) else asset_type_exception in
  Ok ((amount a <? amount b) || ((amount a =? amount b) && (sym a <? sym b))).
Definition leb (a b : asset) : res bool := if eqb a b then Ok true else ltb a b.
Definition neqb (a b : asset) : bool := negb (eqb a b).
Definition gtb (a b : asset) : res bool := let! x := leb a b in Ok (negb x).
Definition geb (a b : asset) : res bool := let! x := ltb a b in Ok (negb x).
End Fc.

(** ** Characters and digits *)

Lemma symbol_code_range c : 0 <= code c < 256.
Proof. unfold code. pose proof (N_ascii_bounded c). lia. Qed.
Lemma code_char_of z : 0 <= z < 256 -> code (char_of z) = z.
Proof. intros Hz. unfold code, char_of. rewrite N_ascii_embedding by lia. lia. Qed.
Lemma char_of_code c : char_of (code c) = c.
Proof. unfold code, char_of. rewrite N2Z.id. apply ascii_N_embedding. Qed.
Lemma code_digit d : 0 <= d < 10 -> code (digit d) = 48 + d.
Proof. intros Hd. apply code_char_of. lia. Qed.
Lemma digit_is_digit d : 0 <= d < 10 -> is_digit (digit d).
Proof. intros Hd. unfold is_digit. rewrite code_digit by done. lia. Qed.
Lemma is_upper_code c : is_upper c = true <-> 65 <= code c <= 90.
Proof. unfold is_upper. rewrite andb_true_iff, !Z.leb_le. done. Qed.

Lemma value_of_snoc l c : value_of (l ++ [c]) = 10 * value_of l + (code c - 48).
Proof. unfold value_of. by rewrite foldl_snoc. Qed.

Lemma div10_range v k : 0 <= k -> 0 <= v < 10 ^ (k + 1) -> 0 <= v / 10 < 10 ^ k.
Proof.
  intros Hk Hv. rewrite Z.pow_add_r, Z.pow_1_r in Hv by lia. split; [apply Z.div_pos; lia|apply Z.div_lt_upper_bound; lia].
Qed.

Lemma decimal_loop_ok fuel : forall v, 0 <= v < 10 ^ Z.of_nat fuel -> (0 < fuel)%nat ->
  value_of (decimal_loop fuel v) = v /\ Forall is_digit (decimal_loop fuel v) /\ decimal_loop fuel v <> [].
Proof.
  induction fuel as [|fuel IH]; intros v Hv Hf; [lia|]. cbn [decimal_loop]. destruct (Z.ltb_spec v 10) as [H|H].
  - split_and!; [|by constructor; [apply digit_is_digit; lia|]|done]. unfold value_of. cbn [foldl]. rewrite code_digit by lia. lia.
  - pose proof (Z.mod_pos_bound v 10 ltac:(lia)) as Hm. destruct (IH (v / 10)) as (E & F & _).
    { apply div10_range; [lia|]. by replace (Z.of_nat fuel + 1) with (Z.of_nat (S fuel)) by lia. }
    { destruct fuel; [cbn in Hv; lia|lia]. }
    split_and!.
    + rewrite value_of_snoc, E, code_digit by lia. pose proof (Z.div_mod v 10). lia.
    + apply Forall_app. split; [done|]. constructor; [by apply digit_is_digit|done].
    + intros H'%(f_equal (@length _)). rewrite length_app in H'. cbn in H'. lia.
Qed.

Lemma decimal_ok v : 0 <= v < 10 ^ 20 -> value_of (decimal v) = v /\ Forall is_digit (decimal v) /\ decimal v <> [].
Proof. intros Hv. apply decimal_loop_ok; [done|lia]. Qed.

(** The last [d] digits of [r]. *)
Fixpoint pad (d : nat) (r : Z) : text :=
  match d with O => [] | S d' => pad d' (r / 10) ++ [digit (r mod 10)] end.

Lemma pad_ok d : forall r, 0 <= r < 10 ^ Z.of_nat d ->
  value_of (pad d r) = r /\ Forall is_digit (pad d r) /\ length (pad d r) = d.
Proof.
  induction d as [|d IH]; intros r Hr; [split_and!; [cbn in *; lia|constructor|done]|]. cbn [pad].
  pose proof (Z.mod_pos_bound r 10 ltac:(lia)) as Hm. destruct (IH (r / 10)) as (E & F & L).
  { apply div10_range; [lia|]. by replace (Z.of_nat d + 1) with (Z.of_nat (S d)) by lia. }
  split_and!.
  - rewrite value_of_snoc, E, code_digit by lia. pose proof (Z.div_mod r 10). lia.
  - apply Forall_app. split; [done|]. constructor; [by apply digit_is_digit|done].
  - rewrite length_app, L. cbn. lia.
Qed.

(** fc::to_string( precision() + fract ).erase( 0, 1 ) *)
Lemma decimal_padded d : forall fuel r, (d < fuel)%nat -> 0 <= r < 10 ^ Z.of_nat d ->
  decimal_loop fuel (10 ^ Z.of_nat d + r) = digit 1 :: pad d r.
Proof.
  induction d as [|d IH]; intros fuel r Hf Hr; (destruct fuel as [|fuel]; [lia|]); cbn [decimal_loop].
  - change (10 ^ Z.of_nat 0) with 1 in *. replace r with 0 by lia. done.
  - replace (Z.of_nat (S d)) with (Z.of_nat d + 1) in * by lia. pose proof (div10_range r (Z.of_nat d) ltac:(lia) Hr) as Hd.
    assert (0 < 10 ^ Z.of_nat d) as Hpos by (apply Z.pow_pos_nonneg; lia).
    rewrite Z.pow_add_r, Z.pow_1_r in * by lia.
    destruct (Z.ltb_spec (10 ^ Z.of_nat d * 10 + r) 10); [lia|].
    replace ((10 ^ Z.of_nat d * 10 + r) / 10) with (10 ^ Z.of_nat d + r / 10)
      by (rewrite (Z.add_comm (_ * 10)), Z.div_add by lia; lia).
    replace ((10 ^ Z.of_nat d * 10 + r) mod 10) with (r mod 10) by (rewrite (Z.add_comm (_ * 10)), Z.mod_add by lia; lia).
    rewrite IH by (try lia; done). done.
Qed.

Lemma decimal_pad d r : (d < 20)%nat -> 0 <= r < 10 ^ Z.of_nat d -> decimal (10 ^ Z.of_nat d + r) = digit 1 :: pad d r.
Proof. apply decimal_padded. Qed.
#[local] Opaque decimal pad.

(** ** Packed names *)

Fixpoint pack (s : text) : Z := match s with [] => 0 | c :: s' => code c + 256 * pack s' end.

Lemma pack_nonneg s : 0 <= pack s.
Proof. induction s as [|c s IH]; cbn; [lia|]. pose proof (symbol_code_range c). lia. Qed.

Lemma string_to_symbol_loop_ok str : forall i r, Forall (fun c => is_upper c = true) str -> 0 <= i ->
  i + Z.of_nat (length str) <= 7 -> 0 <= r < 2 ^ (8 * (i + 1)) ->
  string_to_symbol_loop str i r = Ok (r + pack str * 2 ^ (8 * (i + 1))).
Proof.
  induction str as [|c str IH]; intros i r Hup Hi Hlen Hr; cbn [string_to_symbol_loop pack].
  { by rewrite Z.mul_0_l, Z.add_0_r. }
  apply Forall_cons in Hup as [Hc Hup]. cbn [length] in Hlen. rewrite Hc. pose proof (symbol_code_range c) as Hcode. cbn [eos_assert res_bind].
  destruct (Z.ltb_spec (8 * (i + 1)) 64) as [_|]; [|lia]. cbn [eos_assert res_bind].
  set (k := 8 * (i + 1)) in *. assert (0 < 2 ^ k) as Hk by (apply Z.pow_pos_nonneg; lia).
  assert (2 ^ (8 * (i + 1 + 1)) = 256 * 2 ^ k) as E2.
  { replace (8 * (i + 1 + 1)) with (k + 8) by lia. rewrite Z.pow_add_r by lia. lia. }
  assert (u64 (Z.shiftl (code c) k) = code c * 2 ^ k) as ->.
  { rewrite Z.shiftl_mul_pow2 by lia. apply wrap_small. unfold is_uint. split; [nia|].
    assert (2 ^ k <= 2 ^ 56) by (apply Z.pow_le_mono_r; lia). change (2 ^ 64) with (256 * 2 ^ 56). nia. }
  rewrite Z.lor_comm, lor_add by lia. rewrite IH; [|done|lia|lia|rewrite E2; nia]. f_equal. rewrite E2. lia.
Qed.

Lemma c_str_upper s : Forall (fun c => is_upper c = true) s -> c_str s = s.
Proof.
  induction 1 as [|c s Hc _ IH]; cbn; [done|]. rewrite bool_decide_false, IH; [done|].
  intros ->. done.
Qed.

Lemma string_to_symbol_ok p s : 0 <= p < 256 -> Forall (fun c => is_upper c = true) s -> (length s <= 7)%nat ->
  string_to_symbol p s = Ok (p + 256 * pack s).
Proof.
  intros Hp Hup Hlen. unfold string_to_symbol. rewrite c_str_upper by done.
  rewrite (string_to_symbol_loop_ok s 0 0) by (done || lia). cbn [res_bind]. f_equal. rewrite Z.add_0_l.
  change (2 ^ (8 * (0 + 1))) with (2 ^ 8). rewrite lor_add by lia. lia.
Qed.

Lemma name_loop_pack fuel : forall v, 0 <= v < 256 ^ Z.of_nat fuel -> valid_name (name_loop fuel v) = true ->
  pack (name_loop fuel v) = v.
Proof.
  induction fuel as [|fuel IH]; intros v Hv Hn; cbn [name_loop] in *; [cbn in *; lia|].
  destruct (Z.ltb_spec 0 v) as [H|H]; [|cbn; lia]. cbn [pack valid_name forallb] in *. apply andb_true_iff in Hn as [_ Hn].
  change 0xFF with (2 ^ 8 - 1) in *. rewrite land_ones_mod, Z.shiftr_div_pow2 in * by lia. change (2 ^ 8) with 256 in *.
  pose proof (Z.mod_pos_bound v 256 ltac:(lia)). rewrite code_char_of by done. rewrite IH; [|split|done].
  - pose proof (Z.div_mod v 256). lia.
  - apply Z.div_pos; lia.
  - apply Z.div_lt_upper_bound; [lia|]. replace (Z.of_nat (S fuel)) with (Z.of_nat fuel + 1) in Hv by lia.
    rewrite Z.pow_add_r, Z.pow_1_r in Hv by lia. lia.
Qed.

Lemma name_loop_length fuel : forall v k, 0 <= v < 256 ^ Z.of_nat k -> (length (name_loop fuel v) <= k)%nat.
Proof.
  induction fuel as [|fuel IH]; intros v k Hv; cbn [name_loop]; [cbn; lia|].
  destruct (Z.ltb_spec 0 v) as [H|H]; [|cbn; lia]. destruct k as [|k]; [cbn in Hv; lia|]. cbn [length].
  apply le_n_S, IH. rewrite Z.shiftr_div_pow2 by lia. change (2 ^ 8) with 256. split; [apply Z.div_pos; lia|].
  apply Z.div_lt_upper_bound; [lia|]. replace (Z.of_nat (S k)) with (Z.of_nat k + 1) in Hv by lia.
  rewrite Z.pow_add_r, Z.pow_1_r in Hv by lia. lia.
Qed.

Lemma name_loop_of_pack s : forall fuel, Forall (fun c => is_upper c = true) s -> (length s <= fuel)%nat -> name_loop fuel (pack s) = s.
Proof.
  induction s as [|c s IH]; intros fuel Hup Hf; [by destruct fuel|]. destruct fuel as [|fuel]; [cbn in Hf; lia|].
  apply Forall_cons in Hup as [Hc%is_upper_code Hup]. cbn [name_loop pack]. pose proof (pack_nonneg s). pose proof (symbol_code_range c).
  destruct (Z.ltb_spec 0 (code c + 256 * pack s)) as [_|]; [|lia].
  change 0xFF with (2 ^ 8 - 1). rewrite land_ones_mod, Z.shiftr_div_pow2 by lia. change (2 ^ 8) with 256.
  replace (code c + 256 * pack s) with (code c + pack s * 256) by lia. rewrite Z.mod_add, Z.div_add, Z.mod_small, Z.div_small by lia.
  rewrite char_of_code, Z.add_0_l, IH; [done|done|cbn in Hf; lia].
Qed.

(** What the value of a valid symbol is made of. *)
Lemma valid_symbol v : is_uint 64 v -> valid v = true ->
  0 <= decimals v <= 18 /\ Forall (fun c => is_upper c = true) (name v) /\ (length (name v) <= 7)%nat
  /\ v = decimals v + 256 * pack (name v).
Proof.
  intros Hv [Hd Hn]%andb_true_iff. apply Z.leb_le in Hd. unfold max_precision in Hd. unfold is_uint in Hv.
  assert (decimals v = v mod 256) as Ed by (unfold decimals; change 0xFF with (2 ^ 8 - 1); by rewrite land_ones_mod by lia).
  pose proof (Z.mod_pos_bound v 256 ltac:(lia)) as Hm.
  assert (0 <= Z.shiftr v 8 < 256 ^ 7) as Hs.
  { rewrite Z.shiftr_div_pow2 by lia. split; [apply Z.div_pos; lia|apply Z.div_lt_upper_bound; lia]. }
  split_and!; [lia|lia| | |].
  - apply Forall_forall. intros c Hc. apply (proj1 (forallb_forall _ _) Hn). by apply list_elem_of_In.
  - apply name_loop_length. exact Hs.
  - rewrite Ed. unfold name. rewrite name_loop_pack; [|change (Z.of_nat 8) with 8; lia|done].
    rewrite Z.shiftr_div_pow2 by lia. pose proof (Z.div_mod v 256). change (2 ^ 8) with 256. lia.
Qed.

Lemma precision_loop_ok fuel : forall p p10, 0 <= p <= Z.of_nat fuel -> 0 < p10 -> p10 * 10 ^ p < 2 ^ 64 ->
  precision_loop fuel p p10 = p10 * 10 ^ p.
Proof.
  induction fuel as [|fuel IH]; intros p p10 Hp H0 Hb; cbn [precision_loop].
  { replace p with 0 by lia. by rewrite Z.mul_1_r. }
  destruct (Z.ltb_spec 0 p) as [H|H]; [|replace p with 0 by lia; by rewrite Z.mul_1_r].
  assert (10 ^ p = 10 * 10 ^ (p - 1)) as E by (rewrite <- Z.pow_succ_r by lia; f_equal; lia).
  assert (0 < 10 ^ (p - 1)) by (apply Z.pow_pos_nonneg; lia).
  rewrite E in Hb. unfold u64. rewrite wrap_small by (unfold is_uint; nia). rewrite IH by (lia || nia). rewrite E. lia.
Qed.

Lemma precision_ok v : is_uint 64 v -> valid v = true -> precision v = Ok (10 ^ decimals v) /\ 10 ^ decimals v <= 10 ^ 18.
Proof.
  intros Hv Hok. destruct (valid_symbol v Hv Hok) as (Hd & _). unfold precision, max_precision.
  destruct (Z.leb_spec (decimals v) 18); [|lia]. cbn [eos_assert res_bind].
  assert (10 ^ decimals v <= 10 ^ 18) as Hb by (apply Z.pow_le_mono_r; lia).
  rewrite precision_loop_ok by lia. by rewrite Z.mul_1_l.
Qed.

(** ** Parsing *)

Lemma find_app c l r : c ∉ l -> find c (l ++ c :: r) = Some (length l).
Proof.
  intros Hc. unfold find. induction l as [|x l IH]; cbn; [by rewrite decide_True by done|].
  apply not_elem_of_cons in Hc as [Hne Hc]. rewrite decide_False by done. specialize (IH Hc).
  destruct (list_find (c =.) (l ++ c :: r)) as [[n y]|]; [|done]. cbn in *. congruence.
Qed.
Lemma find_none c l : c ∉ l -> find c l = None.
Proof.
  intros Hc. unfold find. induction l as [|x l IH]; cbn; [done|]. apply not_elem_of_cons in Hc as [Hne Hc].
  rewrite decide_False by done. specialize (IH Hc). by destruct (list_find (c =.) l) as [[n y]|].
Qed.

Lemma drop_after {A} (l : list A) c r : drop (S (length l)) (l ++ c :: r) = r.
Proof. rewrite drop_app_ge by lia. by replace (S (length l) - length l)%nat with 1%nat by lia. Qed.

Lemma digits_avoid c l : Forall is_digit l -> ~ is_digit c -> c ∉ l.
Proof. intros Hl Hc Hin. apply Hc. by eapply Forall_forall in Hl. Qed.
Lemma digit_not_space c : is_digit c -> ~ is_space c.
Proof. unfold is_digit, is_space. lia. Qed.
Lemma upper_not_space c : is_upper c = true -> ~ is_space c.
Proof. rewrite is_upper_code. unfold is_space. lia. Qed.

Lemma upper_last l n c : n <> [] -> Forall (fun c => is_upper c = true) n -> last (l ++ n) = Some c -> ~ is_space c.
Proof.
  intros Hne Hup Hl. rewrite last_app in Hl. destruct (last n) as [x|] eqn:E; [|by apply last_None in E].
  injection Hl as <-. apply upper_not_space. rewrite Forall_forall in Hup. by apply Hup, last_Some_elem_of.
Qed.

Section Parsing.
Context {fc : FcText}.

Lemma symbol_from_string_ok v : is_uint 64 v -> valid v = true -> symbol_from_string (symbol_to_string v) = Ok v.
Proof.
  intros Hv Hok. destruct (valid_symbol v Hv Hok) as (Hd & Hup & Hlen & Ev).
  assert (18 < 10 ^ 20) as H20 by done.
  destruct (decimal_ok (decimals v)) as (Hval & Hdig & Hne); [lia|]. unfold symbol_from_string, symbol_to_string.
  rewrite trim_id.
  - rewrite bool_decide_false by (intros [H _]%app_eq_nil; exact (Hne H)). cbn [negb eos_assert res_bind app].
    assert (","%char ∉ decimal (decimals v)) as Hnc by (apply digits_avoid; [done|by intros []]).
    rewrite find_app, take_app_length, drop_after by done.
    rewrite to_int64_digits by (done || lia). cbn [res_bind]. rewrite Hval. unfold u8. rewrite wrap_small by (unfold is_uint; lia).
    destruct (Z.leb_spec (decimals v) max_precision) as [_|]; [|unfold max_precision in *; lia]. cbn [eos_assert res_bind].
    rewrite string_to_symbol_ok by (done || lia). cbn [res_bind]. rewrite <- Ev. unfold new_symbol. by rewrite Hok.
  - intros c Hc. apply digit_not_space. destruct (decimal (decimals v)) as [|x l]; [done|]. injection Hc as <-.
    by apply Forall_cons in Hdig as [? _].
  - intros c. rewrite (assoc_L (++)). destruct (name v) as [|x l] eqn:En.
    + rewrite app_nil_r, last_snoc. intros [= <-]. unfold is_space. change (code ","%char) with 44. lia.
    + apply upper_last; [discriminate|exact Hup].
Qed.

(** The sign and the integer part. *)
Definition signed (negative : bool) (l : text) : text := if negative then "-"%char :: l else l.

Lemma signed_avoid b c l : Forall is_digit l -> ~ is_digit c -> c <> "-"%char -> c ∉ signed b l.
Proof. intros Hl Hc Hne. pose proof (digits_avoid c l Hl Hc). destruct b; cbn; [|done]. by apply not_elem_of_cons. Qed.

Lemma signed_no_dot b l : Forall is_digit l -> "."%char ∉ signed b l.
Proof. intros Hl. apply signed_avoid; [exact Hl|by intros []|discriminate]. Qed.
Lemma signed_no_space b l : Forall is_digit l -> " "%char ∉ signed b l.
Proof. intros Hl. apply signed_avoid; [exact Hl|by intros []|discriminate]. Qed.

Lemma to_int64_signed b q : 0 <= q < 2 ^ 63 -> to_int64 (signed b (decimal q)) = Ok (if b then - q else q).
Proof.
  intros Hq. assert (2 ^ 63 < 10 ^ 20) as Hb by done. destruct (decimal_ok q) as (Hval & Hdig & Hne); [lia|].
  destruct b; cbn [signed]; [rewrite to_int64_minus|rewrite to_int64_digits]; rewrite ?Hval; try lia; auto.
Qed.

(** The text of an amount. *)
Definition amount_text (a : asset) : text :=
  let p := 10 ^ decimals (sym a) in
  signed (amount a <? 0) (decimal (Z.abs (amount a) / p))
  ++ (if decimals (sym a) =? 0 then [] else "."%char :: pad (Z.to_nat (decimals (sym a))) (Z.abs (amount a) mod p)).

Lemma to_string_ok a : is_uint 64 (sym a) -> is_valid a = true -> to_string a = Ok (amount_text a ++ " "%char :: name (sym a)).
Proof.
  intros Hv [Ha Hok]%andb_true_iff. apply andb_true_iff in Ha as [Ha1 Ha2]. apply Z.leb_le in Ha1, Ha2. unfold max_amount in *.
  destruct (precision_ok (sym a) Hv Hok) as [Hp Hp18]. destruct (valid_symbol (sym a) Hv Hok) as (Hd & _).
  set (d := decimals (sym a)) in *. assert (0 < 10 ^ d) as H0 by (apply Z.pow_pos_nonneg; lia).
  assert (10 ^ 18 < 2 ^ 62) as H18 by done. assert (2 ^ 63 = 2 * 2 ^ 62) as H63 by done. assert (2 ^ 63 < 10 ^ 20) as H20 by done.
  pose proof (Z.mod_pos_bound (Z.abs (amount a)) (10 ^ d) H0) as Hm.
  assert (0 <= Z.abs (amount a) / 10 ^ d <= Z.abs (amount a)) as Hq.
  { split; [apply Z.div_pos; lia|apply Z.div_le_upper_bound; [lia|nia]]. }
  unfold to_string, asset_precision. rewrite Hp. cbn [res_bind]. fold d. rewrite i64_small by (unfold is_int64; lia).
  rewrite !to_string_decimal by lia. unfold amount_text, signed. fold d. f_equal.
  assert (drop 1 (decimal (10 ^ d + Z.abs (amount a) mod 10 ^ d)) = pad (Z.to_nat d) (Z.abs (amount a) mod 10 ^ d)) as ->.
  { replace (10 ^ d) with (10 ^ Z.of_nat (Z.to_nat d)) at 1 by (f_equal; lia).
    rewrite decimal_pad; [done|lia|by rewrite Z2Nat.id by lia]. }
  destruct (amount a <? 0), (d =? 0); cbn [negb app]; by rewrite ?app_nil_r, <- ?(assoc_L (++)).
Qed.

Lemma amount_text_chars a : is_uint 64 (sym a) -> is_valid a = true ->
  (forall c r, head (amount_text a ++ r) = Some c -> ~ is_space c) /\ " "%char ∉ amount_text a.
Proof.
  intros Hv [Ha Hok]%andb_true_iff. apply andb_true_iff in Ha as [Ha1 Ha2]. apply Z.leb_le in Ha1, Ha2. unfold max_amount in *.
  destruct (valid_symbol (sym a) Hv Hok) as (Hd & _). unfold amount_text. set (d := decimals (sym a)) in *.
  assert (0 < 10 ^ d) as H0 by (apply Z.pow_pos_nonneg; lia). assert (2 ^ 62 < 10 ^ 20) as H20 by reflexivity.
  assert (0 <= Z.abs (amount a) / 10 ^ d <= Z.abs (amount a)) as Hq.
  { split; [apply Z.div_pos; lia|apply Z.div_le_upper_bound; [lia|nia]]. }
  destruct (decimal_ok (Z.abs (amount a) / 10 ^ d)) as (_ & Hdig & Hne); [lia|].
  destruct (pad_ok (Z.to_nat d) (Z.abs (amount a) mod 10 ^ d)) as (_ & Hpd & _).
  { rewrite Z2Nat.id by lia. by apply Z.mod_pos_bound. }
  split.
  - intros c r. destruct (amount a <? 0); cbn [signed].
    + intros [= <-]. unfold is_space. change (code "-"%char) with 45. lia.
    + destruct (decimal _) as [|x l]; [destruct (Hne eq_refl)|]. intros [= <-]. apply Forall_cons in Hdig as [Hx _].
      exact (digit_not_space _ Hx).
  - rewrite elem_of_app. intros [H|H]; [exact (signed_no_space _ _ Hdig H)|].
    destruct (d =? 0); [exact (proj1 (elem_of_nil _) H)|]. apply elem_of_cons in H as [H|H]; [discriminate H|].
    exact (signed_no_space false _ Hpd H).
Qed.

Lemma parse_amount a : is_uint 64 (sym a) -> is_valid a = true ->
  let dot := find "." (amount_text a) in
  let p := 10 ^ decimals (sym a) in
  match dot with
  | Some d => decimals (sym a) <> 0 /\ Z.of_nat (length (amount_text a)) - Z.of_nat d - 1 = decimals (sym a)
  | None => decimals (sym a) = 0
  end
  /\ exists int_part fract_part, parse_parts (amount_text a) dot = Ok (int_part, fract_part)
      /\ - 2 ^ 62 <= int_part * p <= 2 ^ 62 /\ int_part * p + fract_part = amount a.
Proof.
  intros Hv [Ha Hok]%andb_true_iff. apply andb_true_iff in Ha as [Ha1 Ha2]. apply Z.leb_le in Ha1, Ha2. unfold max_amount in *.
  destruct (precision_ok (sym a) Hv Hok) as [_ Hp18]. destruct (valid_symbol (sym a) Hv Hok) as (Hd & _).
  unfold amount_text. set (d := decimals (sym a)) in *. set (q := Z.abs (amount a) / 10 ^ d). set (r := Z.abs (amount a) mod 10 ^ d).
  assert (0 < 10 ^ d) as H0 by (apply Z.pow_pos_nonneg; lia). assert (10 ^ 18 < 2 ^ 62) as H18 by done.
  assert (2 ^ 63 = 2 * 2 ^ 62) as H63 by done. assert (2 ^ 63 < 10 ^ 20) as H20 by done.
  assert (0 <= r < 10 ^ d) as Hm by (by apply Z.mod_pos_bound).
  assert (Z.abs (amount a) = q * 10 ^ d + r) as Eq by (unfold q, r; rewrite (Z.div_mod (Z.abs (amount a)) (10 ^ d)) at 1; lia).
  assert (0 <= q) as Hq0 by (apply Z.div_pos; lia). assert (0 <= q <= q * 10 ^ d) as Hq by nia.
  destruct (decimal_ok q) as (_ & Hdig & Hne); [lia|]. cbn zeta.
  destruct (Z.eqb_spec d 0) as [E0|Hd0].
  - rewrite app_nil_r. rewrite find_none by exact (signed_no_dot _ _ Hdig). split; [done|].
    unfold parse_parts. rewrite to_int64_signed by lia. cbn [res_bind]. eexists _, _. split; [done|].
    assert (r = 0) by (rewrite E0 in Hm; cbn in Hm; lia). destruct (Z.ltb_spec (amount a) 0); lia.
  - destruct (pad_ok (Z.to_nat d) r) as (Hval & Hpd & Hpl); [by rewrite Z2Nat.id by lia|].
    rewrite find_app by exact (signed_no_dot _ _ Hdig).
    split; [split; [done|]; rewrite length_app; cbn [length]; lia|].
    unfold parse_parts. rewrite take_app_length, drop_after, to_int64_signed by lia. cbn [res_bind].
    rewrite to_int64_digits; [|by intros E; rewrite E in Hpl; cbn in Hpl; lia|done|lia]. cbn [res_bind]. rewrite Hval.
    destruct (Z.ltb_spec (amount a) 0) as [Hneg|Hpos]; cbn [signed].
    + rewrite bool_decide_true by done. rewrite safe_mul_exact by (unfold is_int64; lia). cbn [res_bind].
      eexists _, _. split; [done|]. lia.
    + rewrite bool_decide_false. { eexists _, _. split; [done|]. lia. }
      destruct (decimal q) as [|c l]; [done|]. apply Forall_cons in Hdig as [Hc _]. cbn. intros [= ->].
      unfold is_digit in Hc. change (code "-"%char) with 45 in Hc. lia.
Qed.

(** C39: What asset::to_string writes, asset::from_string reads back: amount,
    sign, precision and symbol, for every valid asset whose symbol has a
    name. *)
Theorem asset_roundtrip a : is_uint 64 (sym a) -> is_valid a = true -> name (sym a) <> [] ->
  exists s, to_string a = Ok s /\ from_string s = Ok a.
Proof.
  intros Hv Hok Hne. eexists. split; [by apply to_string_ok|].
  destruct (parse_amount a Hv Hok) as (Hdot & i & f & Hparts & Hb & Htotal).
  pose proof Hok as [Ha Hs]%andb_true_iff. destruct (valid_symbol (sym a) Hv Hs) as (Hd & Hup & _).
  destruct (precision_ok (sym a) Hv Hs) as [Hp Hp18]. destruct (amount_text_chars a) as [Hhead Hspace]; [done|done|].
  unfold from_string. rewrite trim_id; [|intros c; apply Hhead|].
  2:{ intros c. change (" "%char :: name (sym a)) with ([" "%char] ++ name (sym a)). rewrite (assoc_L (++)). by apply upper_last. }
  rewrite find_app, take_app_length, drop_after by exact Hspace. rewrite (trim_id (name (sym a))); [| |intros c; by apply (upper_last [])].
  2:{ intros c Hc. apply upper_not_space. rewrite Forall_forall in Hup. apply Hup. by apply head_Some_elem_of. }
  assert (forall (d : option nat) (e : exn) (k : res asset),
    match d with Some d => decimals (sym a) <> 0 /\ Z.of_nat (length (amount_text a)) - Z.of_nat d - 1 = decimals (sym a)
               | None => True end ->
    res_bind (eos_assert match d with Some d => negb (Z.of_nat d =? Z.of_nat (length (amount_text a)) - 1) | None => true end e)
      (fun _ => k) = k) as Hcheck.
  { intros [d|] e k; [|done]. intros [? ?]. destruct (Z.eqb_spec (Z.of_nat d) (Z.of_nat (length (amount_text a)) - 1)); [lia|done]. }
  rewrite Hcheck by (destruct (find "." (amount_text a)); [exact Hdot|done]).
  assert (match find "." (amount_text a) with
          | Some d => decimal (Z.of_nat (length (amount_text a)) - Z.of_nat d - 1) | None => ["0"%char] end
          = decimal (decimals (sym a))) as ->.
  { destruct (find "." (amount_text a)); [by destruct Hdot as [_ ->]|]. rewrite Hdot. by vm_compute. }
  change (decimal (decimals (sym a)) ++ [","%char] ++ name (sym a)) with (symbol_to_string (sym a)).
  rewrite symbol_from_string_ok by done. cbn [res_bind]. rewrite Hparts. cbn [res_bind fst snd]. rewrite Hp. cbn [res_bind].
  assert (2 ^ 63 = 2 * 2 ^ 62) as H63 by reflexivity. assert (10 ^ 18 < 2 ^ 62) as H18 by reflexivity.
  assert (0 < 10 ^ decimals (sym a)) as H0 by (apply Z.pow_pos_nonneg; lia).
  rewrite i64_small by (unfold is_int64; lia). rewrite safe_mul_exact by (unfold is_int64; lia). cbn [res_bind].
  unfold is_amount_within_range, max_amount in Ha. apply andb_true_iff in Ha as [Ha1 Ha2]. apply Z.leb_le in Ha1, Ha2.
  rewrite safe_add_exact by (unfold is_int64; lia). cbn [res_bind]. rewrite Htotal. unfold new_asset.
  unfold is_valid in Hok. apply andb_true_iff in Hok as [-> ->]. by destruct a.
Qed.

(** ** Bounds *)

Lemma from_string_valid s a : from_string s = Ok a -> is_valid a = true.
Proof.
  unfold from_string. intros H. destruct (find " " (trim s)); [|done]. inv_res. unfold new_asset in *. inv_res.
  unfold is_valid. cbn. by apply andb_true_iff.
Qed.

(** What an operation that builds its result with the constructor gives. *)
Definition bounded (same : bool) (z s : Z) : res asset :=
  if same && is_amount_within_range z then Ok (mk_asset z s) else Throw asset_type_exception.

Lemma bounded_new_asset z s : is_int64 z -> valid s = true -> (let! r := int64_result z in new_asset r s) = bounded true z s.
Proof.
  intros Hz Hs. unfold int64_result, new_asset, bounded. rewrite bool_decide_true by done. cbn. rewrite Hs.
  by destruct (is_amount_within_range z).
Qed.

Lemma valid_amount a : is_valid a = true -> - 2 ^ 62 < amount a < 2 ^ 62 /\ valid (sym a) = true.
Proof. intros [[H1 H2]%andb_true_iff Hs]%andb_true_iff. apply Z.leb_le in H1, H2. unfold max_amount in *. split; [lia|done]. Qed.

(** C40: Sums, differences and negations of valid assets never overflow: the
    result is exact and again below 2^62 in magnitude, and the operation throws
    exactly when the symbols differ or the exact result is out of that range;
    what from_string reads is in range too. *)
Theorem asset_arithmetic_exact a b : is_valid a = true -> is_valid b = true ->
  plus a b = bounded (sym a =? sym b) (amount a + amount b) (sym a)
  /\ minus a b = bounded (sym a =? sym b) (amount a - amount b) (sym a)
  /\ negate a = Ok (mk_asset (- amount a) (sym a))
  /\ (forall r, plus a b = Ok r \/ minus a b = Ok r \/ negate a = Ok r \/ (exists s, from_string s = Ok r) -> is_valid r = true).
Proof.
  intros Ha Hb. destruct (valid_amount a Ha) as [Ra Sa]. destruct (valid_amount b Hb) as [Rb _].
  assert (2 ^ 63 = 2 * 2 ^ 62) as H63 by reflexivity.
  assert (plus a b = bounded (sym a =? sym b) (amount a + amount b) (sym a)) as E1.
  { unfold plus. destruct (sym a =? sym b); [|done]. cbn [eos_assert res_bind]. apply bounded_new_asset; [unfold is_int64; lia|exact Sa]. }
  assert (minus a b = bounded (sym a =? sym b) (amount a - amount b) (sym a)) as E2.
  { unfold minus. destruct (sym a =? sym b); [|done]. cbn [eos_assert res_bind]. apply bounded_new_asset; [unfold is_int64; lia|exact Sa]. }
  assert (negate a = Ok (mk_asset (- amount a) (sym a))) as E3.
  { unfold negate. rewrite bounded_new_asset by (exact Sa || (unfold is_int64; lia)). unfold bounded, is_amount_within_range, max_amount.
    cbn [andb]. destruct (Z.leb_spec (- (2 ^ 62 - 1)) (- amount a)), (Z.leb_spec (- amount a) (2 ^ 62 - 1)); try lia. reflexivity. }
  split_and!; [exact E1|exact E2|exact E3|]. intros r Hr.
  assert (forall c z, bounded c z (sym a) = Ok r -> is_valid r = true) as Hbd.
  { unfold bounded. intros c z. destruct (is_amount_within_range z) eqn:Ez; rewrite ?andb_false_r, ?andb_true_r; [|discriminate].
    destruct c; [|discriminate]. intros [= <-]. unfold is_valid. cbn. by rewrite Ez, Sa. }
  rewrite E1, E2 in Hr. destruct Hr as [Hr|[Hr|[Hr|[s Hr]]]]; [by eapply Hbd|by eapply Hbd| |by eapply from_string_valid].
  apply (Hbd true (- amount a)). rewrite <- Hr. unfold negate. symmetry. apply bounded_new_asset; [unfold is_int64; lia|exact Sa].
Qed.
End Parsing.

(** ** A reference for the functions of fc *)

#[export] Instance is_space_dec c : Decision (is_space c).
Proof. unfold is_space. apply _. Defined.
#[export] Instance is_digit_dec c : Decision (is_digit c).
Proof. unfold is_digit. apply _. Defined.

Fixpoint strip (s : text) : text := match s with [] => [] | c :: s' => if decide (is_space c) then strip s' else s end.

Definition in_range (z : Z) (e : exn) : res Z := if bool_decide (is_int64 z) then Ok z else Throw e.
Definition digits_value (l : text) : res Z :=
  if bool_decide (l <> [] /\ Forall is_digit l) then Ok (value_of l) else Throw parse_error_exception.
Definition parse_int64 (s : text) : res Z :=
  match s with
  | "-"%char :: l => let! v := digits_value l in in_range (- v) parse_error_exception
  | _ => let! v := digits_value s in in_range v parse_error_exception
  end.

Lemma in_range_ok z e v : in_range z e = Ok v -> v = z /\ is_int64 v.
Proof. unfold in_range. case_bool_decide; [|done]. by intros [= <-]. Qed.
Lemma in_range_exact z e : is_int64 z -> in_range z e = Ok z.
Proof. intros H. unfold in_range. by rewrite bool_decide_true. Qed.

Lemma strip_id s : (forall c, head s = Some c -> ~ is_space c) -> strip s = s.
Proof. destruct s as [|c s]; cbn; [done|]. intros H. by rewrite decide_False by (by apply H). Qed.

Lemma value_of_nonneg l : Forall is_digit l -> 0 <= value_of l.
Proof.
  induction l as [|c l IH] using rev_ind; [by cbn|]. intros [Hl Hc]%Forall_app. apply Forall_cons in Hc as [Hc _].
  rewrite value_of_snoc. specialize (IH Hl). unfold is_digit in Hc. lia.
Qed.

Definition reference_text : FcText.
Proof.
  refine {| trim s := reverse (strip (reverse (strip s))); to_int64 := parse_int64; to_string_int64 v := signed (v <? 0) (decimal (Z.abs v));
    safe_add a b := in_range (a + b) overflow_exception; safe_mul a b := in_range (a * b) overflow_exception |}.
  - intros s Hh Hl. rewrite (strip_id s) by done. rewrite strip_id; [apply reverse_involutive|].
    intros c Hc. apply Hl. by rewrite <- head_reverse.
  - intros l Hne Hd Hv. pose proof (value_of_nonneg l Hd). unfold parse_int64, digits_value. rewrite bool_decide_true by done. cbn [res_bind].
    destruct l as [|c l]; [done|].
    assert (c <> "-"%char) by (intros ->; apply Forall_cons in Hd as [Hc _]; unfold is_digit in Hc; change (code "-"%char) with 45 in Hc; lia).
    rewrite in_range_exact by (unfold is_int64; lia). destruct c as [[] [] [] [] [] [] [] []]; first [reflexivity|congruence].
  - intros l Hne Hd Hv. pose proof (value_of_nonneg l Hd). unfold parse_int64, digits_value. rewrite bool_decide_true by done. cbn [res_bind].
    by rewrite in_range_exact by (unfold is_int64; lia).
  - intros s v Hp. unfold parse_int64 in Hp.
    assert (exists z e, in_range z e = Ok v) as (z & e & H); [|exact (proj2 (in_range_ok _ _ _ H))].
    destruct s as [|[[] [] [] [] [] [] [] []] l]; apply res_bind_ok in Hp as (x & _ & Hp); eauto.
  - intros v Hv. destruct (Z.ltb_spec v 0); [lia|]. by rewrite Z.abs_eq by lia.
  - intros a b. apply in_range_exact.
  - intros a b. apply in_range_exact.
  - intros a b r. apply in_range_ok.
  - intros a b r. apply in_range_ok.
Defined.
#[local] Existing Instance reference_text.

(** ** Examples *)

Definition txt (s : string) : text := String.list_ascii_of_string s.

(** Of the unit tests: -0.0001 PPP. *)
Definition small_debt : asset := mk_asset (-1) (4 + 256 * pack (txt "PPP")).

Lemma asset_roundtrip_witness :
  to_string small_debt = Ok (txt "-0.0001 PPP") /\ exists s, to_string small_debt = Ok s /\ from_string s = Ok small_debt.
Proof. split; [reflexivity|]. apply asset_roundtrip; [by vm_compute|reflexivity|discriminate]. Defined.

Definition richest : asset := mk_asset max_amount (sym small_debt).

Lemma asset_arithmetic_exact_witness :
  plus richest small_debt = Ok (mk_asset (max_amount - 1) (sym small_debt)) /\ minus richest small_debt = Throw asset_type_exception.
Proof.
  destruct (asset_arithmetic_exact richest small_debt) as (E1 & E2 & _); [reflexivity|reflexivity|]. rewrite E1, E2. split; reflexivity.
Defined.

(** The name is needed: an asset with the symbol "4," is valid and written with
    a trailing space, which is trimmed when it is read. *)
Theorem nameless_asset_unreadable :
  is_valid (mk_asset 10000 4) = true /\ to_string (mk_asset 10000 4) = Ok (txt "1.0000 ")
  /\ from_string (txt "1.0000 ") = Throw asset_type_exception.
Proof. split_and!; reflexivity. Qed.

(** The precision is read into eight bits before it is compared with the
    maximum: 260 stands for 4, in a symbol and in the digits of an amount. *)
Theorem precision_wraps :
  symbol_from_string (txt "260,VKT") = symbol_from_string (txt "4,VKT")
  /\ from_string (txt "1." ++ replicate 256 "0"%char ++ txt "5000 VKT") = from_string (txt "1.5000 VKT").
Proof. split; by vm_compute. Qed.

(** operator += does not check its sum: two additions leave the range, a third
    one overflows. *)
Theorem add_assign_leaves_range :
  exists twice, add_assign richest richest = Ok twice /\ is_valid twice = false
  /\ add_assign twice richest = Throw undefined_behavior.
Proof. exists (mk_asset (2 * max_amount) (sym richest)). split_and!; reflexivity. Qed.

(** A name of eight letters shifts by 64 bits. *)
Theorem long_name_undefined : symbol_from_string (txt "4,ABCDEFGH") = Throw undefined_behavior.
Proof. reflexivity. Qed.

(** operator <= and its kin order the assets of one symbol. *)
Lemma comparisons a b : sym a = sym b ->
  eqb a b = (amount a =? amount b) /\ ltb a b = Ok (amount a <? amount b) /\ leb a b = Ok (amount a <=? amount b)
  /\ gtb a b = Ok (amount b <? amount a) /\ geb a b = Ok (amount b <=? amount a).
Proof.
  intros E. unfold gtb, geb, leb, ltb, eqb. rewrite E, Z.eqb_refl, Z.ltb_irrefl, andb_false_r, orb_false_r. cbn.
  destruct (Z.eqb_spec (amount a) (amount b)), (Z.ltb_spec (amount a) (amount b)), (Z.leb_spec (amount a) (amount b)),
    (Z.ltb_spec (amount b) (amount a)), (Z.leb_spec (amount b) (amount a)); cbn; lia || done.
Qed.
End Asset.
