(* ===== verification/PushTransaction.v ===== *)
(** Transactions in the pending block: push_transaction,
    push_scheduled_transaction, apply_onerror, the receipts, and the loop of
    apply_block over the transactions of a block (controller.cpp).

    A transaction runs over the database ([begin_transaction]) with its
    transaction_context (TransactionContext.v) and its actions
    (ActionExecution.v).  A chainbase session is the database as it was when the
    session started: squashing keeps the changes, undoing, or leaving the scope,
    brings the old database back.  The clock is an argument; signals are not
    modelled. *)

From Stdlib Require Import ZArith Lia.
From stdpp Require Import base gmap strings numbers sorting list.
From S2P Require Import Prelude Chainbase Name Merkle Authority AuthorityChecker ResourceLimits BlockTimestamp BlockHeader AuthorizationManager IteratorCache ContractTables ContractTheorems EosioContract ChainConfig AccessLists Transaction TransactionContext FeatureActivation ActionExecution.

#[local] Open Scope Z_scope.
#[local] Open Scope chain_scope.
Import Authorization.
#[local] Existing Instance Features.block_status_eq_dec.

Definition onerror_name : Z := Eval vm_compute in N_ "onerror".

(** ** Failures *)

Definition failure_is_subjective (e : exn) : bool :=
  match e with
  | subjective_block_production_exception | block_net_usage_exceeded | greylist_net_usage_exceeded
  | block_cpu_usage_exceeded | greylist_cpu_usage_exceeded | deadline_exception | leeway_deadline_exception
  | actor_whitelist_exception | actor_blacklist_exception | contract_whitelist_exception | contract_blacklist_exception
  | action_blacklist_exception | key_blacklist_exception => true
  | _ => false
  end.

Definition scheduled_failure_is_subjective (e : exn) : bool :=
  bool_decide (e = tx_cpu_usage_exceeded) || failure_is_subjective e.

(** The exceptions that make the whole block invalid. *)
Definition is_bad_block (e : exn) : bool :=
  match e with
  | disallowed_transaction_extensions_bad_block_exception | protocol_feature_bad_block_exception => true
  | _ => false
  end.

(** ** Receipts *)

Inductive receipt_status := Executed | SoftFail | HardFail | Delayed | Expired.

#[export] Instance receipt_status_eq_dec : EqDecision receipt_status.
Proof. solve_decision. Defined.

Record receipt_header := mk_receipt_header { status : receipt_status; cpu_usage_us : Z; net_usage_words : Z }.

#[export] Instance receipt_header_eq_dec : EqDecision receipt_header.
Proof. solve_decision. Defined.

(** The readings of the clock in one transaction: when it starts, at the
    checktime of init (with the flag of the timer), at finalize, and when a
    failure is billed. *)
Record clock := mk_clock { now_start : Z; timer_expired : bool; now_init : Z; now_final : Z; now_failed : Z }.

Definition time_point_maximum : Z := INT64_MAX.

Scheme All for option.

Section Push.
Context {K : Type} `{EqDecision K} {key_ops : KeyOps K} {hashing : CodeHash} {trim : Name.BoostTrim} {SF : SoftFloat}.
Context {multiset : FlatMultiset K} {decoding : ActionData K} {fc : Fc} {format : TransactionFormat}.
Context {TT TR TL TU : Type} `{HTT : !Table Z table_id_object TT} `{HTR : !Table Z row TR}.
Context `{HTL : !Table (bool * Z) Manager.resource_limits_object TL}
        `{HTU : !Table Z Manager.resource_usage_object TU}.
Context {TP TPU TLK TG TA TM TC TRC TX TB : Type} {permission_index : Table Z (permission_object K) TP}
  {permission_usage_index : Table Z Z TPU} {permission_link_index : Table (Z * Z * Z) Z TLK}
  {generated_transaction_index : Table Z generated_transaction_object TG}
  {account_index : Table Z account_object TA} {account_metadata_index : Table Z account_metadata_object TM}
  {code_index : Table (Z * Z * Z) code_object TC} {account_ram_correction_index : Table Z Z TRC}
  {transaction_index : Table Z Z TX} {block_summary_index : Table Z digest_type TB}.

Abbreviation native := (@native_context TT TR TL TU TP TPU TLK TG TA TM TC).
Abbreviation exec_state := (@ActionExecution.exec_state TT TR TL TU TP TPU TLK TG TA TM TC TRC).
Abbreviation program := (@ActionExecution.program SF TT TR TL TU TP TPU TLK TG TA TM TC TRC).
Abbreviation trx_state := (@TransactionContext.trx_state TL TU TP TPU TLK TG TA TX TB).
Abbreviation limits := (@Manager.database TL TU).

(** ** The database, and a transaction over it *)

(** The context of [tables] is idle: no action is executed. *)
Record chain_database := mk_chain_database {
  tables : native;
  ram_corrections : TRC;
  action_sequence : Z;
  transactions : TX;
  block_summaries : TB
}.

Record run_state := mk_run { run_exec : exec_state; run_recorded : TX; run_summaries : TB }.

Definition set_run_exec (x : exec_state) (r : run_state) : run_state := mk_run x (run_recorded r) (run_summaries r).
Definition in_exec {A} (m : exec exec_state A) : exec run_state A := zoom run_exec set_run_exec m.

Definition view_trx (r : run_state) : trx_state :=
  let n := chain_db (run_exec r) in
  mk_trx_state (trx_context (run_exec r)) (validate_ram_usage (context n)) (resource_limits (context n)) (auth n)
    (accounts_table n) (run_recorded r) (run_summaries r).
Definition update_trx (t : trx_state) (r : run_state) : run_state :=
  let e := run_exec r in
  let n := chain_db e in
  let c := context n in
  mk_run (set_trx_context (trx t)
            (set_chain_db (mk_native (set_ram (account_ram_deltas c) (limits_db t) (ram_accounts t) c) (auth_of t) (accounts_of t)
                             (metadata_table n) (codes n)) e))
    (recorded t) (summaries t).
Definition in_trx {A} (m : exec trx_state A) : exec run_state A := zoom view_trx update_trx m.

Definition idle_frame : frame := mk_frame (mk_action 0 0 [] []) false 0 0 0 [] [] [].
Definition idle (c : @apply_context TT TR TL TU) : @apply_context TT TR TL TU :=
  set_ram ∅ (resource_limits c) ∅ (fresh_context 0 (mk_action 0 0 [] []) c).

Definition begin_transaction (t : transaction_context) (d : chain_database) : run_state :=
  mk_run (mk_exec (tables d) (ram_corrections d) (action_sequence d) [] [] t None idle_frame) (transactions d) (block_summaries d).
Definition end_transaction (r : run_state) : chain_database :=
  let e := run_exec r in
  mk_chain_database (set_context (idle (context (chain_db e))) (chain_db e)) (corrections e) (global_action_sequence e)
    (run_recorded r) (run_summaries r).

(** ** The controller *)

(** [recovered]: what recover_keys answers. *)
Record transaction_metadata := mk_trx_metadata {
  meta_id : Z;
  signed_id : Z;
  meta_trx : transaction;
  unprunable_size : Z;
  prunable_size : Z;
  implicit : bool;
  recovered : res (Z * list K)
}.

Record transaction_receipt := mk_trx_receipt { receipt : receipt_header; receipt_trx : Z + transaction_metadata }.

Inductive transaction_trace := mk_trx_trace {
  trace_id : Z;
  trace_receipt : option receipt_header;
  trace_actions : list action_trace;
  trace_net_usage : Z;
  trace_ram_delta : option (Z * Z);
  except : option exn;
  failed_dtrx_trace : option transaction_trace
}.

(** The building block's lists, and what else the transactions change. *)
Record controller_state := mk_controller {
  db : chain_database;
  pending_trx_receipts : list transaction_receipt;
  pending_trx_metas : list transaction_metadata;
  block_actions : list action_receipt;
  unapplied_transactions : gset Z;
  in_trx_requiring_checks : bool
}.

Definition set_db (x : chain_database) (s : controller_state) : controller_state :=
  mk_controller x (pending_trx_receipts s) (pending_trx_metas s) (block_actions s) (unapplied_transactions s) (in_trx_requiring_checks s).
Definition set_receipts (x : list transaction_receipt) (s : controller_state) : controller_state :=
  mk_controller (db s) x (pending_trx_metas s) (block_actions s) (unapplied_transactions s) (in_trx_requiring_checks s).
Definition set_metas (x : list transaction_metadata) (s : controller_state) : controller_state :=
  mk_controller (db s) (pending_trx_receipts s) x (block_actions s) (unapplied_transactions s) (in_trx_requiring_checks s).
Definition set_actions (x : list action_receipt) (s : controller_state) : controller_state :=
  mk_controller (db s) (pending_trx_receipts s) (pending_trx_metas s) x (unapplied_transactions s) (in_trx_requiring_checks s).
Definition set_unapplied (x : gset Z) (s : controller_state) : controller_state :=
  mk_controller (db s) (pending_trx_receipts s) (pending_trx_metas s) (block_actions s) x (in_trx_requiring_checks s).
Definition set_requiring_checks (x : bool) (s : controller_state) : controller_state :=
  mk_controller (db s) (pending_trx_receipts s) (pending_trx_metas s) (block_actions s) (unapplied_transactions s) x.

(** What is fixed while the block is pending. *)
Record chain_environment := mk_chain_environment {
  chain_cfg : chain_config;
  pending_block_time : Z;
  feature_only_bill_first_authorizer : bool;
  greylist : gset Z;
  chain_lists : access_lists;
  head_block_num : Z;
  head_block_id : digest_type;
  mitigations_disabled : bool;
  key_blacklist : list K;
  feature_only_link_to_existing_permission : bool;
  feature_fix_linkauth_restriction : bool;
  feature_forward_setcode : bool;
  feature_restrict_action_to_self : bool;
  feature_no_duplicate_deferred_id : bool;
  feature_replace_deferred : bool;
  pending_status : Features.block_status;
  speculative : bool;                      (** read_mode == SPECULATIVE *)
  force_all_checks : bool;
  disable_replay_opts : bool;
  light_validation : bool;                 (** block_validation_mode == LIGHT or trusted_producer_light_validation *)
  sig_cpu_bill_pct : Z;
  subjective_cpu_leeway : option Z;
  replay_head_time : option Z;
  chain_checktime : Z -> nat -> Z -> nat -> res unit  (** checktime during check_authorization, by transaction *)
}.
Context (cenv : chain_environment).
Context (contract : Z -> Z -> Z -> program) (act_digest : action -> digest_type)
  (decode_native : action -> res (@native_action K)) (checktime : nat -> res unit).
(** fc::raw::pack( onerror ) *)
Context (pack_onerror : Z -> list Z -> list Z).

Definition producing : bool := bool_decide (pending_status cenv = Features.incomplete).

Definition light_validation_allowed (replay_opts_disabled_by_policy : bool) (s : controller_state) : bool :=
  if in_trx_requiring_checks s then false
  else
    let consider_skipping_on_replay :=
      bool_decide (pending_status cenv = Features.irreversible \/ pending_status cenv = Features.validated)
      && negb replay_opts_disabled_by_policy in
    let consider_skipping_on_validate := bool_decide (pending_status cenv = Features.complete) && light_validation cenv in
    consider_skipping_on_replay || consider_skipping_on_validate.

Definition skip_auth_check_now (s : controller_state) : bool := light_validation_allowed (force_all_checks cenv) s.
Definition skip_trx_checks_now (s : controller_state) : bool := light_validation_allowed (disable_replay_opts cenv) s.
Definition skip_db_sessions (s : controller_state) : bool :=
  bool_decide (pending_status cenv = Features.irreversible) && negb (disable_replay_opts cenv) && negb (in_trx_requiring_checks s).

(** The members of a transaction_context that are fixed once it starts. *)
Definition environment_of (t : transaction) (id start deadline leeway delay_ : Z) (explicit enforce : bool) (s : controller_state)
    : @exec_environment K :=
  mk_exec_environment
    (mk_trx_environment (chain_cfg cenv) (skip_trx_checks_now s) producing enforce (pending_block_time cenv)
       (feature_only_bill_first_authorizer cenv) (greylist cenv) (chain_lists cenv) t id start deadline leeway explicit)
    (head_block_num cenv) (head_block_id cenv) (skip_auth_check_now s) delay_ (mitigations_disabled cenv) (key_blacklist cenv)
    (feature_only_link_to_existing_permission cenv) (feature_fix_linkauth_restriction cenv) (feature_forward_setcode cenv)
    (feature_restrict_action_to_self cenv) (feature_no_duplicate_deferred_id cenv) (feature_replace_deferred cenv)
    (chain_checktime cenv id).

(** ** Sessions and handlers *)

(** The end of a scope with an undo session, when [active]; the result says
    whether the session was squashed. *)
Definition close_session {A} (active : bool) (old : chain_database) (o : res (bool * A) * controller_state) : res A * controller_state :=
  let restored s' := if active then set_db old s' else s' in
  match o with
  | (Ok (true, a), s') => (Ok a, s')
  | (Ok (false, a), s') => (Ok a, restored s')
  | (Throw e, s') => (Throw e, restored s')
  end.
Definition session {A} (active : bool) (m : exec controller_state (bool * A)) : exec controller_state A :=
  fun s => close_session active (db s) (m s).

(** make_block_restore_point: unless cancelled, the lists get their old length. *)
Definition restore_point {A} (m : exec controller_state (bool * A)) : exec controller_state (bool * A) := fun s =>
  let restored s' :=
    set_receipts (take (length (pending_trx_receipts s)) (pending_trx_receipts s'))
      (set_metas (take (length (pending_trx_metas s)) (pending_trx_metas s'))
         (set_actions (take (length (block_actions s)) (block_actions s')) s')) in
  match m s with
  | (Ok (true, a), s') => (Ok (true, a), s')
  | (Ok (false, a), s') => (Ok (false, a), restored s')
  | (Throw e, s') => (Throw e, restored s')
  end.

(** [try] *)
Definition attempt {S A} (m : exec S A) : exec S (res A) := fun s => let '(x, s') := m s in (Ok x, s').

(** in_trx_requiring_checks, set in a scope *)
Definition requiring_checks {A} (m : exec controller_state A) : exec controller_state A := fun s =>
  let '(x, s') := m (set_requiring_checks true s) in (x, set_requiring_checks (in_trx_requiring_checks s) s').

(** What runs on the database; its outcome, and the members of the context. *)
Definition run_transaction (t : transaction_context) (m : exec run_state unit) : exec controller_state (res unit * run_state) := fun s =>
  let '(x, r) := m (begin_transaction t (db s)) in (Ok (x, r), set_db (end_transaction r) s).

Definition in_resource_limits {A} (m : exec limits A) : exec controller_state A :=
  zoom (fun s => resource_limits (context (tables (db s))))
    (fun l s =>
       let d := db s in
       let c := context (tables d) in
       set_db (mk_chain_database (set_context (set_ram (account_ram_deltas c) l (validate_ram_usage c) c) (tables d))
                 (ram_corrections d) (action_sequence d) (transactions d) (block_summaries d)) s) m.

(** ** Receipts of the pending block *)

Definition push_receipt (t : Z + transaction_metadata) (st : receipt_status) (cpu net_ : Z) : exec controller_state receipt_header :=
  let words := net_ / 8 in
  check (u64 (words * 8) =? net_) else transaction_exception;
  let h := mk_receipt_header st (u32 cpu) (u32 words) in
  do _ <- modify (fun s => set_receipts (pending_trx_receipts s ++ [mk_trx_receipt h t]) s);
  ret h.

Definition billed_cpu (r : run_state) : Z := billed_cpu_time_us (cpu (trx_context (run_exec r))).
Definition used_net (r : run_state) : Z := net_usage (net (trx_context (run_exec r))).

Definition trace_of (id : Z) (h : option receipt_header) (delta : option (Z * Z)) (e : option exn) (r : run_state) : transaction_trace :=
  mk_trx_trace id h (action_traces (run_exec r)) (used_net r) delta e None.

Definition move_actions (r : run_state) : exec controller_state unit :=
  modify (fun s => set_actions (block_actions s ++ executed (run_exec r)) s).

(** ** push_transaction *)

Definition input_transaction (m : transaction_metadata) (env : @exec_environment K) (check_auth : bool) (keys : list K) (k : clock)
    : exec run_state unit :=
  let trn := meta_trx m in
  do _ <- in_trx (if implicit m then init_for_implicit_trx (trx_env env) 0 (timer_expired k) (now_init k)
                  else init_for_input_trx (trx_env env) (unprunable_size m) (prunable_size m)
                         (match replay_head_time cenv with Some t => expiration trn * 1000000 <=? t | None => false end)
                         (timer_expired k) (now_init k));
  do r <- get_state;
  do _ <- lift (if check_auth
                then check_authorization (auth (chain_db (run_exec r))) (auth_config env) keys []
                       (auth_checktime env (length (action_traces (run_exec r))) (used_net r)) (actions trn)
                       (delay_sec trn * 1000000) false ∅
                else Ok tt);
  do _ <- in_exec (exec_transaction env contract act_digest decode_native checktime);
  in_trx (finalize (trx_env env) (now_final k)).

(** The receipt and the actions join the pending block, unless this only tries a
    transaction out: then they are removed again, and so are the changes. *)
Definition finish_input (m : transaction_metadata) (r : run_state) : exec controller_state (bool * transaction_trace) :=
  restore_point (
    do h <- (if negb (implicit m) then
               do h <- push_receipt (inr m) (if delay_sec (meta_trx m) =? 0 then Executed else Delayed) (billed_cpu r) (used_net r);
               do _ <- modify (fun s => set_metas (pending_trx_metas s ++ [m]) s);
               ret h
             else ret (mk_receipt_header Executed (u32 (billed_cpu r)) (u32 (used_net r / 8))));
    do _ <- move_actions r;
    do _ <- (if negb (implicit m) then modify (fun s => set_unapplied (unapplied_transactions s ∖ {[signed_id m]}) s) else ret tt);
    ret (negb (negb (speculative cenv) && producing), trace_of (meta_id m) (Some h) (account_ram_delta (run_exec r)) None r)).

(** The catch clauses. *)
Definition fail_input (m : transaction_metadata) (e : exn) (r : run_state) : exec controller_state (bool * transaction_trace) :=
  if is_bad_block e || negb (is_fc e) then lift (Throw e)
  else
    do _ <- (if negb (failure_is_subjective e)
             then modify (fun s => set_unapplied (unapplied_transactions s ∖ {[signed_id m]}) s) else ret tt);
    ret (false, trace_of (meta_id m) None (account_ram_delta (run_exec r)) (Some e) r).

(** The time of the signatures counts, in part, as spent before. *)
Definition start_time (explicit : bool) (sig_cpu_usage : Z) (k : clock) : Z :=
  if explicit then now_start k
  else
    let already_consumed_time := i64 (Elastic.EOS_PERCENT (u64 sig_cpu_usage) (sig_cpu_bill_pct cenv)) in
    if now_start k <? already_consumed_time then 0 else now_start k - already_consumed_time.

Definition push_transaction (m : transaction_metadata) (deadline_ billed : Z) (explicit : bool) (k : clock)
    : exec controller_state transaction_trace :=
  check (negb (deadline_ =? 0)) else transaction_exception;
  capture_and_rethrow (
    do s <- get_state;
    let check_auth := negb (skip_auth_check_now s) && negb (implicit m) in
    do keys <- lift (if check_auth then recovered m else Ok (0, []));
    let start_ := start_time explicit (fst keys) k in
    let leeway_ := match subjective_cpu_leeway cenv with Some l => if producing then l else 3000 | None => 3000 end in
    let env := environment_of (meta_trx m) (meta_id m) start_ deadline_ leeway_ (delay_sec (meta_trx m) * 1000000) explicit
                 (negb (implicit m)) s in
    session (negb (skip_db_sessions s)) (
      do xr <- run_transaction (new_transaction_context start_ billed) (input_transaction m env check_auth (snd keys) k);
      let '(x, r) := xr in
      do o <- attempt (match x with Ok _ => finish_input m r | Throw e => lift (Throw e) end);
      match o with
      | Ok kt => ret kt
      | Throw e => fail_input m e r
      end)).

(** ** Scheduled transactions *)

Definition set_generated_rows (t : TG) (d : chain_database) : chain_database :=
  mk_chain_database (set_auth (set_generated t (auth (tables d))) (tables d)) (ram_corrections d) (action_sequence d)
    (transactions d) (block_summaries d).

Definition remove_scheduled_transaction (id : Z) (g : generated_transaction_object) : exec controller_state Z :=
  let ram_delta := i64 (u64 (- (generated_billable_size + Z.of_nat (length (gto_packed_trx g))))) in
  do _ <- in_resource_limits (Manager.add_pending_ram_usage (gto_payer g) ram_delta);
  do _ <- modify (fun s => set_db (set_generated_rows (tbl_remove id (generated (auth (tables (db s))))) (db s)) s);
  ret ram_delta.

Definition deferred_actors (t : transaction) : list Z := concat ((fun a => actor <$> act_authorization a) <$> actions t).

Definition scheduled_transaction (env : @exec_environment K) (g : generated_transaction_object) (k : clock) : exec run_state unit :=
  do _ <- in_trx (init_for_deferred_trx (trx_env env) (gto_published g) (timer_expired k) (now_init k));
  do _ <- lift (if enforce_whiteblacklist (trx_env env) && producing
                then check_actor_list (chain_lists cenv) (flat (list_to_set (deferred_actors (the_trx (trx_env env)))))
                else Ok tt);
  do _ <- in_exec (exec_transaction env contract act_digest decode_native checktime);
  in_trx (finalize (trx_env env) (now_final k)).

(** A receipt and the actions of a transaction that succeeded. *)
Definition finish_scheduled (id : Z) (st : receipt_status) (delta : option (Z * Z)) (r : run_state)
    : exec controller_state (bool * transaction_trace) :=
  restore_point (
    do h <- push_receipt (inl id) st (billed_cpu r) (used_net r);
    do _ <- move_actions r;
    ret (true, trace_of id (Some h) delta None r)).

(** cpu_time_to_bill_us = trx_context.update_billed_cpu_time( now ) *)
Definition cpu_time_to_bill (env : @exec_environment K) (k : clock) (r : run_state) : Z :=
  u32 (billed_cpu_time_us (update_billed_cpu_time (trx_env env) (now_failed k) (cpu (trx_context (run_exec r))))).

(** try a transaction in a session of its own; after an fc::exception its changes
    are undone, and the exception is the result. *)
Definition try_transaction (t : transaction_context) (m : exec run_state unit)
    (finish : run_state -> exec controller_state (bool * transaction_trace))
    : exec controller_state (transaction_trace + exn * run_state) :=
  do s <- get_state;
  session (negb (skip_db_sessions s)) (
    do xr <- run_transaction t m;
    let '(x, r) := xr in
    do o <- attempt (match x with Ok _ => finish r | Throw e => lift (Throw e) end);
    match o with
    | Ok kt => ret (fst kt, inl (snd kt))
    | Throw e => if is_bad_block e || negb (is_fc e) then lift (Throw e) else ret (false, inr (e, r))
    end).

(** The transaction that delivers the failed one to its sender. *)
Definition onerror_transaction (g : generated_transaction_object) : transaction :=
  let a := mk_action system_account_name onerror_name [mk_level (gto_sender g) active_name]
             (pack_onerror (gto_sender_id g) (gto_packed_trx g)) in
  let t := mk_transaction 0 0 0 0 0 0 [] [a] [] in
  if feature_no_duplicate_deferred_id cenv then t
  else set_reference_block (head_block_id cenv)
         (mk_transaction (u32 ((pending_block_time cenv + 999999) / 1000000)) 0 0 0 0 0 [] [a] []).

Definition onerror_run (env : @exec_environment K) (g : generated_transaction_object) (k : clock) : exec run_state unit :=
  do _ <- in_trx (init_for_implicit_trx (trx_env env) 0 (timer_expired k) (now_init k));
  do _ <- in_trx (modify_trx (fun t => set_origin (gto_published g) (is_input t) (apply_context_free t) (scheduled t) t));
  do _ <- in_exec (
    match last (actions (the_trx (trx_env env))) with
    | Some a =>
        do o <- trx_schedule_action a (gto_sender g) false 0 0;
        execute_action env contract act_digest decode_native checktime (depth_bound env) o 0
    | None => lift (Throw undefined_behavior)
    end);
  in_trx (finalize (trx_env env) (now_final k)).

(** The trace; after a failure its exception and the time to bill. *)
Definition apply_onerror (id : Z) (g : generated_transaction_object) (deadline_ start_ billed : Z) (explicit enforce : bool) (k : clock)
    : exec controller_state (transaction_trace + transaction_trace * exn * Z) :=
  do s <- get_state;
  let etrx := onerror_transaction g in
  let etrx_id := digest_number (Transaction.id etrx) in
  let env := environment_of etrx etrx_id start_ deadline_ 3000 0 explicit enforce s in
  do o <- try_transaction (new_transaction_context start_ billed) (onerror_run env g k)
            (fun r => do kt <- finish_scheduled id SoftFail None r; ret (fst kt, trace_of etrx_id (trace_receipt (snd kt)) None None r));
  match o with
  | inl t => ret (inl t)
  | inr (e, r) => ret (inr (trace_of etrx_id None None (Some e) r, e, cpu_time_to_bill env k r))
  end.

Definition with_failed (failed : transaction_trace) (t : transaction_trace) : transaction_trace :=
  mk_trx_trace (trace_id t) (trace_receipt t) (trace_actions t) (trace_net_usage t) (trace_ram_delta t) (except t) (Some failed).
Definition with_receipt (h : receipt_header) (delta : Z * Z) (t : transaction_trace) : transaction_trace :=
  mk_trx_trace (trace_id t) (Some h) (trace_actions t) (trace_net_usage t) (Some delta) (except t) (failed_dtrx_trace t).
Definition with_delta (delta : Z * Z) (t : transaction_trace) : transaction_trace :=
  mk_trx_trace (trace_id t) (trace_receipt t) (trace_actions t) (trace_net_usage t) (Some delta) (except t) (failed_dtrx_trace t).

(** Hard failure: the payers are billed, and the transaction is retired. *)
Definition hard_fail (id : Z) (g : generated_transaction_object) (env : @exec_environment K) (r : run_state) (cpu_ ram_delta : Z)
    (explicit : bool) (t : transaction_trace) : exec controller_state (bool * transaction_trace) :=
  let billed := bill_to_accounts (trx_context (run_exec r)) in
  let slot := BlockTimestamp.set_time_point (pending_block_time cenv) in
  do c <- (if negb explicit then
             do _ <- in_resource_limits (Manager.update_account_usage (flat billed) slot);
             do b <- in_resource_limits (max_bandwidth_billed_accounts_can_pay (trx_env env) billed true);
             let '(_, account_cpu_limit, _, _) := b in
             ret (u32 (Z.min (Z.min cpu_ account_cpu_limit) (initial_objective_duration_limit (cpu (trx_context (run_exec r))))))
           else ret cpu_);
  do _ <- in_resource_limits (Manager.add_transaction_usage (flat billed) c 0 slot);
  do h <- push_receipt (inl id) HardFail c 0;
  ret (true, with_receipt h (gto_payer g, ram_delta) t).

(** After the transaction has failed with [e]. *)
Definition fail_scheduled (id : Z) (g : generated_transaction_object) (env : @exec_environment K) (e : exn) (r : run_state)
    (deadline_ billed ram_delta : Z) (explicit enforce : bool) (k k' : clock) : exec controller_state (bool * transaction_trace) :=
  let t := trace_of id None (account_ram_delta (run_exec r)) (Some e) r in
  do o <- (if negb (gto_sender g =? 0) && negb (failure_is_subjective e) then
             do o <- apply_onerror id g deadline_ (pseudo_start (cpu (trx_context (run_exec r)))) billed explicit enforce k';
             ret (Some o)
           else ret None);
  match o with
  | Some (inl t') => ret (true, with_delta (gto_payer g, ram_delta) (with_failed t t'))
  | _ =>
      let '(t, e, cpu_) := match o with
                           | Some (inr (t', e', c)) => (with_failed t t', e', c)
                           | _ => (t, e, cpu_time_to_bill env k r)
                           end in
      let subjective := if explicit then failure_is_subjective e else scheduled_failure_is_subjective e in
      if negb subjective then hard_fail id g env r cpu_ ram_delta explicit t else ret (false, t)
  end.

Definition push_generated (id : Z) (g : generated_transaction_object) (deadline_ billed : Z) (explicit : bool) (k k' : clock)
    : exec controller_state transaction_trace :=
  capture_and_rethrow (
    do s <- get_state;
    session (negb (skip_db_sessions s)) (
      do ram_delta <- remove_scheduled_transaction id g;
      check (gto_delay_until g <=? pending_block_time cenv) else transaction_exception;
      do dtrx <- lift (unpack_trx (gto_packed_trx g));
      if gto_expiration g <? pending_block_time cenv then
        do h <- push_receipt (inl id) Expired billed 0;
        ret (true, mk_trx_trace id (Some h) [] 0 (Some (gto_payer g, ram_delta)) None None)
      else
        requiring_checks (
          do s <- get_state;
          let enforce := if gto_sender g =? 0 then true
                         else negb (sender_avoids_whitelist_blacklist_enforcement (chain_lists cenv) (gto_sender g)) in
          let env := environment_of dtrx id (now_start k) deadline_ 0 0 explicit enforce s in
          do o <- try_transaction (new_transaction_context (now_start k) billed) (scheduled_transaction env g k)
                    (finish_scheduled id Executed (Some (gto_payer g, ram_delta)));
          match o with
          | inl t => ret (true, t)
          | inr (e, r) => fail_scheduled id g env e r deadline_ billed ram_delta explicit enforce k k'
          end))).

(** By the id of the transaction. *)
Definition push_scheduled_transaction (id deadline_ billed : Z) (explicit : bool) (k k' : clock) : exec controller_state transaction_trace :=
  do s <- get_state;
  match tbl_find id (generated (auth (tables (db s)))) with
  | None => lift (Throw unknown_transaction_exception)
  | Some g => push_generated id g deadline_ billed explicit k k'
  end.

(** ** The transactions of a block *)

(** The body of the loop of apply_block: the transaction must leave the receipt
    the block has. *)
Definition apply_receipt (rk : transaction_receipt * (clock * clock)) : exec controller_state unit :=
  let '(rcpt, (k, k')) := rk in
  do s <- get_state;
  let num_pending_receipts := length (pending_trx_receipts s) in
  do t <- match receipt_trx rcpt with
          | inr m => push_transaction m time_point_maximum (cpu_usage_us (receipt rcpt)) true k
          | inl id => push_scheduled_transaction id time_point_maximum (cpu_usage_us (receipt rcpt)) true k k'
          end;
  let transaction_can_fail :=
    bool_decide (status (receipt rcpt) = HardFail) && match receipt_trx rcpt with inl _ => true | inr _ => false end in
  do _ <- match except t with
          | Some e => if negb transaction_can_fail then lift (Throw e) else ret tt
          | None => ret tt
          end;
  do s <- get_state;
  check (0 <? Z.of_nat (length (pending_trx_receipts s))) else block_validate_exception;
  check (Z.of_nat (length (pending_trx_receipts s)) =? Z.of_nat num_pending_receipts + 1) else block_validate_exception;
  match last (pending_trx_receipts s) with
  | Some r => check (bool_decide (receipt r = receipt rcpt)) else block_validate_exception; ret tt
  | None => lift (Throw undefined_behavior)
  end.

Definition apply_transactions (l : list (transaction_receipt * (clock * clock))) : exec controller_state unit :=
  for_each l apply_receipt.
End Push.
