(* ===== verification/PushTheorems.v ===== *)
(** What pushing transactions does to the pending block (PushTransaction.v): a
    transaction is applied as a whole or not at all, a deferred transaction is
    retired with one receipt or stays, the actions of the block are numbered
    without gaps, and a block that is applied leaves the receipts it carries. *)

From Stdlib Require Import ZArith Lia.
From stdpp Require Import base gmap numbers sorting list.
From S2P Require Import Prelude Chainbase Name Merkle Authority AuthorityChecker ResourceLimits BlockTimestamp BlockHeader AuthorizationManager IteratorCache ContractTables ContractTheorems EosioContract ChainConfig AccessLists Transaction TransactionContext FeatureActivation ActionExecution ActionFrames ActionTheorems PushTransaction.

#[local] Open Scope Z_scope.
#[local] Open Scope chain_scope.
Import Authorization.

Section Push.
Context {K : Type} `{EqDecision K} {key_ops : KeyOps K} {hashing : CodeHash} {trim : Name.BoostTrim} {SF : SoftFloat}.
Context {multiset : FlatMultiset K} {decoding : ActionData K} {fc : Fc} {format : TransactionFormat}.
Context {TT TR TL TU : Type} `{HTT : !Table Z table_id_object TT} `{HTR : !Table Z row TR}.
Context `{HTL : !Table (bool * Z) Manager.resource_limits_object TL}
        `{HTU : !Table Z Manager.resource_usage_object TU}.
Context {TP TPU TLK TG TA TM TC TRC TX TB : Type} {permission_index : Table Z (permission_object K) TP}
  {permission_usage_index : Table Z Z TPU} {permission_link_index : Table (Z * Z * Z) Z TLK}
  {generated_transaction_index : Table Z generated_transaction_object TG}
  {account_index : Table Z account_object TA} {account_metadata_index : Table Z account_metadata_object TM}
  {code_index : Table (Z * Z * Z) code_object TC} {account_ram_correction_index : Table Z Z TRC}
  {transaction_index : Table Z Z TX} {block_summary_index : Table Z digest_type TB}.

Abbreviation native := (@native_context TT TR TL TU TP TPU TLK TG TA TM TC).
Abbreviation exec_state := (@ActionExecution.exec_state TT TR TL TU TP TPU TLK TG TA TM TC TRC).
Abbreviation program := (@ActionExecution.program SF TT TR TL TU TP TPU TLK TG TA TM TC TRC).
Abbreviation run_state := (@PushTransaction.run_state TT TR TL TU TP TPU TLK TG TA TM TC TRC TX TB).
Abbreviation chain_database := (@PushTransaction.chain_database TT TR TL TU TP TPU TLK TG TA TM TC TRC TX TB).
Abbreviation controller_state := (@PushTransaction.controller_state K TT TR TL TU TP TPU TLK TG TA TM TC TRC TX TB).
Abbreviation transaction_metadata := (@PushTransaction.transaction_metadata K).
Abbreviation transaction_receipt := (@PushTransaction.transaction_receipt K).
Context (cenv : @chain_environment K).
Context (contract : Z -> Z -> Z -> program) (act_digest : action -> digest_type)
  (decode_native : action -> res (@native_action K)) (checktime : nat -> res unit) (pack_onerror : Z -> list Z -> list Z).

Abbreviation input_transaction := (input_transaction cenv contract act_digest decode_native checktime).
Abbreviation scheduled_transaction := (scheduled_transaction cenv contract act_digest decode_native checktime).
Abbreviation onerror_run := (onerror_run contract act_digest decode_native checktime).
Abbreviation push_transaction := (push_transaction cenv contract act_digest decode_native checktime).
Abbreviation push_generated := (push_generated cenv contract act_digest decode_native checktime pack_onerror).
Abbreviation push_scheduled_transaction := (push_scheduled_transaction cenv contract act_digest decode_native checktime pack_onerror).
Abbreviation apply_receipt := (apply_receipt cenv contract act_digest decode_native checktime pack_onerror).
Abbreviation apply_transactions := (apply_transactions cenv contract act_digest decode_native checktime pack_onerror).

(** ** The actions of one transaction are numbered *)

(** [l] has the numbers after [g], and [g'] is the last one. *)
Definition numbered (g : Z) (l : list action_receipt) (g' : Z) : Prop :=
  rc_global_sequence <$> l = (fun k => u64 (g + Z.of_nat k)) <$> seq 1 (length l) /\ g' = u64 (g + Z.of_nat (length l)).

Lemma numbered_nil g : is_uint 64 g -> numbered g [] g.
Proof. intros Hg. split; [done|]. cbn. rewrite Z.add_0_r. symmetry. by apply wrap_small. Qed.

Lemma numbered_app g l1 g1 l2 g2 : numbered g l1 g1 -> numbered g1 l2 g2 -> numbered g (l1 ++ l2) g2.
Proof.
  intros [E1 ->] [E2 ->]. unfold numbered. rewrite fmap_app, length_app, seq_app, fmap_app, E1, E2. split.
  - f_equal. rewrite (Nat.add_comm 1 (length l1)), <- fmap_add_seq, <- list_fmap_compose. apply list_fmap_ext. intros _ k _. cbn. rewrite u64_wrap. f_equal. lia.
  - rewrite u64_wrap. f_equal. lia.
Qed.

Definition run_books (r : run_state) : list action_receipt * Z * list action_trace :=
  (executed (run_exec r), global_action_sequence (run_exec r), action_traces (run_exec r)).

Lemma in_trx_books {A} (m : exec _ A) (r r' : run_state) x : in_trx m r = (x, r') -> run_books r' = run_books r.
Proof. unfold in_trx, zoom. destruct (m (view_trx r)) as [y t]. by intros [= _ <-]. Qed.

Definition numbered_run (g : Z) (r : run_state) : Prop := numbered g (executed (run_exec r)) (global_action_sequence (run_exec r)).

(** The steps around the execution change no number. *)
Lemma numbered_around {A B C} (pre : exec _ A) (body : exec exec_state B) (post : exec _ C) (test : run_state -> res unit) g
    (r0 r : run_state) c :
  run_books r0 = ([], g, []) ->
  (do _ <- in_trx pre; do r <- get_state; do _ <- lift (test r); do _ <- in_exec body; in_trx post) r0 = (Ok c, r) ->
  exists s s' b, action_traces s = [] /\ executed s = [] /\ global_action_sequence s = g /\ body s = (Ok b, s')
    /\ run_books r = (executed s', global_action_sequence s', action_traces s').
Proof.
  intros Hb Hrun. apply bind_ok in Hrun as (a & r1 & H1 & Hrun). exec_step Hrun. exec_step Hrun.
  apply bind_ok in Hrun as (b & r2 & H2 & Hrun). apply zoom_ok in H2 as (s' & Hbody & ->).
  apply in_trx_books in H1, Hrun. rewrite Hb in H1. injection H1 as He Hg Ht. by exists (run_exec r1), s', b.
Qed.

Lemma exec_numbered env (s s' : exec_state) u : action_traces s = [] -> executed s = [] -> is_uint 64 (global_action_sequence s) ->
  exec_transaction env contract act_digest decode_native checktime s = (Ok u, s') ->
  Z.of_nat (length (action_traces s')) < 2 ^ 32 -> numbered (global_action_sequence s) (executed s') (global_action_sequence s').
Proof.
  intros Et Ee Hg Hrun Hlen.
  destruct (exec_transaction_finished env contract act_digest decode_native checktime s s' u Et Ee Hg Hrun Hlen)
    as (s1 & s2 & B & _ & [_ _ _ _ [_ A2 A3 _ _]]).
  injection B as Be Bg _ _ _. unfold numbered. by rewrite Be, Bg.
Qed.

(** The onerror action, delivered to the sender. *)
Lemma onerror_numbered_exec env a sender (s s' : exec_state) u :
  action_traces s = [] -> executed s = [] -> is_uint 64 (global_action_sequence s) ->
  (do o <- trx_schedule_action a sender false 0 0;
   execute_action env contract act_digest decode_native checktime (depth_bound env) o 0) s = (Ok u, s') ->
  Z.of_nat (length (action_traces s')) < 2 ^ 32 -> numbered (global_action_sequence s) (executed s') (global_action_sequence s').
Proof.
  intros Et Ee Hg Hrun Hlen. pose proof (accounted_start act_digest s Et Ee Hg) as Ha.
  destruct (trx_schedule_action_ok act_digest (global_action_sequence s) a sender false s Ha)
    as (t & E & _ & _ & _ & Hn & Ha1); [rewrite Et; done|].
  unfold bind in Hrun. rewrite E in Hrun.
  assert (trace_at (set_traces (action_traces s ++ [t]) s) (Z.of_nat (S (length (action_traces s)))) t) as Ht by (rewrite Et; by split).
  destruct (execute_action_ok env contract act_digest decode_native checktime _ _ _ _ _ _ _ t Ha1 Ht Hn Hrun Hlen)
    as [_ _ _ _ [_ A2 A3 _ _]]. by split.
Qed.

Lemma input_numbered m env ca keys k t (d : chain_database) r u : is_uint 64 (action_sequence d) ->
  input_transaction m env ca keys k (begin_transaction t d) = (Ok u, r) ->
  Z.of_nat (length (action_traces (run_exec r))) < 2 ^ 32 -> numbered_run (action_sequence d) r.
Proof.
  intros Hg Hrun Hlen. unfold PushTransaction.input_transaction in Hrun.
  destruct (numbered_around _ _ _ _ (action_sequence d) (begin_transaction t d) r u eq_refl Hrun)
    as (s & s' & b & Et & Ee & Eg & Hbody & [= He Hgs Ht]).
  unfold numbered_run. rewrite He, Hgs, <- Eg. rewrite Ht in Hlen. rewrite <- Eg in Hg. by eapply exec_numbered.
Qed.

Lemma scheduled_numbered env g k t (d : chain_database) r u : is_uint 64 (action_sequence d) ->
  scheduled_transaction env g k (begin_transaction t d) = (Ok u, r) ->
  Z.of_nat (length (action_traces (run_exec r))) < 2 ^ 32 -> numbered_run (action_sequence d) r.
Proof.
  intros Hg Hrun Hlen. unfold PushTransaction.scheduled_transaction in Hrun.
  destruct (numbered_around _ _ _ (fun _ => if enforce_whiteblacklist (trx_env env) && producing cenv
                then check_actor_list (chain_lists cenv) (flat (list_to_set (deferred_actors (the_trx (trx_env env)))))
                else Ok tt) (action_sequence d) (begin_transaction t d) r u eq_refl Hrun)
    as (s & s' & b & Et & Ee & Eg & Hbody & [= He Hgs Ht]).
  unfold numbered_run. rewrite He, Hgs, <- Eg. rewrite Ht in Hlen. rewrite <- Eg in Hg. by eapply exec_numbered.
Qed.

Lemma onerror_numbered env g k t (d : chain_database) r u : is_uint 64 (action_sequence d) ->
  onerror_run env g k (begin_transaction t d) = (Ok u, r) ->
  Z.of_nat (length (action_traces (run_exec r))) < 2 ^ 32 -> numbered_run (action_sequence d) r.
Proof.
  intros Hg Hrun Hlen. unfold PushTransaction.onerror_run in Hrun. apply bind_ok in Hrun as (x & r1 & H1 & Hrun).
  apply in_trx_books in H1.
  destruct (numbered_around _ _ _ (fun _ => Ok tt) (action_sequence d) r1 r u H1 Hrun)
    as (s & s' & b & Et & Ee & Eg & Hbody & [= He Hgs Ht]).
  unfold numbered_run. rewrite He, Hgs, <- Eg. rewrite Ht in Hlen. rewrite <- Eg in Hg.
  destruct (last _) as [a|]; [|done]. by eapply onerror_numbered_exec.
Qed.

(** ** Receipts *)

Lemma push_receipt_cases t st c n (s : controller_state) :
  push_receipt t st c n s = (Throw transaction_exception, s)
  \/ exists h, status h = st /\ push_receipt t st c n s = (Ok h, set_receipts (pending_trx_receipts s ++ [mk_trx_receipt h t]) s).
Proof.
  unfold push_receipt, bind, lift, modify, ret. destruct (_ =? _); cbn [eos_assert]; [right|by left]. eexists. split; [|reflexivity]. reflexivity.
Qed.

(** Nothing was added: the restore point does nothing. *)
Lemma restored_same (s : controller_state) :
  set_receipts (take (length (pending_trx_receipts s)) (pending_trx_receipts s))
    (set_metas (take (length (pending_trx_metas s)) (pending_trx_metas s))
       (set_actions (take (length (block_actions s)) (block_actions s)) s)) = s.
Proof. rewrite !firstn_all. by destruct s. Qed.

(** A transaction that is only tried out leaves nothing in the pending block. *)
Definition trial : bool := negb (speculative cenv) && producing cenv.

Definition erase (m : transaction_metadata) (s : controller_state) : controller_state :=
  if implicit m then s else set_unapplied (unapplied_transactions s ∖ {[signed_id m]}) s.
(** The pending block with an input transaction. *)
Definition applied (m : transaction_metadata) (h : receipt_header) (r : run_state) (s : controller_state) : controller_state :=
  let s1 := if implicit m then s
            else set_metas (pending_trx_metas s ++ [m]) (set_receipts (pending_trx_receipts s ++ [mk_trx_receipt h (inr m)]) s) in
  erase m (set_actions (block_actions s ++ executed (run_exec r)) s1).
Definition input_status (m : transaction_metadata) : receipt_status :=
  if implicit m || (delay_sec (meta_trx m) =? 0) then Executed else Delayed.

Lemma finish_input_cases m r (s : controller_state) :
  finish_input cenv m r s = (Throw transaction_exception, s)
  \/ exists h, status h = input_status m
       /\ finish_input cenv m r s
          = (Ok (negb trial, trace_of (meta_id m) (Some h) (account_ram_delta (run_exec r)) None r),
             if trial then erase m s else applied m h r s).
Proof.
  unfold finish_input, restore_point, move_actions, applied, erase, input_status. fold trial. destruct (implicit m) eqn:Ei; cbn [negb orb].
  - right. eexists. split; [|unfold bind, modify, ret; destruct trial; cbn [negb]; [|done]]; [done|].
    f_equal. cbn. rewrite !firstn_all, take_app_length. by destruct s.
  - unfold bind, modify, ret.
    destruct (push_receipt_cases (inr m) (if delay_sec (meta_trx m) =? 0 then Executed else Delayed) (billed_cpu r) (used_net r) s)
      as [E|(h & Hs & E)]; rewrite E; [left; by rewrite restored_same|].
    right. exists h. split; [done|]. destruct trial; cbn [negb]; [|done]. f_equal. cbn. rewrite !take_app_length. by destruct s.
Qed.

(** ** Input transactions *)

(** The keys, and the environment and context of the run. *)
Definition input_keys (m : transaction_metadata) (s : controller_state) : res (Z * list K) :=
  if negb (skip_auth_check_now cenv s) && negb (implicit m) then recovered m else Ok (0, []).
Definition input_run (m : transaction_metadata) (dl billed : Z) (explicit : bool) (k : clock) (keys : Z * list K) (s : controller_state) :=
  let start_ := start_time cenv explicit (fst keys) k in
  let leeway_ := match subjective_cpu_leeway cenv with Some l => if producing cenv then l else 3000 | None => 3000 end in
  input_transaction m
    (environment_of cenv (meta_trx m) (meta_id m) start_ dl leeway_ (delay_sec (meta_trx m) * 1000000) explicit (negb (implicit m)) s)
    (negb (skip_auth_check_now cenv s) && negb (implicit m)) (snd keys) k
    (begin_transaction (new_transaction_context start_ billed) (db s)).

(** What push_transaction may do. *)
Inductive pushed (m : transaction_metadata) (dl billed : Z) (explicit : bool) (k : clock) (s : controller_state)
  : res transaction_trace -> controller_state -> Prop :=
| pushed_thrown e : pushed m dl billed explicit k s (Throw e) s
| pushed_failed t e : except t = Some e -> is_fc e = true -> is_bad_block e = false -> trace_receipt t = None ->
    pushed m dl billed explicit k s (Ok t)
      (if failure_is_subjective e then s else set_unapplied (unapplied_transactions s ∖ {[signed_id m]}) s)
| pushed_tried t : except t = None -> trial = true -> pushed m dl billed explicit k s (Ok t) (erase m s)
| pushed_applied t h keys r u : except t = None -> trial = false -> trace_receipt t = Some h -> status h = input_status m ->
    trace_actions t = action_traces (run_exec r) ->
    input_keys m s = Ok keys -> input_run m dl billed explicit k keys s = (Ok u, r) ->
    pushed m dl billed explicit k s (Ok t) (set_db (end_transaction r) (applied m h r s)).

Lemma set_db_same (s : controller_state) d : set_db (db s) (set_db d s) = s.
Proof. by destruct s. Qed.

(** [R] holds of what is returned or thrown and the state left. *)
Definition ends {A} (R : res A -> controller_state -> Prop) (o : res A * controller_state) : Prop := R (fst o) (snd o).

Lemma fail_input_pushed m dl billed explicit k (s : controller_state) e r :
  ends (pushed m dl billed explicit k s)
    (match close_session true (db s) (fail_input m e r (set_db (end_transaction r) s)) with
     | (Throw e, s') => (Throw (fc_rethrow e), s') | x => x end).
Proof.
  unfold fail_input. destruct (is_bad_block e || negb (is_fc e)) eqn:Eb; [cbn; rewrite set_db_same; apply pushed_thrown|].
  apply orb_false_iff in Eb as [Eb Ef%negb_false_iff].
  pose proof (pushed_failed m dl billed explicit k s (trace_of (meta_id m) None (account_ram_delta (run_exec r)) (Some e) r) e
                eq_refl Ef Eb eq_refl) as Hp.
  unfold bind, modify, ret. destruct (failure_is_subjective e); cbn; by destruct s.
Qed.

Lemma push_transaction_pushed m dl billed explicit k (s : controller_state) : skip_db_sessions cenv s = false ->
  ends (pushed m dl billed explicit k s) (push_transaction m dl billed explicit k s).
Proof.
  intros Hskip. unfold PushTransaction.push_transaction, bind at 1, lift at 1. destruct (negb (dl =? 0)); cbn [eos_assert]; [|apply pushed_thrown].
  unfold capture_and_rethrow, bind at 1, get_state at 1, bind at 1, lift at 1.
  fold (input_keys m s). destruct (input_keys m s) as [keys|e] eqn:Ekeys; [|apply pushed_thrown].
  rewrite Hskip. cbn [negb]. unfold session, run_transaction, bind at 1.
  match goal with |- context [PushTransaction.input_transaction cenv contract act_digest decode_native checktime ?m' ?env ?ca ?ks ?k' ?r] =>
    change (PushTransaction.input_transaction cenv contract act_digest decode_native checktime m' env ca ks k' r)
      with (input_run m dl billed explicit k keys s) end.
  destruct (input_run m dl billed explicit k keys s) as [x r] eqn:Erun. unfold attempt, bind at 1.
  destruct x as [u|e]; [|unfold bind, lift; apply (fail_input_pushed m dl billed explicit k s e r)].
  destruct (finish_input_cases m r (set_db (end_transaction r) s)) as [E|(h & Hs & E)]; rewrite E;
    [apply (fail_input_pushed m dl billed explicit k s transaction_exception r)|].
  unfold ret. destruct trial eqn:Et; cbn.
  - pose proof (pushed_tried m dl billed explicit k s (trace_of (meta_id m) (Some h) (account_ram_delta (run_exec r)) None r) eq_refl Et) as Hp.
    unfold erase in *. destruct (implicit m); by destruct s.
  - pose proof (pushed_applied m dl billed explicit k s (trace_of (meta_id m) (Some h) (account_ram_delta (run_exec r)) None r) h keys r u
      eq_refl Et eq_refl Hs eq_refl Ekeys Erun) as Hp. unfold applied, erase in *. destruct (implicit m); by destruct s.
Qed.

(** ** Scheduled transactions *)

(** Neither a generated transaction nor the numbering changed. *)
Definition same_rows (d d' : chain_database) : Prop :=
  generated (auth (tables d')) = generated (auth (tables d)) /\ action_sequence d' = action_sequence d.
(** [db] at most was changed, and no such row of it. *)
Definition only_db (s s' : controller_state) : Prop := exists d, same_rows (db s) d /\ s' = set_db d s.

Lemma only_db_refl s : only_db s s.
Proof. exists (db s). split; [done|]. by destruct s. Qed.

Lemma only_db_trans s1 s2 s3 : only_db s1 s2 -> only_db s2 s3 -> only_db s1 s3.
Proof. intros (d & [Hg Ha] & ->) (d' & [Hg' Ha'] & ->). exists d'. split; [split; cbn in *; congruence|done]. Qed.

Lemma in_resource_limits_only {A} (m : exec _ A) (s : controller_state) : only_db s (snd (in_resource_limits m s)).
Proof. unfold in_resource_limits, zoom. destruct (m _) as [x l]. cbn. eexists. split; [|reflexivity]. done. Qed.

Lemma only_db_bind {A B} (m : exec controller_state A) (f : A -> exec controller_state B) s :
  only_db s (snd (m s)) -> (forall a s1, only_db s1 (snd (f a s1))) -> only_db s (snd (bind m f s)).
Proof. unfold bind. intros Hm Hf. destruct (m s) as [[a|e] s1]; [eapply only_db_trans; [exact Hm|apply Hf]|done]. Qed.

(** The pending block with a scheduled transaction. *)
Definition booked (id : Z) (h : receipt_header) (l : list action_receipt) (s : controller_state) : controller_state :=
  set_actions (block_actions s ++ l) (set_receipts (pending_trx_receipts s ++ [mk_trx_receipt h (inl id)]) s).

Lemma finish_scheduled_cases id st delta r (s : controller_state) :
  finish_scheduled id st delta r s = (Throw transaction_exception, s)
  \/ exists h, status h = st
       /\ finish_scheduled id st delta r s = (Ok (true, trace_of id (Some h) delta None r), booked id h (executed (run_exec r)) s).
Proof.
  unfold finish_scheduled, restore_point, move_actions, bind, modify, ret.
  destruct (push_receipt_cases (inl id) st (billed_cpu r) (used_net r) s) as [E|(h & Hs & E)]; rewrite E.
  - left. by rewrite restored_same.
  - right. by exists h.
Qed.

(** A trace with the receipt [h] of a run that succeeded. *)
Definition trace_shows (t : transaction_trace) (h : receipt_header) (r : run_state) : Prop :=
  except t = None /\ trace_receipt t = Some h /\ trace_actions t = action_traces (run_exec r).

(** What try_transaction may do, when its transaction is booked at the end. *)
Inductive tried (id : Z) (st : receipt_status) (run : res unit * run_state) (s : controller_state)
  : res (transaction_trace + exn * run_state) -> controller_state -> Prop :=
| tried_thrown e : tried id st run s (Throw e) s
| tried_failed e r : tried id st run s (Ok (inr (e, r))) s
| tried_booked t h u r : run = (Ok u, r) -> trace_shows t h r -> status h = st ->
    tried id st run s (Ok (inl t)) (set_db (end_transaction r) (booked id h (executed (run_exec r)) s)).

Lemma try_transaction_tried id st c m finish (s : controller_state) : skip_db_sessions cenv s = false ->
  (forall r s, finish r s = (Throw transaction_exception, s)
     \/ exists h t, status h = st /\ trace_shows t h r /\ finish r s = (Ok (true, t), booked id h (executed (run_exec r)) s)) ->
  ends (tried id st (m (begin_transaction c (db s))) s) (try_transaction cenv c m finish s).
Proof.
  intros Hskip Hfin. unfold try_transaction, bind at 1, get_state at 1. rewrite Hskip. cbn [negb]. unfold session, run_transaction, bind at 1.
  destruct (m (begin_transaction c (db s))) as [x r] eqn:Erun. unfold attempt, bind at 1.
  assert (forall e, ends (tried id st (x, r) s) (close_session true (db s)
    ((if is_bad_block e || negb (is_fc e) then lift (Throw e) else ret (false, inr (e, r))) (set_db (end_transaction r) s)))) as Hfail.
  { intros e. destruct (is_bad_block e || negb (is_fc e)); cbn; rewrite set_db_same; constructor. }
  destruct x as [u|e]; [|exact (Hfail e)].
  destruct (Hfin r (set_db (end_transaction r) s)) as [E|(h & t & Hs & Ht & E)]; rewrite E; [exact (Hfail transaction_exception)|].
  by apply (tried_booked id st (Ok u, r) s t h u r).
Qed.

Lemma hard_fail_cases id g env r c delta explicit t (s : controller_state) :
  exists s1, only_db s s1
    /\ ((exists e, hard_fail cenv id g env r c delta explicit t s = (Throw e, s1))
        \/ exists h, status h = HardFail
             /\ hard_fail cenv id g env r c delta explicit t s = (Ok (true, with_receipt h (gto_payer g, delta) t), booked id h [] s1)).
Proof.
  unfold hard_fail.
  match goal with |- context [bind ?p ?f s] => set (pay := p); set (rest := f) end.
  assert (only_db s (snd (pay s))) as Hpay.
  { subst pay. destruct explicit; [apply only_db_refl|]. apply only_db_bind; [apply in_resource_limits_only|]. intros _ s1.
    apply only_db_bind; [apply in_resource_limits_only|]. intros [[[a b] a'] b'] s2. apply only_db_refl. }
  unfold bind at 1 2. destruct (pay s) as [[c'|e] s1]; [|exists s1; by eauto]. subst rest. cbv beta. unfold bind at 1 3.
  pose proof (in_resource_limits_only (Manager.add_transaction_usage (flat (bill_to_accounts (trx_context (run_exec r)))) c' 0
    (BlockTimestamp.set_time_point (pending_block_time cenv))) s1) as Hadd.
  destruct (in_resource_limits _ s1) as [[u|e] s2]; cbn [snd] in *;
    (exists s2; split; [by eapply only_db_trans|]); [|by eauto]. unfold bind, ret.
  destruct (push_receipt_cases (inl id) HardFail c' 0 s2) as [E|(h & Hs & E)]; rewrite E; [by eauto|]. right. exists h. split; [done|].
  f_equal. unfold booked. rewrite app_nil_r. by destruct s2.
Qed.

Lemma remove_scheduled_transaction_cases id g (s : controller_state) :
  exists d, action_sequence d = action_sequence (db s)
    /\ ((exists e, remove_scheduled_transaction id g s = (Throw e, set_db d s))
        \/ exists delta, generated (auth (tables d)) = tbl_remove id (generated (auth (tables (db s))))
             /\ remove_scheduled_transaction id g s = (Ok delta, set_db d s)).
Proof.
  unfold remove_scheduled_transaction, bind.
  pose proof (in_resource_limits_only (Manager.add_pending_ram_usage (gto_payer g)
    (i64 (u64 (- (generated_billable_size + Z.of_nat (length (gto_packed_trx g))))))) s) as (d & [Hg Ha] & Hd).
  destruct (in_resource_limits _ s) as [[u|e] s1]; cbn [snd] in Hd; subst s1; [|exists d; split; by eauto].
  eexists. split; [|right; eexists; split; [|reflexivity]]; cbn; [done|by rewrite Hg].
Qed.

Lemma requiring_checks_session (s : controller_state) : in_trx_requiring_checks s = true -> skip_db_sessions cenv s = false.
Proof. intros E. unfold skip_db_sessions. rewrite E. apply andb_false_r. Qed.

Section Scheduled.
Context (id : Z) (g : generated_transaction_object) (dl billed : Z) (explicit : bool) (k k' : clock).

Definition enforced : bool :=
  if gto_sender g =? 0 then true else negb (sender_avoids_whitelist_blacklist_enforcement (chain_lists cenv) (gto_sender g)).

(** The two transactions that may run, over [d]; all checks are required. *)
Definition scheduled_run (dtrx : transaction) (s : controller_state) (d : chain_database) : res unit * run_state :=
  scheduled_transaction (environment_of cenv dtrx id (now_start k) dl 0 0 explicit enforced (set_requiring_checks true s)) g k
    (begin_transaction (new_transaction_context (now_start k) billed) d).
Definition delivery_run (start : Z) (s : controller_state) (d : chain_database) : res unit * run_state :=
  let e := onerror_transaction cenv pack_onerror g in
  onerror_run (environment_of cenv e (digest_number (Transaction.id e)) start dl 3000 0 explicit enforced (set_requiring_checks true s)) g k'
    (begin_transaction (new_transaction_context start billed) d).

Inductive ran (s : controller_state) (d : chain_database) (r : run_state) : receipt_status -> Prop :=
| ran_itself dtrx u : unpack_trx (gto_packed_trx g) = Ok dtrx -> scheduled_run dtrx s d = (Ok u, r) -> ran s d r Executed
| ran_onerror start u : gto_sender g <> 0 -> delivery_run start s d = (Ok u, r) -> ran s d r SoftFail.

(** How the transaction ends, within its session. *)
Inductive finishing (s : controller_state) : res (bool * transaction_trace) -> controller_state -> Prop :=
| finishing_thrown e d : finishing s (Throw e) (set_db d s)
| finishing_later t e d : except t = Some e -> scheduled_failure_is_subjective e = true -> trace_receipt t = None ->
    finishing s (Ok (false, t)) (set_db d s)
| finishing_ran t h r : ran s (db s) r (status h) -> trace_shows t h r ->
    finishing s (Ok (true, t)) (set_db (end_transaction r) (booked id h (executed (run_exec r)) s))
| finishing_billed t e h d : same_rows (db s) d -> except t = Some e -> trace_receipt t = Some h -> status h = HardFail ->
    finishing s (Ok (true, t)) (set_db d (booked id h [] s)).

Lemma finishing_thrown_here s e : finishing s (Throw e) s.
Proof. pose proof (finishing_thrown s e (db s)) as H. by destruct s. Qed.

Lemma finishing_requiring_checks b s o s' :
  finishing (set_requiring_checks b s) o s' -> finishing s o (set_requiring_checks (in_trx_requiring_checks s) s').
Proof.
  destruct 1 as [e d|t e d He Hs Hr|t h r Hr Ht|t e h d Hd He Hr Hh].
  - pose proof (finishing_thrown s e d) as X. by destruct s.
  - pose proof (finishing_later s t e d He Hs Hr) as X. by destruct s.
  - assert (ran s (db s) r (status h)) as Hr' by (destruct Hr as [dtrx u Hu Hrun|start u Hn Hrun]; [by eapply ran_itself|by eapply ran_onerror]).
    pose proof (finishing_ran s t h r Hr' Ht) as X. by destruct s.
  - pose proof (finishing_billed s t e h d Hd He Hr Hh) as X. by destruct s.
Qed.

(** What apply_onerror may do. *)
Inductive delivered (start : Z) (s : controller_state) : res (transaction_trace + transaction_trace * exn * Z) -> controller_state -> Prop :=
| delivered_thrown e : delivered start s (Throw e) s
| delivered_failed t e c : except t = Some e -> trace_receipt t = None -> delivered start s (Ok (inr (t, e, c))) s
| delivered_booked t h u r : delivery_run start s (db s) = (Ok u, r) -> trace_shows t h r -> status h = SoftFail ->
    delivered start s (Ok (inl t)) (set_db (end_transaction r) (booked id h (executed (run_exec r)) s)).

Lemma apply_onerror_delivered start (s : controller_state) : in_trx_requiring_checks s = true ->
  ends (delivered start s)
    (apply_onerror cenv contract act_digest decode_native checktime pack_onerror id g dl start billed explicit enforced k' s).
Proof.
  intros Hflag. unfold apply_onerror, bind at 1, get_state at 1. unfold bind at 1.
  match goal with |- context [try_transaction cenv ?c ?m ?f s] => pose proof (try_transaction_tried id SoftFail c m f s
    (requiring_checks_session s Hflag)) as Htry; destruct (try_transaction cenv c m f s) as [o s'] end.
  unfold ends in Htry at 1. cbn [fst snd] in Htry. destruct Htry as [e|e r|t h u r Hrun Ht Hh]; [|apply delivered_thrown|by apply delivered_failed|].
  - intros r s1. destruct (finish_scheduled_cases id SoftFail None r s1) as [E|(h & Hh & E)]; unfold bind; rewrite E; [by left|right].
    eexists h, _. split; [done|]. split; [|reflexivity]. by repeat split.
  - apply (delivered_booked start s t h u r); [|done|done]. rewrite <- Hrun. unfold delivery_run. by destruct s; cbn in Hflag; subst.
Qed.

Lemma fail_scheduled_finishing env e r delta (s : controller_state) : in_trx_requiring_checks s = true ->
  ends (finishing s)
    (fail_scheduled cenv contract act_digest decode_native checktime pack_onerror id g env e r dl billed delta explicit enforced k k' s).
Proof.
  intros Hflag. unfold fail_scheduled. set (t0 := trace_of id None (account_ram_delta (run_exec r)) (Some e) r).
  assert (forall (t : transaction_trace) e' c, except t = Some e' -> trace_receipt t = None -> ends (finishing s)
    ((if negb (if explicit then failure_is_subjective e' else scheduled_failure_is_subjective e')
      then hard_fail cenv id g env r c delta explicit t else ret (false, t)) s)) as Hend.
  { intros t e' c He' Hr'. destruct (negb _) eqn:Es.
    - destruct (hard_fail_cases id g env r c delta explicit t s) as (s1 & (d & Hd & ->) & [[e1 E]|(h & Hh & E)]); rewrite E.
      + apply finishing_thrown.
      + by apply (finishing_billed s (with_receipt h (gto_payer g, delta) t) e' h d).
    - pose proof (finishing_later s t e' (db s) He') as X. destruct s. apply X; [|done]. apply negb_false_iff in Es. destruct explicit; [|done].
      unfold scheduled_failure_is_subjective. rewrite Es. apply orb_true_r. }
  destruct (negb (gto_sender g =? 0) && negb (failure_is_subjective e)) eqn:Esend; [|exact (Hend t0 e _ eq_refl eq_refl)].
  apply andb_true_iff in Esend as [Hn%negb_true_iff%Z.eqb_neq _]. set (start := pseudo_start _).
  pose proof (apply_onerror_delivered start s Hflag) as Hdel. unfold bind at 1. unfold bind at 1.
  destruct (apply_onerror _ _ _ _ _ _ _ _ _ _ _ _ _ _ s) as [o s']. unfold ends in Hdel at 1. cbn [fst snd] in Hdel.
  destruct Hdel as [e1|t e1 c He Hr|t h u r1 Hrun Ht Hh]; cbn [ret].
  - apply finishing_thrown_here.
  - exact (Hend (with_failed t0 t) e1 c He Hr).
  - apply (finishing_ran s (with_delta (gto_payer g, delta) (with_failed t0 t)) h r1); [|exact Ht]. rewrite Hh. by apply (ran_onerror s (db s) r1 start u).
Qed.

(** The row of the transaction is gone. *)
Definition freed (d d' : chain_database) : Prop :=
  generated (auth (tables d')) = tbl_remove id (generated (auth (tables d))) /\ action_sequence d' = action_sequence d.

(** What push_scheduled_transaction may do with [g]. *)
Inductive retired (s : controller_state) : res transaction_trace -> controller_state -> Prop :=
| retired_thrown e : retired s (Throw e) s
| retired_later t e : except t = Some e -> scheduled_failure_is_subjective e = true -> trace_receipt t = None -> retired s (Ok t) s
| retired_expired t h d : gto_expiration g < pending_block_time cenv -> freed (db s) d ->
    except t = None -> trace_receipt t = Some h -> status h = Expired -> retired s (Ok t) (set_db d (booked id h [] s))
| retired_billed t e h d : pending_block_time cenv <= gto_expiration g -> freed (db s) d ->
    except t = Some e -> trace_receipt t = Some h -> status h = HardFail -> retired s (Ok t) (set_db d (booked id h [] s))
| retired_ran t h r d : gto_delay_until g <= pending_block_time cenv <= gto_expiration g -> freed (db s) d ->
    ran s d r (status h) -> trace_shows t h r ->
    retired s (Ok t) (set_db (end_transaction r) (booked id h (executed (run_exec r)) s)).

(** The end of the session. *)
Lemma finishing_retired (s : controller_state) d o s' :
  gto_delay_until g <= pending_block_time cenv <= gto_expiration g -> freed (db s) d -> finishing (set_db d s) o s' ->
  ends (retired s) (match close_session true (db s) (o, s') with (Throw e, s') => (Throw (fc_rethrow e), s') | x => x end).
Proof.
  intros Hdue Hd. destruct 1 as [e d'|t e d' He Hs Hr|t h r Hr Ht|t e h d' [Hg Ha] He Hr Hh]; cbn.
  - pose proof (retired_thrown s (fc_rethrow e)) as X. by destruct s.
  - pose proof (retired_later s t e He Hs Hr) as X. by destruct s.
  - assert (ran s d r (status h)) as Hr' by (destruct Hr as [dtrx u Hu Hrun|start u Hn Hrun]; [by eapply ran_itself|by eapply ran_onerror]).
    exact (retired_ran s t h r d Hdue Hd Hr' Ht).
  - assert (freed (db s) d') as Hd' by (destruct Hd; split; cbn in *; congruence).
    exact (retired_billed s t e h d' (proj2 Hdue) Hd' He Hr Hh).
Qed.

Lemma push_generated_retired (s : controller_state) : skip_db_sessions cenv s = false ->
  ends (retired s) (push_generated id g dl billed explicit k k' s).
Proof.
  intros Hskip. unfold PushTransaction.push_generated, capture_and_rethrow, bind at 1, get_state at 1. rewrite Hskip. cbn [negb].
  unfold session, bind at 1. pose proof (retired_thrown s) as Hthrown.
  destruct (remove_scheduled_transaction_cases id g s) as (d & Ha & [[e E]|(delta & Hg & E)]); rewrite E;
    [specialize (Hthrown (fc_rethrow e)); by destruct s|].
  assert (freed (db s) d) as Hd by done.
  unfold bind at 1, lift at 1. destruct (gto_delay_until g <=? pending_block_time cenv) eqn:Edue; cbn [eos_assert];
    [|specialize (Hthrown (fc_rethrow transaction_exception)); by destruct s].
  unfold bind at 1, lift at 1. destruct (unpack_trx (gto_packed_trx g)) as [dtrx|e] eqn:Eu; [|specialize (Hthrown (fc_rethrow e)); by destruct s].
  destruct (gto_expiration g <? pending_block_time cenv) eqn:Eexp.
  - unfold bind at 1. destruct (push_receipt_cases (inl id) Expired billed 0 (set_db d s)) as [E1|(h & Hh & E1)]; rewrite E1.
    + specialize (Hthrown (fc_rethrow transaction_exception)); by destruct s.
    + set (t := mk_trx_trace id (Some h) [] 0 (Some (gto_payer g, delta)) None None).
      pose proof (retired_expired s t h d ltac:(lia) Hd eq_refl eq_refl Hh) as X. unfold booked in X. rewrite app_nil_r in X. by destruct s.
  - set (s1 := set_db d s). unfold requiring_checks.
    match goal with |- context [bind get_state ?f ?s2] => assert (ends (finishing s2) (bind get_state f s2)) as Hfin;
      [|destruct (bind get_state f s2) as [o s']; apply finishing_requiring_checks in Hfin] end.
    + unfold bind at 1, get_state at 1. fold enforced. unfold bind at 1.
      match goal with |- context [try_transaction cenv ?c ?m ?f ?s2] => pose proof (try_transaction_tried id Executed c m f s2
        (requiring_checks_session s2 eq_refl)) as Htry; destruct (try_transaction cenv c m f s2) as [o s'] end.
      unfold ends in Htry at 1. cbn [fst snd] in Htry. destruct Htry as [e|e r|t h u r Hrun Ht Hh].
      * intros r s2. destruct (finish_scheduled_cases id Executed (Some (gto_payer g, delta)) r s2) as [E2|(h & Hh & E2)]; [by left|right].
        eexists h, _. split; [done|]. split; [|exact E2]. by repeat split.
      * apply finishing_thrown_here.
      * by apply fail_scheduled_finishing.
      * apply (finishing_ran (set_requiring_checks true s1) t h r); [|done]. rewrite Hh. by apply (ran_itself _ _ _ dtrx u).
    + apply (finishing_retired s d o _ ltac:(lia) Hd Hfin).
Qed.
End Scheduled.

Lemma push_scheduled_retired id dl billed explicit k k' (s : controller_state) : skip_db_sessions cenv s = false ->
  ends (fun o s' => match tbl_find id (generated (auth (tables (db s)))) with
                    | Some g => retired id g dl billed explicit k k' s o s'
                    | None => o = Throw unknown_transaction_exception /\ s' = s
                    end) (push_scheduled_transaction id dl billed explicit k k' s).
Proof.
  intros Hskip. unfold PushTransaction.push_scheduled_transaction, bind, get_state.
  destruct (tbl_find id (generated (auth (tables (db s))))) as [g|] eqn:Ef; unfold ends.
  - by apply push_generated_retired.
  - done.
Qed.

(** ** The pending block *)

(** A call that pushes a transaction. *)
Inductive push_call :=
| Push (m : transaction_metadata) (dl billed : Z) (explicit : bool) (k : clock)
| PushScheduled (id dl billed : Z) (explicit : bool) (k k' : clock).

Definition push_one (c : push_call) : exec controller_state transaction_trace :=
  match c with
  | Push m dl billed explicit k => push_transaction m dl billed explicit k
  | PushScheduled id dl billed explicit k k' => push_scheduled_transaction id dl billed explicit k k'
  end.

(** One call after the other; the caller goes on after an exception. *)
Fixpoint push_all (l : list push_call) (s : controller_state) : list (res transaction_trace) * controller_state :=
  match l with
  | [] => ([], s)
  | c :: l => let '(o, s1) := push_one c s in let '(os, s2) := push_all l s1 in (o :: os, s2)
  end.

(** The receipt a call leaves: that of its trace, but a transaction that is
    implicit or only tried out leaves none. *)
Definition receipt_left (c : push_call) (o : res transaction_trace) : option transaction_receipt :=
  match c, o with
  | Push m _ _ _ _, Ok t => if implicit m || trial then None else (fun h => mk_trx_receipt h (inr m)) <$> trace_receipt t
  | PushScheduled id _ _ _ _ _, Ok t => (fun h => mk_trx_receipt h (inl id)) <$> trace_receipt t
  | _, Throw _ => None
  end.
Definition receipts_left (l : list push_call) (os : list (res transaction_trace)) : list transaction_receipt :=
  omap (fun x => receipt_left (fst x) (snd x)) (zip l os).
Definition input_of (r : transaction_receipt) : option transaction_metadata :=
  match receipt_trx r with inr m => Some m | inl _ => None end.

(** A trace has fewer than [2^32] actions: their ordinals do not wrap. *)
Definition short_trace (o : res transaction_trace) : Prop :=
  match o with Ok t => Z.of_nat (length (trace_actions t)) < 2 ^ 32 | Throw _ => True end.

(** [s'] has the receipts [rs], and the metadata of its input transactions, in
    addition to those of [s]. *)
Record extends (s : controller_state) (rs : list transaction_receipt) (s' : controller_state) : Prop := {
  extends_receipts : pending_trx_receipts s' = pending_trx_receipts s ++ rs;
  extends_metas : pending_trx_metas s' = pending_trx_metas s ++ omap input_of rs;
  extends_flag : in_trx_requiring_checks s' = in_trx_requiring_checks s
}.
(** The actions added are numbered. *)
Definition counts (s s' : controller_state) : Prop :=
  exists l, block_actions s' = block_actions s ++ l
    /\ (is_uint 64 (action_sequence (db s)) -> numbered (action_sequence (db s)) l (action_sequence (db s'))).

Lemma counts_same s s' : block_actions s' = block_actions s -> action_sequence (db s') = action_sequence (db s) -> counts s s'.
Proof. intros Ea En. exists []. rewrite app_nil_r, En. split; [done|]. apply numbered_nil. Qed.

Lemma pushed_extends m dl billed explicit k (s : controller_state) o s' : pushed m dl billed explicit k s o s' ->
  extends s (option_list (receipt_left (Push m dl billed explicit k) o)) s'.
Proof.
  destruct 1 as [e|t e He Hf Hb Hr|t He Ht|t h keys r u He Ht Hr Hh Ha Hk Hrun]; cbn [receipt_left].
  - by split; rewrite ?app_nil_r.
  - rewrite Hr. replace (if implicit m || trial then None else _) with (@None transaction_receipt) by by destruct (_ || _).
    destruct (failure_is_subjective e); by split; cbn; rewrite ?app_nil_r.
  - rewrite Ht, orb_true_r. unfold erase. destruct (implicit m); by split; cbn; rewrite ?app_nil_r.
  - rewrite Ht, Hr, orb_false_r. unfold applied, erase. destruct (implicit m); by split; cbn; rewrite ?app_nil_r.
Qed.

Lemma pushed_counts m dl billed explicit k (s : controller_state) o s' : pushed m dl billed explicit k s o s' -> short_trace o -> counts s s'.
Proof.
  destruct 1 as [e|t e He Hf Hb Hr|t He Ht|t h keys r u He Ht Hr Hh Ha Hk Hrun]; intros Hs; cbn [short_trace] in Hs.
  - by apply counts_same.
  - destruct (failure_is_subjective e); by apply counts_same.
  - unfold erase. destruct (implicit m); by apply counts_same.
  - exists (executed (run_exec r)). split; [unfold applied, erase; by destruct (implicit m)|]. intros Hg. rewrite Ha in Hs.
    exact (input_numbered _ _ _ _ _ _ _ _ _ Hg Hrun Hs).
Qed.

Lemma retired_extends id g dl billed explicit k k' (s : controller_state) o s' : retired id g dl billed explicit k k' s o s' ->
  extends s (option_list (receipt_left (PushScheduled id dl billed explicit k k') o)) s'.
Proof.
  destruct 1 as [e|t e He Hs Hr|t h d He Hd Hx Hr Hh|t e h d He Hd Hx Hr Hh|t h r d Hdue Hd Hr (Hx & Ht & Ha)]; cbn [receipt_left];
    rewrite ?Hr, ?Ht; by split; cbn; rewrite ?app_nil_r.
Qed.

Lemma retired_counts id g dl billed explicit k k' (s : controller_state) o s' :
  retired id g dl billed explicit k k' s o s' -> short_trace o -> counts s s'.
Proof.
  destruct 1 as [e|t e He Hs Hr|t h d He [_ Hd] Hx Hr Hh|t e h d He [_ Hd] Hx Hr Hh|t h r d Hdue [_ Hd] Hr (Hx & Ht & Ha)];
    intros Hsh; cbn [short_trace] in Hsh.
  1,2: by apply counts_same.
  1,2: apply counts_same; [cbn; by rewrite app_nil_r|exact Hd].
  exists (executed (run_exec r)). split; [done|]. rewrite Ha in Hsh. rewrite <- Hd. intros Hg.
  destruct Hr as [dtrx u Hu Hrun|start u Hn Hrun]; [exact (scheduled_numbered _ _ _ _ _ _ _ Hg Hrun Hsh)|exact (onerror_numbered _ _ _ _ _ _ _ Hg Hrun Hsh)].
Qed.

Lemma push_one_extends c (s : controller_state) o s' : skip_db_sessions cenv s = false -> push_one c s = (o, s') ->
  extends s (option_list (receipt_left c o)) s' /\ (short_trace o -> counts s s').
Proof.
  intros Hskip Hp. destruct c as [m dl billed explicit k|id dl billed explicit k k']; cbn [push_one] in Hp.
  - pose proof (push_transaction_pushed m dl billed explicit k s Hskip) as X. rewrite Hp in X.
    split; [by eapply pushed_extends|by eapply pushed_counts].
  - pose proof (push_scheduled_retired id dl billed explicit k k' s Hskip) as X. rewrite Hp in X. unfold ends in X. cbn [fst snd] in X.
    destruct (tbl_find _ _) as [g|]; [split; [by eapply retired_extends|by eapply retired_counts]|].
    destruct X as [-> ->]. split; [by split; rewrite ?app_nil_r|]. intros _. by apply counts_same.
Qed.

Lemma extends_refl (s : controller_state) : extends s [] s.
Proof. by split; rewrite ?app_nil_r. Qed.

Lemma extends_trans (s1 s2 s3 : controller_state) l1 l2 : extends s1 l1 s2 -> extends s2 l2 s3 -> extends s1 (l1 ++ l2) s3.
Proof.
  intros [Er Em Ef] [Er' Em' Ef']. split; [by rewrite Er', Er, <- app_assoc| |congruence].
  rewrite Em', Em, <- app_assoc. f_equal. clear. induction l1 as [|r l1 IH]; cbn; [done|]. destruct (input_of r); cbn; by rewrite IH.
Qed.

Lemma extends_session (s : controller_state) rs s' : extends s rs s' -> skip_db_sessions cenv s' = skip_db_sessions cenv s.
Proof. intros [_ _ Hf]. unfold skip_db_sessions. by rewrite Hf. Qed.

(** C10: push_transaction is atomic, when database sessions are not skipped (as they
    are in the replay of irreversible blocks).  It throws, and the controller is as before;
    or the transaction fails with an fc exception in its trace and no receipt, and
    at most it is taken out of unapplied_transactions, which a subjective failure
    does not even do; or it is only tried out (a producer that is not in
    speculative mode), and the same is all that changes; or it is applied: the
    run of its actions over the old database succeeded and gives the new one, and
    its receipt, with the status executed, or delayed for a transaction with a
    delay, its metadata and the receipts of its actions are at the end of the
    pending block (of an implicit transaction only the receipts of its actions). *)
Theorem push_transaction_atomic m dl billed explicit k (s s' : controller_state) o : skip_db_sessions cenv s = false ->
  push_transaction m dl billed explicit k s = (o, s') -> pushed m dl billed explicit k s o s'.
Proof. intros Hskip Hp. pose proof (push_transaction_pushed m dl billed explicit k s Hskip) as X. by rewrite Hp in X. Qed.


(** C13: whatever transactions are pushed, one after the other, with database
    sessions, those included that fail or throw: the receipts of the pending block are, in order, those of the
    traces that were returned, but for transactions that are implicit or only tried
    out; and its metadata are those of the input transactions among them. *)
Theorem pending_receipts_are_those_of_traces l (s s' : controller_state) os : skip_db_sessions cenv s = false ->
  push_all l s = (os, s') -> extends s (receipts_left l os) s'.
Proof.
  revert s os. induction l as [|c l IH]; intros s os Hskip Hp; cbn in Hp; [injection Hp as <- <-; apply extends_refl|].
  destruct (push_one c s) as [o s1] eqn:E1. destruct (push_all l s1) as [os2 s2] eqn:E2. injection Hp as <- <-.
  destruct (push_one_extends c s o s1 Hskip E1) as [Hx _].
  assert (receipts_left (c :: l) (o :: os2) = option_list (receipt_left c o) ++ receipts_left l os2) as ->
    by (unfold receipts_left; cbn; by destruct (receipt_left c o)).
  eapply extends_trans; [exact Hx|]. apply IH; [by rewrite (extends_session _ _ _ Hx)|done].
Qed.

(** whatever transactions are pushed, the actions of the pending block are numbered
    without a gap: from the number before the block, each receipt has the next global
    sequence number, and the database has the last one; a transaction that fails
    uses none up. *)
Theorem block_actions_numbered g0 l (s s' : controller_state) os : skip_db_sessions cenv s = false ->
  push_all l s = (os, s') -> Forall short_trace os ->
  numbered g0 (block_actions s) (action_sequence (db s)) -> numbered g0 (block_actions s') (action_sequence (db s')).
Proof.
  revert s os. induction l as [|c l IH]; intros s os Hskip Hp Hs Hn; cbn in Hp; [by injection Hp as <- <-|].
  destruct (push_one c s) as [o s1] eqn:E1. destruct (push_all l s1) as [os2 s2] eqn:E2. injection Hp as <- <-.
  inversion_clear Hs as [|? ? Ho Hos].
  destruct (push_one_extends c s o s1 Hskip E1) as [Hx (l1 & Ea & Hc)]; [done|].
  apply (IH s1 os2); [by rewrite (extends_session _ _ _ Hx)|done|done|].
  rewrite Ea. eapply numbered_app; [exact Hn|]. apply Hc. destruct Hn as [_ ->]. apply wrap_range. lia.
Qed.

Lemma apply_receipt_books rk (s s' : controller_state) u : skip_db_sessions cenv s = false -> apply_receipt rk s = (Ok u, s') ->
  extends s [fst rk] s'.
Proof.
  destruct rk as [rcpt [k k']]. intros Hskip Hrun. unfold PushTransaction.apply_receipt, bind at 1, get_state at 1 in Hrun.
  set (c := match receipt_trx rcpt with
            | inr m => Push m time_point_maximum (cpu_usage_us (receipt rcpt)) true k
            | inl id => PushScheduled id time_point_maximum (cpu_usage_us (receipt rcpt)) true k k' end).
  apply bind_ok in Hrun as (t & s1 & Hp & Hrun).
  assert (push_one c s = (Ok t, s1)) as Hc by (subst c; by destruct (receipt_trx rcpt)). clear Hp.
  apply bind_ok in Hrun as ([] & s2 & He & Hrun).
  assert (s2 = s1) as -> by (destruct (except t); [destruct (negb _)|]; by inversion He).
  unfold bind at 1, get_state at 1 in Hrun. exec_step Hrun. exec_step Hrun.
  destruct (push_one_extends c s (Ok t) s1 Hskip Hc) as [Hx _]. pose proof (extends_receipts _ _ _ Hx) as Er. rewrite Er in *. rewrite length_app in C0. apply Z.eqb_eq in C0.
  destruct (receipt_left c (Ok t)) as [r|] eqn:El; cbn in C0, Er, Hrun; [|lia].
  rewrite last_snoc in Hrun. exec_step Hrun. injection Hrun as _ <-. cbn [fst]. enough (r = rcpt) as <- by exact Hx.
  apply bool_decide_eq_true_1 in C1. destruct r as [h x], rcpt as [h' x']. cbn in C1, El. subst h'. f_equal.
  subst c. cbn in El. destruct x' as [id|m]; cbn [receipt_left] in El; [|destruct (implicit m || trial); [done|]];
    destruct (trace_receipt t); by inversion El.
Qed.

(** C12: a block whose transactions were all applied, with database sessions, leaves exactly its receipts, in
    their order, in the pending block, and their metadata: the header of each,
    its status and what it billed, was reproduced. *)
Theorem applied_block_has_its_receipts l (s s' : controller_state) u : skip_db_sessions cenv s = false ->
  apply_transactions l s = (Ok u, s') -> extends s (fst <$> l) s'.
Proof.
  unfold PushTransaction.apply_transactions. revert s. induction l as [|rk l IH]; intros s Hskip Hrun; cbn in Hrun;
    [injection Hrun as _ <-; apply extends_refl|].
  apply bind_ok in Hrun as (x & s1 & Hrk & Hrun). pose proof (apply_receipt_books rk s s1 x Hskip Hrk) as Hx.
  apply (extends_trans s s1 s' [fst rk]); [exact Hx|]. apply IH; [by rewrite (extends_session _ _ _ Hx)|done].
Qed.
End Push.
