(* ===== verification/PushExamples.v ===== *)
(** A concrete pending block: alice says hello, her contract schedules a deferred
    transaction, and later blocks retire it in each of the ways there are; the
    theorems of PushTheorems.v at these runs. *)

From Stdlib Require Import ZArith Lia.
From stdpp Require Import base gmap strings numbers sorting list.
From S2P Require Import Prelude Chainbase Name Merkle Authority AuthorityChecker ResourceLimits BlockTimestamp BlockHeader AuthorizationManager IteratorCache ContractTables ContractInvariant ContractTheorems ContractExamples EosioContract NativeActions NativeExamples ChainConfig AccessLists Transaction TransactionContext TransactionBilling TransactionExamples FeatureActivation ActionExecution ActionFrames ActionTheorems ActionExamples PushTransaction PushTheorems.

#[local] Open Scope Z_scope.
#[local] Open Scope chain_scope.
Import Authorization Authorization.Examples.

#[local] Existing Instance Name.boost_trim_reference.
#[local] Existing Instance integer_floats.
#[local] Existing Instance toy_keys.
#[local] Existing Instance toy_hash.

(** A block at [time]. *)
Definition block_of (st : Features.block_status) (time : Z) : @chain_environment nat :=
  mk_chain_environment default_configuration time true ∅ (mk_access_lists [] [] [] [] [] []) 7 digest_zero false [] true true true true true true
    st true false false false 5000 None None (fun _ _ _ => noop_checktime).
Definition block_at : Z -> @chain_environment nat := block_of Features.incomplete.

Abbreviation toy_controller := (@controller_state nat (gmap Z table_id_object) (gmap Z row)
  (gmap (bool * Z) Manager.resource_limits_object) (gmap Z Manager.resource_usage_object)
  (gmap Z (permission_object nat)) (gmap Z Z) (gmap (Z * Z * Z) Z) (gmap Z generated_transaction_object)
  (gmap Z account_object) (gmap Z account_metadata_object) (gmap (Z * Z * Z) code_object) (gmap Z Z) (gmap Z Z) (gmap Z digest_type)).

Definition genesis : toy_controller :=
  mk_controller (mk_chain_database with_alice ∅ 100 ∅ {[0 := digest_zero]}) [] [] [] {[77]} false.

(** Signed by the active key of alice, or by another one. *)
Definition signed_hello (key : nat) : @transaction_metadata nat := mk_trx_metadata 4242 77 hello_trx 128 100 false (Ok (50, [key])).
Definition in_a_ms : clock := mk_clock 1000000 false 1000100 1000900 1001000.
Definition toy_pack (sender_id : Z) (sent : list Z) : list Z := [].

Definition say_hello (key : nat) := Push (signed_hello key) 1150000 0 false in_a_ms.

(** One block after [l] calls; then its successors begin with no transactions. *)
Definition pushes (time : Z) (code : Z -> Z -> Z -> _) (l : list push_call) (s : toy_controller) :=
  push_all (block_at time) code toy_digest no_native in_time toy_pack l s.
Definition start_time0 : Z := 1577836800000000.
Definition hellos : list (@push_call nat) := [say_hello 2; say_hello 3; say_hello 3].
Definition said_hello : toy_controller := snd (pushes start_time0 alice_code hellos genesis).

Definition later_id : Z := default 0 (head (fst <$> map_to_list (generated (auth (tables (db said_hello)))))).
Definition push_later : @push_call nat := PushScheduled later_id 1150000 0 false in_a_ms in_a_ms.

(** Code that fails with [e] when it is told bye, or on anything. *)
Definition failing_code (e : exn) (always : bool) (_ _ _ : Z) : @program _ (gmap Z table_id_object) (gmap Z row)
  (gmap (bool * Z) Manager.resource_limits_object) (gmap Z Manager.resource_usage_object)
  (gmap Z (permission_object nat)) (gmap Z Z) (gmap (Z * Z * Z) Z) (gmap Z generated_transaction_object)
  (gmap Z account_object) (gmap Z account_metadata_object) (gmap (Z * Z * Z) code_object) (gmap Z Z) :=
  Call (RequireRecipient eosio) (fun s => if always || (act_name (act (current s)) =? bye) then Trap e else Exit).

Definition outcome (o : res transaction_trace) : option (option receipt_status * option exn) :=
  match o with Ok t => Some (status <$> trace_receipt t, except t) | Throw _ => None end.

(** The five ends of the deferred transaction, and the block it is not due in. *)
Definition later_at (time : Z) (code : Z -> Z -> Z -> _) := outcome <$> fst (pushes time code [push_later] said_hello).

Example deferred_ends :
  later_at start_time0 alice_code = [None]
  /\ later_at (start_time0 + 10000000) alice_code = [Some (Some Executed, None)]
  /\ later_at (start_time0 + 611000000) alice_code = [Some (Some Expired, None)]
  /\ later_at (start_time0 + 10000000) (failing_code assert_exception false) = [Some (Some SoftFail, None)]
  /\ later_at (start_time0 + 10000000) (failing_code assert_exception true) = [Some (Some HardFail, Some assert_exception)]
  /\ later_at (start_time0 + 10000000) (failing_code deadline_exception true) = [Some (None, Some deadline_exception)].
Proof. split_and!; vm_refl. Qed.

Abbreviation pushing time code := (push_transaction (block_at time) code toy_digest no_native in_time (signed_hello 3) 1150000 0 false in_a_ms).

(** The signed transaction is executed. *)
Lemma push_transaction_atomic_witness :
  outcome (fst (pushing start_time0 alice_code genesis)) = Some (Some Executed, None)
  /\ pushed (block_at start_time0) alice_code toy_digest no_native in_time (signed_hello 3) 1150000 0 false in_a_ms genesis
       (fst (pushing start_time0 alice_code genesis)) (snd (pushing start_time0 alice_code genesis)).
Proof.
  split; [vm_refl|].
  apply (push_transaction_atomic (block_at start_time0) alice_code toy_digest no_native in_time (signed_hello 3) 1150000 0 false in_a_ms genesis).
  - reflexivity.
  - apply surjective_pairing.
Defined.

Abbreviation retiring code := (push_scheduled_transaction (block_at (start_time0 + 10000000)) code toy_digest no_native in_time toy_pack
  later_id 1150000 0 false in_a_ms in_a_ms said_hello).


(** A wrong signature, hello, hello again: one receipt. *)
Lemma pending_receipts_are_those_of_traces_witness :
  length (receipts_left (block_at start_time0) hellos (fst (pushes start_time0 alice_code hellos genesis))) = 1%nat
  /\ extends genesis (receipts_left (block_at start_time0) hellos (fst (pushes start_time0 alice_code hellos genesis))) said_hello.
Proof.
  split; [vm_refl|].
  apply (pending_receipts_are_those_of_traces (block_at start_time0) alice_code toy_digest no_native in_time toy_pack hellos genesis said_hello
    (fst (pushes start_time0 alice_code hellos genesis))).
  - reflexivity.
  - apply surjective_pairing.
Defined.

#[local] Instance short_trace_dec (o : res transaction_trace) : Decision (short_trace o).
Proof. destruct o; cbn; apply _. Defined.

(** Its four actions have the numbers from 101 to 104. *)
Lemma block_actions_numbered_witness :
  rc_global_sequence <$> block_actions said_hello = [101; 102; 103; 104]
  /\ numbered 100 (block_actions said_hello) (action_sequence (db said_hello)).
Proof.
  split; [vm_refl|].
  apply (block_actions_numbered (block_at start_time0) alice_code toy_digest no_native in_time toy_pack 100 hellos genesis said_hello
    (fst (pushes start_time0 alice_code hellos genesis))).
  - reflexivity.
  - apply surjective_pairing.
  - apply (bool_decide_unpack _). by vm_compute.
  - by split.
Defined.

(** Another node applies the block with this transaction. *)
Definition block_receipts := (fun r => (r, (in_a_ms, in_a_ms))) <$> pending_trx_receipts said_hello.
Abbreviation validating := (apply_transactions (block_of Features.complete start_time0) alice_code toy_digest no_native in_time toy_pack
  block_receipts genesis).

Lemma applied_block_has_its_receipts_witness :
  fst validating = Ok tt /\ extends genesis (fst <$> block_receipts) (snd validating).
Proof.
  assert (fst validating = Ok tt) as E by vm_refl. split; [exact E|].
  apply (applied_block_has_its_receipts (block_of Features.complete start_time0) alice_code toy_digest no_native in_time toy_pack
    block_receipts genesis (snd validating) tt).
  - reflexivity.
  - rewrite <- E. apply surjective_pairing.
Defined.
