(* ===== verification/ProposedSchedule.v ===== *)
(** Producer schedules from the proposal to the block that carries them:
    controller::set_proposed_producers with the intrinsic in front of it
    (wasm_interface.cpp), the promotion of the proposed schedule in start_block,
    and the accessors of the three schedules (controller.cpp).

    A schedule is proposed (in the global_property_object), then pending (in the
    header of a block, and in the state of that block and its successors), then
    active.  BlockHeaderState.v has the step from pending to active. *)

From Stdlib Require Import ZArith Lia.
From stdpp Require Import base gmap numbers list.
From S2P Require Import Prelude Merkle BlockHeader BlockHeaderState.

#[local] Open Scope Z_scope.
#[local] Open Scope chain_scope.

Section Schedules.
Context {fc : Fc}.

Abbreviation schedule := (producer_schedule_type public_key).

(** The members of global_property_object that hold the proposal. *)
Record proposal := mk_proposal { proposed_schedule_block_num : option Z; proposed_schedule : schedule }.

(** The members of building_block, assembled_block and completed_block the
    schedules are read from. *)
Inductive block_stage :=
| BuildingBlock (pbhs : pending_block_header_state) (_new_pending_producer_schedule : option schedule)
| AssembledBlock (pbhs : pending_block_header_state) (new_producers_of_unsigned_block : option schedule)
| CompletedBlock (block_state : block_header_state).

(** ** Accessors *)

Definition active_producers (head : block_header_state) (pending : option block_stage) : schedule :=
  match pending with
  | None => active_schedule (common head)
  | Some (CompletedBlock s) => active_schedule (common s)
  | Some (BuildingBlock p _) | Some (AssembledBlock p _) => active_schedule (p_common p)
  end.

(** An assembled block without new producers falls through to
    get<building_block>, which throws. *)
Definition pending_producers (head : block_header_state) (pending : option block_stage) : res schedule :=
  match pending with
  | None => Ok (si_schedule (pending_schedule head))
  | Some (CompletedBlock s) => Ok (si_schedule (pending_schedule s))
  | Some (AssembledBlock _ (Some np)) => Ok np
  | Some (AssembledBlock _ None) => Throw assert_exception
  | Some (BuildingBlock _ (Some np)) => Ok np
  | Some (BuildingBlock p None) => Ok (si_schedule (prev_pending_schedule p))
  end.

Definition proposed_producers (g : proposal) : option schedule :=
  match proposed_schedule_block_num g with Some _ => Some (proposed_schedule g) | None => None end.

(** ** Proposing *)

(** The schedule a proposal has to differ from, and which it follows. *)
Definition schedule_to_follow (head : block_header_state) (pending : option block_stage) : res schedule :=
  let! pending_sch := pending_producers head pending in
  Ok (if bool_decide (producers pending_sch = []) then active_producers head pending else pending_sch).

Definition already_proposed (cur_block_num : Z) (ps : list (producer_key public_key)) (g : proposal) : bool :=
  match proposed_schedule_block_num g with
  | Some n => negb (n =? cur_block_num) || bool_decide (ps = producers (proposed_schedule g))
  | None => false
  end.

(** controller::set_proposed_producers; [disallow_empty]: the builtin feature
    disallow_empty_producer_schedule is activated. *)
Definition set_proposed_producers (disallow_empty : bool) (head : block_header_state) (pending : option block_stage)
    (ps : list (producer_key public_key)) (g : proposal) : res (Z * proposal) :=
  let cur_block_num := u32 (block_num (common head) + 1) in
  if bool_decide (ps = []) && disallow_empty then Ok (-1, g)
  else if already_proposed cur_block_num ps g then Ok (-1, g)
  else
    let! sch := schedule_to_follow head pending in
    if bool_decide (ps = producers sch) then Ok (-1, g)
    else
      let v := u32 (version sch + 1) in
      Ok (v, mk_proposal (Some cur_block_num) (mk_schedule v ps)).

(** The checks of the intrinsic; [is_account] is apply_context::is_account and
    [valid] public_key_type::valid. *)
Definition check_producers (disallow_empty : bool) (is_account : Z -> bool) (valid : public_key -> bool)
    (ps : list (producer_key public_key)) : res unit :=
  assert! (negb (bool_decide (ps = [])) || negb disallow_empty) else wasm_execution_error in
  assert! (Z.of_nat (length ps) <=? max_producers) else wasm_execution_error in
  assert! (forallb (fun p => is_account (producer_name p) && valid (pk_block_signing_key p)) ps) else wasm_execution_error in
  let unique_producers : gset Z := list_to_set (producer_name <$> ps) in
  assert! (bool_decide (length ps = size unique_producers)) else wasm_execution_error in
  Ok tt.

Definition set_proposed_producers_intrinsic (disallow_empty : bool) (is_account : Z -> bool) (valid : public_key -> bool)
    (head : block_header_state) (pending : option block_stage) (ps : list (producer_key public_key)) (g : proposal)
    : res (Z * proposal) :=
  let! _ := check_producers disallow_empty is_account valid ps in
  set_proposed_producers disallow_empty head pending ps g.

(** ** Promoting *)

(** The part of start_block that promotes the proposed schedule to the pending
    one: what becomes _new_pending_producer_schedule, and the object after it. *)
Definition promote_proposed (p : pending_block_header_state) (g : proposal) : res (option schedule * proposal) :=
  match proposed_schedule_block_num g with
  | Some n =>
      if (n <=? dpos_irreversible_blocknum (p_common p))
         && bool_decide (producers (si_schedule (prev_pending_schedule p)) = []) then
        assert! (version (proposed_schedule g) =? u32 (active_schedule_version p + 1)) else producer_schedule_exception in
        Ok (Some (proposed_schedule g), mk_proposal None (mk_schedule 0 []))
      else Ok (None, g)
  | None => Ok (None, g)
  end.

(** ** Chains *)

(** What the transactions of a block propose; a call that throws leaves the
    proposal as it was. *)
Definition propose (head : block_header_state) (stage : block_stage) (g : proposal)
    (call : bool * (Z -> bool) * (public_key -> bool) * list (producer_key public_key)) : proposal :=
  let '(disallow_empty, is_account, valid, ps) := call in
  match set_proposed_producers_intrinsic disallow_empty is_account valid head (Some stage) ps g with
  | Ok (_, g') => g'
  | Throw _ => g
  end.

(** A block on [s]: it is started, its transactions propose schedules, and it is
    finished. *)
Inductive block_step : block_header_state * proposal -> block_header_state * proposal -> Prop :=
| block_made s g when n p np g1 calls tm am features v s' :
    next_pending s when n = Ok p -> promote_proposed p g = Ok (np, g1) ->
    _finish_next p (make_block_header p tm am np features) v = Ok s' ->
    block_step (s, g) (s', foldl (propose s (BuildingBlock p np)) g1 calls).

(** The blocks made on [x], with the states after each. *)
Inductive block_chain (x : block_header_state * proposal) : list (block_header_state * proposal) -> block_header_state * proposal -> Prop :=
| chain_none : block_chain x [] x
| chain_more l y z : block_chain x l y -> block_step y z -> block_chain x (l ++ [z]) z.

(** The schedule the next one follows. *)
Definition last_scheduled (s : block_header_state) : schedule :=
  if has_pending_producers s then si_schedule (pending_schedule s) else active_schedule (common s).

Definition proposal_ok (x : block_header_state * proposal) : Prop :=
  schedule_inv x.1
  /\ forall n, proposed_schedule_block_num x.2 = Some n ->
       version (proposed_schedule x.2) = u32 (version (last_scheduled x.1) + 1).

(** ** Started blocks *)

Lemma started_block s when n p :
  next_pending s when n = Ok p ->
  block_num (p_common p) = u32 (block_num (common s) + 1)
  /\ active_schedule_version p = version (active_schedule (common s))
  /\ prev_pending_schedule p = pending_schedule s
  /\ active_schedule (p_common p) = (if was_pending_promoted p then si_schedule (pending_schedule s) else active_schedule (common s))
  /\ (was_pending_promoted p = true -> has_pending_producers s = true).
Proof.
  intros Hp. destruct (next_pending_inv _ _ _ _ Hp) as (slot & prokey & m & root & _ & _ & _ & _ & ->).
  pose proof (pending_of_schedule s slot n prokey m) as (E1 & E2 & E3). cbn zeta in *.
  split_and!; [| |done|done|naive_solver]; unfold pending_of; by destruct (confirm_loop _ _ _ _ _).
Qed.

(** Nothing is promoted, or the proposal is, when nothing is pending. *)
Lemma promote_cases p g np g1 :
  promote_proposed p g = Ok (np, g1) ->
  (np = None /\ g1 = g)
  \/ exists n, proposed_schedule_block_num g = Some n /\ n <= dpos_irreversible_blocknum (p_common p)
       /\ producers (si_schedule (prev_pending_schedule p)) = []
       /\ np = Some (proposed_schedule g) /\ proposed_schedule_block_num g1 = None.
Proof.
  unfold promote_proposed. intros H. destruct (proposed_schedule_block_num g) as [n|]; [|by simplify_eq; left].
  destruct (_ && _) eqn:Hc; [|by simplify_eq; left]. inv_res. simplify_eq. bprop. right. by exists n.
Qed.

(** With nothing pending, nothing was promoted in this block. *)
Lemma nothing_promoted s when n p :
  next_pending s when n = Ok p -> producers (si_schedule (prev_pending_schedule p)) = [] ->
  was_pending_promoted p = false /\ has_pending_producers s = false.
Proof.
  intros Hp Hnone. destruct (started_block _ _ _ _ Hp) as (_ & _ & Eprev & _ & Hprom). rewrite Eprev in Hnone.
  assert (has_pending_producers s = false) as Hs by (unfold has_pending_producers; by rewrite Hnone).
  split; [|done]. destruct (was_pending_promoted p); [|done]. by rewrite Hprom in Hs.
Qed.

Section Started.
Context (s : block_header_state) (g : proposal) (when n : Z) (p : pending_block_header_state).
Context (Hok : proposal_ok (s, g)) (Hp : next_pending s when n = Ok p).

(** A proposal promoted now has the version after the active schedule's. *)
Lemma promoted_version m :
  proposed_schedule_block_num g = Some m -> producers (si_schedule (prev_pending_schedule p)) = [] ->
  version (proposed_schedule g) = u32 (active_schedule_version p + 1)
  /\ version (proposed_schedule g) = u32 (version (active_schedule (p_common p)) + 1).
Proof.
  intros Hm Hnone. destruct (started_block _ _ _ _ Hp) as (_ & -> & _ & Eact & _).
  destruct (nothing_promoted _ _ _ _ Hp Hnone) as [Hnp Hs].
  destruct Hok as [_ Hver]. pose proof (Hver m Hm) as Ev. cbn in Ev.
  unfold last_scheduled in Ev. rewrite Hs in Ev. by rewrite Eact, Hnp, Ev.
Qed.

Lemma promote_total : exists np g1, promote_proposed p g = Ok (np, g1).
Proof.
  unfold promote_proposed. destruct (proposed_schedule_block_num g) as [m|] eqn:Em; [|eauto].
  destruct (_ && _) eqn:Hc; [|eauto]. bprop. destruct (promoted_version m Em) as [E _]; [done|].
  rewrite E, Z.eqb_refl. cbn. eauto.
Qed.

Lemma promoted_header_ok np g1 tm am features :
  promote_proposed p g = Ok (np, g1) -> check_header p (bare_header (make_block_header p tm am np features)) = Ok tt.
Proof.
  intros Hpr. unfold check_header, make_block_header. cbn [bare_header timestamp previous confirmed producer schedule_version new_producers].
  rewrite !Z.eqb_refl, bool_decide_true by done. cbn [eos_assert res_bind].
  destruct (promote_cases _ _ _ _ Hpr) as [(-> & _)|(m & Em & _ & Hnone & -> & _)]; [done|].
  destruct (promoted_version m Em Hnone) as [_ ->]. destruct (nothing_promoted _ _ _ _ Hp Hnone) as [-> _].
  by rewrite Z.eqb_refl, bool_decide_true.
Qed.

End Started.

(** ** Finished blocks *)

(** The pending schedule of the block that comes out. *)
Lemma finished_block p np tm am features v s' :
  _finish_next p (make_block_header p tm am np features) v = Ok s' ->
  common s' = p_common p
  /\ si_schedule (pending_schedule s')
     = match np with
       | Some sch => sch
       | None => if was_pending_promoted p then mk_schedule (version (si_schedule (prev_pending_schedule p))) []
                 else si_schedule (prev_pending_schedule p)
       end.
Proof.
  intros Hf. split; [unfold _finish_next in Hf; by inv_res|].
  apply finish_next_schedule in Hf as [-> _]. unfold finish_pending_schedule. cbn. by destruct np.
Qed.

(** What transactions propose in the block follows the schedule the block ends
    with. *)
Lemma followed_schedule s when n p np tm am features v s' sch :
  next_pending s when n = Ok p -> _finish_next p (make_block_header p tm am np features) v = Ok s' ->
  schedule_to_follow s (Some (BuildingBlock p np)) = Ok sch -> version sch = version (last_scheduled s').
Proof.
  intros Hp Hf. destruct (finished_block _ _ _ _ _ _ _ Hf) as [Ec Es].
  destruct (started_block _ _ _ _ Hp) as (_ & _ & Eprev & Eact & Hprom).
  unfold schedule_to_follow, last_scheduled, has_pending_producers. rewrite Ec, Es, Eprev in *.
  destruct np as [new|]; cbn [pending_producers res_bind active_producers].
  - intros [= <-]. by case_bool_decide.
  - rewrite Eprev, Eact. intros [= <-]. destruct (was_pending_promoted p) eqn:Hwp; cbn [producers].
    + specialize (Hprom eq_refl). unfold has_pending_producers in Hprom. by case_bool_decide.
    + by case_bool_decide.
Qed.

(** ** Proposals in a block *)

Lemma propose_cases s stage g call :
  propose s stage g call = g
  \/ exists sch ps, schedule_to_follow s (Some stage) = Ok sch
       /\ propose s stage g call = mk_proposal (Some (u32 (block_num (common s) + 1))) (mk_schedule (u32 (version sch + 1)) ps)
       /\ forall n, proposed_schedule_block_num g = Some n -> n = u32 (block_num (common s) + 1).
Proof.
  destruct call as [[[disallow is_account] valid] ps]. unfold propose, set_proposed_producers_intrinsic.
  destruct (check_producers _ _ _ _); [|by left]. cbn [res_bind]. unfold set_proposed_producers.
  destruct (_ && _); [by left|]. destruct (already_proposed _ ps g) eqn:Ha; [by left|].
  destruct (schedule_to_follow s (Some stage)) as [sch|]; [|by left]. cbn [res_bind].
  case_bool_decide; [by left|]. right. exists sch, ps. split; [done|]. split; [done|].
  intros n Hn. unfold already_proposed in Ha. rewrite Hn in Ha. by bprop.
Qed.

Lemma proposals_preserve (P : proposal -> Prop) s stage calls g :
  (forall sch ps g, P g -> schedule_to_follow s (Some stage) = Ok sch ->
     (forall n, proposed_schedule_block_num g = Some n -> n = u32 (block_num (common s) + 1)) ->
     P (mk_proposal (Some (u32 (block_num (common s) + 1))) (mk_schedule (u32 (version sch + 1)) ps))) ->
  P g -> P (foldl (propose s stage) g calls).
Proof.
  intros HP. revert g. induction calls as [|c calls IH]; intros g Hg; [done|]. cbn. apply IH.
  destruct (propose_cases s stage g c) as [->|(sch & ps & Hs & -> & Hn)]; [done|]. by apply (HP sch ps g).
Qed.

(** The proposal of an earlier block is left alone. *)
Lemma earlier_proposal_kept s stage calls g n :
  proposed_schedule_block_num g = Some n -> n <> u32 (block_num (common s) + 1) -> foldl (propose s stage) g calls = g.
Proof.
  intros Hn Hne. apply (proposals_preserve (fun g' => g' = g)); [|done].
  intros sch ps g' -> _ Hcur. by apply Hcur in Hn.
Qed.

(** ** The invariant *)

Lemma block_step_ok x y : block_step x y -> proposal_ok x -> proposal_ok y.
Proof.
  intros [s g when n p np g1 calls tm am features v s' Hp Hpr Hf] Hok. pose proof Hok as [Hinv Hver].
  destruct (finished_block _ _ _ _ _ _ _ Hf) as [Ec Es].
  destruct (started_block _ _ _ _ Hp) as (Eb & _ & Eprev & Eact & Hprom).
  split; cbn [fst snd] in *.
  { intros Hpend. unfold has_pending_producers in Hpend. rewrite Ec, Es in *.
    destruct (promote_cases _ _ _ _ Hpr) as [(-> & _)|(m & Em & _ & Hnone & -> & _)].
    - rewrite Eprev, Eact in *. destruct (was_pending_promoted p); [by cbn in Hpend|]. by apply Hinv.
    - by destruct (promoted_version s g when n p Hok Hp m Em Hnone). }
  apply proposals_preserve.
  { intros sch ps g' _ Hs _ m _. cbn. by rewrite (followed_schedule _ _ _ _ _ _ _ _ _ _ _ Hp Hf Hs). }
  intros m Hm. destruct (promote_cases _ _ _ _ Hpr) as [(-> & ->)|(? & _ & _ & _ & _ & Hnone)]; [|congruence].
  rewrite (Hver m Hm). unfold last_scheduled, has_pending_producers in *. rewrite Ec, Es, Eprev, Eact.
  destruct (was_pending_promoted p); [|done]. by rewrite (Hprom eq_refl).
Qed.

Lemma block_chain_ok x l y : block_chain x l y -> proposal_ok x -> proposal_ok y.
Proof. induction 1 as [|l y z _ IH Hs]; [done|]. intros Hx. by eapply block_step_ok; [|apply IH]. Qed.

(** C15: the handover of schedules never stops a chain: after any number of blocks,
    whatever their transactions proposed, starting the next block does not throw
    on the proposed schedule, and the header made from the block that was
    started, with the schedule promoted in it if there is one, passes the checks
    of _finish_next. *)
Theorem schedule_handover_never_fails x l s g when n p tm am features :
  proposal_ok x -> block_chain x l (s, g) -> next_pending s when n = Ok p ->
  exists np g1, promote_proposed p g = Ok (np, g1)
    /\ check_header p (bare_header (make_block_header p tm am np features)) = Ok tt.
Proof.
  intros Hx Hc Hp. pose proof (block_chain_ok _ _ _ Hc Hx) as Hok.
  destruct (promote_total s g when n p Hok Hp) as (np & g1 & E). exists np, g1. split; [done|].
  by apply (promoted_header_ok s g when n p Hok Hp np g1).
Qed.

(** ** No proposal is lost *)

(** Where the schedule is. *)
Definition is_proposed (sch : schedule) (x : block_header_state * proposal) : Prop :=
  exists n, proposed_schedule_block_num x.2 = Some n /\ proposed_schedule x.2 = sch /\ n <= block_num (common x.1).
Definition is_pending (sch : schedule) (x : block_header_state * proposal) : Prop := si_schedule (pending_schedule x.1) = sch.
Definition is_active (sch : schedule) (x : block_header_state * proposal) : Prop := active_schedule (common x.1) = sch.

Section Step.
Context (x y : block_header_state * proposal) (sch : schedule) (Hstep : block_step x y).

Lemma step_number : block_num (common y.1) = u32 (block_num (common x.1) + 1).
Proof.
  destruct Hstep as [s g when n p np g1 calls tm am features v s' Hp _ Hf].
  destruct (finished_block _ _ _ _ _ _ _ Hf) as [Ec _]. cbn. rewrite Ec. by destruct (started_block _ _ _ _ Hp).
Qed.

Lemma proposed_step :
  0 <= block_num (common x.1) < UINT32_MAX -> is_proposed sch x -> is_proposed sch y \/ is_pending sch y.
Proof.
  intros Hb (m & Hm & <- & Hle).
  assert (u32 (block_num (common x.1) + 1) = block_num (common x.1) + 1) as Enum.
  { unfold u32. apply wrap_small. unfold is_uint, UINT32_MAX in *. lia. }
  pose proof step_number as Ey. destruct Hstep as [s g when n p np g1 calls tm am features v s' Hp Hpr Hf]. cbn [fst snd] in *.
  destruct (promote_cases _ _ _ _ Hpr) as [(-> & ->)|(k & _ & _ & _ & -> & _)].
  - left. exists m. cbn [snd]. rewrite (earlier_proposal_kept s _ calls g m) by (done || lia). split; [done|]. split; [done|].
    cbn [fst]. lia.
  - right. unfold is_pending. cbn [fst]. destruct (finished_block _ _ _ _ _ _ _ Hf) as [_ ->]. done.
Qed.

Lemma pending_step : producers sch <> [] -> is_pending sch x -> is_pending sch y \/ is_active sch y.
Proof.
  intros Hne Hpend. destruct Hstep as [s g when n p np g1 calls tm am features v s' Hp Hpr Hf]. unfold is_pending, is_active in *.
  cbn [fst] in *. destruct (finished_block _ _ _ _ _ _ _ Hf) as [-> ->].
  destruct (started_block _ _ _ _ Hp) as (_ & _ & Eprev & Eact & _).
  destruct (promote_cases _ _ _ _ Hpr) as [(-> & _)|(k & _ & _ & Hnone & _)].
  - rewrite Eact, Eprev, Hpend. destruct (was_pending_promoted p); [by right|by left].
  - rewrite Eprev, Hpend in Hnone. done.
Qed.

End Step.

Lemma chain_number x l y :
  block_chain x l y -> 0 <= block_num (common x.1) -> block_num (common x.1) + Z.of_nat (length l) <= UINT32_MAX ->
  block_num (common y.1) = block_num (common x.1) + Z.of_nat (length l).
Proof.
  induction 1 as [|l y z _ IH Hs]; intros H0 Hb; [cbn; lia|]. rewrite length_app in *. cbn [length] in *.
  rewrite (step_number _ _ Hs), IH by lia. unfold u32. rewrite wrap_small; [lia|]. unfold is_uint, UINT32_MAX in *. lia.
Qed.

(** C16: a schedule with producers that is proposed when a block ends is never lost:
    whatever is proposed in the blocks after that, it stays proposed until a block
    makes it pending, then pending until a block makes it active, while block
    numbers stay within 32 bits.  (Before its block ends, another proposal in the
    same block replaces it.) *)
Theorem proposal_never_lost x l y sch :
  block_chain x l y -> 0 <= block_num (common x.1) -> block_num (common x.1) + Z.of_nat (length l) <= UINT32_MAX ->
  is_proposed sch x -> producers sch <> [] ->
  is_proposed sch y \/ is_pending sch y \/ Exists (is_active sch) l.
Proof.
  intros Hc H0 Hb Hprop Hne. induction Hc as [|l y z Hc IH Hs]; [by left|].
  rewrite length_app in Hb. cbn [length] in Hb. rewrite Exists_app, Exists_cons.
  pose proof (chain_number _ _ _ Hc H0 ltac:(lia)) as Hy.
  destruct IH as [Hy'|[Hy'|Ha]]; [lia| | |by auto].
  - destruct (proposed_step y z sch Hs) as [|]; [lia|done|by auto|by auto].
  - destruct (pending_step y z sch Hs Hne Hy'); auto.
Qed.
End Schedules.

(** ** A concrete handover *)

(** As many blocks as the producer of the next one may confirm. *)
Definition confirmable {fc : Fc} (s : block_header_state) : Z :=
  match next_pending s 0 0 with
  | Ok p => block_num (common s) - default 0 (producer_to_last_produced (common s) !! p_producer p)
  | Throw _ => 0
  end.

(** The next block, in whose transactions [calls] are made. *)
Definition make_block {fc : Fc} (calls : list (bool * (Z -> bool) * (public_key -> bool) * list (producer_key public_key)))
    (x : block_header_state * proposal) : res (block_header_state * proposal) :=
  let! p := next_pending x.1 0 (confirmable x.1) in
  let! (np, g1) := promote_proposed p x.2 in
  let! s' := _finish_next p (make_block_header p digest_zero digest_zero np []) accept_features in
  Ok (s', foldl (propose x.1 (BuildingBlock p np)) g1 calls).

Lemma make_block_step {fc : Fc} calls x y : make_block calls x = Ok y -> block_step x y.
Proof.
  destruct x as [s g]. unfold make_block. cbn [fst snd]. intros H. inv_res. destruct a0 as [np g1]. inv_res.
  by eapply block_made.
Qed.

(** Blocks with no proposals. *)
Fixpoint make_blocks {fc : Fc} (k : nat) (x : block_header_state * proposal) : res (list (block_header_state * proposal)) :=
  match k with
  | O => Ok []
  | S k' => let! y := make_block [] x in let! l := make_blocks k' y in Ok (y :: l)
  end.

Lemma chain_cons {fc : Fc} x y l z : block_step x y -> block_chain y l z -> block_chain x (y :: l) z.
Proof.
  intros Hs. induction 1 as [|l w z _ IH Hs']; [by apply (chain_more x [] x y); [apply chain_none|]|].
  by apply (chain_more x (y :: l) w z).
Qed.

Lemma make_blocks_chain {fc : Fc} k x l : make_blocks k x = Ok l -> block_chain x l (List.last l x).
Proof.
  revert x l. induction k as [|k IH]; intros x l H; cbn in H; inv_res; [apply chain_none|].
  apply (chain_cons _ a); [by eapply make_block_step|]. apply IH in E0.
  replace (List.last (a :: a0) x) with (List.last a0 a); [done|]. clear. destruct a0 as [|b l]; [done|].
  change (List.last (b :: l) a = List.last (b :: l) x). revert b. induction l as [|b' l IHl]; intros b; [done|]. apply (IHl b').
Qed.

Definition no_proposal : @proposal toy_fc := @mk_proposal toy_fc None (@mk_schedule Z 0 []).
Definition everybody : list (producer_key (@public_key toy_fc)) :=
  [mk_producer_key 10 (110 : @public_key toy_fc); mk_producer_key 20 (120 : @public_key toy_fc); mk_producer_key 40 (140 : @public_key toy_fc)].
Definition everybody_proposed : bool * (Z -> bool) * (@public_key toy_fc -> bool) * list (producer_key (@public_key toy_fc)) :=
  (true, fun _ => true, fun _ => true, everybody).

(** Block 6 proposes, block 30 makes the schedule pending, block 54 active. *)
Definition proposed_in_6 : @block_header_state toy_fc * @proposal toy_fc :=
  unwrap (toy_state, no_proposal) (make_block [everybody_proposed] (toy_state, no_proposal)).
Definition blocks_after_6 (k : nat) : list (@block_header_state toy_fc * @proposal toy_fc) :=
  unwrap [] (make_blocks k proposed_in_6).
Definition after_6 (k : nat) := List.last (blocks_after_6 k) proposed_in_6.

Lemma proposing_step : block_step (toy_state, no_proposal) proposed_in_6.
Proof. apply (make_block_step [everybody_proposed]), ok_unwrap. by vm_compute. Qed.

Lemma blocks_after_6_chain k : is_ok (make_blocks k proposed_in_6) = true -> block_chain proposed_in_6 (blocks_after_6 k) (after_6 k).
Proof. intros H. apply (make_blocks_chain k). by apply ok_unwrap. Qed.

Example handover_of_schedules :
  (fun y => (block_num (common y.1), proposed_schedule_block_num y.2, length (producers (si_schedule (pending_schedule y.1))),
             version (active_schedule (common y.1)))) <$> [proposed_in_6; after_6 23; after_6 24; after_6 47; after_6 48]
  = [(6, Some 6, 0%nat, 1); (29, Some 6, 0%nat, 1); (30, None, 3%nat, 1); (53, None, 3%nat, 1); (54, None, 0%nat, 2)].
Proof. vm_refl. Qed.

Lemma schedule_handover_never_fails_witness :
  proposed_schedule_block_num (after_6 23).2 = Some 6
  /\ exists p np g1, next_pending (after_6 23).1 0 0 = Ok p /\ promote_proposed p (after_6 23).2 = Ok (np, g1)
       /\ check_header p (bare_header (make_block_header p digest_zero digest_zero np [])) = Ok tt.
Proof.
  split; [vm_refl|]. exists (unwrap toy_dummy (next_pending (after_6 23).1 0 0)).
  assert (next_pending (after_6 23).1 0 0 = Ok (unwrap toy_dummy (next_pending (after_6 23).1 0 0))) as Hp
    by (apply ok_unwrap; by vm_compute).
  destruct (schedule_handover_never_fails (toy_state, no_proposal) (proposed_in_6 :: blocks_after_6 23) (after_6 23).1 (after_6 23).2
    0 0 (unwrap toy_dummy (next_pending (after_6 23).1 0 0)) digest_zero digest_zero []) as (np & g1 & E1 & E2).
  - split; [by intros _|done].
  - rewrite <- surjective_pairing. apply chain_cons; [apply proposing_step|]. apply blocks_after_6_chain. by vm_compute.
  - exact Hp.
  - exists np, g1. split; [exact Hp|]. split; [exact E1|exact E2].
Defined.

Lemma proposal_never_lost_witness :
  let sch := mk_schedule 2 everybody in
  is_proposed sch proposed_in_6
  /\ (is_proposed sch (after_6 48) \/ is_pending sch (after_6 48) \/ Exists (is_active sch) (blocks_after_6 48)).
Proof.
  cbn zeta. assert (is_proposed (mk_schedule 2 everybody) proposed_in_6) as Hprop.
  { exists 6. split; [vm_refl|]. split; [vm_refl|]. vm_compute. discriminate. }
  split; [exact Hprop|]. apply (proposal_never_lost proposed_in_6 (blocks_after_6 48) (after_6 48)).
  - apply blocks_after_6_chain. by vm_compute.
  - vm_compute. discriminate.
  - vm_compute. discriminate.
  - exact Hprop.
  - discriminate.
Defined.

(** After the block is assembled the pending schedule cannot be asked for. *)
Example pending_producers_of_assembled_block :
  pending_producers toy_state (Some (AssembledBlock toy_p None)) = Throw assert_exception
  /\ pending_producers toy_state (Some (BuildingBlock toy_p None)) = Ok (si_schedule (pending_schedule toy_state)).
Proof. split; vm_refl. Qed.
