(* ===== verification/FinalizeBlock.v ===== *)
(** The two ends of a pending block (controller.cpp): what start_block does after
    the protocol features and the schedule (the implicit onblock transaction,
    clear_expired_input_transactions, update_producers_authority), and
    finalize_block, which settles the resource limits under the voted
    configuration, makes the unsigned block and records it in the TaPoS table.

    [controller_state] (PushTransaction.v) is the database with the lists of the
    building block; the configuration is the one in force when the block is
    finalized. *)

From Stdlib Require Import ZArith Lia.
From stdpp Require Import base gmap strings numbers sorting list.
From S2P Require Import Prelude Chainbase Name Merkle Authority AuthorityChecker ResourceLimits BlockTimestamp BlockHeader BlockHeaderState AuthorizationManager IteratorCache ContractTables ContractTheorems EosioContract ChainConfig AccessLists Transaction TransactionContext Deduplication FeatureActivation ActionExecution PushTransaction PushTheorems.

#[local] Open Scope Z_scope.
#[local] Open Scope chain_scope.
Import Authorization.

Definition producers_account_name : Z := Eval vm_compute in N_ "eosio.prods".
Definition majority_producers_permission_name : Z := Eval vm_compute in N_ "prod.major".
Definition minority_producers_permission_name : Z := Eval vm_compute in N_ "prod.minor".
Definition onblock_name : Z := Eval vm_compute in N_ "onblock".

(** ** Resource limits of a block *)

Module BlockLimits.
Import ResourceLimits.Accumulator ResourceLimits.Elastic ResourceLimits.Manager.

Definition block_periods : Z := 60 * 1000 / 2000.

Definition block_parameters (max_usage target_pct : Z) : elastic_limit_parameters :=
  mk_elastic (EOS_PERCENT max_usage target_pct) max_usage block_periods 1000 (mk_ratio 99 100) (mk_ratio 1000 999).

Section Limits.
Context {TL TU : Type} `{HTL : !Table (bool * Z) resource_limits_object TL} `{HTU : !Table Z resource_usage_object TU}.
Abbreviation limits_db := (@database TL TU).

(** The first part of finalize_block. *)
Definition update_resource_limits (cfg : chain_config) (num : Z) : exec limits_db unit :=
  do _ <- process_account_limit_updates;
  do _ <- set_block_parameters (block_parameters (max_block_cpu_usage cfg) (target_block_cpu_usage_pct cfg))
            (block_parameters (max_block_net_usage cfg) (target_block_net_usage_pct cfg));
  process_block_usage num.

(** The largest usage of a block the arithmetic has room for. *)
Definition usage_bound : Z := 600000000000.
Definition bound_parameters : elastic_limit_parameters := block_parameters usage_bound 10000.

(** What holds of the accounting of blocks whatever configurations, with usages
    up to [usage_bound], were in force. *)
Definition usage_bounded (n : Z) (d : limits_db) : Prop :=
  let s := state d in
  steady bound_parameters (average_block_cpu_usage s) /\ steady bound_parameters (average_block_net_usage s)
  /\ last_ordinal (average_block_cpu_usage s) <= n /\ last_ordinal (average_block_net_usage s) <= n
  /\ 0 <= pending_cpu_usage s <= usage_bound /\ 0 <= pending_net_usage s <= usage_bound
  /\ 0 <= virtual_cpu_limit s <= usage_bound * 1000 /\ 0 <= virtual_net_limit s <= usage_bound * 1000.

(** max_block_cpu_usage is a uint32_t; validate sets no bound for
    max_block_net_usage, a uint64_t. *)
Definition config_bounded (c : chain_config) : Prop := config_typed c /\ max_block_net_usage c <= usage_bound.

(** ** They never throw *)

Lemma bound_parameters_fit : params_fit bound_parameters.
Proof. unfold params_fit, params_sane, is_uint, UINT64_MAX, Precision. cbn. repeat split; (done || lia). Qed.

Lemma block_parameters_sane max_usage pct : 0 <= max_usage <= usage_bound -> params_sane (block_parameters max_usage pct).
Proof.
  intros Hm. unfold params_sane, usage_bound in *. cbn [target max periods max_multiplier contract_rate expand_rate block_parameters numerator denominator].
  split_and!; try (done || lia). unfold EOS_PERCENT. apply Z.div_pos; [|lia]. unfold u64, wrap. apply Z.mod_pos_bound. lia.
Qed.

(** One resource: its average stays bounded and its limit lands in the range of
    the configuration now in force. *)
Lemma resource_settled max_usage pct units num a v :
  0 <= max_usage <= usage_bound -> steady bound_parameters a -> 0 <= units <= usage_bound -> 0 <= v <= usage_bound * 1000 ->
  is_uint 32 num -> last_ordinal a < num ->
  exists a' v', add units num block_periods a = Ok a' /\ steady bound_parameters a' /\ last_ordinal a' = num
    /\ update_elastic_limit v (div_ceil (value_ex a') Precision) (block_parameters max_usage pct) = Ok v'
    /\ max_usage <= v' <= max_usage * 1000.
Proof.
  intros Hm Hst Hu Hv Hn Hlt.
  destruct (steady_add bound_parameters units num a bound_parameters_fit Hst Hu Hn Hlt) as (a' & Ea & Hst' & Hlo).
  destruct (elastic_limit_total v (div_ceil (value_ex a') Precision) (block_parameters max_usage pct)) as (v' & Ev & Hr).
  - by apply block_parameters_sane.
  - lia.
  - cbn. unfold usage_bound, UINT64_MAX in *. lia.
  - cbn. unfold usage_bound, UINT64_MAX in *. lia.
  - by exists a', v'.
Qed.

Lemma set_block_parameters_run c1 n1 c2 n2 (d : limits_db) :
  0 <= c1 <= usage_bound -> 0 <= c2 <= usage_bound ->
  exists d', set_block_parameters (block_parameters c1 n1) (block_parameters c2 n2) d = (Ok tt, d')
    /\ limits d' = limits d /\ usage d' = usage d /\ state d' = state d
    /\ cpu_limit_parameters (config d') = block_parameters c1 n1 /\ net_limit_parameters (config d') = block_parameters c2 n2.
Proof.
  intros H1 H2. unfold set_block_parameters. pose proof (block_parameters_sane c1 n1 H1) as (_ & _ & _ & _ & _ & _ & E1).
  pose proof (block_parameters_sane c2 n2 H2) as (_ & _ & _ & _ & _ & _ & E2).
  unfold bind, lift, get_state. rewrite E1, E2.
  destruct (bool_decide _ && bool_decide _) eqn:Hs; [bprop|]; eexists; (split; [reflexivity|]); done.
Qed.

Lemma bounded_configuration c :
  config_bounded c -> 0 <= max_block_cpu_usage c <= usage_bound /\ 0 <= max_block_net_usage c <= usage_bound.
Proof.
  intros ((Hn & Hf & _) & Hb). unfold is_uint, usage_bound in *. rewrite !Forall_cons in Hf. decompose [and] Hf. lia.
Qed.

(** The weights of the accounts and their sums. *)
Definition limits_consistent (d : limits_db) : Prop := pending_have_actual d /\ totals_consistent d /\ totals_fit d.

(** What the first part of finalize_block makes of [d]. *)
Definition limits_settled (cfg : chain_config) (num : Z) (d d' : limits_db) : Prop :=
  usage_bounded num d' /\ totals_consistent d'
  /\ (forall a, tbl_view (limits d') !! (true, a) = None) /\ (forall a, effective d' a = effective d a)
  /\ usage d' = usage d /\ pending_cpu_usage (state d') = 0 /\ pending_net_usage (state d') = 0
  /\ max_block_cpu_usage cfg <= virtual_cpu_limit (state d') <= max_block_cpu_usage cfg * 1000
  /\ max_block_net_usage cfg <= virtual_net_limit (state d') <= max_block_net_usage cfg * 1000.

Lemma update_resource_limits_ok cfg n num d :
  config_bounded cfg -> limits_consistent d -> usage_bounded n d -> n < num -> is_uint 32 num ->
  exists d', update_resource_limits cfg num d = (Ok tt, d') /\ limits_settled cfg num d d'.
Proof.
  intros Hcfg (Hact & Hcons & Hfit) (Sc & Sn & Lc & Ln & Pc & Pn & Vc & Vn) Hn Hnum.
  destruct (bounded_configuration _ Hcfg) as [Bc Bn].
  destruct (process_pending_ok (length (tbl_rows (limits d))) d) as (d1 & E1 & Hnone & Heff & Hcons1 & Hus1 & _ & net & cpu & ram & Hs1); try done.
  { rewrite tbl_rows_perm. by rewrite length_map_to_list. }
  destruct (set_block_parameters_run _ (target_block_cpu_usage_pct cfg) _ (target_block_net_usage_pct cfg) d1 Bc Bn)
    as (d2 & E2 & Hl2 & Hus2 & Hs2 & Ec2 & En2).
  destruct (resource_settled _ (target_block_cpu_usage_pct cfg) _ num _ _ Bc Sc Pc Vc Hnum) as (ac & vc & Eac & Sac & Lac & Evc & Rvc); [lia|].
  destruct (resource_settled _ (target_block_net_usage_pct cfg) _ num _ _ Bn Sn Pn Vn Hnum) as (an & vn & Ean & San & Lan & Evn & Rvn); [lia|].
  eexists. split.
  { change (process_account_limit_updates d = (Ok tt, d1)) in E1. unfold update_resource_limits, bind. rewrite E1, E2.
    apply (process_block_usage_run num d2 ac an vc vn); rewrite ?Ec2, ?En2, ?Hs2, ?Hs1; done. }
  unfold limits_settled, usage_bounded, totals_consistent in *. cbn. rewrite Hl2, Hus2, Hs2. unfold usage_bound in *.
  split_and!; try (done || lia); [apply Hcons1..|]. intros a. rewrite <- Heff. unfold effective. cbn. by rewrite Hl2.
Qed.

End Limits.

(** validate accepts a bandwidth with which finalize_block throws: after a block
    under such a configuration the virtual limit is so large that its product
    with the rate overflows in the next one, which bringing the configuration
    back does not change. *)
Definition wide_configuration : chain_config :=
  mk_chain_config (2 ^ 60) 1000 (3 * 1024 * 1024) 12 500 20 100 1200000 1000 900000 100
    3600 600 (45 * 24 * 3600) 4096 4 6.

Example wide_configuration_stops_blocks :
  ChainConfig.validate wide_configuration = Ok tt
  /\ fst ((do _ <- update_resource_limits wide_configuration 8; update_resource_limits wide_configuration 9) sample_db)
     = Throw rate_limiting_state_inconsistent
  /\ fst ((do _ <- update_resource_limits wide_configuration 8; update_resource_limits default_configuration 9) sample_db)
     = Throw rate_limiting_state_inconsistent.
Proof. split_and!; vm_refl. Qed.

(** Nor is the sum of the weights bounded: set_resource_limits checks each weight
    alone, and with three accounts of the largest weight finalize_block throws. *)
Example heavy_weights_stop_blocks :
  fst ((do _ <- for_each [11; 12; 13] (fun a =>
          do _ <- initialize_account a; do _ <- set_account_limits a (-1) INT64_MAX (-1); ret tt);
        update_resource_limits default_configuration 8) sample_db) = Throw rate_limiting_state_inconsistent.
Proof. vm_refl. Qed.
End BlockLimits.

(** ** The block *)

Section Finalize.
Context {K : Type} `{EqDecision K} {key_ops : KeyOps K} {hashing : CodeHash} {trim : Name.BoostTrim} {SF : SoftFloat}.
Context {multiset : FlatMultiset K} {decoding : ActionData K} {fc : Fc} {format : TransactionFormat}.
Context {TT TR TL TU : Type} `{HTT : !Table Z table_id_object TT} `{HTR : !Table Z row TR}.
Context `{HTL : !Table (bool * Z) Manager.resource_limits_object TL}
        `{HTU : !Table Z Manager.resource_usage_object TU}.
Context {TP TPU TLK TG TA TM TC TRC TX TB : Type} {permission_index : Table Z (permission_object K) TP}
  {permission_usage_index : Table Z Z TPU} {permission_link_index : Table (Z * Z * Z) Z TLK}
  {generated_transaction_index : Table Z generated_transaction_object TG}
  {account_index : Table Z account_object TA} {account_metadata_index : Table Z account_metadata_object TM}
  {code_index : Table (Z * Z * Z) code_object TC} {account_ram_correction_index : Table Z Z TRC}
  {transaction_index : Table Z Z TX} {block_summary_index : Table Z digest_type TB}.

Abbreviation controller_state := (@PushTransaction.controller_state K TT TR TL TU TP TPU TLK TG TA TM TC TRC TX TB).
Abbreviation chain_database := (@PushTransaction.chain_database TT TR TL TU TP TPU TLK TG TA TM TC TRC TX TB).
Abbreviation transaction_receipt := (@PushTransaction.transaction_receipt K).
Abbreviation transaction_metadata := (@PushTransaction.transaction_metadata K).
Abbreviation schedule := (producer_schedule_type public_key).
Abbreviation signed_header := (signed_block_header public_key signature).
Abbreviation auth_tables := (@auth_db TP TPU TLK TG).

(** *** Merkle roots *)

(** The hash of the packed members of a receipt, packed_transaction::packed_digest
    and action_receipt::digest *)
Context (hash_receipt : receipt_status -> Z -> Z -> Z + digest_type -> digest_type)
  (packed_digest : transaction_metadata -> digest_type) (action_receipt_digest : action_receipt -> digest_type).

(** transaction_receipt::digest *)
Definition receipt_digest (r : transaction_receipt) : digest_type :=
  hash_receipt (status (receipt r)) (cpu_usage_us (receipt r)) (net_usage_words (receipt r))
    (match receipt_trx r with inl id => inl id | inr m => inr (packed_digest m) end).

Definition calculate_action_merkle (s : controller_state) : digest_type :=
  merkle hash_pair (action_receipt_digest <$> block_actions s).
Definition calculate_trx_merkle (s : controller_state) : digest_type :=
  merkle hash_pair (receipt_digest <$> pending_trx_receipts s).

(** *** finalize_block *)

Record assembled_block := mk_assembled {
  _id : digest_type;
  _pending_block_header_state : pending_block_header_state;
  _trx_metas : list transaction_metadata;
  _unsigned_block : signed_header;
  unsigned_transactions : list transaction_receipt
}.

Inductive pending_stage :=
| Building (pbhs : pending_block_header_state) (_new_pending_producer_schedule : option schedule)
    (_new_protocol_feature_activations : list digest_type)
| Assembled (ab : assembled_block)
| Completed (block_state : block_header_state).

Record block_in_progress := mk_progress { controller : controller_state; pending : option pending_stage }.

Definition set_summaries (t : TB) (s : controller_state) : controller_state :=
  let d := db s in
  set_db (mk_chain_database (tables d) (ram_corrections d) (action_sequence d) (transactions d) t) s.

Definition create_block_summary (id : digest_type) : exec controller_state unit :=
  let sid := Z.land (num_from_id id) 0xffff in
  do s <- get_state;
  do _ <- lift (tbl_get sid (block_summaries (db s)));
  put_state (set_summaries (tbl_put sid id (block_summaries (db s))) s).

(** The lists of the building block that were moved are empty; the schedule and
    the activations, moved too, are not read again. *)
Definition assemble (cfg : chain_config) (p : pending_block_header_state) (np : option schedule) (features : list digest_type)
    : exec controller_state assembled_block :=
  do _ <- in_resource_limits (BlockLimits.update_resource_limits cfg (block_num (p_common p)));
  do s <- get_state;
  let block := make_block_header p (calculate_trx_merkle s) (calculate_action_merkle s) np features in
  let id := header_id (bare_header block) in
  do _ <- modify (set_receipts []);
  do _ <- create_block_summary id;
  do _ <- modify (fun s => set_actions [] (set_metas [] s));
  ret (mk_assembled id p (pending_trx_metas s) block (pending_trx_receipts s)).

Definition finalize_block (cfg : chain_config) : exec block_in_progress unit := fun b =>
  match pending b with
  | Some (Building p np features) =>
      match capture_and_rethrow (assemble cfg p np features) (controller b) with
      | (Ok ab, s) => (Ok tt, mk_progress s (Some (Assembled ab)))
      | (Throw e, s) => (Throw e, mk_progress s (pending b))
      end
  | _ => (Throw block_validate_exception, b)
  end.

(** *** update_producers_authority *)

#[local] Instance level_weight_eq_dec : EqDecision permission_level_weight.
Proof. solve_decision. Defined.
#[local] Instance key_weight_eq_dec : EqDecision (key_weight K).
Proof. solve_decision. Defined.
#[local] Instance wait_weight_eq_dec : EqDecision wait_weight.
Proof. solve_decision. Defined.
#[local] Instance authority_eq_dec : EqDecision (authority K).
Proof. solve_decision. Defined.

Definition producers_authority (threshold_ : Z) (ps : list (producer_key public_key)) : authority K :=
  mk_authority threshold_ [] ((fun p => mk_level_weight (mk_level (producer_name p) active_name) 1) <$> ps) [].

Definition set_perm_auth (auth : authority K) (p : permission_object K) : permission_object K :=
  mk_permission (perm_id p) (perm_usage_id p) (perm_parent p) (perm_owner p) (perm_name p) (perm_last_updated p) auth.

Definition calculate_threshold (num_producers numerator denominator : Z) : Z :=
  u32 (u32 (num_producers * numerator) / denominator + 1).

Definition update_permission (ps : list (producer_key public_key)) (permission_name threshold_ : Z) : exec auth_tables unit :=
  do d <- get_state;
  do p <- lift (get_permission d (mk_level producers_account_name permission_name));
  let auth := producers_authority threshold_ ps in
  if bool_decide (perm_auth p = auth) then ret tt
  else put_state (set_permissions (tbl_put (perm_id p) (set_perm_auth auth p) (permissions d)) (next_permission_id d) d).

Definition update_producers_authority (pbhs : pending_block_header_state) : exec auth_tables unit :=
  let ps := producers (active_schedule (p_common pbhs)) in
  let num_producers := u32 (Z.of_nat (length ps)) in
  do _ <- update_permission ps active_name (calculate_threshold num_producers 2 3);
  do _ <- update_permission ps majority_producers_permission_name (calculate_threshold num_producers 1 2);
  update_permission ps minority_producers_permission_name (calculate_threshold num_producers 1 3).

(** *** The permissions of the producers *)

Abbreviation permission_rows d := (tbl_view (permissions d)).

Lemma get_permission_unique (d : auth_tables) id p :
  tree_ok d -> permission_rows d !! id = Some p -> perm_owner p <> 0 -> perm_name p <> 0 ->
  get_permission d (mk_level (perm_owner p) (perm_name p)) = Ok p.
Proof.
  intros Hok Hp Ho Hn. unfold get_permission. cbn [actor permission].
  apply Z.eqb_neq in Ho, Hn. rewrite Ho, Hn. cbn [negb andb eos_assert res_bind].
  destruct (find_by_owner d (perm_owner p) (perm_name p)) as [q|] eqn:Ef.
  - apply find_by_owner_Some in Ef as (j & Hq & Eo & En).
    assert (j = id) as -> by (by eapply (tree_unique _ Hok)). congruence.
  - exfalso. by eapply find_by_owner_None.
Qed.

Section Update.
Context (ps : list (producer_key public_key)) (name threshold_ : Z) (d : auth_tables) (p : permission_object K).
Context (Hok : tree_ok d) (Hp : get_permission d (mk_level producers_account_name name) = Ok p).
Let q := set_perm_auth (producers_authority threshold_ ps) p.

Lemma update_permission_run :
  exists d', update_permission ps name threshold_ d = (Ok tt, d') /\ permission_rows d' = <[perm_id p := q]> (permission_rows d) /\ tree_ok d'.
Proof.
  destruct (get_permission_Ok _ _ _ Hok Hp) as (Hrow & _). unfold update_permission, bind, get_state, lift. rewrite Hp.
  case_bool_decide as Ea.
  - exists d. split; [done|]. split; [|done]. symmetry. apply insert_id. rewrite Hrow. subst q. rewrite <- Ea. by destruct p.
  - eexists. split; [reflexivity|]. split; [apply tbl_put_view|].
    apply (modify_permission_tree (perm_last_updated p) (producers_authority threshold_ ps) d p Hok Hrow).
Qed.

(** The permission has the new authority, every other one is as it was. *)
Lemma update_permission_get :
  exists d', update_permission ps name threshold_ d = (Ok tt, d') /\ tree_ok d'
    /\ get_permission d' (mk_level producers_account_name name) = Ok q
    /\ forall l, l <> mk_level producers_account_name name -> get_permission d' l = get_permission d l.
Proof.
  destruct update_permission_run as (d' & E & Hrows & Hok'). exists d'. split; [done|]. split; [done|].
  destruct (get_permission_Ok _ _ _ Hok Hp) as (Hrow & Hid & Eo & En). cbn in Eo, En.
  assert (name <> 0) as Hname.
  { intros E0. unfold get_permission in Hp. cbn in Hp. rewrite E0 in Hp. cbn in Hp. inv_res. }
  split.
  { rewrite <- Eo, <- En. apply (get_permission_unique d' (perm_id p) q); subst q; cbn; [done| |by rewrite Eo|by rewrite En].
    by rewrite Hrows, lookup_insert_eq. }
  intros [o n] Hne. unfold get_permission. cbn [actor permission]. destruct (negb _ && negb _) eqn:Hz; [|done]. bprop.
  cbn [eos_assert res_bind]. destruct (find_by_owner d o n) as [r|] eqn:Ef.
  - apply find_by_owner_Some in Ef as (j & Hr & <- & <-).
    assert (j <> perm_id p) as Hj by (intros ->; rewrite Hrow in Hr; injection Hr as <-; apply Hne; by rewrite Eo, En).
    pose proof (get_permission_unique d' j r Hok') as Hg. rewrite Hrows, lookup_insert_ne in Hg by done.
    specialize (Hg Hr). unfold get_permission in Hg. cbn [actor permission] in Hg.
    rewrite (proj2 (Z.eqb_neq _ _)) in Hg by done. rewrite (proj2 (Z.eqb_neq _ _)) in Hg by done. by apply Hg.
  - destruct (find_by_owner d' o n) as [r|] eqn:Ef'; [|done]. exfalso.
    apply find_by_owner_Some in Ef' as (j & Hr & Er & Er'). rewrite Hrows in Hr.
    apply lookup_insert_Some in Hr as [[_ <-]|[_ Hr]]; [|by eapply find_by_owner_None]. subst q. cbn in *. congruence.
Qed.

End Update.

(** [num]/[den] of the producers, and more. *)
Lemma threshold_exact n num den k :
  0 <= n <= max_producers -> 0 < num <= 2 -> 0 < den -> (calculate_threshold n num den <= k <-> num * n < den * k).
Proof.
  intros Hn Hnum Hden. unfold max_producers in Hn. unfold calculate_threshold, u32.
  rewrite (wrap_small 32 (n * num)) by (unfold is_uint; nia).
  assert (0 <= n * num / den <= n * num) by (split; [apply Z.div_pos; nia | apply Z.div_le_upper_bound; nia]).
  rewrite wrap_small by (unfold is_uint; nia).
  pose proof (Z.div_mod (n * num) den ltac:(lia)). pose proof (Z.mod_pos_bound (n * num) den Hden). nia.
Qed.

Section Granted.
Context (permission_to_authority : permission_level -> res (authority K)) (provided_keys : list K)
  (provided_permissions : list permission_level) (provided_delay : Z).
Abbreviation granted := (AuthorityChecker.granted permission_to_authority provided_keys provided_permissions provided_delay).
Abbreviation authority_granted := (AuthorityChecker.authority_granted permission_to_authority provided_keys provided_permissions provided_delay).

(** More than [num]/[den] of the producers have granted their active permission. *)
Definition granted_by_share (num den : Z) (ps : list (producer_key public_key)) : Prop :=
  exists sel, sel ⊆+ ps /\ (forall p, p ∈ sel -> granted (mk_level (producer_name p) active_name))
    /\ num * Z.of_nat (length ps) < den * Z.of_nat (length sel).

Definition vote (p : producer_key public_key) : meta_permission K := MLevel (mk_level_weight (mk_level (producer_name p) active_name) 1).

Lemma votes_of_producers th ps sel :
  sel ⊆+ metas (producers_authority th ps) -> exists l, sel = vote <$> l /\ l ⊆+ ps.
Proof.
  intros Hsel. assert (sel ⊆+ vote <$> ps) as Hs.
  { revert Hsel. unfold metas, producers_authority. cbn. by rewrite <- list_fmap_compose. }
  apply submseteq_Permutation in Hs as (k & Hk). symmetry in Hk. apply Permutation_map_inv in Hk as (l & Hl & Hp).
  symmetry in Hl. apply map_eq_app in Hl as (l1 & l2 & -> & <- & _). exists l1. split; [done|].
  rewrite Hp. by apply submseteq_inserts_r.
Qed.

Lemma weight_of_votes l : sum_weights get_weight (vote <$> l) = Z.of_nat (length l).
Proof. induction l as [|p l IH]; [done|]. change (1 + sum_weights get_weight (vote <$> l) = Z.of_nat (S (length l))). lia. Qed.

Lemma producers_authority_granted ps num den :
  Z.of_nat (length ps) <= max_producers -> 0 < num <= 2 -> 0 < den ->
  authority_granted (producers_authority (calculate_threshold (Z.of_nat (length ps)) num den) ps) <-> granted_by_share num den ps.
Proof.
  intros Hn Hnum Hden. pose proof (fun k => threshold_exact (Z.of_nat (length ps)) num den k ltac:(lia) Hnum Hden) as Hth.
  unfold AuthorityChecker.authority_granted, granted_by_share. cbn [threshold producers_authority]. split.
  - intros (sel & Hsel & Hg & Ht). apply votes_of_producers in Hsel as (l & -> & Hl). exists l. split; [done|].
    rewrite weight_of_votes in Ht. split; [|by apply Hth]. intros p Hp.
    specialize (Hg (vote p) (list_elem_of_fmap_2 _ _ _ Hp)). by inversion Hg.
  - intros (l & Hl & Hg & Ht). exists (vote <$> l). rewrite weight_of_votes. split_and!; [|intros m Hm|by apply Hth].
    + unfold metas, producers_authority. cbn. rewrite <- list_fmap_compose. by apply fmap_submseteq.
    + apply list_elem_of_fmap in Hm as (p & -> & Hp). by apply factor_level, Hg.
Qed.
(** C17: update_producers_authority gives the permissions active, prod.major and
    prod.minor of eosio.prods to the active producers: the authority of each is
    granted exactly when more than two thirds, a half and a third of them have
    granted their active permissions, whatever keys, permissions and delay are
    provided; no other permission changes and the permissions stay a tree. *)
Theorem producers_permissions_by_share pbhs d a1 a2 a3 :
  let ps := producers (active_schedule (p_common pbhs)) in
  tree_ok d -> Z.of_nat (length ps) <= max_producers ->
  get_permission d (mk_level producers_account_name active_name) = Ok a1 ->
  get_permission d (mk_level producers_account_name majority_producers_permission_name) = Ok a2 ->
  get_permission d (mk_level producers_account_name minority_producers_permission_name) = Ok a3 ->
  exists d', update_producers_authority pbhs d = (Ok tt, d') /\ tree_ok d'
    /\ Forall (fun '(name, num, den) =>
         exists p, get_permission d' (mk_level producers_account_name name) = Ok p
           /\ (authority_granted (perm_auth p) <-> granted_by_share num den ps))
         [(active_name, 2, 3); (majority_producers_permission_name, 1, 2); (minority_producers_permission_name, 1, 3)]
    /\ forall l, (forall name, name ∈ [active_name; majority_producers_permission_name; minority_producers_permission_name] ->
                    l <> mk_level producers_account_name name) -> get_permission d' l = get_permission d l.
Proof.
  cbn zeta. intros Hok Hn H1 H2 H3. unfold update_producers_authority.
  replace (u32 (Z.of_nat (length _))) with (Z.of_nat (length (producers (active_schedule (p_common pbhs)))))
    by (unfold u32; rewrite wrap_small; [done|]; unfold is_uint, max_producers in *; lia).
  set (ps := producers _) in *. set (n := Z.of_nat (length ps)) in *.
  destruct (update_permission_get ps _ (calculate_threshold n 2 3) d a1 Hok H1) as (d1 & E1 & Hok1 & G1 & O1).
  rewrite <- O1 in H2, H3 by done.
  destruct (update_permission_get ps _ (calculate_threshold n 1 2) d1 a2 Hok1 H2) as (d2 & E2 & Hok2 & G2 & O2).
  rewrite <- O2 in H3, G1 by done.
  destruct (update_permission_get ps _ (calculate_threshold n 1 3) d2 a3 Hok2 H3) as (d3 & E3 & Hok3 & G3 & O3).
  rewrite <- O3 in G1, G2 by done.
  exists d3. split; [unfold bind; by rewrite E1, E2, E3|]. split; [done|]. split.
  - repeat constructor; eexists; (split; [eassumption|]); apply producers_authority_granted; (done || lia).
  - intros l Hl. rewrite O3, O2, O1 by (apply Hl; set_solver). done.
Qed.

End Granted.

(** *** finalize_block succeeds *)

Abbreviation limits_of s := (resource_limits (context (tables (db s)))).

(** block_summary_object has a row for each 16-bit number. *)
Definition summaries_complete (t : TB) : Prop := forall sid, is_uint 16 sid -> is_Some (tbl_view t !! sid).

Lemma low_bits n : Z.land n 0xffff = u16 n.
Proof. change 0xffff with (Z.ones 16). by rewrite Z.land_ones. Qed.

Lemma create_block_summary_ok id s :
  summaries_complete (block_summaries (db s)) ->
  exists t, create_block_summary id s = (Ok tt, set_summaries t s)
    /\ tbl_view t = <[u16 (num_from_id id) := id]> (tbl_view (block_summaries (db s))).
Proof.
  intros Hc. destruct (Hc (u16 (num_from_id id))) as [old Hold]; [unfold is_uint, u16, wrap; apply Z.mod_pos_bound; lia|].
  unfold create_block_summary, bind, get_state, lift, put_state, tbl_get. rewrite low_bits, tbl_find_view, Hold.
  eexists. split; [reflexivity|]. apply tbl_put_view.
Qed.

Lemma in_resource_limits_run (m : exec (@Manager.database TL TU) unit) (s : controller_state) l :
  m (limits_of s) = (Ok tt, l) ->
  exists s', in_resource_limits m s = (Ok tt, s') /\ limits_of s' = l /\ block_summaries (db s') = block_summaries (db s)
    /\ pending_trx_receipts s' = pending_trx_receipts s /\ pending_trx_metas s' = pending_trx_metas s /\ block_actions s' = block_actions s.
Proof. intros E. unfold in_resource_limits, zoom. rewrite E. eexists. split; [reflexivity|done]. Qed.

(** A transaction that refers to a recorded block. *)
Lemma referring_passes_tapos id trx_ env (t : TB) :
  the_trx env = set_reference_block id trx_ -> tbl_view t !! u16 (num_from_id id) = Some id -> validate_tapos env t = Ok tt.
Proof.
  intros Htrx Hid. unfold validate_tapos, tbl_get. rewrite Htrx. cbn [set_reference_block ref_block_num].
  assert (u16 (u16 (num_from_id id)) = u16 (num_from_id id)) as -> by (unfold u16, wrap; apply Z.mod_mod; lia).
  rewrite tbl_find_view, Hid. cbn [res_bind]. unfold verify_reference_block. cbn. by rewrite !Z.eqb_refl.
Qed.



(** *** The start of the block *)

(** fc::raw::pack( head_block_header ), and the transaction_metadata made of a
    signed transaction *)
Context (pack_header : signed_header -> list Z) (metadata_of : transaction -> transaction_metadata).
Context (cenv : @chain_environment K).
Context (contract : Z -> Z -> Z -> @ActionExecution.program SF TT TR TL TU TP TPU TLK TG TA TM TC TRC) (act_digest : action -> digest_type)
  (decode_native : action -> res (@native_action K)) (checktime : nat -> res unit).

Definition get_on_block_transaction (head : block_header_state) : transaction :=
  let on_block_act := mk_action system_account_name onblock_name [mk_level system_account_name active_name] (pack_header (header head)) in
  let trx := mk_transaction 0 0 0 0 0 0 [] [on_block_act] [] in
  if feature_no_duplicate_deferred_id cenv then trx
  else set_reference_block (bhs_id head)
         (mk_transaction (u32 ((PushTransaction.pending_block_time cenv + 999999) / 1000000)) 0 0 0 0 0 [] [on_block_act] []).

Definition as_implicit (m : transaction_metadata) : transaction_metadata :=
  mk_trx_metadata (meta_id m) (signed_id m) (meta_trx m) (unprunable_size m) (prunable_size m) true (recovered m).

(** The exceptions of the transaction are logged and forgotten; undefined
    behaviour is not an exception. *)
Definition push_on_block (head : block_header_state) (k : clock) : exec controller_state unit :=
  do x <- attempt (requiring_checks (push_transaction cenv contract act_digest decode_native checktime
            (as_implicit (metadata_of (get_on_block_transaction head))) time_point_maximum
            (min_transaction_cpu_usage (chain_cfg cenv)) true k));
  match x with
  | Throw undefined_behavior => lift (Throw undefined_behavior)
  | Throw out_of_fuel => lift (Throw out_of_fuel)
  | _ => ret tt
  end.

Definition in_permissions {A} (m : exec auth_tables A) : exec controller_state A :=
  zoom (fun s => auth (tables (db s)))
    (fun a s => let d := db s in
       set_db (mk_chain_database (set_auth a (tables d)) (ram_corrections d) (action_sequence d) (transactions d) (block_summaries d)) s) m.

Definition clear_expired (s : controller_state) : controller_state :=
  let d := db s in
  set_db (mk_chain_database (tables d) (ram_corrections d) (action_sequence d)
            (clear_expired_input_transactions (PushTransaction.pending_block_time cenv) (transactions d)) (block_summaries d)) s.

(** What start_block does once the schedule is promoted. *)
Definition start_transactions (head : block_header_state) (pbhs : pending_block_header_state) (k : clock) : exec controller_state unit :=
  do _ <- push_on_block head k;
  do _ <- modify clear_expired;
  in_permissions (update_producers_authority pbhs).

(** The onblock transaction leaves no receipt in the block: it has run, with its
    actions added to those of the block, or the database and the actions are as
    they were. *)
Theorem on_block_leaves_no_receipt head k s :
  let s' := snd (push_on_block head k s) in
  pending_trx_receipts s' = pending_trx_receipts s /\ pending_trx_metas s' = pending_trx_metas s
  /\ in_trx_requiring_checks s' = in_trx_requiring_checks s
  /\ ((db s' = db s /\ block_actions s' = block_actions s)
      \/ exists r, db s' = end_transaction r /\ block_actions s' = block_actions s ++ executed (run_exec r)).
Proof.
  cbn zeta. unfold push_on_block, bind, attempt, requiring_checks, ret, lift.
  set (m := as_implicit _). assert (implicit m = true) as Hm by done. clearbody m.
  set (s0 := set_requiring_checks true s).
  pose proof (push_transaction_pushed cenv contract act_digest decode_native checktime m time_point_maximum
    (min_transaction_cpu_usage (chain_cfg cenv)) true k s0 (requiring_checks_session cenv s0 eq_refl)) as Hp.
  destruct (push_transaction _ _ _ _ _ _ _ _ _ _ _) as [x s1] eqn:E. unfold ends in Hp. cbn [fst snd] in Hp.
  match goal with |- context [snd ?o] => replace (snd o) with (set_requiring_checks (in_trx_requiring_checks s) s1) by (by destruct x as [|[]]) end.
  destruct Hp as [e|t e|t|t h keys r u]; unfold applied, erase in *; rewrite ?Hm; cbn; try (by split_and!; auto).
  - by destruct (failure_is_subjective e); cbn; split_and!; auto.
  - split_and!; [done..|]. right. by exists r.
Qed.

End Finalize.
