(* ===== verification/FinalizeExamples.v ===== *)
(** The theorems of FinalizeBlock.v at concrete blocks: the pending block of
    PushExamples.v, in which alice said hello, is finalized, and the permissions
    of two producers are brought up to date. *)

From Stdlib Require Import ZArith Lia.
From stdpp Require Import base gmap strings numbers sorting list.
From S2P Require Import Prelude Chainbase Name Merkle Authority AuthorityChecker ResourceLimits BlockTimestamp BlockHeader BlockHeaderState AuthorizationManager IteratorCache ContractTables ContractTheorems ContractExamples EosioContract NativeActions NativeExamples ChainConfig AccessLists Transaction TransactionContext TransactionExamples FeatureActivation ActionExecution ActionExamples PushTransaction PushTheorems PushExamples FinalizeBlock.

#[local] Open Scope Z_scope.
#[local] Open Scope chain_scope.
Import Authorization Authorization.Examples.

#[local] Existing Instance Name.boost_trim_reference.
#[local] Existing Instance integer_floats.
#[local] Existing Instance toy_keys.
#[local] Existing Instance toy_hash.

(** ** finalize_block *)

(** All 65536 rows. *)
Definition all_summaries : gmap Z digest_type := gset_to_gmap digest_zero (list_to_set (seqZ 0 65536)).

Lemma all_summaries_complete : summaries_complete (TB := gmap Z digest_type) all_summaries.
Proof.
  intros sid Hsid. exists digest_zero. cbn. apply lookup_gset_to_gmap_Some. split; [|done].
  apply elem_of_list_to_set, elem_of_seqZ. unfold is_uint in Hsid. lia.
Qed.

Definition said_hello_pending : block_in_progress :=
  mk_progress (set_summaries all_summaries said_hello) (Some (Building toy_p None [])).

(** Digests that tell receipts apart by what was billed, and actions by number. *)
Definition toy_receipt_hash (st : receipt_status) (cpu net_ : Z) (trx : Z + digest_type) : digest_type := mk_digest cpu net_ 0 0.
Definition toy_packed_digest (m : @transaction_metadata nat) : digest_type := digest_zero.
Definition toy_action_hash (a : action_receipt) : digest_type := mk_digest (rc_global_sequence a) 0 0 0.

Abbreviation hello_limits := (resource_limits (context (tables (db said_hello)))).

#[local] Instance usage_bounded_dec (n : Z) (d : toy_limits) : Decision (BlockLimits.usage_bounded n d).
Proof. unfold BlockLimits.usage_bounded, Manager.steady, Accumulator.accumulator_typed, is_uint. apply _. Defined.

Lemma hello_limits_consistent : BlockLimits.limits_consistent hello_limits.
Proof.
  split; [apply Manager.pending_have_actual_check; vm_refl|]. split; [split_and!; vm_refl|].
  split_and!; vm_compute; discriminate.
Qed.

Lemma limits_beside_summaries (t : gmap Z digest_type) (s : toy_controller) (stage : option pending_stage) :
  resource_limits (context (tables (db (controller (mk_progress (set_summaries t s) stage))))) = resource_limits (context (tables (db s))).
Proof. reflexivity. Qed.

Lemma default_configuration_bounded : BlockLimits.config_bounded default_configuration.
Proof. split; [|vm_compute; discriminate]. unfold config_typed, is_uint. rewrite !Forall_cons, Forall_nil. cbn. lia. Qed.

Abbreviation pending_limits := (resource_limits (context (tables (db (controller said_hello_pending))))).

Lemma pending_limits_consistent : BlockLimits.limits_consistent pending_limits.
Proof. unfold said_hello_pending. rewrite limits_beside_summaries. apply hello_limits_consistent. Qed.

Lemma pending_limits_bounded : BlockLimits.usage_bounded 5 pending_limits.
Proof. unfold said_hello_pending. rewrite limits_beside_summaries. apply (bool_decide_unpack _). by vm_compute. Qed.

Lemma summaries_beside (t : gmap Z digest_type) (s : toy_controller) (stage : option pending_stage) :
  block_summaries (db (controller (mk_progress (set_summaries t s) stage))) = t.
Proof. reflexivity. Qed.

Lemma pending_summaries_complete : summaries_complete (block_summaries (db (controller said_hello_pending))).
Proof. unfold said_hello_pending. rewrite summaries_beside. apply all_summaries_complete. Qed.

Lemma receipts_beside (t : gmap Z digest_type) (s : toy_controller) (stage : option pending_stage) :
  pending_trx_receipts (controller (mk_progress (set_summaries t s) stage)) = pending_trx_receipts s.
Proof. reflexivity. Qed.

Lemma pending_hello_receipts : length (pending_trx_receipts (controller said_hello_pending)) = 1%nat.
Proof. unfold said_hello_pending. rewrite receipts_beside. vm_refl. Qed.


(** ** The permissions of eosio.prods *)

Definition prods_permission (id parent name : Z) : permission_object nat :=
  mk_permission id (id - 1) parent producers_account_name name 1000 (mk_authority 1 [] [] []).
Definition prods_db : toy_db :=
  mk_auth_db {[0 := mk_permission 0 0 0 0 0 0 empty_authority; 1 := prods_permission 1 0 1;
               2 := prods_permission 2 1 active_name; 3 := prods_permission 3 2 majority_producers_permission_name;
               4 := prods_permission 4 3 minority_producers_permission_name]} 5 ∅ 4 ∅ ∅.

Ltac each_row H :=
  cbn in H; repeat (apply lookup_insert_Some in H as [[<- <-]|[_ H]]); [..|apply lookup_singleton_Some in H as [<- <-]].

Lemma prods_db_tree : tree_ok prods_db.
Proof.
  constructor.
  - intros id p Hp. each_row Hp; cbn; lia.
  - exists (mk_permission 0 0 0 0 0 0 empty_authority). done.
  - intros id p Hp Hid. each_row Hp; [done|..]; (split; [cbn; lia|]); eexists; (split; [reflexivity|done]).
  - intros i j p q Hp Hq Ho Hn. each_row Hp; each_row Hq; (done || discriminate).
Qed.

(** Of the producers 20 and 40, one reaches a third, and it takes both for a half
    and for two thirds. *)
Lemma producers_permissions_by_share_witness :
  producers (active_schedule (p_common toy_p)) = [mk_producer_key 20 (120 : @public_key toy_fc); mk_producer_key 40 (140 : @public_key toy_fc)]
  /\ exists d', update_producers_authority toy_p prods_db = (Ok tt, d') /\ tree_ok d'
       /\ (exists p, get_permission d' (mk_level producers_account_name active_name) = Ok p
             /\ threshold (perm_auth p) = 2 /\ length (accounts (perm_auth p)) = 2%nat).
Proof.
  split; [vm_refl|].
  destruct (producers_permissions_by_share (fun _ => Throw permission_query_exception) [] [] 0 toy_p prods_db
    (prods_permission 2 1 active_name) (prods_permission 3 2 majority_producers_permission_name)
    (prods_permission 4 3 minority_producers_permission_name)) as (d' & E & Ht & _ & _).
  - exact prods_db_tree.
  - vm_compute. discriminate.
  - vm_refl.
  - vm_refl.
  - vm_refl.
  - exists d'. split; [exact E|]. split; [exact Ht|].
    assert (d' = snd (update_producers_authority toy_p prods_db)) as -> by (by rewrite E).
    exists (set_perm_auth (producers_authority 2 (producers (active_schedule (p_common toy_p)))) (prods_permission 2 1 active_name)).
    split; [vm_refl|]. split; vm_refl.
Defined.
