(* ===== verification/BlockLog.v ===== *)
(** The block log: block_log.cpp.

    The file blocks.log has a header (version, number of the first block, genesis
    state, a separator) and then the blocks, each followed by its position;
    blocks.index has the positions only.  Files are byte strings under a
    std::fstream, with its position and failbit; the streams of a block_log throw
    when an operation fails, those of repair_log and backup_log do not.  What fc
    packs and unpacks is the class [Packing].  Full disks and concurrent writers
    are not modelled, nor are paths: a directory is the files the code uses in it. *)

From Stdlib Require Import ZArith Lia.
From stdpp Require Import base numbers list list_numbers.
From S2P Require Import Prelude Merkle BlockHeader.

#[local] Open Scope Z_scope.
#[local] Open Scope chain_scope.

(** What fc::raw::unpack does on the bytes ahead: a value and how many bytes it
    took; or the bytes end first, and the value is unfinished; or fc throws. *)
Inductive unpacked (A : Type) :=
| Unpacked (a : A) (n : nat)
| Short (a : A)
| Malformed (e : exn) (n : nat).
Arguments Unpacked {A} a n.
Arguments Short {A} a.
Arguments Malformed {A} e n.

(** fc::raw::pack and unpack: what was packed is unpacked, and unpack depends only on
    the bytes it takes. *)
Class Packing (A : Type) := {
  pack : A -> bytes;
  unpack : bytes -> unpacked A;
  unpack_pack : forall a, unpack (pack a) = Unpacked a (length (pack a));
  unpack_local : forall x a n, unpack x = Unpacked a n -> (n <= length x)%nat /\ forall y, unpack (take n x ++ y) = Unpacked a n
}.

Module BlockLog.

(** ** Numbers in files *)

Definition uint_bytes (w z : Z) : bytes := Z_to_little_endian w 8 z.
Definition bytes_uint (b : bytes) : Z := little_endian_to_Z 8 b.

Definition npos : Z := UINT64_MAX.
Definition min_supported_version : Z := 1.
Definition max_supported_version : Z := 2.

(** ** Streams *)

Record stream := mk_stream { content : bytes; position : nat; failed : bool }.

Definition fail (f : stream) : stream := mk_stream (content f) (position f) true.
Definition goto (p : Z) (f : stream) : stream :=
  if failed f then f else if p <? 0 then fail f else mk_stream (content f) (Z.to_nat p) false.
(** seekg( p ), seekg( off, end ), tellg() *)
Definition seek (p : Z) (f : stream) : stream := goto (i64 p) f.
Definition seek_end (off : Z) (f : stream) : stream := goto (Z.of_nat (length (content f)) + off) f.
Definition tell (f : stream) : Z := if failed f then -1 else Z.of_nat (position f).
Definition ahead (f : stream) : bytes := if failed f then [] else drop (position f) (content f).
(** read over [old]: what is missing stays *)
Definition read_over (old : bytes) (f : stream) : bytes * stream :=
  let d := take (length old) (ahead f) in
  (d ++ drop (length d) old,
   mk_stream (content f) (position f + length d) (failed f || bool_decide (length d < length old)%nat)).
Definition write (d : bytes) (f : stream) : stream :=
  if failed f then f
  else mk_stream (take (position f) (content f ++ replicate (position f - length (content f)) 0) ++ d
                  ++ drop (position f + length d) (content f)) (position f + length d) false.
Definition unpack_from {A} `{!Packing A} (f : stream) : res A * stream :=
  match unpack (ahead f) with
  | Unpacked a n => (Ok a, mk_stream (content f) (position f + n) (failed f))
  | Short a => (Ok a, fail f)
  | Malformed e n => (Throw e, mk_stream (content f) (position f + n) (failed f))
  end.

(** The same on a stream that throws: exceptions( failbit | badbit ). *)
Definition checked {A} (r : A * stream) : res A * stream :=
  let '(a, f) := r in (if failed f then Throw ios_base_failure else Ok a, f).
Definition seekg (p : Z) : exec stream unit := fun f => checked (tt, seek p f).
Definition seekg_end (off : Z) : exec stream unit := fun f => checked (tt, seek_end off f).
Definition tellg : exec stream Z := fun f => (Ok (u64 (tell f)), f).
Definition read_uint (w : Z) : exec stream Z := fun f => let '(d, f') := read_over (replicate (Z.to_nat w) 0) f in checked (bytes_uint d, f').
Definition write_bytes (d : bytes) : exec stream unit := fun f => checked (tt, write d f).
Definition read_packed {A} `{!Packing A} : exec stream A := fun f =>
  let '(r, f') := unpack_from f in
  match r with Throw e => (Throw e, f') | Ok a => checked (a, f') end.

Section BlockLog.
Context {fc : Fc} {R : Type}.

(** signed_block; its receipts are packed only. *)
Record signed_block := mk_signed_block {
  block_head : signed_block_header public_key signature;
  block_transactions : list R;
  block_extensions : list (Z * bytes)
}.
Context `{block_packing : !Packing signed_block} {genesis_state : Type} `{genesis_packing : !Packing genesis_state}.

Definition block_num (b : signed_block) : Z := header_block_num (bare_header (block_head b)).
Definition block_id (b : signed_block) : digest_type := header_id (bare_header (block_head b)).

Record block_log := mk_block_log {
  head : option signed_block;
  head_id : digest_type;
  block_stream : stream;
  index_stream : stream;
  open_files : bool;
  genesis_written_to_block_log : bool;
  version : Z;
  first_block_num : Z
}.

Definition set_head (h : option signed_block) (i : digest_type) (s : block_log) : block_log :=
  mk_block_log h i (block_stream s) (index_stream s) (open_files s) (genesis_written_to_block_log s) (version s) (first_block_num s).
Definition set_block_stream (f : stream) (s : block_log) : block_log :=
  mk_block_log (head s) (head_id s) f (index_stream s) (open_files s) (genesis_written_to_block_log s) (version s) (first_block_num s).
Definition set_index_stream (f : stream) (s : block_log) : block_log :=
  mk_block_log (head s) (head_id s) (block_stream s) f (open_files s) (genesis_written_to_block_log s) (version s) (first_block_num s).
Definition set_open_files (x : bool) (s : block_log) : block_log :=
  mk_block_log (head s) (head_id s) (block_stream s) (index_stream s) x (genesis_written_to_block_log s) (version s) (first_block_num s).
Definition set_genesis_written (s : block_log) : block_log :=
  mk_block_log (head s) (head_id s) (block_stream s) (index_stream s) (open_files s) true (version s) (first_block_num s).
Definition set_version (x : Z) (s : block_log) : block_log :=
  mk_block_log (head s) (head_id s) (block_stream s) (index_stream s) (open_files s) (genesis_written_to_block_log s) x (first_block_num s).
Definition set_first_block_num (x : Z) (s : block_log) : block_log :=
  mk_block_log (head s) (head_id s) (block_stream s) (index_stream s) (open_files s) (genesis_written_to_block_log s) (version s) x.

Definition in_blocks {A} (m : exec stream A) : exec block_log A := zoom block_stream set_block_stream m.
Definition in_index {A} (m : exec stream A) : exec block_log A := zoom index_stream set_index_stream m.

(** ** block_log_impl *)

Definition close : exec block_log unit := modify (set_open_files false).
(** open the files anew, which clears the failbits *)
Definition reopen : exec block_log unit :=
  do _ <- close;
  do _ <- modify (fun s => set_block_stream (mk_stream (content (block_stream s)) 0 false) s);
  do _ <- modify (fun s => set_index_stream (mk_stream (content (index_stream s)) 0 false) s);
  modify (set_open_files true).
Definition check_open_files : exec block_log unit :=
  do s <- get_state;
  if negb (open_files s) then reopen else ret tt.
(** close and fc::remove_all, before reopen creates an empty file *)
Definition remove_index : exec block_log unit :=
  do _ <- close;
  modify (fun s => set_index_stream (mk_stream [] 0 false) s).

(** ** block_log *)

Definition append (b : signed_block) : exec block_log Z :=
  capture_and_rethrow (
    do s <- get_state;
    check (genesis_written_to_block_log s) else block_log_append_fail;
    do _ <- check_open_files;
    do _ <- in_blocks (seekg_end 0);
    do _ <- in_index (seekg_end 0);
    do pos <- in_blocks tellg;
    do at_ <- in_index tellg;
    check (at_ =? u64 (8 * u32 (block_num b - first_block_num s))) else block_log_append_fail;
    do _ <- in_blocks (write_bytes (pack b));
    do _ <- in_blocks (write_bytes (uint_bytes 8 pos));
    do _ <- in_index (write_bytes (uint_bytes 8 pos));
    do _ <- modify (set_head (Some b) (block_id b));
    ret pos).

Definition reset (gs : genesis_state) (first_block : option signed_block) (first_num : Z) : exec block_log unit :=
  do _ <- remove_index;
  do _ <- modify (set_block_stream (mk_stream [] 0 false));
  do _ <- reopen;
  do _ <- modify (set_version 0);
  do _ <- modify (set_first_block_num first_num);
  do _ <- in_blocks (seekg_end 0);
  do _ <- in_blocks (write_bytes (uint_bytes 4 0));
  do _ <- in_blocks (write_bytes (uint_bytes 4 first_num));
  do _ <- in_blocks (write_bytes (pack gs));
  do _ <- modify set_genesis_written;
  do _ <- in_blocks (write_bytes (uint_bytes 8 npos));
  do _ <- match first_block with
          | Some b => do _ <- append b; ret tt
          | None => modify (set_head None digest_zero)
          end;
  do pos <- in_blocks tellg;
  do _ <- modify (set_version max_supported_version);
  do _ <- in_blocks (seekg 0);
  do _ <- in_blocks (write_bytes (uint_bytes 4 max_supported_version));
  in_blocks (seekg pos).

Definition read_block (pos : Z) : exec block_log (signed_block * Z) :=
  do _ <- check_open_files;
  do _ <- in_blocks (seekg pos);
  do b <- in_blocks read_packed;
  do p <- in_blocks tellg;
  ret (b, u64 (p + 8)).

Definition get_block_pos (n : Z) : exec block_log Z :=
  do _ <- check_open_files;
  do s <- get_state;
  if negb (bool_decide (is_Some (head s)) && (n <=? num_from_id (head_id s)) && (first_block_num s <=? n)) then ret npos
  else
    do _ <- in_index (seekg (u64 (8 * u32 (n - first_block_num s))));
    in_index (read_uint 8).

Definition read_block_by_num (n : Z) : exec block_log (option signed_block) :=
  capture_and_rethrow (
    do pos <- get_block_pos n;
    if negb (pos =? npos) then
      do bp <- read_block pos;
      check (block_num (fst bp) =? n) else reversible_blocks_exception;
      ret (Some (fst bp))
    else ret None).

Definition read_block_by_id (i : digest_type) : exec block_log (option signed_block) := read_block_by_num (num_from_id i).

Definition read_head : exec block_log (option signed_block) :=
  do _ <- check_open_files;
  do _ <- in_blocks (seekg_end 0);
  do size <- in_blocks tellg;
  if size <=? 8 then ret None
  else
    do _ <- in_blocks (seekg_end (-8));
    do pos <- in_blocks (read_uint 8);
    if negb (pos =? npos) then do bp <- read_block pos; ret (Some (fst bp)) else ret None.

(** [fuel] bounds the iterations: each reads eight bytes at least. *)
Fixpoint construct_loop (fuel : nat) (pos end_pos : Z) : exec block_log unit :=
  match fuel with
  | O => lift (Throw out_of_fuel)
  | S fuel =>
      if pos <? end_pos then
        do _ <- in_blocks (read_packed (A := signed_block));
        do pos <- in_blocks (read_uint 8);
        do _ <- in_index (write_bytes (uint_bytes 8 pos));
        construct_loop fuel pos end_pos
      else ret tt
  end.
Definition construct_index : exec block_log unit :=
  do _ <- remove_index;
  do _ <- reopen;
  do _ <- in_blocks (seekg_end (-8));
  do end_pos <- in_blocks (read_uint 8);
  if end_pos =? npos then ret tt
  else
    do s <- get_state;
    let pos := if version s =? 1 then 4 else 8 in
    do _ <- in_blocks (seekg pos);
    do _ <- in_blocks (read_packed (A := genesis_state));
    do _ <- (if 1 <? version s then do _ <- in_blocks (read_uint 8); ret tt else ret tt);
    do _ <- in_index (seekg_end 0);
    construct_loop (S (length (content (block_stream s)))) pos end_pos.

Definition supported (v : Z) : res unit :=
  match eos_assert (0 <? v) block_log_exception with
  | Ok _ => eos_assert ((min_supported_version <=? v) && (v <=? max_supported_version)) block_log_unsupported_version
  | Throw e => Throw e
  end.

(** The constructor and open, on the files as they are found. *)
Definition new_block_log (log index : bytes) : block_log :=
  mk_block_log None digest_zero (mk_stream log 0 false) (mk_stream index 0 false) false false 0 0.
Definition read_header : exec block_log unit :=
  do _ <- in_blocks (seekg 0);
  do v <- in_blocks (read_uint 4);
  do _ <- modify (set_version v);
  do _ <- lift (supported v);
  do _ <- modify set_genesis_written;
  if 1 <? v then
    do n <- in_blocks (read_uint 4);
    do _ <- modify (set_first_block_num n);
    lift (eos_assert (0 <? n) block_log_exception)
  else modify (set_first_block_num 1).
(** The last entry of the index must be the position of the last block. *)
Definition check_index (index_size : Z) : exec block_log unit :=
  if negb (index_size =? 0) then
    do _ <- in_blocks (seekg_end (-8));
    do block_pos <- in_blocks (read_uint 8);
    do _ <- in_index (seekg_end (-8));
    do index_pos <- in_index (read_uint 8);
    if negb (block_pos =? index_pos) then construct_index else ret tt
  else construct_index.
Definition open : exec block_log unit :=
  do _ <- close;
  do _ <- reopen;
  do s <- get_state;
  let log_size := Z.of_nat (length (content (block_stream s))) in
  let index_size := Z.of_nat (length (content (index_stream s))) in
  if negb (log_size =? 0) then
    do _ <- read_header;
    do h <- read_head;
    do _ <- modify (set_head h (match h with Some b => block_id b | None => digest_zero end));
    check_index index_size
  else if negb (index_size =? 0) then do _ <- remove_index; reopen
  else ret tt.

(** ** repair_log *)

(** The files of a blocks directory; [bad_tail] is blocks-bad-tail-*.log. *)
Record blocks_dir := mk_dir { log_file : option bytes; index_file : option bytes; bad_tail : option bytes }.
(** The directory and, once it was moved, its backup. *)
Definition dirs : Type := blocks_dir * option blocks_dir.

Definition new_log (d : dirs) : bytes := default [] (log_file (fst d)).
Definition emit (x : bytes) : exec dirs unit :=
  modify (fun d => (mk_dir (Some (new_log d ++ x)) (index_file (fst d)) (bad_tail (fst d)), snd d)).
Definition save_tail (x : bytes) : exec dirs unit :=
  modify (fun d => (mk_dir (log_file (fst d)) (index_file (fst d)) (Some x), snd d)).

(** The loop; [old] is the stream of the old log.  A block that is followed by
    its position is copied; [fuel] bounds the iterations, which write eight bytes
    at least. *)
Fixpoint repair_loop (fuel : nat) (truncate_at_block end_pos pos : Z) (old : stream) : exec dirs unit :=
  match fuel with
  | O => lift (Throw out_of_fuel)
  | S fuel =>
      if pos <? end_pos then
        match unpack_from old with
        | (Throw _, old) => save_tail (fst (read_over (replicate (Z.to_nat (end_pos - pos)) 0) old))
        | (Ok tmp, old) =>
            let '(d, old) := if u64 (u64 (tell old) + 8) <=? end_pos then read_over (uint_bytes 8 UINT64_MAX) old
                             else (uint_bytes 8 UINT64_MAX, old) in
            if negb (pos =? bytes_uint d) then ret tt
            else
              do _ <- emit (pack (tmp : signed_block));
              do _ <- emit (uint_bytes 8 pos);
              do s <- get_state;
              if block_num tmp =? truncate_at_block then ret tt
              else repair_loop fuel truncate_at_block end_pos (Z.of_nat (length (new_log s))) old
        end
      else ret tt
  end.

Definition repair_log (truncate_at_block : Z) : exec dirs unit :=
  do d <- get_state;
  match log_file (fst d) with
  | None => lift (Throw block_log_not_found)
  | Some log =>
      check (bool_decide (snd d = None)) else block_log_backup_dir_exist;
      do _ <- put_state (mk_dir (Some []) None None, Some (fst d));
      let end_pos := Z.of_nat (length log) in
      let '(v, old) := read_over (uint_bytes 4 0) (mk_stream log 0 false) in
      let version := bytes_uint v in
      do _ <- lift (supported version);
      do _ <- emit v;
      do old <- (if negb (version =? 1) then
                   let '(n, old) := read_over (uint_bytes 4 1) old in
                   do _ <- emit n; ret old
                 else ret old);
      let '(gs, old) := unpack_from old in
      do gs <- lift gs;
      do _ <- emit (pack (gs : genesis_state));
      do old <- (if negb (version =? 1) then
                   let '(t, old) := read_over (uint_bytes 8 0) old in
                   check (bytes_uint t =? npos) else block_log_exception;
                   do _ <- emit t; ret old
                 else ret old);
      repair_loop (S (length log)) truncate_at_block end_pos (u64 (tell old)) old
  end.

Definition extract_genesis_state (d : blocks_dir) : res genesis_state :=
  match log_file d with
  | None => Throw block_log_not_found
  | Some log =>
      let '(v, f) := read_over (uint_bytes 4 0) (mk_stream log 0 false) in
      res_bind (supported (bytes_uint v)) (fun _ =>
      let f := if negb (bytes_uint v =? 1) then snd (read_over (uint_bytes 4 1) f) else f in
      fst (unpack_from f))
  end.

(** ** backup_log *)

(** fc::copy on a file that exists. *)
Context (copy_over : bytes -> bytes -> res bytes).

(** blocks.log and blocks_backup.log *)
Definition backup_files : Type := option bytes * option bytes.
Definition set_backup (x : bytes) : exec backup_files unit := modify (fun d => (fst d, Some x)).
Definition backup_bytes (d : backup_files) : bytes := default [] (snd d).

Fixpoint backup_loop (fuel : nat) (backup_end_pos block_end_pos pos : Z) (previous : digest_type) (f : stream) : exec backup_files unit :=
  match fuel with
  | O => lift (Throw out_of_fuel)
  | S fuel =>
      if pos <? block_end_pos then
        match unpack_from f with
        | (Throw _, f) => ret tt
        | (Ok tmp, f) =>
            let i := block_id (tmp : signed_block) in
            if negb (pos =? backup_end_pos) && negb (u32 (num_from_id previous + 1) =? num_from_id i) then ret tt
            else
              let '(d, f) := if u64 (u64 (tell f) + 8) <=? block_end_pos then read_over (uint_bytes 8 UINT64_MAX) f
                             else (uint_bytes 8 UINT64_MAX, f) in
              if negb (pos =? bytes_uint d) then ret tt
              else
                do s <- get_state;
                do _ <- set_backup (backup_bytes s ++ pack tmp ++ uint_bytes 8 pos);
                do s <- get_state;
                backup_loop fuel backup_end_pos block_end_pos (Z.of_nat (length (backup_bytes s))) i f
        end
      else ret tt
  end.

Definition backup_log : exec backup_files unit :=
  do d <- get_state;
  match d with
  | (None, _) => lift (Throw block_log_not_found)
  | (Some log, None) => set_backup log
  | (Some log, Some backup) =>
      let block_end_pos := Z.of_nat (length log) in
      let backup_end_pos := Z.of_nat (length backup) in
      if block_end_pos <=? backup_end_pos then set_backup log
      else
        let '(p, fb) := read_over (uint_bytes 8 0) (seek_end (-8) (mk_stream backup 0 false)) in
        if failed fb then lift (Throw undefined_behavior)
        else
          let pos := bytes_uint p in
          let '(_, f) := read_over (uint_bytes 8 0) (seek_end (-8) (mk_stream log 0 false)) in
          do tmp <- lift (fst (unpack_from (seek pos fb)));
          let '(tmp1, f) := unpack_from (seek pos f) in
          do tmp1 <- lift tmp1;
          if negb (num_from_id (block_id (tmp : signed_block)) =? num_from_id (block_id (tmp1 : signed_block))) then
            do x <- lift (copy_over log backup);
            set_backup x
          else
            backup_loop (S (length log)) backup_end_pos block_end_pos backup_end_pos digest_zero (seek backup_end_pos f)
  end.
End BlockLog.
End BlockLog.
