(* ===== verification/BlockLogTheorems.v ===== *)
(** The block log keeps the blocks appended to it (BlockLog.v): it implements a list
    of blocks under appending, reading and reopening, also when the index is lost
    or stale; repair_log recovers every block that was written completely; and
    backup_log completes a backup that is a prefix of the log. *)

From Stdlib Require Import ZArith Lia.
From stdpp Require Import base numbers list list_numbers.
From S2P Require Import Prelude Merkle BlockHeader BlockLog.

#[local] Open Scope Z_scope.
#[local] Open Scope chain_scope.
Import BlockLog.

(** ** Numbers and streams *)

Lemma length_uint_bytes w z : 0 <= w -> length (uint_bytes w z) = Z.to_nat w.
Proof. intros Hw. pose proof (length_Z_to_little_endian w 8 z Hw). unfold uint_bytes. lia. Qed.

Lemma bytes_uint_of w z : 0 <= w -> is_uint (w * 8) z -> bytes_uint (uint_bytes w z) = z.
Proof. intros Hw Hz. unfold bytes_uint, uint_bytes. rewrite little_endian_to_Z_to_little_endian by lia. by apply Z.mod_small. Qed.

Lemma pos_uint (n : nat) : Z.of_nat n < 2 ^ 63 -> is_uint 64 (Z.of_nat n).
Proof. unfold is_uint. lia. Qed.

Lemma unpack_pack_app {A} `{!Packing A} (a : A) rest : unpack (pack a ++ rest) = Unpacked a (length (pack a)).
Proof. destruct (unpack_local _ _ _ (unpack_pack a)) as [_ H]. specialize (H rest). by rewrite firstn_all in H. Qed.

Lemma ahead_at pre x : ahead (mk_stream (pre ++ x) (length pre) false) = x.
Proof. unfold ahead. cbn. apply drop_app_length. Qed.

Lemma read_over_ok pre d post old : length old = length d ->
  read_over old (mk_stream (pre ++ d ++ post) (length pre) false) = (d, mk_stream (pre ++ d ++ post) (length pre + length d) false).
Proof.
  intros Hl. unfold read_over. rewrite ahead_at, Hl, take_app_length, drop_ge, app_nil_r by lia. cbn. by rewrite bool_decide_false by lia.
Qed.

Lemma seekg_ok c q (p : nat) : Z.of_nat p < 2 ^ 63 -> seekg (Z.of_nat p) (mk_stream c q false) = (Ok tt, mk_stream c p false).
Proof.
  intros Hp. unfold seekg, checked, seek, goto. cbn. rewrite i64_small by (unfold is_int64; lia).
  rewrite (proj2 (Z.ltb_ge _ _)) by lia. cbn. by rewrite Nat2Z.id.
Qed.

Lemma seekg_end_ok c q off (p : nat) : Z.of_nat p = Z.of_nat (length c) + off ->
  seekg_end off (mk_stream c q false) = (Ok tt, mk_stream c p false).
Proof.
  intros Hp. unfold seekg_end, checked, seek_end, goto. cbn. rewrite <- Hp, (proj2 (Z.ltb_ge _ _)) by lia. cbn. by rewrite Nat2Z.id.
Qed.

Lemma seekg_to_end c q : seekg_end 0 (mk_stream c q false) = (Ok tt, mk_stream c (length c) false).
Proof. apply seekg_end_ok. lia. Qed.

Lemma tellg_ok c (p : nat) : Z.of_nat p < 2 ^ 63 -> tellg (mk_stream c p false) = (Ok (Z.of_nat p), mk_stream c p false).
Proof. intros Hp. unfold tellg, tell. cbn. f_equal. f_equal. by apply wrap_small, pos_uint. Qed.

Lemma read_uint_ok w c q pre z post : 0 <= w -> is_uint (w * 8) z -> c = pre ++ uint_bytes w z ++ post -> q = length pre ->
  read_uint w (mk_stream c q false) = (Ok z, mk_stream c (q + Z.to_nat w) false).
Proof.
  intros Hw Hz -> ->. unfold read_uint. rewrite read_over_ok by by rewrite length_replicate, length_uint_bytes.
  cbn. by rewrite bytes_uint_of, length_uint_bytes.
Qed.

Lemma write_end c q d : q = length c -> write_bytes d (mk_stream c q false) = (Ok tt, mk_stream (c ++ d) (q + length d) false).
Proof.
  intros ->. unfold write_bytes, checked, write. cbn. rewrite Nat.sub_diag. cbn. rewrite app_nil_r, firstn_all, drop_ge, app_nil_r by lia. done.
Qed.

Lemma write_start d x t : length d = length x -> write_bytes d (mk_stream (x ++ t) 0 false) = (Ok tt, mk_stream (d ++ t) (length d) false).
Proof. intros El. unfold write_bytes, checked, write. cbn. by rewrite El, drop_app_length. Qed.

Lemma read_packed_ok {A} `{!Packing A} (a : A) c q pre post : c = pre ++ pack a ++ post -> q = length pre ->
  read_packed (mk_stream c q false) = (Ok a, mk_stream c (q + length (pack a)) false).
Proof. intros -> ->. unfold read_packed, unpack_from. rewrite ahead_at, unpack_pack_app. done. Qed.

Section BlockLog.
Context {fc : Fc} {R : Type}.
Abbreviation signed_block := (@BlockLog.signed_block fc R).
Context `{block_packing : !Packing signed_block} {genesis_state : Type} `{genesis_packing : !Packing genesis_state}.
Abbreviation block_log := (@BlockLog.block_log fc R).

(** Evaluate the members of the state. *)
Ltac flat := cbv beta iota zeta delta [set_head set_block_stream set_index_stream set_open_files set_genesis_written set_version set_first_block_num
  head head_id block_stream index_stream open_files genesis_written_to_block_log version first_block_num content].

Lemma bind_step {A B} (m : exec block_log A) (k : A -> exec block_log B) s a s1 : m s = (Ok a, s1) -> bind m k s = k a s1.
Proof. intros E. unfold bind. by rewrite E. Qed.
Lemma bind_blocks {A B} (m : exec stream A) (k : A -> exec block_log B) s a f :
  m (block_stream s) = (Ok a, f) -> bind (in_blocks m) k s = k a (set_block_stream f s).
Proof. intros E. unfold bind, in_blocks, zoom. by rewrite E. Qed.
Lemma bind_index {A B} (m : exec stream A) (k : A -> exec block_log B) s a f :
  m (index_stream s) = (Ok a, f) -> bind (in_index m) k s = k a (set_index_stream f s).
Proof. intros E. unfold bind, in_index, zoom. by rewrite E. Qed.

(** ** The bytes of a log *)

Section Layout.
Context (ver first : Z) (gs : genesis_state).

(** Version 1 has neither the number of the first block nor the separator. *)
Definition header_rest : bytes := if ver =? 1 then pack gs else uint_bytes 4 first ++ pack gs ++ uint_bytes 8 npos.
Definition header_bytes : bytes := uint_bytes 4 ver ++ header_rest.
Definition add_block (l : bytes) (b : signed_block) : bytes := l ++ pack b ++ uint_bytes 8 (Z.of_nat (length l)).
Definition log_of (bs : list signed_block) : bytes := foldl add_block header_bytes bs.
(** Where the [i]-th block is. *)
Definition block_at (bs : list signed_block) (i : nat) : nat := length (log_of (take i bs)).
Definition index_of (bs : list signed_block) : bytes :=
  concat ((fun i => uint_bytes 8 (Z.of_nat (block_at bs i))) <$> seq 0 (length bs)).

Lemma log_of_snoc bs b : log_of (bs ++ [b]) = add_block (log_of bs) b.
Proof. unfold log_of. by rewrite foldl_app. Qed.

Lemma log_of_app bs cs : exists rest, log_of (bs ++ cs) = log_of bs ++ rest.
Proof.
  induction cs as [|c cs [rest IH]] using rev_ind; [exists []; by rewrite !app_nil_r|].
  rewrite app_assoc, log_of_snoc, IH. unfold add_block. rewrite <- app_assoc. eauto.
Qed.

Lemma log_at bs i b : bs !! i = Some b ->
  exists post, log_of bs = log_of (take i bs) ++ pack b ++ uint_bytes 8 (Z.of_nat (block_at bs i)) ++ post.
Proof.
  intros Hb. destruct (log_of_app (take (S i) bs) (drop (S i) bs)) as [rest E]. rewrite take_drop in E.
  exists rest. rewrite E. erewrite take_S_r by done. rewrite log_of_snoc. unfold add_block, block_at. by rewrite <- !app_assoc.
Qed.

Lemma block_at_app bs cs i : (i <= length bs)%nat -> block_at (bs ++ cs) i = block_at bs i.
Proof. intros Hi. unfold block_at. by rewrite take_app_le. Qed.

Lemma block_at_end bs : block_at bs (length bs) = length (log_of bs).
Proof. unfold block_at. by rewrite firstn_all. Qed.

Lemma index_of_app bs cs :
  index_of (bs ++ cs) = index_of bs ++ concat ((fun i => uint_bytes 8 (Z.of_nat (block_at (bs ++ cs) i))) <$> seq (length bs) (length cs)).
Proof.
  unfold index_of. rewrite length_app, seq_app, fmap_app, concat_app. f_equal. f_equal. apply list_fmap_ext. intros j i Hi.
  apply lookup_seq in Hi as [-> Hj]. cbv beta. by rewrite block_at_app by lia.
Qed.

Lemma index_of_snoc bs b : index_of (bs ++ [b]) = index_of bs ++ uint_bytes 8 (Z.of_nat (length (log_of bs))).
Proof.
  rewrite index_of_app. f_equal. change (concat _) with (uint_bytes 8 (Z.of_nat (block_at (bs ++ [b]) (length bs))) ++ []).
  by rewrite block_at_app, block_at_end, app_nil_r.
Qed.

Lemma length_index_of bs : length (index_of bs) = (8 * length bs)%nat.
Proof.
  induction bs as [|b bs IH] using rev_ind; [done|]. rewrite index_of_snoc, !length_app, IH, length_uint_bytes by lia. cbn. lia.
Qed.

Lemma index_at bs i : (i < length bs)%nat ->
  exists pre post, index_of bs = pre ++ uint_bytes 8 (Z.of_nat (block_at bs i)) ++ post /\ length pre = (8 * i)%nat.
Proof.
  intros Hi. destruct (lookup_lt_is_Some_2 bs i Hi) as [b Hb].
  pose proof (index_of_app (take (S i) bs) (drop (S i) bs)) as E. rewrite take_drop in E.
  erewrite take_S_r, index_of_snoc, <- app_assoc in E by done. do 2 eexists. split; [exact E|].
  rewrite length_index_of, length_take. lia.
Qed.

Lemma length_log_snoc bs b : length (log_of (bs ++ [b])) = (length (log_of bs) + length (pack b) + 8)%nat.
Proof. rewrite log_of_snoc. unfold add_block. rewrite !length_app, length_uint_bytes by lia. lia. Qed.

Lemma log_of_grows bs cs : (length (log_of bs) <= length (log_of (bs ++ cs)))%nat.
Proof. destruct (log_of_app bs cs) as [rest ->]. rewrite length_app. lia. Qed.

Lemma log_blocks_le bs : (8 * length bs <= length (log_of bs))%nat.
Proof. induction bs as [|b bs IH] using rev_ind; [cbn; lia|]. rewrite length_log_snoc, length_app. cbn. lia. Qed.

End Layout.

(** ** A block log that holds the blocks [bs], the first of them number [first] *)

(** The numbers are consecutive, and the file is not too large for its positions. *)
Record numbers_ok (ver first : Z) (gs : genesis_state) (bs : list signed_block) : Prop := {
  first_range : 0 < first < 2 ^ 32;
  nums : forall i b, bs !! i = Some b -> block_num b = first + Z.of_nat i;
  fits : Z.of_nat (length (log_of ver first gs bs)) < 2 ^ 63
}.

Definition opened (h : option signed_block) (c : bytes) (p : nat) (ic : bytes) (ip : nat) (v first : Z) : block_log :=
  mk_block_log h (from_option block_id digest_zero h) (mk_stream c p false) (mk_stream ic ip false) true true v first.

Inductive holds (ver first : Z) (gs : genesis_state) (bs : list signed_block) : block_log -> Prop :=
  holds_at p ip : numbers_ok ver first gs bs -> (p <= length (log_of ver first gs bs))%nat -> holds ver first gs bs (opened (last bs) (log_of ver first gs bs) p (index_of ver first gs bs) ip ver first).

Lemma block_num_range (b : signed_block) : is_uint 32 (block_num b).
Proof. apply wrap_range. lia. Qed.

Lemma numbers_length ver first gs bs : numbers_ok ver first gs bs -> first + Z.of_nat (length bs) <= 2 ^ 32.
Proof.
  intros [Hf Hn _]. destruct bs as [|b bs _] using rev_ind; [cbn; lia|]. rewrite length_app. cbn [length].
  specialize (Hn (length bs) b). rewrite lookup_app_r, Nat.sub_diag in Hn by lia. specialize (Hn eq_refl).
  pose proof (block_num_range b) as Hb. unfold is_uint in Hb. lia.
Qed.

Lemma numbers_prefix ver first gs bs cs : numbers_ok ver first gs (bs ++ cs) -> numbers_ok ver first gs bs.
Proof.
  intros [Hf Hn Hfit]. split; [done| |pose proof (log_of_grows ver first gs bs cs); lia]. intros i b Hb. apply Hn. by apply lookup_app_l_Some.
Qed.

(** The block that comes next is appended; any other is refused. *)
Lemma append_stores ver first gs bs b s h i : holds ver first gs bs s -> numbers_ok ver first gs (bs ++ [b]) ->
  exists s', append b (set_head h i s) = (Ok (Z.of_nat (length (log_of ver first gs bs))), s') /\ holds ver first gs (bs ++ [b]) s'.
Proof.
  intros [p ip Hn Hp] Hn'. pose proof (fits _ _ _ _ Hn) as Hfit. pose proof (log_blocks_le ver first gs bs) as Hle.
  assert (block_num b - first = Z.of_nat (length bs)) as Hb.
  { rewrite (nums _ _ _ _ Hn' (length bs) b); [lia|]. by rewrite lookup_app_r, Nat.sub_diag by lia. }
  pose proof (numbers_length _ _ _ _ Hn') as Hlen. rewrite length_app in Hlen. cbn [length] in Hlen. pose proof (first_range _ _ _ _ Hn) as Hf.
  cbv [opened set_head block_stream index_stream open_files genesis_written_to_block_log version first_block_num].
  unfold append, capture_and_rethrow. unfold bind at 1, get_state at 1. unfold bind at 1, lift at 1. cbn [eos_assert genesis_written_to_block_log].
  unfold bind at 1. unfold check_open_files, bind at 1, get_state. cbn [open_files negb]. unfold ret at 1.
  erewrite bind_blocks by apply seekg_to_end. erewrite bind_index by apply seekg_to_end.
  erewrite bind_blocks by (apply tellg_ok; cbn; lia). erewrite bind_index by (apply tellg_ok; cbn; rewrite length_index_of; lia).
  unfold bind at 1, lift at 1. cbn [first_block_num]. rewrite Hb, (wrap_small 32), (wrap_small 64), length_index_of by (unfold is_uint; lia).
  rewrite (proj2 (Z.eqb_eq _ _)) by lia. cbn [eos_assert].
  erewrite bind_blocks by (apply write_end; reflexivity). erewrite bind_blocks by (apply write_end; by rewrite length_app).
  erewrite bind_index by (apply write_end; by rewrite length_index_of).
  unfold bind at 1, modify, ret. eexists. split; [reflexivity|].
  pose proof (holds_at ver first gs (bs ++ [b]) (length (log_of ver first gs bs) + length (pack b) + 8) (8 * length bs + 8) Hn') as Hh.
  rewrite last_snoc, log_of_snoc, index_of_snoc in Hh. unfold opened, add_block in Hh. cbn.
  rewrite !length_uint_bytes by lia. rewrite <- app_assoc. apply Hh. rewrite !length_app, length_uint_bytes by lia. lia.
Qed.

Lemma append_holds ver first gs bs b s : holds ver first gs bs s -> numbers_ok ver first gs (bs ++ [b]) ->
  exists s', append b s = (Ok (Z.of_nat (length (log_of ver first gs bs))), s') /\ holds ver first gs (bs ++ [b]) s'.
Proof. intros Hs Hn. pose proof (append_stores ver first gs bs b s (head s) (head_id s) Hs Hn) as H. by destruct s. Qed.

Lemma append_refused ver first gs bs b s : holds ver first gs bs s -> block_num b <> u32 (first + Z.of_nat (length bs)) ->
  exists s', append b s = (Throw block_log_append_fail, s') /\ holds ver first gs bs s'.
Proof.
  intros [p ip Hn Hp] Hb. pose proof (fits _ _ _ _ Hn) as Hfit. pose proof (log_blocks_le ver first gs bs) as Hle.
  pose proof (numbers_length _ _ _ _ Hn) as Hlen. pose proof (first_range _ _ _ _ Hn) as Hf. pose proof (block_num_range b) as Hr.
  unfold append, capture_and_rethrow, opened. unfold bind at 1, get_state at 1. unfold bind at 1, lift at 1. cbn [eos_assert genesis_written_to_block_log].
  unfold bind at 1. unfold check_open_files, bind at 1, get_state. cbn [open_files negb]. unfold ret at 1.
  erewrite bind_blocks by apply seekg_to_end. erewrite bind_index by apply seekg_to_end.
  erewrite bind_blocks by (apply tellg_ok; cbn; lia). erewrite bind_index by (apply tellg_ok; cbn; rewrite length_index_of; lia).
  unfold bind at 1, lift at 1. cbn [first_block_num]. rewrite (wrap_small 64), length_index_of.
  2: { pose proof (wrap_range 32 (block_num b - first)). unfold is_uint, u32 in *. lia. }
  rewrite (proj2 (Z.eqb_neq _ _)).
  - cbn. eexists. split; [reflexivity|]. apply holds_at; [done|cbn; lia].
  - intros E. apply Hb. assert (u32 (block_num b - first) = Z.of_nat (length bs)) as E' by lia.
    rewrite <- E'. unfold u32, wrap. rewrite Zplus_mod_idemp_r. replace (first + (block_num b - first)) with (block_num b) by lia.
    symmetry. by apply Z.mod_small.
Qed.

Lemma read_block_ok ver first gs bs i b (s : block_log) q : bs !! i = Some b -> numbers_ok ver first gs bs -> open_files s = true ->
  block_stream s = mk_stream (log_of ver first gs bs) q false ->
  exists n p, read_block (Z.of_nat (block_at ver first gs bs i)) s = (Ok (b, n), set_block_stream (mk_stream (log_of ver first gs bs) p false) s)
    /\ (p <= length (log_of ver first gs bs))%nat.
Proof.
  intros Hb Hn Ho Es. pose proof (fits _ _ _ _ Hn) as Hfit. destruct (log_at ver first gs bs i b Hb) as [post E].
  assert (block_at ver first gs bs i + length (pack b) <= length (log_of ver first gs bs))%nat as Hat
    by (rewrite E, !length_app; unfold block_at; lia).
  destruct s as [h hid f fi o g v f1]. cbn in Ho, Es. subst o f.
  unfold read_block. unfold bind at 1. unfold check_open_files, bind at 1, get_state. cbn [open_files negb]. unfold ret at 1.
  erewrite bind_blocks by (apply seekg_ok; lia). erewrite bind_blocks by (eapply read_packed_ok; [exact E|reflexivity]).
  erewrite bind_blocks by (apply tellg_ok; cbn; lia). unfold ret. do 2 eexists. split; [reflexivity|]. exact Hat.
Qed.

Lemma read_block_holds ver first gs bs s i b : holds ver first gs bs s -> bs !! i = Some b ->
  exists n s', read_block (Z.of_nat (block_at ver first gs bs i)) s = (Ok (b, n), s') /\ holds ver first gs bs s'.
Proof.
  intros [p ip Hn Hp] Hb.
  destruct (read_block_ok ver first gs bs i b (opened (last bs) (log_of ver first gs bs) p (index_of ver first gs bs) ip ver first) p Hb Hn
    eq_refl eq_refl) as (n & p' & E & Hp'). rewrite E. do 2 eexists. split; [reflexivity|]. apply (holds_at ver first gs bs p' ip Hn Hp').
Qed.

Lemma get_block_pos_holds ver first gs bs s n : holds ver first gs bs s ->
  exists s', get_block_pos n s
    = (Ok (if (first <=? n) && (n <? first + Z.of_nat (length bs)) then Z.of_nat (block_at ver first gs bs (Z.to_nat (n - first))) else npos), s')
    /\ holds ver first gs bs s'.
Proof.
  intros [p ip Hn Hp]. pose proof (fits _ _ _ _ Hn) as Hfit. pose proof (log_blocks_le ver first gs bs) as Hle.
  pose proof (numbers_length _ _ _ _ Hn) as Hlen. pose proof (first_range _ _ _ _ Hn) as Hf.
  unfold get_block_pos, opened. unfold bind at 1. unfold check_open_files, bind at 1, get_state at 1. cbn [open_files negb]. unfold ret at 1.
  unfold bind at 1, get_state. cbn [head head_id first_block_num].
  assert (bool_decide (is_Some (last bs)) && (n <=? num_from_id (from_option block_id digest_zero (last bs))) && (first <=? n)
          = (first <=? n) && (n <? first + Z.of_nat (length bs))) as ->.
  { destruct bs as [|b bs _] using rev_ind; [cbn; destruct (first <=? n) eqn:?; cbn; [|done]; symmetry; apply Z.ltb_ge; lia|].
    rewrite last_snoc. cbn [from_option]. unfold block_id. rewrite num_from_header_id. fold (block_num b).
    rewrite (nums _ _ _ _ Hn (length bs) b) by by rewrite lookup_app_r, Nat.sub_diag by lia.
    rewrite bool_decide_true by eauto. rewrite length_app. cbn [length andb]. rewrite andb_comm. f_equal.
    apply eq_true_iff_eq. rewrite Z.leb_le, Z.ltb_lt. lia. }
  destruct ((first <=? n) && (n <? first + Z.of_nat (length bs))) eqn:Er; cbn [negb]; [|eexists; split; [reflexivity|]; by apply holds_at].
  apply andb_true_iff in Er as [H1%Z.leb_le H2%Z.ltb_lt].
  destruct (index_at ver first gs bs (Z.to_nat (n - first))) as (pre & post & E & Hpre); [lia|].
  assert (is_uint 64 (Z.of_nat (block_at ver first gs bs (Z.to_nat (n - first))))) as Hat.
  { apply pos_uint. unfold block_at. pose proof (log_of_grows ver first gs (take (Z.to_nat (n - first)) bs) (drop (Z.to_nat (n - first)) bs)) as Hg.
    rewrite take_drop in Hg. lia. }
  rewrite (wrap_small 32), (wrap_small 64) by (unfold is_uint; lia). replace (8 * (n - first)) with (Z.of_nat (8 * Z.to_nat (n - first))) by lia.
  erewrite bind_index by (apply seekg_ok; lia). unfold in_index, zoom. cbn [index_stream set_index_stream].
  erewrite read_uint_ok; [|lia|exact Hat|exact E|cbn; lia]. eexists. split; [reflexivity|]. apply holds_at; [done|cbn; lia].
Qed.

(** The block with the number [n]. *)
Definition lookup_num (first : Z) (bs : list signed_block) (n : Z) : option signed_block :=
  if first <=? n then bs !! Z.to_nat (n - first) else None.

Lemma read_block_by_num_holds ver first gs bs s n : holds ver first gs bs s ->
  exists s', read_block_by_num n s = (Ok (lookup_num first bs n), s') /\ holds ver first gs bs s'.
Proof.
  intros Hs. unfold read_block_by_num, capture_and_rethrow, lookup_num. destruct (get_block_pos_holds ver first gs bs s n Hs) as (s1 & E & Hs1).
  unfold bind at 1. rewrite E. destruct (first <=? n) eqn:H1; cbn [andb]; [|cbn; eauto]. apply Z.leb_le in H1.
  destruct (n <? first + Z.of_nat (length bs)) eqn:H2; cycle 1.
  { apply Z.ltb_ge in H2. rewrite lookup_ge_None_2 by lia. cbn. eauto. }
  apply Z.ltb_lt in H2. destruct (lookup_lt_is_Some_2 bs (Z.to_nat (n - first))) as [b Hb]; [lia|]. rewrite Hb.
  assert (numbers_ok ver first gs bs) as Hn by by destruct Hs.
  destruct (log_at ver first gs bs _ b Hb) as [post Elog]. pose proof (fits _ _ _ _ Hn) as Hfit. rewrite Elog, length_app in Hfit.
  rewrite (proj2 (Z.eqb_neq _ _)) by (unfold npos, UINT64_MAX, block_at; lia). cbn [negb].
  destruct (read_block_holds ver first gs bs s1 _ b Hs1 Hb) as (k & s2 & E2 & Hs2). unfold bind at 1. rewrite E2. cbn [fst].
  unfold bind, lift. rewrite (nums _ _ _ _ Hn _ _ Hb), (proj2 (Z.eqb_eq _ _)) by lia. cbn. eauto.
Qed.

(** ** A new log *)

(** The version is written last: until then the file has the version 0. *)
Lemma log_of_version first gs bs : exists t, log_of 0 first gs bs = uint_bytes 4 0 ++ t /\ log_of 2 first gs bs = uint_bytes 4 2 ++ t.
Proof.
  induction bs as [|b bs (t & E0 & E2)] using rev_ind; [by eexists|]. rewrite !log_of_snoc, E0, E2. unfold add_block.
  rewrite !length_app, !length_uint_bytes, <- !app_assoc by lia. eauto.
Qed.

Lemma log_of_version_length first gs bs : length (log_of 0 first gs bs) = length (log_of 2 first gs bs).
Proof. destruct (log_of_version first gs bs) as (t & -> & ->). by rewrite !length_app, !length_uint_bytes by lia. Qed.

Lemma index_of_version first gs bs : index_of 0 first gs bs = index_of 2 first gs bs.
Proof. unfold index_of. f_equal. apply list_fmap_ext. intros _ i _. unfold block_at. by rewrite log_of_version_length. Qed.

Lemma reset_holds first gs fb s : numbers_ok 2 first gs (option_list fb) ->
  exists s', reset gs fb first s = (Ok tt, s') /\ holds 2 first gs (option_list fb) s'.
Proof.
  intros Hn. assert (numbers_ok 0 first gs (option_list fb)) as Hn0 by (destruct Hn; split; [done|done|by rewrite log_of_version_length]).
  unfold reset. erewrite (bind_step remove_index) by reflexivity. erewrite (bind_step (modify _)) by reflexivity.
  erewrite (bind_step reopen) by reflexivity. do 2 erewrite (bind_step (modify _)) by reflexivity.
  erewrite bind_blocks by apply seekg_to_end. erewrite bind_blocks by by apply write_end. erewrite bind_blocks by by apply write_end.
  erewrite bind_blocks by (apply write_end; cbn; rewrite ?length_app; lia). erewrite (bind_step (modify _)) by reflexivity.
  erewrite bind_blocks by (apply write_end; cbn; rewrite !length_app; lia).
  match goal with |- exists s', bind _ _ ?s1 = _ /\ _ => set (s2 := s1) end.
  assert (holds 0 first gs [] (set_head None digest_zero s2)) as Hs2.
  { pose proof (holds_at 0 first gs [] (position (block_stream s2)) 0 (numbers_prefix 0 first gs [] _ Hn0)) as H.
    unfold opened, log_of, header_bytes, header_rest in H. cbn in H. subst s2. cbn. rewrite <- !app_assoc. apply H. rewrite !length_app. lia. }
  assert (exists s3, (match fb with Some b => do _ <- append b; ret tt | None => modify (set_head None digest_zero) end) s2 = (Ok tt, s3)
    /\ holds 0 first gs (option_list fb) s3) as (s3 & E3 & Hs3).
  { destruct fb as [b|]; [|by eexists].
    destruct (append_stores 0 first gs [] b _ (head s2) (head_id s2) Hs2 Hn0) as (s3 & E & Hs3). exists s3. split; [|done].
    unfold bind. replace (set_head (head s2) (head_id s2) _) with s2 in E by by destruct s2. by rewrite E. }
  erewrite bind_step by exact E3. destruct Hs3 as [p ip _ Hp]. destruct (log_of_version first gs (option_list fb)) as (t & E0 & E2).
  pose proof (fits _ _ _ _ Hn0) as Hfit. unfold opened. rewrite E0 in *.
  erewrite bind_blocks by (apply tellg_ok; lia). erewrite (bind_step (modify _)) by reflexivity.
  erewrite bind_blocks by (apply (seekg_ok _ _ 0); lia). erewrite bind_blocks by (apply write_start; by rewrite !length_uint_bytes by lia).
  unfold in_blocks, zoom. cbn [block_stream set_block_stream set_version]. rewrite seekg_ok by lia. eexists. split; [reflexivity|].
  pose proof (holds_at 2 first gs (option_list fb) p ip Hn) as H. unfold opened in H. rewrite E2, <- index_of_version in H. apply H.
  rewrite length_app in *. rewrite length_uint_bytes in * by lia. exact Hp.
Qed.

(** ** Rebuilding the index *)

(** A version the code supports; version 1 starts with block 1 and has blocks. *)
Definition version_ok (ver first : Z) (gs : genesis_state) (bs : list signed_block) : Prop :=
  ver = 2 \/ ver = 1 /\ first = 1 /\ bs <> [] /\ pack gs <> [].

(** The last eight bytes of the log. *)
Definition end_pos (ver first : Z) (gs : genesis_state) (bs : list signed_block) : Z :=
  match bs with [] => npos | _ => Z.of_nat (block_at ver first gs bs (length bs - 1)) end.

Lemma end_pos_snoc ver first gs bs b : end_pos ver first gs (bs ++ [b]) = Z.of_nat (length (log_of ver first gs bs)).
Proof.
  unfold end_pos. destruct (bs ++ [b]) as [|b0 l] eqn:E; [by destruct bs|]. rewrite <- E, length_app. cbn [length].
  rewrite Nat.add_sub, block_at_app, block_at_end by lia. done.
Qed.

Lemma log_tail ver first gs bs : version_ok ver first gs bs -> exists pre, log_of ver first gs bs = pre ++ uint_bytes 8 (end_pos ver first gs bs).
Proof.
  intros Hv. destruct bs as [|b bs _] using rev_ind.
  - destruct Hv as [-> |(_ & _ & [] & _)]; [|done]. exists (uint_bytes 4 2 ++ uint_bytes 4 first ++ pack gs).
    unfold log_of, header_bytes, header_rest. cbn. by rewrite <- !app_assoc.
  - exists (log_of ver first gs bs ++ pack b). rewrite log_of_snoc, end_pos_snoc. unfold add_block. by rewrite <- app_assoc.
Qed.

Lemma end_pos_uint ver first gs bs : numbers_ok ver first gs bs -> is_uint 64 (end_pos ver first gs bs).
Proof.
  intros Hn. pose proof (fits _ _ _ _ Hn) as Hfit. destruct bs as [|b bs _] using rev_ind; [unfold end_pos, npos, UINT64_MAX, is_uint; lia|].
  rewrite end_pos_snoc. apply pos_uint. pose proof (log_of_grows ver first gs bs [b]). lia.
Qed.

Lemma end_pos_npos ver first gs bs : numbers_ok ver first gs bs -> (end_pos ver first gs bs =? npos) = bool_decide (bs = []).
Proof.
  intros Hn. pose proof (fits _ _ _ _ Hn) as Hfit. destruct bs as [|b bs _] using rev_ind; [done|].
  rewrite end_pos_snoc. pose proof (log_of_grows ver first gs bs [b]).
  rewrite (proj2 (Z.eqb_neq _ _)) by (unfold npos, UINT64_MAX; lia). rewrite bool_decide_false; [done|]. by destruct bs.
Qed.

Lemma block_at_S ver first gs bs i b : bs !! i = Some b ->
  block_at ver first gs bs (S i) = (block_at ver first gs bs i + length (pack b) + 8)%nat.
Proof. intros Hb. unfold block_at. erewrite take_S_r, length_log_snoc by done. done. Qed.

Lemma block_at_lt ver first gs bs i j : (i < j)%nat -> (j <= length bs)%nat -> (block_at ver first gs bs i < block_at ver first gs bs j)%nat.
Proof.
  induction 1 as [|j Hij IH]; intros Hj.
  - destruct (lookup_lt_is_Some_2 bs i) as [b Hb]; [lia|]. rewrite (block_at_S _ _ _ _ _ b Hb). lia.
  - destruct (lookup_lt_is_Some_2 bs j) as [b Hb]; [lia|]. rewrite (block_at_S _ _ _ _ _ b Hb). lia.
Qed.

Lemma before_end ver first gs bs i : (i < length bs)%nat ->
  (Z.of_nat (block_at ver first gs bs i) <? end_pos ver first gs bs) = (S i <? length bs)%nat.
Proof.
  intros Hi. unfold end_pos. destruct bs as [|b0 bs0] eqn:Eb; [cbn in Hi; lia|]. rewrite <- Eb in *.
  destruct (S i <? length bs)%nat eqn:E.
  - apply Nat.ltb_lt in E. apply Z.ltb_lt. pose proof (block_at_lt ver first gs bs i (length bs - 1)). lia.
  - apply Nat.ltb_ge in E. apply Z.ltb_ge. replace i with (length bs - 1)%nat by lia. lia.
Qed.

(** The log at the [i]-th block, and the index of those before. *)
Definition scanning (h : option signed_block) (hid : digest_type) (ver first : Z) (gs : genesis_state) (bs : list signed_block) (i : nat) : block_log :=
  mk_block_log h hid (mk_stream (log_of ver first gs bs) (block_at ver first gs bs i) false)
    (mk_stream (index_of ver first gs (take i bs)) (8 * i) false) true true ver first.

Lemma construct_loop_ok h hid ver first gs bs : numbers_ok ver first gs bs -> forall n fuel i pos, (n + i = length bs)%nat -> (n < fuel)%nat ->
  (pos <? end_pos ver first gs bs) = (i <? length bs)%nat ->
  construct_loop fuel pos (end_pos ver first gs bs) (scanning h hid ver first gs bs i) = (Ok tt, scanning h hid ver first gs bs (length bs)).
Proof.
  intros Hn. induction n as [|n IH]; intros fuel i pos Hni Hfuel Hpos; (destruct fuel as [|fuel]; [lia|]); cbn [construct_loop]; rewrite Hpos.
  - cbn in Hni. subst i. by rewrite Nat.ltb_irrefl.
  - rewrite (proj2 (Nat.ltb_lt _ _)) by lia. destruct (lookup_lt_is_Some_2 bs i) as [b Hb]; [lia|].
    destruct (log_at ver first gs bs i b Hb) as [post E]. pose proof (fits _ _ _ _ Hn) as Hfit.
    assert (is_uint 64 (Z.of_nat (block_at ver first gs bs i))) as Hu by (apply pos_uint; rewrite E, length_app in Hfit; unfold block_at; lia).
    unfold scanning at 1. erewrite bind_blocks by (eapply read_packed_ok; [exact E|reflexivity]).
    erewrite bind_blocks by (eapply (read_uint_ok 8); [lia|exact Hu|rewrite E, app_assoc; reflexivity|rewrite length_app; reflexivity]).
    erewrite bind_index by (apply write_end; cbn; rewrite length_index_of, length_take; lia).
    rewrite <- (IH fuel (S i) (Z.of_nat (block_at ver first gs bs i))); [|lia|lia|apply before_end; lia]. f_equal.
    unfold scanning, set_index_stream, set_block_stream. cbn [head head_id block_stream index_stream open_files genesis_written_to_block_log version first_block_num].
    erewrite take_S_r, index_of_snoc, (block_at_S _ _ _ _ i b) by done. rewrite length_uint_bytes by lia.
    f_equal; f_equal; lia.
Qed.

(** The version, the number of the first block and the genesis state. *)
Lemma log_header ver first gs bs : exists rest, log_of ver first gs bs = header_bytes ver first gs ++ rest.
Proof. destruct (log_of_app ver first gs [] bs) as [rest E]. by exists rest. Qed.

Lemma log_length ver first gs bs : version_ok ver first gs bs -> (8 < length (log_of ver first gs bs))%nat.
Proof.
  intros Hv. destruct Hv as [-> |(-> & _ & Hbs & Hgs)].
  - destruct (log_header 2 first gs bs) as [rest ->]. unfold header_bytes, header_rest. rewrite !length_app. cbn.
    rewrite !length_app, !length_uint_bytes by lia. lia.
  - destruct bs as [|b bs _] using rev_ind; [done|]. rewrite length_log_snoc. destruct (log_header 1 first gs bs) as [rest ->].
    unfold header_bytes, header_rest. rewrite !length_app, length_uint_bytes by lia. cbn. lia.
Qed.

(** From the first block to the last. *)
Lemma construct_loop_all h hid ver first gs bs pos : numbers_ok ver first gs bs -> bs <> [] -> pos < Z.of_nat (length (header_bytes ver first gs)) ->
  exists p ip, construct_loop (S (length (log_of ver first gs bs))) pos (end_pos ver first gs bs) (scanning h hid ver first gs bs 0)
    = (Ok tt, mk_block_log h hid (mk_stream (log_of ver first gs bs) p false) (mk_stream (index_of ver first gs bs) ip false) true true ver first)
      /\ (p <= length (log_of ver first gs bs))%nat.
Proof.
  intros Hn Hbs Hpos. exists (block_at ver first gs bs (length bs)), (8 * length bs)%nat. rewrite block_at_end. split; [|lia].
  pose proof (log_blocks_le ver first gs bs). assert (0 < length bs)%nat by (destruct bs; [done|cbn; lia]).
  rewrite (construct_loop_ok h hid ver first gs bs Hn (length bs)); [|lia|lia|].
  - unfold scanning. by rewrite firstn_all, block_at_end.
  - rewrite (proj2 (Nat.ltb_lt _ _)) by lia. apply Z.ltb_lt. unfold end_pos. destruct bs as [|b0 bs0] eqn:Eb; [done|]. rewrite <- Eb in *.
    assert (block_at ver first gs bs 0 = length (header_bytes ver first gs)) as E0 by done.
    destruct (decide (length bs = 1)%nat) as [E1|E1]; [rewrite E1; cbn [Nat.sub]; lia|].
    pose proof (block_at_lt ver first gs bs 0 (length bs - 1)). lia.
Qed.

Lemma construct_index_ok ver first gs bs (s : block_log) : numbers_ok ver first gs bs -> version_ok ver first gs bs ->
  content (block_stream s) = log_of ver first gs bs -> genesis_written_to_block_log s = true -> version s = ver -> first_block_num s = first ->
  exists p ip, construct_index (genesis_packing := genesis_packing) s
    = (Ok tt, mk_block_log (head s) (head_id s) (mk_stream (log_of ver first gs bs) p false) (mk_stream (index_of ver first gs bs) ip false)
                true true ver first) /\ (p <= length (log_of ver first gs bs))%nat.
Proof.
  intros Hn Hv Hc Hg Hver Hfirst. destruct s as [h hid [c q x] [ic iq ix] o g v f]. cbn in Hc, Hg, Hver, Hfirst. subst c g v f.
  destruct (log_tail ver first gs bs Hv) as [pre E]. pose proof (log_length ver first gs bs Hv) as Hlen. pose proof (end_pos_uint _ _ _ _ Hn) as Hu.
  assert (length pre + 8 = length (log_of ver first gs bs))%nat as Hpre by (rewrite E, length_app, length_uint_bytes by lia; lia).
  unfold construct_index. erewrite (bind_step remove_index) by reflexivity. erewrite (bind_step reopen) by reflexivity.
  erewrite bind_blocks by (apply (seekg_end_ok _ _ (-8) (length pre)); cbn; lia).
  erewrite bind_blocks by (eapply (read_uint_ok 8 _ _ pre _ []); [lia|exact Hu|cbn; by rewrite app_nil_r|reflexivity]).
  rewrite (end_pos_npos _ _ _ _ Hn). case_bool_decide as Hbs.
  { subst bs. unfold ret. do 2 eexists. split; [reflexivity|]. cbn in Hpre |- *. lia. }
  unfold bind at 1, get_state. cbn [version set_block_stream set_index_stream set_open_files content block_stream].
  destruct (log_header ver first gs bs) as [rest Eh]. unfold header_bytes, header_rest in Eh.
  assert (block_at ver first gs bs 0 = length (header_bytes ver first gs)) as E0 by done.
  unfold header_bytes, header_rest in E0. destruct Hv as [-> |(-> & _ & _ & Hgs)]; cbn [Z.eqb Pos.eqb Z.ltb Z.compare Pos.compare Pos.compare_cont] in *.
  - rewrite <- !app_assoc in Eh.
    assert (length (uint_bytes 4 2 ++ uint_bytes 4 first) = 8)%nat as H8 by (rewrite length_app, !length_uint_bytes by lia; lia).
    erewrite bind_blocks by (apply (seekg_ok _ _ 8); lia).
    erewrite bind_blocks by (eapply (read_packed_ok gs _ _ (uint_bytes 4 2 ++ uint_bytes 4 first)); [rewrite <- app_assoc; exact Eh|done]).
    unfold bind at 1. erewrite bind_blocks by (eapply (read_uint_ok 8 _ _ (uint_bytes 4 2 ++ uint_bytes 4 first ++ pack gs) npos);
      [lia|unfold npos, UINT64_MAX, is_uint; lia|rewrite <- !app_assoc; exact Eh|rewrite app_assoc, length_app, H8; reflexivity]).
    unfold ret. flat. erewrite bind_index by apply seekg_to_end. flat.
    match goal with |- context [construct_loop _ _ _ ?s1] => assert (s1 = scanning h hid 2 first gs bs 0) as -> end.
    { unfold scanning. rewrite E0. f_equal. f_equal. rewrite !length_app, !length_uint_bytes by lia. lia. }
    apply construct_loop_all; [done|done|]. unfold header_bytes, header_rest. cbn [Z.eqb Pos.eqb]. rewrite !length_app, !length_uint_bytes by lia. lia.
  - rewrite <- !app_assoc in Eh.
    erewrite bind_blocks by (apply (seekg_ok _ _ 4); lia).
    erewrite bind_blocks by (eapply (read_packed_ok gs _ _ (uint_bytes 4 1)); [exact Eh|by rewrite length_uint_bytes by lia]).
    unfold bind at 1, ret. flat. erewrite bind_index by apply seekg_to_end. flat.
    assert (length (pack gs) <> 0)%nat as Hg by by destruct (pack gs).
    match goal with |- context [construct_loop _ _ _ ?s1] => assert (s1 = scanning h hid 1 first gs bs 0) as -> end.
    { unfold scanning. rewrite E0. by f_equal. }
    apply construct_loop_all; [done|done|]. unfold header_bytes, header_rest. cbn [Z.eqb Pos.eqb]. rewrite !length_app, !length_uint_bytes by lia. cbn. lia.
Qed.

(** ** Opening *)

Lemma read_head_ok ver first gs bs (s : block_log) q : numbers_ok ver first gs bs -> version_ok ver first gs bs -> open_files s = true ->
  block_stream s = mk_stream (log_of ver first gs bs) q false ->
  exists p, read_head s = (Ok (last bs), set_block_stream (mk_stream (log_of ver first gs bs) p false) s) /\ (p <= length (log_of ver first gs bs))%nat.
Proof.
  intros Hn Hv Ho Es. destruct s as [h hid f fi o g v f1]. cbn in Ho, Es. subst o f.
  destruct (log_tail ver first gs bs Hv) as [pre E]. pose proof (log_length ver first gs bs Hv) as Hlen. pose proof (end_pos_uint _ _ _ _ Hn) as Hu.
  assert (length pre + 8 = length (log_of ver first gs bs))%nat as Hpre by (rewrite E, length_app, length_uint_bytes by lia; lia).
  pose proof (fits _ _ _ _ Hn) as Hfit.
  unfold read_head. unfold bind at 1. unfold check_open_files, bind at 1, get_state. cbn [open_files negb]. unfold ret at 1.
  erewrite bind_blocks by apply seekg_to_end. erewrite bind_blocks by (apply tellg_ok; cbn; lia). rewrite (proj2 (Z.leb_gt _ _)) by lia.
  erewrite bind_blocks by (apply (seekg_end_ok _ _ (-8) (length pre)); cbn; lia).
  erewrite bind_blocks by (eapply (read_uint_ok 8 _ _ pre _ []); [lia|exact Hu|cbn; by rewrite app_nil_r|reflexivity]).
  rewrite (end_pos_npos _ _ _ _ Hn). case_bool_decide as Hbs; cbn [negb]; flat.
  { subst bs. eexists. split; [reflexivity|]. cbn in Hpre |- *. lia. }
  destruct bs as [|b bs _] using rev_ind; [done|]. rewrite last_snoc. rewrite end_pos_snoc.
  match goal with |- context [bind (read_block _) _ ?s1] =>
    destruct (read_block_ok ver first gs (bs ++ [b]) (length bs) b s1 (length pre + Z.to_nat 8)) as (n & p & Er & Hp) end;
    [by rewrite lookup_app_r, Nat.sub_diag by lia|done|done|done|].
  rewrite block_at_app, block_at_end in Er by lia. erewrite bind_step by exact Er. eexists. split; [reflexivity|exact Hp].
Qed.

(** An index the code can trust or tell from the right one: the right one, an empty
    one, or one whose last entry is not the position of the last block. *)
Definition index_fine (ver first : Z) (gs : genesis_state) (bs : list signed_block) (index : bytes) : Prop :=
  index = index_of ver first gs bs \/ index = []
  \/ exists pre z, index = pre ++ uint_bytes 8 z /\ is_uint 64 z /\ z <> end_pos ver first gs bs.

Lemma supported_ok v : v = 2 \/ v = 1 -> supported v = Ok tt.
Proof. by intros [-> | ->]. Qed.

Lemma read_header_ok ver first gs bs index : numbers_ok ver first gs bs -> version_ok ver first gs bs ->
  exists q, (q <= length (log_of ver first gs bs))%nat
  /\ read_header (R := R) (mk_block_log None digest_zero (mk_stream (log_of ver first gs bs) 0 false) (mk_stream index 0 false) true false 0 0)
     = (Ok tt, mk_block_log None digest_zero (mk_stream (log_of ver first gs bs) q false) (mk_stream index 0 false) true true ver first).
Proof.
  intros Hn Hv. destruct (log_header ver first gs bs) as [rest E]. unfold header_bytes, header_rest in E.
  pose proof (first_range _ _ _ _ Hn) as Hf. pose proof (log_length ver first gs bs Hv) as Hlen.
  assert (ver = 2 \/ ver = 1) as Hver by (destruct Hv; tauto).
  assert (is_uint (4 * 8) ver) as Hu by (unfold is_uint; lia). rewrite <- app_assoc in E. unfold read_header.
  erewrite bind_blocks by (apply (seekg_ok _ _ 0); lia).
  erewrite bind_blocks by (eapply (read_uint_ok 4 _ _ [] ver); [lia|exact Hu|exact E|reflexivity]).
  erewrite (bind_step (modify _)) by reflexivity. unfold bind at 1, lift at 1. rewrite (supported_ok _ Hver).
  erewrite (bind_step (modify _)) by reflexivity. flat. destruct Hv as [-> |(-> & -> & _)]; cbn [Z.ltb Z.compare Pos.compare Pos.compare_cont Z.eqb Pos.eqb] in *.
  - exists 8%nat. split; [lia|].
    erewrite bind_blocks by (eapply (read_uint_ok 4 _ _ (uint_bytes 4 2) first); [lia|unfold is_uint; lia|rewrite <- !app_assoc in E; exact E|done]).
    erewrite (bind_step (modify _)) by reflexivity. unfold lift. by rewrite (proj2 (Z.ltb_lt _ _)) by lia.
  - exists 4%nat. split; [lia|]. done.
Qed.

Lemma check_index_ok ver first gs bs index q : numbers_ok ver first gs bs -> version_ok ver first gs bs -> index_fine ver first gs bs index ->
  exists s', check_index (genesis_packing := genesis_packing) (Z.of_nat (length index))
    (mk_block_log (last bs) (from_option block_id digest_zero (last bs)) (mk_stream (log_of ver first gs bs) q false) (mk_stream index 0 false)
       true true ver first) = (Ok tt, s') /\ holds ver first gs bs s'.
Proof.
  intros Hn Hv Hi. destruct (log_tail ver first gs bs Hv) as [pre E]. pose proof (end_pos_uint _ _ _ _ Hn) as Hu.
  assert (length pre + 8 = length (log_of ver first gs bs))%nat as Hpre by (rewrite E, length_app, length_uint_bytes by lia; lia).
  assert (forall s : block_log, content (block_stream s) = log_of ver first gs bs -> genesis_written_to_block_log s = true -> version s = ver ->
    first_block_num s = first -> head s = last bs -> head_id s = from_option block_id digest_zero (last bs) ->
    exists s', construct_index (genesis_packing := genesis_packing) s = (Ok tt, s') /\ holds ver first gs bs s') as Hcon.
  { intros s H1 H2 H3 H4 H5 H6. destruct (construct_index_ok ver first gs bs s Hn Hv H1 H2 H3 H4) as (p & ip & Ec & Hp). rewrite Ec, H5, H6.
    eexists. split; [reflexivity|]. exact (holds_at ver first gs bs p ip Hn Hp). }
  unfold check_index. destruct (Z.of_nat (length index) =? 0) eqn:El; cbn [negb]; [by apply Hcon|]. apply Z.eqb_neq in El.
  assert (exists ipre z, index = ipre ++ uint_bytes 8 z /\ is_uint 64 z /\ (z = end_pos ver first gs bs -> index = index_of ver first gs bs))
    as (ipre & z & Ei & Hz & Hright).
  { destruct Hi as [-> |[-> |(ipre & z & Ei & Hz & Hne)]]; [|done|by exists ipre, z].
    destruct bs as [|b bs _] using rev_ind; [done|]. exists (index_of ver first gs bs), (end_pos ver first gs (bs ++ [b])).
    split; [by rewrite index_of_snoc, end_pos_snoc|done]. }
  erewrite bind_blocks by (apply (seekg_end_ok _ _ (-8) (length pre)); cbn; lia).
  erewrite bind_blocks by (eapply (read_uint_ok 8 _ _ pre _ []); [lia|exact Hu|cbn; by rewrite app_nil_r|reflexivity]).
  erewrite bind_index by (apply (seekg_end_ok _ _ (-8) (length ipre)); cbn; rewrite Ei, length_app, length_uint_bytes by lia; lia).
  erewrite bind_index by (eapply (read_uint_ok 8 _ _ ipre z []); [lia|exact Hz|cbn; by rewrite app_nil_r|reflexivity]).
  destruct (end_pos ver first gs bs =? z) eqn:Ez; cbn [negb]; [|by apply Hcon].
  apply Z.eqb_eq in Ez. rewrite (Hright (eq_sym Ez)). eexists. split; [reflexivity|]. apply holds_at; [done|cbn; lia].
Qed.

Lemma open_holds ver first gs bs index : numbers_ok ver first gs bs -> version_ok ver first gs bs -> index_fine ver first gs bs index ->
  exists s', open (genesis_packing := genesis_packing) (new_block_log (log_of ver first gs bs) index) = (Ok tt, s') /\ holds ver first gs bs s'.
Proof.
  intros Hn Hv Hi. pose proof (log_length ver first gs bs Hv) as Hlen. unfold open, new_block_log.
  erewrite (bind_step close) by reflexivity. erewrite (bind_step reopen) by reflexivity. unfold bind at 1, get_state. flat.
  rewrite (proj2 (Z.eqb_neq _ _)) by lia. cbn [negb].
  destruct (read_header_ok ver first gs bs index Hn Hv) as (q & Hq & Eh). erewrite bind_step by exact Eh.
  match goal with |- context [bind read_head _ ?s1] => destruct (read_head_ok ver first gs bs s1 q Hn Hv eq_refl eq_refl) as (p & Er & Hp) end.
  erewrite bind_step by exact Er. erewrite (bind_step (modify _)) by reflexivity. flat.
  exact (check_index_ok ver first gs bs index p Hn Hv Hi).
Qed.

(** ** The log implements a list *)

(** [Reopen k]: the node stops; the index has only its first [k] entries on the disk,
    or all of them; and it starts again. *)
Inductive log_call :=
| Append (b : signed_block)
| ReadNum (n : Z)
| Reopen (k : nat).

Definition call_log (c : log_call) (s : block_log) : res (option signed_block) * block_log :=
  match c with
  | Append b => let '(r, s') := append b s in (match r with Ok _ => Ok None | Throw e => Throw e end, s')
  | ReadNum n => read_block_by_num n s
  | Reopen k =>
      let '(r, s') := open (genesis_packing := genesis_packing)
                        (new_block_log (content (block_stream s)) (take (8 * k) (content (index_stream s)))) in
      (match r with Ok _ => Ok None | Throw e => Throw e end, s')
  end.
Definition call_list (first : Z) (c : log_call) (bs : list signed_block) : res (option signed_block) * list signed_block :=
  match c with
  | Append b => if block_num b =? u32 (first + Z.of_nat (length bs)) then (Ok None, bs ++ [b]) else (Throw block_log_append_fail, bs)
  | ReadNum n => (Ok (lookup_num first bs n), bs)
  | Reopen _ => (Ok None, bs)
  end.

(** The answers, and the state at the end. *)
Fixpoint calls {S} (step : log_call -> S -> res (option signed_block) * S) (l : list log_call) (s : S) : list (res (option signed_block)) * S :=
  match l with
  | [] => ([], s)
  | c :: l => let '(r, s1) := step c s in let '(rs, s2) := calls step l s1 in (r :: rs, s2)
  end.

Lemma take_index ver first gs bs k : take (8 * k) (index_of ver first gs bs) = index_of ver first gs (take k bs).
Proof.
  destruct (Nat.le_gt_cases (length bs) k) as [Hk|Hk]; [rewrite !take_ge; [done|done|rewrite length_index_of; lia]|].
  rewrite <- (take_drop k bs) at 1. rewrite index_of_app. apply take_app_length'. rewrite length_index_of, length_take. lia.
Qed.

Lemma stale_index_fine ver first gs bs k : numbers_ok ver first gs bs -> index_fine ver first gs bs (index_of ver first gs (take k bs)).
Proof.
  intros Hn. destruct (Nat.le_gt_cases (length bs) k) as [Hk|Hk]; [left; by rewrite take_ge|right].
  destruct k as [|k]; [by left|right]. destruct (lookup_lt_is_Some_2 bs k) as [b Hb]; [lia|].
  exists (index_of ver first gs (take k bs)), (Z.of_nat (block_at ver first gs bs k)).
  split; [by erewrite take_S_r, index_of_snoc by done|].
  pose proof (before_end ver first gs bs k) as Hend. rewrite (proj2 (Nat.ltb_lt _ _)) in Hend by lia. specialize (Hend ltac:(lia)).
  apply Z.ltb_lt in Hend. pose proof (block_at_lt ver first gs bs k (length bs)) as Hat. rewrite block_at_end in Hat.
  pose proof (fits _ _ _ _ Hn) as Hfit. split; [apply pos_uint|]; lia.
Qed.

Lemma call_list_grows first c bs : exists cs, snd (call_list first c bs) = bs ++ cs.
Proof. destruct c; cbn; [|by exists []; rewrite app_nil_r..]. destruct (_ =? _); cbn; eauto. exists []. by rewrite app_nil_r. Qed.

Lemma calls_list_grows first l bs : exists cs, snd (calls (call_list first) l bs) = bs ++ cs.
Proof.
  revert bs. induction l as [|c l IH]; intros bs; cbn; [exists []; by rewrite app_nil_r|].
  destruct (call_list_grows first c bs) as [cs E]. destruct (call_list first c bs) as [r bs1]. cbn in E. subst bs1.
  destruct (IH (bs ++ cs)) as [ds E]. destruct (calls _ l _) as [rs bs2]. cbn in E. subst bs2. cbn. exists (cs ++ ds). by rewrite app_assoc.
Qed.

Lemma call_log_refines ver first gs c bs s : holds ver first gs bs s -> version_ok ver first gs bs ->
  numbers_ok ver first gs (snd (call_list first c bs)) ->
  fst (call_log c s) = fst (call_list first c bs) /\ holds ver first gs (snd (call_list first c bs)) (snd (call_log c s)).
Proof.
  intros Hs Hv Hn. destruct c as [b|n|k]; cbn [call_log call_list] in *.
  - destruct (block_num b =? u32 (first + Z.of_nat (length bs))) eqn:Eb; cbn [fst snd] in *.
    + destruct (append_holds ver first gs bs b s Hs Hn) as (s' & -> & Hs'). by split.
    + apply Z.eqb_neq in Eb. destruct (append_refused ver first gs bs b s Hs Eb) as (s' & -> & Hs'). by split.
  - destruct (read_block_by_num_holds ver first gs bs s n Hs) as (s' & -> & Hs'). by split.
  - destruct Hs as [p ip _ _]. cbn [opened block_stream index_stream content snd] in *. rewrite take_index.
    destruct (open_holds ver first gs bs _ Hn Hv (stale_index_fine ver first gs bs k Hn)) as (s' & E & Hs'). unfold opened. flat. rewrite E. by split.
Qed.

(** C22: the block log implements a list of blocks: whatever is appended, read by its
    number, and however often the node restarts, with the whole index or with any
    number of its first entries of eight bytes, the answers are those of the list,
    to which exactly the next block can be added; for version 2, or version 1 with
    blocks from number 1, as long as the block numbers do not wrap around and the
    file stays below [2^63] bytes. *)
Theorem block_log_implements_list ver first gs bs s l : holds ver first gs bs s -> version_ok ver first gs bs ->
  numbers_ok ver first gs (snd (calls (call_list first) l bs)) ->
  fst (calls call_log l s) = fst (calls (call_list first) l bs)
  /\ holds ver first gs (snd (calls (call_list first) l bs)) (snd (calls call_log l s)).
Proof.
  revert bs s. induction l as [|c l IH]; intros bs s Hs Hv Hn; cbn; [by split|].
  destruct (call_list_grows first c bs) as [cs Ecs]. cbn in Hn.
  destruct (call_list first c bs) as [r bs1] eqn:E1. cbn in Ecs. subst bs1.
  destruct (calls_list_grows first l (bs ++ cs)) as [ds Eds]. destruct (calls (call_list first) l (bs ++ cs)) as [rs bs2] eqn:E2. cbn in Eds, Hn. subst bs2.
  destruct (call_log_refines ver first gs c bs s Hs Hv) as [Hr Hs1]; rewrite E1 in *; cbn [fst snd] in *; [by eapply numbers_prefix|].
  assert (version_ok ver first gs (bs ++ cs)) as Hv1 by (destruct Hv as [|(? & ? & ? & ?)]; [by left|right; split_and!; [done|done|by destruct bs|done]]).
  specialize (IH (bs ++ cs) (snd (call_log c s)) Hs1 Hv1). rewrite E2 in IH. cbn [fst snd] in IH. destruct (IH Hn) as [Hrs Hs2].
  destruct (call_log c s) as [r' s1]. cbn [fst snd] in *. destruct (calls call_log l s1) as [rs' s2]. cbn [fst snd] in *. by subst.
Qed.
End BlockLog.
