(* ===== verification/BlockLogRepair.v ===== *)
(** Recovering a block log (BlockLog.v): repair_log keeps every block that was
    written completely, backup_log completes a backup that is part of the log. *)

From Stdlib Require Import ZArith Lia.
From stdpp Require Import base numbers list list_numbers.
From S2P Require Import Prelude Merkle BlockHeader BlockLog BlockLogTheorems.

#[local] Open Scope Z_scope.
#[local] Open Scope chain_scope.
Import BlockLog.

(** The beginning of a packed value is not a packed value. *)
Lemma unpack_short {A} `{!Packing A} (a a' : A) m n : (m < length (pack a))%nat -> unpack (take m (pack a)) <> Unpacked a' n.
Proof.
  intros Hm E. destruct (unpack_local _ _ _ E) as [Hn Hl]. rewrite length_take in Hn. specialize (Hl (drop n (pack a))).
  rewrite take_take, Nat.min_l, take_drop, unpack_pack in Hl by lia. injection Hl as _ Hl. lia.
Qed.

Lemma unpack_from_ok {A} `{!Packing A} (a : A) pre post :
  unpack_from (mk_stream (pre ++ pack a ++ post) (length pre) false) = (Ok a, mk_stream (pre ++ pack a ++ post) (length pre + length (pack a)) false).
Proof. unfold unpack_from. by rewrite ahead_at, unpack_pack_app. Qed.

Lemma read_over_at old c q pre d post : c = pre ++ d ++ post -> q = length pre -> length old = length d ->
  read_over old (mk_stream c q false) = (d, mk_stream c (q + length d) false).
Proof. intros -> ->. apply read_over_ok. Qed.

Lemma unpack_from_at {A} `{!Packing A} (a : A) c q pre post : c = pre ++ pack a ++ post -> q = length pre ->
  unpack_from (mk_stream c q false) = (Ok a, mk_stream c (q + length (pack a)) false).
Proof. intros -> ->. apply unpack_from_ok. Qed.

Lemma seek_to c q (p : nat) : Z.of_nat p < 2 ^ 63 -> seek (Z.of_nat p) (mk_stream c q false) = mk_stream c p false.
Proof. intros Hp. pose proof (seekg_ok c q p Hp) as H. unfold seekg, checked in H. by injection H. Qed.

Lemma seek_end_ok c q off (p : nat) : Z.of_nat p = Z.of_nat (length c) + off -> seek_end off (mk_stream c q false) = mk_stream c p false.
Proof. intros Hp. pose proof (seekg_end_ok c q off p Hp) as H. unfold seekg_end, checked in H. by injection H. Qed.

Lemma read_last c : (8 <= length c)%nat ->
  exists p, read_over (uint_bytes 8 0) (seek_end (-8) (mk_stream c 0 false)) = (drop (length c - 8) c, mk_stream c p false).
Proof.
  intros Hc. rewrite (seek_end_ok _ _ _ (length c - 8)) by lia. eexists.
  apply (read_over_at _ c _ (take (length c - 8) c) _ []); rewrite ?app_nil_r, ?take_drop, ?length_take, ?length_drop, ?length_uint_bytes by lia; [done|lia..].
Qed.

Lemma tell_ok c (p : nat) : Z.of_nat p < 2 ^ 63 -> u64 (tell (mk_stream c p false)) = Z.of_nat p.
Proof. intros Hp. by apply wrap_small, pos_uint. Qed.

Lemma max_bytes : bytes_uint (uint_bytes 8 UINT64_MAX) = UINT64_MAX.
Proof. by apply bytes_uint_of. Qed.

Section Repair.
Context {fc : Fc} {R : Type}.
Abbreviation signed_block := (@BlockLog.signed_block fc R).
Context `{block_packing : !Packing signed_block} {genesis_state : Type} `{genesis_packing : !Packing genesis_state}.
Context (ver first : Z) (gs : genesis_state) (bs : list signed_block) (Hn : numbers_ok ver first gs bs).

Abbreviation log := (log_of ver first gs bs).
Abbreviation block_at := (block_at ver first gs bs).

(** The file was cut off after [k] bytes. *)
Lemma cut_log i k b : bs !! i = Some b -> (block_at i <= k)%nat ->
  exists post, take k log = log_of ver first gs (take i bs) ++ take (k - block_at i) (pack b ++ uint_bytes 8 (Z.of_nat (block_at i)) ++ post).
Proof.
  intros Hb Hk. destruct (log_at ver first gs bs i b Hb) as [post E]. exists post. rewrite E, take_app. f_equal. apply take_ge.
  unfold BlockLogTheorems.block_at in Hk. lia.
Qed.

Lemma cut_log_whole i k b : bs !! i = Some b -> (block_at (S i) <= k)%nat ->
  exists post, take k log = log_of ver first gs (take i bs) ++ pack b ++ uint_bytes 8 (Z.of_nat (block_at i)) ++ post.
Proof.
  intros Hb Hk. rewrite (block_at_S _ _ _ _ _ b Hb) in Hk. destruct (cut_log i k b Hb ltac:(lia)) as [post E]. eexists. rewrite E. f_equal.
  rewrite take_app, take_ge by lia. f_equal. rewrite take_app, take_ge by (rewrite length_uint_bytes by lia; lia). reflexivity.
Qed.

(** One round of the loop on the block [i] when it is complete. *)
Lemma scan_whole i k b : bs !! i = Some b -> (block_at (S i) <= k)%nat ->
  exists post, unpack_from (mk_stream (take k log) (block_at i) false) = (Ok b, mk_stream (take k log) (block_at i + length (pack b)) false)
  /\ read_over (uint_bytes 8 UINT64_MAX) (mk_stream (take k log) (block_at i + length (pack b)) false)
     = (uint_bytes 8 (Z.of_nat (block_at i)), mk_stream (take k log) (block_at (S i)) false)
  /\ take k log = log_of ver first gs (take i bs) ++ pack b ++ uint_bytes 8 (Z.of_nat (block_at i)) ++ post.
Proof.
  intros Hb Hk. destruct (cut_log_whole i k b Hb Hk) as [post E]. exists post. rewrite E. split; [apply unpack_from_ok|]. split; [|done].
  rewrite app_assoc. assert (block_at i + length (pack b) = length (log_of ver first gs (take i bs) ++ pack b))%nat as Ep by by rewrite length_app.
  rewrite Ep, read_over_ok by by rewrite !length_uint_bytes by lia.
  f_equal. f_equal. rewrite <- Ep, length_uint_bytes, (block_at_S _ _ _ _ _ b Hb) by lia. lia.
Qed.

(** What the loop reads at a block that is not complete. *)
Lemma scan_torn i k b : bs !! i = Some b -> (block_at i <= k)%nat -> (k < block_at (S i))%nat -> (k <= length log)%nat ->
  match unpack_from (A := signed_block) (mk_stream (take k log) (block_at i) false) with
  | (Ok _, old) =>
      bytes_uint (fst (if u64 (u64 (tell old) + 8) <=? Z.of_nat k then read_over (uint_bytes 8 UINT64_MAX) old else (uint_bytes 8 UINT64_MAX, old)))
      = UINT64_MAX
  | (Throw _, _) => True
  end.
Proof.
  intros Hb Hi Hk Hlog. pose proof (fits _ _ _ _ Hn) as Hfit. destruct (cut_log i k b Hb ltac:(lia)) as [post E]. rewrite E.
  unfold unpack_from. rewrite (ahead_at (log_of ver first gs (take i bs)) _ : ahead (mk_stream _ (block_at i) _) = _).
  rewrite (block_at_S _ _ _ _ _ b Hb) in Hk. destruct (Nat.le_gt_cases (length (pack b)) (k - block_at i)) as [Hm|Hm].
  - rewrite take_app, take_ge, unpack_pack_app by lia. cbn [position content failed]. rewrite tell_ok by lia.
    rewrite (wrap_small 64) by (unfold is_uint; lia). rewrite (proj2 (Z.leb_gt _ _)) by lia. apply max_bytes.
  - rewrite take_app_le by lia. destruct (unpack _) as [a n|a|e n] eqn:Eu; [by apply unpack_short in Eu| |done].
    match goal with |- context [u64 (u64 ?t + 8)] => change (u64 (u64 t + 8)) with 7 end.
    destruct (7 <=? Z.of_nat k); [|apply max_bytes]. unfold read_over. cbn. rewrite firstn_nil. cbn. apply max_bytes.
Qed.

Lemma block_at_mono i j : (i <= j)%nat -> (j <= length bs)%nat -> (block_at i <= block_at j)%nat.
Proof. intros Hij Hj. destruct (decide (i = j)) as [-> |]; [done|]. pose proof (block_at_lt ver first gs bs i j). lia. Qed.

(** The blocks up to the one with the number [t]. *)
Fixpoint upto (t : Z) (l : list signed_block) : list signed_block :=
  match l with [] => [] | b :: l => b :: (if block_num b =? t then [] else upto t l) end.

Section Cut.
Context (k n : nat).
(** [n] blocks are complete. *)
Context (Hk : (k <= length log)%nat) (Hle : (n <= length bs)%nat) (Hwhole : (block_at n <= k)%nat)
  (Htorn : (n < length bs)%nat -> (k < block_at (S n))%nat).

(** A directory with the blocks [l]. *)
Definition dir_with (l : list signed_block) (tail_ : option bytes) : blocks_dir := mk_dir (Some (log_of ver first gs l)) None tail_.

Lemma repair_loop_ok t o : forall j i fuel, (i + j = n)%nat -> (j < fuel)%nat ->
  exists tail_, repair_loop fuel t (Z.of_nat k) (Z.of_nat (block_at i)) (mk_stream (take k log) (block_at i) false) (dir_with (take i bs) None, o)
    = (Ok tt, (dir_with (take i bs ++ upto t (drop i (take n bs))) tail_, o)).
Proof.
  pose proof (fits _ _ _ _ Hn) as Hfit. induction j as [|j IH]; intros i fuel Hi Hfuel; (destruct fuel as [|fuel]; [lia|]); cbn [repair_loop].
  - rewrite Nat.add_0_r in Hi. subst i. rewrite drop_ge, app_nil_r by (rewrite length_take; lia).
    destruct (Z.of_nat (block_at n) <? Z.of_nat k) eqn:El; [|by exists None]. apply Z.ltb_lt in El.
    assert (n < length bs)%nat as Hlt by (destruct (decide (n = length bs)) as [-> |]; [rewrite block_at_end in El|]; lia).
    destruct (lookup_lt_is_Some_2 bs n Hlt) as [b Hb].
    pose proof (scan_torn n k b Hb Hwhole (Htorn Hlt) Hk) as Hscan.
    destruct (unpack_from _) as [[a|e] old]; [|by eexists]. destruct (if _ <=? _ then _ else _) as [d old']. cbn [fst] in Hscan. rewrite Hscan.
    rewrite (proj2 (Z.eqb_neq _ _)) by (unfold UINT64_MAX; lia). by exists None.
  - destruct (lookup_lt_is_Some_2 bs i) as [b Hb]; [lia|]. pose proof (block_at_mono (S i) n ltac:(lia) Hle) as Hmono.
    pose proof (block_at_lt ver first gs bs i (S i) ltac:(lia) ltac:(lia)) as Hlt.
    destruct (scan_whole i k b Hb ltac:(lia)) as (post & E1 & E2 & E3). rewrite E1, (proj2 (Z.ltb_lt _ _)) by lia.
    rewrite (block_at_S _ _ _ _ _ b Hb) in Hmono. rewrite tell_ok by lia. rewrite (wrap_small 64) by (unfold is_uint; lia).
    rewrite (proj2 (Z.leb_le _ _)) by lia. rewrite E2. cbn [negb]. rewrite bytes_uint_of by (first [lia|apply (pos_uint (block_at i)); lia]).
    rewrite Z.eqb_refl. cbn [negb]. unfold bind at 1, emit at 1, modify. unfold bind at 1, emit at 1, modify. unfold bind at 1, get_state.
    assert (drop i (take n bs) = b :: drop (S i) (take n bs)) as ->.
    { apply drop_S. rewrite lookup_take_lt by lia. done. }
    cbn [new_log default log_file fst snd index_file bad_tail dir_with]. unfold Datatypes.id.
    assert ((log_of ver first gs (take i bs) ++ pack b) ++ uint_bytes 8 (Z.of_nat (block_at i)) = log_of ver first gs (take (S i) bs)) as ->.
    { erewrite take_S_r, log_of_snoc by done. unfold add_block. by rewrite <- app_assoc. }
    cbn [upto]. destruct (block_num b =? t); [exists None; unfold ret, dir_with; by erewrite take_S_r by done|].
    destruct (IH (S i) fuel ltac:(lia) ltac:(lia)) as [tail_ E]. exists tail_. unfold dir_with in E at 1. cbn [default] in *.
    etransitivity; [exact E|]. erewrite take_S_r by done. by rewrite <- app_assoc.
Qed.

Lemma upto_prefix t l : exists l', l = upto t l ++ l'.
Proof. induction l as [|b l [l' IH]]; cbn; [by exists []|]. destruct (_ =? _); cbn; [by exists l|]. exists l'. by rewrite <- IH. Qed.

(** What repair_log reads before the blocks. *)
Lemma repair_header t idx tl : ver = 2 \/ ver = 1 ->
  exists fuel, (n < fuel)%nat /\ repair_log (block_packing := block_packing) (genesis_packing := genesis_packing) t (mk_dir (Some (take k log)) idx tl, None)
    = repair_loop fuel t (Z.of_nat k) (Z.of_nat (block_at 0)) (mk_stream (take k log) (block_at 0) false)
        (dir_with [] None, Some (mk_dir (Some (take k log)) idx tl)).
Proof.
  intros Hver. pose proof (fits _ _ _ _ Hn) as Hfit. pose proof (block_at_mono 0 n ltac:(lia) Hle) as H0.
  change (block_at 0) with (length (header_bytes ver first gs)) in *.
  destruct (log_header ver first gs bs) as [rest Er].
  assert (exists rest, take k log = header_bytes ver first gs ++ rest) as [rest' E].
  { rewrite Er, take_app, take_ge by lia. eauto. }
  assert (n <= length log)%nat as Hfuel.
  { pose proof (log_blocks_le ver first gs bs). lia. }
  exists (S (length (take k log))). split.
  { rewrite length_take. pose proof (log_blocks_le ver first gs (take n bs)) as Hb. rewrite length_take in Hb.
    unfold BlockLogTheorems.block_at in Hwhole. lia. }
  assert (Z.of_nat (length (take k log)) = Z.of_nat k) as Ek by (rewrite length_take; lia).
  unfold repair_log, bind at 1, get_state at 1. cbn [log_file fst snd]. unfold bind at 1, lift at 1. rewrite bool_decide_true by done.
  cbn [eos_assert]. unfold bind at 1, put_state at 1. unfold header_bytes, header_rest in E. rewrite Ek.
  rewrite <- !app_assoc in E. set (c := take k log) in *.
  erewrite (read_over_at _ c 0 []); [|exact E|done|by rewrite !length_uint_bytes by lia].
  rewrite bytes_uint_of by (unfold is_uint; lia). unfold bind at 1, lift at 1. rewrite (supported_ok _ Hver).
  unfold bind at 1, emit at 1, modify at 1. cbn [new_log default log_file index_file bad_tail fst snd]. unfold Datatypes.id. cbn [app].
  unfold header_bytes, header_rest, dir_with, log_of, header_bytes, header_rest in *. cbn [foldl].
  destruct Hver as [-> | ->]; cbn [Z.eqb Pos.eqb negb] in *.
  - rewrite <- !app_assoc in E. set (v := uint_bytes 4 2) in *. set (f := uint_bytes 4 first) in *.
    assert (length v = 4%nat /\ length f = 4%nat) as [Hv Hf] by by subst v f; rewrite !length_uint_bytes by lia.
    erewrite (read_over_at _ c _ v); [|exact E|done|by rewrite Hf, length_uint_bytes by lia].
    unfold bind at 1 2, emit at 1, modify at 1, ret at 1.
    erewrite (unpack_from_at gs c _ (v ++ f)); [|rewrite <- app_assoc; exact E|rewrite length_app; done].
    unfold bind at 1, lift at 1. unfold bind at 1, emit at 1, modify at 1.
    erewrite (read_over_at _ c _ (v ++ f ++ pack gs) (uint_bytes 8 npos));
      [|rewrite <- !app_assoc; exact E|rewrite !length_app; cbn; lia|by rewrite !length_uint_bytes by lia].
    unfold bind at 1 2, lift at 1. rewrite bytes_uint_of by (unfold is_uint, npos, UINT64_MAX; lia). cbn [eos_assert Z.eqb Pos.eqb].
    rewrite Z.eqb_refl. cbn [eos_assert]. unfold bind at 1, emit at 1, modify at 1, ret at 1.
    cbn [new_log default log_file index_file bad_tail fst snd]. unfold Datatypes.id.
    rewrite tell_ok by (cbn; rewrite ?length_app in *; lia). rewrite <- !app_assoc. f_equal; f_equal; rewrite ?length_app; cbn; lia.
  - set (v := uint_bytes 4 1) in *.
    unfold bind at 1, ret at 1. erewrite (unpack_from_at gs c _ v); [|exact E|done].
    unfold bind at 1, lift at 1. unfold bind at 1, emit at 1, modify at 1. unfold bind at 1, ret at 1.
    cbn [new_log default log_file index_file bad_tail fst snd]. unfold Datatypes.id.
    rewrite tell_ok by (cbn; rewrite ?length_app in *; lia). f_equal; f_equal; rewrite ?length_app; cbn; lia.
Qed.

(** C23: repair_log recovers what a crash has left.  Of a log of version 2 that was cut
    off anywhere after its header, so that [n] of its blocks are complete, the new blocks.log has
    exactly these blocks, or those up to the block at which it was told to stop; the old
    directory is kept as the backup; and a node opens the new log and finds in it
    these blocks. *)
Theorem repair_log_recovers t idx tl : ver = 2 ->
  exists tail_, repair_log (genesis_packing := genesis_packing) t (mk_dir (Some (take k log)) idx tl, None)
    = (Ok tt, (dir_with (upto t (take n bs)) tail_, Some (mk_dir (Some (take k log)) idx tl)))
  /\ exists s, open (genesis_packing := genesis_packing) (new_block_log (log_of ver first gs (upto t (take n bs))) []) = (Ok tt, s)
       /\ holds ver first gs (upto t (take n bs)) s.
Proof.
  intros Hver. destruct (repair_header t idx tl (or_introl Hver)) as (fuel & Hfuel & E).
  destruct (repair_loop_ok t (Some (mk_dir (Some (take k log)) idx tl)) n 0 fuel eq_refl Hfuel) as [tail_ Eloop].
  exists tail_. split; [rewrite E; exact Eloop|]. apply open_holds; [|by left|by right; left].
  destruct (upto_prefix t (take n bs)) as [l' El]. apply (numbers_prefix _ _ _ _ (l' ++ drop n bs)). rewrite app_assoc, <- El, take_drop. exact Hn.
Qed.
End Cut.

(** ** backup_log *)

(** backup_log has returned, and both files are [l]. *)
Definition backed_up (l : bytes) (o : res unit * backup_files) : Prop := o = (Ok tt, (Some l, Some l)).

Lemma backup_loop_ok o n : (n <= length bs)%nat -> forall j i fuel previous, (i + j = length bs)%nat -> (j < fuel)%nat ->
  (i = n \/ exists b, bs !! (i - 1)%nat = Some b /\ (0 < i)%nat /\ num_from_id previous = block_num b) ->
  backup_loop fuel (Z.of_nat (block_at n)) (Z.of_nat (length log)) (Z.of_nat (block_at i)) previous (mk_stream log (block_at i) false)
    (o, Some (log_of ver first gs (take i bs))) = (Ok tt, (o, Some log)).
Proof.
  intros Hle. pose proof (fits _ _ _ _ Hn) as Hfit. induction j as [|j IH]; intros i fuel previous Hi Hfuel Hprev;
    (destruct fuel as [|fuel]; [lia|]); cbn [backup_loop].
  - rewrite Nat.add_0_r in Hi. subst i. rewrite block_at_end, Z.ltb_irrefl, firstn_all. done.
  - destruct (lookup_lt_is_Some_2 bs i) as [b Hb]; [lia|]. pose proof (block_at_mono (S i) (length bs) ltac:(lia) ltac:(lia)) as Hmono.
    pose proof (block_at_lt ver first gs bs i (S i) ltac:(lia) ltac:(lia)) as Hlt. rewrite block_at_end in Hmono.
    destruct (scan_whole i (length log) b Hb Hmono) as (post & E1 & E2 & E3). rewrite firstn_all in E1, E2. rewrite E1, (proj2 (Z.ltb_lt _ _)) by lia.
    assert (num_from_id (block_id b) = block_num b) as Hid by (unfold block_id; by rewrite num_from_header_id).
    assert (negb (Z.of_nat (block_at i) =? Z.of_nat (block_at n)) && negb (u32 (num_from_id previous + 1) =? num_from_id (block_id b)) = false) as ->.
    { destruct Hprev as [-> |(b' & Hb' & Hi0 & Ep)]; [by rewrite Z.eqb_refl|]. rewrite Hid, Ep.
      pose proof (block_num_range b) as Hr. rewrite (nums _ _ _ _ Hn _ _ Hb) in *. rewrite (nums _ _ _ _ Hn _ _ Hb').
      rewrite (wrap_small 32) by (unfold is_uint in *; pose proof (first_range _ _ _ _ Hn); lia). rewrite (proj2 (Z.eqb_eq (_ + 1) _)) by lia. apply andb_false_r. }
    rewrite (block_at_S _ _ _ _ _ b Hb) in Hmono. rewrite tell_ok by lia. rewrite (wrap_small 64) by (unfold is_uint; lia).
    rewrite (proj2 (Z.leb_le _ _)) by lia. rewrite E2. rewrite bytes_uint_of by (first [lia|apply (pos_uint (block_at i)); lia]).
    rewrite Z.eqb_refl. cbn [negb]. unfold bind at 1, get_state at 1. unfold bind at 1, set_backup at 1, modify. unfold bind at 1, get_state.
    cbn [backup_bytes default fst snd]. unfold Datatypes.id.
    assert (log_of ver first gs (take i bs) ++ pack b ++ uint_bytes 8 (Z.of_nat (block_at i)) = log_of ver first gs (take (S i) bs)) as ->.
    { erewrite take_S_r, log_of_snoc by done. done. }
    apply (IH (S i) fuel); [lia|lia|]. right. exists b. cbn [Nat.sub]. rewrite Nat.sub_0_r. split_and!; [done|lia|done].
Qed.

(** backup_log makes the backup equal to the log when there is none yet, and when it
    holds a part of the blocks of the log, one at least. *)
Theorem backup_log_completes copy_over n : (0 < n)%nat ->
  backed_up log (backup_log copy_over (Some log, None))
  /\ backed_up log (backup_log copy_over (Some log, Some (log_of ver first gs (take n bs)))).
Proof.
  intros Hn0. split; [done|]. pose proof (fits _ _ _ _ Hn) as Hfit. unfold backed_up, backup_log, bind at 1, get_state at 1.
  destruct (Nat.le_gt_cases (length bs) n) as [Hge|Hlt]; [rewrite take_ge, Z.leb_refl by done; done|].
  pose proof (block_at_lt ver first gs bs n (length bs) Hlt ltac:(lia)) as Hbl. rewrite block_at_end in Hbl.
  change (length (log_of ver first gs (take n bs))) with (block_at n) in *. rewrite (proj2 (Z.leb_gt _ _)) by lia.
  destruct n as [|m]; [lia|]. destruct (lookup_lt_is_Some_2 bs m) as [b Hb]; [lia|].
  pose proof (block_at_lt ver first gs bs m (S m) ltac:(lia) ltac:(lia)) as Hm.
  assert (log_of ver first gs (take (S m) bs) = log_of ver first gs (take m bs) ++ pack b ++ uint_bytes 8 (Z.of_nat (block_at m))) as Eb
    by by erewrite take_S_r, log_of_snoc by done.
  destruct (log_at ver first gs bs m b Hb) as [post El]. pose proof (block_at_S ver first gs bs m b Hb) as HS.
  assert (length (log_of ver first gs (take m bs)) = block_at m) as Em by done.
  destruct (read_last (log_of ver first gs (take (S m) bs))) as [p Ep]; [change (8 <= block_at (S m))%nat; lia|]. rewrite Ep.
  assert (drop (length (log_of ver first gs (take (S m) bs)) - 8) (log_of ver first gs (take (S m) bs)) = uint_bytes 8 (Z.of_nat (block_at m))) as ->.
  { rewrite Eb, app_assoc. apply drop_app_length'. rewrite !length_app, length_uint_bytes by lia. lia. }
  cbn [failed]. rewrite bytes_uint_of by (first [lia|apply (pos_uint (block_at m)); lia]).
  destruct (read_last log) as [p' Ep']; [lia|]. rewrite Ep'. rewrite !seek_to by lia.
  rewrite (unpack_from_at b _ _ (log_of ver first gs (take m bs)) (uint_bytes 8 (Z.of_nat (block_at m)))) by done.
  unfold bind at 1, lift at 1. cbn [fst].
  rewrite (unpack_from_at b _ _ (log_of ver first gs (take m bs)) (uint_bytes 8 (Z.of_nat (block_at m)) ++ post)) by done.
  unfold bind at 1, lift at 1. rewrite Z.eqb_refl. cbn [negb]. rewrite seek_to by lia.
  pose proof (log_blocks_le ver first gs bs). apply (backup_loop_ok (Some log) (S m) ltac:(lia) (length bs - S m)); [lia|lia|by left].
Qed.
End Repair.
