(* ===== verification/BlockLogExamples.v ===== *)
(** Concrete block logs: the theorems of BlockLogTheorems.v and BlockLogRepair.v at
    work, and where the code does not recover what it could. *)

From Stdlib Require Import ZArith Lia.
From stdpp Require Import base numbers list list_numbers countable.
From S2P Require Import Prelude Merkle BlockHeader BlockLog BlockLogTheorems BlockLogRepair.

#[local] Open Scope Z_scope.
#[local] Open Scope chain_scope.
Import BlockLog.

(** A packing between two marks, by way of a countable type. *)
Definition marked_packing {A B} `{Countable B} (enc : A -> B) (dec : B -> A) (dec_enc : forall a, dec (enc a) = a) (unfinished : A) : Packing A.
Proof.
  refine {| pack a := [1; Zpos (encode (enc a)); 2];
            unpack x := match x with
                        | [] | [1] | [1; _] => Short unfinished
                        | 1 :: Zpos p :: 2 :: _ => match decode p with Some b => Unpacked (dec b) 3 | None => Malformed parse_error_exception 3 end
                        | _ => Malformed parse_error_exception 1
                        end |}.
  - intros a. by rewrite decode_encode, dec_enc.
  - intros x a n E. repeat (case_match; try discriminate E). injection E as <- <-. split; [cbn; lia|]. intros y. cbn.
    match goal with Hd : decode _ = Some _ |- _ => rewrite Hd end. done.
Defined.

Abbreviation block := (@signed_block toy_fc unit).
Abbreviation key_tuple := (Z * Z)%type.
Abbreviation block_tuple :=
  (((Z * Z) * (Z * digest_type)) * ((digest_type * digest_type) * (Z * option (Z * list key_tuple)))
   * ((list (Z * list Z) * (Z * digest_type)) * (nat * list (Z * list Z))))%type.

Definition enc_schedule (s : producer_schedule_type Z) : Z * list key_tuple :=
  (BlockHeader.version s, (fun p => (producer_name p, pk_block_signing_key p)) <$> producers s).
Definition dec_schedule (x : Z * list key_tuple) : producer_schedule_type Z :=
  mk_schedule (fst x) ((fun k => mk_producer_key (fst k) (snd k)) <$> snd x).
Lemma dec_enc_schedule s : dec_schedule (enc_schedule s) = s.
Proof.
  destruct s as [v l]. unfold dec_schedule, enc_schedule. cbn. f_equal. rewrite <- list_fmap_compose. rewrite <- (list_fmap_id l) at 2.
  apply list_fmap_ext. by intros i [] _.
Qed.

Definition enc_block (b : block) : block_tuple :=
  let h : block_header Z := bare_header (block_head b) in
  let sig : Z * digest_type := producer_signature (block_head b) in
  (((timestamp h, producer h), (confirmed h, previous h)),
   ((transaction_mroot h, action_mroot h), (schedule_version h, enc_schedule <$> new_producers h)),
   ((header_extensions h, sig), (length (block_transactions b), block_extensions b))).
Definition dec_block (x : block_tuple) : block :=
  let '(((t, p), (c, pr)), ((tm, am), (sv, np)), ((he, sig), (n, be))) := x in
  mk_signed_block (mk_signed_header (mk_header t p c pr tm am sv (dec_schedule <$> np) he) sig) (replicate n tt) be.
Lemma dec_enc_block b : dec_block (enc_block b) = b.
Proof.
  destruct b as [[[t p c pr tm am sv np he] [z d]] l be]. unfold dec_block, enc_block. cbn. f_equal.
  - f_equal. f_equal. destruct np as [s|]; cbn; [by rewrite dec_enc_schedule|done].
  - induction l as [|[] l IH]; [done|]. cbn. by rewrite IH.
Qed.

(** A block that comes after block [n]; [p] tells blocks apart. *)
Definition block_after (n p : Z) : block :=
  mk_signed_block (mk_signed_header (mk_header 100 p 0 (mk_digest (byte_swap_u32 n) 0 0 0) digest_zero digest_zero 1 None []) (0, digest_zero)) [] [].

#[local] Instance toy_blocks : Packing block := marked_packing enc_block dec_block dec_enc_block (block_after 0 0).
#[local] Instance toy_genesis : Packing Z := marked_packing (fun z => z) (fun z => z) (fun z => eq_refl) 0.

Definition b1 : block := block_after 0 1.
Definition b2 : block := block_after 1 1.
Definition b3 : block := block_after 2 1.
Definition other_b1 : block := block_after 0 9.

Lemma toy_numbers l : l = [b1] \/ l = [b1; b2] \/ l = [b1; b2; b3] -> numbers_ok 2 1 5 l.
Proof.
  intros Hl. split; [lia| |by destruct Hl as [-> |[-> | ->]]]. intros i b Hb.
  destruct Hl as [-> |[-> | ->]]; do 4 (destruct i as [|i]; [cbn in Hb; first [discriminate Hb|injection Hb as <-; by vm_compute]|]); by destruct i.
Qed.

(** A new log with block 1. *)
Definition fresh : @block_log toy_fc unit := snd (reset 5 (Some b1) 1 (new_block_log [] [])).
Lemma fresh_holds : holds 2 1 5 [b1] fresh.
Proof. destruct (reset_holds 1 5 (Some b1) (new_block_log [] []) (toy_numbers [b1] (or_introl eq_refl))) as (s & E & Hs). unfold fresh. by rewrite E. Qed.

(** Block 2 is appended, read, and read again after a restart with a stale index; then
    it cannot be appended again. *)
Definition session : list (@log_call toy_fc unit) := [Append b2; ReadNum 2; Reopen 1; ReadNum 2; ReadNum 1; ReadNum 9; Append b2].

Lemma block_log_implements_list_witness :
  fst (calls (call_log (genesis_state := Z)) session fresh)
  = [Ok None; Ok (Some b2); Ok None; Ok (Some b2); Ok (Some b1); Ok None; Throw block_log_append_fail]
  /\ holds 2 1 5 [b1; b2] (snd (calls (call_log (genesis_state := Z)) session fresh)).
Proof.
  destruct (block_log_implements_list 2 1 5 [b1] fresh session) as [Hr Hs].
  - apply fresh_holds.
  - by left.
  - assert (snd (calls (call_list 1) session [b1]) = [b1; b2]) as -> by vm_refl. apply toy_numbers. by right; left.
  - rewrite Hr. split; [vm_refl|].
    assert (snd (calls (call_list 1) session [b1]) = [b1; b2]) as E by vm_refl. rewrite E in Hs. exact Hs.
Defined.

(** The crash came three bytes before the end of block 3. *)
Definition three : bytes := log_of 2 1 5 [b1; b2; b3].
Definition cut : nat := length three - 3.

Lemma repair_log_recovers_witness : exists tail_ s,
  repair_log (genesis_state := Z) 0 (mk_dir (Some (take cut three)) (Some [1]) None, None)
    = (Ok tt, (dir_with 2 1 5 [b1; b2] tail_, Some (mk_dir (Some (take cut three)) (Some [1]) None)))
  /\ open (genesis_state := Z) (new_block_log (log_of 2 1 5 [b1; b2]) []) = (Ok tt, s) /\ holds 2 1 5 [b1; b2] s.
Proof.
  destruct (repair_log_recovers 2 1 5 [b1; b2; b3] (toy_numbers [b1; b2; b3] ltac:(tauto)) cut 2) with (t := 0) (idx := Some [1]) (tl := @None bytes)
    as (tail_ & E & s & Eo & Hs).
  - unfold cut, three. lia.
  - cbn. lia.
  - apply Nat.leb_le. vm_refl.
  - intros _. apply Nat.ltb_lt. vm_refl.
  - reflexivity.
  - assert (upto 0 (take 2 [b1; b2; b3]) = [b1; b2]) as Eu by vm_refl. rewrite Eu in *. exists tail_, s. split; [exact E|]. split; [exact Eo|exact Hs].
Defined.

(** fc::copy refuses. *)
Definition no_copy (_ _ : bytes) : res bytes := Throw assert_exception.

Lemma backup_log_completes_witness : backed_up three (backup_log no_copy (Some three, Some (log_of 2 1 5 [b1]))).
Proof.
  destruct (backup_log_completes 2 1 5 [b1; b2; b3] (toy_numbers [b1; b2; b3] ltac:(tauto)) no_copy 1) as [_ E].
  - lia.
  - exact E.
Defined.

(** A backup of another branch, whose last block has the same number, is not
    replaced: the later blocks of the log are appended to it. *)
Theorem backup_of_another_branch_mixed :
  backup_log no_copy (Some (log_of 2 1 5 [b1; b2]), Some (log_of 2 1 5 [other_b1]))
  = (Ok tt, (Some (log_of 2 1 5 [b1; b2]), Some (log_of 2 1 5 [other_b1; b2]))).
Proof. vm_refl. Qed.

(** A backup with no block yet is never completed. *)
Theorem backup_without_blocks_stays :
  backup_log no_copy (Some (log_of 2 1 5 [b1; b2]), Some (log_of 2 1 5 [])) = (Ok tt, (Some (log_of 2 1 5 [b1; b2]), Some (log_of 2 1 5 []))).
Proof. vm_refl. Qed.

(** The tail that could not be unpacked is saved from where fc stopped reading, not from
    where it begins, and with as many zeros at its end. *)
Theorem bad_tail_loses_bytes :
  repair_log (genesis_state := Z) 0 (mk_dir (Some (log_of 2 1 5 [b1] ++ [7; 8; 9])) None None, None)
  = (Ok tt, (dir_with 2 1 5 [b1] (Some [8; 9; 0]), Some (mk_dir (Some (log_of 2 1 5 [b1] ++ [7; 8; 9])) None None))).
Proof. vm_refl. Qed.

(** An index of fewer than eight bytes makes open throw, although the log is sound and
    the index could be rebuilt. *)
Theorem torn_index_not_rebuilt :
  fst (open (genesis_state := Z) (new_block_log (log_of 2 1 5 [b1]) (take 4 (index_of 2 1 5 [b1])))) = Throw ios_base_failure.
Proof. vm_refl. Qed.
